(* ===== verification/_CoqProject ===== *)
-Q . S2P
Prelude.v
Calls.v
GoStr.v
Machine.v
MachineProps.v
Claim.v
ClaimProps.v
Pool.v
PoolProps.v
Sizing.v
Controller.v
ControllerProps.v
Resume.v
ResumeProps.v
ProdStore.v
ProdStoreProps.v
ContextAsm.v
ContextAsmProps.v
CoordDb.v
ProdClaim.v
Settle.v
DriverClaims.v
ProdEffects.v
Handoff.v
EndpointGate.v
Heartbeat.v
Intake.v
ToolGate.v
ModelEndpoint.v
RateLimit.v
Wire.v
Mirror.v
MirrorProps.v
RunStatus.v
RunStatusProps.v
Adopt.v
AdoptProps.v
Follow.v
FollowProps.v
Teardown.v
Outbox.v
OutboxProps.v
RunStream.v
RunStreamProps.v
Room.v
RoomProps.v
Party.v
PartyProps.v
Dispatched.v
DebateProps.v
Thread.v
Shim.v
ShimProps.v
Objects.v
Board.v
Authoring.v
AuthoringProps.v
BoardProps.v
BoardTxn.v
Toolchain.v
ToolchainProps.v
Capability.v
CapabilityProps.v
ToolGateProps.v
ModelEndpointProps.v
RateLimitProps.v
Driver.v
CoordTx.v
Custody.v
Sweeps.v
ProdClaimProps.v
SettleProps.v
EffectsProps.v
HandoffProps.v
EndpointGateProps.v
DriverProps.v
HeartbeatProps.v
IntakeProps.v
DriverLoop.v
DriverLoopProps.v
