(* ===== verification/Prelude.v ===== *)
(** * K8squad verification library

    K8squad runs AI agents on Kubernetes. A Run walks a durable state machine; a
    coordination schema in Postgres says who holds a work item and under which
    fence; a warm pool of sandbox pods is bound to Runs at claim time; holds for
    rate limits and credentials are durable pause episodes woken by a single
    timer. This library models those parts, operation by operation, and proves
    what each promises to the others. Paths are under [src/].

    ** Files

    - [Prelude.v] (this file): results, SQL three-valued comparisons, int64
      wrap-around, shared tactics and list lemmas.

    - [Machine.v], [MachineProps.v]: the Run state machine
      ([pkg/reconcile/machine.go], [memstore.go], [outcome.go]). The store and
      the outside world are type classes ([Store], [Effects]) as in the code;
      [StoreLaws] states what the store's interface promises, and the theorems
      about controllers are proved against it. [MemStore] and [World] are the
      in-memory implementations of memstore.go and discharge the laws.
      Proved: a drive that crashes anywhere and is resumed leaves the world of an
      uncrashed drive; at-most-once effects under every interleaving of
      controllers, zombies, reclaims and retry laps (the transition system
      [sys_step]); every run of [Reconcile] is a path of that system; fencing;
      termination; agreement of classification, phase and outcome.

    - [ProdStore.v], [ProdStoreProps.v]: the same interface on the production
      schema ([pkg/coord/prodreconcile.go]), the follow-settlement marker
      ([a2asettle.go]) and the board-lane moves ([humanstate.go]). The database
      is a record of tables; a failing statement is an argument of each
      transaction. Proved: the bound store satisfies [StoreLaws], so the theorems
      of the machine hold of it; an advance is all or nothing under any failure;
      the follow gate; settlement and lane moves.

    - [Claim.v], [ClaimProps.v]: the claim spine ([pkg/coord/coord.go]) and the
      reclaim sweeper ([sweeper.go]): claim, lease, fence and dispatch marker,
      one definition per statement, the wall clock and the rows other
      transactions lock as arguments. Proved over every sequence of operations
      under a non-decreasing clock: fences grow with every new generation, an
      item completes once, live leases exclude, a run dispatches one task, a
      reclaim is refused when the fence is unconfirmed, the sweep and the pop are
      exact.

    - [Resume.v], [ResumeProps.v]: the pause/resume engine
      ([pkg/coord/resume.go], [resumeprod.go]), the per-credential ledger
      ([credpause.go]) and the credential signal ([credsignal.go]). One generic
      episode table serves the three ledgers. Proved: every episode is resumed at
      most once and never early, refresh-only holds have no timer, the wake is
      the earliest, the loop does not poll or spin, the backoff envelope with the
      int64 shift and binary64 rounding written out, the atomicity of a signal.

    - [Pool.v], [PoolProps.v]: the warm pool ([pkg/warmpool/pool.go]). Sandboxes
      are objects in a heap shared by three indexes; one definition per critical
      section, and the whole methods on top. Proved over every interleaving of
      the critical sections of concurrent calls with arbitrary provisioner
      answers ([pool_step]): no sandbox serves two runs, condemned or given
      sandboxes never become claimable again. For whole calls: Bind is total,
      transactional and idempotent and pops the oldest live slot, Release never
      forgets a live pod, the inventory is exact.

    - [Sizing.v], [Controller.v], [ControllerProps.v]: the sizing policy and
      autoscaler ([sizing.go], on IEEE binary64 numbers) and the controller
      ([controller.go]) over the pool. Proved: the capacity cap is the largest
      count that fits, capacity only vetoes, targets stay in their band, the
      hysteresis of the autoscaler, the shipped curve, bounded replenishment.

    - [ContextAsm.v], [ContextAsmProps.v]: context assembly
      ([pkg/contextasm]): the provenance-tiered envelope, the token budget, the
      injection payload and the prompt, and the whole pipeline over the readers
      of the control plane ([Sources]). Proved: the task reaches the agent whole
      and first, every source stays in its tier, the exact conditions and
      effects of the budget, identical resumes; and the limits of each (forged
      block boundaries, a budget overrun by truncated content, truncated recall
      that is not pinned).

    - [CoordDb.v], [CoordTx.v]: the coordination schema
      ([db/migrations], the tables the files below write) as a record of tables,
      and a transaction as a small monad over it: a statement may fail, a
      transaction that does not commit leaves no trace, and a commit that reports
      an error may or may not have landed. [CoordTx.v] holds the rules that
      reason about a transaction by its statements.

    - [ProdClaim.v], [ProdClaimProps.v]: the production claim, the heartbeat and
      the rate-limit re-route ([pkg/coord/prodclaim.go], [prodheartbeat.go],
      [prodreroute.go]). Proved: what a claim grants and changes, that it grants
      when it can, and that a re-routed item stays away from the throttled
      credential while its hold lasts.

    - [Settle.v], [DriverClaims.v], [SettleProps.v]: the terminal settle and the
      kill ([settle.go], [cancelprod.go]) and the driver's re-entries, pauses and
      gate ([pkg/controller/rundrive/store.go]). Proved: each on every branch,
      the settle's one summary per run included.

    - [ProdEffects.v], [EffectsProps.v]: bind, dispatch, collect and terminal on
      the production schema ([prodeffects.go]), the physical ports arguments.
      Proved: a task is submitted before it is marked and never after.

    - [Handoff.v], [HandoffProps.v]: the hand-off artifact and the coordinator's
      dispatch ([prodhandoff.go], [proddispatch.go]). Proved: a hand-off is read
      back as written, and one completion has one next item.

    - [Custody.v]: what the writers of those five files promise together, the machine's
      step advance ([prodreconcile.go], in [DriverClaims.v]) among them. One relation ([writes]) has a constructor per writer; each
      constructor is shown lawful once, and the schema's well-formedness and the
      custody discipline follow for every execution. The heartbeat's release and the
      intake's re-arm keep less of it and are added in [Sweeps.v]; credential signals
      and the board's authoring are in files of their own and not among them.

    - [EndpointGate.v], [EndpointGateProps.v]: the admission gate of model
      endpoints ([pkg/controller/rundrive/endpoint_gate.go]). Proved over every
      sequence of calls: capacity, order, and a bound on waiting.

    - [Calls.v], [GoStr.v]: programs over the calls of an interface with their
      executions and a calculus of what a program does whatever it is answered;
      Go's string and integer text functions, and encoding/json as the rooms use it: an
      object read as a map, merged into and written back, and a struct decoded from it,
      whose fields take every key that folds to their name. Code that works through Kubernetes
      or through seams is such a program, and the world answers anything unless
      the theorem says otherwise.

    - [Driver.v], [DriverProps.v], [DriverLoop.v], [DriverLoopProps.v]: one
      reconcile of a Run ([rundrive/driver.go]) and the loop around it, with the
      machine, the effects and the claims underneath. Proved: what a drive does
      under which custody, how a run ends, the laps, and where the loop holds or
      repeats itself.

    - [ToolGate.v], [ToolGateProps.v]: the go-live gate on managed tool
      credentials ([pkg/toolcred], [rundrive/driver.go]). Proved: fail-closed.

    - [Heartbeat.v], [HeartbeatProps.v]: the heartbeat sweep and the release of
      dead and stalled runs ([rundrive/heartbeat.go], [store.go]). Proved: a
      release needs proof, and a renewed lease outlasts the interval.

    - [Intake.v], [IntakeProps.v]: the intake of due work items
      ([rundrive/intake.go]): which items are due, which Runs are made for them,
      the retries and their cap. [Sweeps.v] adds these two to the writers of the
      schema and extends the discipline of [Custody.v] to them.

    - [ModelEndpoint.v], [ModelEndpointProps.v]: the effective endpoint of an
      agent, the fallback on a rate limit, its parsing and the record of model
      segments ([pkg/modelendpoint]). [RateLimit.v], [RateLimitProps.v]: the
      consumer of the rate-limit signal and the model route of a dispatched task
      ([internal/a2a/ratelimit.go], [rundrive/ratelimitbridge.go],
      [dispatch.go]). Proved: the endpoint is one unit of one tier, what a signal
      may do, and which route a dispatch takes.

    - [Wire.v]: the events of an agent's stream
      ([third_party/k8sagentmesh/a2a/types.go]) and the payload readers of their
      consumers.

    - [Mirror.v], [MirrorProps.v]: the progress mirror
      ([rundrive/progressmirror.go]): the critical sections as steps of events in
      flight. Proved over any interleaving, with failing and unacknowledged
      writes and restarts: one summary per run, faithful rows, the pacing.

    - [RunStatus.v], [RunStatusProps.v]: the writers of a Run's usage, trace id
      and sandbox ([runllm_status.go], [sandboxref_status.go]). Proved: the tally,
      and the observation on every branch.

    - [Adopt.v], [AdoptProps.v]: the adoption pass and the sweeps of sandbox pods
      ([pkg/warmpool/adopt.go]). Proved: the grounds of every deletion and
      adoption, and of every pod kept.

    - [Follow.v], [FollowProps.v]: the follow of a dispatched task, the count of
      live follows, what the operator does when one ends, and the re-attachment
      after a restart ([internal/a2a/client.go], [dispatcher.go], the OnDone of
      [cmd/operator/main.go], [pkg/coord/a2areattach.go], [rundrive/reattach.go]).
      Proved: the stream is forwarded whole, the count is exact, the end is
      marked before anything is released, what is attached again.
      [Teardown.v] runs the sweep of [Adopt.v] over that operator.

    - [Outbox.v], [OutboxProps.v]: the event outbox, its relay and the names of
      its subjects ([pkg/events], [cmd/event-relay]). Proved: an event committed
      with its transaction is published and stamped, or still due, whatever fails;
      a relay that is not disturbed empties the outbox.

    - [RunStream.v], [RunStreamProps.v]: the live stream of a run's events over
      server-sent events ([internal/apiserver/runevents.go], [sse.go]). Proved:
      what a client receives is in order and without repetition, and is the whole
      log when every commit precedes its read; what an EventSource makes of the bytes
      is the events that were written exactly when their data has no carriage return.

    - [Room.v], [RoomProps.v]: the path of a discussion room's message to agent
      runs ([internal/discussion/dispatch.go], [store.go],
      [internal/mentiondispatch]): mentions, guardrails, routing, the ledger of
      dispatches and the minting of a run. [Party.v], [PartyProps.v], [Dispatched.v],
      [DebateProps.v]: the party debate ([party.go], [facilitator.go],
      [advancer.go], [advancer_runner.go], [party_dispatch.go], [reset.go]): the
      advancer's pass, the handlers of posts and resets, and the tables that
      answer them, as one system in which the advancer may die anywhere
      ([debates]). A dispatch may commit and still be answered with an error, and its
      turn is then given up and run again; [Dispatched.v] shows that every other
      dispatch keeps its row in the ledger. Proved: but for those lost dispatches, a
      debate stays within its budget and its voices speak one after another; a mention
      dispatches exactly whom it may; a chain of replies ends, unless an agent brings
      a key that escapes the stamp of its hop; and that the closing takeaways are never
      minted. [Thread.v]: the tree
      of a thread's messages holds each once.

    - [Shim.v], [ShimProps.v]: the engine inside an agent's pod ([pkg/shim/engine.go],
      [task.go]): submissions, the drive of a task, the runner's progress,
      cancellations and streams as interleaved sections under the task's lock.
      Proved in every interleaving: a task runs and ends once, its log is in order
      and closes with that end, it carries one deliverable, and a stream resumes
      without a gap.

    - [Objects.v], [Toolchain.v], [ToolchainProps.v], [Capability.v],
      [CapabilityProps.v]: what a Run's agents may reach ([pkg/toolchain],
      [pkg/capability], [pkg/controller/run/rbac.go], [assembly.go]): the demand of
      their skills, its resolution against the cluster catalog and the team's
      override, the Run's role, the grant, the servers and tools, the tokens and the
      recorded manifest, as programs over calls of the API server. Proved, whatever
      the API server answers: no permission beyond the catalog, one demand for
      admission, role and manifest, exactly the grant the Team and its roles give,
      no tool outside its server's filter, and the authoring token only with the
      grant or when a skill names its server itself.

    - [Board.v], [Authoring.v], [AuthoringProps.v], [BoardProps.v], [BoardTxn.v]: the
      writers of work items ([pkg/coord/workitemwrite.go], [workitemauthor.go],
      [workitemcomment.go], [workitemdispatch.go], [agentdispatch.go], [reviewitem.go],
      [cifailureitem.go]) and the tools agents reach them by
      ([internal/memory/agentauthor.go]), as programs of SQL statements. [Board.v] gives
      the statements a meaning under READ COMMITTED with row locks, where others may
      commit between two of them; [BoardProps.v] runs whole operations one after
      another. Proved: an agent writes only within its custody and with the grant; the
      board stays a forest and an agent's fan-out within its bounds, operation by
      operation, and how overlapping ones break both; a refusal leaves no trace; what
      a dispatch commits among other transactions.

    ** Conventions

    Go maps are finite maps, slices lists, durations and instants integers in
    nanoseconds. Errors are values of [result] or [option]; error texts keep at
    least their fixed prefix. A SQL statement or a mutex section is one atomic
    step; interleavings are sequences of such steps. In the files over
    [CoordDb.v] row locks make a whole transaction one step; foreign keys and the
    tenancy trigger are not checked there (a violation is a failing statement,
    and any statement may fail), and uuid text is taken in its canonical form.
    The clock, random draws, minted ids, provisioner and database failures and
    rows locked by others are arguments, so the theorems hold for all of them.
    Code outside the repository (uuid parsing, the trace carrier, JSON and its
    jsonb form, SHA-256, SQL interval texts, math.Log, out-of-range float
    conversions, path.Match, the order sort.Slice leaves equal elements in) is a
    parameter, as are the Unicode classes of runes above U+00FF. In the rooms a
    message's payload is a JSON document with its keys decoded (a number keeps its
    literal), the body of a minted item the data it is rendered from, and names are
    folded to lower case on ASCII; the list of requested dispatches also records whether
    the dispatcher was told of each, which no code reads.

    ** Fuel

    [Machine.Reconcile] takes fuel for its loop: [MaxPasses] + 1 is enough
    whenever [MaxPasses] is positive, and without the bound a held Run makes the
    loop run forever, as proved. [Pool.Bind] takes fuel for its retry on phantom
    FIFO slots: one more than the length of the key's FIFO is enough.

    [GoStr.strip] and the like take the length of their string, and [Mirror.Handle]
    the six steps an event has behind the mirror's first critical section.
    The walks of [Authoring.v] up the board have the code's own cap of 256 as their fuel,
    and running out of it is the error the code returns. [Party.flattenMessages] takes the size of its forest, one message a step, and
    [Thread.build] the number of rows, which bounds the depth of a reply; both are
    shown to lose nothing. No other definition takes fuel: programs over calls are
    finite.

    ** Not modelled

    Board reads, the staging of a Run's documents into its pods and their rendering,
    the shim's runtime adapters, and of the rooms the proposals, decision requests,
    list reads and the rendered texts of directives: each is a component of its own
    that no theorem here rests on. The shim's process runner is pipes, timers and
    signals. HTTP handlers, transports, Kubernetes and GitHub clients and the
    controllers that only build objects for them, telemetry, the console and the
    deployment files are glue or I/O and are left
    out. *)
From stdpp Require Export base gmap strings list fin_maps sorting pretty.
From Stdlib Require Export ZArith Lia.

(** * Scopes, results and errors *)

Declare Scope k8s_scope.
Delimit Scope k8s_scope with k8s.

(** A Go [(T, error)] return: either a value or the error. *)
Inductive result (E A : Type) : Type :=
| Ok (a : A)
| Err (e : E).
Arguments Ok {E A} a.
Arguments Err {E A} e.

Definition rbind {E A B} (m : result E A) (k : A -> result E B) : result E B :=
  match m with
  | Ok a => k a
  | Err e => Err e
  end.

Notation "'let?' x ':=' m 'in' k" := (rbind m (fun x => k))
  (at level 10, x pattern, m at level 100, k at level 200) : k8s_scope.

Definition is_ok {E A} (m : result E A) : bool :=
  match m with Ok _ => true | Err _ => false end.

#[export] Instance result_eq_dec {E A} `{EqDecision E, EqDecision A} :
  EqDecision (result E A).
Proof. solve_decision. Defined.

(** * Machine integers: Go's int64 wraps around *)

Definition wrap64 (x : Z) : Z := ((x + 2 ^ 63) mod 2 ^ 64 - 2 ^ 63)%Z.
Definition int64 (x : Z) : Prop := (- 2 ^ 63 <= x < 2 ^ 63)%Z.

Lemma wrap64_id x : int64 x -> wrap64 x = x.
Proof. unfold int64, wrap64. intros H. rewrite Z.mod_small; lia. Qed.

Lemma wrap64_range x : int64 (wrap64 x).
Proof.
  unfold int64, wrap64. pose proof (Z.mod_pos_bound (x + 2 ^ 63) (2 ^ 64)). lia.
Qed.

(** * SQL three-valued comparisons

    A comparison with a NULL operand is not true: a [WHERE] clause drops the
    row. *)

Definition sql_ltb (a : option Z) (b : Z) : bool :=
  match a with Some x => (x <? b)%Z | None => false end.

Definition sql_gtb (a : option Z) (b : Z) : bool :=
  match a with Some x => (b <? x)%Z | None => false end.

Definition sql_eqb {A} `{EqDecision A} (a : option A) (b : A) : bool :=
  bool_decide (a = Some b).

Lemma sql_eqb_refl {A} `{EqDecision A} (b : A) : sql_eqb (Some b) b = true.
Proof. by apply bool_decide_eq_true_2. Qed.

(** * Development tactics *)

Create HintDb k8s.

(** Turn boolean guards of the code into propositions. *)
Ltac reflect_bools :=
  repeat match goal with
  | H : context [bool_decide _] |- _ => progress rewrite ?bool_decide_eq_true, ?bool_decide_eq_false in H
  | H : _ && _ = true |- _ => apply andb_true_iff in H as [? ?]
  | H : _ || _ = false |- _ => apply orb_false_iff in H as [? ?]
  | H : _ && _ = false |- _ => apply andb_false_iff in H
  | H : _ || _ = true |- _ => apply orb_true_iff in H
  | H : negb _ = true |- _ => apply negb_true_iff in H
  | H : negb _ = false |- _ => apply negb_false_iff in H
  | H : (_ <? _)%Z = true |- _ => apply Z.ltb_lt in H
  | H : (_ <? _)%Z = false |- _ => apply Z.ltb_ge in H
  | H : (_ <=? _)%Z = true |- _ => apply Z.leb_le in H
  | H : (_ <=? _)%Z = false |- _ => apply Z.leb_gt in H
  | H : (_ =? _)%Z = true |- _ => apply Z.eqb_eq in H
  | H : (_ =? _)%Z = false |- _ => apply Z.eqb_neq in H
  end.

(** Split every conditional and [match] of the goal or of a hypothesis, keeping
    the equations, and discharge the contradictory branches. *)
Ltac split_matches :=
  repeat (case_match; simplify_eq/=); reflect_bools.

(** Evaluate the decisions of a goal whose sides are closed. *)
Ltac eval_decides :=
  repeat match goal with
  | |- context [bool_decide ?P] =>
      let v := eval vm_compute in (bool_decide P) in
      lazymatch v with
      | true => change (bool_decide P) with true
      | false => change (bool_decide P) with false
      end
  end; cbv beta iota.

(** * List lemmas shared by the components *)

Section lists.
Context {A : Type} {eqA : EqDecision A}.

(** A slice scanned for an element, appended to when it is missing. *)
Definition append_once (x : A) (l : list A) : list A :=
  if bool_decide (x ∈ l) then l else l ++ [x].

Lemma append_once_elem x y l :
  y ∈ append_once x l ↔ y = x ∨ y ∈ l.
Proof.
  unfold append_once. case_bool_decide; [set_solver|].
  rewrite elem_of_app, list_elem_of_singleton. tauto.
Qed.

Lemma append_once_nodup x l : NoDup l → NoDup (append_once x l).
Proof.
  intros Hl. unfold append_once. case_bool_decide; [done|].
  apply NoDup_app. split_and!; [done| |apply NoDup_singleton].
  intros y Hy ->%list_elem_of_singleton. done.
Qed.

Lemma append_once_idem x l : append_once x (append_once x l) = append_once x l.
Proof.
  unfold append_once at 1. rewrite bool_decide_eq_true_2; [done|].
  apply append_once_elem. by left.
Qed.

Lemma append_once_prefix x l : l `prefix_of` append_once x l.
Proof. unfold append_once. case_bool_decide; [done|]. by eexists. Qed.
End lists.

#[export] Hint Resolve append_once_nodup : k8s.
