(* ===== verification/Calls.v ===== *)
(** Programs over the calls of an interface, and their histories. Code that works
    through Go interfaces (a Kubernetes client, a store, optional seams) is a
    program [Prog] that makes calls of a signature [C] and goes on with their
    answers; [runs] are its executions against a world, and [obeys] is a calculus
    of what it does whatever it is answered. *)
From S2P Require Import Prelude.
Open Scope k8s_scope.

Inductive Prog (C : Type -> Type) (A : Type) : Type :=
| Ret (a : A)
| Do {X : Type} (c : C X) (k : X -> Prog C A).
Arguments Ret {C A} a.
Arguments Do {C A X} c k.

Fixpoint pbind {C A B} (p : Prog C A) (f : A -> Prog C B) : Prog C B :=
  match p with
  | Ret a => f a
  | Do c k => Do c (fun x => pbind (k x) f)
  end.

Definition call {C X} (c : C X) : Prog C X := Do c Ret.

Notation "'let*' x ':=' m 'in' k" := (pbind m (fun x => k))
  (at level 10, x pattern, m at level 100, k at level 200) : k8s_scope.

(** A call with its answer. *)
Inductive Event (C : Type -> Type) : Type :=
| Ev {X : Type} (c : C X) (x : X).
Arguments Ev {C X} c x.

(** The executions of a program against a world whose answers [h] allows. *)
Inductive runs {C W A} (h : forall X, C X -> W -> X -> W -> Prop) : Prog C A -> W -> list (Event C) -> A -> W -> Prop :=
| runs_ret a w : runs h (Ret a) w [] a w
| runs_do X (c : C X) k x w w1 t a w2 :
    h X c w x w1 -> runs h (k x) w1 t a w2 -> runs h (Do c k) w (Ev c x :: t) a w2.

(** What an execution begins with. *)
Lemma runs_inv {C W A} (h : forall X, C X -> W -> X -> W -> Prop) (p : Prog C A) w t a w' :
  runs h p w t a w' ->
  match p with
  | Ret b => t = [] /\ a = b /\ w = w'
  | Do c k => exists x w1 t', t = Ev c x :: t' /\ h _ c w x w1 /\ runs h (k x) w1 t' a w'
  end.
Proof. intros []; [done|]. eexists _, _, _. eauto. Qed.

Lemma runs_bind {C W A B} (h : forall X, C X -> W -> X -> W -> Prop) (p : Prog C A) (f : A -> Prog C B) w t b w' :
  runs h (pbind p f) w t b w' ->
  exists t1 a w1 t2, t = t1 ++ t2 /\ runs h p w t1 a w1 /\ runs h (f a) w1 t2 b w'.
Proof.
  revert w t. induction p as [a|X c k IH]; intros w t; cbn.
  - intros H. exists [], a, w, t. split; [done|]. split; [constructor|done].
  - intros (x & w1 & t' & -> & Hc & Hr)%runs_inv. destruct (IH _ _ _ Hr) as (t1 & a & w2 & t2 & -> & H1 & H2).
    exists (Ev c x :: t1), a, w2, t2. split; [done|]. split; [by econstructor|done].
Qed.

(** A program over the calls of another signature, as part of a larger one. *)
Fixpoint embed {C D : Type -> Type} {A} (f : forall X, C X -> D X) (p : Prog C A) : Prog D A :=
  match p with
  | Ret a => Ret a
  | Do c k => Do (f _ c) (fun x => embed f (k x))
  end.

Definition embed_event {C D : Type -> Type} (f : forall X, C X -> D X) (e : Event C) : Event D :=
  match e with Ev c x => Ev (f _ c) x end.

Lemma runs_embed {C D : Type -> Type} {W A} (f : forall X, C X -> D X) (h : forall X, D X -> W -> X -> W -> Prop)
    (p : Prog C A) w t a w' :
  runs h (embed f p) w t a w' ->
  exists t0, t = embed_event f <$> t0 /\ runs (fun X c => h X (f X c)) p w t0 a w'.
Proof.
  revert w t. induction p as [b|X c k IH]; intros w t; cbn.
  - intros (-> & -> & ->)%runs_inv. exists []. split; [done|constructor].
  - intros (x & w1 & t' & -> & Hc & Hr)%runs_inv. destruct (IH _ _ _ Hr) as (t0 & -> & H0).
    exists (Ev c x :: t0). split; [done|]. by econstructor.
Qed.

(** * A calculus of calls *)

Section calculus.
Context {C : Type -> Type} (may : list (Event C) -> forall X, C X -> Prop) (answers : forall X, C X -> X -> Prop).
Implicit Types (hist : list (Event C)).

(** After [hist], every call of the program is one it [may] make, whatever the
    answers it gets, and it ends where [post] holds. *)
Fixpoint obeys {A} (post : list (Event C) -> A -> Prop) hist (p : Prog C A) : Prop :=
  match p with
  | Ret a => post hist a
  | Do c k => may hist _ c /\ forall x, answers _ c x -> obeys post (hist ++ [Ev c x]) (k x)
  end.

Fixpoint trace_ok hist (t : list (Event C)) : Prop :=
  match t with
  | [] => True
  | Ev c x :: rest => may hist _ c /\ answers _ c x /\ trace_ok (hist ++ [Ev c x]) rest
  end.

Lemma obeys_bind {A B} post hist (p : Prog C A) (f : A -> Prog C B) :
  obeys (fun h a => obeys post h (f a)) hist p -> obeys post hist (pbind p f).
Proof.
  revert hist. induction p as [a|X c k IH]; intros hist; cbn; [done|].
  intros [Hc Hk]. split; [done|]. intros x Hx. apply IH. by apply Hk.
Qed.

Lemma obeys_weaken {A} (post post' : list (Event C) -> A -> Prop) hist (p : Prog C A) :
  obeys post hist p -> (forall h a, hist `prefix_of` h -> post h a -> post' h a) -> obeys post' hist p.
Proof.
  revert hist. induction p as [a|X c k IH]; intros hist; cbn.
  - intros Hp Hw. apply Hw; [reflexivity|done].
  - intros [Hc Hk] Hw. split; [done|]. intros x Hx. apply IH; [by apply Hk|].
    intros h a Hh. apply Hw. by eapply prefix_app_l.
Qed.

(** What a program obeys holds of its executions against any world that keeps
    [I], of the history and the state, and gives the answers assumed. *)
Lemma obeys_runs {W A} (h : forall X, C X -> W -> X -> W -> Prop) (I : list (Event C) -> W -> Prop) post
    (p : Prog C A) w t a w' :
  (forall hist X (c : C X) u x u', may hist X c -> I hist u -> h X c u x u' ->
     I (hist ++ [Ev c x]) u' /\ answers X c x) ->
  runs h p w t a w' -> forall hist, obeys post hist p -> I hist w ->
  I (hist ++ t) w' /\ trace_ok hist t /\ post (hist ++ t) a.
Proof.
  intros Hh Hr. induction Hr as [a w|X c k x w w1 t a w2 Hc Hr IH]; intros hist Ho HI; cbn in *.
  - rewrite app_nil_r. auto.
  - destruct Ho as [Hm Hk]. destruct (Hh hist _ _ _ _ _ Hm HI Hc) as [HI1 Hx].
    destruct (IH _ (Hk x Hx) HI1) as (HI2 & ? & Hp). rewrite <- app_assoc in HI2, Hp. auto.
Qed.

Lemma trace_ok_at hist t1 {X} (c : C X) x t2 :
  trace_ok hist (t1 ++ Ev c x :: t2) -> may (hist ++ t1) X c /\ answers X c x.
Proof.
  revert hist. induction t1 as [|[Y c' y] t1 IH]; intros hist; cbn.
  - rewrite app_nil_r. by intros (? & ? & _).
  - intros (_ & _ & Ht). apply IH in Ht. by rewrite <- app_assoc in Ht.
Qed.
End calculus.

(** Two accounts of one program, for the answers both allow. *)
Lemma obeys_both {C A} may1 may2 answers1 answers2 post1 post2 (hist : list (Event C)) (p : Prog C A) :
  (forall X (c : C X) x, answers2 X c x -> answers1 X c x) ->
  obeys may1 answers1 post1 hist p -> obeys may2 answers2 post2 hist p ->
  obeys may2 answers2 (fun h a => post1 h a /\ post2 h a) hist p.
Proof.
  intros Hans. revert hist. induction p as [a|X c k IH]; intros hist; cbn; [done|].
  intros [_ H1] [Hm H2]. split; [done|]. intros x Hx. apply IH; [apply H1; auto|by apply H2].
Qed.

(** Every answer. *)
Definition any_answer {C : Type -> Type} : forall X, C X -> X -> Prop := fun _ _ _ => True.

(** A program that obeys whatever it is answered. *)
Lemma obeys_any {C W A} may (h : forall X, C X -> W -> X -> W -> Prop) (p : Prog C A) w t a w' :
  runs h p w t a w' -> obeys may any_answer (fun _ _ => True) [] p -> trace_ok may any_answer [] t.
Proof.
  intros Hr Ho. by eapply (obeys_runs may any_answer h (fun _ _ => True)) in Hr as (_ & Ht & _).
Qed.

(** * Facts of a history *)

Definition answered {C X} (hist : list (Event C)) (c : C X) (x : X) : Prop := Ev c x ∈ hist.

Lemma answered_prefix {C X} (hist h : list (Event C)) (c : C X) x :
  hist `prefix_of` h -> answered hist c x -> answered h c x.
Proof. intros [t ->] H. apply elem_of_app. by left. Qed.

Lemma answered_last {C X} (hist : list (Event C)) (c : C X) x : answered (hist ++ [Ev c x]) c x.
Proof. apply elem_of_app. right. by left. Qed.

Lemma answered_app {C X} (hist : list (Event C)) t (c : C X) x : answered hist c x -> answered (hist ++ t) c x.
Proof. apply answered_prefix. by exists t. Qed.

#[export] Hint Resolve answered_app answered_last : k8s.

(** Walk a program whose calls are free. *)
Ltac free_walk := repeat (cbn; first [done | split; [done|intros ? _] | case_match]).

(** The world is the script of what is left to be answered. *)
Definition scripted {C : Type -> Type} X (c : C X) (w : list (Event C)) (x : X) (w' : list (Event C)) : Prop :=
  w = Ev c x :: w'.

(** Expose the next call of a closed program; end it. *)
Ltac step_call := match goal with |- runs _ ?p _ _ _ _ => let q := eval hnf in p in change p with q end.
Ltac halt := step_call; apply runs_ret.

(** Follow a closed script through a closed program. *)
Ltac play :=
  repeat (match goal with |- runs _ _ _ (_ :: _) _ _ => step_call end; eapply runs_do; [reflexivity|cbv beta]); halt.

(** * A program among others

    The passes of one process, each made of calls the world answers, what happens
    elsewhere at any time in between, and a process that dies anywhere and begins
    another pass. *)
Section system.
Context {C : Type -> Type} {W : Type} (h : forall X, C X -> W -> X -> W -> Prop) (elsewhere : W -> W -> Prop).
Context (passes : Prog C unit -> Prop).

Inductive sys_step : W * Prog C unit -> W * Prog C unit -> Prop :=
| sys_call X (c : C X) k x w w' : h X c w x w' -> sys_step (w, Do c k) (w', k x)
| sys_elsewhere w w' p : elsewhere w w' -> sys_step (w, p) (w', p)
| sys_pass w p p' : passes p' -> sys_step (w, p) (w, p').

Definition sys_reaches (w0 : W) (s : W * Prog C unit) : Prop := rtc sys_step (w0, Ret tt) s.

(** An invariant of the world and of what the pass has been answered so far. *)
Lemma sys_invariant (may : list (Event C) -> forall X, C X -> Prop) (answers : forall X, C X -> X -> Prop)
    (I : list (Event C) -> W -> Prop) w0 s :
  (forall p, passes p -> obeys may answers (fun _ _ => True) [] p) ->
  (forall hist w, I hist w -> I [] w) ->
  (forall hist X (c : C X) w x w', may hist X c -> I hist w -> h X c w x w' -> I (hist ++ [Ev c x]) w' /\ answers X c x) ->
  (forall hist w w', I hist w -> elsewhere w w' -> I hist w') ->
  I [] w0 -> sys_reaches w0 s ->
  exists hist, I hist s.1 /\ obeys may answers (fun _ _ => True) hist s.2.
Proof.
  intros Hp Hcut Hc He H0 Hr. unfold sys_reaches in Hr.
  assert (exists hist, I hist (w0, Ret (C := C) tt).1 /\ obeys may answers (fun _ _ => True) hist (w0, Ret (C := C) tt).2) as HI
    by (exists []; done).
  revert HI. generalize (w0, Ret (C := C) tt) Hr. clear Hr. intros s0 Hr.
  induction Hr as [s0|s0 s1 s Hs _ IH]; [done|]. intros (hist & HI & Ho). apply IH.
  destruct Hs as [X c k x w w' Hx|w w' p Hw|w p p' Hq]; cbn in *.
  - destruct Ho as [Hm Hk]. destruct (Hc _ _ _ _ _ _ Hm HI Hx) as [HI' Ha]. exists (hist ++ [Ev c x]). split; [done|]. by apply Hk.
  - exists hist. eauto.
  - exists []. eauto.
Qed.
End system.

(** What calls a program adds to its history. *)
Lemma obeys_adds {C A} (Q : forall X, C X -> Prop) answers (hist : list (Event C)) (p : Prog C A) :
  obeys (fun _ X c => Q X c) answers (fun _ _ => True) hist p ->
  obeys (fun _ X c => Q X c) answers (fun h _ => exists t, h = hist ++ t /\ forall X (c : C X) x, Ev c x ∈ t -> Q X c) hist p.
Proof.
  assert (forall t0, (forall X (c : C X) x, Ev c x ∈ t0 -> Q X c) ->
    obeys (fun _ X c => Q X c) answers (fun _ _ => True) (hist ++ t0) p ->
    obeys (fun _ X c => Q X c) answers (fun h _ => exists t, h = hist ++ t /\ forall X (c : C X) x, Ev c x ∈ t -> Q X c) (hist ++ t0) p) as H.
  { induction p as [a|X c k IH]; intros t0 H0; cbn; [by exists t0|]. intros [Hc Hk]. split; [done|]. intros x Hx.
    rewrite <- app_assoc. apply IH; [|rewrite app_assoc; by apply Hk]. intros Y d y [Hd|Hd]%elem_of_app; [by eapply H0|].
    apply list_elem_of_singleton in Hd.
    pose proof (f_equal (fun e : Event C => match e with Ev c _ => Q _ c end) Hd) as E. cbn in E. by rewrite E. }
  intros Ho. specialize (H []). rewrite app_nil_r in H. apply H; [|done]. intros X c x Hx. by apply not_elem_of_nil in Hx.
Qed.
