(* ===== verification/GoStr.v ===== *)
(** Go strings as byte strings: strings.TrimSpace and its relatives, with the
    Unicode white space written out, strings.Split, and strconv's decimal
    integers; and encoding/json's maps and structs. *)
From Stdlib Require Import Ascii DecimalString DecimalFacts DecimalN.
From S2P Require Import Prelude.
Open Scope Z_scope.
Local Open Scope string_scope.

(** * Bytes *)

Definition bytes (l : list nat) : string := String.string_of_list_ascii (ascii_of_nat <$> l).

(** The UTF-8 spellings of the runes unicode.IsSpace accepts. *)
Definition spaces : list string :=
  ((fun n => bytes [n]) <$> [9; 10; 11; 12; 13; 32]%nat) ++
  [bytes [194; 133]%nat; bytes [194; 160]%nat; bytes [225; 154; 128]%nat] ++
  ((fun n => bytes [226; 128; n]%nat) <$> [128; 129; 130; 131; 132; 133; 134; 135; 136; 137; 138; 168; 169; 175]%nat) ++
  [bytes [226; 129; 159]%nat; bytes [227; 128; 128]%nat].

Definition drop_bytes (n : nat) (s : string) : string := String.substring n (String.length s - n) s.

(** One pass of a trim: the rest after the first of [ps] that [s] starts with. *)
Definition strip_one (ps : list string) (s : string) : option string :=
  (fun p => drop_bytes (String.length p) s) <$> head (filter (fun p => String.prefix p s = true) ps).

Fixpoint strip (fuel : nat) (ps : list string) (s : string) : string :=
  match fuel with
  | O => s
  | S fuel => match strip_one ps s with Some rest => strip fuel ps rest | None => s end
  end.

(** Every pass removes a byte at least, so the length is enough fuel. *)
Definition trim_left (ps : list string) (s : string) : string := strip (String.length s) ps s.
Definition trim_right (ps : list string) (s : string) : string :=
  String.rev (trim_left (String.rev <$> ps) (String.rev s)).
Definition TrimSpace (s : string) : string := trim_right spaces (trim_left spaces s).

(** strings.Split by a one-byte separator. *)
Fixpoint split (sep : ascii) (s : string) : list string :=
  match s with
  | "" => [""]
  | String c rest =>
      match split sep rest with
      | [] => [""]
      | x :: xs => if bool_decide (c = sep) then "" :: x :: xs else String c x :: xs
      end
  end.

(** * Decimal integers *)

Local Open Scope Z_scope.

(** strconv.Atoi on 64 bits. *)
Definition atoi (s : string) : option Z :=
  let '(neg, digits) := match s with
                        | String c rest => if bool_decide (c = "-"%char) then (true, rest)
                                           else if bool_decide (c = "+"%char) then (false, rest) else (false, s)
                        | EmptyString => (false, s)
                        end in
  match digits with
  | EmptyString => None
  | _ =>
      match NilEmpty.uint_of_string digits with
      | Some u => let n := Z.of_uint u in
                  let n := if neg : bool then - n else n in
                  if (- 2 ^ 63 <=? n) && (n <? 2 ^ 63) then Some n else None
      | None => None
      end
  end.

(** The digits of %d for a number that is not negative. *)
Definition itoa (n : Z) : string := NilEmpty.string_of_uint (N.to_uint (Z.to_N n)).

(** * Lemmas *)

Lemma substring_all s : String.substring 0 (String.length s) s = s.
Proof. induction s as [|c s IH]; [done|]. cbn. by rewrite IH. Qed.

(** A string with no minus sign and no plus sign in it. *)
Fixpoint unsigned (s : string) : Prop :=
  match s with
  | EmptyString => True
  | String c rest => c <> "-"%char /\ c <> "+"%char /\ unsigned rest
  end.

Lemma uint_unsigned u : unsigned (NilEmpty.string_of_uint u).
Proof. induction u; cbn; [done|split_and!; [discriminate|discriminate|done]..]. Qed.

Lemma itoa_nonempty n : 0 <= n -> itoa n <> "".
Proof.
  unfold itoa. intros Hn H.
  assert (N.to_uint (Z.to_N n) = Decimal.Nil) as E by (destruct (N.to_uint (Z.to_N n)); [done|discriminate..]).
  apply (f_equal N.of_uint) in E as E'. rewrite DecimalN.Unsigned.of_to in E'.
  rewrite <- (Z2N.id n) in * by lia. cbn in E'. rewrite E' in E. discriminate E.
Qed.

Lemma atoi_itoa n : 0 <= n < 2 ^ 63 -> atoi (itoa n) = Some n.
Proof.
  intros Hn. pose proof (itoa_nonempty n ltac:(lia)) as Hne.
  assert (NilEmpty.uint_of_string (itoa n) = Some (N.to_uint (Z.to_N n))) as Hu by apply NilEmpty.usu.
  pose proof (uint_unsigned (N.to_uint (Z.to_N n))) as Huns. fold (itoa n) in Huns.
  unfold atoi. destruct (itoa n) as [|c s] eqn:E; [done|]. destruct Huns as (H1 & H2 & _).
  rewrite !bool_decide_eq_false_2, Hu by done. cbv zeta.
  replace (Z.of_uint (N.to_uint (Z.to_N n))) with n.
  - assert ((- 2 ^ 63 <=? n) && (n <? 2 ^ 63) = true) as -> by (apply andb_true_iff; lia). done.
  - rewrite <- (Z2N.id n) at 1 by lia. rewrite <- (DecimalN.Unsigned.of_to (Z.to_N n)) at 1. done.
Qed.

(** * encoding/json

    As the rooms' payloads use it: a document, an object read as a Go map and written
    back, and a struct decoded from it. Keys are held decoded; a struct's field takes
    every key that folds to its name, in the order of the document; a type error lets
    the decoding go on and is returned at its end. *)

(** A number keeps its literal; an object keeps the order and the repeats. *)
Inductive json : Set :=
| JNull
| JBool (b : bool)
| JNum (literal : string)
| JStr (s : string)
| JArr (elements : list json)
| JObj (members : list (string * json)).

(** ** Maps *)

(** The object as a map: the last of a key's values. *)
Definition members (m : list (string * json)) : gmap string json := list_to_map (reverse m).

Definition key_le (a b : string * json) : Prop := String.le a.1 b.1.
#[export] Instance key_le_dec : RelDecision key_le.
Proof. intros a b. unfold key_le. apply _. Defined.

(** json.Marshal of a map: its keys in order. *)
Definition object (M : gmap string json) : json := JObj (merge_sort key_le (map_to_list M)).

(** A value put under [key] of a document that is read as a map, where what is no
    object is replaced. [None]: null made the map nil, and the assignment panics. *)
Definition merge_key (existing : option json) (key : string) (v : json) : option json :=
  match existing with
  | Some JNull => None
  | Some (JObj m) => Some (object (<[key := v]> (members m)))
  | _ => Some (object {[key := v]})
  end.

(** ** Structs *)

Definition fold_char (c : ascii) : ascii :=
  let n := nat_of_ascii c in if ((97 <=? n) && (n <=? 122))%nat then ascii_of_nat (n - 32) else c.

(** The folded key, as far as it can match a name in ASCII: the long s and the Kelvin
    sign are the other runes that fold to a letter. *)
Fixpoint fold_bytes (s : list ascii) : list ascii :=
  match s with
  | ("197" :: "191" :: s)%char => "S"%char :: fold_bytes s
  | ("226" :: "132" :: "170" :: s)%char => "K"%char :: fold_bytes s
  | c :: s => fold_char c :: fold_bytes s
  | [] => []
  end.
Definition foldName (key : string) : list ascii := fold_bytes (String.list_ascii_of_string key).
Definition same_field (name key : string) : bool := bool_decide (foldName key = foldName name).

(** Decoding into [a]; [None]: an UnmarshalTypeError. null leaves what is there. *)
Definition Decoder (A : Type) : Type := A -> json -> option A.

Definition decode_int : Decoder Z := fun n j => match j with JNum s => atoi s | JNull => Some n | _ => None end.
Definition decode_bool : Decoder bool := fun b j => match j with JBool b => Some b | JNull => Some b | _ => None end.

Fixpoint decode_members {A} (name : string) (d : Decoder A) (a : A) (m : list (string * json)) : option A :=
  match m with
  | [] => Some a
  | (k, v) :: m => if same_field name k then d a v ≫= fun a => decode_members name d a m else decode_members name d a m
  end.

(** A struct of one field. *)
Definition decode_field {A} (name : string) (d : Decoder A) : Decoder A := fun a j =>
  match j with JObj m => decode_members name d a m | JNull => Some a | _ => None end.

(** %d *)
Definition json_int (n : Z) : json := JNum (if n <? 0 then "-" +:+ itoa (- n) else itoa n).

(** ** What is read back *)

Lemma members_object_list M : members (merge_sort key_le (map_to_list M)) = M.
Proof.
  unfold members. assert (reverse (merge_sort key_le (map_to_list M)) ≡ₚ map_to_list M) as HP.
  { etrans; [apply reverse_Permutation|apply merge_sort_Permutation]. }
  rewrite (list_to_map_proper _ (map_to_list M)); [apply list_to_map_to_list| |done].
  eapply (fmap_Permutation fst) in HP. rewrite HP. apply NoDup_fst_map_to_list.
Qed.

Lemma merge_merge M k v : merge_key (Some (object M)) k v = Some (object (<[k := v]> M)).
Proof. unfold object at 1. cbn. by rewrite members_object_list. Qed.

(** Only the matching members count. *)
Lemma decode_members_filter {A} name (d : Decoder A) m : forall a,
  decode_members name d a m = foldl (fun o kv => o ≫= fun a => d a kv.2) (Some a) (filter (fun kv => same_field name kv.1 = true) m).
Proof.
  assert (forall l, foldl (fun (o : option A) (kv : string * json) => o ≫= fun a => d a kv.2) None l = None) as Hnone by (induction l; done).
  induction m as [|[k v] m IH]; intros a; cbn [decode_members]; [done|]. rewrite filter_cons. cbn [fst].
  destruct (same_field name k); [rewrite decide_True by done|rewrite decide_False by done; apply IH]. cbn. destruct (d a v); cbn; [apply IH|by rewrite Hnone].
Qed.

(** No key but [name] itself is taken for it. *)
Definition sole_spelling (name : string) (M : gmap string json) : Prop :=
  forall k, is_Some (M !! k) -> same_field name k = true -> k = name.

Lemma sole_matches name M v : sole_spelling name M -> M !! name = Some v ->
  filter (fun kv => same_field name kv.1 = true) (merge_sort key_le (map_to_list M)) = [(name, v)].
Proof.
  intros Hs Hv. apply Permutation_singleton_r. apply NoDup_Permutation.
  - apply NoDup_filter. rewrite merge_sort_Permutation. apply NoDup_map_to_list.
  - apply NoDup_singleton.
  - intros [k w]. rewrite list_elem_of_filter, merge_sort_Permutation, elem_of_map_to_list, list_elem_of_singleton. cbn. split.
    + intros [Hk Hw]. assert (k = name) as -> by (apply Hs; [by eexists|done]). by simplify_eq.
    + intros [= -> ->]. split; [by apply bool_decide_eq_true|done].
Qed.

Lemma decode_sole {A} name (d : Decoder A) a M v : sole_spelling name M -> M !! name = Some v -> decode_field name d a (object M) = d a v.
Proof. intros Hs Hv. unfold decode_field, object. rewrite decode_members_filter, (sole_matches name M v) by done. done. Qed.

Lemma sole_insert name k v M : sole_spelling name M -> (same_field name k = true -> k = name) -> sole_spelling name (<[k := v]> M).
Proof.
  intros Hs Hk k' [w Hw] Hf. apply lookup_insert_Some in Hw as [[<- _]|[_ Hw]]; [auto|]. apply Hs; [by eexists|done].
Qed.
