(* ===== verification/Machine.v ===== *)
(** The crash-safe Run reconcile state machine (src/pkg/reconcile).

    [Step], [Phase] and the classifiers are the vocabulary of machine.go;
    [Store] and [Effects] are the two seams the machine is written against, as
    type classes; [Reconcile] and [runPhase] are generic in them. [MemStore] and
    [World] (memstore.go) are the in-memory implementations. outcome.go is at
    the end. *)
From S2P Require Import Prelude.
Open Scope Z_scope.

(** * Steps, phases and their classification *)

Inductive Phase : Set :=
| PhasePending | PhaseClaiming | PhaseRunning | PhasePaused | PhaseCanceling
| PhaseSucceeded | PhaseFailed | PhaseCancelled
| PhaseNone. (* the empty string, PhaseOf's default *)

(** [Step] is a Go string type; [StepOther] carries every value that is not one
    of the declared constants, the empty string included. *)
Inductive Step : Set :=
| StepPending | StepClaimingSandbox | StepDispatching | StepRunning
| StepCollecting | StepSucceeded | StepFailed | StepCancelled | StepCancelling
| StepPaused | StepPausedRateLimited | StepPausedCredentialExpired
| StepPausedCredentialRotated | StepPausedEndpointUnreachable
| StepPausedCredentialRequired
| StepOther (raw : string).

#[export] Instance Phase_eq_dec : EqDecision Phase.
Proof. solve_decision. Defined.
#[export] Instance Step_eq_dec : EqDecision Step.
Proof. solve_decision. Defined.

(** The zero value [""], which the options use for "none". *)
Abbreviation StepNone := (StepOther "").

(** The durable spelling of a step. *)
Definition step_string (s : Step) : string :=
  match s with
  | StepPending => "pending"
  | StepClaimingSandbox => "claiming_sandbox"
  | StepDispatching => "dispatching"
  | StepRunning => "running"
  | StepCollecting => "collecting"
  | StepSucceeded => "succeeded"
  | StepFailed => "failed"
  | StepCancelled => "cancelled"
  | StepCancelling => "cancelling"
  | StepPaused => "paused"
  | StepPausedRateLimited => "paused(rate_limited)"
  | StepPausedCredentialExpired => "paused(credential_expired)"
  | StepPausedCredentialRotated => "paused(credential_rotated)"
  | StepPausedEndpointUnreachable => "paused(endpoint_unreachable)"
  | StepPausedCredentialRequired => "paused(credential_required)"
  | StepOther raw => raw
  end.

Definition CredentialPauseSteps : list Step :=
  [StepPausedRateLimited; StepPausedCredentialExpired;
   StepPausedCredentialRotated; StepPausedEndpointUnreachable;
   StepPausedCredentialRequired].

Definition happyPath : list Step :=
  [StepPending; StepClaimingSandbox; StepDispatching;
   StepRunning; StepCollecting; StepSucceeded].

Definition terminalSteps : list Step :=
  [StepSucceeded; StepFailed; StepCancelled].

Definition resumableSteps : list Step :=
  [StepPending; StepClaimingSandbox; StepDispatching; StepRunning;
   StepCollecting; StepCancelling; StepPaused; StepPausedRateLimited;
   StepPausedCredentialExpired; StepPausedCredentialRotated;
   StepPausedEndpointUnreachable; StepPausedCredentialRequired].

Inductive Classification : Set := ClassTerminal | ClassResumable | ClassUnknown.

Definition Classify (s : Step) : Classification :=
  if bool_decide (s ∈ terminalSteps) then ClassTerminal
  else if bool_decide (s ∈ resumableSteps) then ClassResumable
  else ClassUnknown.

Definition IsTerminal (s : Step) : bool := bool_decide (s ∈ terminalSteps).

Record LifecycleEvent : Set := { Entity : string; EventType : string }.

Definition LifecycleEventsFor (from to : Step) : list LifecycleEvent :=
  match from, to with
  | StepPending, StepClaimingSandbox =>
      [{| Entity := "work_item"; EventType := "assigned" |};
       {| Entity := "run"; EventType := "scheduled" |}]
  | StepClaimingSandbox, StepDispatching =>
      [{| Entity := "run"; EventType := "sandbox_bound" |}]
  | StepDispatching, StepRunning =>
      [{| Entity := "run"; EventType := "started" |}]
  | StepCollecting, StepSucceeded =>
      [{| Entity := "run"; EventType := "ended" |}]
  | _, _ => []
  end.

Definition PhaseOf (s : Step) : Phase :=
  match s with
  | StepPending => PhasePending
  | StepClaimingSandbox | StepDispatching => PhaseClaiming
  | StepRunning | StepCollecting => PhaseRunning
  | StepPaused | StepPausedRateLimited | StepPausedCredentialExpired
  | StepPausedCredentialRotated | StepPausedEndpointUnreachable
  | StepPausedCredentialRequired => PhasePaused
  | StepCancelling => PhaseCanceling
  | StepSucceeded => PhaseSucceeded
  | StepFailed => PhaseFailed
  | StepCancelled => PhaseCancelled
  | StepOther _ => PhaseNone
  end.

(** * The Store and Effects seams *)

(** The durable coordination seam. [Advance] takes the fence as a pointer:
    [None] is the naive reconciler's nil. *)
Class Store (S : Type) := {
  st_Step : S -> Step;
  st_Fence : S -> Z;
  st_Advance : S -> Step -> Step -> option Z -> S * bool;
  st_Reclaim : S -> Z -> S * bool;
  st_SetStep : S -> Step -> S;
  st_AuditRows : S -> Z;
  st_OutboxRows : S -> Z;
}.

(** What the interface comments promise of a store. *)
Class StoreLaws (S : Type) `{Store S} := {
  advance_committed s e n f s' :
    st_Advance s e n f = (s', true) ->
    st_Step s = e /\ (forall g, f = Some g -> st_Fence s = g) /\
    st_Step s' = n /\ st_Fence s' = st_Fence s /\
    st_AuditRows s' = st_AuditRows s + 1 /\
    st_OutboxRows s' = st_OutboxRows s + 1;
  advance_rejected s e n f s' :
    st_Advance s e n f = (s', false) ->
    st_Step s' = st_Step s /\ st_Fence s' = st_Fence s /\
    st_AuditRows s' = st_AuditRows s /\ st_OutboxRows s' = st_OutboxRows s;
  reclaim_raised s f s' :
    st_Reclaim s f = (s', true) ->
    st_Fence s < f /\ st_Fence s' = f /\ st_Step s' = st_Step s /\
    st_AuditRows s' = st_AuditRows s /\ st_OutboxRows s' = st_OutboxRows s;
  reclaim_refused s f s' :
    st_Reclaim s f = (s', false) ->
    f <= st_Fence s /\ st_Fence s' = st_Fence s /\ st_Step s' = st_Step s /\
    st_AuditRows s' = st_AuditRows s /\ st_OutboxRows s' = st_OutboxRows s;
  setstep_step s t : st_Step (st_SetStep s t) = t;
  setstep_rest s t :
    st_Fence (st_SetStep s t) = st_Fence s /\
    st_AuditRows (st_SetStep s t) = st_AuditRows s /\
    st_OutboxRows (st_SetStep s t) = st_OutboxRows s;
}.

(** The side-effecting outside world. [ef_Err] is the optional [Err() error]
    method runPhase probes for: [None] when the value has no such method or the
    method returns nil. *)
Class Effects (W : Type) := {
  ef_BindSandbox : W -> string -> bool -> W;
  ef_Dispatch : W -> string -> bool -> W;
  ef_Collect : W -> string -> string -> bool -> W;
  ef_Terminal : W -> Step -> W;
  ef_Err : W -> option string;
}.

Definition RunID : string := "run-1".

(** Options of one reconcile drive. *)
Record Options : Type := {
  Durable : bool;
  Fence : Z;
  CrashBefore : Step;
  CrashAfterEffect : Step;
  Lap : option Z;
  FailAt : Step;
  MaxPasses : Z;
}.

Inductive DriveError : Set :=
| ErrCrash (At : Step)
| ErrEffect (msg : string).

#[export] Instance DriveError_eq_dec : EqDecision DriveError.
Proof. solve_decision. Defined.

Definition dispatchTaskID (o : Options) : string :=
  if negb (Durable o) then RunID +:+ "-naive"
  else match Lap o with
       | None => RunID
       | Some lap => RunID +:+ "#lap" +:+ pretty lap
       end.

Fixpoint indexOf_from (i : nat) (l : list Step) (step : Step) : option nat :=
  match l with
  | [] => None
  | s :: l' => if decide (s = step) then Some i else indexOf_from (S i) l' step
  end.

(** [indexOf]: [None] is the -1 of the source. *)
Definition indexOf (step : Step) : option nat := indexOf_from 0 happyPath step.

Section machine.
Context {W S : Type} `{Effects W} `{Store S}.

(** The effect switch at the head of runPhase. *)
Definition phaseEffect (step : Step) (w : W) (o : Options) : W :=
  match step with
  | StepClaimingSandbox => ef_BindSandbox w RunID (Durable o)
  | StepDispatching => ef_Dispatch w (dispatchTaskID o) (Durable o)
  | StepCollecting => ef_Collect w (RunID +:+ "/patch") "diff-bytes" (Durable o)
  | _ => w
  end.

(** The step runPhase advances to; [None] is the off-path early return. *)
Definition phaseNext (step : Step) (o : Options) : option Step :=
  match indexOf step with
  | None => None
  | Some idx =>
      match happyPath !! (idx + 1)%nat with
      | None => None
      | Some next =>
          Some (if bool_decide (FailAt o ≠ StepNone ∧ step = FailAt o)
                then StepFailed else next)
      end
  end.

(** The conditional step-advance and the terminal record at the tail. *)
Definition phaseCommit (step : Step) (w : W) (s : S) (o : Options) : W * S :=
  match phaseNext step o with
  | None => (w, s)
  | Some next =>
      let fence := if Durable o then Some (Fence o) else None in
      let '(s', committed) := st_Advance s step next fence in
      ((if committed && IsTerminal next then ef_Terminal w next else w), s')
  end.

Definition runPhase (step : Step) (w : W) (s : S) (o : Options)
  : W * S * option DriveError :=
  let w := phaseEffect step w o in
  match ef_Err w with
  | Some e => (w, s, Some (ErrEffect e))
  | None =>
      if bool_decide (CrashAfterEffect o ≠ StepNone ∧ step = CrashAfterEffect o)
      then (w, s, Some (ErrCrash step))
      else (phaseCommit step w s o, None)
  end.

(** The loop of [Reconcile]; the fuel bounds the iterations and [None] says
    it ran out. *)
Fixpoint reconcileLoop (fuel : nat) (passes : Z) (w : W) (s : S) (o : Options)
  : option (W * S * option DriveError) :=
  match fuel with
  | O => None
  | Datatypes.S fuel =>
      if IsTerminal (st_Step s) then Some (w, s, None)
      else if (0 <? MaxPasses o) && (MaxPasses o <=? passes)
      then Some (w, s, None)
      else
        let step := st_Step s in
        if bool_decide (CrashBefore o ≠ StepNone ∧ step = CrashBefore o)
        then Some (w, s, Some (ErrCrash step))
        else match runPhase step w s o with
             | (w', s', Some e) => Some (w', s', Some e)
             | (w', s', None) => reconcileLoop fuel (passes + 1) w' s' o
             end
  end.

Definition Reconcile (fuel : nat) (w : W) (s : S) (o : Options)
  : option (W * S * option DriveError) :=
  reconcileLoop fuel 0 w s o.
End machine.

(** * The in-memory store and world (memstore.go) *)

Record MemStore : Set := {
  ms_step : Step;
  ms_fence : Z;
  auditN : Z;
  outboxN : Z;
}.

Definition NewMemStore : MemStore :=
  {| ms_step := StepPending; ms_fence := 1; auditN := 0; outboxN := 0 |}.

Definition MemStore_SetStep (m : MemStore) (s : Step) : MemStore :=
  {| ms_step := s; ms_fence := ms_fence m; auditN := auditN m; outboxN := outboxN m |}.

Definition MemStore_Reclaim (m : MemStore) (newFence : Z) : MemStore * bool :=
  if ms_fence m <? newFence
  then ({| ms_step := ms_step m; ms_fence := newFence;
           auditN := auditN m; outboxN := outboxN m |}, true)
  else (m, false).

Definition MemStore_Advance (m : MemStore) (expected next : Step) (fence : option Z)
  : MemStore * bool :=
  if bool_decide (ms_step m = expected) &&
     match fence with None => true | Some f => f =? ms_fence m end
  then ({| ms_step := next; ms_fence := ms_fence m;
           auditN := auditN m + 1; outboxN := outboxN m + 1 |}, true)
  else (m, false).

#[export] Instance MemStore_Store : Store MemStore := {
  st_Step := ms_step;
  st_Fence := ms_fence;
  st_Advance := MemStore_Advance;
  st_Reclaim := MemStore_Reclaim;
  st_SetStep := MemStore_SetStep;
  st_AuditRows := auditN;
  st_OutboxRows := outboxN;
}.

#[export] Instance MemStore_Laws : StoreLaws MemStore.
Proof.
  split; cbn.
  - intros s e n f s'. unfold MemStore_Advance.
    case_match eqn:E; intros [= <-]; cbn. reflect_bools.
    split_and!; try done. intros g ->. by reflect_bools.
  - intros s e n f s'. unfold MemStore_Advance. by case_match; intros [= <-].
  - intros s f s'. unfold MemStore_Reclaim. case_match; intros [= <-]; cbn.
    reflect_bools. split_and!; lia || done.
  - intros s f s'. unfold MemStore_Reclaim. case_match; intros [= <-].
    reflect_bools. split_and!; lia || done.
  - done.
  - done.
Qed.

Record World : Type := {
  SandboxBinds : list string;
  AgentExecutions : list string;
  Artifacts : gmap string string;
  TerminalTransitions : list Step;
}.

Definition NewWorld : World :=
  {| SandboxBinds := []; AgentExecutions := []; Artifacts := ∅;
     TerminalTransitions := [] |}.

Definition World_BindSandbox (w : World) (runID : string) (keyed : bool) : World :=
  {| SandboxBinds := if keyed then append_once runID (SandboxBinds w)
                     else SandboxBinds w ++ [runID];
     AgentExecutions := AgentExecutions w;
     Artifacts := Artifacts w;
     TerminalTransitions := TerminalTransitions w |}.

Definition World_Dispatch (w : World) (taskID : string) (dedup : bool) : World :=
  {| SandboxBinds := SandboxBinds w;
     AgentExecutions :=
       if dedup then append_once taskID (AgentExecutions w)
       else AgentExecutions w ++
              [taskID +:+ "-attempt-" +:+ pretty (length (AgentExecutions w))];
     Artifacts := Artifacts w;
     TerminalTransitions := TerminalTransitions w |}.

Definition World_Collect (w : World) (key content : string) (upsert : bool) : World :=
  {| SandboxBinds := SandboxBinds w;
     AgentExecutions := AgentExecutions w;
     Artifacts :=
       if upsert then <[key := content]> (Artifacts w)
       else <[key +:+ "#" +:+ pretty (size (Artifacts w)) := content]> (Artifacts w);
     TerminalTransitions := TerminalTransitions w |}.

Definition World_Terminal (w : World) (s : Step) : World :=
  {| SandboxBinds := SandboxBinds w;
     AgentExecutions := AgentExecutions w;
     Artifacts := Artifacts w;
     TerminalTransitions := TerminalTransitions w ++ [s] |}.

#[export] Instance World_Effects : Effects World := {
  ef_BindSandbox := World_BindSandbox;
  ef_Dispatch := World_Dispatch;
  ef_Collect := World_Collect;
  ef_Terminal := World_Terminal;
  ef_Err := fun _ => None;
}.

(** * Drive outcomes (outcome.go) *)

Inductive Outcome : Set := OutcomeUnknown | OutcomeSuccess | OutcomeFailed.

Definition OutcomeFrom (step : Step) (err : option DriveError) : Outcome :=
  match err with
  | Some _ => OutcomeFailed
  | None =>
      match step with
      | StepSucceeded | StepCancelled => OutcomeSuccess
      | StepFailed => OutcomeFailed
      | _ => OutcomeUnknown
      end
  end.

Definition IsError (o : Outcome) : bool :=
  match o with OutcomeFailed => true | _ => false end.

Definition OutcomeString (o : Outcome) : string :=
  match o with
  | OutcomeSuccess => "success"
  | OutcomeFailed => "error"
  | OutcomeUnknown => "unknown"
  end.

Definition clean (fence : Z) : Options :=
  {| Durable := true; Fence := fence; CrashBefore := StepNone;
     CrashAfterEffect := StepNone; Lap := None; FailAt := StepNone;
     MaxPasses := 0 |}.
