(* ===== verification/MachineProps.v ===== *)
(** Correctness of the reconcile machine: classification and projection, crash
    equivalence of sequential failovers, and at-most-once effects under every
    interleaving of concurrent controllers over any lawful [Store]. *)
From S2P Require Import Prelude Machine.
Open Scope Z_scope.

(** * Sequential failovers over the in-memory store *)

(** One controller life: a durable single-attempt drive at any fence, with any
    crash window, or a fence-first reclaim by a failover leader. *)
Inductive drive_step : World * MemStore -> World * MemStore -> Prop :=
| drive_once w s w' s' fuel o e :
    Durable o = true -> Lap o = None -> FailAt o = StepNone ->
    Reconcile fuel w s o = Some (w', s', e) ->
    drive_step (w, s) (w', s')
| drive_reclaim w s s' f b :
    MemStore_Reclaim s f = (s', b) ->
    drive_step (w, s) (w, s').

(** The world after the first [n] of the machine's effects: bind, dispatch,
    collect, terminal record. *)
Definition worldAt (n : nat) : World :=
  {| SandboxBinds := if (1 <=? n)%nat then [RunID] else [];
     AgentExecutions := if (2 <=? n)%nat then [RunID] else [];
     Artifacts := if (3 <=? n)%nat then {[ RunID +:+ "/patch" := "diff-bytes" ]} else ∅;
     TerminalTransitions := if (4 <=? n)%nat then [StepSucceeded] else [] |}.

(** The (step, number of effects) pairs a crash can leave behind. *)
Definition crashPoints : list (Step * nat * Z) :=
  [(StepPending, 0%nat, 0); (StepClaimingSandbox, 0%nat, 1);
   (StepClaimingSandbox, 1%nat, 1); (StepDispatching, 1%nat, 2);
   (StepDispatching, 2%nat, 2); (StepRunning, 2%nat, 3);
   (StepCollecting, 2%nat, 4); (StepCollecting, 3%nat, 4);
   (StepSucceeded, 4%nat, 5)].

Definition canonical (c : World * MemStore) : Prop :=
  exists n, (ms_step c.2, n, auditN c.2) ∈ crashPoints /\
            outboxN c.2 = auditN c.2 /\ c.1 = worldAt n.

(** * Concurrent controllers *)

(** Where one controller is inside a pass: it has read the step, it has fired
    the effect, or it has committed a terminal advance it has yet to record. *)
Inductive thread : Type :=
| TRead (step : Step) (o : Options)
| TFired (step : Step) (o : Options)
| TCommitted (next : Step).

Section system.
Context {S : Type} `{StoreLaws S}.

Record sys : Type := {
  sy_world : World;
  sy_store : S;
  sy_threads : list thread;
  sy_laps : nat; (* retry laps entered so far *)
}.

(** One atomic action of one controller, or of the environment. *)
Inductive sys_step : sys -> sys -> Prop :=
| sys_read w s ts laps o :
    Durable o = true -> IsTerminal (st_Step s) = false ->
    sys_step (Build_sys w s ts laps)
             (Build_sys w s (TRead (st_Step s) o :: ts) laps)
| sys_fire w s l1 l2 laps step o :
    sys_step (Build_sys w s (l1 ++ TRead step o :: l2) laps)
             (Build_sys (phaseEffect step w o) s (l1 ++ TFired step o :: l2) laps)
| sys_commit w s l1 l2 laps step o next s' committed :
    phaseNext step o = Some next ->
    st_Advance s step next (Some (Fence o)) = (s', committed) ->
    sys_step (Build_sys w s (l1 ++ TFired step o :: l2) laps)
             (Build_sys w s'
                (l1 ++ (if committed && IsTerminal next then [TCommitted next] else [])
                    ++ l2) laps)
| sys_record w s l1 l2 laps next :
    sys_step (Build_sys w s (l1 ++ TCommitted next :: l2) laps)
             (Build_sys (World_Terminal w next) s (l1 ++ l2) laps)
| sys_die w s l1 l2 laps t :
    sys_step (Build_sys w s (l1 ++ t :: l2) laps) (Build_sys w s (l1 ++ l2) laps)
| sys_reclaim w s ts laps f s' b :
    st_Reclaim s f = (s', b) ->
    sys_step (Build_sys w s ts laps) (Build_sys w s' ts laps)
| sys_retry w s ts laps f s' :
    st_Step s = StepFailed ->
    st_Reclaim s f = (s', true) ->
    sys_step (Build_sys w s ts laps)
             (Build_sys w (st_SetStep s' StepClaimingSandbox) ts (laps + 1)).

(** Advances left on the happy path. *)
Definition rank (s : Step) : Z :=
  match s with
  | StepPending => 5 | StepClaimingSandbox => 4 | StepDispatching => 3
  | StepRunning => 2 | StepCollecting => 1 | _ => 0
  end.

Fixpoint committed_terminals (ts : list thread) : nat :=
  match ts with
  | [] => 0
  | TCommitted _ :: ts' => 1 + committed_terminals ts'
  | _ :: ts' => committed_terminals ts'
  end.

Definition durable_thread (t : thread) : Prop :=
  match t with TRead _ o | TFired _ o => Durable o = true | TCommitted _ => True end.

(** The system invariant. [a0] is the audit count the run started with. *)
Record sys_inv (a0 : Z) (c : sys) : Prop := {
  inv_binds : NoDup (SandboxBinds (sy_world c)) /\
              Forall (.= RunID) (SandboxBinds (sy_world c));
  inv_execs : NoDup (AgentExecutions (sy_world c)) /\
              Forall (fun t => exists o, Durable o = true /\ t = dispatchTaskID o)
                (AgentExecutions (sy_world c));
  inv_artifacts :
    Artifacts (sy_world c) ⊆ {[ RunID +:+ "/patch" := "diff-bytes" ]};
  inv_terminal :
    (length (TerminalTransitions (sy_world c)) + committed_terminals (sy_threads c)
     <= sy_laps c + (if IsTerminal (st_Step (sy_store c)) then 1 else 0))%nat;
  inv_rows : st_AuditRows (sy_store c) = st_OutboxRows (sy_store c);
  inv_commits :
    st_AuditRows (sy_store c) + rank (st_Step (sy_store c))
    <= a0 + 5 + 4 * Z.of_nat (sy_laps c);
  inv_durable : Forall durable_thread (sy_threads c);
}.

Definition sys_init (s : S) : sys := Build_sys NewWorld s [] 0.
End system.
Arguments sys S : clear implicits.

(** * Lemmas: the steps of the machine *)

Lemma elem_terminal s : s ∈ terminalSteps ↔ s = StepSucceeded ∨ s = StepFailed ∨ s = StepCancelled.
Proof. unfold terminalSteps. rewrite !elem_of_cons, elem_of_nil. tauto. Qed.

(** The successor on the happy path. *)
Definition happyNext (st : Step) : option Step :=
  match st with
  | StepPending => Some StepClaimingSandbox
  | StepClaimingSandbox => Some StepDispatching
  | StepDispatching => Some StepRunning
  | StepRunning => Some StepCollecting
  | StepCollecting => Some StepSucceeded
  | _ => None
  end.

Lemma phaseNext_happy st o :
  FailAt o = StepNone -> phaseNext st o = happyNext st.
Proof. intros Hf. unfold phaseNext. rewrite Hf. by destruct st. Qed.

(** What an advance can target. *)
Lemma phaseNext_spec step o next :
  phaseNext step o = Some next ->
  IsTerminal step = false /\ 0 < rank step /\ rank next <= rank step - 1.
Proof.
  intros Hn. destruct step; try discriminate Hn; cbn in Hn; injection Hn as <-;
    (split_and!; [done|done|]); by destruct (bool_decide _).
Qed.

Lemma canonical_init : canonical (NewWorld, NewMemStore).
Proof. exists 0%nat. split_and!; [|done|done]. cbn. set_solver. Qed.

(** Case analysis over the finite list of crash points. *)
Ltac crash_cases H :=
  unfold crashPoints in H;
  repeat (apply elem_of_cons in H as [H|H]); try (by apply not_elem_of_nil in H);
  simplify_eq.

(** Evaluate the classifier and the closed guards on known steps. *)
Ltac eval_terminal :=
  repeat match goal with
  | |- context [IsTerminal ?s] =>
      let b := eval vm_compute in (IsTerminal s) in
      change (IsTerminal s) with b; cbn iota
  | |- context [bool_decide ?P] =>
      let b := eval vm_compute in (bool_decide P) in
      lazymatch b with true => idtac | false => idtac end;
      change (bool_decide P) with b; cbn iota
  end.

(** Effects of a durable single attempt at a step. *)
Definition firedAt (step : Step) (n : nat) : nat :=
  match step with
  | StepClaimingSandbox => 1
  | StepDispatching => 2
  | StepCollecting => 3
  | _ => n
  end%nat.

Lemma phaseEffect_at step n a o :
  Durable o = true -> Lap o = None -> (step, n, a) ∈ crashPoints ->
  phaseEffect step (worldAt n) o = worldAt (firedAt step n) /\
  (step, firedAt step n, a) ∈ crashPoints.
Proof.
  intros Hd Hl Hin.
  assert (dispatchTaskID o = RunID) as Ht by (unfold dispatchTaskID; by rewrite Hd, Hl).
  crash_cases Hin; cbn [phaseEffect]; rewrite ?Hd, ?Ht; (split; [reflexivity|unfold crashPoints; set_solver]).
Qed.

Lemma advance_here st fe a n f :
  MemStore_Advance {| ms_step := st; ms_fence := fe; auditN := a; outboxN := a |}
    st n (Some f) =
  if f =? fe
  then ({| ms_step := n; ms_fence := fe; auditN := a + 1; outboxN := a + 1 |}, true)
  else ({| ms_step := st; ms_fence := fe; auditN := a; outboxN := a |}, false).
Proof.
  unfold MemStore_Advance. cbn [ms_step ms_fence auditN outboxN].
  rewrite bool_decide_eq_true_2 by done. by destruct (f =? fe).
Qed.

Lemma phaseCommit_at st fe n a o :
  Durable o = true -> FailAt o = StepNone -> (st, n, a) ∈ crashPoints ->
  n = firedAt st n ->
  canonical (phaseCommit st (worldAt n)
               {| ms_step := st; ms_fence := fe; auditN := a; outboxN := a |} o).
Proof.
  intros Hd Hf Hin Hn. unfold phaseCommit. rewrite Hd, phaseNext_happy by done.
  crash_cases Hin; try discriminate Hn; cbn -[worldAt World_Terminal MemStore_Advance IsTerminal];
    rewrite ?advance_here; try destruct (Fence o =? fe);
    cbn -[worldAt World_Terminal IsTerminal]; eval_terminal;
    lazymatch goal with
    | |- canonical (World_Terminal _ _, _) => exists 4%nat
    | |- canonical (worldAt ?n, _) => exists n
    end; (split_and!; [unfold crashPoints; set_solver|done|done]).
Qed.

(** A pass from a crash point lands on a crash point, whatever the fence. *)
Lemma runPhase_canonical w s o w' s' e :
  Durable o = true -> Lap o = None -> FailAt o = StepNone ->
  canonical (w, s) -> runPhase (ms_step s) w s o = (w', s', e) ->
  canonical (w', s').
Proof.
  intros Hd Hl Hf (n & Hin & Hout & Hw) Hrun. cbn in *. subst w.
  destruct s as [st fe au ou]; cbn in *. subst ou.
  destruct (phaseEffect_at _ _ _ o Hd Hl Hin) as [He Hin'].
  unfold runPhase in Hrun. rewrite He in Hrun. cbn in Hrun.
  case_match; simplify_eq/=.
  - exists (firedAt st n). split_and!; done.
  - pose proof (phaseCommit_at st fe _ au o Hd Hf Hin') as Hc.
    destruct (phaseCommit _ _ _ _). simplify_eq. apply Hc. by destruct st.
Qed.

Lemma reconcileLoop_canonical fuel p w s o w' s' e :
  Durable o = true -> Lap o = None -> FailAt o = StepNone ->
  canonical (w, s) -> reconcileLoop fuel p w s o = Some (w', s', e) ->
  canonical (w', s').
Proof.
  intros Hd Hl Hf. revert p w s.
  induction fuel as [|fuel IH]; intros p w s Hc Hr; [done|].
  cbn -[runPhase] in Hr. split_matches; eauto using runPhase_canonical.
Qed.

Lemma drive_canonical c c' : canonical c -> drive_step c c' -> canonical c'.
Proof.
  intros Hc Hd. revert Hc.
  destruct Hd as [w s w' s' fuel o e Hd Hl Hf Hr|w s s' f b Hr]; intros Hc.
  - by eapply (reconcileLoop_canonical fuel 0 w s o w' s' e).
  - destruct Hc as (n & ? & ? & ?). exists n.
    unfold MemStore_Reclaim in Hr. by case_match; simplify_eq/=.
Qed.

(** Where a clean pass at a non-terminal step leads. *)
Definition nextPoint (st : Step) : Step * nat :=
  match st with
  | StepPending => (StepClaimingSandbox, 0)
  | StepClaimingSandbox => (StepDispatching, 1)
  | StepDispatching => (StepRunning, 2)
  | StepRunning => (StepCollecting, 2)
  | StepCollecting => (StepSucceeded, 4)
  | _ => (st, 4)
  end%nat.

Lemma clean_pass fuel p st fe n a :
  (st, n, a) ∈ crashPoints -> IsTerminal st = false ->
  reconcileLoop (S fuel) p (worldAt n)
    {| ms_step := st; ms_fence := fe; auditN := a; outboxN := a |} (clean fe) =
  reconcileLoop fuel (p + 1) (worldAt (nextPoint st).2)
    {| ms_step := (nextPoint st).1; ms_fence := fe; auditN := a + 1; outboxN := a + 1 |}
    (clean fe).
Proof.
  intros Hin Hterm.
  destruct (phaseEffect_at st n a (clean fe) eq_refl eq_refl Hin) as [He _].
  cbn [reconcileLoop st_Step MemStore_Store ms_step]. rewrite Hterm.
  unfold runPhase, phaseCommit. rewrite He, phaseNext_happy by done. clear He.
  crash_cases Hin; try done; eval_terminal;
    cbn -[worldAt MemStore_Advance IsTerminal reconcileLoop]; rewrite advance_here, Z.eqb_refl;
    cbn -[worldAt MemStore_Advance IsTerminal reconcileLoop World_Terminal]; eval_terminal;
    reflexivity.
Qed.

Lemma nextPoint_crash st n a :
  (st, n, a) ∈ crashPoints -> IsTerminal st = false ->
  ((nextPoint st).1, (nextPoint st).2, a + 1) ∈ crashPoints /\
  rank (nextPoint st).1 = rank st - 1.
Proof.
  intros Hin Ht. crash_cases Hin; try discriminate Ht;
    (split; [unfold crashPoints; cbn; set_solver|reflexivity]).
Qed.

Lemma clean_from fuel p st fe n a :
  (st, n, a) ∈ crashPoints -> rank st <= Z.of_nat fuel ->
  exists s', reconcileLoop (S fuel) p (worldAt n)
      {| ms_step := st; ms_fence := fe; auditN := a; outboxN := a |} (clean fe)
    = Some (worldAt 4, s', None) /\
    ms_step s' = StepSucceeded /\ auditN s' = 5 /\ outboxN s' = 5.
Proof.
  revert p st n a. induction fuel as [|fuel IH]; intros p st n a Hin Hr;
    destruct (IsTerminal st) eqn:Ht.
  1, 3: cbn [reconcileLoop st_Step MemStore_Store ms_step]; rewrite Ht;
    crash_cases Hin; try discriminate Ht; eexists; (split_and!; [reflexivity|done..]).
  - crash_cases Hin; discriminate Ht || by cbn in Hr.
  - destruct (nextPoint_crash st n a Hin Ht) as [? Hrank].
    rewrite clean_pass by done. apply IH; [done|lia].
Qed.

(** From every crash point, six iterations of a clean drive finish the Run. *)
Lemma clean_finishes w s :
  canonical (w, s) ->
  exists s', Reconcile 6 w s (clean (ms_fence s)) = Some (worldAt 4, s', None) /\
    ms_step s' = StepSucceeded /\ auditN s' = 5 /\ outboxN s' = 5.
Proof.
  intros (n & Hin & Hout & Hw). cbn [fst snd] in *. subst w.
  destruct s as [st fe au ou]; cbn [ms_step ms_fence auditN outboxN] in *. subst ou.
  unfold Reconcile. apply (clean_from 5); [done|]. crash_cases Hin; cbn; lia.
Qed.

(** * Lemmas: the concurrent system *)

Section system_lemmas.
Context {S : Type} `{StoreLaws S}.

Lemma committed_app l1 l2 :
  committed_terminals (l1 ++ l2) = (committed_terminals l1 + committed_terminals l2)%nat.
Proof. induction l1 as [|[] l1 IH]; cbn; rewrite ?IH; done. Qed.

(** A durable effect keeps the at-most-once part of the invariant. *)
Lemma phaseEffect_inv step w o :
  Durable o = true ->
  NoDup (SandboxBinds w) /\ Forall (.= RunID) (SandboxBinds w) ->
  NoDup (AgentExecutions w) /\
    Forall (fun t => exists o, Durable o = true /\ t = dispatchTaskID o)
      (AgentExecutions w) ->
  Artifacts w ⊆ {[ RunID +:+ "/patch" := "diff-bytes" ]} ->
  let w' := phaseEffect step w o in
  (NoDup (SandboxBinds w') /\ Forall (.= RunID) (SandboxBinds w')) /\
  (NoDup (AgentExecutions w') /\
    Forall (fun t => exists o, Durable o = true /\ t = dispatchTaskID o)
      (AgentExecutions w')) /\
  Artifacts w' ⊆ {[ RunID +:+ "/patch" := "diff-bytes" ]} /\
  TerminalTransitions w' = TerminalTransitions w.
Proof.
  intros Hd [Hb1 Hb2] [Hx1 Hx2] Ha.
  destruct step; cbn [phaseEffect]; rewrite ?Hd; try done; cbn -[append_once];
    (split_and!; auto with k8s).
  - rewrite Forall_forall in *. intros x [->|?]%append_once_elem; auto.
  - rewrite Forall_forall in *. intros x [->|?]%append_once_elem; eauto.
  - apply map_subseteq_spec. intros k v Hk.
    apply lookup_insert_Some in Hk as [[<- <-]|[? Hk]].
    + apply lookup_singleton_eq.
    + by eapply lookup_weaken.
Qed.

Lemma sys_inv_init s :
  st_Step s = StepPending -> st_AuditRows s = st_OutboxRows s ->
  sys_inv (st_AuditRows s) (sys_init s).
Proof.
  intros Hs Hr. split; cbn; rewrite ?Hs; try done.
  - split; constructor.
  - split; constructor.
  - apply map_empty_subseteq.
  - cbn. lia.
Qed.

(** The threads left when one of them moves on or dies are still durable. *)
Lemma threads_split t l1 l2 :
  Forall durable_thread (l1 ++ t :: l2) ->
  durable_thread t /\ Forall durable_thread (l1 ++ l2).
Proof.
  rewrite !Forall_app. intros [? Hc]. inversion Hc; subst. auto.
Qed.

Lemma inv_fire a0 w s l1 l2 laps step o :
  sys_inv a0 (Build_sys w s (l1 ++ TRead step o :: l2) laps) ->
  sys_inv a0 (Build_sys (phaseEffect step w o) s (l1 ++ TFired step o :: l2) laps).
Proof.
  intros [Hb Hx Ha Ht' Hr Hc Hdu]; cbn in *.
  pose proof (threads_split _ _ _ Hdu) as [Hd _].
  destruct (phaseEffect_inv step w o) as (? & ? & ? & Heq); [done..|].
  split; cbn; try done.
  - rewrite Heq. rewrite committed_app in *. cbn in *. lia.
  - apply Forall_app in Hdu as [? Hd2]. inversion Hd2; subst.
    apply Forall_app; split; [done|by constructor].
Qed.

Lemma inv_commit a0 w s l1 l2 laps step o next s' b :
  phaseNext step o = Some next ->
  st_Advance s step next (Some (Fence o)) = (s', b) ->
  sys_inv a0 (Build_sys w s (l1 ++ TFired step o :: l2) laps) ->
  sys_inv a0 (Build_sys w s'
    (l1 ++ (if b && IsTerminal next then [TCommitted next] else []) ++ l2) laps).
Proof.
  intros Hn Hadv [Hb Hx Ha Ht' Hr Hc Hdu]; cbn in *.
  destruct (threads_split _ _ _ Hdu) as [_ [Hd1 Hd2]%Forall_app].
  destruct (phaseNext_spec _ _ _ Hn) as (Hnt & Hr1 & Hr2).
  rewrite committed_app in Ht'. cbn in Ht'.
  destruct b; cbn [andb].
  - destruct (advance_committed _ _ _ _ _ Hadv) as (<- & _ & Hn' & _ & Hau & Hou).
    split; cbn; rewrite ?Hn', ?Hau, ?Hou; try done; try lia.
    + rewrite !committed_app. rewrite Hnt in Ht'. destruct (IsTerminal next); cbn; lia.
    + rewrite !Forall_app. split_and!; try done.
      destruct (IsTerminal next); repeat constructor.
  - destruct (advance_rejected _ _ _ _ _ Hadv) as (Hst & _ & Hau & Hou).
    split; cbn; rewrite ?Hst, ?Hau, ?Hou, ?committed_app; try done.
    by apply Forall_app.
Qed.

Lemma inv_reclaim a0 w s ts laps f s' b :
  st_Reclaim s f = (s', b) ->
  sys_inv a0 (Build_sys w s ts laps) -> sys_inv a0 (Build_sys w s' ts laps).
Proof.
  intros Hrec [Hb Hx Ha Ht' Hr Hc Hdu]; cbn in *.
  assert (st_Step s' = st_Step s /\ st_AuditRows s' = st_AuditRows s /\
          st_OutboxRows s' = st_OutboxRows s) as (E1 & E2 & E3).
  { destruct b; [destruct (reclaim_raised _ _ _ Hrec) as (_&_&?&?&?)
                |destruct (reclaim_refused _ _ _ Hrec) as (_&_&?&?&?)]; done. }
  split; cbn; rewrite ?E1, ?E2, ?E3; done.
Qed.

Lemma inv_retry a0 w s ts laps f s' :
  st_Step s = StepFailed -> st_Reclaim s f = (s', true) ->
  sys_inv a0 (Build_sys w s ts laps) ->
  sys_inv a0 (Build_sys w (st_SetStep s' StepClaimingSandbox) ts (laps + 1)).
Proof.
  intros Hf Hrec [Hb Hx Ha Ht' Hr Hc Hdu]; cbn in *.
  destruct (reclaim_raised _ _ _ Hrec) as (_&_&E1&E2&E3).
  destruct (setstep_rest s' StepClaimingSandbox) as (F1&F2&F3).
  rewrite Hf in Ht', Hc. change (IsTerminal StepFailed) with true in Ht'.
  cbn in Ht', Hc.
  split; cbn; rewrite ?setstep_step, ?F2, ?F3, ?E2, ?E3; try done; eval_terminal;
    cbn; lia.
Qed.

Lemma sys_inv_step a0 c c' : sys_inv a0 c -> sys_step c c' -> sys_inv a0 c'.
Proof.
  intros Hi Hs. revert Hi.
  destruct Hs; eauto using inv_fire, inv_commit, inv_reclaim, inv_retry;
    intros [Hb Hx Ha Ht' Hr Hc Hdu]; cbn in *.
  - split; cbn; try done. by constructor.
  - split; cbn; try done; [|by eapply threads_split].
    rewrite length_app. rewrite committed_app in *. cbn in *. lia.
  - split; cbn; try done; [|by eapply threads_split].
    rewrite committed_app in *. destruct t; cbn in *; lia.
Qed.

Lemma sys_inv_reachable a0 c c' : sys_inv a0 c -> rtc sys_step c c' -> sys_inv a0 c'.
Proof. intros Hi Hs. induction Hs; eauto using sys_inv_step. Qed.

(** The fence never goes down. *)
Lemma fence_mono c c' : rtc sys_step c c' -> st_Fence (sy_store c) <= st_Fence (sy_store c').
Proof.
  induction 1 as [|c c1 c' Hs _ IH]; [lia|]. etrans; [|exact IH]. clear IH.
  destruct Hs as [| |w s l1 l2 laps step o next s' [] Hn Hadv| | |w s ts laps f s' [] Hrec
                 |w s ts laps f s' Hf Hrec]; cbn; try lia.
  - by destruct (advance_committed _ _ _ _ _ Hadv) as (_&_&_&->&_).
  - by destruct (advance_rejected _ _ _ _ _ Hadv) as (_&->&_).
  - destruct (reclaim_raised _ _ _ Hrec) as (?&->&_). lia.
  - by destruct (reclaim_refused _ _ _ Hrec) as (_&->&_).
  - destruct (setstep_rest s' StepClaimingSandbox) as (->&_).
    destruct (reclaim_raised _ _ _ Hrec) as (?&->&_). lia.
Qed.
End system_lemmas.

(** A committed pass of the sequential machine is a path of the system. *)
Section simulation.
Context {S : Type} `{StoreLaws S}.

Lemma runPhase_simulated (w : World) (s : S) o ts laps w' s' e :
  Durable o = true -> IsTerminal (st_Step s) = false ->
  runPhase (st_Step s) w s o = (w', s', e) ->
  rtc sys_step (Build_sys w s ts laps) (Build_sys w' s' ts laps).
Proof.
  intros Hd Ht Hr.
  eapply rtc_l; [by apply (sys_read w s ts laps o)|].
  eapply rtc_l; [apply (sys_fire w s [] ts laps)|]. cbn [app].
  unfold runPhase in Hr. cbn [ef_Err World_Effects] in Hr.
  case_match; simplify_eq; [apply rtc_once, (sys_die _ _ [] ts)|].
  unfold phaseCommit in *. rewrite Hd in *.
  destruct (phaseNext (st_Step s) o) as [next|] eqn:Hn; simplify_eq;
    [|apply rtc_once, (sys_die _ _ [] ts)].
  destruct (st_Advance s _ next _) as [s1 b] eqn:Hadv. simplify_eq.
  eapply rtc_l; [by eapply (sys_commit _ _ [] ts)|]. cbn [app].
  destruct (b && IsTerminal next); [|done].
  apply rtc_once, (sys_record _ _ [] ts).
Qed.

Lemma reconcileLoop_simulated fuel p (w : World) (s : S) o ts laps w' s' e :
  Durable o = true ->
  reconcileLoop fuel p w s o = Some (w', s', e) ->
  rtc sys_step (Build_sys w s ts laps) (Build_sys w' s' ts laps).
Proof.
  intros Hd. revert p w s.
  induction fuel as [|fuel IH]; intros p w s Hr; [done|].
  cbn -[runPhase] in Hr. split_matches; try done;
    eauto using runPhase_simulated.
  etrans; [by eapply runPhase_simulated|eauto].
Qed.
End simulation.

Lemma reconcileLoop_bounded {W S} `{Effects W, Store S} fuel p (w : W) (s : S) o :
  0 < MaxPasses o -> MaxPasses o - p < Z.of_nat fuel -> p <= MaxPasses o ->
  is_Some (reconcileLoop fuel p w s o).
Proof.
  intros Hm. revert p w s.
  induction fuel as [|fuel IH]; intros p w s Hf Hp; [lia|].
  cbn -[runPhase]. split_matches; eauto.
  destruct H2 as [?|?]; reflect_bools; [lia|]. apply IH; lia.
Qed.

(** * Properties *)

(** C1: Crash equivalence. After any sequence of durable single-attempt drives,
    each at any fence (a zombie's included) and dying at any boundary or at the
    effect-applied-but-not-committed window, interleaved with any fence-first
    reclaims, one clean drive at the current fence returns without error within
    six loop iterations and leaves exactly the crash-free world (one sandbox
    bind, one agent execution, one artifact, one terminal record), the step
    succeeded, and one audit and one outbox row per transition. *)
Theorem crash_equivalence w s :
  rtc drive_step (NewWorld, NewMemStore) (w, s) ->
  exists s', Reconcile 6 w s (clean (ms_fence s)) = Some (worldAt 4, s', None) /\
    ms_step s' = StepSucceeded /\ auditN s' = 5 /\ outboxN s' = 5.
Proof.
  intros Hr. apply clean_finishes.
  assert (forall c c', canonical c -> rtc drive_step c c' -> canonical c') as Hpres.
  { intros c c' Hc. induction 1; eauto using drive_canonical. }
  eauto using canonical_init.
Qed.

Definition crash_dispatch : Options :=
  {| Durable := true; Fence := 1; CrashBefore := StepNone;
     CrashAfterEffect := StepDispatching; Lap := None; FailAt := StepNone;
     MaxPasses := 0 |}.

(** A controller that dies after dispatching, before committing the step. *)
Lemma crash_equivalence_witness :
  match Reconcile 6 NewWorld NewMemStore crash_dispatch with
  | Some (w, s, Some (ErrCrash StepDispatching)) =>
      AgentExecutions w = ["run-1"%string] /\
      exists s', Reconcile 6 w s (clean (ms_fence s)) = Some (worldAt 4, s', None) /\
        ms_step s' = StepSucceeded /\ auditN s' = 5 /\ outboxN s' = 5
  | _ => False
  end.
Proof.
  split; [reflexivity|]. apply crash_equivalence. apply rtc_once.
  eapply (drive_once _ _ _ _ 6 crash_dispatch); reflexivity.
Defined.

(** C2: At most once under every interleaving. Take any number of durable
    controllers over any lawful store, started from a pending Run, at any
    fences, reading, firing effects, committing and dying in any order, mixed
    with fence-first reclaims and retry laps. At most one sandbox is ever
    provisioned, no agent execution is started twice for the same task id, the
    only artifact row is the content-addressed one, there is at most one
    terminal record per lap plus one, audit and outbox rows are in step, and
    the transitions ever committed are at most five plus four per retry lap. *)
Theorem at_most_once {S} `{StoreLaws S} (s0 : S) c :
  st_Step s0 = StepPending -> st_AuditRows s0 = st_OutboxRows s0 ->
  rtc sys_step (sys_init s0) c ->
  (length (SandboxBinds (sy_world c)) <= 1)%nat /\
  NoDup (AgentExecutions (sy_world c)) /\
  Artifacts (sy_world c) ⊆ {[ RunID +:+ "/patch" := "diff-bytes" ]} /\
  (length (TerminalTransitions (sy_world c)) <= sy_laps c + 1)%nat /\
  st_AuditRows (sy_store c) = st_OutboxRows (sy_store c) /\
  st_AuditRows (sy_store c) <= st_AuditRows s0 + 5 + 4 * Z.of_nat (sy_laps c).
Proof.
  intros Hs Hr Hreach.
  pose proof (sys_inv_reachable _ _ _ (sys_inv_init s0 Hs Hr) Hreach)
    as [[Hb1 Hb2] [Hx _] Ha Ht Hrows Hc _].
  split_and!; try done.
  - destruct (SandboxBinds (sy_world c)) as [|a [|b l]]; cbn; try lia.
    apply Forall_cons in Hb2 as [-> Hb2]. apply Forall_cons in Hb2 as [-> _].
    apply NoDup_cons in Hb1 as [Hn _]. set_solver.
  - destruct (IsTerminal _); lia.
  - assert (0 <= rank (st_Step (sy_store c))) by (by destruct (st_Step (sy_store c))).
    lia.
Qed.

(** Two controllers at the same fence both dispatch; one advance commits. *)
Lemma at_most_once_witness :
  let s0 := {| ms_step := StepPending; ms_fence := 1; auditN := 0; outboxN := 0 |} in
  let c := Build_sys NewWorld
             {| ms_step := StepClaimingSandbox; ms_fence := 1; auditN := 1; outboxN := 1 |}
             [] 0 in
  rtc sys_step (sys_init s0) c /\ (length (SandboxBinds (sy_world c)) <= 1)%nat.
Proof.
  intros s0 c.
  assert (rtc sys_step (sys_init s0) c) as Hr.
  { eapply rtc_l; [apply (sys_read NewWorld s0 [] 0 (clean 1)); reflexivity|].
    eapply rtc_l; [apply (sys_read NewWorld s0 _ 0 (clean 1)); reflexivity|].
    eapply rtc_l; [apply (sys_fire _ _ [] _ 0)|].
    eapply rtc_l; [apply (sys_fire _ _ [TFired StepPending (clean 1)] [] 0)|].
    eapply rtc_l; [eapply (sys_commit _ _ [] _ 0); reflexivity|].
    eapply rtc_l; [eapply (sys_commit _ _ [] [] 0); reflexivity|].
    apply rtc_refl. }
  split; [exact Hr|]. eapply (at_most_once s0 c); [reflexivity|reflexivity|exact Hr].
Defined.

(** C3: Every return of [Reconcile] by a durable drive, over any lawful store,
    is a path of the concurrent system that leaves the other controllers'
    progress alone; so what holds of every interleaving holds of the code. *)
Theorem reconcile_refines_system {S} `{StoreLaws S} fuel (w : World) (s : S) o ts laps w' s' e :
  Durable o = true ->
  Reconcile fuel w s o = Some (w', s', e) ->
  rtc sys_step (Build_sys w s ts laps) (Build_sys w' s' ts laps).
Proof. apply reconcileLoop_simulated. Qed.

Lemma reconcile_refines_system_witness :
  exists s' e, rtc sys_step (Build_sys NewWorld NewMemStore [] 0)
                 (Build_sys (worldAt 4) s' [] 0) /\ e = @None DriveError.
Proof.
  eexists _, _. split; [|reflexivity].
  eapply (reconcile_refines_system 6 _ _ (clean 1)); reflexivity.
Defined.

(** Fencing and the step compare-and-swap. Once the fence is past [f], no
    later advance at fence [f] ever commits, in any continuation of the system;
    and of two advances from the same step only the first commits. *)
Theorem advance_guards {S} `{StoreLaws S} (c c' : sys S) f e n :
  rtc sys_step c c' -> f < st_Fence (sy_store c) ->
  (st_Advance (sy_store c') e n (Some f)).2 = false /\
  (forall s1 g g' e1 n1 n2, st_Advance (sy_store c') e1 n1 g = (s1, true) -> n1 <> e1 ->
     (st_Advance s1 e1 n2 g').2 = false).
Proof.
  intros Hr Hf. pose proof (fence_mono _ _ Hr). split.
  - destruct (st_Advance _ _ _ _) as [s' []] eqn:Hadv; [|done].
    destruct (advance_committed _ _ _ _ _ Hadv) as (_ & Hg & _).
    specialize (Hg f eq_refl). lia.
  - intros s1 g g' e1 n1 n2 Hadv Hne.
    destruct (advance_committed _ _ _ _ _ Hadv) as (_ & _ & Hs1 & _).
    destruct (st_Advance s1 _ _ _) as [s' []] eqn:Hadv'; [|done].
    destruct (advance_committed _ _ _ _ _ Hadv') as (? & _). congruence.
Qed.

(** A zombie at fence 1 after a reclaim to fence 2. *)
Lemma advance_guards_witness :
  let c := sys_init {| ms_step := StepRunning; ms_fence := 2; auditN := 3; outboxN := 3 |} in
  (st_Advance (sy_store c) StepRunning StepCollecting (Some 1)).2 = false.
Proof.
  intros c. apply (advance_guards c c 1 StepRunning StepCollecting);
    [apply rtc_refl|reflexivity].
Defined.

(** C37: Bounded drives return. With a positive [MaxPasses], over any store and
    effects whatsoever, [Reconcile] returns within [MaxPasses + 1] iterations;
    with [MaxPasses = 0] a drive of a held or cancelling Run (a resumable step
    off the happy path) never returns, which is why the production driver
    always sets the bound. *)
Theorem reconcile_termination {W S} `{Effects W, Store S} (w : W) (s : S) o :
  (0 < MaxPasses o -> is_Some (Reconcile (Z.to_nat (MaxPasses o) + 1) w s o)) /\
  (MaxPasses o = 0 -> CrashBefore o = StepNone -> CrashAfterEffect o = StepNone ->
   ef_Err w = None -> Classify (st_Step s) = ClassResumable -> indexOf (st_Step s) = None ->
   forall fuel, Reconcile fuel w s o = None).
Proof.
  split.
  - intros Hm. apply reconcileLoop_bounded; lia.
  - intros Hm Hcb Hca He Hc Hi fuel. unfold Reconcile. generalize 0 as p.
    assert (IsTerminal (st_Step s) = false) as Ht
      by (unfold Classify in Hc; unfold IsTerminal; by case_bool_decide).
    assert (runPhase (st_Step s) w s o = (w, s, None)) as Hrun.
    { unfold runPhase, phaseCommit, phaseNext. rewrite Hi, Hca.
      destruct (st_Step s); cbn in *; rewrite ?He; done. }
    induction fuel as [|fuel IH]; intros p; [done|].
    cbn -[runPhase]. rewrite Ht, Hm, Hcb, Hrun. cbn. apply IH.
Qed.

Definition two_passes : Options :=
  {| Durable := true; Fence := 7; CrashBefore := StepNone; CrashAfterEffect := StepNone;
     Lap := None; FailAt := StepNone; MaxPasses := 2 |}.

Lemma reconcile_termination_witness :
  is_Some (Reconcile 3 NewWorld (MemStore_SetStep NewMemStore StepPaused) two_passes) /\
  forall fuel, Reconcile fuel NewWorld (MemStore_SetStep NewMemStore StepPaused) (clean 1) = None.
Proof.
  split.
  - apply (proj1 (reconcile_termination NewWorld (MemStore_SetStep NewMemStore StepPaused)
                    two_passes)).
    reflexivity.
  - apply (proj2 (reconcile_termination NewWorld (MemStore_SetStep NewMemStore StepPaused)
                    (clean 1))); reflexivity.
Defined.

(** The classifier, the phase projection and the drive outcome agree on
    every step: a step projects onto no phase exactly when it is unknown, it is
    absorbing exactly when its phase is a finished one, every credential hold
    projects onto Paused and stays resumable, an error-free outcome is a success
    exactly on the succeeded and cancelled phases and a failure exactly on the
    failed one, a drive error is always a failure, and distinct declared steps
    never share a durable spelling. *)
Theorem classification_agrees s :
  (Classify s = ClassUnknown <-> PhaseOf s = PhaseNone) /\
  (Classify s = ClassTerminal <->
     PhaseOf s = PhaseSucceeded \/ PhaseOf s = PhaseFailed \/ PhaseOf s = PhaseCancelled) /\
  (In s CredentialPauseSteps -> PhaseOf s = PhasePaused /\ Classify s = ClassResumable) /\
  (OutcomeFrom s None = OutcomeSuccess <-> PhaseOf s = PhaseSucceeded \/ PhaseOf s = PhaseCancelled) /\
  (OutcomeFrom s None = OutcomeFailed <-> PhaseOf s = PhaseFailed) /\
  (forall e, OutcomeFrom s (Some e) = OutcomeFailed) /\
  (forall s', Classify s <> ClassUnknown -> Classify s' <> ClassUnknown ->
     step_string s = step_string s' -> s = s').
Proof.
  split; [by destruct s; vm_compute; intuition congruence|].
  split; [by destruct s; vm_compute; intuition congruence|].
  split; [|split; [by destruct s; vm_compute; intuition congruence|]];
    [|split; [by destruct s; vm_compute; intuition congruence|split; [done|]]].
  - unfold CredentialPauseSteps. intros Hin.
    repeat (destruct Hin as [<-|Hin]; [by vm_compute|]). done.
  - intros s' H1 H2 Heq. destruct s; try done; destruct s'; try done;
      vm_compute in Heq; discriminate Heq.
Qed.

Lemma classification_agrees_witness :
  PhaseOf StepPausedRateLimited = PhasePaused /\
  Classify StepPausedRateLimited = ClassResumable.
Proof.
  apply (proj1 (proj2 (proj2 (classification_agrees StepPausedRateLimited)))).
  left. reflexivity.
Defined.
