(* ===== verification/Claim.v ===== *)
(** The coordination spine (src/pkg/coord/coord.go) and the reclaim sweeper
    (src/pkg/coord/sweeper.go).

    The tables work_item, claim and dispatch are finite maps; every operation is
    one transaction, a function from the database to the committed database and
    the returned values, with the wall clock ([clock_timestamp()]) passed in.
    A rejected transaction returns no database: nothing is committed. *)
From S2P Require Import Prelude.
Open Scope Z_scope.

(** * Schema and configuration *)

Record Config : Type := {
  LeaseInterval : Z;
  OpenState : string;
  ClaimedState : string;
  DoneState : string;
}.

(** A row of the claim table: exactly one per work item. *)
Record ClaimRow : Type := {
  holder_principal : option string;
  run_id : option string;
  fence_token : Z;
  lease_expires_at : option Z;
  reclaim_fenced_at : option Z;
}.

Record DB : Type := {
  work_item : gmap Z string;
  claim : gmap Z ClaimRow;
  dispatch : gmap string string;
}.

(** The guard of an acquire: holder IS NULL OR lease_expires_at < now. *)
Definition claimable (c : ClaimRow) (now : Z) : bool :=
  bool_decide (holder_principal c = None) || sql_ltb (lease_expires_at c) now.

(** The live-custody predicate of Renew and Complete. *)
Definition live_custody (c : ClaimRow) (principal : string) (fence now : Z) : bool :=
  sql_eqb (holder_principal c) principal && (fence_token c =? fence) &&
  sql_gtb (lease_expires_at c) now.

(** * The Coordinator *)

Section coordinator.
Context (cfg : Config).

(** UPDATE claim ... RETURNING fence_token, then UPDATE work_item under the
    lifecycle guard; [None] rolls the transaction back. *)
Definition acquireTx (now : Z) (db : DB) (item : Z) (principal run : string)
  : option (DB * Z) :=
  match claim db !! item with
  | None => None
  | Some c =>
      if claimable c now then
        let c' := {| holder_principal := Some principal; run_id := Some run;
                     fence_token := fence_token c + 1;
                     lease_expires_at := Some (now + LeaseInterval cfg);
                     reclaim_fenced_at := reclaim_fenced_at c |} in
        match work_item db !! item with
        | None => None
        | Some st =>
            if bool_decide (st = DoneState cfg) then None
            else Some ({| work_item := <[item := ClaimedState cfg]> (work_item db);
                          claim := <[item := c']> (claim db);
                          dispatch := dispatch db |}, fence_token c + 1)
        end
      else None
  end.

Definition Acquire (now : Z) (db : DB) (item : Z) (principal run : string)
  : DB * option Z :=
  match acquireTx now db item principal run with
  | None => (db, None)
  | Some (db', fence) => (db', Some fence)
  end.

(** SELECT id ... WHERE state = open ORDER BY id FOR UPDATE SKIP LOCKED
    LIMIT 1: the least open id no other transaction has locked. *)
Definition pickOpen (locked : gset Z) (db : DB) : option Z :=
  head (merge_sort Z.le
    (fst <$> filter (fun kv => kv.2 = OpenState cfg /\ kv.1 ∉ locked)
               (map_to_list (work_item db)))).

Definition ClaimNext (now : Z) (locked : gset Z) (db : DB) (principal run : string)
  : DB * option (Z * Z) :=
  match pickOpen locked db with
  | None => (db, None)
  | Some id =>
      match acquireTx now db id principal run with
      | None => (db, None)
      | Some (db', fence) => (db', Some (id, fence))
      end
  end.

Definition Renew (now : Z) (db : DB) (item : Z) (principal : string) (fence : Z)
  : DB * bool :=
  match claim db !! item, work_item db !! item with
  | Some c, Some st =>
      if live_custody c principal fence now && bool_decide (st ≠ DoneState cfg) then
        ({| work_item := work_item db;
            claim := <[item := {| holder_principal := holder_principal c;
                                  run_id := run_id c; fence_token := fence_token c;
                                  lease_expires_at := Some (now + LeaseInterval cfg);
                                  reclaim_fenced_at := reclaim_fenced_at c |}]> (claim db);
            dispatch := dispatch db |}, true)
      else (db, false)
  | _, _ => (db, false)
  end.

Definition Complete (now : Z) (db : DB) (item : Z) (principal : string) (fence : Z)
  : DB * bool :=
  match work_item db !! item, claim db !! item with
  | Some st, Some c =>
      if bool_decide (st = ClaimedState cfg) && live_custody c principal fence now then
        ({| work_item := <[item := DoneState cfg]> (work_item db);
            claim := claim db; dispatch := dispatch db |}, true)
      else (db, false)
  | _, _ => (db, false)
  end.

(** The first statement reads at [now], the fall-through acquire at [now']. *)
Definition RedriveClaim (now now' : Z) (db : DB) (item : Z) (principal run : string)
    (fence : Z) : DB * option Z :=
  let live := match claim db !! item with
              | None => false
              | Some c => live_custody c principal fence now && sql_eqb (run_id c) run
              end in
  if live then (db, Some fence) else Acquire now' db item principal run.

(** INSERT ... SELECT under live custody, ON CONFLICT DO NOTHING, then read
    back; the empty string is a refused dispatch. *)
Definition DispatchOnce (now : Z) (db : DB) (item : Z) (principal run : string)
    (fence : Z) (taskID : string) : DB * string :=
  let source := match claim db !! item with
                | None => false
                | Some c => live_custody c principal fence now && sql_eqb (run_id c) run
                end in
  let db' := match dispatch db !! run with
             | None => if source
                       then {| work_item := work_item db; claim := claim db;
                               dispatch := <[run := taskID]> (dispatch db) |}
                       else db
             | Some _ => db
             end in
  (db', match dispatch db' !! run with Some got => got | None => "" end).

(** [fencer] is the optional ResourceFencer: [Fence item principal run]
    answers whether the fence is confirmed, or the error. *)
Definition ReclaimFenced (fencer : option (Z -> string -> string -> option string))
    (now now' : Z) (db : DB) (item : Z) (newPrincipal newRun : string)
  : DB * result string Z :=
  let stamp c := {| holder_principal := holder_principal c; run_id := run_id c;
                    fence_token := fence_token c; lease_expires_at := lease_expires_at c;
                    reclaim_fenced_at := Some now |} in
  let db1 := {| work_item := work_item db; claim := alter stamp item (claim db);
                dispatch := dispatch db |} in
  let confirmed :=
    match fencer with
    | None => None
    | Some f =>
        let who (field : ClaimRow -> option string) :=
          match claim db1 !! item with
          | Some c => match field c with Some s => s | None => "" end
          | None => ""
          end in
        f item (who holder_principal) (who run_id)
    end in
  match confirmed with
  | Some e => (db, Err ("resource-layer fence unconfirmed, refusing release: " +:+ e))
  | None =>
      match acquireTx now' db1 item newPrincipal newRun with
      | None => (db, Err "still holds a live lease")
      | Some (db', fence) => (db', Ok fence)
      end
  end.
End coordinator.

(** NewForTest's binding: a one-second lease (in nanoseconds). *)
Definition NewForTest : Config :=
  {| LeaseInterval := 1000000000; OpenState := "open"; ClaimedState := "claimed";
     DoneState := "done" |}.

(** * The reclaim sweeper *)

Record SweepConfig : Type := {
  SweepWorkItem : string;
  SweepClaim : string;
  SweepOpenState : string;
  SweepDoneState : string;
  Interval : Z;
  Batch : Z;
}.

Definition DefaultSweepConfig : SweepConfig :=
  {| SweepWorkItem := ""; SweepClaim := ""; SweepOpenState := ""; SweepDoneState := "";
     Interval := 10 * 1000000000; Batch := 128 |}.

Definition SweepConfig_validate (c : SweepConfig) : option string :=
  if bool_decide (SweepWorkItem c = "" \/ SweepClaim c = "") then
    Some "coord.SweepConfig: WorkItem and Claim tables are required"
  else if bool_decide (SweepOpenState c = "" \/ SweepDoneState c = "") then
    Some "coord.SweepConfig: OpenState and DoneState are required"
  else if Interval c <=? 0 then
    Some "coord.SweepConfig: Interval must be > 0"
  else None.

Definition batchParam (c : SweepConfig) : Z :=
  if Batch c <=? 0 then 2147483647 else Batch c.

Record Reclaimed : Type := { Item : Z; RFence : Z }.

Section sweeper.
Context (scfg : SweepConfig).

(** The WHERE clause of the [expired] CTE. *)
Definition expired (now : Z) (locked : gset Z) (db : DB) (kc : Z * ClaimRow) : Prop :=
  holder_principal kc.2 ≠ None /\ sql_ltb (lease_expires_at kc.2) now = true /\
  (kc.1 ∉ locked) /\
  (match work_item db !! kc.1 with Some st => st ≠ SweepDoneState scfg | None => False end).

#[export] Instance expired_dec now locked db kc : Decision (expired now locked db kc).
Proof. unfold expired. destruct (work_item db !! kc.1); apply _. Defined.

Definition lease_order (a b : Z * ClaimRow) : Prop :=
  default 0 (lease_expires_at a.2) <= default 0 (lease_expires_at b.2).

#[export] Instance lease_order_dec a b : Decision (lease_order a b).
Proof. unfold lease_order. apply _. Defined.

(** The rows of the CTE: ordered by lease, skipping locked ones, limited. *)
Definition expiredRows (now : Z) (locked : gset Z) (db : DB) : list (Z * ClaimRow) :=
  take (Z.to_nat (batchParam scfg))
    (merge_sort lease_order
       (filter (expired now locked db) (map_to_list (claim db)))).

(** Release one row: NULL holder, fence bump, fence stamp, open again. *)
Definition reclaimRow (now : Z) (db : DB) (kc : Z * ClaimRow) : DB :=
  {| work_item := <[kc.1 := SweepOpenState scfg]> (work_item db);
     claim := <[kc.1 := {| holder_principal := None; run_id := None;
                           fence_token := fence_token kc.2 + 1;
                           lease_expires_at := None;
                           reclaim_fenced_at := Some now |}]> (claim db);
     dispatch := dispatch db |}.

Definition ReclaimExpired (now : Z) (locked : gset Z) (db : DB) : DB * list Reclaimed :=
  let rows := expiredRows now locked db in
  (foldl (reclaimRow now) db rows,
   (fun kc => {| Item := kc.1; RFence := fence_token kc.2 + 1 |}) <$> rows).
End sweeper.

(** What one sweep cycle emits. *)
Inductive SweepEvent : Type :=
| IncSweepCycle
| ObserveSweepDuration
| AddSweepReclaims (n : nat)
| OnError (e : string)
| OnReclaim (rs : list Reclaimed).

(** [onError], [onReclaim]: whether the callbacks are set. *)
Definition sweepOnce (onError onReclaim : bool) (res : result string (list Reclaimed))
  : list SweepEvent :=
  [IncSweepCycle; ObserveSweepDuration] ++
  match res with
  | Err e => if onError then [OnError e] else []
  | Ok [] => []
  | Ok rs => AddSweepReclaims (length rs) :: (if onReclaim then [OnReclaim rs] else [])
  end.
