(* ===== verification/ClaimProps.v ===== *)
(** Correctness of the coordination spine and of the reclaim sweeper: fences,
    custody, lifecycle and dispatch under every sequence of operations. *)
From S2P Require Import Prelude Claim.
Open Scope Z_scope.

(** * Executions: any sequence of operations under a non-decreasing clock *)

Inductive op : Type :=
| OClaimNext (locked : gset Z) (principal run : string)
| OAcquire (item : Z) (principal run : string)
| ORenew (item : Z) (principal : string) (fence : Z)
| OComplete (item : Z) (principal : string) (fence : Z)
| ORedrive (item : Z) (principal run : string) (fence : Z)
| ODispatch (item : Z) (principal run : string) (fence : Z) (task : string)
| OReclaim (fencer : option (Z -> string -> string -> option string))
    (item : Z) (newPrincipal newRun : string)
| OSweep (locked : gset Z).

(** What an operation's success tells its caller about an item. *)
Inductive event : Type :=
| EGrant (item : Z) (principal run : string) (fence : Z)
| ESwept (item fence : Z)
| ERenewed (item : Z) (principal : string) (fence : Z)
| ECompleted (item : Z) (principal : string) (fence : Z).

Definition ev_item (e : event) : Z :=
  match e with EGrant i _ _ _ | ESwept i _ | ERenewed i _ _ | ECompleted i _ _ => i end.
Definition ev_fence (e : event) : Z :=
  match e with EGrant _ _ _ f | ESwept _ f | ERenewed _ _ f | ECompleted _ _ f => f end.
(** Events that open a new generation of the claim. *)
Definition ev_bumps (e : event) : bool :=
  match e with EGrant _ _ _ _ | ESwept _ _ => true | _ => false end.
Definition ev_completes (e : event) : bool :=
  match e with ECompleted _ _ _ => true | _ => false end.

Definition fence_of (db : DB) (item : Z) : Z :=
  match claim db !! item with Some c => fence_token c | None => 0 end.

Section executions.
Context (cfg : Config) (scfg : SweepConfig).

(** An operation whose statements run at [now] and [now']. *)
Definition exec (now now' : Z) (db : DB) (o : op) : DB * list event :=
  match o with
  | OClaimNext locked p r =>
      let '(db', res) := ClaimNext cfg now locked db p r in
      (db', match res with Some (i, f) => [EGrant i p r f] | None => [] end)
  | OAcquire i p r =>
      let '(db', res) := Acquire cfg now db i p r in
      (db', match res with Some f => [EGrant i p r f] | None => [] end)
  | ORenew i p f =>
      let '(db', ok) := Renew cfg now db i p f in
      (db', if ok then [ERenewed i p f] else [])
  | OComplete i p f =>
      let '(db', ok) := Complete cfg now db i p f in
      (db', if ok then [ECompleted i p f] else [])
  | ORedrive i p r f =>
      let '(db', res) := RedriveClaim cfg now now' db i p r f in
      (db', match res with
            | Some f' => if bool_decide (f' = fence_of db i) then [] else [EGrant i p r f']
            | None => []
            end)
  | ODispatch i p r f t => ((DispatchOnce now db i p r f t).1, [])
  | OReclaim fencer i p r =>
      let '(db', res) := ReclaimFenced cfg fencer now now' db i p r in
      (db', match res with Ok f => [EGrant i p r f] | Err _ => [] end)
  | OSweep locked =>
      let '(db', rs) := ReclaimExpired scfg now locked db in
      (db', (fun r => ESwept (Item r) (RFence r)) <$> rs)
  end.

(** Clock, database and the log of what was promised. *)
Record trace : Type := { tr_now : Z; tr_db : DB; tr_log : list event }.

Inductive spine_step : trace -> trace -> Prop :=
| spine_op t now now' o db' evs :
    tr_now t <= now -> now <= now' ->
    exec now now' (tr_db t) o = (db', evs) ->
    spine_step t {| tr_now := now'; tr_db := db'; tr_log := tr_log t ++ evs |}.
End executions.

Definition events_of (item : Z) (log : list event) : list event :=
  filter (fun e => ev_item e = item) log.

(** The log of one item: fences never go down, and grow at each new
    generation. *)
Fixpoint fenced_from (f : Z) (log : list event) : Prop :=
  match log with
  | [] => True
  | e :: log' =>
      (if ev_bumps e then f < ev_fence e else ev_fence e = f) /\
      fenced_from (ev_fence e) log'
  end.

Definition last_fence (f : Z) (log : list event) : Z :=
  match last log with Some e => ev_fence e | None => f end.

Definition completions (item : Z) (log : list event) : nat :=
  length (filter (fun e => ev_completes e = true) (events_of item log)).

(** * Lemmas: one operation *)

Lemma acquireTx_Some cfg now db i p r db' f :
  acquireTx cfg now db i p r = Some (db', f) ->
  exists c st, claim db !! i = Some c /\ claimable c now = true /\
    work_item db !! i = Some st /\ st ≠ DoneState cfg /\ f = fence_token c + 1 /\
    db' = {| work_item := <[i := ClaimedState cfg]> (work_item db);
             claim := <[i := {| holder_principal := Some p; run_id := Some r;
                                fence_token := f;
                                lease_expires_at := Some (now + LeaseInterval cfg);
                                reclaim_fenced_at := reclaim_fenced_at c |}]> (claim db);
             dispatch := dispatch db |}.
Proof.
  unfold acquireTx. intros Ha. split_matches. eauto 10.
Qed.

Lemma acquireTx_dispatch cfg now db i p r db' f :
  acquireTx cfg now db i p r = Some (db', f) -> dispatch db' = dispatch db.
Proof. by intros (?&?&_&_&_&_&_&->)%acquireTx_Some. Qed.

Lemma live_custody_spec c p f now :
  live_custody c p f now = true ->
  holder_principal c = Some p /\ fence_token c = f /\
  exists e, lease_expires_at c = Some e /\ now < e.
Proof.
  unfold live_custody, sql_eqb, sql_gtb. intros Hl. reflect_bools.
  destruct (lease_expires_at c); [|done]. reflect_bools. eauto.
Qed.

(** The statements that report a row count, by their outcome. *)
Lemma Renew_spec cfg now db i p f db' ok :
  Renew cfg now db i p f = (db', ok) ->
  if ok then
    exists c st, claim db !! i = Some c /\ live_custody c p f now = true /\
      work_item db !! i = Some st /\ st ≠ DoneState cfg /\
      db' = {| work_item := work_item db;
               claim := <[i := {| holder_principal := holder_principal c;
                                  run_id := run_id c; fence_token := fence_token c;
                                  lease_expires_at := Some (now + LeaseInterval cfg);
                                  reclaim_fenced_at := reclaim_fenced_at c |}]> (claim db);
               dispatch := dispatch db |}
  else db' = db.
Proof.
  unfold Renew. intros Hr.
  destruct (claim db !! i) as [c|]; [|by simplify_eq].
  destruct (work_item db !! i) as [st|]; [|by simplify_eq].
  case_match eqn:Hg; simplify_eq; [|done]. apply andb_true_iff in Hg as [? ?%bool_decide_eq_true].
  by exists c, st.
Qed.

Lemma Complete_spec cfg now db i p f db' ok :
  Complete cfg now db i p f = (db', ok) ->
  if ok then
    exists c, claim db !! i = Some c /\ live_custody c p f now = true /\
      work_item db !! i = Some (ClaimedState cfg) /\
      db' = {| work_item := <[i := DoneState cfg]> (work_item db);
               claim := claim db; dispatch := dispatch db |}
  else db' = db.
Proof.
  unfold Complete. intros Hr.
  destruct (work_item db !! i) as [st|]; [|by simplify_eq].
  destruct (claim db !! i) as [c|]; [|by simplify_eq].
  case_match eqn:Hg; simplify_eq; [|done].
  apply andb_true_iff in Hg as [->%bool_decide_eq_true ?]. by exists c.
Qed.

Definition stamped (now : Z) (c : ClaimRow) : ClaimRow :=
  {| holder_principal := holder_principal c; run_id := run_id c;
     fence_token := fence_token c; lease_expires_at := lease_expires_at c;
     reclaim_fenced_at := Some now |}.

Lemma ReclaimFenced_spec cfg fencer now now' db i p r db' res :
  ReclaimFenced cfg fencer now now' db i p r = (db', res) ->
  match res with
  | Ok f =>
      acquireTx cfg now' {| work_item := work_item db;
                            claim := alter (stamped now) i (claim db);
                            dispatch := dispatch db |} i p r = Some (db', f) /\
      (forall fence c, fencer = Some fence -> claim db !! i = Some c ->
         fence i (default "" (holder_principal c)) (default "" (run_id c)) = None)
  | Err _ => db' = db
  end.
Proof.
  unfold ReclaimFenced. intros Hr. cbn in Hr.
  destruct fencer as [g|].
  - destruct (g _ _ _) eqn:Hg; [by simplify_eq|].
    destruct (acquireTx _ _ _ _ _ _) as [[d f]|] eqn:Ha; simplify_eq; [|done].
    split; [done|]. intros fence c ? Hc. simplify_eq.
    rewrite lookup_alter_eq, Hc in Hg. cbn in Hg.
    by destruct (holder_principal c), (run_id c).
  - destruct (acquireTx _ _ _ _ _ _) as [[d f]|] eqn:Ha; simplify_eq; [|done].
    split; [done|]. done.
Qed.

Lemma RedriveClaim_spec cfg now now' db i p r f db' res :
  RedriveClaim cfg now now' db i p r f = (db', res) ->
  (db' = db /\ res = Some f /\
     exists c, claim db !! i = Some c /\ live_custody c p f now = true /\ run_id c = Some r) \/
  Acquire cfg now' db i p r = (db', res).
Proof.
  unfold RedriveClaim, sql_eqb. destruct (claim db !! i) as [c|]; [|by right].
  case_match eqn:Hl; [|by right]. intros [= -> ->]. left. reflect_bools. eauto 10.
Qed.

Lemma fence_of_stamp now db i j :
  fence_of {| work_item := work_item db; claim := alter (stamped now) i (claim db);
              dispatch := dispatch db |} j = fence_of db j.
Proof.
  unfold fence_of. cbn. destruct (decide (i = j)) as [->|].
  - rewrite lookup_alter_eq. by destruct (claim db !! j).
  - by rewrite lookup_alter_ne.
Qed.

(** The rows a sweep takes, and what it does to the tables. *)
Section sweep.
Context (scfg : SweepConfig) (now : Z) (locked : gset Z) (db : DB).

Lemma expiredRows_spec kc :
  kc ∈ expiredRows scfg now locked db ->
  claim db !! kc.1 = Some kc.2 /\ expired scfg now locked db kc.
Proof.
  unfold expiredRows. intros Hin.
  apply elem_of_take in Hin as (n & Hn & _). apply list_elem_of_lookup_2 in Hn.
  rewrite merge_sort_Permutation in Hn. apply list_elem_of_filter in Hn as [? Hn].
  destruct kc. by apply elem_of_map_to_list in Hn.
Qed.

Lemma expiredRows_nodup : NoDup (expiredRows scfg now locked db).*1.
Proof.
  unfold expiredRows. rewrite fmap_take.
  eapply sublist_NoDup; [|apply sublist_take].
  rewrite merge_sort_Permutation.
  eapply sublist_NoDup; [apply (NoDup_fst_map_to_list (claim db))
                         |apply fmap_sublist, sublist_filter].
Qed.

(** Folding the release over distinct rows of the table. *)
Lemma foldl_reclaim (rows : list (Z * ClaimRow)) (d : DB) j :
  NoDup rows.*1 ->
  let d' := foldl (reclaimRow scfg now) d rows in
  dispatch d' = dispatch d /\
  (forall c, (j, c) ∈ rows ->
     work_item d' !! j = Some (SweepOpenState scfg) /\
     claim d' !! j = Some {| holder_principal := None; run_id := None;
                             fence_token := fence_token c + 1; lease_expires_at := None;
                             reclaim_fenced_at := Some now |}) /\
  (j ∉ rows.*1 -> work_item d' !! j = work_item d !! j /\ claim d' !! j = claim d !! j).
Proof.
  revert d. induction rows as [|[k c0] rows IH]; intros d Hnd; cbn.
  { split_and!; [done|intros c Hc; by apply not_elem_of_nil in Hc|done]. }
  apply NoDup_cons in Hnd as [Hk Hnd].
  destruct (IH (reclaimRow scfg now d (k, c0)) Hnd) as (H1 & H2 & H3).
  split_and!; [done| |].
  - intros c [Heq|Hc]%elem_of_cons; [|by apply H2]. simplify_eq.
    destruct (H3 Hk) as [-> ->]. cbn. by rewrite !lookup_insert_eq.
  - rewrite not_elem_of_cons. intros [Hne Hj].
    destruct (H3 Hj) as [-> ->]. cbn. by rewrite !lookup_insert_ne.
Qed.

(** The whole statement, row by row. *)
Lemma sweep_row j :
  let db' := (ReclaimExpired scfg now locked db).1 in
  dispatch db' = dispatch db /\
  ((exists c, (j, c) ∈ expiredRows scfg now locked db /\
      claim db !! j = Some c /\ expired scfg now locked db (j, c) /\
      work_item db' !! j = Some (SweepOpenState scfg) /\
      claim db' !! j = Some {| holder_principal := None; run_id := None;
                               fence_token := fence_token c + 1;
                               lease_expires_at := None; reclaim_fenced_at := Some now |})
   \/ ((j ∉ (expiredRows scfg now locked db).*1) /\
       work_item db' !! j = work_item db !! j /\ claim db' !! j = claim db !! j)).
Proof.
  intros db'. unfold db', ReclaimExpired. cbn.
  destruct (foldl_reclaim _ db j expiredRows_nodup) as (H1 & H2 & H3).
  split; [done|].
  destruct (decide (j ∈ (expiredRows scfg now locked db).*1)) as [Hin|Hnin]; [left|by right; auto].
  apply list_elem_of_fmap in Hin as ([k c] & -> & Hin). cbn in *.
  destruct (expiredRows_spec _ Hin) as [? ?]. destruct (H2 c Hin).
  exists c. by split_and!.
Qed.

(** The events of a sweep that concern one item: at most one. *)
Lemma sweep_events (j : Z) (rows : list (Z * ClaimRow)) :
  NoDup rows.*1 ->
  let evs := events_of j ((fun kc => ESwept kc.1 (fence_token kc.2 + 1)) <$> rows) in
  (forall c, (j, c) ∈ rows -> evs = [ESwept j (fence_token c + 1)]) /\
  (j ∉ rows.*1 -> evs = []).
Proof.
  unfold events_of. induction rows as [|[k c0] rows IH]; intros Hnd.
  { split; [intros c Hc; by apply not_elem_of_nil in Hc|done]. }
  rewrite fmap_cons in Hnd. apply NoDup_cons in Hnd as [Hk Hnd].
  destruct (IH Hnd) as [IH1 IH2]. cbn zeta.
  rewrite !fmap_cons, filter_cons, not_elem_of_cons. cbn [fst snd ev_item].
  case_decide as Hkj; cbn [fst snd] in *.
  - subst k. split; [|tauto]. intros c [?|Hc]%elem_of_cons; simplify_eq.
    + by rewrite IH2.
    + destruct Hk. apply (list_elem_of_fmap_2 fst) in Hc. done.
  - split; [|intros [? ?]; auto]. intros c [?|Hc]%elem_of_cons; simplify_eq; auto.
Qed.
End sweep.

Lemma events_of_app i l1 l2 : events_of i (l1 ++ l2) = events_of i l1 ++ events_of i l2.
Proof. apply filter_app. Qed.

(** What a granted acquire does to any item. *)
Definition item_step (db db' : DB) (evs : list event) (j : Z) : Prop :=
  (events_of j evs = [] /\ fence_of db' j = fence_of db j) \/
  (exists e, events_of j evs = [e] /\ ev_fence e = fence_of db' j /\
     fence_of db' j = if ev_bumps e then fence_of db j + 1 else fence_of db j).

Lemma item_step_none db db' j : fence_of db' j = fence_of db j -> item_step db db' [] j.
Proof. by left. Qed.

Lemma item_step_grant cfg now db i p r db' f j :
  acquireTx cfg now db i p r = Some (db', f) -> item_step db db' [EGrant i p r f] j.
Proof.
  intros (c & st & Hc & _ & _ & _ & -> & ->)%acquireTx_Some.
  unfold item_step, events_of, fence_of. cbn. case_decide as Hij; cbn.
  - right. eexists; split; [done|]. cbn. subst j. by rewrite lookup_insert_eq, Hc.
  - left. by rewrite lookup_insert_ne.
Qed.
#[export] Hint Resolve item_step_none item_step_grant : k8s.

Lemma item_step_touch db db' e j :
  ev_bumps e = false -> ev_fence e = fence_of db (ev_item e) ->
  (forall k, fence_of db' k = fence_of db k) -> item_step db db' [e] j.
Proof.
  intros Hb Hf Hall. unfold item_step, events_of. rewrite filter_cons. case_decide as Hij.
  - right. exists e. rewrite Hb, Hall. subst j. done.
  - left. by rewrite Hall.
Qed.

(** Every operation moves an item's fence by zero or one, and reports the
    fence it left. *)
Lemma exec_item_step cfg scfg now now' db o db' evs j :
  exec cfg scfg now now' db o = (db', evs) -> item_step db db' evs j.
Proof.
  destruct o as [locked p r|i p r|i p f|i p f|i p r f|i p r f t|fencer i p r|locked];
    cbn -[ReclaimExpired DispatchOnce]; intros He.
  - unfold ClaimNext in He. split_matches; eauto with k8s.
  - unfold Acquire in He. split_matches; eauto with k8s.
  - destruct (Renew _ _ _ _ _ _) as [d ok] eqn:Hr. apply Renew_spec in Hr.
    destruct ok; simplify_eq; eauto with k8s.
    destruct Hr as (c & st & Hc & (_ & Hf & _)%live_custody_spec & _ & _ & ->).
    apply item_step_touch; [done|unfold fence_of; cbn; by rewrite Hc|].
    intros k. unfold fence_of. cbn. rewrite lookup_insert. case_decide; by simplify_map_eq.
  - destruct (Complete _ _ _ _ _ _) as [d ok] eqn:Hr. apply Complete_spec in Hr.
    destruct ok; simplify_eq; eauto with k8s.
    destruct Hr as (c & Hc & (_ & Hf & _)%live_custody_spec & _ & ->).
    apply item_step_touch; [done|unfold fence_of; cbn; by rewrite Hc|done].
  - destruct (RedriveClaim _ _ _ _ _ _ _ _) as [d res] eqn:Hr.
    apply RedriveClaim_spec in Hr as [(-> & -> & c & Hc & (_ & Hf & _)%live_custody_spec & _)|Ha].
    + unfold fence_of in He. rewrite Hc, bool_decide_eq_true_2 in He by done.
      simplify_eq. eauto with k8s.
    + unfold Acquire in Ha. destruct (acquireTx _ _ _ _ _ _) as [[d' f']|] eqn:Ht; simplify_eq;
        eauto with k8s.
      rewrite bool_decide_eq_false_2; [eauto with k8s|].
      apply acquireTx_Some in Ht as (c & st & Hc & _ & _ & _ & -> & _).
      unfold fence_of. rewrite Hc. lia.
  - unfold DispatchOnce in He. simplify_eq. apply item_step_none. cbn.
    by repeat case_match.
  - destruct (ReclaimFenced _ _ _ _ _ _ _ _) as [d res] eqn:Hr. apply ReclaimFenced_spec in Hr.
    destruct res as [f|]; simplify_eq; eauto with k8s.
    destruct Hr as [Ha _]. apply (item_step_grant _ _ _ _ _ _ _ _ j) in Ha.
    unfold item_step in *. by rewrite !fence_of_stamp in Ha.
  - destruct (sweep_row scfg now locked db j) as [_ Hrow].
    pose proof (sweep_events j _ (expiredRows_nodup scfg now locked db)) as [Hev1 Hev2].
    unfold ReclaimExpired in *. simplify_eq. cbn [fst] in Hrow.
    rewrite <-list_fmap_compose. unfold compose. cbn [Item RFence].
    destruct Hrow as [(c & Hin & Hc & _ & _ & Hc')|(Hnin & _ & Hc')].
    + right. eexists. rewrite (Hev1 c Hin). split; [done|].
      unfold fence_of. by rewrite Hc, Hc'.
    + left. rewrite Hev2 by done. unfold fence_of. by rewrite Hc'.
Qed.

(** An operation with no completion and no write to a done item. *)
Definition keeps_done (cfg : Config) (db db' : DB) (evs : list event) (j : Z) : Prop :=
  completions j evs = 0%nat /\
  (work_item db !! j = Some (DoneState cfg) -> work_item db' !! j = Some (DoneState cfg)).

Lemma keeps_done_refl cfg db j : keeps_done cfg db db [] j.
Proof. done. Qed.

Lemma completions_none j e : ev_completes e = false -> completions j [e] = 0%nat.
Proof.
  intros He. unfold completions, events_of. rewrite filter_cons. case_decide; [|done].
  rewrite filter_cons_False; [done|]. congruence.
Qed.

Lemma keeps_done_grant cfg now db i p r db' f j :
  acquireTx cfg now db i p r = Some (db', f) ->
  keeps_done cfg db db' [EGrant i p r f] j.
Proof.
  intros (c & st & _ & _ & Hst & Hnd & _ & ->)%acquireTx_Some. split.
  - by apply completions_none.
  - cbn. intros Hd. rewrite lookup_insert_ne; [done|]. intros ->. congruence.
Qed.
#[export] Hint Resolve keeps_done_refl keeps_done_grant : k8s.

Lemma completions_swept j (rs : list Reclaimed) :
  completions j ((fun r => ESwept (Item r) (RFence r)) <$> rs) = 0%nat.
Proof.
  unfold completions, events_of. induction rs as [|r rs IH]; [done|].
  rewrite fmap_cons, filter_cons. case_decide; [|done]. by rewrite filter_cons_False.
Qed.

(** Every operation but a completion keeps every done item done. *)
Lemma exec_lifecycle cfg scfg now now' db o db' evs j :
  SweepDoneState scfg = DoneState cfg ->
  exec cfg scfg now now' db o = (db', evs) ->
  keeps_done cfg db db' evs j \/
  (exists p f, evs = [ECompleted j p f] /\ work_item db !! j = Some (ClaimedState cfg) /\
     work_item db' !! j = Some (DoneState cfg)).
Proof.
  intros Hsd.
  destruct o as [locked p r|i p r|i p f|i p f|i p r f|i p r f t|fencer i p r|locked];
    cbn -[ReclaimExpired DispatchOnce]; intros He.
  - left. unfold ClaimNext in He. split_matches; eauto with k8s.
  - left. unfold Acquire in He. split_matches; eauto with k8s.
  - left. destruct (Renew _ _ _ _ _ _) as [d ok] eqn:Hr. apply Renew_spec in Hr.
    destruct ok; simplify_eq; eauto with k8s.
    destruct Hr as (c & st & _ & _ & _ & _ & ->). split; [by apply completions_none|done].
  - destruct (Complete _ _ _ _ _ _) as [d ok] eqn:Hr. apply Complete_spec in Hr.
    destruct ok; simplify_eq; eauto with k8s.
    destruct Hr as (c & _ & _ & Hst & ->).
    destruct (decide (i = j)) as [->|Hne].
    + right. exists p, f. cbn. by rewrite lookup_insert_eq.
    + left. split; [|cbn; by rewrite lookup_insert_ne].
      unfold completions, events_of. by rewrite filter_cons_False.
  - left. destruct (RedriveClaim _ _ _ _ _ _ _ _) as [d res] eqn:Hr.
    apply RedriveClaim_spec in Hr as [(-> & -> & c & Hc & _)|Ha].
    + case_bool_decide; simplify_eq; eauto with k8s. split; [by apply completions_none|done].
    + unfold Acquire in Ha. destruct (acquireTx _ _ _ _ _ _) as [[d' f']|] eqn:Ht; simplify_eq;
        eauto with k8s.
      case_bool_decide; [|eauto with k8s].
      split; [done|]. by eapply keeps_done_grant.
  - left. unfold DispatchOnce in He. simplify_eq. split; [done|]. cbn. by repeat case_match.
  - left. destruct (ReclaimFenced _ _ _ _ _ _ _ _) as [d res] eqn:Hr.
    apply ReclaimFenced_spec in Hr. destruct res as [f|]; simplify_eq; eauto with k8s.
    destruct Hr as [Ha _]. by apply (keeps_done_grant _ _ _ _ _ _ _ _ j) in Ha.
  - left. destruct (sweep_row scfg now locked db j) as [_ Hrow].
    unfold ReclaimExpired in *. simplify_eq. cbn [fst] in Hrow. split.
    + apply completions_swept.
    + intros Hd. destruct Hrow as [(c & _ & _ & (_ & _ & _ & Hst) & _)|(_ & -> & _)]; [|done].
      cbn in Hst. rewrite Hd in Hst. congruence.
Qed.

(** * Lemmas: executions *)

Lemma last_fence_snoc f l e : last_fence f (l ++ [e]) = ev_fence e.
Proof. unfold last_fence. by rewrite last_snoc. Qed.

Lemma fenced_from_snoc f l e :
  fenced_from f (l ++ [e]) <->
  fenced_from f l /\
  (if ev_bumps e then last_fence f l < ev_fence e else ev_fence e = last_fence f l).
Proof.
  revert f. induction l as [|e0 l IH]; intros f; cbn [fenced_from app].
  - cbn. unfold last_fence. cbn. tauto.
  - rewrite IH. assert (last_fence f (e0 :: l) = last_fence (ev_fence e0) l) as ->; [|tauto].
    unfold last_fence. destruct l; [done|]. rewrite last_cons_cons.
    destruct (last _) eqn:Hl; [done|]. by apply last_None in Hl.
Qed.

Section traces.
Context (cfg : Config) (scfg : SweepConfig).
Context (Hdone : SweepDoneState scfg = DoneState cfg).
Context (Hclaimed : ClaimedState cfg ≠ DoneState cfg).

Lemma trace_fences f0 t t' j :
  fenced_from f0 (events_of j (tr_log t)) /\
    fence_of (tr_db t) j = last_fence f0 (events_of j (tr_log t)) ->
  rtc (spine_step cfg scfg) t t' ->
  fenced_from f0 (events_of j (tr_log t')) /\
    fence_of (tr_db t') j = last_fence f0 (events_of j (tr_log t')).
Proof.
  intros Hi Hr. induction Hr as [|t t1 t' Hs _ IH]; [done|]. apply IH. clear IH.
  destruct Hs as [t now now' o db' evs _ _ He]; cbn [tr_log tr_db].
  rewrite events_of_app. destruct Hi as [Hi1 Hi2].
  destruct (exec_item_step _ _ _ _ _ _ _ _ j He) as [[-> Hf]|(e & -> & He1 & He2)].
  - rewrite app_nil_r, Hf. done.
  - rewrite fenced_from_snoc, last_fence_snoc, <-Hi2. split_and!; try done.
    destruct (ev_bumps e); lia.
Qed.

Lemma completions_app j l1 l2 :
  completions j (l1 ++ l2) = (completions j l1 + completions j l2)%nat.
Proof. unfold completions. by rewrite events_of_app, filter_app, length_app. Qed.

Definition completed_inv (j : Z) (t : trace) : Prop :=
  (completions j (tr_log t) <= 1)%nat /\
  (completions j (tr_log t) = 1%nat -> work_item (tr_db t) !! j = Some (DoneState cfg)).

Lemma trace_completions t t' j :
  completed_inv j t -> rtc (spine_step cfg scfg) t t' ->
  completed_inv j t' /\
  (work_item (tr_db t) !! j = Some (DoneState cfg) ->
   work_item (tr_db t') !! j = Some (DoneState cfg)).
Proof.
  intros Hi Hr. induction Hr as [|t t1 t' Hs _ IH]; [done|].
  assert (completed_inv j t1 /\
    (work_item (tr_db t) !! j = Some (DoneState cfg) ->
     work_item (tr_db t1) !! j = Some (DoneState cfg))) as [H1 H2];
    [|destruct (IH H1); split; auto].
  clear IH. destruct Hs as [t now now' o db' evs _ _ He]. destruct Hi as [Hi1 Hi2].
  unfold completed_inv. cbn [tr_log tr_db]. rewrite completions_app.
  destruct (exec_lifecycle _ _ _ _ _ _ _ _ j Hdone He)
    as [[-> Hk]|(p & f & -> & Hst & Hst')].
  - rewrite Nat.add_0_r. split_and!; auto.
  - assert (completions j [ECompleted j p f] = 1%nat) as ->.
    { unfold completions, events_of. by rewrite filter_cons_True, filter_cons_True. }
    assert (completions j (tr_log t) = 0%nat) as ->; [|split_and!; auto].
    destruct (completions j (tr_log t)) as [|[]]; [done| |lia].
    exfalso. apply Hclaimed. specialize (Hi2 eq_refl). congruence.
Qed.

Lemma exec_dispatch now now' db o db' evs r task :
  exec cfg scfg now now' db o = (db', evs) ->
  dispatch db !! r = Some task -> dispatch db' !! r = Some task.
Proof.
  destruct o as [locked p r'|i p r'|i p f|i p f|i p r' f|i p r' f t|fencer i p r'|locked];
    cbn -[ReclaimExpired DispatchOnce]; intros He Hd.
  - unfold ClaimNext in He. destruct (pickOpen _ _ _); [|by simplify_eq].
    destruct (acquireTx _ _ _ _ _ _) as [[]|] eqn:Ha; simplify_eq; [|done].
    by rewrite (acquireTx_dispatch _ _ _ _ _ _ _ _ Ha).
  - unfold Acquire in He.
    destruct (acquireTx _ _ _ _ _ _) as [[]|] eqn:Ha; simplify_eq; [|done].
    by rewrite (acquireTx_dispatch _ _ _ _ _ _ _ _ Ha).
  - destruct (Renew _ _ _ _ _ _) as [d ok] eqn:Hr. apply Renew_spec in Hr.
    destruct ok; simplify_eq; [|done]. by destruct Hr as (?&?&_&_&_&_&->).
  - destruct (Complete _ _ _ _ _ _) as [d ok] eqn:Hr. apply Complete_spec in Hr.
    destruct ok; simplify_eq; [|done]. by destruct Hr as (?&_&_&_&->).
  - destruct (RedriveClaim _ _ _ _ _ _ _ _) as [d res] eqn:Hr. simplify_eq.
    apply RedriveClaim_spec in Hr as [(-> & _)|Ha]; [done|].
    unfold Acquire in Ha.
    destruct (acquireTx _ _ _ _ _ _) as [[]|] eqn:Hq; simplify_eq; [|done].
    by rewrite (acquireTx_dispatch _ _ _ _ _ _ _ _ Hq).
  - unfold DispatchOnce in He. simplify_eq. cbn.
    destruct (dispatch db !! r') eqn:Hr'; [done|].
    destruct (match claim db !! i with Some _ => _ | None => _ end); [|done].
    cbn. rewrite lookup_insert_ne; [done|]. congruence.
  - destruct (ReclaimFenced _ _ _ _ _ _ _ _) as [d res] eqn:Hr.
    apply ReclaimFenced_spec in Hr. destruct res; simplify_eq; [|done].
    destruct Hr as [(?&?&_&_&_&_&_&->)%acquireTx_Some _]. done.
  - destruct (sweep_row scfg now locked db 0) as [Hdi _].
    unfold ReclaimExpired in *. simplify_eq. cbn [fst] in Hdi. by rewrite Hdi.
Qed.
End traces.

(** * Lemmas: a live lease protects its holder *)

Definition held (p r : string) (f e : Z) (oc : option ClaimRow) : Prop :=
  exists c e', oc = Some c /\ holder_principal c = Some p /\ run_id c = Some r /\
    fence_token c = f /\ lease_expires_at c = Some e' /\ e <= e'.

Lemma held_unclaimable p r f e c now :
  held p r f e (Some c) -> now <= e -> claimable c now = false.
Proof.
  intros (? & e' & [= <-] & Hp & _ & _ & Hl & He) Hn. unfold claimable. rewrite Hp, Hl. cbn.
  apply Z.ltb_ge. lia.
Qed.

Lemma acquire_protects cfg now db i p0 r0 db' f0 j p r f e :
  acquireTx cfg now db i p0 r0 = Some (db', f0) -> now <= e ->
  held p r f e (claim db !! j) -> held p r f e (claim db' !! j).
Proof.
  intros (c & st & Hc & Hcl & _ & _ & _ & ->)%acquireTx_Some Hn Hh. cbn.
  rewrite lookup_insert_ne; [done|]. intros ->. rewrite Hc in Hh.
  rewrite (held_unclaimable _ _ _ _ _ _ Hh Hn) in Hcl. done.
Qed.

Lemma Acquire_protects cfg now db i p0 r0 j p r f e :
  now <= e -> held p r f e (claim db !! j) ->
  held p r f e (claim (Acquire cfg now db i p0 r0).1 !! j).
Proof.
  intros Hn Hh. unfold Acquire. destruct (acquireTx _ _ _ _ _ _) as [[]|] eqn:Ha; [|done].
  by eapply acquire_protects.
Qed.

Lemma exec_protects cfg scfg now now' db o db' evs j p r f e :
  exec cfg scfg now now' db o = (db', evs) ->
  now <= now' -> now' <= e -> e <= now + LeaseInterval cfg ->
  held p r f e (claim db !! j) -> held p r f e (claim db' !! j).
Proof.
  intros He Hn Hn' Hl Hh. revert He.
  destruct o as [locked p0 r0|i p0 r0|i p0 f0|i p0 f0|i p0 r0 f0|i p0 r0 f0 t|fencer i p0 r0|locked];
    cbn -[ReclaimExpired DispatchOnce Acquire]; intros He.
  - unfold ClaimNext in He. destruct (pickOpen _ _ _); [|by simplify_eq].
    destruct (acquireTx _ _ _ _ _ _) as [[]|] eqn:Ha; simplify_eq; [|done].
    eapply acquire_protects; [done|lia|done].
  - pose proof (Acquire_protects cfg now db i p0 r0 j p r f e) as HA.
    destruct (Acquire _ _ _ _ _ _). simplify_eq. apply HA; [lia|done].
  - destruct (Renew _ _ _ _ _ _) as [d ok] eqn:Hr. apply Renew_spec in Hr.
    destruct ok; simplify_eq; [|done]. destruct Hr as (c & st & Hc & _ & _ & _ & ->). cbn.
    rewrite lookup_insert. case_decide; [subst|done].
    destruct Hh as (c' & e' & Hc' & Hp & Hr & Hf & Hl' & He). simplify_eq.
    eexists _, _. split_and!; (done || lia).
  - destruct (Complete _ _ _ _ _ _) as [d ok] eqn:Hr. apply Complete_spec in Hr.
    destruct ok; simplify_eq; [|done]. by destruct Hr as (?&_&_&_&->).
  - destruct (RedriveClaim _ _ _ _ _ _ _ _) as [d res] eqn:Hr. simplify_eq.
    apply RedriveClaim_spec in Hr as [(-> & _)|Ha]; [done|].
    pose proof (Acquire_protects cfg now' db i p0 r0 j p r f e) as HA.
    rewrite Ha in HA. by apply HA.
  - unfold DispatchOnce in He. simplify_eq. by repeat case_match.
  - destruct (ReclaimFenced _ _ _ _ _ _ _ _) as [d res] eqn:Hr.
    apply ReclaimFenced_spec in Hr. destruct res; simplify_eq; [|done].
    destruct Hr as [Ha _]. eapply acquire_protects; [done|lia|]. cbn.
    rewrite lookup_alter. case_decide; [|done]. subst.
    destruct Hh as (c' & e' & -> & ?). by exists (stamped now c'), e'.
  - destruct (sweep_row scfg now locked db j) as [_ Hrow].
    unfold ReclaimExpired in *. simplify_eq. cbn [fst] in Hrow.
    destruct Hrow as [(c & _ & Hc & (_ & Hex & _) & _)|(_ & _ & ->)]; [|done].
    destruct Hh as (c' & e' & Hc' & _ & _ & _ & Hl' & ?). simplify_eq.
    cbn in Hex. rewrite Hl' in Hex. cbn in Hex. reflect_bools. lia.
Qed.

Lemma trace_now cfg scfg t t' : rtc (spine_step cfg scfg) t t' -> tr_now t <= tr_now t'.
Proof.
  induction 1 as [|t t1 t' Hs _ IH]; [lia|]. destruct Hs; cbn in *. lia.
Qed.

(** * Lemmas: the pop order and the due set *)

Lemma pickOpen_spec cfg locked db :
  match pickOpen cfg locked db with
  | Some id =>
      work_item db !! id = Some (OpenState cfg) /\ (id ∉ locked) /\
      forall k, work_item db !! k = Some (OpenState cfg) -> k ∉ locked -> id <= k
  | None => forall k, work_item db !! k = Some (OpenState cfg) -> k ∈ locked
  end.
Proof.
  unfold pickOpen.
  set (l := fst <$> _).
  assert (forall k, k ∈ l <-> work_item db !! k = Some (OpenState cfg) /\ k ∉ locked) as Hl.
  { intros k. unfold l. rewrite list_elem_of_fmap. split.
    - intros ([k' st] & -> & [[??] Hin]%list_elem_of_filter). cbn in *. subst.
      by apply elem_of_map_to_list in Hin.
    - intros [Hk ?]. exists (k, OpenState cfg). split; [done|].
      apply list_elem_of_filter. split; [done|]. by apply elem_of_map_to_list. }
  pose proof (merge_sort_Permutation Z.le l) as Hp.
  assert (StronglySorted Z.le (merge_sort Z.le l)) as Hs by apply (StronglySorted_merge_sort _ _).
  destruct (merge_sort Z.le l) as [|id rest]; cbn.
  - intros k Hk. destruct (decide (k ∈ locked)); [done|].
    assert (k ∈ l) as Hin by (by apply Hl). rewrite <-Hp in Hin. by apply not_elem_of_nil in Hin.
  - assert (id ∈ l) as Hin by (rewrite <-Hp; left). apply Hl in Hin as [Ho Hk0].
    split_and!; try done. intros k Hk Hnl.
    assert (k ∈ l) as Hin' by (by apply Hl). rewrite <-Hp in Hin'.
    apply elem_of_cons in Hin' as [->|Hin']; [lia|].
    apply StronglySorted_inv in Hs as [_ Hall]. rewrite Forall_forall in Hall. auto.
Qed.

Lemma expiredRows_complete scfg now locked db kc :
  (length (map_to_list (claim db)) <= Z.to_nat (batchParam scfg))%nat ->
  claim db !! kc.1 = Some kc.2 -> expired scfg now locked db kc ->
  kc ∈ expiredRows scfg now locked db.
Proof.
  intros Hb Hc He. unfold expiredRows. rewrite take_ge.
  - rewrite merge_sort_Permutation. apply list_elem_of_filter. split; [done|].
    destruct kc. by apply elem_of_map_to_list.
  - rewrite merge_sort_Permutation. etrans; [apply length_filter|done].
Qed.

(** * Properties *)

(** Fencing. Through any sequence of claims, acquires, renewals,
    completions, re-drives, dispatches, fenced reclaims and sweeps under a
    non-decreasing clock, the successes an item's callers see are fenced: every
    new generation (grant or sweep) carries a strictly larger fence than all
    before it, a renewal or completion only ever succeeds at the newest fence,
    and the claim row holds the last fence reported. *)
Theorem fence_discipline cfg scfg t t' item :
  tr_log t = [] ->
  rtc (spine_step cfg scfg) t t' ->
  fenced_from (fence_of (tr_db t) item) (events_of item (tr_log t')) /\
  fence_of (tr_db t') item =
    last_fence (fence_of (tr_db t) item) (events_of item (tr_log t')).
Proof. intros Hl. apply trace_fences. by rewrite Hl. Qed.

(** Completion is exactly-once and final. In any execution an item is
    completed at most once, a completed item is done, and a done item is never
    reopened by a claim, a re-drive, a reclaim or a sweep. *)
Theorem complete_once cfg scfg t t' item :
  SweepDoneState scfg = DoneState cfg ->
  ClaimedState cfg ≠ DoneState cfg ->
  tr_log t = [] ->
  rtc (spine_step cfg scfg) t t' ->
  (completions item (tr_log t') <= 1)%nat /\
  (completions item (tr_log t') = 1%nat ->
     work_item (tr_db t') !! item = Some (DoneState cfg)) /\
  (work_item (tr_db t) !! item = Some (DoneState cfg) ->
     work_item (tr_db t') !! item = Some (DoneState cfg)).
Proof.
  intros H1 H2 Hl Hr.
  destruct (trace_completions cfg scfg H1 H2 t t' item) as [[? ?] ?]; [|done|by split_and!].
  unfold completed_inv. rewrite Hl. split; [cbn; lia|by cbn].
Qed.

(** A live lease excludes everyone else. While the clock has not passed the
    expiry [e] of a held claim, no sequence of operations changes its holder,
    run or fence or shortens its lease, and every attempt to acquire it is
    refused and commits nothing. *)
Theorem lease_exclusion cfg scfg t t' item p r f e :
  held p r f e (claim (tr_db t) !! item) ->
  e <= tr_now t + LeaseInterval cfg ->
  rtc (spine_step cfg scfg) t t' ->
  tr_now t' <= e ->
  held p r f e (claim (tr_db t') !! item) /\
  forall now p' r', now <= e ->
    Acquire cfg now (tr_db t') item p' r' = (tr_db t', None).
Proof.
  intros Hh Hw Hr He.
  assert (held p r f e (claim (tr_db t') !! item)) as Hh'.
  { induction Hr as [|t t1 t' Hs Hr IH]; [done|].
    pose proof (trace_now _ _ _ _ Hr).
    destruct Hs as [t now now' o db' evs ?? Hex]; cbn in *.
    apply IH; [|lia|done]. eapply exec_protects; [done|done|lia|lia|done]. }
  split; [done|]. intros now p' r' Hn. unfold Acquire, acquireTx.
  pose proof Hh' as (c & e' & Hc & _). rewrite Hc in Hh' |- *.
  by rewrite (held_unclaimable _ _ _ _ _ _ Hh' Hn).
Qed.

(** Record-once dispatch. The marker of a run never changes once
    recorded, whatever else happens; a re-entry with another candidate id
    returns the recorded one and writes nothing; a first dispatch records its id
    exactly when the caller holds the item live, for this run, at this fence,
    and otherwise returns the empty id and writes nothing. *)
Theorem dispatch_once cfg scfg t t' now db item p r f task :
  rtc (spine_step cfg scfg) t t' ->
  (forall r task, dispatch (tr_db t) !! r = Some task ->
     dispatch (tr_db t') !! r = Some task) /\
  match dispatch db !! r with
  | Some got => DispatchOnce now db item p r f task = (db, got)
  | None =>
      if match claim db !! item with
         | Some c => live_custody c p f now && sql_eqb (run_id c) r
         | None => false
         end
      then DispatchOnce now db item p r f task =
             ({| work_item := work_item db; claim := claim db;
                 dispatch := <[r := task]> (dispatch db) |}, task)
      else DispatchOnce now db item p r f task = (db, ""%string)
  end.
Proof.
  intros Hr. split.
  - intros r0 task0 Hd. induction Hr as [|t0 t1 t2 [t3 now1 now' o db' evs ?? Hex] _ IH]; [done|].
    apply IH. by eapply exec_dispatch.
  - unfold DispatchOnce. destruct (dispatch db !! r) as [got|] eqn:Hd; [by rewrite Hd|].
    destruct (match claim db !! item with Some _ => _ | None => _ end).
    + cbn. by rewrite lookup_insert_eq.
    + by rewrite Hd.
Qed.

(** Fence before release, fail closed. A reclaim that reports an error
    (the resource fencer refused, or the lease is live) commits nothing: the
    outgoing holder keeps its claim and no stamp is left. A reclaim that
    succeeds had its fencer confirm the outgoing holder and run, replaced a free
    or expired claim of an item that is not done, stamped the fence mark and
    raised the fence by exactly one. *)
Theorem reclaim_fail_closed cfg fencer now now' db item p r db' res :
  ReclaimFenced cfg fencer now now' db item p r = (db', res) ->
  match res with
  | Err _ => db' = db
  | Ok f =>
      exists c, claim db !! item = Some c /\ claimable c now' = true /\
        work_item db !! item ≠ Some (DoneState cfg) /\
        f = fence_token c + 1 /\
        claim db' !! item =
          Some {| holder_principal := Some p; run_id := Some r; fence_token := f;
                  lease_expires_at := Some (now' + LeaseInterval cfg);
                  reclaim_fenced_at := Some now |} /\
        (forall g, fencer = Some g ->
           g item (default "" (holder_principal c)) (default "" (run_id c)) = None)
  end.
Proof.
  intros Hr. apply ReclaimFenced_spec in Hr. destruct res as [f|]; [|done].
  destruct Hr as [(c & st & Hc & Hcl & Hst & Hnd & -> & ->)%acquireTx_Some Hg].
  cbn in *. rewrite lookup_alter_eq in Hc.
  destruct (claim db !! item) as [c0|] eqn:Hc0; simplify_eq/=.
  exists c0. rewrite lookup_insert_eq. split_and!; try done; [congruence|eauto].
Qed.

(** The sweep reclaims exactly the due claims. Every reported item was
    held under a lapsed lease, unlocked and not done; it ends unheld, open, and
    one fence up, stamped; every other row of both tables and every dispatch
    marker is untouched; no item is reported twice; and when the batch bound
    covers the table no unlocked due claim is left behind. *)
Theorem sweep_exact scfg now locked db :
  let '(db', rs) := ReclaimExpired scfg now locked db in
  NoDup (Item <$> rs) /\ dispatch db' = dispatch db /\
  (forall j,
     (exists c, {| Item := j; RFence := fence_token c + 1 |} ∈ rs /\
        claim db !! j = Some c /\ expired scfg now locked db (j, c) /\
        work_item db' !! j = Some (SweepOpenState scfg) /\
        claim db' !! j = Some {| holder_principal := None; run_id := None;
                                 fence_token := fence_token c + 1;
                                 lease_expires_at := None;
                                 reclaim_fenced_at := Some now |})
     \/ ((j ∉ Item <$> rs) /\ work_item db' !! j = work_item db !! j /\
         claim db' !! j = claim db !! j)) /\
  ((length (map_to_list (claim db)) <= Z.to_nat (batchParam scfg))%nat ->
   forall j c, claim db !! j = Some c -> expired scfg now locked db (j, c) ->
     claim db' !! j ≠ Some c).
Proof.
  assert (Item <$> (ReclaimExpired scfg now locked db).2 =
          (expiredRows scfg now locked db).*1) as Hit.
  { cbn. rewrite <-list_fmap_compose. by apply list_fmap_ext. }
  destruct (ReclaimExpired scfg now locked db) as [db' rs] eqn:HR. cbn [snd] in Hit.
  split_and!.
  - rewrite Hit. apply expiredRows_nodup.
  - destruct (sweep_row scfg now locked db 0) as [Hd _]. by rewrite HR in Hd.
  - intros j. destruct (sweep_row scfg now locked db j) as [_ Hrow]. rewrite HR in Hrow.
    destruct Hrow as [(c & Hin & ? & ? & ? & ?)|?]; [left|right; by rewrite Hit].
    exists c. split_and!; try done. unfold ReclaimExpired in HR. simplify_eq.
    apply list_elem_of_fmap. by exists (j, c).
  - intros Hb j c Hc He Hc'.
    pose proof (expiredRows_complete scfg now locked db (j, c) Hb Hc He) as Hin.
    destruct (sweep_row scfg now locked db j) as [_ Hrow]. rewrite HR in Hrow.
    destruct Hrow as [(c1 & _ & ? & _ & _ & Hrow)|(Hnin & _)].
    + destruct He as [He _]. cbn [fst snd] in Hrow, He. rewrite Hc' in Hrow.
      by injection Hrow as ->.
    + apply Hnin. apply (list_elem_of_fmap_2 fst) in Hin. done.
Qed.

(** The pop is fair and loses no work. A granted [ClaimNext] hands out the
    least open item no other transaction has locked; it reports nothing only
    when every open item is locked, or when the popped item's claim is held
    under a live lease or missing; and it then commits nothing. *)
Theorem claim_next_pops_least cfg now locked db p r :
  let '(db', res) := ClaimNext cfg now locked db p r in
  match res with
  | Some (id, f) =>
      work_item db !! id = Some (OpenState cfg) /\ (id ∉ locked) /\
      (forall k, work_item db !! k = Some (OpenState cfg) -> k ∉ locked -> id <= k) /\
      f = fence_of db id + 1 /\ fence_of db' id = f /\
      work_item db' !! id = Some (ClaimedState cfg)
  | None =>
      db' = db /\
      (OpenState cfg ≠ DoneState cfg ->
       (forall k c, claim db !! k = Some c -> work_item db !! k = Some (OpenState cfg) ->
          claimable c now = true) ->
       forall k, work_item db !! k = Some (OpenState cfg) -> is_Some (claim db !! k) ->
         (forall k', work_item db !! k' = Some (OpenState cfg) -> is_Some (claim db !! k')) ->
         k ∈ locked)
  end.
Proof.
  unfold ClaimNext. pose proof (pickOpen_spec cfg locked db) as Hp.
  destruct (pickOpen cfg locked db) as [id|]; [|split; auto].
  destruct Hp as (Ho & Hl & Hmin).
  destruct (acquireTx cfg now db id p r) as [[db' f]|] eqn:Ha.
  - apply acquireTx_Some in Ha as (c & st & Hc & _ & _ & _ & -> & ->). unfold fence_of. cbn.
    rewrite !lookup_insert_eq, Hc. by split_and!.
  - split; [done|]. intros Hod Hfree k _ _ Hrows. exfalso.
    destruct (Hrows id Ho) as [c Hc]. unfold acquireTx in Ha.
    rewrite Hc, (Hfree id c Hc Ho), Ho, bool_decide_eq_false_2 in Ha; done.
Qed.

(** * Witnesses: a two-item board *)

Definition freeRow (fence : Z) : ClaimRow :=
  {| holder_principal := None; run_id := None; fence_token := fence;
     lease_expires_at := None; reclaim_fenced_at := None |}.

Definition board : DB :=
  {| work_item := {[ 1 := "open"; 2 := "open" ]};
     claim := {[ 1 := freeRow 0; 2 := freeRow 4 ]}; dispatch := ∅ |}.

Definition sweep_cfg : SweepConfig :=
  {| SweepWorkItem := "work_item"; SweepClaim := "claim"; SweepOpenState := "open";
     SweepDoneState := "done"; Interval := 50; Batch := 128 |}.

Definition start : trace := {| tr_now := 0; tr_db := board; tr_log := [] |}.

(** Claim item 1 at time 0, let the lease lapse, sweep, claim it again. *)
Definition board1 := (ClaimNext NewForTest 0 ∅ board "alice" "run-a").1.
Definition board2 := (ReclaimExpired sweep_cfg 2000000000 ∅ board1).1.
Definition board3 := (ClaimNext NewForTest 3000000000 ∅ board2 "bob" "run-b").1.
Definition board4 := (Complete NewForTest 3000000001 board3 1 "bob" 3).1.

Definition finish : trace :=
  {| tr_now := 3000000001; tr_db := board4;
     tr_log := [EGrant 1 "alice" "run-a" 1; ESwept 1 2; EGrant 1 "bob" "run-b" 3;
                ECompleted 1 "bob" 3] |}.

Lemma finish_reachable : rtc (spine_step NewForTest sweep_cfg) start finish.
Proof.
  eapply rtc_l; [apply (spine_op _ _ start 0 0 (OClaimNext ∅ "alice" "run-a") board1
                          [EGrant 1 "alice" "run-a" 1]); by vm_compute|].
  eapply rtc_l; [eapply (spine_op _ _ _ 2000000000 2000000000 (OSweep ∅) board2 [ESwept 1 2]);
                 by vm_compute|].
  eapply rtc_l; [eapply (spine_op _ _ _ 3000000000 3000000000 (OClaimNext ∅ "bob" "run-b") board3
                           [EGrant 1 "bob" "run-b" 3]); by vm_compute|].
  eapply rtc_l; [eapply (spine_op _ _ _ 3000000001 3000000001 (OComplete 1 "bob" 3) board4
                           [ECompleted 1 "bob" 3]); by vm_compute|].
  apply rtc_refl.
Qed.

Lemma fence_discipline_witness :
  fenced_from 0 (events_of 1 (tr_log finish)) /\ fence_of (tr_db finish) 1 = 3.
Proof.
  destruct (fence_discipline NewForTest sweep_cfg start finish 1) as [H1 H2];
    [reflexivity|apply finish_reachable|].
  split; [exact H1|exact H2].
Defined.

Lemma complete_once_witness :
  completions 1 (tr_log finish) = 1%nat /\ work_item (tr_db finish) !! 1 = Some "done"%string.
Proof.
  split; [reflexivity|].
  destruct (complete_once NewForTest sweep_cfg start finish 1) as (_ & Hd & _);
    [reflexivity|discriminate|reflexivity|apply finish_reachable|].
  apply Hd. reflexivity.
Defined.

Lemma lease_exclusion_witness :
  Acquire NewForTest 5 board1 1 "mallory" "run-m" = (board1, None).
Proof.
  eapply (lease_exclusion NewForTest sweep_cfg
            {| tr_now := 0; tr_db := board1; tr_log := [] |}
            {| tr_now := 0; tr_db := board1; tr_log := [] |} 1 "alice" "run-a" 1 1000000000);
    [|cbn; lia|apply rtc_refl|cbn; lia|lia].
  eexists _, _. by split_and!.
Defined.

Lemma dispatch_once_witness :
  dispatch (DispatchOnce 5 board1 1 "alice" "run-a" 1 "task-1").1 !! "run-a"%string
    = Some "task-1"%string /\
  DispatchOnce 5 board 1 "alice" "run-a" 1 "task-1" = (board, ""%string).
Proof.
  split; [reflexivity|].
  apply (dispatch_once NewForTest sweep_cfg start finish 5 board 1 "alice" "run-a" 1 "task-1"),
    finish_reachable.
Defined.

Lemma reclaim_fail_closed_witness :
  let refuse := Some (fun (_ : Z) (_ _ : string) => Some "pod still running"%string) in
  (ReclaimFenced NewForTest refuse 2000000000 2000000000 board1 1 "bob" "run-b").1 = board1.
Proof.
  intros refuse.
  apply (reclaim_fail_closed NewForTest refuse 2000000000 2000000000 board1 1 "bob" "run-b"
           board1
           (Err "resource-layer fence unconfirmed, refusing release: pod still running")).
  reflexivity.
Defined.
