(* ===== verification/Pool.v ===== *)
(** The physical warm pool (src/pkg/warmpool/pool.go).

    Sandboxes are shared mutable objects: [entries], [byRun] and [draining] hold
    pointers to them, so the model has a heap of sandboxes and the three indexes
    hold addresses. Every method is split at its mutex releases: one definition
    per critical section, and the provisioner's answers (and the minted id) are
    arguments of the section that consumes them. [physical] says whether a
    provisioner is wired ([nil] selects the ledger-only pool). *)
From S2P Require Import Prelude.
Open Scope Z_scope.

Inductive SandboxState : Set := StateWarming | StateReady | StateBound | StateDraining.

#[export] Instance SandboxState_eq_dec : EqDecision SandboxState.
Proof. solve_decision. Defined.

Record PoolKey : Set := {
  RuntimeClass : string;
  Image : string;
  Namespace : string;
  CapabilityHash : string;
  ProjectPVC : string;
}.

#[export] Instance PoolKey_eq_dec : EqDecision PoolKey.
Proof. solve_decision. Defined.
#[export] Instance PoolKey_countable : Countable PoolKey.
Proof.
  refine (inj_countable'
    (fun k => (RuntimeClass k, Image k, Namespace k, CapabilityHash k, ProjectPVC k))
    (fun '(a, b, c, d, e) => Build_PoolKey a b c d e) _).
  by intros [].
Defined.

(** [RunClass] is a Go string type. *)
Inductive RunClass : Set := ClassInteractive | ClassBatch | ClassOther (raw : string).

#[export] Instance RunClass_eq_dec : EqDecision RunClass.
Proof. solve_decision. Defined.

Record Sandbox : Set := {
  ID : string;
  Key : PoolKey;
  State : SandboxState;
  BoundRun : string;
  CreatedAt : Z;
  ReadyAt : Z; (* 0 is the zero time *)
}.

Definition with_state (s : SandboxState) (sb : Sandbox) : Sandbox :=
  {| ID := ID sb; Key := Key sb; State := s; BoundRun := BoundRun sb;
     CreatedAt := CreatedAt sb; ReadyAt := ReadyAt sb |}.
Definition with_run (r : string) (sb : Sandbox) : Sandbox :=
  {| ID := ID sb; Key := Key sb; State := State sb; BoundRun := r;
     CreatedAt := CreatedAt sb; ReadyAt := ReadyAt sb |}.
Definition with_ready_at (t : Z) (sb : Sandbox) : Sandbox :=
  {| ID := ID sb; Key := Key sb; State := State sb; BoundRun := BoundRun sb;
     CreatedAt := CreatedAt sb; ReadyAt := t |}.

Record Pool : Type := {
  heap : gmap nat Sandbox;
  entries : gmap string nat;
  ready : gmap PoolKey (list string);
  byRun : gmap string nat;
  draining : gmap PoolKey (list nat);
}.

Definition NewPool : Pool :=
  {| heap := ∅; entries := ∅; ready := ∅; byRun := ∅; draining := ∅ |}.

(** Reads of a Go map of slices: a missing key is the nil slice. *)
Definition fifo (p : Pool) (key : PoolKey) : list string := default [] (ready p !! key).
Definition drains (p : Pool) (key : PoolKey) : list nat := default [] (draining p !! key).

Definition upd_heap (f : gmap nat Sandbox -> gmap nat Sandbox) (p : Pool) : Pool :=
  {| heap := f (heap p); entries := entries p; ready := ready p; byRun := byRun p;
     draining := draining p |}.
Definition upd_entries (f : gmap string nat -> gmap string nat) (p : Pool) : Pool :=
  {| heap := heap p; entries := f (entries p); ready := ready p; byRun := byRun p;
     draining := draining p |}.
Definition set_fifo (key : PoolKey) (l : list string) (p : Pool) : Pool :=
  {| heap := heap p; entries := entries p; ready := <[key := l]> (ready p);
     byRun := byRun p; draining := draining p |}.
Definition upd_byRun (f : gmap string nat -> gmap string nat) (p : Pool) : Pool :=
  {| heap := heap p; entries := entries p; ready := ready p; byRun := f (byRun p);
     draining := draining p |}.
Definition set_drains (key : PoolKey) (l : list nat) (p : Pool) : Pool :=
  {| heap := heap p; entries := entries p; ready := ready p; byRun := byRun p;
     draining := <[key := l]> (draining p) |}.

(** [p.entries[id]] followed by the pointer. *)
Definition entry (p : Pool) (id : string) : option (nat * Sandbox) :=
  match entries p !! id with
  | None => None
  | Some a => match heap p !! a with None => None | Some sb => Some (a, sb) end
  end.

(** [&Sandbox{...}]: an unused address. *)
Definition fresh_ptr (p : Pool) : nat := fresh (dom (heap p)).

(** * Bind *)

Inductive BindStep : Type :=
| BindDone (res : result string string)
| BindAgain                       (* a phantom slot was dropped: start over *)
| BindCold (id : string) (a : nat). (* waiting for the provisioner's Boot *)

(** Up to the boot call: reattach, class guard, warm pop, or reservation of a
    cold sandbox under the freshly minted [id]. *)
Definition Bind1 (p : Pool) (runID : string) (key : PoolKey) (class : RunClass)
    (id : string) (now : Z) : Pool * BindStep :=
  if bool_decide (runID = "") then
    (p, BindDone (Err "warmpool.Pool.Bind: runID is required"))
  else
    match byRun p !! runID with
    | Some a =>
        (p, BindDone (Ok (match heap p !! a with Some sb => ID sb | None => "" end)))
    | None =>
        if bool_decide (class ≠ ClassInteractive /\ class ≠ ClassBatch) then
          (p, BindDone (Err "warmpool.Pool.Bind: unknown run class"))
        else
          match class, fifo p key with
          | ClassInteractive, slot :: rest =>
              let p := set_fifo key rest p in
              match entry p slot with
              | None => (p, BindAgain)
              | Some (a, sb) =>
                  (upd_byRun <[runID := a]>
                     (upd_heap <[a := with_run runID (with_state StateBound sb)]> p),
                   BindDone (Ok (ID sb)))
              end
          | _, _ =>
              let a := fresh_ptr p in
              let sb := {| ID := id; Key := key; State := StateWarming; BoundRun := runID;
                           CreatedAt := now; ReadyAt := 0 |} in
              (upd_byRun <[runID := a]> (upd_entries <[id := a]> (upd_heap <[a := sb]> p)),
               BindCold id a)
          end
    end.

Inductive ColdStep : Type :=
| ColdDone (res : result string string)
| ColdCleanup. (* released while booting: tear the orphan down *)

(** After the boot call. *)
Definition Bind2 (p : Pool) (runID id : string) (a : nat) (bootErr : option string)
  : Pool * ColdStep :=
  match bootErr with
  | Some e =>
      (upd_byRun (delete runID) (upd_entries (delete id) p),
       ColdDone (Err ("warmpool.Pool.Bind: cold boot " +:+ id +:+ ": " +:+ e)))
  | None =>
      match entries p !! id with
      | None => (p, ColdCleanup)
      | Some _ => (upd_heap (alter (with_state StateBound) a) p, ColdDone (Ok id))
      end
  end.

(** After the orphan's cleanup call. *)
Definition Bind3 (p : Pool) (runID : string) (key : PoolKey) (id : string) (a : nat) (cleanupErr : option string)
  : Pool * result string string :=
  match cleanupErr with
  | Some e =>
      (set_drains key (drains p key ++ [a])
         (upd_entries <[id := a]>
            (upd_heap (alter (fun sb => with_run "" (with_state StateDraining sb)) a) p)),
       Err ("warmpool.Pool.Bind: run " +:+ runID +:+ " released while its cold boot " +:+ id +:+
            " was in flight; cleanup of the orphaned sandbox FAILED (pod tracked as draining for retry): "
            +:+ e))
  | None =>
      (p, Err ("warmpool.Pool.Bind: run " +:+ runID +:+ " released while its cold boot " +:+ id +:+
               " was in flight; the orphaned sandbox was destroyed"))
  end.

(** * Readiness, adoption, release *)

Definition NotifyReady (p : Pool) (sandboxID : string) (now : Z) : Pool :=
  match entry p sandboxID with
  | None => p
  | Some (a, sb) =>
      if bool_decide (State sb ≠ StateWarming) then p
      else if bool_decide (BoundRun sb ≠ "") then
        upd_heap <[a := with_ready_at now sb]> p
      else
        set_fifo (Key sb) (fifo p (Key sb) ++ [ID sb])
          (upd_heap <[a := with_ready_at now (with_state StateReady sb)]> p)
  end.

Definition Adopt (p : Pool) (sb : Sandbox) (now : Z) : Pool * bool :=
  match entries p !! ID sb with
  | Some _ => (p, false)
  | None =>
      let readyAt := if ReadyAt sb =? 0 then now else ReadyAt sb in
      let createdAt := if CreatedAt sb =? 0 then readyAt else CreatedAt sb in
      let e := {| ID := ID sb; Key := Key sb; State := StateReady; BoundRun := "";
                  CreatedAt := createdAt; ReadyAt := readyAt |} in
      let a := fresh_ptr p in
      (set_fifo (Key sb) (fifo p (Key sb) ++ [ID sb])
         (upd_entries <[ID sb := a]> (upd_heap <[a := e]> p)), true)
  end.

(** Up to the teardown call; [None] is the already-released no-op. *)
Definition Release1 (p : Pool) (runID : string) : Pool * option (nat * string * PoolKey) :=
  match byRun p !! runID with
  | None => (p, None)
  | Some a =>
      match heap p !! a with
      | None => (p, None)
      | Some sb =>
          let p := upd_entries (delete (ID sb)) (upd_byRun (delete runID) p) in
          let p := match fifo p (Key sb) with
                   | [] => p
                   | ids => set_fifo (Key sb) (filter (fun x => x ≠ ID sb) ids) p
                   end in
          (p, Some (a, ID sb, Key sb))
      end
  end.

(** After a failed teardown call. *)
Definition Release2 (p : Pool) (runID : string) (key : PoolKey) (id : string) (a : nat) : Pool :=
  let p := upd_heap (alter (with_state StateDraining) a) p in
  let p := match byRun p !! runID with
           | None => upd_byRun <[runID := a]> p
           | Some _ => upd_heap (alter (with_run "") a) p
           end in
  set_drains key (drains p key ++ [a]) (upd_entries <[id := a]> p).

Definition Ref (p : Pool) (runID : string) : string :=
  match byRun p !! runID with
  | Some a => match heap p !! a with Some sb => ID sb | None => "" end
  | None => ""
  end.

(** * Inventory *)

Record Counts : Set := {
  Warming : nat;
  Ready : nat;
  Bound : nat;
  Reserved : nat;
  Draining : nat;
}.

Definition no_counts : Counts :=
  {| Warming := 0; Ready := 0; Bound := 0; Reserved := 0; Draining := 0 |}.

Definition count_one (sb : Sandbox) (c : Counts) : Counts :=
  match State sb with
  | StateWarming =>
      if bool_decide (BoundRun sb ≠ "")
      then {| Warming := Warming c; Ready := Ready c; Bound := Bound c;
              Reserved := S (Reserved c); Draining := Draining c |}
      else {| Warming := S (Warming c); Ready := Ready c; Bound := Bound c;
              Reserved := Reserved c; Draining := Draining c |}
  | StateReady => {| Warming := Warming c; Ready := S (Ready c); Bound := Bound c;
                     Reserved := Reserved c; Draining := Draining c |}
  | StateBound => {| Warming := Warming c; Ready := Ready c; Bound := S (Bound c);
                     Reserved := Reserved c; Draining := Draining c |}
  | StateDraining => {| Warming := Warming c; Ready := Ready c; Bound := Bound c;
                        Reserved := Reserved c; Draining := S (Draining c) |}
  end.

(** The live sandboxes, in some iteration order of the map. *)
Definition live_sandboxes (p : Pool) : list Sandbox :=
  omap (fun kv => heap p !! kv.2) (map_to_list (entries p)).

Definition Inventory (p : Pool) : gmap PoolKey Counts :=
  foldl (fun out sb => <[Key sb := count_one sb (default no_counts (out !! Key sb))]> out)
    ∅ (live_sandboxes p).

(** * Draining retries, scale-down, replenish, reap *)

Definition is_draining (p : Pool) (id : string) : bool :=
  match entry p id with
  | Some (_, sb) => bool_decide (State sb = StateDraining)
  | None => false
  end.

(** The sandboxes whose teardown is retried (the current entry of each id). *)
Definition retryDraining1 (p : Pool) (key : PoolKey) : Pool * list nat :=
  let attempt := omap (fun a =>
    match heap p !! a with
    | None => None
    | Some sb =>
        match entry p (ID sb) with
        | Some (cur, csb) => if bool_decide (State csb = StateDraining) then Some cur else None
        | None => None
        end
    end) (drains p key) in
  (set_drains key [] p, attempt).

(** [fails]: which attempted teardowns returned an error. *)
Definition retryDraining2 (p : Pool) (key : PoolKey) (attempt : list nat) (fails : nat -> bool)
  : Pool * nat :=
  let still := filter (fun a => fails a = true) attempt in
  let p := set_drains key (still ++ drains p key) p in
  let idOf a := match heap p !! a with Some sb => ID sb | None => "" end in
  let keep := idOf <$> still in
  (foldl (fun p a =>
     let id := idOf a in
     if bool_decide (id ∈ keep) then p
     else if is_draining p id then upd_entries (delete id) p else p) p attempt,
   length (filter (fun a => fails a = false) attempt)).

(** Pop victims from the front of the FIFO; slots that are not Ready entries
    are dropped. *)
Fixpoint pick_victims (p : Pool) (n : nat) (ids : list string) : list nat * list string :=
  match ids with
  | [] => ([], [])
  | id :: rest =>
      match n with
      | O => ([], ids)
      | S n' =>
          match entry p id with
          | Some (a, sb) =>
              if bool_decide (State sb = StateReady)
              then let '(v, r) := pick_victims p n' rest in (a :: v, r)
              else pick_victims p n rest
          | None => pick_victims p n rest
          end
      end
  end.

Definition park (key : PoolKey) (p : Pool) (a : nat) : Pool :=
  set_drains key (drains p key ++ [a]) (upd_heap (alter (with_state StateDraining) a) p).

Definition untrack (p : Pool) (a : nat) : Pool :=
  match heap p !! a with
  | Some sb => upd_entries (delete (ID sb)) p
  | None => p
  end.

(** ScaleDown's second critical section, after the draining retries. *)
Definition ScaleDown1 (physical : bool) (p : Pool) (key : PoolKey) (n : nat) : Pool * list nat :=
  let '(victims, rest) := pick_victims p n (fifo p key) in
  let p := set_fifo key rest p in
  if physical then (foldl (park key) p victims, victims)
  else (foldl untrack p victims, victims).

Definition Boot1 (p : Pool) (key : PoolKey) (id : string) (now : Z) : Pool :=
  let a := fresh_ptr p in
  let sb := {| ID := id; Key := key; State := StateWarming; BoundRun := "";
               CreatedAt := now; ReadyAt := 0 |} in
  upd_entries <[id := a]> (upd_heap <[a := sb]> p).

(** After the boot call. *)
Definition Boot2 (p : Pool) (id : string) (err : option string) : Pool * result string string :=
  match err with
  | Some e => (upd_entries (delete id) p, Err ("warmpool.Pool.Boot: " +:+ e))
  | None => (p, Ok id)
  end.

Definition stale_warming (p : Pool) (key : PoolKey) (now maxAge : Z) : list nat :=
  omap (fun kv =>
    match heap p !! kv.2 with
    | Some sb =>
        if bool_decide (Key sb ≠ key \/ State sb ≠ StateWarming \/ BoundRun sb ≠ "") then None
        else if maxAge <=? now - CreatedAt sb then Some kv.2 else None
    | None => None
    end) (map_to_list (entries p)).

Definition ReapStaleWarming1 (physical : bool) (p : Pool) (key : PoolKey) (now maxAge : Z)
  : Pool * list nat :=
  if maxAge <=? 0 then (p, [])
  else
    let victims := stale_warming p key now maxAge in
    if physical then (foldl (park key) p victims, victims)
    else (foldl untrack p victims, victims).

(** * Whole methods, run without interruption

    [boot] and [down] are the provisioner: the error Boot or TearDown returns
    for a sandbox id. *)

Section sequential.
Context (physical : bool) (boot down : string -> option string).

Definition boot_err (id : string) : option string := if physical then boot id else None.
Definition down_err (id : string) : option string := if physical then down id else None.

Fixpoint Bind (fuel : nat) (p : Pool) (runID : string) (key : PoolKey) (class : RunClass)
    (id : string) (now : Z) : option (Pool * result string string) :=
  match fuel with
  | O => None
  | S fuel =>
      match Bind1 p runID key class id now with
      | (p, BindDone res) => Some (p, res)
      | (p, BindAgain) => Bind fuel p runID key class id now
      | (p, BindCold id a) =>
          match Bind2 p runID id a (boot_err id) with
          | (p, ColdDone res) => Some (p, res)
          | (p, ColdCleanup) => Some (Bind3 p runID key id a (down_err id))
          end
      end
  end.

Definition Release (p : Pool) (runID : string) : Pool * option string :=
  match Release1 p runID with
  | (p, None) => (p, None)
  | (p, Some (a, id, key)) =>
      match down_err id with
      | None => (p, None)
      | Some e => (Release2 p runID key id a, Some ("warmpool.Pool.Release: teardown " +:+ id +:+ ": " +:+ e))
      end
  end.

Definition fails_at (p : Pool) (a : nat) : bool :=
  match heap p !! a with
  | Some sb => match down_err (ID sb) with Some _ => true | None => false end
  | None => false
  end.

Definition retryDraining (p : Pool) (key : PoolKey) : Pool * nat :=
  let '(p, attempt) := retryDraining1 p key in
  retryDraining2 p key attempt (fails_at p).

(** The teardown loop of ScaleDown and ReapStaleWarming. *)
Definition tear_victims (p : Pool) (victims : list nat) : Pool * nat :=
  foldl (fun '(p, n) a => if fails_at p a then (p, n) else (untrack p a, S n)) (p, O) victims.

Definition ScaleDown (p : Pool) (key : PoolKey) (n : Z) : Pool * nat :=
  if n <=? 0 then (p, O)
  else
    let '(p, reclaimed) := retryDraining p key in
    let '(p, victims) := ScaleDown1 physical p key (Z.to_nat n) in
    if physical
    then let '(p, d) := tear_victims p victims in (p, (reclaimed + d)%nat)
    else (p, (reclaimed + length victims)%nat).

Definition Boot (p : Pool) (key : PoolKey) (id : string) (now : Z) : Pool * result string string :=
  Boot2 (Boot1 p key id now) id (boot_err id).

Definition ReapStaleWarming (p : Pool) (key : PoolKey) (now maxAge : Z) : Pool * nat :=
  let '(p, victims) := ReapStaleWarming1 physical p key now maxAge in
  if physical then tear_victims p victims else (p, length victims).
End sequential.

(** The coord.SandboxBinder adapter; [classify] is the injected RunClassifier. *)
Definition Binder_Bind (physical : bool) (boot down : string -> option string)
    (classify : string -> result string (PoolKey * RunClass))
    (fuel : nat) (p : Pool) (runID id : string) (now : Z)
  : option (Pool * result string string) :=
  match classify runID with
  | Err e => Some (p, Err ("warmpool.Binder.Bind: classify run " +:+ runID +:+ ": " +:+ e))
  | Ok (key, class) => Bind physical boot down fuel p runID key class id now
  end.
