(* ===== verification/PoolProps.v ===== *)
(** Correctness of the warm pool: every interleaving of the critical sections of
    concurrent Bind, Release, NotifyReady, Adopt, ScaleDown, Boot and
    ReapStaleWarming calls, with arbitrary provisioner answers. *)
From S2P Require Import Prelude Pool.
Open Scope Z_scope.

(** * The concurrent pool *)

(** A call waiting for the provisioner between two critical sections. *)
Inductive thread : Type :=
| TCold (run : string) (key : PoolKey) (id : string) (a : nat)
| TClean (run : string) (key : PoolKey) (id : string) (a : nat)
| TRel (run : string) (key : PoolKey) (id : string) (a : nat)
| TRetry (key : PoolKey) (attempt : list nat)
| TVict (victims : list nat)
| TBoot (id : string).

(** [given]: the (run, sandbox) pairs a Bind has answered with or has reserved;
    [torn]: the sandboxes whose teardown has been issued; [used]: every sandbox
    id minted or adopted so far. *)
Record world : Type := {
  w_pool : Pool;
  w_threads : list thread;
  given : list (string * string);
  torn : gset string;
  used : gset string;
}.

Definition world0 : world :=
  {| w_pool := NewPool; w_threads := []; given := []; torn := ∅; used := ∅ |}.

Definition id_at (p : Pool) (a : nat) : string :=
  match heap p !! a with Some sb => ID sb | None => "" end.

(** What the first critical section of a Bind commits to, and what it leaves
    running. *)
Definition bind_given (run : string) (s : BindStep) : list (string * string) :=
  match s with
  | BindDone (Ok ref) => [(run, ref)]
  | BindCold id _ => [(run, id)]
  | _ => []
  end.
Definition bind_thread (run : string) (key : PoolKey) (s : BindStep) : list thread :=
  match s with BindCold id a => [TCold run key id a] | _ => [] end.

Definition cold_given (run : string) (s : ColdStep) : list (string * string) :=
  match s with ColdDone (Ok ref) => [(run, ref)] | _ => [] end.
Definition cold_thread (run : string) (key : PoolKey) (id : string) (a : nat) (s : ColdStep)
  : list thread :=
  match s with ColdCleanup => [TClean run key id a] | _ => [] end.
Definition cold_torn (id : string) (s : ColdStep) : gset string :=
  match s with ColdCleanup => {[id]} | _ => ∅ end.

(** One atomic step of one of the running calls. Minted ids are fresh (64 random
    bits); an adopted pod is either already tracked or from an earlier
    generation of the process, hence unknown to this one. *)
Inductive pool_step (physical : bool) : world -> world -> Prop :=
| step_bind w run key class id now p' s :
    id ∉ used w ->
    Bind1 (w_pool w) run key class id now = (p', s) ->
    pool_step physical w
      {| w_pool := p'; w_threads := bind_thread run key s ++ w_threads w;
         given := bind_given run s ++ given w; torn := torn w; used := {[id]} ∪ used w |}
| step_cold w t1 t2 run key id a err p' s :
    w_threads w = t1 ++ TCold run key id a :: t2 ->
    Bind2 (w_pool w) run id a err = (p', s) ->
    pool_step physical w
      {| w_pool := p'; w_threads := cold_thread run key id a s ++ t1 ++ t2;
         given := cold_given run s ++ given w; torn := cold_torn id s ∪ torn w; used := used w |}
| step_clean w t1 t2 run key id a err :
    w_threads w = t1 ++ TClean run key id a :: t2 ->
    pool_step physical w
      {| w_pool := (Bind3 (w_pool w) run key id a err).1; w_threads := t1 ++ t2;
         given := given w; torn := torn w; used := used w |}
| step_notify w id now :
    pool_step physical w
      {| w_pool := NotifyReady (w_pool w) id now; w_threads := w_threads w;
         given := given w; torn := torn w; used := used w |}
| step_adopt w sb now :
    ID sb ∉ used w \/ is_Some (entries (w_pool w) !! ID sb) ->
    pool_step physical w
      {| w_pool := (Adopt (w_pool w) sb now).1; w_threads := w_threads w;
         given := given w; torn := torn w; used := {[ID sb]} ∪ used w |}
| step_release w run p' a id key :
    Release1 (w_pool w) run = (p', Some (a, id, key)) ->
    pool_step physical w
      {| w_pool := p'; w_threads := TRel run key id a :: w_threads w;
         given := given w; torn := {[id]} ∪ torn w; used := used w |}
| step_release_done w t1 t2 run key id a (failed : bool) :
    w_threads w = t1 ++ TRel run key id a :: t2 ->
    pool_step physical w
      {| w_pool := if failed then Release2 (w_pool w) run key id a else w_pool w;
         w_threads := t1 ++ t2;
         given := given w; torn := torn w; used := used w |}
| step_retry w key p' attempt :
    retryDraining1 (w_pool w) key = (p', attempt) ->
    pool_step physical w
      {| w_pool := p'; w_threads := TRetry key attempt :: w_threads w;
         given := given w; torn := list_to_set (id_at p' <$> attempt) ∪ torn w; used := used w |}
| step_retry_done w t1 t2 key attempt fails :
    w_threads w = t1 ++ TRetry key attempt :: t2 ->
    pool_step physical w
      {| w_pool := (retryDraining2 (w_pool w) key attempt fails).1; w_threads := t1 ++ t2;
         given := given w; torn := torn w; used := used w |}
| step_scale_down w key n p' victims :
    ScaleDown1 physical (w_pool w) key n = (p', victims) ->
    pool_step physical w
      {| w_pool := p'; w_threads := TVict victims :: w_threads w;
         given := given w; torn := list_to_set (id_at p' <$> victims) ∪ torn w; used := used w |}
| step_reap w key now maxAge p' victims :
    ReapStaleWarming1 physical (w_pool w) key now maxAge = (p', victims) ->
    pool_step physical w
      {| w_pool := p'; w_threads := TVict victims :: w_threads w;
         given := given w; torn := list_to_set (id_at p' <$> victims) ∪ torn w; used := used w |}
| step_victim w t1 t2 a victims (failed : bool) :
    w_threads w = t1 ++ TVict (a :: victims) :: t2 ->
    pool_step physical w
      {| w_pool := if failed then w_pool w else untrack (w_pool w) a;
         w_threads := t1 ++ TVict victims :: t2;
         given := given w; torn := torn w; used := used w |}
| step_boot w key id now :
    id ∉ used w ->
    pool_step physical w
      {| w_pool := Boot1 (w_pool w) key id now; w_threads := TBoot id :: w_threads w;
         given := given w; torn := torn w; used := {[id]} ∪ used w |}
| step_boot_done w t1 t2 id err :
    w_threads w = t1 ++ TBoot id :: t2 ->
    pool_step physical w
      {| w_pool := (Boot2 (w_pool w) id err).1; w_threads := t1 ++ t2;
         given := given w; torn := torn w; used := used w |}.

(** * The invariant *)

(** [id] sits in some Ready FIFO. *)
Definition queued (p : Pool) (id : string) : Prop := exists key, id ∈ fifo p key.

(** Where a claimable sandbox can come from: it has not been given to a run and
    its teardown has not been issued. *)
Definition claimable_id (w : world) (id : string) : Prop :=
  (id ∉ torn w) /\ forall run, (run, id) ∉ given w.

Definition thread_ok (w : world) (t : thread) : Prop :=
  match t with
  | TCold run _ id a => id_at (w_pool w) a = id /\ (run, id) ∈ given w /\
                        is_Some (heap (w_pool w) !! a)
  | TClean run _ id a | TRel run _ id a =>
      id_at (w_pool w) a = id /\ (run, id) ∈ given w /\ id ∈ torn w /\
      is_Some (heap (w_pool w) !! a)
  | _ => True
  end.

Record pool_inv (w : world) : Prop := {
  inv_known a sb : heap (w_pool w) !! a = Some sb -> ID sb ∈ used w;
  inv_unique a b sb sb' : heap (w_pool w) !! a = Some sb -> heap (w_pool w) !! b = Some sb' ->
    ID sb = ID sb' -> a = b;
  inv_entry id a : entries (w_pool w) !! id = Some a ->
    exists sb, heap (w_pool w) !! a = Some sb /\ ID sb = id;
  inv_queued id : queued (w_pool w) id -> id ∈ used w /\ claimable_id w id;
  inv_nodup key : NoDup (fifo (w_pool w) key);
  inv_disjoint k1 k2 id : id ∈ fifo (w_pool w) k1 -> id ∈ fifo (w_pool w) k2 -> k1 = k2;
  inv_given r1 r2 id : (r1, id) ∈ given w -> (r2, id) ∈ given w -> r1 = r2;
  inv_given_used r id : (r, id) ∈ given w -> id ∈ used w;
  inv_torn_used id : id ∈ torn w -> id ∈ used w;
  inv_run run a : byRun (w_pool w) !! run = Some a ->
    exists sb, heap (w_pool w) !! a = Some sb /\ (run, ID sb) ∈ given w;
  inv_warming id a sb : entries (w_pool w) !! id = Some a -> heap (w_pool w) !! a = Some sb ->
    State sb = StateWarming ->
    ~ queued (w_pool w) id /\ (id ∉ torn w) /\ (BoundRun sb = "" -> forall r, (r, id) ∉ given w);
  inv_draining a sb : heap (w_pool w) !! a = Some sb -> State sb = StateDraining ->
    ID sb ∈ torn w;
  inv_threads t : t ∈ w_threads w -> thread_ok w t;
}.

(** * Primitive changes of a world, and that each keeps the invariant *)

Definition set_pool (p : Pool) (w : world) : world :=
  {| w_pool := p; w_threads := w_threads w; given := given w; torn := torn w; used := used w |}.
Definition set_threads (ts : list thread) (w : world) : world :=
  {| w_pool := w_pool w; w_threads := ts; given := given w; torn := torn w; used := used w |}.
Definition give (run id : string) (w : world) : world :=
  {| w_pool := w_pool w; w_threads := w_threads w; given := (run, id) :: given w;
     torn := torn w; used := used w |}.
Definition tear (ids : gset string) (w : world) : world :=
  {| w_pool := w_pool w; w_threads := w_threads w; given := given w;
     torn := ids ∪ torn w; used := used w |}.
Definition learn (id : string) (w : world) : world :=
  {| w_pool := w_pool w; w_threads := w_threads w; given := given w; torn := torn w;
     used := {[id]} ∪ used w |}.

(** The pool forgets entries, bindings and Ready slots. *)
Record shrinks (p p' : Pool) : Prop := {
  sh_heap : heap p' = heap p;
  sh_entries : entries p' ⊆ entries p;
  sh_byRun : byRun p' ⊆ byRun p;
  sh_fifo key : sublist (fifo p' key) (fifo p key);
}.

Lemma shrinks_refl p : shrinks p p.
Proof. by split. Qed.

Lemma shrinks_trans p q r : shrinks p q -> shrinks q r -> shrinks p r.
Proof.
  intros [H1 H2 H3 H4] [G1 G2 G3 G4].
  split; [congruence|by transitivity (entries q)|by transitivity (byRun q)|].
  intros key. by transitivity (fifo q key).
Qed.

Lemma shrinks_delete p id : shrinks p (upd_entries (delete id) p).
Proof. split; try done. apply delete_subseteq. Qed.

Lemma shrinks_unbind p run : shrinks p (upd_byRun (delete run) p).
Proof. split; try done. apply delete_subseteq. Qed.

Lemma shrinks_drains p key l : shrinks p (set_drains key l p).
Proof. by split. Qed.

Lemma fifo_set_fifo p key l k :
  fifo (set_fifo key l p) k = if decide (k = key) then l else fifo p k.
Proof.
  unfold fifo, set_fifo; cbn. case_decide as Hk; [subst; by rewrite lookup_insert_eq|].
  by rewrite lookup_insert_ne by congruence.
Qed.

Lemma shrinks_set_fifo p key l : sublist l (fifo p key) -> shrinks p (set_fifo key l p).
Proof.
  intros Hl. split; try done. intros k. rewrite fifo_set_fifo. case_decide; by subst.
Qed.

Lemma shrinks_untrack p a : shrinks p (untrack p a).
Proof. unfold untrack. case_match; auto using shrinks_refl, shrinks_delete. Qed.

Lemma shrinks_foldl {A} (f : Pool -> A -> Pool) l p :
  (forall q x, shrinks q (f q x)) -> shrinks p (foldl f p l).
Proof.
  intros Hf. revert p. induction l as [|x l IH]; intros p; cbn; [apply shrinks_refl|].
  eapply shrinks_trans; [apply Hf|apply IH].
Qed.

#[local] Hint Resolve shrinks_refl shrinks_delete shrinks_unbind shrinks_drains
  shrinks_untrack shrinks_set_fifo : k8s.

Lemma queued_sublist p p' id :
  (forall key, sublist (fifo p' key) (fifo p key)) -> queued p' id -> queued p id.
Proof. intros Hs [key Hk]. exists key. eapply elem_of_sublist; eauto. Qed.

(** Changes that keep every sandbox's identity and the ghost logs growing keep
    the threads' facts. *)
Lemma thread_ok_mono w w' t :
  (forall a sb, heap (w_pool w) !! a = Some sb ->
     exists sb', heap (w_pool w') !! a = Some sb' /\ ID sb' = ID sb) ->
  given w ⊆ given w' -> torn w ⊆ torn w' ->
  thread_ok w t -> thread_ok w' t.
Proof.
  intros Hh Hg Ht. destruct t; cbn; try done; unfold id_at.
  - intros (Ha & Hin & sb & Hsb). destruct (Hh _ _ Hsb) as (sb' & Hsb' & Hid).
    rewrite Hsb in Ha. rewrite Hsb'. split_and!; [congruence|auto|done].
  - intros (Ha & Hin & Hto & sb & Hsb). destruct (Hh _ _ Hsb) as (sb' & Hsb' & Hid).
    rewrite Hsb in Ha. rewrite Hsb'. split_and!; [congruence|auto|set_solver|done].
  - intros (Ha & Hin & Hto & sb & Hsb). destruct (Hh _ _ Hsb) as (sb' & Hsb' & Hid).
    rewrite Hsb in Ha. rewrite Hsb'. split_and!; [congruence|auto|set_solver|done].
Qed.

Lemma inv_shrinks w p' : pool_inv w -> shrinks (w_pool w) p' -> pool_inv (set_pool p' w).
Proof.
  intros I [Hh He Hb Hf]. split; cbn.
  - rewrite Hh. apply (inv_known _ I).
  - rewrite Hh. apply (inv_unique _ I).
  - intros id a Ha. rewrite Hh. eapply (inv_entry _ I), lookup_weaken; eauto.
  - intros id Hq. eapply (inv_queued _ I), queued_sublist; eauto.
  - intros key. eapply sublist_NoDup; [apply (inv_nodup _ I)|apply Hf].
  - intros k1 k2 id H1 H2. 
    apply (inv_disjoint _ I k1 k2 id); by eapply elem_of_sublist; [|apply Hf].
  - apply (inv_given _ I).
  - apply (inv_given_used _ I).
  - apply (inv_torn_used _ I).
  - intros run a Ha. rewrite Hh. eapply (inv_run _ I), lookup_weaken; eauto.
  - intros id a sb Ha Hsb Hst. rewrite Hh in Hsb.
    destruct (inv_warming _ I id a sb) as (Hq & Ht & Hg); eauto using lookup_weaken.
    split_and!; auto. intros Hq'. by eapply Hq, queued_sublist.
  - rewrite Hh. apply (inv_draining _ I).
  - intros t Hin. apply (thread_ok_mono w); cbn; [rewrite Hh; eauto|done|done|].
    by apply (inv_threads _ I).
Qed.

Lemma inv_set_threads w ts :
  pool_inv w -> (forall t, t ∈ ts -> thread_ok w t) -> pool_inv (set_threads ts w).
Proof. intros I Ht. destruct I. split; cbn; auto. Qed.

(** A heap update of one sandbox. *)
Lemma inv_mark w a f :
  pool_inv w ->
  (forall sb, heap (w_pool w) !! a = Some sb ->
     ID (f sb) = ID sb /\
     (State (f sb) = StateWarming -> State sb = StateWarming /\ BoundRun (f sb) = BoundRun sb) /\
     (State (f sb) = StateDraining -> ID sb ∈ torn w)) ->
  pool_inv (set_pool (upd_heap (alter f a) (w_pool w)) w).
Proof.
  intros I Hf.
  assert (Hback : forall b sb', heap (upd_heap (alter f a) (w_pool w)) !! b = Some sb' ->
    exists sb, heap (w_pool w) !! b = Some sb /\ ID sb' = ID sb /\
      (State sb' = StateWarming -> State sb = StateWarming /\ BoundRun sb' = BoundRun sb) /\
      (State sb' = StateDraining -> ID sb ∈ torn w)).
  { intros b sb'. cbn. destruct (decide (a = b)) as [<-|Hne].
    - rewrite lookup_alter_eq. intros (sb & Hsb & ->)%fmap_Some.
      destruct (Hf _ Hsb) as (? & ? & ?). eauto 10.
    - rewrite lookup_alter_ne by done. intros Hsb. exists sb'. split_and!; auto.
      intros Hd. by eapply (inv_draining _ I). }
  assert (Hfwd : forall b sb, heap (w_pool w) !! b = Some sb ->
    exists sb', heap (upd_heap (alter f a) (w_pool w)) !! b = Some sb' /\ ID sb' = ID sb).
  { intros b sb Hsb. cbn. destruct (decide (a = b)) as [<-|Hne].
    - rewrite lookup_alter_eq, Hsb. exists (f sb). split; [done|]. by destruct (Hf _ Hsb).
    - rewrite lookup_alter_ne by done. eauto. }
  split; cbn.
  - intros b sb' Hb. destruct (Hback _ _ Hb) as (sb & Hsb & -> & _). by eapply (inv_known _ I).
  - intros b c sb sb' Hb Hc Heq.
    destruct (Hback _ _ Hb) as (sb1 & Hsb1 & E1 & _), (Hback _ _ Hc) as (sb2 & Hsb2 & E2 & _).
    eapply (inv_unique _ I); eauto. congruence.
  - intros id b Hb. destruct (inv_entry _ I _ _ Hb) as (sb & Hsb & Hid).
    destruct (Hfwd _ _ Hsb) as (sb' & ? & ?). exists sb'. split; [done|congruence].
  - apply (inv_queued _ I).
  - apply (inv_nodup _ I).
  - apply (inv_disjoint _ I).
  - apply (inv_given _ I).
  - apply (inv_given_used _ I).
  - apply (inv_torn_used _ I).
  - intros run b Hb. destruct (inv_run _ I _ _ Hb) as (sb & Hsb & Hid).
    destruct (Hfwd _ _ Hsb) as (sb' & ? & He). exists sb'. by rewrite He.
  - intros id b sb' Hb Hsb' Hst. destruct (Hback _ _ Hsb') as (sb & Hsb & Hid & Hw & _).
    destruct (Hw Hst) as [Hst' HB].
    destruct (inv_warming _ I id b sb) as (? & ? & ?); auto.
    split_and!; auto. rewrite HB. auto.
  - intros b sb' Hsb' Hst. destruct (Hback _ _ Hsb') as (sb & Hsb & -> & _ & Hd). auto.
  - intros t Ht. apply (thread_ok_mono w); cbn; [done..|]. by apply (inv_threads _ I).
Qed.

(** The state the index shows for an id, unless it is unbound and warming. *)
Definition settled (w : world) (id : string) : Prop :=
  forall a sb, entries (w_pool w) !! id = Some a -> heap (w_pool w) !! a = Some sb ->
    State sb ≠ StateWarming.

Lemma inv_tear w ids :
  pool_inv w ->
  (forall id, id ∈ ids -> id ∈ used w /\ ~ queued (w_pool w) id /\ settled w id) ->
  pool_inv (tear ids w).
Proof.
  intros I Hids. split; cbn; try (by destruct I).
  - intros id Hq. destruct (inv_queued _ I _ Hq) as (Hu & Ht & Hg). split; [done|].
    split; cbn; [|done]. intros [Hin|]%elem_of_union; [|done]. by apply Hids in Hin as (_ & ? & _).
  - intros id [Hin|Hin]%elem_of_union; [by apply Hids|by apply (inv_torn_used _ I)].
  - intros id a sb Ha Hsb Hst. destruct (inv_warming _ I id a sb) as (? & ? & ?); auto.
    split_and!; auto. intros [Hin|]%elem_of_union; [|done].
    apply Hids in Hin as (_ & _ & Hs). by eapply Hs.
  - intros a sb Ha Hst. apply elem_of_union_r. by eapply (inv_draining _ I).
  - intros t Ht. apply (thread_ok_mono w); cbn; [eauto|done|set_solver|].
    by apply (inv_threads _ I).
Qed.

Lemma inv_give w run id :
  pool_inv w -> id ∈ used w -> ~ queued (w_pool w) id ->
  (forall r, (r, id) ∈ given w -> r = run) ->
  (forall a sb, entries (w_pool w) !! id = Some a -> heap (w_pool w) !! a = Some sb ->
     State sb = StateWarming -> BoundRun sb ≠ "") ->
  pool_inv (give run id w).
Proof.
  intros I Hu Hq Hr Hs. split; cbn; try (by destruct I).
  - intros i Hi. destruct (inv_queued _ I _ Hi) as (? & ? & Hg). split; [done|].
    split; [done|]. cbn. intros r [Heq|?]%elem_of_cons; [|by eapply Hg].
    by simplify_eq.
  - intros r1 r2 i [E1|H1]%elem_of_cons [E2|H2]%elem_of_cons; simplify_eq; auto.
    + symmetry. auto.
    + by eapply (inv_given _ I).
  - intros r i [E1|H1]%elem_of_cons; simplify_eq; [done|by eapply (inv_given_used _ I)].
  - intros r a Ha. destruct (inv_run _ I _ _ Ha) as (sb & Hsb & Hg).
    exists sb. split; [done|]. by apply elem_of_cons; right.
  - intros i a sb Ha Hsb Hst. destruct (inv_warming _ I i a sb) as (? & ? & Hg); auto.
    split_and!; auto. intros HB r [Heq|?]%elem_of_cons; simplify_eq; [|by eapply Hg].
    by eapply Hs.
  - intros t Ht. apply (thread_ok_mono w); cbn; [eauto| |done|by apply (inv_threads _ I)].
    intros x Hx. by apply elem_of_cons; right.
Qed.

Lemma inv_learn w id : pool_inv w -> pool_inv (learn id w).
Proof.
  intros I. split; cbn; try (by destruct I).
  - intros a sb Ha. apply elem_of_union_r. by eapply (inv_known _ I).
  - intros i Hi. destruct (inv_queued _ I _ Hi) as [? ?]. split; [set_solver|done].
  - intros r i Hi. apply elem_of_union_r. by eapply (inv_given_used _ I).
  - intros i Hi. apply elem_of_union_r. by eapply (inv_torn_used _ I).
Qed.

Lemma fresh_ptr_None p : heap p !! fresh_ptr p = None.
Proof. apply not_elem_of_dom. unfold fresh_ptr. apply is_fresh. Qed.

(** A new sandbox under an id nobody has seen. *)
Lemma inv_alloc w sb :
  pool_inv w -> (ID sb ∉ used w) -> State sb ≠ StateDraining ->
  pool_inv (set_pool (upd_entries <[ID sb := fresh_ptr (w_pool w)]>
                        (upd_heap <[fresh_ptr (w_pool w) := sb]> (w_pool w))) (learn (ID sb) w)).
Proof.
  intros I Hn Hd. pose proof (fresh_ptr_None (w_pool w)) as Hnone.
  set (a := fresh_ptr (w_pool w)) in *.
  assert (Hfr : forall b, heap (w_pool w) !! b ≠ None -> <[a := sb]> (heap (w_pool w)) !! b = heap (w_pool w) !! b).
  { intros b Hb. apply lookup_insert_ne. congruence. }
  split; cbn; try (by destruct I).
  - intros b s. rewrite lookup_insert. case_decide; intros; simplify_eq; [set_solver|].
    apply elem_of_union_r. by eapply (inv_known _ I).
  - intros b c s s'. rewrite !lookup_insert.
    repeat case_decide; intros; simplify_eq; try done.
    + destruct Hn. replace (ID s) with (ID s') by done. by eapply (inv_known _ I).
    + destruct Hn. replace (ID s') with (ID s) by done. by eapply (inv_known _ I).
    + by eapply (inv_unique _ I).
  - intros id b. rewrite lookup_insert. case_decide; intros; simplify_eq.
    + exists sb. by rewrite lookup_insert_eq.
    + edestruct (inv_entry _ I) as (s & Hs & ?); [done|]. exists s. rewrite Hfr; [done|congruence].
  - intros i Hi. destruct (inv_queued _ I _ Hi) as [? ?]. split; [set_solver|done].
  - intros r i Hi. apply elem_of_union_r. by eapply (inv_given_used _ I).
  - intros i Hi. apply elem_of_union_r. by eapply (inv_torn_used _ I).
  - intros r b Hb. destruct (inv_run _ I _ _ Hb) as (s & Hs & ?).
    exists s. rewrite Hfr; [done|congruence].
  - intros id b s. rewrite !lookup_insert. repeat case_decide; intros; simplify_eq; try done.
    + split_and!.
      * intros [? ?]%(inv_queued _ I). done.
      * intros ?%(inv_torn_used _ I). done.
      * intros _ r ?%(inv_given_used _ I). done.
    + edestruct (inv_entry _ I id) as (? & ? & _); [done|]. congruence.
    + by eapply (inv_warming _ I).
  - intros b s. rewrite lookup_insert. case_decide; intros; simplify_eq.
    by eapply (inv_draining _ I).
  - intros t Ht. apply (thread_ok_mono w); cbn; [|done|done|by apply (inv_threads _ I)].
    intros b s Hs. exists s. rewrite Hfr; [done|congruence].
Qed.

Lemma inv_bind w run a sb :
  pool_inv w -> heap (w_pool w) !! a = Some sb -> (run, ID sb) ∈ given w ->
  pool_inv (set_pool (upd_byRun <[run := a]> (w_pool w)) w).
Proof.
  intros I Ha Hg. split; cbn; try (by destruct I).
  intros r b. rewrite lookup_insert. case_decide; intros; simplify_eq; [eauto|].
  by eapply (inv_run _ I).
Qed.

Lemma inv_track w a sb :
  pool_inv w -> heap (w_pool w) !! a = Some sb -> State sb ≠ StateWarming ->
  pool_inv (set_pool (upd_entries <[ID sb := a]> (w_pool w)) w).
Proof.
  intros I Ha Hs. split; cbn; try (by destruct I).
  - intros id b. rewrite lookup_insert. case_decide; intros; simplify_eq; [eauto|].
    by eapply (inv_entry _ I).
  - intros id b s. rewrite lookup_insert. case_decide; intros; simplify_eq.
    by eapply (inv_warming _ I).
Qed.

Lemma queued_snoc p key id x :
  queued (set_fifo key (fifo p key ++ [x]) p) id -> queued p id \/ id = x.
Proof.
  intros [k Hk]. rewrite fifo_set_fifo in Hk. case_decide; subst.
  - apply elem_of_app in Hk as [Hk|Hk]; [left; by exists key|right; set_solver].
  - left. by exists k.
Qed.

Lemma inv_enqueue w key id :
  pool_inv w -> id ∈ used w -> claimable_id w id -> ~ queued (w_pool w) id -> settled w id ->
  pool_inv (set_pool (set_fifo key (fifo (w_pool w) key ++ [id]) (w_pool w)) w).
Proof.
  intros I Hu Hc Hq Hs. split; cbn; try (by destruct I).
  - intros i [Hi| ->]%queued_snoc; [by apply (inv_queued _ I)|done].
  - intros k. rewrite fifo_set_fifo. case_decide; [|apply (inv_nodup _ I)].
    apply NoDup_app. split_and!; [apply (inv_nodup _ I)| |apply NoDup_singleton].
    intros x Hx ->%list_elem_of_singleton. apply Hq. by exists key.
  - intros k1 k2 i. rewrite !fifo_set_fifo. repeat case_decide; subst; try done.
    + intros [H1| ->%list_elem_of_singleton]%elem_of_app H2; [by eapply (inv_disjoint _ I)|].
      destruct Hq. by exists k2.
    + intros H2 [H1| ->%list_elem_of_singleton]%elem_of_app; [by eapply (inv_disjoint _ I)|].
      destruct Hq. by exists k1.
    + by apply (inv_disjoint _ I).
  - intros i a sb Ha Hsb Hst. destruct (inv_warming _ I i a sb) as (Hq' & ? & ?); auto.
    split_and!; auto. intros [?| ->]%queued_snoc; [done|]. by eapply Hs.
Qed.

(** Parking as Draining together with issuing the teardown. *)
Lemma inv_drain w a sb :
  pool_inv w -> heap (w_pool w) !! a = Some sb -> ~ queued (w_pool w) (ID sb) ->
  pool_inv (set_pool (upd_heap (alter (with_state StateDraining) a) (w_pool w))
              (tear {[ID sb]} w)).
Proof.
  intros I Ha Hq.
  (* forget the index, mark and tear, then restore the index *)
  set (w1 := set_pool (upd_entries (delete (ID sb)) (w_pool w)) w).
  assert (I1 : pool_inv w1) by (apply inv_shrinks; auto with k8s).
  assert (I2 : pool_inv (tear {[ID sb]} w1)).
  { apply inv_tear; [done|]. intros id ->%elem_of_singleton. split_and!; [|done|].
    - by apply (inv_known _ I a).
    - intros b s. cbn. by rewrite lookup_delete_eq. }
  assert (I3 : pool_inv (set_pool (upd_heap (alter (with_state StateDraining) a) (w_pool w1))
                           (tear {[ID sb]} w1))).
  { apply (inv_mark (tear {[ID sb]} w1)); [done|]. intros s Hs. cbn in *. simplify_eq.
    split_and!; [done|done|]. set_solver. }
  destruct (entries (w_pool w) !! ID sb) as [b|] eqn:He.
  - assert (b = a) as ->.
    { destruct (inv_entry _ I _ _ He) as (s & Hs & ?). by eapply (inv_unique _ I). }
    apply (inv_track _ a (with_state StateDraining sb)) in I3; [|cbn; by rewrite lookup_alter_eq, Ha|done].
    cbn in I3. unfold set_pool, upd_entries in *; cbn in *.
    by rewrite insert_delete_eq, insert_id in I3.
  - unfold w1, set_pool, upd_entries, upd_heap in I3; cbn in I3.
    by rewrite delete_id in I3.
Qed.

(** A heap write through a pointer whose target is known. *)
Lemma inv_put w a sb sb' :
  pool_inv w -> heap (w_pool w) !! a = Some sb ->
  ID sb' = ID sb ->
  (State sb' = StateWarming -> State sb = StateWarming /\ BoundRun sb' = BoundRun sb) ->
  (State sb' = StateDraining -> ID sb ∈ torn w) ->
  pool_inv (set_pool (upd_heap <[a := sb']> (w_pool w)) w).
Proof.
  intros I Ha H1 H2 H3.
  replace (upd_heap <[a := sb']> (w_pool w)) with (upd_heap (alter (fun _ => sb') a) (w_pool w)).
  { apply inv_mark; [done|]. intros s Hs. by simplify_eq. }
  unfold upd_heap. f_equal. apply map_eq. intros b.
  destruct (decide (a = b)) as [<-|]; [by rewrite lookup_alter_eq, Ha, lookup_insert_eq|].
  by rewrite lookup_alter_ne, lookup_insert_ne.
Qed.

Lemma given_not_queued w r id : pool_inv w -> (r, id) ∈ given w -> ~ queued (w_pool w) id.
Proof. intros I Hg (_ & _ & Hn)%(inv_queued _ I). by eapply Hn. Qed.

Lemma torn_not_queued w id : pool_inv w -> id ∈ torn w -> ~ queued (w_pool w) id.
Proof. intros I Hg (_ & Hn & _)%(inv_queued _ I). done. Qed.

(** A repeated answer to the same run. *)
Lemma inv_give_again w run id : pool_inv w -> (run, id) ∈ given w -> pool_inv (give run id w).
Proof.
  intros I Hg. apply inv_give; [done| | | |].
  - by eapply (inv_given_used _ I).
  - by eapply given_not_queued.
  - intros r Hr. by eapply (inv_given _ I).
  - intros a sb Ha Hsb Hst HB. destruct (inv_warming _ I _ _ _ Ha Hsb Hst) as (_ & _ & Hno).
    by eapply (Hno HB).
Qed.

Lemma inv_pop w key slot rest :
  pool_inv w -> fifo (w_pool w) key = slot :: rest ->
  pool_inv (set_pool (set_fifo key rest (w_pool w)) w) /\
  ~ queued (set_fifo key rest (w_pool w)) slot /\
  slot ∈ used w /\ claimable_id w slot.
Proof.
  intros I Hf. split_and!.
  - apply inv_shrinks; [done|]. apply shrinks_set_fifo. rewrite Hf. by constructor.
  - intros [k Hk]. rewrite fifo_set_fifo in Hk. pose proof (inv_nodup _ I key) as Hnd.
    rewrite Hf in Hnd. apply NoDup_cons in Hnd as [Hnd _].
    case_decide as Hke; [done|]. destruct Hke. eapply (inv_disjoint _ I); [done|].
    rewrite Hf. left.
  - apply (inv_queued _ I). exists key. rewrite Hf. left.
  - apply (inv_queued _ I). exists key. rewrite Hf. left.
Qed.

Lemma entry_Some p id a sb :
  entry p id = Some (a, sb) <-> entries p !! id = Some a /\ heap p !! a = Some sb.
Proof. unfold entry. split; intros; split_matches; naive_solver. Qed.

Lemma inv_Bind1 w run key class id now p' s :
  pool_inv w -> (id ∉ used w) -> Bind1 (w_pool w) run key class id now = (p', s) ->
  pool_inv {| w_pool := p'; w_threads := bind_thread run key s ++ w_threads w;
              given := bind_given run s ++ given w; torn := torn w; used := {[id]} ∪ used w |}.
Proof.
  intros I Hid. unfold Bind1. case_bool_decide as Hrun.
  { intros [= <- <-]. apply (inv_learn _ _ I). }
  destruct (byRun (w_pool w) !! run) as [a|] eqn:Hby.
  { intros [= <- <-]. destruct (inv_run _ I _ _ Hby) as (sb & -> & Hg). cbn.
    apply (inv_learn (give run (ID sb) w)), inv_give_again; auto. }
  case_bool_decide as Hcl.
  { intros [= <- <-]. apply (inv_learn _ _ I). }
  assert (Hcold :
    (let a := fresh_ptr (w_pool w) in
     let sb := {| ID := id; Key := key; State := StateWarming; BoundRun := run;
                  CreatedAt := now; ReadyAt := 0 |} in
     (upd_byRun <[run := a]> (upd_entries <[id := a]> (upd_heap <[a := sb]> (w_pool w))),
      BindCold id a)) = (p', s) ->
    pool_inv {| w_pool := p'; w_threads := bind_thread run key s ++ w_threads w;
              given := bind_given run s ++ given w; torn := torn w; used := {[id]} ∪ used w |}).
  { intros [= <- <-]. set (sb := {| ID := id |}).
    pose proof (inv_alloc w sb I Hid ltac:(done)) as I1. cbn in I1.
    apply (inv_give _ run id) in I1; cbn.
    - apply (inv_bind _ run (fresh_ptr (w_pool w)) sb) in I1; [|by cbn; rewrite lookup_insert_eq|left].
      apply (inv_set_threads _ (TCold run key id (fresh_ptr (w_pool w)) :: w_threads w)) in I1; [done|].
      intros t [-> |Ht]%elem_of_cons; [|by apply (inv_threads _ I1)].
      cbn. unfold id_at; cbn. rewrite lookup_insert_eq. split_and!; [done|left|done].
    - set_solver.
    - intros [??]%(inv_queued _ I). done.
    - intros r ?%(inv_given_used _ I). done.
    - intros a s'. rewrite !lookup_insert_eq. intros [= <-]. rewrite lookup_insert_eq.
      by intros [= <-]. }
  destruct class; [|done..]. destruct (fifo (w_pool w) key) as [|slot rest] eqn:Hf; [done|].
  destruct (inv_pop _ _ _ _ I Hf) as (I1 & Hq & Hu & Hc & Hng).
  destruct (entry _ slot) as [[a sb]|] eqn:He; intros [= <- <-].
  - apply entry_Some in He as [He Hsb]. cbn in He.
    destruct (inv_entry _ I _ _ He) as (s' & Hs' & Hslot). cbn in Hsb. simplify_eq.
    pose proof (inv_put _ a sb (with_run run (with_state StateBound sb)) I1 Hsb) as I2.
    apply (inv_give _ run (ID sb)) in I2; [| done..| | | |]; cbn; try done.
    + apply (inv_bind _ run a (with_run run (with_state StateBound sb))) in I2;
        [|by cbn; rewrite lookup_insert_eq|left].
      by apply (inv_learn _ id) in I2.
    + intros r Hr. by destruct (Hng r).
    + intros b s'. rewrite He. intros [= <-]. rewrite lookup_insert_eq. by intros [= <-].
  - by apply (inv_learn _ id) in I1.
Qed.

Lemma threads_remove w t1 t t2 x :
  w_threads w = t1 ++ t :: t2 -> x ∈ t1 ++ t2 -> x ∈ w_threads w.
Proof. intros ->. set_solver. Qed.

Lemma inv_drop_thread w t1 t t2 :
  pool_inv w -> w_threads w = t1 ++ t :: t2 -> pool_inv (set_threads (t1 ++ t2) w).
Proof.
  intros I Ht. apply inv_set_threads; [done|]. intros x Hx.
  eapply (inv_threads _ I), threads_remove; eauto.
Qed.

Lemma inv_the_thread w t1 t t2 :
  pool_inv w -> w_threads w = t1 ++ t :: t2 -> thread_ok w t.
Proof. intros I Ht. apply (inv_threads _ I). rewrite Ht. set_solver. Qed.

Lemma inv_Bind2 w t1 t2 run key id a err p' s :
  pool_inv w -> w_threads w = t1 ++ TCold run key id a :: t2 ->
  Bind2 (w_pool w) run id a err = (p', s) ->
  pool_inv {| w_pool := p'; w_threads := cold_thread run key id a s ++ t1 ++ t2;
              given := cold_given run s ++ given w; torn := cold_torn id s ∪ torn w;
              used := used w |}.
Proof.
  intros I Ht. destruct (inv_the_thread _ _ _ _ I Ht) as (Hid & Hg & sb & Hsb).
  pose proof (inv_drop_thread _ _ _ _ I Ht) as I1.
  assert (Hu : forall X : gset string, ∅ ∪ X = X) by set_solver.
  unfold Bind2. destruct err as [e|]; [|destruct (entries (w_pool w) !! id) eqn:He];
    intros [= <- <-]; cbn; rewrite ?Hu.
  - apply (inv_shrinks _ (upd_byRun (delete run) (upd_entries (delete id) (w_pool w)))) in I1; [done|].
    eapply shrinks_trans; [apply shrinks_delete|apply shrinks_unbind].
  - apply (inv_mark _ a (with_state StateBound)) in I1; [|done].
    by apply (inv_give_again _ run id) in I1.
  - apply (inv_tear _ {[id]}) in I1.
    + apply (inv_set_threads _ (TClean run key id a :: t1 ++ t2)) in I1; [done|].
      intros t [-> |Hin]%elem_of_cons; [|by apply (inv_threads _ I1)].
      cbn. split_and!; [done|done|set_solver|done].
    + intros i ->%elem_of_singleton. split_and!.
      * by eapply (inv_given_used _ I).
      * by eapply given_not_queued.
      * intros b s' Hb. cbn in Hb. congruence.
Qed.

(** The failed-teardown paths put the sandbox back as Draining. *)
Lemma inv_restore w key id a f :
  pool_inv w -> id_at (w_pool w) a = id -> is_Some (heap (w_pool w) !! a) -> id ∈ torn w ->
  (forall sb, ID (f sb) = ID sb /\ State (f sb) = StateDraining) ->
  pool_inv (set_pool (set_drains key (drains (w_pool w) key ++ [a])
    (upd_entries <[id := a]> (upd_heap (alter f a) (w_pool w)))) w).
Proof.
  intros I Hid [sb Hsb] Ht Hf. unfold id_at in Hid. rewrite Hsb in Hid. subst id.
  destruct (Hf sb) as [HI HS].
  assert (I1 : pool_inv (set_pool (upd_heap (alter f a) (w_pool w)) w)).
  { apply inv_mark; [done|]. intros s Hs. simplify_eq. rewrite HI, HS. done. }
  apply (inv_track _ a (f sb)) in I1; [|by cbn; rewrite lookup_alter_eq, Hsb|by rewrite HS].
  rewrite HI in I1. eapply inv_shrinks in I1; [|apply (shrinks_drains _ key)]. exact I1.
Qed.

Lemma inv_Bind3 w t1 t2 run key id a err :
  pool_inv w -> w_threads w = t1 ++ TClean run key id a :: t2 ->
  pool_inv {| w_pool := (Bind3 (w_pool w) run key id a err).1; w_threads := t1 ++ t2;
              given := given w; torn := torn w; used := used w |}.
Proof.
  intros I Ht. destruct (inv_the_thread _ _ _ _ I Ht) as (Hid & Hg & Hto & Hsb).
  pose proof (inv_drop_thread _ _ _ _ I Ht) as I1.
  unfold Bind3. destruct err as [e|]; [|done].
  by apply (inv_restore _ key id a (fun sb => with_run "" (with_state StateDraining sb))) in I1.
Qed.

Lemma inv_NotifyReady w id now :
  pool_inv w ->
  pool_inv (set_pool (NotifyReady (w_pool w) id now) w).
Proof.
  intros I. unfold NotifyReady. destruct (entry _ id) as [[a sb]|] eqn:He; [|by destruct w].
  apply entry_Some in He as [He Hsb]. case_bool_decide as Hst; [by destruct w|].
  destruct (inv_entry _ I _ _ He) as (s & Hs & Hid). simplify_eq.
  case_bool_decide as HB; [eapply inv_put; eauto; cbn; congruence|].
  destruct (inv_warming _ I _ _ _ He Hsb Hst) as (Hq & Ht & Hg).
  pose proof (inv_put _ a sb (with_ready_at now (with_state StateReady sb)) I Hsb
    eq_refl ltac:(done) ltac:(done)) as I1.
  apply (inv_enqueue _ (Key sb) (ID sb)) in I1; cbn; try done.
  - by eapply (inv_known _ I).
  - split; auto.
  - intros b s. cbn. rewrite He. intros [= <-]. rewrite lookup_insert_eq. by intros [= <-].
Qed.

Lemma inv_Adopt w sb now :
  pool_inv w -> (ID sb ∉ used w) \/ is_Some (entries (w_pool w) !! ID sb) ->
  pool_inv (set_pool (Adopt (w_pool w) sb now).1 (learn (ID sb) w)).
Proof.
  intros I Hsb. unfold Adopt. destruct (entries (w_pool w) !! ID sb) eqn:He.
  { by apply (inv_learn _ (ID sb)) in I. }
  destruct Hsb as [Hu|[]]; [|done].
  set (e := {| ID := ID sb; State := StateReady |}).
  pose proof (inv_alloc w e I Hu ltac:(done)) as I1.
  apply (inv_enqueue _ (Key sb) (ID sb)) in I1; [done|cbn..].
  - set_solver.
  - split; cbn; [by intros ?%(inv_torn_used _ I)|by intros ? ?%(inv_given_used _ I)].
  - by intros [??]%(inv_queued _ I).
  - intros b s. cbn. rewrite lookup_insert_eq. intros [= <-]. rewrite lookup_insert_eq.
    by intros [= <-].
Qed.

Lemma inv_Release1 w run p' a id key :
  pool_inv w -> Release1 (w_pool w) run = (p', Some (a, id, key)) ->
  pool_inv {| w_pool := p'; w_threads := TRel run key id a :: w_threads w;
              given := given w; torn := {[id]} ∪ torn w; used := used w |}.
Proof.
  intros I. unfold Release1. destruct (byRun (w_pool w) !! run) as [b|] eqn:Hb; [|done].
  destruct (inv_run _ I _ _ Hb) as (sb & Hsb & Hg). rewrite Hsb. intros [= <- <- <- <-].
  set (p1 := upd_entries (delete (ID sb)) (upd_byRun (delete run) (w_pool w))).
  set (p2 := match fifo p1 (Key sb) with [] => _ | _ => _ end).
  assert (Hsh : shrinks p1 p2).
  { unfold p2. destruct (fifo p1 (Key sb)) eqn:Hf; [apply shrinks_refl|].
    apply shrinks_set_fifo. rewrite Hf. apply sublist_filter. }
  assert (I1 : pool_inv (set_pool p2 w)).
  { apply inv_shrinks; [done|]. eapply shrinks_trans; [|exact Hsh].
    eapply shrinks_trans; [apply shrinks_unbind|apply shrinks_delete]. }
  assert (Hh : heap p2 = heap (w_pool w)) by apply (sh_heap _ _ Hsh).
  apply (inv_tear _ {[ID sb]}) in I1.
  - apply (inv_set_threads _ (TRel run (Key sb) (ID sb) b :: w_threads w)) in I1; [done|].
    intros t [-> |Hin]%elem_of_cons; [|by apply (inv_threads _ I1)].
    cbn. unfold id_at. rewrite Hh, Hsb. split_and!; [done|done|set_solver|done].
  - intros i ->%elem_of_singleton. split_and!.
    + by eapply (inv_known _ I).
    + by eapply given_not_queued.
    + intros c s Hc. pose proof (sh_entries _ _ Hsh) as Hsub. cbn in Hc.
      eapply lookup_weaken in Hc; [|exact Hsub]. cbn in Hc. by rewrite lookup_delete_eq in Hc.
Qed.

Lemma inv_Release2 w t1 t2 run key id a (failed : bool) :
  pool_inv w -> w_threads w = t1 ++ TRel run key id a :: t2 ->
  pool_inv {| w_pool := if failed then Release2 (w_pool w) run key id a else w_pool w;
              w_threads := t1 ++ t2; given := given w; torn := torn w; used := used w |}.
Proof.
  intros I Ht. destruct (inv_the_thread _ _ _ _ I Ht) as (Hid & Hg & Hto & sb & Hsb).
  pose proof (inv_drop_thread _ _ _ _ I Ht) as I1. destruct failed; [|done].
  unfold id_at in Hid. rewrite Hsb in Hid. subst id.
  unfold Release2. cbn. destruct (byRun (w_pool w) !! run) as [b|] eqn:Hb.
  - apply (inv_restore _ key (ID sb) a (with_run "" ∘ with_state StateDraining)) in I1; cbn;
      [|by unfold id_at; rewrite Hsb|done..].
    unfold set_pool, upd_heap, upd_entries, set_drains, drains in *. cbn in *.
    by rewrite alter_alter_eq.
  - apply (inv_restore _ key (ID sb) a (with_state StateDraining)) in I1; cbn;
      [|by unfold id_at; rewrite Hsb|done..].
    apply (inv_bind _ run a (with_state StateDraining sb)) in I1;
      [exact I1|by cbn; rewrite lookup_alter_eq, Hsb|done].
Qed.

Lemma id_at_park key p a b : id_at (park key p a) b = id_at p b.
Proof.
  unfold id_at, park; cbn. rewrite lookup_alter. case_decide; [subst|done].
  by destruct (heap p !! b).
Qed.

Lemma id_at_park_all key l p b : id_at (foldl (park key) p l) b = id_at p b.
Proof. revert p. induction l as [|a l IH]; intros p; cbn; [done|]. by rewrite IH, id_at_park. Qed.

Lemma id_at_shrinks p p' b : shrinks p p' -> id_at p' b = id_at p b.
Proof. intros [Hh _ _ _]. unfold id_at. by rewrite Hh. Qed.

(** The sandboxes a scale-down or a reap may condemn. *)
Definition condemnable (p : Pool) (a : nat) : Prop :=
  exists sb, heap p !! a = Some sb /\ ~ queued p (ID sb).

Lemma condemnable_park key p a b : condemnable p b -> condemnable (park key p a) b.
Proof.
  intros (sb & Hsb & Hq). unfold condemnable, park; cbn. rewrite lookup_alter.
  case_decide as Hab; subst; rewrite Hsb; cbn; [|eauto].
  exists (with_state StateDraining sb). eauto.
Qed.

Lemma inv_park_all w key victims :
  pool_inv w -> (forall a, a ∈ victims -> condemnable (w_pool w) a) ->
  pool_inv (set_pool (foldl (park key) (w_pool w) victims)
              (tear (list_to_set (id_at (w_pool w) <$> victims)) w)).
Proof.
  revert w. induction victims as [|a l IH]; intros w I Hv; cbn.
  { destruct w as [p ts g t u]. unfold set_pool, tear. cbn in *.
    by rewrite (left_id_L ∅ (∪) t). }
  destruct (Hv a ltac:(left)) as (sb & Hsb & Hq).
  pose proof (inv_drain _ _ _ I Hsb Hq) as I1.
  eapply inv_shrinks in I1; [|apply (shrinks_drains _ key (drains (w_pool w) key ++ [a]))].
  specialize (IH _ I1). cbn in IH.
  assert (Hl : id_at (park key (w_pool w) a) <$> l = id_at (w_pool w) <$> l).
  { apply list_fmap_ext. intros. apply id_at_park. }
  unfold set_pool, tear in *. cbn in *. fold (park key (w_pool w) a) in IH.
  unfold park in IH, Hl at 1; cbn in IH, Hl. rewrite Hl in IH.
  replace (id_at (w_pool w) a) with (ID sb) by (unfold id_at; by rewrite Hsb).
  replace ({[ID sb]} ∪ list_to_set (id_at (w_pool w) <$> l) ∪ torn w)
    with (list_to_set (id_at (w_pool w) <$> l) ∪ ({[ID sb]} ∪ torn w)) by set_solver.
  apply IH. intros b Hb. apply (condemnable_park key _ a), Hv. by right.
Qed.

Lemma inv_untrack_all w victims :
  pool_inv w -> (forall a, a ∈ victims -> condemnable (w_pool w) a) ->
  pool_inv (set_pool (foldl untrack (w_pool w) victims)
              (tear (list_to_set (id_at (w_pool w) <$> victims)) w)).
Proof.
  intros I Hv.
  assert (Hsh : shrinks (w_pool w) (foldl untrack (w_pool w) victims)).
  { apply shrinks_foldl. auto with k8s. }
  assert (I1 : pool_inv (set_pool (foldl untrack (w_pool w) victims) w)) by by apply inv_shrinks.
  apply (inv_tear _ (list_to_set (id_at (w_pool w) <$> victims))) in I1; [done|].
  intros id Hid. rewrite elem_of_list_to_set, list_elem_of_fmap in Hid.
  destruct Hid as (a & -> & Ha). destruct (Hv _ Ha) as (sb & Hsb & Hq).
  unfold id_at. rewrite Hsb. split_and!.
  - by eapply (inv_known _ I).
  - intros Hq'. apply Hq. eapply queued_sublist; [|exact Hq']. apply (sh_fifo _ _ Hsh).
  - intros b s Hb. exfalso. cbn in Hb. revert Hb.
    assert (Hgone : entries (foldl untrack (w_pool w) victims) !! ID sb = None); [|by rewrite Hgone].
    apply list_elem_of_split in Ha as (l1 & l2 & ->).
    rewrite foldl_app. cbn.
    assert (Hh : heap (foldl untrack (w_pool w) l1) !! a = Some sb).
    { rewrite (sh_heap (w_pool w)); [done|]. apply shrinks_foldl. auto with k8s. }
    set (q := foldl untrack (w_pool w) l1) in *.
    destruct (_ !! ID sb) as [c|] eqn:Hc; [|done]. exfalso.
    eapply lookup_weaken in Hc;
      [|apply (sh_entries (untrack q a)), shrinks_foldl; auto with k8s].
    unfold untrack in Hc. rewrite Hh in Hc. cbn in Hc. by rewrite lookup_delete_eq in Hc.
Qed.

Lemma pick_victims_spec p n ids v rest :
  pick_victims p n ids = (v, rest) ->
  exists popped, ids = popped ++ rest /\ (length v <= n)%nat /\
    forall a, a ∈ v -> exists id sb, id ∈ popped /\ entry p id = Some (a, sb) /\ State sb = StateReady.
Proof.
  revert n v rest. induction ids as [|id ids IH]; intros n v rest; cbn.
  { intros [= <- <-]. exists []. split_and!; [done|cbn; lia|set_solver]. }
  destruct n as [|n].
  { intros [= <- <-]. exists []. split_and!; [done|cbn; lia|set_solver]. }
  assert (Hskip : forall w' r', pick_victims p (S n) ids = (w', r') ->
    exists popped, id :: ids = popped ++ r' /\ (length w' <= S n)%nat /\
      forall a, a ∈ w' -> exists id sb, id ∈ popped /\ entry p id = Some (a, sb) /\ State sb = StateReady).
  { intros w' r' (popped & -> & ? & Hp)%IH. exists (id :: popped). split_and!; [done..|].
    intros a Ha. destruct (Hp a Ha) as (i & sb & ? & ?). exists i, sb. split; [by right|done]. }
  destruct (entry p id) as [[a sb]|] eqn:He; [|apply Hskip].
  case_bool_decide as Hst; [|apply Hskip].
  destruct (pick_victims p n ids) as [w' r'] eqn:Hp. intros [= <- <-].
  destruct (IH _ _ _ Hp) as (popped & -> & Hlen & Hq). exists (id :: popped).
  split_and!; [done|cbn; lia|]. intros b [-> |Hb]%elem_of_cons.
  - exists id, sb. split; [left|done].
  - destruct (Hq b Hb) as (i & s & ? & ?). exists i, s. split; [by right|done].
Qed.

Lemma inv_condemn physical w key victims p0 p' :
  pool_inv w -> shrinks (w_pool w) p0 -> (forall a, a ∈ victims -> condemnable p0 a) ->
  p' = (if physical : bool then foldl (park key) p0 victims else foldl untrack p0 victims) ->
  pool_inv {| w_pool := p'; w_threads := TVict victims :: w_threads w; given := given w;
              torn := list_to_set (id_at p' <$> victims) ∪ torn w; used := used w |}.
Proof.
  intros I Hsh Hv ->.
  pose proof (inv_shrinks _ _ I Hsh) as I1.
  assert (Hid : forall b, id_at (if physical : bool then foldl (park key) p0 victims
                                 else foldl untrack p0 victims) b = id_at p0 b).
  { intros b. destruct physical; [apply id_at_park_all|].
    apply id_at_shrinks, shrinks_foldl. auto with k8s. }
  erewrite list_fmap_ext; [|intros; apply Hid].
  assert (I2 : pool_inv (set_pool (if physical : bool then foldl (park key) p0 victims
                                   else foldl untrack p0 victims)
                 (tear (list_to_set (id_at p0 <$> victims)) w))).
  { destruct physical.
    - by apply (inv_park_all _ key victims) in I1.
    - by apply (inv_untrack_all _ victims) in I1. }
  apply (inv_set_threads _ (TVict victims :: w_threads w)) in I2; [done|].
  intros t [-> |Ht]%elem_of_cons; [done|by apply (inv_threads _ I2)].
Qed.

Lemma inv_ScaleDown1 physical w key n p' victims :
  pool_inv w -> ScaleDown1 physical (w_pool w) key n = (p', victims) ->
  pool_inv {| w_pool := p'; w_threads := TVict victims :: w_threads w; given := given w;
              torn := list_to_set (id_at p' <$> victims) ∪ torn w; used := used w |}.
Proof.
  intros I. unfold ScaleDown1.
  destruct (pick_victims _ _ _) as [v rest] eqn:Hp.
  apply pick_victims_spec in Hp as (popped & Hf & _ & Hv). intros Heq.
  assert (victims = v) as -> by (destruct physical; congruence).
  apply (inv_condemn physical w key v (set_fifo key rest (w_pool w))); [done| | |].
  - apply shrinks_set_fifo. rewrite Hf. by apply sublist_inserts_l.
  - intros a Ha. destruct (Hv a Ha) as (id & sb & Hin & He & _).
    apply entry_Some in He as [He Hsb]. exists sb. split; [done|].
    destruct (inv_entry _ I _ _ He) as (s & Hs & <-). simplify_eq.
    intros [k Hk]. rewrite fifo_set_fifo in Hk. pose proof (inv_nodup _ I key) as Hnd.
    rewrite Hf in Hnd. apply NoDup_app in Hnd as (_ & Hnd & _).
    case_decide as Hke; [by eapply Hnd|]. apply Hke. eapply (inv_disjoint _ I); [done|].
    rewrite Hf. apply elem_of_app. by left.
  - destruct physical; congruence.
Qed.

Lemma stale_warming_spec p key now maxAge a :
  a ∈ stale_warming p key now maxAge ->
  exists id sb, entries p !! id = Some a /\ heap p !! a = Some sb /\ Key sb = key /\
    State sb = StateWarming /\ BoundRun sb = "" /\ maxAge <= now - CreatedAt sb.
Proof.
  unfold stale_warming. intros ([id b] & Hin & Hm)%list_elem_of_omap.
  apply elem_of_map_to_list in Hin. cbn in Hm.
  destruct (heap p !! b) as [sb|] eqn:Hb; [|done]. case_bool_decide as Hc; [done|].
  destruct (maxAge <=? now - CreatedAt sb) eqn:Hage; [|done]. simplify_eq. reflect_bools.
  exists id, sb.
  destruct (decide (Key sb = key)), (decide (State sb = StateWarming)),
    (decide (BoundRun sb = "")); tauto.
Qed.

Lemma inv_Reap1 physical w key now maxAge p' victims :
  pool_inv w -> ReapStaleWarming1 physical (w_pool w) key now maxAge = (p', victims) ->
  pool_inv {| w_pool := p'; w_threads := TVict victims :: w_threads w; given := given w;
              torn := list_to_set (id_at p' <$> victims) ∪ torn w; used := used w |}.
Proof.
  intros I. unfold ReapStaleWarming1. intros Heq.
  set (v := if maxAge <=? 0 then [] else stale_warming (w_pool w) key now maxAge).
  assert (victims = v) as -> by (unfold v; destruct (maxAge <=? 0), physical; congruence).
  apply (inv_condemn physical w key v (w_pool w)); [done|apply shrinks_refl| |].
  - unfold v. destruct (maxAge <=? 0); [set_solver|].
    intros a (id & sb & He & Hsb & _ & Hst & _)%stale_warming_spec.
    exists sb. split; [done|]. destruct (inv_entry _ I _ _ He) as (s & Hs & <-). simplify_eq.
    by eapply (inv_warming _ I).
  - unfold v. destruct (maxAge <=? 0), physical; cbn in *; congruence.
Qed.

Lemma inv_retry1 w key p' attempt :
  pool_inv w -> retryDraining1 (w_pool w) key = (p', attempt) ->
  pool_inv {| w_pool := p'; w_threads := TRetry key attempt :: w_threads w; given := given w;
              torn := list_to_set (id_at p' <$> attempt) ∪ torn w; used := used w |}.
Proof.
  unfold retryDraining1. intros I [= <- <-]. set (l := omap _ _).
  assert (Hl : list_to_set (id_at (set_drains key [] (w_pool w)) <$> l) ∪ torn w = torn w).
  { apply subseteq_union_1_L. intros id Hid.
    rewrite elem_of_list_to_set, list_elem_of_fmap in Hid. destruct Hid as (a & -> & Ha).
    apply list_elem_of_omap in Ha as (b & _ & Hb).
    destruct (heap (w_pool w) !! b) as [sb|]; [|done].
    destruct (entry _ (ID sb)) as [[c s]|] eqn:He; [|done]. case_bool_decide; [|done].
    simplify_eq. apply entry_Some in He as [_ Hs]. unfold id_at. cbn. rewrite Hs.
    by eapply (inv_draining _ I). }
  rewrite Hl. pose proof (inv_shrinks _ _ I (shrinks_drains _ key [])) as I1.
  apply (inv_set_threads _ (TRetry key l :: w_threads w)) in I1; [done|].
  intros t [-> |Ht]%elem_of_cons; [done|by apply (inv_threads _ I1)].
Qed.

Lemma shrinks_retry2 p key attempt fails : shrinks p (retryDraining2 p key attempt fails).1.
Proof.
  unfold retryDraining2. cbn. eapply shrinks_trans; [apply (shrinks_drains _ key)|].
  apply shrinks_foldl. intros q a. repeat case_match; auto with k8s.
Qed.

Lemma inv_step physical w w' : pool_inv w -> pool_step physical w w' -> pool_inv w'.
Proof.
  intros I Hs. destruct Hs as [w run key class id now p' s Hid Hb|w t1 t2 run key id a err p' s Ht Hb
    |w t1 t2 run key id a err Ht|w id now|w sb now Hsb|w run p' a id key Hr
    |w t1 t2 run key id a failed Ht|w key p' attempt Hr|w t1 t2 key attempt fails Ht
    |w key n p' victims Hd|w key now maxAge p' victims Hd|w t1 t2 a victims failed Ht
    |w key id now Hid|w t1 t2 id err Ht].
  - by eapply inv_Bind1.
  - by eapply inv_Bind2.
  - by eapply inv_Bind3.
  - by apply inv_NotifyReady.
  - by apply inv_Adopt.
  - by eapply inv_Release1.
  - by eapply inv_Release2.
  - by eapply inv_retry1.
  - eapply inv_drop_thread in Ht; [|done].
    eapply inv_shrinks in Ht; [|apply shrinks_retry2]. exact Ht.
  - by eapply inv_ScaleDown1.
  - by eapply inv_Reap1.
  - assert (I1 : pool_inv (set_threads (t1 ++ TVict victims :: t2) w)).
    { apply inv_set_threads; [done|]. intros t.
      rewrite elem_of_app, elem_of_cons. intros [Hin|[-> |Hin]]; [|done|];
        apply (inv_threads _ I); rewrite Ht, elem_of_app, elem_of_cons; auto. }
    destruct failed; [done|]. eapply inv_shrinks in I1; [exact I1|]. apply shrinks_untrack.
  - pose proof (inv_alloc w {| ID := id; Key := key; State := StateWarming; BoundRun := "";
      CreatedAt := now; ReadyAt := 0 |} I Hid ltac:(done)) as I1.
    apply (inv_set_threads _ (TBoot id :: w_threads w)) in I1; [done|].
    intros t [-> |Hin]%elem_of_cons; [done|by apply (inv_threads _ I1)].
  - eapply inv_drop_thread in Ht; [|done]. destruct err; [|done].
    eapply inv_shrinks in Ht; [|apply (shrinks_delete _ id)]. exact Ht.
Qed.

Lemma inv_world0 : pool_inv world0.
Proof.
  split; cbn; try done.
  - intros id [key Hk]. by apply elem_of_nil in Hk.
  - intros key. constructor.
  - intros k1 k2 id Hk. by apply elem_of_nil in Hk.
  - intros r1 r2 id Hk. by apply elem_of_nil in Hk.
  - intros r id Hk. by apply elem_of_nil in Hk.
  - intros t Hk. by apply elem_of_nil in Hk.
Qed.

Lemma inv_reachable physical w : rtc (pool_step physical) world0 w -> pool_inv w.
Proof.
  intros Hr. cut (pool_inv world0 -> pool_inv w); [intros H; apply H, inv_world0|].
  induction Hr; eauto using inv_step.
Qed.

Lemma step_logs physical w w' :
  pool_step physical w w' -> torn w ⊆ torn w' /\ given w ⊆ given w'.
Proof.
  intros Hs; split; destruct Hs; cbn; try done; try set_solver;
    by apply list_subseteq_app_r.
Qed.

Lemma logs_grow physical w w' :
  rtc (pool_step physical) w w' -> torn w ⊆ torn w' /\ given w ⊆ given w'.
Proof.
  induction 1 as [|w w1 w2 Hs _ [IH1 IH2]]; [done|].
  apply step_logs in Hs as [? ?]. split; by etrans.
Qed.

(** * Whole calls *)

Lemma set_fifo_twice p key l l' : set_fifo key l (set_fifo key l' p) = set_fifo key l p.
Proof. unfold set_fifo; cbn. by rewrite insert_insert_eq. Qed.

Lemma Bind_reattach physical boot down n p run key class id now a :
  run ≠ "" -> byRun p !! run = Some a ->
  Bind physical boot down (S n) p run key class id now = Some (p, Ok (Ref p run)).
Proof.
  intros Hr Ha. cbn. unfold Bind1, Ref. by rewrite bool_decide_eq_false_2, Ha.
Qed.

(** What a Bind leaves behind: on success the run's index answers the same
    reference; on failure the indexes are as they were. *)
Definition bind_outcome (p p' : Pool) (run : string) (res : result string string) : Prop :=
  match res with
  | Ok ref => is_Some (byRun p' !! run) /\ Ref p' run = ref
  | Err _ => byRun p' = byRun p /\ entries p' = entries p
  end.

(** The reservation, the boot and their rollback, without interference. *)
Lemma Bind_cold p run id key now err :
  byRun p !! run = None -> entries p !! id = None ->
  let a := fresh_ptr p in
  let sb := {| ID := id; Key := key; State := StateWarming; BoundRun := run;
               CreatedAt := now; ReadyAt := 0 |} in
  let p1 := upd_byRun <[run := a]> (upd_entries <[id := a]> (upd_heap <[a := sb]> p)) in
  exists p' res, Bind2 p1 run id a err = (p', ColdDone res) /\ bind_outcome p p' run res.
Proof.
  intros Hb He a sb p1. unfold Bind2. destruct err as [e|].
  - eexists _, _. split; [done|]. cbn. by rewrite !delete_insert_id.
  - cbn. rewrite lookup_insert_eq. eexists _, _. split; [done|]. cbn. unfold Ref; cbn.
    rewrite lookup_insert_eq, lookup_alter_eq, lookup_insert_eq. by split.
Qed.

Lemma Bind_unfold physical boot down n p run key class id now :
  Bind physical boot down (S n) p run key class id now =
  match Bind1 p run key class id now with
  | (p, BindDone res) => Some (p, res)
  | (p, BindAgain) => Bind physical boot down n p run key class id now
  | (p, BindCold id a) =>
      match Bind2 p run id a (boot_err physical boot id) with
      | (p, ColdDone res) => Some (p, res)
      | (p, ColdCleanup) => Some (Bind3 p run key id a (down_err physical down id))
      end
  end.
Proof. done. Qed.

Lemma Bind_outcome physical boot down p run key class id now :
  run ≠ "" -> entries p !! id = None ->
  exists p' res,
    Bind physical boot down (S (length (fifo p key))) p run key class id now = Some (p', res) /\
    bind_outcome p p' run res.
Proof.
  intros Hr He. remember (fifo p key) as l eqn:Hl. revert p He Hl.
  induction l as [|slot rest IH]; intros p He Hl;
    (destruct (byRun p !! run) as [a|] eqn:Ha;
     [eexists _, _; split; [by eapply Bind_reattach|]; by split|]);
    destruct (Bind_cold p run id key now (boot_err physical boot id) Ha He)
      as (pc & rc & Hc & Hoc);
    rewrite Bind_unfold; unfold Bind1; rewrite bool_decide_eq_false_2, Ha by done;
    (case_bool_decide as Hclass; [by eexists _, _|]);
    rewrite <- Hl; destruct class; try (rewrite Hc; eauto).
  destruct (entry _ slot) as [[a sb]|] eqn:Hs.
  - eexists _, _. split; [done|]. cbn. unfold Ref; cbn. by rewrite !lookup_insert_eq.
  - destruct (IH (set_fifo key rest p)) as (p' & res & HB & Ho); [done|..].
    { rewrite fifo_set_fifo. by rewrite decide_True. }
    exists p', res. split; [done|]. destruct res; exact Ho.
Qed.

(** * Inventory *)

Definition in_state (s : SandboxState) (sb : Sandbox) : bool := bool_decide (State sb = s).
Definition is_reserved (sb : Sandbox) : bool :=
  in_state StateWarming sb && negb (bool_decide (BoundRun sb = "")).
Definition is_warming (sb : Sandbox) : bool :=
  in_state StateWarming sb && bool_decide (BoundRun sb = "").

(** The sandboxes of a key that satisfy a test. *)
Definition census (f : Sandbox -> bool) (key : PoolKey) (l : list Sandbox) : nat :=
  length (filter (fun sb => Key sb = key /\ f sb = true) l).

Definition counts_of (key : PoolKey) (l : list Sandbox) : Counts :=
  {| Warming := census is_warming key l; Ready := census (in_state StateReady) key l;
     Bound := census (in_state StateBound) key l; Reserved := census is_reserved key l;
     Draining := census (in_state StateDraining) key l |}.

Lemma census_snoc f key l sb :
  census f key (l ++ [sb]) =
  (census f key l + if bool_decide (Key sb = key) && f sb then 1 else 0)%nat.
Proof.
  unfold census. rewrite filter_app, length_app. f_equal.
  destruct (decide (Key sb = key)) as [Hk|Hk], (f sb) eqn:Hf;
    [rewrite filter_cons_True by done|rewrite filter_cons_False by (rewrite Hf; naive_solver)..];
    rewrite ?bool_decide_eq_true_2, ?bool_decide_eq_false_2 by done; done.
Qed.

Lemma Inventory_foldl l key :
  default no_counts
    (foldl (fun out sb => <[Key sb := count_one sb (default no_counts (out !! Key sb))]> out)
       (∅ : gmap PoolKey Counts) l !! key) = counts_of key l.
Proof.
  induction l as [|sb l IH] using rev_ind; [done|].
  rewrite foldl_snoc. cbn [foldl]. unfold counts_of. rewrite !census_snoc, lookup_insert.
  case_decide as Hk; [subst key|].
  - cbn [default]. rewrite IH, (bool_decide_eq_true_2 (Key sb = Key sb)) by done.
    change (is_reserved sb) with (in_state StateWarming sb && negb (bool_decide (BoundRun sb = ""))).
    change (is_warming sb) with (in_state StateWarming sb && bool_decide (BoundRun sb = "")).
    assert (HI : forall s, in_state s sb = bool_decide (State sb = s)) by done.
    unfold count_one, counts_of. rewrite !HI. clear.
    destruct (State sb); repeat case_bool_decide; try done; cbn; f_equal; lia.
  - rewrite IH. rewrite (bool_decide_eq_false_2 (Key sb = key)) by done.
    cbn. unfold counts_of. f_equal; lia.
Qed.

(** * Correctness of the warm pool *)

(** C38: no double hand-out. However concurrent Bind, Release, NotifyReady, Adopt,
    ScaleDown, Boot and ReapStaleWarming calls interleave, and whatever the
    provisioner answers, a sandbox that was reserved for or handed to one run is
    never reserved for or handed to another. *)
Theorem no_double_handout physical w r1 r2 id :
  rtc (pool_step physical) world0 w -> (r1, id) ∈ given w -> (r2, id) ∈ given w -> r1 = r2.
Proof. intros Hr. apply (inv_given _ (inv_reachable _ _ Hr)). Qed.

(** Destroyed warmth never comes back. Once a sandbox's teardown has been
    issued, or once it has been given to a run, it is in no Ready FIFO at any
    later point: a late readiness report, a failed teardown or a retry never
    makes it claimable again. *)
Theorem never_claimable_again physical w w' r id :
  rtc (pool_step physical) world0 w -> rtc (pool_step physical) w w' ->
  id ∈ torn w \/ (r, id) ∈ given w ->
  ~ queued (w_pool w') id.
Proof.
  intros H1 H2 Hid. assert (I : pool_inv w') by (eapply inv_reachable; etrans; eauto).
  destruct (logs_grow _ _ _ H2) as [Ht Hg].
  destruct Hid as [Hid|Hid]; [eapply torn_not_queued|eapply given_not_queued]; eauto.
Qed.

(** Bind is total, transactional and idempotent. With fuel for each slot of
    the key's FIFO it returns; on success the run's reference is recorded and
    every later Bind of the run, whatever key, class or provisioner, answers the
    same reference and changes nothing; on failure the indexes are as before. *)
Theorem bind_transactional physical boot down p run key class id now :
  run ≠ "" -> entries p !! id = None ->
  exists p' res,
    Bind physical boot down (S (length (fifo p key))) p run key class id now = Some (p', res) /\
    match res with
    | Ok ref => Ref p' run = ref /\
        forall n boot' down' key' class' id' now',
          Bind physical boot' down' (S n) p' run key' class' id' now' = Some (p', Ok ref)
    | Err _ => byRun p' = byRun p /\ entries p' = entries p
    end.
Proof.
  intros Hr He. destruct (Bind_outcome physical boot down p run key class id now Hr He)
    as (p' & res & HB & Ho).
  exists p', res. split; [done|]. destruct res as [ref|e]; [|done].
  destruct Ho as [[a Ha] <-]. split; [done|]. intros. by eapply Bind_reattach.
Qed.

(** the warm path pops the oldest live slot. An interactive run that owns
    nothing gets the first FIFO entry the pool still tracks, phantom slots in
    front of it are dropped, the later ones stay, and the provisioner is not
    consulted. *)
Theorem bind_pops_oldest physical boot down n p run key id now ghosts slot rest a sb :
  run ≠ "" -> byRun p !! run = None ->
  fifo p key = ghosts ++ slot :: rest ->
  Forall (fun g => entry p g = None) ghosts -> entry p slot = Some (a, sb) ->
  Bind physical boot down (S (length ghosts) + n) p run key ClassInteractive id now =
  Some (upd_byRun <[run := a]>
          (upd_heap <[a := with_run run (with_state StateBound sb)]> (set_fifo key rest p)),
        Ok (ID sb)).
Proof.
  intros Hr Hb Hf Hg. revert p Hb Hf Hg. induction ghosts as [|g ghosts IH]; intros p Hb Hf Hg Hs;
    cbn [length Nat.add]; rewrite Bind_unfold; unfold Bind1;
    rewrite bool_decide_eq_false_2, Hb, bool_decide_eq_false_2, Hf by naive_solver.
  - cbn [app]. change (entry (set_fifo key rest p) slot) with (entry p slot). by rewrite Hs.
  - apply Forall_cons in Hg as [Hg Hgs]. cbn [app].
    change (entry (set_fifo key (ghosts ++ slot :: rest) p) g) with (entry p g). rewrite Hg.
    change (S (length ghosts + n)) with (S (length ghosts) + n)%nat.
    rewrite (IH (set_fifo key (ghosts ++ slot :: rest) p)); try done.
    + by rewrite set_fifo_twice.
    + rewrite fifo_set_fifo. by rewrite decide_True.
Qed.

(** The inventory is exact. For every key, Inventory counts the live
    sandboxes of that key by state, splitting the warming ones into pool warmth
    and run-reserved boots; a key without live sandboxes counts zero. *)
Theorem inventory_exact p key :
  default no_counts (Inventory p !! key) = counts_of key (live_sandboxes p).
Proof. apply Inventory_foldl. Qed.

(** Release never forgets a live pod. A confirmed teardown leaves the run
    unbound and the sandbox untracked; a failed one returns the error and leaves
    the sandbox tracked as Draining, queued for retry, and never claimable; a
    second Release after success is a no-op. *)
Theorem release_never_forgets physical boot down p run a sb :
  byRun p !! run = Some a -> heap p !! a = Some sb ->
  let '(p', err) := Release physical down p run in
  match err with
  | None => byRun p' !! run = None /\ entries p' !! ID sb = None /\
            Release physical down p' run = (p', None)
  | Some _ => entries p' !! ID sb = Some a /\ is_draining p' (ID sb) = true /\
              a ∈ drains p' (Key sb) /\ Ref p' run = ID sb
  end /\
  (ID sb ∉ fifo p' (Key sb)) /\
  forall n key class id now, run ≠ "" -> err ≠ None ->
    Bind physical boot down (S n) p' run key class id now = Some (p', Ok (ID sb)).
Proof.
  intros Hb Hsb. unfold Release, Release1. rewrite Hb, Hsb. cbn -[Release2 Bind].
  set (p1 := upd_entries (delete (ID sb)) (upd_byRun (delete run) p)).
  set (p2 := match fifo p1 (Key sb) with [] => _ | _ => _ end).
  assert (Hp2 : heap p2 = heap p /\ entries p2 = entries p1 /\ byRun p2 = byRun p1 /\
                (ID sb ∉ fifo p2 (Key sb))).
  { unfold p2. destruct (fifo p1 (Key sb)) as [|x l] eqn:Hf.
    - rewrite Hf. split_and!; [done..|]. apply not_elem_of_nil.
    - split_and!; [done..|]. rewrite fifo_set_fifo, decide_True by done.
      change (ID sb ∉ filter (fun y => y ≠ ID sb) (x :: l)).
      rewrite list_elem_of_filter. naive_solver. }
  clearbody p2. destruct Hp2 as (Hh & He & Hr & Hn).
  destruct (down_err physical down (ID sb)).
  - unfold Release2. cbn -[Bind]. rewrite Hr. cbn -[Bind]. rewrite lookup_delete_eq.
    assert (Hbind : byRun (set_drains (Key sb) (drains p2 (Key sb) ++ [a])
      (upd_entries <[ID sb := a]> (upd_byRun <[run := a]> (upd_heap (alter (with_state StateDraining) a) p2)))) !! run
      = Some a) by (cbn; by rewrite lookup_insert_eq).
    assert (Href : Ref (set_drains (Key sb) (drains p2 (Key sb) ++ [a])
      (upd_entries <[ID sb := a]> (upd_byRun <[run := a]> (upd_heap (alter (with_state StateDraining) a) p2)))) run
      = ID sb) by (unfold Ref; rewrite Hbind; cbn; by rewrite lookup_alter_eq, Hh, Hsb).
    split_and!.
    + cbn. by rewrite lookup_insert_eq.
    + unfold is_draining, entry. cbn. rewrite lookup_insert_eq, lookup_alter_eq, Hh, Hsb.
      cbn. by apply bool_decide_eq_true_2.
    + unfold drains at 1. cbn. rewrite lookup_insert_eq. cbn. set_solver.
    + exact Href.
    + exact Hn.
    + intros n key class id now Hrun _.
      rewrite (Bind_reattach _ _ _ _ _ _ _ _ _ _ a Hrun Hbind). by rewrite Href.
  - rewrite Hr, He. cbn -[Bind]. rewrite !lookup_delete_eq. by split_and!.
Qed.

(** Executable forms of the steps, for concrete runs. *)
Definition do_bind (run : string) (key : PoolKey) (class : RunClass) (id : string) (now : Z)
    (w : world) : world :=
  let '(p', s) := Bind1 (w_pool w) run key class id now in
  {| w_pool := p'; w_threads := bind_thread run key s ++ w_threads w;
     given := bind_given run s ++ given w; torn := torn w; used := {[id]} ∪ used w |}.

Definition is_cold (id : string) (t : thread) : bool :=
  match t with TCold _ _ i _ => bool_decide (i = id) | _ => false end.

Definition do_cold (id : string) (err : option string) (w : world) : world :=
  match list_find (fun t => is_cold id t = true) (w_threads w) with
  | Some (i, TCold run key id a) =>
      let '(p', s) := Bind2 (w_pool w) run id a err in
      {| w_pool := p';
         w_threads := cold_thread run key id a s ++ take i (w_threads w) ++ drop (S i) (w_threads w);
         given := cold_given run s ++ given w; torn := cold_torn id s ∪ torn w; used := used w |}
  | _ => w
  end.

Definition do_release (run : string) (w : world) : world :=
  match Release1 (w_pool w) run with
  | (p', Some (a, id, key)) =>
      {| w_pool := p'; w_threads := TRel run key id a :: w_threads w;
         given := given w; torn := {[id]} ∪ torn w; used := used w |}
  | (_, None) => w
  end.

Definition do_boot (key : PoolKey) (id : string) (now : Z) (w : world) : world :=
  {| w_pool := Boot1 (w_pool w) key id now; w_threads := TBoot id :: w_threads w;
     given := given w; torn := torn w; used := {[id]} ∪ used w |}.

Definition do_notify (id : string) (now : Z) (w : world) : world :=
  set_pool (NotifyReady (w_pool w) id now) w.

Lemma do_bind_step physical run key class id now w :
  bool_decide (id ∉ used w) = true -> rtc (pool_step physical) w (do_bind run key class id now w).
Proof.
  intros Hid%bool_decide_eq_true. unfold do_bind.
  destruct (Bind1 _ _ _ _ _ _) as [p' s] eqn:Hb. apply rtc_once. by econstructor.
Qed.

Lemma do_cold_step physical id err w : rtc (pool_step physical) w (do_cold id err w).
Proof.
  unfold do_cold. destruct (list_find _ _) as [[i t]|] eqn:Hf; [|done].
  apply list_find_Some in Hf as (Hi & _ & _). destruct t; try done.
  destruct (Bind2 _ _ _ _ _) as [p' s] eqn:Hb. apply rtc_once. econstructor; [|done].
  symmetry. by apply take_drop_middle.
Qed.

Lemma do_release_step physical run w : rtc (pool_step physical) w (do_release run w).
Proof.
  unfold do_release. destruct (Release1 _ _) as [p' [[[a id] key]|]] eqn:Hr; [|done].
  apply rtc_once. by econstructor.
Qed.

Lemma do_boot_step physical key id now w :
  bool_decide (id ∉ used w) = true -> rtc (pool_step physical) w (do_boot key id now w).
Proof. intros Hid%bool_decide_eq_true. apply rtc_once. by econstructor. Qed.

Lemma do_notify_step physical id now w : rtc (pool_step physical) w (do_notify id now w).
Proof. apply rtc_once. apply step_notify. Qed.

Definition demo_key : PoolKey :=
  {| RuntimeClass := "kata"; Image := "img"; Namespace := "ns";
     CapabilityHash := ""; ProjectPVC := "" |}.

(** A warm sandbox booted, reported ready, popped by a run and released. *)
Definition demo_bound : world :=
  do_bind "run" demo_key ClassInteractive "s2" 2 (do_notify "s1" 1 (do_boot demo_key "s1" 0 world0)).
Definition demo_released : world := do_release "run" demo_bound.

Lemma demo_bound_reachable : rtc (pool_step true) world0 demo_bound.
Proof.
  etrans; [apply (do_boot_step true demo_key "s1" 0); vm_compute; reflexivity|].
  etrans; [apply (do_notify_step true "s1" 1)|].
  apply do_bind_step. vm_compute. reflexivity.
Qed.

(** Release, then bind again, while the first cold boot is in flight; the second
    boot succeeds and the first fails. *)
Definition demo_late : world :=
  do_cold "s1" (Some "timeout") (do_cold "s2" None
    (do_bind "run" demo_key ClassBatch "s2" 1
       (do_release "run" (do_bind "run" demo_key ClassBatch "s1" 0 world0)))).

Lemma demo_late_reachable : rtc (pool_step true) world0 demo_late.
Proof.
  etrans; [apply (do_bind_step true "run" demo_key ClassBatch "s1" 0); vm_compute; reflexivity|].
  etrans; [apply (do_release_step true "run")|].
  etrans; [apply (do_bind_step true "run" demo_key ClassBatch "s2" 1); vm_compute; reflexivity|].
  etrans; [apply (do_cold_step true "s2" None)|]. apply do_cold_step.
Qed.

(** * Correctness of the warm pool: limits *)

(** A binding outlives its sandbox (a limit of the code). When Release's
    teardown fails it keeps the run's index entry; once a later ScaleDown
    confirms that teardown the sandbox is gone from the inventory, but the run's
    index entry stays, so a new Bind of the run answers the reference of the
    destroyed sandbox instead of booting one. *)
Theorem binding_outlives_sandbox :
  let up := fun _ : string => None in
  let broken := fun _ : string => Some "unavailable" in
  match Bind true up up 1 NewPool "run" demo_key ClassBatch "s1" 0 with
  | Some (p1, first) =>
      let '(p2, err) := Release true broken p1 "run" in
      let '(p3, destroyed) := ScaleDown true up p2 demo_key 1 in
      (first, err, destroyed, entries p3 !! "s1",
       snd <$> Bind true up up 1 p3 "run" demo_key ClassBatch "s2" 1) =
      (Ok "s1", Some "warmpool.Pool.Release: teardown s1: unavailable", 1%nat, None,
       Some (Ok "s1"))
  | None => False
  end.
Proof. vm_compute. reflexivity. Qed.

(** A late rollback unbinds a newer sandbox (a limit of the code). A run is
    released while its first cold boot is in flight and bound again; when the
    first boot then fails, its rollback removes the run's index entry although
    that entry now belongs to the second sandbox, which stays Bound to the run
    in the inventory while a new Bind of the run boots a third one. *)
Theorem late_rollback_unbinds :
  exists w, rtc (pool_step true) world0 w /\
    (State <$> (snd <$> entry (w_pool w) "s2"), BoundRun <$> (snd <$> entry (w_pool w) "s2"),
     bool_decide ("s2" ∈ torn w), byRun (w_pool w) !! "run",
     bind_given "run" (snd (Bind1 (w_pool w) "run" demo_key ClassBatch "s3" 9))) =
    (Some StateBound, Some "run", false, None, [("run", "s3")]).
Proof. exists demo_late. split; [apply demo_late_reachable|]. vm_compute. reflexivity. Qed.

(** * Witnesses *)

Lemma no_double_handout_witness :
  ("run", "s1") ∈ given demo_bound /\
  forall r, (r, "s1") ∈ given demo_bound -> r = "run".
Proof.
  assert (Hg : ("run", "s1") ∈ given demo_bound)
    by (refine (bool_decide_eq_true_1 _ _); vm_compute; reflexivity).
  split; [exact Hg|]. intros r Hr.
  exact (no_double_handout true demo_bound r "run" "s1" demo_bound_reachable Hr Hg).
Defined.

Lemma never_claimable_again_witness :
  "s1" ∈ torn demo_released /\ ~ queued (w_pool (do_notify "s1" 5 demo_released)) "s1".
Proof.
  assert (Hg : "s1" ∈ torn demo_released)
    by (refine (bool_decide_eq_true_1 _ _); vm_compute; reflexivity).
  split; [exact Hg|].
  apply (never_claimable_again true demo_released (do_notify "s1" 5 demo_released) "" "s1").
  - transitivity demo_bound; [apply demo_bound_reachable|apply do_release_step].
  - apply do_notify_step.
  - left. exact Hg.
Defined.

Lemma bind_transactional_witness :
  exists p' res, Bind true (fun _ => Some "quota") (fun _ => None) 1 NewPool "run" demo_key
    ClassBatch "s1" 0 = Some (p', res) /\ is_ok res = false /\ entries p' = ∅.
Proof.
  destruct (bind_transactional true (fun _ => Some "quota") (fun _ => None) NewPool "run" demo_key
    ClassBatch "s1" 0) as (p' & res & HB & Ho); [discriminate|reflexivity|].
  exists p', res. split; [exact HB|]. cbn in HB. injection HB as Hp Hr. subst res. split; [reflexivity|].
  apply Ho.
Defined.

Lemma bind_pops_oldest_witness :
  exists p', Bind true (fun _ => Some "down") (fun _ => None) 1 (w_pool
      (do_notify "s1" 1 (do_boot demo_key "s1" 0 world0))) "run" demo_key ClassInteractive "s2" 2
    = Some (p', Ok "s1").
Proof.
  eexists.
  apply (bind_pops_oldest true (fun _ => Some "down") (fun _ => None) 0 (w_pool
      (do_notify "s1" 1 (do_boot demo_key "s1" 0 world0))) "run" demo_key "s2" 2 [] "s1" [] 0
      {| ID := "s1"; Key := demo_key; State := StateReady; BoundRun := "";
         CreatedAt := 0; ReadyAt := 1 |});
    [discriminate|reflexivity|vm_compute; reflexivity|constructor|vm_compute; reflexivity].
Defined.

Lemma release_never_forgets_witness :
  let '(p', err) := Release true (fun _ => Some "x") (w_pool demo_bound) "run" in
  is_Some err /\ is_draining p' "s1" = true.
Proof.
  pose proof (release_never_forgets true (fun _ => None) (fun _ => Some "x") (w_pool demo_bound) "run" 0
    {| ID := "s1"; Key := demo_key; State := StateBound; BoundRun := "run";
       CreatedAt := 0; ReadyAt := 1 |} ltac:(vm_compute; reflexivity) ltac:(vm_compute; reflexivity)) as H.
  destruct (Release _ _ _ _) as [p' err] eqn:Hr.
  assert (He : err = snd (Release true (fun _ => Some "x") (w_pool demo_bound) "run")) by (rewrite Hr; reflexivity).
  vm_compute in He. subst err. split; [eexists; reflexivity|]. apply H.
Defined.
