(* ===== verification/Sizing.v ===== *)
(** The warm-pool sizing policy and its autoscaler (src/pkg/warmpool/sizing.go).

    The formula is evaluated on IEEE binary64 numbers, operation by operation as
    the code writes it. [math_log] is math.Log (used only for service levels
    outside the quantile table) and [int_oob] is the implementation-defined
    result of converting a float outside the int range (or a NaN) to int. *)
From S2P Require Import Prelude Pool.
From Stdlib Require Import Floats.
Open Scope Z_scope.

(** * Float conversions of the Go code *)

(** math.Ceil of a finite float, as the integer it is. *)
Definition ceil_finite (neg : bool) (m : positive) (e : Z) : Z :=
  let v := if neg then Zneg m else Zpos m in
  if 0 <=? e then v * 2 ^ e else - ((- v) / 2 ^ (- e)).

Definition max_int : Z := 2 ^ 63 - 1.

Inductive SizingError : Type :=
| ErrNegativeRate (lambdaCPS replenishS : float)
| ErrServiceLevel (sl : float)
| ErrNoReplenish (key : PoolKey)
| ErrUnknownClass (class : RunClass).

Section platform.
Context (math_log : float -> float) (int_oob : float -> Z).

(** int(math.Max(1, math.Ceil(x))) *)
Definition int_max1_ceil (x : float) : Z :=
  match Prim2SF x with
  | S754_zero _ | S754_infinity true => 1
  | S754_finite neg m e =>
      let c := Z.max 1 (ceil_finite neg m e) in
      if c <=? max_int then c else int_oob x
  | S754_infinity false | S754_nan => int_oob x
  end.

Open Scope float_scope.

Definition zTable (sl : float) : option float :=
  if sl =? 0.90 then Some 1.2816
  else if sl =? 0.95 then Some 1.6449
  else if sl =? 0.99 then Some 2.3263
  else None.

(** Horner evaluation, as the nested parentheses of the code. *)
Definition horner (cs : list float) (q : float) : float :=
  match cs with
  | c :: cs => fold_left (fun acc c => acc * q + c) cs c
  | [] => 0
  end.

Definition acklam_a : list float :=
  [-3.969683028665376e+01; 2.209460984245205e+02; -2.759285104469687e+02;
   1.383577518672690e+02; -3.066479806614716e+01; 2.506628277459239e+00].
Definition acklam_b : list float :=
  [-5.447609879822406e+01; 1.615858368580409e+02; -1.556989798598866e+02;
   6.680131188771972e+01; -1.328068155288572e+01].
Definition acklam_c : list float :=
  [-7.784894002430293e-03; -3.223964580411365e-01; -2.400758277161838e+00;
   -2.549732539343734e+00; 4.374664141464968e+00; 2.938163982698783e+00].
Definition acklam_d : list float :=
  [7.784695709041462e-03; 3.224671290700398e-01; 2.445134137142996e+00;
   3.754408661907416e+00].

Definition plow : float := 0.02425.
Definition phigh : float := 0.97575.

Definition zFromServiceLevel (sl : float) : float :=
  if sl <? plow then
    let q := PrimFloat.sqrt (-2 * math_log sl) in
    horner acklam_c q / horner (acklam_d ++ [1]) q
  else if sl <=? phigh then
    let q := sl - 0.5 in
    let r := q * q in
    horner acklam_a r * q / horner (acklam_b ++ [1]) r
  else
    let q := PrimFloat.sqrt (-2 * math_log (1 - sl)) in
    - horner acklam_c q / horner (acklam_d ++ [1]) q.

Definition RecommendBuffer (lambdaCPS replenishS serviceLevel : float) : result SizingError Z :=
  if (lambdaCPS <? 0) || (replenishS <? 0) then Err (ErrNegativeRate lambdaCPS replenishS)
  else if (serviceLevel <=? 0) || (1 <=? serviceLevel) then Err (ErrServiceLevel serviceLevel)
  else
    let z := match zTable serviceLevel with
             | Some z => z
             | None => zFromServiceLevel serviceLevel
             end in
    let cycleDemand := lambdaCPS * replenishS in
    let safety := z * PrimFloat.sqrt cycleDemand in
    Ok (int_max1_ceil (cycleDemand + safety)).

Definition ReplenishGVisorSeconds : float := 1.716.
Definition ReplenishRuncSeconds : float := 3.560.
Definition ReplenishKataSeconds : float := 15.0.

Definition DefaultReplenish : gmap string float :=
  <["gvisor" := ReplenishGVisorSeconds]>
    (<["runc" := ReplenishRuncSeconds]> {["kata" := ReplenishKataSeconds]}).

Definition LambdaLight : float := 0.05.
Definition LambdaMedium : float := 0.20.
Definition LambdaHeavy : float := 0.50.
Definition DefaultServiceLevel : float := 0.95.

Close Scope float_scope.

Definition DefaultMinReady : Z := 2.
Definition DefaultMaxReady : Z := 10.

Record Policy : Type := {
  ReplenishSByKey : gmap PoolKey float;
  MinReady : Z;
  MaxReady : Z;
  ServiceLevel : float;
}.

Definition NewDefaultPolicy (replenishSByKey : gmap PoolKey float) : Policy :=
  {| ReplenishSByKey := replenishSByKey; MinReady := DefaultMinReady;
     MaxReady := DefaultMaxReady; ServiceLevel := DefaultServiceLevel |}.

Definition BaseStock (p : Policy) (key : PoolKey) (observedLambda : float)
  : result SizingError Z :=
  match ReplenishSByKey p !! key with
  | None => Err (ErrNoReplenish key)
  | Some r => RecommendBuffer observedLambda r (ServiceLevel p)
  end.

(** The code clamps through float64, which is exact below 2^53; at or above it
    the rounding of [v] is monotone, so the minimum with [hi] is the same. *)
Definition clamp (v lo hi : Z) : Z := Z.max lo (Z.min v hi).

Definition Target (p : Policy) (key : PoolKey) (observedLambda : float) (class : RunClass)
  : result SizingError Z :=
  match class with
  | ClassBatch => Ok 0
  | ClassInteractive =>
      match BaseStock p key observedLambda with
      | Err e => Err e
      | Ok base => Ok (clamp base (MinReady p) (MaxReady p))
      end
  | ClassOther _ => Err (ErrUnknownClass class)
  end.

Definition DefaultStabilizationTicks : Z := 3.

Record Autoscaler : Type := {
  policy : Policy;
  stabilizationTicks : Z;
  current : gmap PoolKey Z;
  lowTicks : gmap PoolKey Z;
}.

Definition NewAutoscaler (p : Policy) (ticks : Z) : Autoscaler :=
  {| policy := p;
     stabilizationTicks := if ticks <=? 0 then DefaultStabilizationTicks else ticks;
     current := ∅; lowTicks := ∅ |}.

(** Reads of the two maps: a missing key counts zero. *)
Definition Current (a : Autoscaler) (key : PoolKey) : Z := default 0 (current a !! key).
Definition low (a : Autoscaler) (key : PoolKey) : Z := default 0 (lowTicks a !! key).

Definition fold_reading (a : Autoscaler) (key : PoolKey) (desired : Z) : Autoscaler * Z :=
  let cur := default desired (current a !! key) in
  let '(cur, ticks) :=
    if cur <? desired then (desired, 0)
    else if desired <? cur then
      (let n := low a key + 1 in
       if stabilizationTicks a <=? n then (desired, 0) else (cur, n))
    else (cur, 0) in
  ({| policy := policy a; stabilizationTicks := stabilizationTicks a;
      current := <[key := cur]> (current a); lowTicks := <[key := ticks]> (lowTicks a) |}, cur).

Definition Reconcile (a : Autoscaler) (key : PoolKey) (observedLambda : float) (class : RunClass)
  : Autoscaler * result SizingError Z :=
  match Target (policy a) key observedLambda class with
  | Err e => (a, Err e)
  | Ok desired => let '(a, cur) := fold_reading a key desired in (a, Ok cur)
  end.

End platform.
