(* ===== verification/Controller.v ===== *)
(** The warm-pool controller (src/pkg/warmpool/controller.go): the capacity cap,
    one Tick over the managed keys and the bind-miss replenish, over the pool of
    Pool.v and the autoscaler of Sizing.v. *)
From S2P Require Import Prelude Pool Sizing.
From Stdlib Require Import Floats.
Open Scope Z_scope.

Record ManagedKey : Type := {
  MKey : PoolKey;
  Class : RunClass;
  Pressure : PoolKey -> float;
}.

Definition StaticPressure (lambda : float) : PoolKey -> float := fun _ => lambda.

(** [seq] numbers the sandbox ids minted so far. *)
Record Controller : Type := {
  pool : Pool;
  autoscaler : Autoscaler;
  keys : list ManagedKey;
  maxBootPerTick : Z;
  capacityWired : bool;
  warmRequestMilli : Z;
  warmBudgetMilli : Z;
  warmHeadroomMilli : Z;
  warmBootDeadline : Z;
  seq : nat;
}.

Definition set_pool (p : Pool) (n : nat) (c : Controller) : Controller :=
  {| pool := p; autoscaler := autoscaler c; keys := keys c;
     maxBootPerTick := maxBootPerTick c; capacityWired := capacityWired c;
     warmRequestMilli := warmRequestMilli c; warmBudgetMilli := warmBudgetMilli c;
     warmHeadroomMilli := warmHeadroomMilli c; warmBootDeadline := warmBootDeadline c;
     seq := n |}.
Definition set_autoscaler (a : Autoscaler) (c : Controller) : Controller :=
  {| pool := pool c; autoscaler := a; keys := keys c;
     maxBootPerTick := maxBootPerTick c; capacityWired := capacityWired c;
     warmRequestMilli := warmRequestMilli c; warmBudgetMilli := warmBudgetMilli c;
     warmHeadroomMilli := warmHeadroomMilli c; warmBootDeadline := warmBootDeadline c;
     seq := seq c |}.

(** No key at all is a programming error (panic). *)
Definition NewController (p : Pool) (a : Autoscaler) (ks : list ManagedKey) : option Controller :=
  match ks with
  | [] => None
  | _ => Some {| pool := p; autoscaler := a; keys := ks; maxBootPerTick := 4;
                 capacityWired := false; warmRequestMilli := 0; warmBudgetMilli := 0;
                 warmHeadroomMilli := 0; warmBootDeadline := 0; seq := 0 |}
  end.

(** Nanoseconds. *)
Definition DefaultWarmBootDeadline : Z := 120 * 1000000000.

Definition SetCapacity (request budget headroom deadline : Z) (c : Controller) : Controller :=
  {| pool := pool c; autoscaler := autoscaler c; keys := keys c;
     maxBootPerTick := maxBootPerTick c; capacityWired := true;
     warmRequestMilli := request; warmBudgetMilli := budget;
     warmHeadroomMilli := if 0 <? headroom then headroom else request;
     warmBootDeadline := if 0 <? deadline then deadline else DefaultWarmBootDeadline;
     seq := seq c |}.

(** Go's [/] and [%] truncate. *)
Definition floorDiv (a b : Z) : Z :=
  let q := Z.quot a b in
  if negb (Z.rem a b =? 0) && xorb (a <? 0) (b <? 0) then q - 1 else q.

Definition WarmCapacityCap (unboundWarm freeMilli headroomMilli budgetMilli requestMilli : Z) : Z :=
  if requestMilli <=? 0 then unboundWarm
  else
    let headroomMilli := if headroomMilli <? 0 then 0 else headroomMilli in
    let allowed := wrap64 (unboundWarm + floorDiv (wrap64 (freeMilli - headroomMilli)) requestMilli) in
    let allowed :=
      if 0 <? budgetMilli then
        let budgetCap := Z.quot budgetMilli requestMilli in
        if budgetCap <? allowed then budgetCap else allowed
      else allowed in
    if allowed <? 0 then 0 else allowed.

Definition liveFor (inv : gmap PoolKey Counts) (key : PoolKey) : Z :=
  let c := default no_counts (inv !! key) in
  Z.of_nat (Warming c) + Z.of_nat (Ready c).

(** [free]: the capacity reading taken for this call. *)
Definition capTarget (c : Controller) (free : result string Z) (key : PoolKey) (target : Z) : Z :=
  if negb (capacityWired c) || (warmRequestMilli c <=? 0) then target
  else
    match free with
    | Err _ => target
    | Ok freeMilli =>
        let capped := WarmCapacityCap (liveFor (Inventory (pool c)) key) freeMilli
          (warmHeadroomMilli c) (warmBudgetMilli c) (warmRequestMilli c) in
        if capped <? target then capped else target
    end.

Section tick.
Context (math_log : float -> float) (int_oob : float -> Z).
Context (physical : bool) (boot down : string -> option string) (mint : nat -> string).
Context (capacity : PoolKey -> result string Z).

(** [n] replenish boots in a row; the first boot error is kept. *)
Fixpoint boot_n (n : nat) (p : Pool) (seq : nat) (key : PoolKey) (now : Z)
    (firstErr : option string) : Pool * nat * option string :=
  match n with
  | O => (p, seq, firstErr)
  | S n =>
      let '(p, res) := Boot physical boot p key (mint seq) now in
      let firstErr := match firstErr, res with None, Err e => Some e | _, _ => firstErr end in
      boot_n n p (S seq) key now firstErr
  end.

(** How many boots a deficit starts in one pass. *)
Definition burst (c : Controller) (deficit : Z) : Z :=
  if maxBootPerTick c <? deficit then maxBootPerTick c else deficit.

Record TickOut : Type := {
  targets : gmap PoolKey Z;
  sizingErr : option SizingError;
  bootErr : option string;
}.

(** One managed key of a Tick; [inv] is the inventory snapshot of the pass. *)
Definition tick_key (inv : gmap PoolKey Counts) (now : Z) (st : Controller * TickOut)
    (mk : ManagedKey) : Controller * TickOut :=
  let '(c, out) := st in
  match Reconcile math_log int_oob (autoscaler c) (MKey mk) (Pressure mk (MKey mk)) (Class mk) with
  | (a, Err e) =>
      (set_autoscaler a c,
       {| targets := targets out;
          sizingErr := match sizingErr out with None => Some e | s => s end;
          bootErr := bootErr out |})
  | (a, Ok target) =>
      let c := set_autoscaler a c in
      let target := capTarget c (capacity (MKey mk)) (MKey mk) target in
      let out := {| targets := <[MKey mk := target]> (targets out);
                    sizingErr := sizingErr out; bootErr := bootErr out |} in
      let live := liveFor inv (MKey mk) in
      if live <? target then
        let '(p, n, e) := boot_n (Z.to_nat (burst c (target - live))) (pool c) (seq c)
                            (MKey mk) now (bootErr out) in
        (set_pool p n c, {| targets := targets out; sizingErr := sizingErr out; bootErr := e |})
      else if target <? live then
        (set_pool (ScaleDown physical down (pool c) (MKey mk) (live - target)).1 (seq c) c, out)
      else (c, out)
  end.

(** [alive]: the context is not cancelled. The settled reaper does not touch the
    pool. *)
Definition Tick (alive : bool) (now : Z) (c : Controller) : option (Controller * TickOut) :=
  if negb alive then None
  else
    let c := foldl (fun c mk =>
      if 0 <? warmBootDeadline c
      then set_pool (ReapStaleWarming physical down (pool c) (MKey mk) now (warmBootDeadline c)).1
             (seq c) c
      else c) c (keys c) in
    Some (foldl (tick_key (Inventory (pool c)) now)
            (c, {| targets := ∅; sizingErr := None; bootErr := None |}) (keys c)).

(** The bind-miss trigger. *)
Definition ReplenishKey (alive : bool) (now : Z) (c : Controller) (key : PoolKey) : Controller :=
  if negb (existsb (fun mk => bool_decide (MKey mk = key)) (keys c)) || negb alive then c
  else
    let target := Current (autoscaler c) key in
    if target <=? 0 then c
    else
      let target := capTarget c (capacity key) key target in
      if target <=? 0 then c
      else
        let deficit := target - liveFor (Inventory (pool c)) key in
        if 0 <? deficit then
          let '(p, n, _) := boot_n (Z.to_nat (burst c deficit)) (pool c) (seq c) key now None in
          set_pool p n c
        else c.
End tick.

Definition Targets (c : Controller) : gmap PoolKey Z :=
  foldl (fun out mk => <[MKey mk := Current (autoscaler c) (MKey mk)]> out) ∅ (keys c).
