(* ===== verification/ControllerProps.v ===== *)
(** Correctness of the sizing policy, the autoscaler's stabilization band, the
    capacity cap and the controller's replenishment. *)
From S2P Require Import Prelude Pool PoolProps Sizing Controller.
From Stdlib Require Import Floats.
Open Scope Z_scope.

(** * The capacity cap *)

Lemma floorDiv_div a b : 0 < b -> floorDiv a b = a / b.
Proof.
  intros Hb. unfold floorDiv.
  pose proof (Z.quot_rem' a b) as Hqr.
  destruct (Z.ltb_spec a 0) as [Ha|Ha], (Z.ltb_spec b 0); try lia; cbn.
  - pose proof (Z.rem_bound_pos_neg a b ltac:(lia) ltac:(lia)) as Hr.
    destruct (Z.eqb_spec (Z.rem a b) 0) as [E|E]; cbn.
    + apply (Z.div_unique _ _ _ 0); lia.
    + apply (Z.div_unique _ _ _ (Z.rem a b + b)); lia.
  - rewrite andb_false_r. rewrite Z.quot_div_nonneg; lia.
Qed.

(** Room left for [n] warm pods: what the cap may grant. *)
Definition fits (unbound free headroom budget request n : Z) : Prop :=
  (n - unbound) * request <= free - headroom /\ (0 < budget -> n * request <= budget).

Lemma div_max a b n : 0 < b -> n <= a / b <-> n * b <= a.
Proof.
  intros Hb. split; intros H.
  - pose proof (Z.mul_div_le a b Hb). nia.
  - apply Z.div_le_lower_bound; lia.
Qed.

Lemma cap_unfold unbound free headroom budget request :
  0 < request -> 0 <= headroom -> int64 (free - headroom) ->
  int64 (unbound + (free - headroom) / request) ->
  WarmCapacityCap unbound free headroom budget request =
  Z.max 0 (let room := unbound + (free - headroom) / request in
           if 0 <? budget then Z.min room (budget / request) else room).
Proof.
  intros Hr Hh H1 H2. unfold WarmCapacityCap.
  rewrite (proj2 (Z.leb_gt request 0)), (proj2 (Z.ltb_ge headroom 0)) by lia.
  rewrite (wrap64_id _ H1), floorDiv_div, (wrap64_id _ H2) by lia. cbv zeta.
  destruct (Z.ltb_spec 0 budget) as [Hb|Hb].
  - rewrite Z.quot_div_nonneg by lia.
    destruct (Z.ltb_spec (budget / request) (unbound + (free - headroom) / request));
      match goal with |- context [?a <? 0] => destruct (Z.ltb_spec a 0) end; lia.
  - destruct (Z.ltb_spec (unbound + (free - headroom) / request) 0); lia.
Qed.

(** * The autoscaler *)

(** The successful readings of one key, most recent first, folded into its
    effective target. *)
Definition fold_history (a : Autoscaler) (key : PoolKey) (ds : list Z) : Autoscaler :=
  foldr (fun d a => (fold_reading a key d).1) a ds.

Record low_inv (key : PoolKey) (ds : list Z) (a : Autoscaler) : Prop := {
  li_low : 0 <= low a key;
  li_below : low a key < stabilizationTicks a;
  li_len : low a key <= Z.of_nat (length ds);
  li_all : Forall (fun d => d < default 0 (current a !! key)) (take (Z.to_nat (low a key)) ds);
  li_known : current a !! key = None -> ds = [];
}.

Lemma fold_reading_eq a key d :
  let cur := default d (current a !! key) in
  let n := low a key + 1 in
  let a' := (fold_reading a key d).1 in
  policy a' = policy a /\ stabilizationTicks a' = stabilizationTicks a /\
  (fold_reading a key d).2 = Current a' key /\
  is_Some (current a' !! key) /\
  ((cur < d \/ cur = d) /\ Current a' key = d /\ low a' key = 0 \/
   d < cur /\ stabilizationTicks a <= n /\ Current a' key = d /\ low a' key = 0 \/
   d < cur /\ n < stabilizationTicks a /\ Current a' key = cur /\ low a' key = n).
Proof.
  cbv zeta. unfold fold_reading, Current, low.
  set (cur := default d (current a !! key)). set (n := default 0 (lowTicks a !! key) + 1).
  destruct (Z.ltb_spec cur d), (Z.ltb_spec d cur); [lia|..];
    [|destruct (Z.leb_spec (stabilizationTicks a) n)|]; cbn; rewrite !lookup_insert_eq; cbn;
    (split_and!; [done..|]); [left|right; left|right; right|left]; lia.
Qed.

Lemma low_inv_step key ds d a :
  0 < stabilizationTicks a ->
  low_inv key ds a -> low_inv key (d :: ds) (fold_reading a key d).1.
Proof.
  intros Hs [H1 H2 H3 H4 H5].
  destruct (fold_reading_eq a key d) as (_ & Est & _ & [c Hc] & Hcase).
  assert (Hz : low (fold_reading a key d).1 key = 0 ->
    low_inv key (d :: ds) (fold_reading a key d).1).
  { intros Hz. split; rewrite ?Hz, ?Est; cbn [length]; [lia|lia|lia|constructor|].
    rewrite Hc. done. }
  destruct Hcase as [(_ & _ & Hz')|[(_ & _ & _ & Hz')|(Hlt & Hn & Hcur & Hlow)]]; [auto..|].
  split; rewrite ?Hlow, ?Est; cbn [length]; [lia|lia|lia| |by rewrite Hc].
  unfold Current in Hcur. rewrite Hcur.
  rewrite Z2Nat.inj_add, Nat.add_comm by lia. cbn [Z.to_nat Pos.to_nat Pos.iter_op Nat.add take].
  apply Forall_cons. split; [done|].
  destruct (current a !! key) as [cur|] eqn:Hk; cbn in *; [done|lia].
Qed.

Lemma fold_history_cons a key d ds :
  fold_history a key (d :: ds) = (fold_reading (fold_history a key ds) key d).1.
Proof. done. Qed.

Lemma fold_history_stab a key ds :
  stabilizationTicks (fold_history a key ds) = stabilizationTicks a.
Proof.
  induction ds as [|d ds IH]; [done|]. rewrite fold_history_cons.
  destruct (fold_reading_eq (fold_history a key ds) key d) as (_ & -> & _). exact IH.
Qed.

Lemma NewAutoscaler_pos p ticks : 0 < stabilizationTicks (NewAutoscaler p ticks).
Proof. cbn. destruct (Z.leb_spec ticks 0); unfold DefaultStabilizationTicks; lia. Qed.

Lemma low_inv_history p ticks key ds :
  low_inv key ds (fold_history (NewAutoscaler p ticks) key ds).
Proof.
  pose proof (NewAutoscaler_pos p ticks) as Hs.
  induction ds as [|d ds IH]; [|rewrite fold_history_cons].
  - change (fold_history (NewAutoscaler p ticks) key []) with (NewAutoscaler p ticks).
    assert (Hl : low (NewAutoscaler p ticks) key = 0) by done.
    split; rewrite ?Hl; [lia|lia|cbn; lia|constructor|done].
  - apply low_inv_step; [by rewrite fold_history_stab|exact IH].
Qed.

(** * Live counts of the pool *)

(** Every tracked pointer points somewhere. *)
Definition pointers_ok (p : Pool) : Prop :=
  forall id a, entries p !! id = Some a -> is_Some (heap p !! a).

Definition warmth (sb : Sandbox) : bool := is_warming sb || in_state StateReady sb.

Lemma census_or key l :
  census warmth key l = (census is_warming key l + census (in_state StateReady) key l)%nat.
Proof.
  induction l as [|sb l IH] using rev_ind; [done|]. rewrite !census_snoc, IH.
  unfold warmth, is_warming, in_state.
  destruct (bool_decide (Key sb = key)); cbn; [|lia].
  repeat case_bool_decide; cbn; try lia. congruence.
Qed.

Lemma census_perm f key l l' : l ≡ₚ l' -> census f key l = census f key l'.
Proof. intros Hp. unfold census. by rewrite Hp. Qed.

(** The controller's live count of a key. *)
Definition live (p : Pool) (key : PoolKey) : Z :=
  Z.of_nat (census warmth key (live_sandboxes p)).

Lemma liveFor_live p key : liveFor (Inventory p) key = live p key.
Proof.
  unfold liveFor, live, Inventory. rewrite Inventory_foldl. cbn.
  rewrite census_or. lia.
Qed.

Lemma live_sandboxes_heap p a sb :
  pointers_ok p -> heap p !! a = None ->
  live_sandboxes (upd_heap <[a := sb]> p) = live_sandboxes p.
Proof.
  intros Hok Ha. unfold live_sandboxes. cbn.
  assert (H : forall l : list (string * nat), (forall kv, kv ∈ l -> is_Some (heap p !! kv.2)) ->
    omap (fun kv : string * nat => <[a := sb]> (heap p) !! kv.2) l = omap (fun kv => heap p !! kv.2) l).
  { induction l as [|kv l IH]; intros Hl; cbn; [done|].
    rewrite lookup_insert_ne.
    - by rewrite IH by (intros; apply Hl; by right).
    - intros ->. destruct (Hl kv ltac:(left)) as [? ?]. congruence. }
  apply H. intros [id b] Hin%elem_of_map_to_list. by eapply Hok.
Qed.

Lemma Boot1_live p key id now :
  pointers_ok p -> entries p !! id = None ->
  live_sandboxes (Boot1 p key id now) ≡ₚ
  {| ID := id; Key := key; State := StateWarming; BoundRun := ""; CreatedAt := now; ReadyAt := 0 |}
    :: live_sandboxes p.
Proof.
  intros Hok Hid. rewrite <- (live_sandboxes_heap p (fresh_ptr p)
    {| ID := id; Key := key; State := StateWarming; BoundRun := ""; CreatedAt := now; ReadyAt := 0 |})
    by (done || apply fresh_ptr_None).
  unfold live_sandboxes, Boot1. cbn.
  rewrite (map_to_list_insert (entries p) id (fresh_ptr p)) by done. cbn.
  by rewrite lookup_insert_eq.
Qed.

Lemma Boot_live physical boot p key id now key' :
  pointers_ok p -> entries p !! id = None ->
  let '(p', res) := Boot physical boot p key id now in
  live p' key' = live p key' + (if is_ok res && bool_decide (key' = key) then 1 else 0) /\
  pointers_ok p' /\ (forall i, i ≠ id -> entries p !! i = None -> entries p' !! i = None) /\
  is_ok res = match boot_err physical boot id with None => true | Some _ => false end.
Proof.
  intros Hok Hid. unfold Boot, Boot2. destruct (boot_err physical boot id) as [e|]; cbn [is_ok].
  - split_and!; try done.
    + unfold live. cbn [andb]. rewrite Z.add_0_r. do 2 f_equal.
      unfold live_sandboxes, Boot1. cbn. rewrite delete_insert_id by done.
      apply (live_sandboxes_heap p); [done|apply fresh_ptr_None].
    + intros i b. cbn. rewrite delete_insert_id by done. intros Hb.
      destruct (Hok _ _ Hb) as [sb Hsb]. exists sb. rewrite lookup_insert_ne; [done|].
      intros <-. by rewrite fresh_ptr_None in Hsb.
    + intros i Hi Hn. cbn. by rewrite delete_insert_id.
  - split_and!; try done.
    + unfold live. rewrite (census_perm _ _ _ _ (Boot1_live p key id now Hok Hid)).
      rewrite (census_perm _ _ _ _ (Permutation_cons_append _ _)), census_snoc. cbn [Key].
      rewrite Nat2Z.inj_add. f_equal.
      unfold warmth, is_warming, in_state; cbn.
      by repeat case_bool_decide; try congruence.
    + intros i b. cbn. rewrite lookup_insert. case_decide as Hi; intros Hb; simplify_eq.
      * by rewrite lookup_insert_eq.
      * destruct (Hok _ _ Hb) as [sb Hsb]. exists sb. rewrite lookup_insert_ne; [done|].
        intros <-. by rewrite fresh_ptr_None in Hsb.
    + intros i Hi Hn. cbn. by rewrite lookup_insert_ne.
Qed.

(** Minted ids are new. *)
Definition fresh_ids (mint : nat -> string) (n : nat) (p : Pool) : Prop :=
  (forall i j, mint i = mint j -> i = j) /\ forall i, (n <= i)%nat -> entries p !! mint i = None.

Lemma boot_n_live physical boot mint n p s key now e key' :
  pointers_ok p -> fresh_ids mint s p ->
  let '(p', s', _) := boot_n physical boot mint n p s key now e in
  pointers_ok p' /\ fresh_ids mint s' p' /\ s' = (s + n)%nat /\
  live p key' <= live p' key' <= live p key' + (if bool_decide (key' = key) then Z.of_nat n else 0) /\
  ((forall i, boot_err physical boot i = None) ->
   live p' key' = live p key' + (if bool_decide (key' = key) then Z.of_nat n else 0)).
Proof.
  revert p s e. induction n as [|n IH]; intros p s e Hok [Hinj Hfr]; cbn [boot_n].
  { split_and!; try done; try lia; intros; case_bool_decide; lia. }
  pose proof (Boot_live physical boot p key (mint s) now key' Hok (Hfr s ltac:(lia))) as HB.
  destruct (Boot _ _ _ _ _ _) as [p1 res]. destruct HB as (Hl & Hok1 & Hfr1 & Hres).
  assert (Hids : fresh_ids mint (S s) p1).
  { split; [done|]. intros i Hi. apply Hfr1; [intros ?%Hinj; lia|apply Hfr; lia]. }
  match goal with |- context [boot_n _ _ _ n p1 (S s) key now ?e'] => specialize (IH p1 (S s) e' Hok1 Hids) end.
  destruct (boot_n _ _ _ _ _ _ _ _ _) as [[p' s'] e'].
  destruct IH as (H1 & H2 & H3 & H4 & H5).
  split_and!; [done|done|lia|..];
    destruct (is_ok res) eqn:Hok'; cbn in Hl; case_bool_decide; try lia;
    intros Hall; rewrite (Hall (mint s)) in Hres; try done; rewrite (H5 Hall), Hl; lia.
Qed.

(** * Correctness *)

(** the capacity cap is exact. For a real pod size and readings that do not
    overflow int64, the cap is the largest count of unbound warm pods that
    leaves the headroom free and keeps the total within the budget, and 0 when
    not even zero pods fit. *)
Theorem capacity_cap_exact unbound free headroom budget request :
  0 < request -> 0 <= headroom -> int64 (free - headroom) ->
  int64 (unbound + (free - headroom) / request) ->
  let cap := WarmCapacityCap unbound free headroom budget request in
  0 <= cap /\
  (fits unbound free headroom budget request cap \/
   cap = 0 /\ ~ fits unbound free headroom budget request 0) /\
  forall n, 0 <= n -> fits unbound free headroom budget request n -> n <= cap.
Proof.
  intros Hr Hh H1 H2. cbv zeta. rewrite cap_unfold by done. cbv zeta.
  assert (Hfit : forall n, fits unbound free headroom budget request n <->
    n <= unbound + (free - headroom) / request /\ (0 < budget -> n <= budget / request)).
  { intros n. unfold fits. rewrite <- !div_max by lia. split; intros [? ?]; split; auto; lia. }
  destruct (Z.ltb_spec 0 budget); repeat setoid_rewrite Hfit; split_and!; intros; try lia;
    match goal with |- context [Z.max 0 ?x] => destruct (Z.le_gt_cases 0 x) end;
    solve [left; lia | right; lia].
Qed.

(** Capacity only vetoes. The cap never raises a target, an unwired or
    unreadable capacity source or an unknown pod size leaves it unchanged, and a
    lowered target is exactly the cap. *)
Theorem capacity_only_vetoes c free key target :
  let t := capTarget c free key target in
  t <= target /\
  (capacityWired c = false \/ warmRequestMilli c <= 0 \/ is_ok free = false -> t = target) /\
  (t < target -> exists milli, free = Ok milli /\
     t = WarmCapacityCap (live (pool c) key) milli (warmHeadroomMilli c) (warmBudgetMilli c)
           (warmRequestMilli c)).
Proof.
  cbv zeta. unfold capTarget. rewrite liveFor_live.
  destruct (capacityWired c) eqn:Hw; cbn; [|split_and!; lia].
  destruct (Z.leb_spec (warmRequestMilli c) 0); cbn; [split_and!; lia|].
  destruct free as [milli|e]; [|split_and!; lia].
  destruct (Z.ltb_spec (WarmCapacityCap (live (pool c) key) milli (warmHeadroomMilli c)
    (warmBudgetMilli c) (warmRequestMilli c)) target); split_and!; try lia.
  - cbn. intros [?|[?|?]]; [done|lia|done].
  - eauto.
Qed.

(** idle cost is bounded at both ends. A batch key is sized 0 whatever the
    pressure, an interactive key between the floor and the ceiling whatever the
    pressure, and an unknown class or a key without a measured replenish time is
    an error, never a default size. *)
Theorem target_bounded math_log int_oob p key lambda :
  MinReady p <= MaxReady p ->
  Target math_log int_oob p key lambda ClassBatch = Ok 0 /\
  (forall raw, Target math_log int_oob p key lambda (ClassOther raw) =
               Err (ErrUnknownClass (ClassOther raw))) /\
  match Target math_log int_oob p key lambda ClassInteractive with
  | Ok n => MinReady p <= n <= MaxReady p /\ is_Some (ReplenishSByKey p !! key)
  | Err e => ReplenishSByKey p !! key = None -> e = ErrNoReplenish key
  end.
Proof.
  intros Hb. split_and!; [done..|]. cbn. unfold BaseStock.
  destruct (ReplenishSByKey p !! key) as [r|] eqn:Hr; [|done].
  destruct (RecommendBuffer _ _ _ _ _) as [base|e]; [|done].
  unfold clamp. split; [lia|done].
Qed.

(** The shipped gVisor curve. With the measured 1.716 s replenish time the
    default policy keeps 2, 2 and 3 sandboxes ready at the light, medium and
    heavy claim rates and none for a batch key; the raw buffers at the same rates
    are 1, 2 and 3 for gVisor and 3, 6 and 13 for Kata (3 to 4.3 times more). *)
Theorem gvisor_curve_pinned math_log int_oob :
  let key := demo_key in
  let p := NewDefaultPolicy {[key := ReplenishGVisorSeconds]} in
  map (fun l => Target math_log int_oob p key l ClassInteractive)
    [LambdaLight; LambdaMedium; LambdaHeavy] = [Ok 2; Ok 2; Ok 3] /\
  Target math_log int_oob p key LambdaHeavy ClassBatch = Ok 0 /\
  map (fun l => RecommendBuffer math_log int_oob l ReplenishGVisorSeconds DefaultServiceLevel)
    [LambdaLight; LambdaMedium; LambdaHeavy] = [Ok 1; Ok 2; Ok 3] /\
  map (fun l => RecommendBuffer math_log int_oob l ReplenishKataSeconds DefaultServiceLevel)
    [LambdaLight; LambdaMedium; LambdaHeavy] = [Ok 3; Ok 6; Ok 13].
Proof. vm_compute. split_and!; reflexivity. Qed.

(** Hysteresis of the autoscaler. Over any history of readings of a key, a
    new reading above the effective target is adopted at once; the effective
    target goes down only when the readings of the last [stabilizationTicks]
    ticks, this one included, were all below it; otherwise it does not move, and
    it never sits below the reading just folded. *)
Theorem autoscaler_hysteresis p ticks key ds d :
  let a := fold_history (NewAutoscaler p ticks) key ds in
  let before := default d (current a !! key) in
  let after := (fold_reading a key d).2 in
  let band := Z.to_nat (stabilizationTicks (NewAutoscaler p ticks)) in
  d <= after /\ (before <= d -> after = d) /\
  (after < before -> after = d /\ (band <= length (d :: ds))%nat /\
     Forall (fun x => x < before) (take band (d :: ds))) /\
  (d < before -> after = d \/ after = before).
Proof.
  cbv zeta.
  pose proof (low_inv_history p ticks key ds) as [H1 H2 H3 H4 H5].
  pose proof (fold_history_stab (NewAutoscaler p ticks) key ds) as Hs.
  set (a := fold_history (NewAutoscaler p ticks) key ds) in *.
  destruct (fold_reading_eq a key d) as (_ & _ & -> & _ & Hcase).
  pose proof (NewAutoscaler_pos p ticks) as Hpos. rewrite <- Hs in *.
  set (band := stabilizationTicks a) in *.
  destruct Hcase as [([Hd|Hd] & -> & _)|[(Hd & Hn & -> & _)|(Hd & Hn & -> & _)]];
    [split_and!; lia..| |split_and!; auto; lia].
  split_and!; try (auto; lia). intros _. split; [done|].
  assert (Hband : Z.to_nat band = S (Z.to_nat (low a key))) by lia. rewrite Hband.
  split; [cbn [length]; lia|]. cbn [take]. apply Forall_cons. split; [done|].
  destruct (current a !! key) as [cur|] eqn:Hk; cbn in *; [done|lia].
Qed.

(** replenishment is bounded. Answering a bind miss starts at most
    [maxBootPerTick] boots, only for a managed key and a live context; it never
    lowers a live count, never lifts the key's live count above the effective
    target, leaves the other keys' counts alone, and with a healthy provisioner
    it closes the deficit up to the burst bound. *)
Theorem replenish_bounded physical boot mint capacity alive now c key :
  pointers_ok (pool c) -> fresh_ids mint (seq c) (pool c) -> 0 <= maxBootPerTick c ->
  let c' := ReplenishKey physical boot mint capacity alive now c key in
  let target := capTarget c (capacity key) key (Current (autoscaler c) key) in
  (seq c' <= seq c + Z.to_nat (maxBootPerTick c))%nat /\
  live (pool c) key <= live (pool c') key <= Z.max (live (pool c) key) target /\
  (forall key', key' ≠ key -> live (pool c') key' = live (pool c) key') /\
  ((forall i, boot_err physical boot i = None) -> alive = true ->
   existsb (fun mk => bool_decide (MKey mk = key)) (keys c) = true ->
   0 < Current (autoscaler c) key ->
   live (pool c') key = Z.max (live (pool c) key)
                          (Z.min target (live (pool c) key + maxBootPerTick c))).
Proof.
  intros Hok Hfr Hmax. cbv zeta. unfold ReplenishKey. rewrite liveFor_live.
  assert (Hl0 : 0 <= live (pool c) key) by (unfold live; lia).
  destruct (existsb _ _) eqn:Hex; cbn [negb orb]; [|split_and!; try done; lia].
  destruct alive; cbn [negb]; [|split_and!; try done; lia].
  destruct (Z.leb_spec (Current (autoscaler c) key) 0); [split_and!; try done; lia|].
  set (target := capTarget _ _ _ _).
  destruct (Z.leb_spec target 0); [split_and!; try done; lia|].
  destruct (Z.ltb_spec 0 (target - live (pool c) key)); [|split_and!; try done; lia].
  set (b := Z.to_nat (burst c (target - live (pool c) key))).
  assert (Hb : Z.of_nat b = Z.min (maxBootPerTick c) (target - live (pool c) key)).
  { unfold b, burst. destruct (Z.ltb_spec (maxBootPerTick c) (target - live (pool c) key)); lia. }
  pose proof (fun key' => boot_n_live physical boot mint b (pool c) (seq c) key now None key' Hok Hfr) as HB.
  destruct (boot_n _ _ _ _ _ _ _ _ _) as [[p' s'] e']. cbn [pool seq set_pool].
  destruct (HB key) as (_ & _ & Hs & Hl & Hall).
  rewrite bool_decide_eq_true_2 in Hl, Hall by done.
  split_and!; [lia|lia|lia| |].
  - intros key' Hne. destruct (HB key') as (_ & _ & _ & Hl' & _).
    rewrite bool_decide_eq_false_2 in Hl' by done. lia.
  - intros Hh _ _ _. rewrite (Hall Hh). lia.
Qed.

(** * Witnesses *)

Lemma capacity_cap_exact_witness :
  WarmCapacityCap 3 700 500 0 500 = 3 /\
  forall n, 0 <= n -> fits 3 (-200) 500 0 500 n -> n <= 1.
Proof.
  split; [reflexivity|].
  pose proof (capacity_cap_exact 3 (-200) 500 0 500 ltac:(lia) ltac:(lia)
    ltac:(unfold int64; lia) ltac:(vm_compute; split; [discriminate|reflexivity])) as (_ & _ & H).
  exact H.
Defined.

Lemma target_bounded_witness :
  2 <= 10 /\
  match Target (fun x => x) (fun _ => 0) (NewDefaultPolicy {[demo_key := 3.56%float]}) demo_key
    100%float ClassInteractive with
  | Ok n => 2 <= n <= 10
  | Err _ => False
  end.
Proof.
  split; [lia|].
  destruct (target_bounded (fun x => x) (fun _ => 0) (NewDefaultPolicy {[demo_key := 3.56%float]}) demo_key
    100%float ltac:(cbn; unfold DefaultMinReady, DefaultMaxReady; lia)) as (_ & _ & H).
  revert H.
  destruct (Target _ _ _ _ _ _) as [n|e] eqn:Ht; [intros [Hn _]; exact Hn|].
  exfalso. vm_compute in Ht. discriminate.
Defined.

(** A pool with nothing in it and an effective target of 3. *)
Definition demo_controller : Controller :=
  {| pool := NewPool;
     autoscaler := (fold_reading (NewAutoscaler (NewDefaultPolicy ∅) 3) demo_key 3).1;
     keys := [{| MKey := demo_key; Class := ClassInteractive; Pressure := StaticPressure 0 |}];
     maxBootPerTick := 2; capacityWired := false; warmRequestMilli := 0; warmBudgetMilli := 0;
     warmHeadroomMilli := 0; warmBootDeadline := 0; seq := 0 |}.

Lemma replenish_bounded_witness :
  live (pool (ReplenishKey true (fun _ => None) pretty (fun _ => Ok 0) true 0
                demo_controller demo_key)) demo_key = 2.
Proof.
  destruct (replenish_bounded true (fun _ => None) pretty (fun _ => Ok 0) true 0
    demo_controller demo_key) as (_ & _ & _ & H).
  - intros id a Ha. cbn in Ha. rewrite lookup_empty in Ha. discriminate.
  - split; [intros i j Hij; exact (inj pretty i j Hij)|intros i _; reflexivity].
  - cbn. lia.
  - rewrite H; [vm_compute; reflexivity|reflexivity|reflexivity|vm_compute; reflexivity|vm_compute; reflexivity].
Defined.
