(* ===== verification/Resume.v ===== *)
(** The durable pause/resume engine (src/pkg/coord/resume.go, resumeprod.go,
    credpause.go, credsignal.go).

    The three pause tables (items, production items, credentials) hold the same
    episode columns; [Episode] is one row, with the table's own columns in
    [Extra]. Each statement is one atomic transition, and the database clock an
    argument. Durations and times are in nanoseconds. *)
From S2P Require Import Prelude Machine.
Open Scope Z_scope.

(** * Policy *)

(** [ResumeConfig]; [CredPauseConfig] has the same fields. *)
Record ResumeConfig : Set := {
  PauseTable : string;
  BackoffBase : Z;
  BackoffCap : Z;
  BackoffReset : Z;
  ResumeBatch : Z;
}.

Definition second : Z := 1000000000.
Definition millisecond : Z := 1000000.

Definition DefaultResumeConfig : ResumeConfig :=
  {| PauseTable := ""; BackoffBase := second; BackoffCap := 5 * 60 * second;
     BackoffReset := 10 * 60 * second; ResumeBatch := 64 |}.
Definition DefaultCredPauseConfig : ResumeConfig :=
  {| PauseTable := ""; BackoffBase := second; BackoffCap := 5 * 60 * second;
     BackoffReset := 10 * 60 * second; ResumeBatch := 64 |}.
Definition DefaultProdResumeConfig : ResumeConfig :=
  {| PauseTable := "coord.run_pause"; BackoffBase := BackoffBase DefaultResumeConfig;
     BackoffCap := BackoffCap DefaultResumeConfig; BackoffReset := BackoffReset DefaultResumeConfig;
     ResumeBatch := ResumeBatch DefaultResumeConfig |}.

Inductive ConfigError : Set := ErrNoTable | ErrNotPositive | ErrCapBelowBase.

Definition validate (c : ResumeConfig) : option ConfigError :=
  if bool_decide (PauseTable c = "") then Some ErrNoTable
  else if (BackoffBase c <=? 0) || (BackoffCap c <=? 0) || (BackoffReset c <=? 0)
  then Some ErrNotPositive
  else if BackoffCap c <? BackoffBase c then Some ErrCapBelowBase
  else None.

Definition batchParam (c : ResumeConfig) : Z :=
  if ResumeBatch c <=? 0 then 2147483647 else ResumeBatch c.

Definition planAttempt (priorAttempt priorResumedAt : option Z) (now reset : Z) : Z :=
  match priorAttempt with
  | None => 1
  | Some n =>
      match priorResumedAt with
      | None => n
      | Some t => if now - t <=? reset then n + 1 else 1
      end
  end.

(** Rounding a non-negative integer to the nearest binary64 significand (ties to
    even): what float64(n), and the product of two floats whose exact value is
    [n] times a power of two, do. *)
Definition rnd53 (n : Z) : Z :=
  let e := Z.max 0 (Z.log2 n - 52) in
  let q := n / 2 ^ e in
  let r := n mod 2 ^ e in
  let half := 2 ^ e / 2 in
  let up := if e =? 0 then false
            else if half <? r then true
            else if r =? half then Z.odd q else false in
  (if up then q + 1 else q) * 2 ^ e.

(** [k] is the random draw: rand.Float64 returns k / 2^53 with 0 <= k < 2^53. *)
Definition EqualJitter (base cap attempt k : Z) : Z :=
  let attempt := if attempt <? 1 then 1 else attempt in
  let shift := attempt - 1 in
  if 62 <? shift then cap
  else
    let exp := wrap64 (base * 2 ^ shift) in
    let exp := if (exp <=? 0) || (cap <? exp) then cap else exp in
    let half := rnd53 exp / 2 in
    let jitter := rnd53 (k * rnd53 half) / 2 ^ 53 in
    half + jitter.

Definition planDelay (c : ResumeConfig) (k attempt : Z) (retryAfter : option Z) : Z :=
  match retryAfter with
  | Some d => if 0 <? d then d else EqualJitter (BackoffBase c) (BackoffCap c) attempt k
  | None => EqualJitter (BackoffBase c) (BackoffCap c) attempt k
  end.

(** * The episode table *)

Record Episode (X : Type) : Type := {
  retry_after_ms : option Z;
  attempt : Z;
  resume_at : option Z;
  paused_at : Z;
  resumed_at : option Z;
  Extra : X;
}.
Arguments retry_after_ms {X} _.
Arguments attempt {X} _.
Arguments resume_at {X} _.
Arguments paused_at {X} _.
Arguments resumed_at {X} _.
Arguments Extra {X} _.

Section ledger.
Context {K X : Type} `{Countable K}.

Definition stamp_resumed (now : Z) (e : Episode X) : Episode X :=
  {| retry_after_ms := retry_after_ms e; attempt := attempt e; resume_at := resume_at e;
     paused_at := paused_at e; resumed_at := Some now; Extra := Extra e |}.

(** The attempt of a new signal, from the row read under FOR UPDATE. *)
Definition next_attempt (c : ResumeConfig) (now : Z) (led : gmap K (Episode X)) (key : K) : Z :=
  planAttempt (attempt <$> (led !! key)) (led !! key ≫= resumed_at) now (BackoffReset c).

(** WHERE resumed_at IS NULL (AND resume_at IS NOT NULL) *)
Definition timed (kv : K * Episode X) : Prop := resumed_at kv.2 = None /\ resume_at kv.2 ≠ None.

#[export] Instance timed_dec kv : Decision (timed kv).
Proof. unfold timed. apply _. Defined.

Definition wake_order (a b : K * Episode X) : Prop :=
  default 0 (resume_at a.2) <= default 0 (resume_at b.2).

#[export] Instance wake_order_dec a b : Decision (wake_order a b).
Proof. unfold wake_order. apply _. Defined.

Definition NextWake (led : gmap K (Episode X)) : option Z :=
  match merge_sort wake_order (filter timed (map_to_list led)) with
  | [] => None
  | kv :: _ => resume_at kv.2
  end.

Definition is_due (now : Z) (locked : gset K) (kv : K * Episode X) : Prop :=
  timed kv /\ default 0 (resume_at kv.2) <= now /\ (kv.1 ∉ locked).

#[export] Instance is_due_dec now locked kv : Decision (is_due now locked kv).
Proof. unfold is_due. apply _. Defined.

(** ORDER BY resume_at FOR UPDATE SKIP LOCKED LIMIT n *)
Definition dueRows (c : ResumeConfig) (now : Z) (locked : gset K) (led : gmap K (Episode X))
  : list (K * Episode X) :=
  take (Z.to_nat (batchParam c))
    (merge_sort wake_order (filter (is_due now locked) (map_to_list led))).

Record DuePause : Type := {
  Item : K;
  Row : X;
  Attempt : Z;
  ResumeAt : Z;
  RetryAfter : option Z;
}.

Definition due_of (kv : K * Episode X) : DuePause :=
  {| Item := kv.1; Row := Extra kv.2; Attempt := attempt kv.2;
     ResumeAt := default 0 (resume_at kv.2);
     RetryAfter := (fun ms => ms * millisecond) <$> retry_after_ms kv.2 |}.

Definition ResumeDue (c : ResumeConfig) (now : Z) (locked : gset K) (led : gmap K (Episode X))
  : gmap K (Episode X) * list DuePause :=
  let rows := dueRows c now locked led in
  (foldl (fun led kv => alter (stamp_resumed now) kv.1 led) led rows, due_of <$> rows).

Definition Pending (led : gmap K (Episode X)) (key : K) : option Z :=
  match led !! key with
  | Some e => match resumed_at e with None => resume_at e | Some _ => None end
  | None => None
  end.
End ledger.
Arguments DuePause : clear implicits.

Record PauseInfo : Set := { PAttempt : Z; PResumeAt : Z; PRetryAfter : option Z }.

(** The two item ledgers; the production one also stores the run. *)
Definition pause_item {K X : Type} `{Countable K} (c : ResumeConfig) (k now : Z)
    (led : gmap K (Episode X)) (item : K) (extra : X) (retryAfter : option Z)
  : gmap K (Episode X) * PauseInfo :=
  let n := next_attempt c now led item in
  let at_ := now + planDelay c k n retryAfter in
  (<[item := {| retry_after_ms := (fun d => Z.quot d millisecond) <$> retryAfter;
                attempt := n; resume_at := Some at_; paused_at := now; resumed_at := None;
                Extra := extra |}]> led,
   {| PAttempt := n; PResumeAt := at_; PRetryAfter := retryAfter |}).

Definition ResumeStore_Pause (c : ResumeConfig) (k now : Z) (led : gmap Z (Episode unit))
    (item : Z) (retryAfter : option Z) : gmap Z (Episode unit) * PauseInfo :=
  pause_item c k now led item tt retryAfter.

Definition ProdResumeStore_Pause (c : ResumeConfig) (k now : Z) (led : gmap string (Episode string))
    (workItemID runID : string) (retryAfter : option Z)
  : gmap string (Episode string) * PauseInfo :=
  pause_item c k now led workItemID runID retryAfter.

(** * Credential holds *)

(** Go string types: any other value is carried as it is. *)
Inductive CredPauseReason : Set :=
| ReasonRateLimited | ReasonCredentialExpired | ReasonCredentialRotated
| ReasonEndpointUnreachable | ReasonCredentialRequired | ReasonOther (raw : string).

Inductive CredentialClass : Set :=
| ClassClaudeOAuth | ClassAPIKey | ClassBYOEndpoint | CredClassOther (raw : string).

#[export] Instance CredPauseReason_eq_dec : EqDecision CredPauseReason.
Proof. solve_decision. Defined.
#[export] Instance CredentialClass_eq_dec : EqDecision CredentialClass.
Proof. solve_decision. Defined.

Definition TimerResumed (r : CredPauseReason) : bool := bool_decide (r = ReasonRateLimited).

Definition Reason_Valid (r : CredPauseReason) : bool :=
  match r with ReasonOther _ => false | _ => true end.

Definition Class_Valid (c : CredentialClass) : bool :=
  match c with CredClassOther _ => false | _ => true end.

Record CredentialRef : Set := { CredID : string; Principal : string; CClass : CredentialClass }.

Record CredPauseRequest : Set := {
  Credential : CredentialRef;
  Reason : CredPauseReason;
  ReqRetryAfter : option Z;
  ReqItem : string;
  ReqRun : string;
}.

(** The credential table's own columns. *)
Record CredColumns : Set := {
  principal : string;
  credential_class : CredentialClass;
  reason : CredPauseReason;
  work_item_id : option string;
  run_id : option string;
  refreshed_at : option Z;
}.

Notation CredLedger := (gmap string (Episode CredColumns)).

Record CredPauseInfo : Set := {
  InfoReason : CredPauseReason;
  InfoAttempt : Z;
  InfoResumeAt : option Z;
  InfoRetryAfter : option Z;
}.

Inductive CredError : Set :=
| ErrInvalidReason | ErrInvalidClass | ErrNoCredential | ErrRetryAfterMisused
| ErrNoRun | ErrUnknownEvent | ErrNoPrincipal | ErrNoProject | ErrConfig (e : ConfigError).

Definition sql_text (s : string) : option string := if bool_decide (s = "") then None else Some s.

(** The planning and the write shared by PauseCredential and the signal path. *)
Definition record_hold (c : ResumeConfig) (k now : Z) (led : CredLedger) (cred : CredentialRef)
    (r : CredPauseReason) (retryAfter : option Z) (item run : string)
  : CredLedger * CredPauseInfo :=
  let n := next_attempt c now led (CredID cred) in
  let window := if TimerResumed r then Some (planDelay c k n retryAfter) else None in
  let at_ := (fun d => now + d) <$> window in
  (<[CredID cred := {| retry_after_ms := (fun d => Z.quot d millisecond) <$> window;
                       attempt := n; resume_at := at_; paused_at := now; resumed_at := None;
                       Extra := {| principal := Principal cred; credential_class := CClass cred;
                                   reason := r; work_item_id := sql_text item;
                                   run_id := sql_text run; refreshed_at := None |} |}]> led,
   {| InfoReason := r; InfoAttempt := n; InfoResumeAt := at_; InfoRetryAfter := window |}).

Definition PauseCredential (c : ResumeConfig) (k now : Z) (led : CredLedger)
    (req : CredPauseRequest) : result CredError (CredLedger * CredPauseInfo) :=
  if negb (Reason_Valid (Reason req)) then Err ErrInvalidReason
  else if negb (Class_Valid (CClass (Credential req))) then Err ErrInvalidClass
  else if bool_decide (CredID (Credential req) = "") then Err ErrNoCredential
  else if bool_decide (Reason req ≠ ReasonRateLimited /\ ReqRetryAfter req ≠ None)
  then Err ErrRetryAfterMisused
  else Ok (record_hold c k now led (Credential req) (Reason req) (ReqRetryAfter req)
             (ReqItem req) (ReqRun req)).

Definition stamp_refreshed (now : Z) (e : Episode CredColumns) : Episode CredColumns :=
  {| retry_after_ms := retry_after_ms e; attempt := attempt e; resume_at := resume_at e;
     paused_at := paused_at e; resumed_at := Some now;
     Extra := {| principal := principal (Extra e); credential_class := credential_class (Extra e);
                 reason := reason (Extra e); work_item_id := work_item_id (Extra e);
                 run_id := run_id (Extra e); refreshed_at := Some now |} |}.

Definition ResumeOnRefresh (now : Z) (led : CredLedger) (credentialID : string)
  : result CredError (CredLedger * bool) :=
  if bool_decide (credentialID = "") then Err ErrNoCredential
  else
    match led !! credentialID with
    | Some e =>
        match resumed_at e with
        | None => Ok (<[credentialID := stamp_refreshed now e]> led, true)
        | Some _ => Ok (led, false)
        end
    | None => Ok (led, false)
    end.

Definition PausedSet (led : CredLedger) : CredLedger :=
  filter (fun kv => resumed_at kv.2 = None) led.

Fixpoint SelectAlternate (candidates : list string) (paused : CredLedger) : option string :=
  match candidates with
  | [] => None
  | c :: rest => match paused !! c with None => Some c | Some _ => SelectAlternate rest paused end
  end.

(** The scan keeps the first minimum; ids in sorted order. *)
Definition EarliestResume (paused : CredLedger) : option Z :=
  foldl (fun best id =>
    match paused !! id ≫= resume_at with
    | None => best
    | Some t => match best with
                | None => Some t
                | Some b => if t <? b then Some t else best
                end
    end) None (merge_sort String.le (map_to_list paused).*1).

(** * Credential signals *)

Inductive CredentialEvent : Set :=
| EventExpired | EventRotated | EventRateLimited | EventUnreachable | EventOther (raw : string).

#[export] Instance CredentialEvent_eq_dec : EqDecision CredentialEvent.
Proof. solve_decision. Defined.

Definition SignalStep (e : CredentialEvent) : option Step :=
  match e with
  | EventRateLimited => Some StepPausedRateLimited
  | EventExpired => Some StepPausedCredentialExpired
  | EventRotated => Some StepPausedCredentialRotated
  | EventUnreachable => Some StepPausedEndpointUnreachable
  | EventOther _ => None
  end.

Definition EventReason (e : CredentialEvent) : CredPauseReason :=
  match e with
  | EventRateLimited => ReasonRateLimited
  | EventExpired => ReasonCredentialExpired
  | EventRotated => ReasonCredentialRotated
  | EventUnreachable => ReasonEndpointUnreachable
  | EventOther _ => ReasonOther ""
  end.

Record CredentialSignal : Set := {
  SRun : string;
  SItem : string;
  SCredential : CredentialRef;
  SEvent : CredentialEvent;
  SRetryAfter : option Z;
}.

Definition CredentialSignal_validate (s : CredentialSignal) : option CredError :=
  if bool_decide (SRun s = "") then Some ErrNoRun
  else if bool_decide (CredID (SCredential s) = "") then Some ErrNoCredential
  else if negb (Class_Valid (CClass (SCredential s))) then Some ErrInvalidClass
  else match SignalStep (SEvent s) with
       | None => Some ErrUnknownEvent
       | Some _ =>
           if bool_decide (SEvent s ≠ EventRateLimited /\ SRetryAfter s ≠ None)
           then Some ErrRetryAfterMisused
           else None
       end.

Definition pausedFromSteps : list Step :=
  [StepRunning; StepDispatching; StepCollecting; StepPaused; StepPausedRateLimited;
   StepPausedCredentialExpired; StepPausedCredentialRotated; StepPausedEndpointUnreachable].

(** The operator event of the outbox. *)
Record OutboxEvent : Set := {
  project_id : string;
  ev_item : option string;
  ev_run : string;
  ev_reason : CredPauseReason;
  ev_credential : string;
  ev_principal : string;
  ev_class : CredentialClass;
  ev_resume_at : option Z; (* None: resume_mode = refresh *)
}.

(** coord.claim (run and step of the item's row), coord.credential_pause,
    coord.outbox. *)
Record SignalDB : Type := {
  claims : gmap string (string * Step);
  holds : CredLedger;
  outbox : list OutboxEvent;
}.

(** UPDATE coord.claim SET reconcile_step = $1
    WHERE work_item_id = $2 AND reconcile_step = ANY($3) *)
Definition moveStep (cl : gmap string (string * Step)) (item : string) (e : CredentialEvent)
  : gmap string (string * Step) * bool :=
  match sql_text item ≫= (fun i => cl !! i), SignalStep e with
  | Some (run, step), Some target =>
      if bool_decide (step ∈ pausedFromSteps)
      then (<[item := (run, target)]> cl, true)
      else (cl, false)
  | _, _ => (cl, false)
  end.

Record ApplyResult : Set := { EpisodeInfo : CredPauseInfo; StepMoved : bool }.

Definition ApplyCredentialSignal (c : ResumeConfig) (k now : Z) (db : SignalDB)
    (principal projectID : string) (sig : CredentialSignal)
  : result CredError (SignalDB * ApplyResult) :=
  match validate c with
  | Some e => Err (ErrConfig e)
  | None =>
      match CredentialSignal_validate sig with
      | Some e => Err e
      | None =>
          if bool_decide (principal = "") then Err ErrNoPrincipal
          else if bool_decide (projectID = "") then Err ErrNoProject
          else
            let '(led, epi) := record_hold c k now (holds db) (SCredential sig)
              (EventReason (SEvent sig)) (SRetryAfter sig) (SItem sig) (SRun sig) in
            let '(cl, moved) := moveStep (claims db) (SItem sig) (SEvent sig) in
            let ev := {| project_id := projectID; ev_item := sql_text (SItem sig);
                         ev_run := SRun sig; ev_reason := EventReason (SEvent sig);
                         ev_credential := CredID (SCredential sig);
                         ev_principal := Principal (SCredential sig);
                         ev_class := CClass (SCredential sig);
                         ev_resume_at := InfoResumeAt epi |} in
            Ok ({| claims := cl; holds := led; outbox := outbox db ++ [ev] |},
                {| EpisodeInfo := epi; StepMoved := moved |})
      end
  end.

(** * The wake loop *)

(** What the select picks after the loop has derived its next wake. *)
Inductive wake_choice (T : Type) : Type :=
| CtxDone
| Kicked
| Fired (due : result string (list T)). (* only with an armed timer *)
Arguments CtxDone {T}.
Arguments Kicked {T}.
Arguments Fired {T} due.

(** One turn of the environment: NextWake's answer, the local clock, the pick. *)
Record wake_env (T : Type) : Type := {
  env_next : result string (option Z);
  env_now : Z;
  env_choice : wake_choice T;
}.
Arguments env_next {T} _.
Arguments env_now {T} _.
Arguments env_choice {T} _.

Inductive wake_event (T : Type) : Type :=
| ReadNext
| ArmTimer (d : Z)
| ReadDue
| OnDue (due : list T)
| Returned (err : string).
Arguments ReadNext {T}.
Arguments ArmTimer {T} d.
Arguments ReadDue {T}.
Arguments OnDue {T} due.
Arguments Returned {T} err.

Definition until (next now : Z) : Z := if next - now <? 0 then 0 else next - now.

(** One iteration: the events, and the next skew flag unless the loop returned. *)
Definition wake_iter {T} (skew : bool) (e : wake_env T) : list (wake_event T) * option bool :=
  match env_next e with
  | Err x => ([ReadNext; Returned x], None)
  | Ok next =>
      let arm := match next with
                 | None => []
                 | Some at_ =>
                     let d := until at_ (env_now e) in
                     [ArmTimer (if (d <=? 0) && skew then 50 * millisecond else d)]
                 end in
      let skew := match next with None => skew | Some _ => false end in
      match env_choice e with
      | CtxDone => (ReadNext :: arm ++ [Returned "context canceled"], None)
      | Kicked => (ReadNext :: arm, Some skew)
      | Fired (Err x) => (ReadNext :: arm ++ [ReadDue; Returned x], None)
      | Fired (Ok []) =>
          (ReadNext :: arm ++ [ReadDue], Some (match next with Some _ => true | None => skew end))
      | Fired (Ok due) => (ReadNext :: arm ++ [ReadDue; OnDue due], Some skew)
      end
  end.

Fixpoint wake_run {T} (skew : bool) (es : list (wake_env T)) : list (wake_event T) :=
  match es with
  | [] => []
  | e :: es =>
      let '(evs, next) := wake_iter skew e in
      evs ++ match next with Some skew => wake_run skew es | None => [] end
  end.
