(* ===== verification/ResumeProps.v ===== *)
(** Correctness of the pause/resume engine: the backoff envelope, exactly-once
    wakes, refresh-only holds, the earliest wake, and the credential signal. *)
From S2P Require Import Prelude Machine Resume.
Open Scope Z_scope.

(** * The backoff *)

Lemma rnd53_small n : 0 <= n < 2 ^ 53 -> rnd53 n = n.
Proof.
  intros Hn. unfold rnd53.
  assert (He : Z.max 0 (Z.log2 n - 52) = 0).
  { destruct (decide (n = 0)) as [-> |]; [done|].
    assert (Z.log2 n < 53) by (apply Z.log2_lt_pow2; lia). lia. }
  rewrite He. cbn. rewrite Z.div_1_r. lia.
Qed.

(** Rounding never passes a representable bound. *)
Lemma rnd53_le n a : 0 <= n <= a * 2 ^ 53 -> a < 2 ^ 53 -> 0 <= rnd53 n <= a * 2 ^ 53.
Proof.
  intros Hn Ha. unfold rnd53. set (e := Z.max 0 (Z.log2 n - 52)).
  assert (He : 0 <= e <= 53).
  { split; [lia|]. destruct (decide (n = 0)) as [-> |]; [cbn in e; lia|].
    assert (Z.log2 n < 106) by (apply Z.log2_lt_pow2; [lia|]; change (2 ^ 106) with (2 ^ 53 * 2 ^ 53); nia).
    lia. }
  assert (Hp : 0 < 2 ^ e) by (apply Z.pow_pos_nonneg; lia).
  pose proof (Z.div_mod n (2 ^ e) ltac:(lia)) as Hdm.
  pose proof (Z.mod_pos_bound n (2 ^ e) Hp) as Hmod.
  assert (Hq : 0 <= n / 2 ^ e) by (apply Z.div_pos; lia).
  set (q := n / 2 ^ e) in *. set (r := n mod 2 ^ e) in *.
  assert (Hdiv : a * 2 ^ 53 = (a * 2 ^ (53 - e)) * 2 ^ e).
  { rewrite <- Z.mul_assoc, <- Z.pow_add_r by lia. do 2 f_equal. lia. }
  rewrite Hdiv in *. set (b := a * 2 ^ (53 - e)) in *.
  assert (Hqb : q <= b) by nia.
  assert (Hup : r ≠ 0 -> q + 1 <= b) by (intros; nia).
  destruct (Z.eqb_spec e 0) as [H0|H0]; [nia|].
  assert (Hhalf : 0 < 2 ^ e / 2).
  { apply Z.div_str_pos. split; [lia|]. replace e with (1 + (e - 1)) by lia.
    rewrite Z.pow_add_r by lia. pose proof (Z.pow_pos_nonneg 2 (e - 1)). lia. }
  destruct (Z.ltb_spec (2 ^ e / 2) r); [nia|].
  destruct (Z.eqb_spec r (2 ^ e / 2)); [|nia]. destruct (Z.odd q); nia.
Qed.

(** half + r·half for a half below 2^53. *)
Lemma jitter_bounds half k :
  0 <= half < 2 ^ 53 -> 0 <= k < 2 ^ 53 -> 0 <= rnd53 (k * rnd53 half) / 2 ^ 53 <= half.
Proof.
  intros Hh Hk. rewrite (rnd53_small half) by done.
  destruct (rnd53_le (k * half) half) as [H1 H2]; [nia|lia|].
  split; [apply Z.div_pos; lia|].
  rewrite <- (Z.div_mul half (2 ^ 53)) at 2 by lia. apply Z.div_le_mono; lia.
Qed.

Lemma EqualJitter_bounds base cap attempt k :
  0 < base -> 0 < cap < 2 ^ 53 -> 0 <= k < 2 ^ 53 ->
  let shift := Z.max 1 attempt - 1 in
  let w := wrap64 (base * 2 ^ shift) in
  let exp := if (62 <? shift) || (w <=? 0) || (cap <? w) then cap else w in
  0 < exp <= cap /\ exp / 2 <= EqualJitter base cap attempt k <= exp.
Proof.
  intros Hb Hc Hk. cbv zeta. unfold EqualJitter.
  replace (if attempt <? 1 then 1 else attempt) with (Z.max 1 attempt)
    by (destruct (Z.ltb_spec attempt 1); lia).
  destruct (Z.ltb_spec 62 (Z.max 1 attempt - 1)); cbn [orb].
  { split; [lia|]. split; [apply Z.div_le_upper_bound; lia|lia]. }
  set (w := wrap64 _).
  set (exp := if (w <=? 0) || (cap <? w) then cap else w).
  assert (He : 0 < exp <= cap).
  { unfold exp. destruct (Z.leb_spec w 0); cbn; [lia|]. destruct (Z.ltb_spec cap w); lia. }
  split; [done|]. rewrite (rnd53_small exp) by lia.
  pose proof (Z.div_mod exp 2 ltac:(lia)). pose proof (Z.mod_pos_bound exp 2 ltac:(lia)).
  pose proof (jitter_bounds (exp / 2) k ltac:(lia) Hk). lia.
Qed.

(** Shifts that stay in range, or that overflow the default base, are handled. *)
Lemma default_shift shift :
  0 <= shift <= 62 ->
  let w := wrap64 (second * 2 ^ shift) in
  (if (w <=? 0) || (5 * 60 * second <? w) then 5 * 60 * second else w) =
  Z.min (5 * 60 * second) (second * 2 ^ shift).
Proof.
  intros Hs.
  assert (Hall : Forall (fun s => let w := wrap64 (second * 2 ^ s) in
    (if (w <=? 0) || (5 * 60 * second <? w) then 5 * 60 * second else w) =
    Z.min (5 * 60 * second) (second * 2 ^ s)) (seqZ 0 63)).
  { apply (bool_decide_unpack _). vm_compute. exact I. }
  rewrite Forall_forall in Hall. apply Hall. apply elem_of_seqZ. lia.
Qed.

(** * The ledger statements *)

Section ledger.
Context {K X : Type} `{Countable K}.
Implicit Types (led : gmap K (Episode X)) (kv : K * Episode X).

#[local] Instance wake_total : Total (@wake_order K X).
Proof. intros a b. unfold wake_order. lia. Qed.
#[local] Instance wake_trans : Transitive (@wake_order K X).
Proof. intros a b c. unfold wake_order. lia. Qed.

Lemma NextWake_least led :
  match NextWake led with
  | None => forall key e, led !! key = Some e -> ~ timed (key, e)
  | Some t => (exists key e, led !! key = Some e /\ timed (key, e) /\ resume_at e = Some t) /\
      forall key e t', led !! key = Some e -> resumed_at e = None -> resume_at e = Some t' -> t <= t'
  end.
Proof.
  unfold NextWake. set (l := filter timed (map_to_list led)).
  pose proof (merge_sort_Permutation wake_order l) as Hp.
  assert (Hs : StronglySorted wake_order (merge_sort wake_order l)) by apply (StronglySorted_merge_sort _ _).
  assert (Hin : forall kv, kv ∈ l <-> timed kv /\ led !! kv.1 = Some kv.2).
  { intros [key e]. unfold l. by rewrite list_elem_of_filter, elem_of_map_to_list. }
  destruct (merge_sort wake_order l) as [|[key e] rest] eqn:Hm.
  - intros key e He Ht. assert (Hk : (key, e) ∈ l) by by apply Hin.
    rewrite <- Hp in Hk. by apply elem_of_nil in Hk.
  - assert (Hk : (key, e) ∈ l) by (rewrite <- Hp; left).
    apply Hin in Hk as [Ht He]. cbn in *. destruct (resume_at e) as [t|] eqn:Hr; [|by destruct Ht].
    split; [by exists key, e|]. intros key' e' t' He' Hres Hr'.
    assert (Hk' : (key', e') ∈ l) by (apply Hin; split; [split; cbn; congruence|done]).
    rewrite <- Hp in Hk'. apply elem_of_cons in Hk' as [Heq|Hk']; [simplify_eq; lia|].
    apply StronglySorted_inv in Hs as [_ Hall]. rewrite Forall_forall in Hall.
    apply Hall in Hk'. unfold wake_order in Hk'. cbn in Hk'. rewrite Hr, Hr' in Hk'. exact Hk'.
Qed.

Context (c : ResumeConfig) (now : Z) (locked : gset K).

Lemma dueRows_spec led kv : kv ∈ dueRows c now locked led -> is_due now locked kv /\ led !! kv.1 = Some kv.2.
Proof.
  unfold dueRows. intros Hin.
  assert (Hn : kv ∈ merge_sort wake_order (filter (is_due now locked) (map_to_list led))).
  { eapply elem_of_sublist; [exact Hin|]. apply sublist_take. }
  rewrite merge_sort_Permutation in Hn. apply list_elem_of_filter in Hn as [? Hn].
  destruct kv as [key e]. by apply elem_of_map_to_list in Hn.
Qed.

Lemma dueRows_nodup led : NoDup (dueRows c now locked led).*1.
Proof.
  unfold dueRows. rewrite fmap_take.
  eapply sublist_NoDup; [|apply sublist_take]. rewrite merge_sort_Permutation.
  eapply sublist_NoDup; [apply (NoDup_fst_map_to_list led)|]. apply fmap_sublist, sublist_filter.
Qed.

Lemma foldl_stamp (rows : list (K * Episode X)) led key :
  NoDup rows.*1 ->
  foldl (fun led kv => alter (stamp_resumed now) kv.1 led) led rows !! key =
  if decide (key ∈ rows.*1) then stamp_resumed now <$> led !! key else led !! key.
Proof.
  revert led. induction rows as [|[k e] rows IH]; intros led Hnd; cbn; [done|].
  apply NoDup_cons in Hnd as [Hk Hnd]. rewrite IH by done. cbn.
  destruct (decide (key = k)) as [->|Hne].
  - rewrite (decide_False (P := k ∈ rows.*1)) by done. rewrite decide_True by left.
    by rewrite lookup_alter_eq.
  - rewrite lookup_alter_ne by done.
    destruct (decide (key ∈ rows.*1)) as [Hi|Hi].
    + by rewrite decide_True by by right.
    + rewrite decide_False; [done|]. intros [?|?]%elem_of_cons; done.
Qed.

Lemma dueRows_complete led kv :
  (length (map_to_list led) <= Z.to_nat (batchParam c))%nat ->
  led !! kv.1 = Some kv.2 -> is_due now locked kv -> kv ∈ dueRows c now locked led.
Proof.
  intros Hb Hl Hd. unfold dueRows. rewrite take_ge.
  - rewrite merge_sort_Permutation. apply list_elem_of_filter. split; [done|].
    destruct kv. by apply elem_of_map_to_list.
  - rewrite merge_sort_Permutation. etrans; [apply length_filter|done].
Qed.
End ledger.

(** * Executions over the credential ledger *)

Inductive cred_op : Type :=
| CPause (req : CredPauseRequest) (k : Z)
| CDue (locked : gset string)
| CRefresh (id : string).

Inductive cred_event : Type :=
| EHold (id : string) (r : CredPauseReason) (wake : option Z)
| EWake (id : string) (now : Z)
| ERefresh (id : string).

Definition cred_exec (c : ResumeConfig) (now : Z) (led : gmap string (Episode CredColumns))
    (o : cred_op) : gmap string (Episode CredColumns) * list cred_event :=
  match o with
  | CPause req k =>
      match PauseCredential c k now led req with
      | Ok (led', info) => (led', [EHold (CredID (Credential req)) (InfoReason info) (InfoResumeAt info)])
      | Err _ => (led, [])
      end
  | CDue locked =>
      let '(led', due) := ResumeDue c now locked led in
      (led', (fun d => EWake (Item d) now) <$> due)
  | CRefresh id =>
      match ResumeOnRefresh now led id with
      | Ok (led', true) => (led', [ERefresh id])
      | Ok (led', false) => (led', [])
      | Err _ => (led, [])
      end
  end.

Inductive cred_reach (c : ResumeConfig) : gmap string (Episode CredColumns) -> list cred_event -> Prop :=
| reach_empty : cred_reach c ∅ []
| reach_op led log now o led' evs :
    cred_reach c led log -> cred_exec c now led o = (led', evs) ->
    cred_reach c led' (log ++ evs).

(** The hold a credential is under: its reason and its wake, if any. *)
Definition hold : Type := option (CredPauseReason * option Z).

Definition view (led : gmap string (Episode CredColumns)) (id : string) : hold :=
  match led !! id with
  | Some e => match resumed_at e with None => Some (reason (Extra e), resume_at e) | Some _ => None end
  | None => None
  end.

Definition ev_cred (e : cred_event) : string :=
  match e with EHold i _ _ | EWake i _ | ERefresh i => i end.

(** What one event does to the hold of its credential, and when it is allowed. *)
Definition after_event (h : hold) (e : cred_event) : hold :=
  match e with EHold _ r w => Some (r, w) | _ => None end.
Definition allowed (h : hold) (e : cred_event) : Prop :=
  match e with
  | EHold _ r w => w = None <-> r ≠ ReasonRateLimited
  | EWake _ now => exists w, h = Some (ReasonRateLimited, Some w) /\ w <= now
  | ERefresh _ => h ≠ None
  end.

Fixpoint exactly_once (id : string) (h : hold) (log : list cred_event) : Prop :=
  match log with
  | [] => True
  | e :: log =>
      if decide (ev_cred e = id) then allowed h e /\ exactly_once id (after_event h e) log
      else exactly_once id h log
  end.

Fixpoint hold_after (id : string) (h : hold) (log : list cred_event) : hold :=
  match log with
  | [] => h
  | e :: log => hold_after id (if decide (ev_cred e = id) then after_event h e else h) log
  end.

Lemma exactly_once_app id h l1 l2 :
  exactly_once id h (l1 ++ l2) <-> exactly_once id h l1 /\ exactly_once id (hold_after id h l1) l2.
Proof.
  revert h. induction l1 as [|e l1 IH]; intros h; cbn; [tauto|].
  case_decide; rewrite IH; tauto.
Qed.

Lemma hold_after_app id h l1 l2 :
  hold_after id h (l1 ++ l2) = hold_after id (hold_after id h l1) l2.
Proof. revert h. induction l1 as [|e l1 IH]; intros h; cbn; [done|]. apply IH. Qed.

Lemma wakes_once id h now (ids : list string) :
  NoDup ids -> (id ∈ ids -> exists w, h = Some (ReasonRateLimited, Some w) /\ w <= now) ->
  exactly_once id h ((fun i => EWake i now) <$> ids) /\
  hold_after id h ((fun i => EWake i now) <$> ids) = if decide (id ∈ ids) then None else h.
Proof.
  revert h. induction ids as [|i ids IH]; intros h Hnd Hin; cbn.
  { split; [done|]. rewrite decide_False; [done|apply not_elem_of_nil]. }
  apply NoDup_cons in Hnd as [Hi Hnd]. destruct (decide (i = id)) as [->|Hid].
  - destruct (IH None Hnd ltac:(done)) as [H1 H2].
    split; [split; [apply Hin; left|exact H1]|]. rewrite H2.
    rewrite decide_False, decide_True by (done || left). done.
  - destruct (IH h Hnd ltac:(intros; apply Hin; by right)) as [H1 H2].
    split; [done|]. rewrite H2. destruct (decide (id ∈ ids)) as [Hd|Hd].
    + by rewrite decide_True by by right.
    + rewrite decide_False; [done|]. intros [?|?]%elem_of_cons; done.
Qed.

(** Timers exist exactly for rate limits. *)
Definition timers_ok (led : gmap string (Episode CredColumns)) : Prop :=
  forall id e, led !! id = Some e -> resume_at e = None <-> reason (Extra e) ≠ ReasonRateLimited.

Lemma record_hold_view c k now led cred r ra item run :
  let '(led', info) := record_hold c k now led cred r ra item run in
  (InfoReason info = r) /\ (InfoResumeAt info = None <-> r ≠ ReasonRateLimited) /\
  view led' (CredID cred) = Some (r, InfoResumeAt info) /\
  (forall id, id ≠ CredID cred -> led' !! id = led !! id) /\
  (timers_ok led -> timers_ok led').
Proof.
  unfold record_hold. cbn.
  assert (Hw : (fun d => now + d) <$> (if TimerResumed r
      then Some (planDelay c k (next_attempt c now led (CredID cred)) ra) else None) = None
      <-> r ≠ ReasonRateLimited).
  { unfold TimerResumed. case_bool_decide; cbn; split; intros; congruence. }
  split; [done|]. split; [exact Hw|]. split_and!.
  - unfold view. by rewrite lookup_insert_eq.
  - intros id Hid. by rewrite lookup_insert_ne.
  - intros Hok id e. rewrite lookup_insert. case_decide; intros; simplify_eq/=; [exact Hw|by eapply Hok].
Qed.

Lemma ResumeDue_row c now (locked : gset string) (led : gmap string (Episode CredColumns)) id :
  let led' := (ResumeDue c now locked led).1 in
  let keys := (dueRows c now locked led).*1 in
  (fun d => Item d) <$> (ResumeDue c now locked led).2 = keys /\
  led' !! id = (if decide (id ∈ keys) then stamp_resumed now <$> led !! id else led !! id) /\
  (id ∈ keys -> exists e, led !! id = Some e /\ is_due now locked (id, e)).
Proof.
  cbv zeta. unfold ResumeDue; cbn. split_and!.
  - rewrite <- list_fmap_compose. by apply list_fmap_ext.
  - apply foldl_stamp, dueRows_nodup.
  - intros ([i e] & -> & Hin)%list_elem_of_fmap. apply dueRows_spec in Hin as [? ?]. by exists e.
Qed.

Lemma PauseCredential_Ok c k now led req x :
  PauseCredential c k now led req = Ok x <->
  Reason_Valid (Reason req) = true /\ Class_Valid (CClass (Credential req)) = true /\
  CredID (Credential req) ≠ "" /\ (Reason req = ReasonRateLimited \/ ReqRetryAfter req = None) /\
  record_hold c k now led (Credential req) (Reason req) (ReqRetryAfter req) (ReqItem req)
    (ReqRun req) = x.
Proof.
  unfold PauseCredential. destruct (Reason_Valid _); cbn; [|naive_solver].
  destruct (Class_Valid _); cbn; [|naive_solver].
  case_bool_decide; [naive_solver|]. case_bool_decide as Hr; [naive_solver|].
  split; [intros [= <-]|intros (_ & _ & _ & _ & <-); done]. split_and!; try done.
  destruct (decide (Reason req = ReasonRateLimited)), (ReqRetryAfter req); auto.
  destruct Hr. done.
Qed.

Lemma cred_exec_step c now led o led' evs id :
  timers_ok led -> cred_exec c now led o = (led', evs) ->
  timers_ok led' /\ exactly_once id (view led id) evs /\ hold_after id (view led id) evs = view led' id.
Proof.
  intros Hok. destruct o as [req k|locked|i]; cbn.
  - destruct (PauseCredential c k now led req) as [[l info]|e] eqn:HP;
      [|by intros; simplify_eq].
    apply PauseCredential_Ok in HP as (_ & _ & _ & _ & HP). intros [= <- <-].
    pose proof (record_hold_view c k now led (Credential req) (Reason req) (ReqRetryAfter req)
      (ReqItem req) (ReqRun req)) as Hv. rewrite HP in Hv.
    destruct Hv as (-> & Hw & Hv & Hne & Htk). split; [auto|].
    cbn. destruct (decide (CredID (Credential req) = id)) as [<-|Hid]; [by rewrite Hv|].
    split; [done|]. unfold view. by rewrite Hne.
  - intros [= <- <-]. set (keys := (dueRows c now locked led).*1).
    destruct (ResumeDue_row c now locked led id) as (Hk & Hrow & Hdue).
    cbn in Hk. fold keys in Hk, Hrow, Hdue.
    assert (Hevs : (fun d => EWake (Item d) now) <$> (due_of <$> dueRows c now locked led) =
      (fun i => EWake i now) <$> keys) by (unfold keys; rewrite <- !list_fmap_compose; by apply list_fmap_ext).
    rewrite Hevs. split.
    { intros i e. destruct (ResumeDue_row c now locked led i) as (_ & Hr & _). cbn in Hr.
      rewrite Hr. case_decide; [|apply Hok]. intros (e0 & He0 & ->)%fmap_Some. cbn. by eapply Hok. }
    destruct (wakes_once id (view led id) now keys) as [H1 H2].
    { apply dueRows_nodup. }
    { intros Hin. destruct (Hdue Hin) as (e & He & [Hr Ht] & Hle & _). cbn in *.
      destruct (resume_at e) as [w|] eqn:Hw; [|done]. exists w. unfold view. rewrite He, Hr, Hw.
      split; [|done]. do 2 f_equal. destruct (decide (reason (Extra e) = ReasonRateLimited)) as [E|E]; [done|].
      apply (Hok _ _ He) in E. congruence. }
    split; [done|]. rewrite H2. unfold view. cbn in Hrow. rewrite Hrow.
    case_decide; [|done]. by destruct (led !! id).
  - unfold ResumeOnRefresh. case_bool_decide; [by intros; simplify_eq|].
    destruct (led !! i) as [e|] eqn:He; [|by intros; simplify_eq].
    destruct (resumed_at e) eqn:Hr; intros; simplify_eq/=; [done|]. split.
    { intros j e' Hj. rewrite lookup_insert in Hj. case_decide; simplify_eq/=; by eapply Hok. }
    destruct (decide (i = id)) as [->|Hid].
    + unfold view. rewrite He, Hr, lookup_insert_eq. cbn. done.
    + unfold view. by rewrite lookup_insert_ne.
Qed.

Lemma cred_reach_inv c led log id :
  cred_reach c led log ->
  timers_ok led /\ exactly_once id None log /\ hold_after id None log = view led id.
Proof.
  induction 1 as [|led log now o led' evs _ (IH1 & IH2 & IH3) Ho].
  - split_and!; [intros ? ? Hl; by rewrite lookup_empty in Hl|done|done].
  - destruct (cred_exec_step c now led o led' evs id IH1 Ho) as (H1 & H2 & H3).
    split; [done|]. rewrite exactly_once_app, hold_after_app, IH3. done.
Qed.

Lemma foldl_earliest (paused : gmap string (Episode CredColumns)) (ids : list string) best :
  let step := fun best id =>
    match paused !! id ≫= resume_at with
    | None => best
    | Some t => match best with None => Some t | Some b => if t <? b then Some t else best end
    end in
  match foldl step best ids with
  | None => best = None /\ forall id, id ∈ ids -> paused !! id ≫= resume_at = None
  | Some t => (best = Some t \/ exists id, id ∈ ids /\ paused !! id ≫= resume_at = Some t) /\
      (forall b, best = Some b -> t <= b) /\
      forall id t', id ∈ ids -> paused !! id ≫= resume_at = Some t' -> t <= t'
  end.
Proof.
  cbv zeta. revert best. induction ids as [|id ids IH]; intros best; cbn [foldl].
  { destruct best as [b|]; [|split; [done|set_solver]].
    split; [by left|]. split; [intros; simplify_eq; lia|set_solver]. }
  match goal with |- context [foldl ?f ?b ids] => specialize (IH b); destruct (foldl f b ids) as [t|] eqn:Hf end.
  - destruct IH as (H1 & H2 & H3). destruct (paused !! id ≫= resume_at) as [u|] eqn:Hu.
    + assert (Hle : t <= u /\ (forall b, best = Some b -> t <= b)).
      { destruct best as [b|]; [destruct (Z.ltb_spec u b)|];
          specialize (H2 _ eq_refl); split; try lia; intros; simplify_eq; lia. }
      split; [|split; [apply Hle|]].
      * destruct H1 as [H1|(i & ? & ?)]; [|right; exists i; split; [by right|done]].
        destruct best as [b|]; [destruct (Z.ltb_spec u b)|]; simplify_eq; try (by left);
          right; exists id; (split; [left|done]).
      * intros i t' [->|Hi]%elem_of_cons Ht'; [simplify_eq; lia|by eapply H3].
    + split; [|split; [exact H2|]].
      * destruct H1 as [H1|(i & ? & ?)]; [by left|right; exists i; split; [by right|done]].
      * intros i t' [->|Hi]%elem_of_cons Ht'; [congruence|by eapply H3].
  - destruct IH as (H1 & H2). destruct (paused !! id ≫= resume_at) as [u|] eqn:Hu.
    + destruct best as [b|]; [destruct (u <? b)|]; done.
    + split; [done|]. intros i [->|Hi]%elem_of_cons; auto.
Qed.

Lemma moveStep_cases cl item e :
  let '(cl', moved) := moveStep cl item e in
  (moved = false /\ cl' = cl) \/
  (exists run step target, moved = true /\ cl' = <[item := (run, target)]> cl /\
     cl !! item = Some (run, step) /\ IsTerminal step = false /\
     SignalStep e = Some target /\ PhaseOf target = PhasePaused).
Proof.
  unfold moveStep, sql_text. case_bool_decide; cbn; [by left|].
  destruct (cl !! item) as [[run step]|]; [|by left].
  destruct (SignalStep e) as [target|] eqn:Ht; [|by left].
  case_bool_decide as Hin; [|by left]. right. exists run, step, target. split_and!; try done.
  - unfold IsTerminal. apply bool_decide_eq_false. unfold pausedFromSteps in Hin.
    unfold terminalSteps. set_solver.
  - destruct e; cbn in Ht; by simplify_eq.
Qed.

(** * Properties *)

(** C40: exactly-once resumes. Over any sequence of pauses, due-claims (with any
    rows locked by concurrent timers) and refreshes, the log of each credential
    alternates: a timer wake happens only for a pending rate-limited episode
    whose wake time has been reached, a refresh resumes only a pending episode,
    and either ends it, so no episode is resumed twice, and the non-timer
    reasons carry no wake at all. The hold the log leaves is the one the ledger
    shows. *)
Theorem resumes_exactly_once c led log id :
  cred_reach c led log ->
  exactly_once id None log /\ hold_after id None log = view led id.
Proof. intros Hr. by destruct (cred_reach_inv c led log id Hr) as (_ & ? & ?). Qed.

(** a wake claims exactly the due episodes. Each claimed row was pending,
    timed, reached and not locked by another timer; no row is claimed twice; the
    claimed rows are stamped resumed and nothing else in the table changes; and
    when the batch covers the table every unlocked due episode is claimed. *)
Theorem resume_due_exact {K X} `{Countable K} c now (locked : gset K) (led : gmap K (Episode X)) :
  let '(led', due) := ResumeDue c now locked led in
  let claimed := (fun d => Item d) <$> due in
  NoDup claimed /\
  (forall key, key ∈ claimed ->
     exists e, led !! key = Some e /\ is_due now locked (key, e) /\
       led' !! key = Some (stamp_resumed now e)) /\
  (forall key, (key ∉ claimed) -> led' !! key = led !! key) /\
  ((length (map_to_list led) <= Z.to_nat (batchParam c))%nat ->
   forall key e, led !! key = Some e -> is_due now locked (key, e) -> key ∈ claimed).
Proof.
  unfold ResumeDue. cbv zeta.
  assert (Hk : (fun d : DuePause K X => Item d) <$> (due_of <$> dueRows c now locked led) =
    (dueRows c now locked led).*1) by (rewrite <- list_fmap_compose; by apply list_fmap_ext).
  rewrite Hk. pose proof (dueRows_nodup c now locked led) as Hnd.
  assert (Hin : forall key, key ∈ (dueRows c now locked led).*1 ->
    exists e, led !! key = Some e /\ is_due now locked (key, e)).
  { intros key ([i e] & -> & Hin)%list_elem_of_fmap. apply dueRows_spec in Hin as [? ?]. by exists e. }
  split_and!; [done| | |].
  - intros key Hkey. destruct (Hin key Hkey) as (e & He & Hd). exists e.
    rewrite foldl_stamp, decide_True, He by done. done.
  - intros key Hkey. by rewrite foldl_stamp, decide_False by done.
  - intros Hb key e He Hd. pose proof (dueRows_complete c now locked led (key, e) Hb He Hd) as Hr.
    by apply (list_elem_of_fmap_2 fst) in Hr.
Qed.

(** the derived wake is the earliest. NextWake answers the least pending
    wake time and nothing only when no pending episode is timed; before that
    time a claim finds nothing, so sleeping until it misses no episode. *)
Theorem next_wake_earliest {K X} `{Countable K} c now (locked : gset K) (led : gmap K (Episode X)) :
  match NextWake led with
  | None => (ResumeDue c now locked led).2 = []
  | Some t =>
      (exists key e, led !! key = Some e /\ resumed_at e = None /\ resume_at e = Some t) /\
      (forall key e t', led !! key = Some e -> resumed_at e = None -> resume_at e = Some t' -> t <= t') /\
      (now < t -> (ResumeDue c now locked led).2 = [])
  end.
Proof.
  assert (Hnone : (forall key e, led !! key = Some e -> ~ is_due now locked (key, e)) ->
    (ResumeDue c now locked led).2 = []).
  { intros Hno. unfold ResumeDue; cbn. destruct (dueRows c now locked led) as [|[key e] rows] eqn:Hr; [done|].
    exfalso. destruct (dueRows_spec c now locked led (key, e)) as [Hd He]; [rewrite Hr; left|].
    by eapply Hno. }
  pose proof (NextWake_least led) as Hl. destruct (NextWake led) as [t|].
  - destruct Hl as [(key & e & He & [Hres _] & Ht) Hmin]. split_and!; [by exists key, e|done|].
    intros Hlt. apply Hnone. intros i e' He' [[Hr' Hn'] [Hle _]]. cbn in *.
    destruct (resume_at e') as [t'|] eqn:Ht'; [|done].
    specialize (Hmin _ _ _ He' Hr' Ht'). cbn in Hle. lia.
  - apply Hnone. intros key e He [Ht _]. by eapply Hl.
Qed.

(** The backoff envelope. With the shipped policy (1 s base, 5 min cap) and
    any random draw, attempt n waits between half of and all of
    min(5 min, 2^(n-1) s); the shift never overflows into a shorter wait. *)
Theorem backoff_envelope attempt k :
  0 <= k < 2 ^ 53 ->
  let exp := Z.min (5 * 60 * second) (second * 2 ^ (Z.max 1 attempt - 1)) in
  exp / 2 <= EqualJitter (BackoffBase DefaultResumeConfig) (BackoffCap DefaultResumeConfig) attempt k
    <= exp.
Proof.
  intros Hk exp. cbn.
  destruct (EqualJitter_bounds second (5 * 60 * second) attempt k ltac:(done) ltac:(done) Hk) as [_ Hb].
  cbv zeta in Hb. subst exp.
  destruct (Z.ltb_spec 62 (Z.max 1 attempt - 1)) as [Hs|Hs]; cbn [orb] in Hb.
  - rewrite Z.min_l; [exact Hb|].
    transitivity (second * 2 ^ 10); [vm_compute; discriminate|].
    apply Z.mul_le_mono_nonneg_l; [done|]. apply Z.pow_le_mono_r; lia.
  - rewrite (default_shift (Z.max 1 attempt - 1)) in Hb by lia. exact Hb.
Qed.

(** The backoff stays within the configured cap. For any base and cap (below
    2^53 ns) and any attempt the wait is non-negative and at most the cap, and it
    is at least half of the doubled base whenever that fits the cap. *)
Theorem backoff_capped base cap attempt k :
  0 < base -> 0 < cap < 2 ^ 53 -> 0 <= k < 2 ^ 53 ->
  0 <= EqualJitter base cap attempt k <= cap /\
  (base * 2 ^ (Z.max 1 attempt - 1) <= cap ->
   base * 2 ^ (Z.max 1 attempt - 1) / 2 <= EqualJitter base cap attempt k
     <= base * 2 ^ (Z.max 1 attempt - 1)).
Proof.
  intros Hb Hc Hk. destruct (EqualJitter_bounds base cap attempt k Hb Hc Hk) as [He Hj].
  cbv zeta in He, Hj. set (shift := Z.max 1 attempt - 1) in *.
  split; [split; [etrans; [|apply Hj]; apply Z.div_pos; lia|lia]|].
  intros Hfit. assert (Hpos : 0 < 2 ^ shift) by (apply Z.pow_pos_nonneg; lia).
  assert (Hs : shift < 53).
  { apply (Z.pow_lt_mono_r_iff 2); [lia|lia|]. nia. }
  rewrite wrap64_id in Hj by (unfold int64; nia).
  destruct (Z.ltb_spec 62 shift); [lia|]. cbn [orb] in Hj.
  destruct (Z.leb_spec (base * 2 ^ shift) 0); [nia|]. cbn [orb] in Hj.
  destruct (Z.ltb_spec cap (base * 2 ^ shift)); [lia|exact Hj].
Qed.

(** An overflowing shift can undercut the cap (a limit of the code). With a
    base of 2^31 + 1 ns (2.1 s) and a 5 min cap, attempt 34 overflows int64 to a
    small positive duration: the wait is 4.3 s where the exponential is above
    the cap. *)
Theorem backoff_overflow_undercuts :
  let base := 2 ^ 31 + 1 in let cap := 5 * 60 * second in
  validate {| PauseTable := "t"; BackoffBase := base; BackoffCap := cap;
              BackoffReset := 600 * second; ResumeBatch := 64 |} = None /\
  cap < base * 2 ^ 33 /\ EqualJitter base cap 34 0 = 2 ^ 32.
Proof. vm_compute. done. Qed.

(** the escalation streak. Recording a hold for a credential keeps the
    attempt while the previous episode is pending, raises it by one within the
    reset window of the last resume, and starts at 1 otherwise; a positive
    Retry-After of a rate limit is honoured to the nanosecond, and an invalid
    request (reason, class, credential or misplaced Retry-After) is an error
    that records nothing. *)
Theorem pause_streak c k now led req :
  match PauseCredential c k now led req with
  | Err _ => Reason_Valid (Reason req) = false \/ Class_Valid (CClass (Credential req)) = false \/
      CredID (Credential req) = "" \/ (Reason req ≠ ReasonRateLimited /\ ReqRetryAfter req ≠ None)
  | Ok (led', info) =>
      InfoAttempt info = match led !! CredID (Credential req) with
                         | None => 1
                         | Some e => match resumed_at e with
                                     | None => attempt e
                                     | Some t => if now - t <=? BackoffReset c then attempt e + 1 else 1
                                     end
                         end /\
      (forall d, Reason req = ReasonRateLimited -> ReqRetryAfter req = Some d -> 0 < d ->
         InfoResumeAt info = Some (now + d)) /\
      (Reason req ≠ ReasonRateLimited -> InfoResumeAt info = None) /\
      is_Some (PausedSet led' !! CredID (Credential req))
  end.
Proof.
  destruct (PauseCredential c k now led req) as [[led' info]|e] eqn:HP.
  - apply PauseCredential_Ok in HP as (_ & _ & _ & _ & HP).
    unfold record_hold in HP. simplify_eq. split_and!; cbn.
    + unfold next_attempt, planAttempt. destruct (led !! _) as [e|]; cbn; [|done]. by destruct (resumed_at e).
    + intros d -> Hra Hd. rewrite Hra. cbn. by rewrite (proj2 (Z.ltb_lt 0 d) Hd).
    + intros Hne. unfold TimerResumed. by rewrite bool_decide_eq_false_2.
    + eexists. apply map_lookup_filter_Some. split; [by rewrite lookup_insert_eq|done].
  - unfold PauseCredential in HP. destruct (Reason_Valid _); cbn in HP; [|auto].
    destruct (Class_Valid _); cbn in HP; [|auto].
    case_bool_decide; [auto|]. case_bool_decide; [auto|done].
Qed.

(** The re-route advice. SelectAlternate answers the first candidate that is
    not held and nothing only when all are; EarliestResume answers the least
    wake of the held credentials, and nothing only when every hold waits for
    fresh material. *)
Theorem reroute_advice candidates (paused : gmap string (Episode CredColumns)) :
  match SelectAlternate candidates paused with
  | Some x => exists before after, candidates = before ++ x :: after /\ paused !! x = None /\
      Forall (fun y => is_Some (paused !! y)) before
  | None => Forall (fun y => is_Some (paused !! y)) candidates
  end /\
  match EarliestResume paused with
  | Some t => (exists id e, paused !! id = Some e /\ resume_at e = Some t) /\
      forall id e t', paused !! id = Some e -> resume_at e = Some t' -> t <= t'
  | None => forall id e, paused !! id = Some e -> resume_at e = None
  end.
Proof.
  split.
  - induction candidates as [|x xs IH]; cbn; [done|].
    destruct (paused !! x) eqn:Hx; [|exists [], xs; done].
    destruct (SelectAlternate xs paused); [|by constructor].
    destruct IH as (b & a & -> & ? & ?). exists (x :: b), a. split_and!; [done..|]. by constructor.
  - unfold EarliestResume. set (ids := merge_sort _ _).
    assert (Hids : forall id, id ∈ ids <-> is_Some (paused !! id)).
    { intros id. unfold ids. rewrite merge_sort_Permutation, list_elem_of_fmap. split.
      - intros ([i e] & -> & Hin). apply elem_of_map_to_list in Hin. by exists e.
      - intros [e He]. exists (id, e). by rewrite elem_of_map_to_list. }
    pose proof (foldl_earliest paused ids None) as Hf. cbv zeta in Hf.
    destruct (foldl _ None ids) as [t|].
    + destruct Hf as ([?|(id & Hin & Hb)] & _ & Hmin); [done|]. split.
      * destruct (paused !! id) as [e|] eqn:He; [|done]. by exists id, e.
      * intros i e t' He Ht'. apply (Hmin i); [apply Hids; by eexists|by rewrite He].
    + destruct Hf as [_ Hf]. intros id e He. specialize (Hf id (proj2 (Hids id) (ex_intro _ e He))).
      by rewrite He in Hf.
Qed.

(** One signal, three facts. An applied credential signal records exactly
    one pending hold on its credential, appends exactly one operator event that
    carries the same reason and wake, and moves at most the claim of its own
    item, only out of a live step, to the paused step of its event; a finished
    Run is never resurrected. A rejected signal is an invalid binding, signal or
    caller. *)
Theorem signal_atomic c k now db pr proj sig :
  match ApplyCredentialSignal c k now db pr proj sig with
  | Err _ => validate c ≠ None \/ CredentialSignal_validate sig ≠ None \/ pr = "" \/ proj = ""
  | Ok (db', res) =>
      (exists ev, outbox db' = outbox db ++ [ev] /\ ev_reason ev = EventReason (SEvent sig) /\
         ev_run ev = SRun sig /\ ev_credential ev = CredID (SCredential sig) /\
         view (holds db') (CredID (SCredential sig)) = Some (ev_reason ev, ev_resume_at ev)) /\
      (forall id, id ≠ CredID (SCredential sig) -> holds db' !! id = holds db !! id) /\
      (forall i, i ≠ SItem sig -> claims db' !! i = claims db !! i) /\
      match claims db !! SItem sig with
      | Some (run, step) =>
          if StepMoved res
          then IsTerminal step = false /\ exists target, SignalStep (SEvent sig) = Some target /\
               PhaseOf target = PhasePaused /\ claims db' !! SItem sig = Some (run, target)
          else claims db' !! SItem sig = Some (run, step)
      | None => StepMoved res = false /\ claims db' !! SItem sig = None
      end /\
      (forall i run step, claims db !! i = Some (run, step) -> IsTerminal step = true ->
         claims db' !! i = Some (run, step))
  end.
Proof.
  unfold ApplyCredentialSignal.
  destruct (validate c); [by left|]. destruct (CredentialSignal_validate sig); [right; by left|].
  case_bool_decide; [auto|]. case_bool_decide; [auto|].
  pose proof (record_hold_view c k now (holds db) (SCredential sig) (EventReason (SEvent sig))
    (SRetryAfter sig) (SItem sig) (SRun sig)) as Hv.
  destruct (record_hold _ _ _ _ _ _ _ _ _) as [led epi]. destruct Hv as (_ & _ & Hv & Hne & _).
  pose proof (moveStep_cases (claims db) (SItem sig) (SEvent sig)) as Hcl.
  destruct (moveStep _ _ _) as [cl moved]. cbn.
  split_and!.
  - eexists. split_and!; [done..|]. exact Hv.
  - exact Hne.
  - intros i Hi. destruct Hcl as [[_ ->]|(? & ? & ? & _ & -> & _)]; [done|]. by rewrite lookup_insert_ne.
  - destruct Hcl as [[-> ->]|(run & step & target & -> & -> & Hc & ? & ? & ?)].
    + by destruct (claims db !! SItem sig) as [[? ?]|].
    + rewrite Hc. split; [done|]. exists target. by rewrite lookup_insert_eq.
  - intros i run step Hi Ht. destruct Hcl as [[_ ->]|(r & s & t & _ & -> & Hc & Hs & _)]; [done|].
    rewrite lookup_insert_ne; [done|]. intros <-. rewrite Hc in Hi. by simplify_eq; congruence.
Qed.

(** The step move does not check the run (a limit of the code). A late
    signal of an earlier run pauses the claim of the item although another run
    holds it now. *)
Theorem signal_pauses_successor :
  exists db' res,
    ApplyCredentialSignal DefaultProdResumeConfig 0 0
      {| claims := {["item" := ("run-2", StepRunning)]}; holds := ∅; outbox := [] |} "shim" "proj"
      {| SRun := "run-1"; SItem := "item";
         SCredential := {| CredID := "ns/secret"; Principal := "p"; CClass := ClassAPIKey |};
         SEvent := EventExpired; SRetryAfter := None |} = Ok (db', res) /\
    claims db' !! "item" = Some ("run-2", StepPausedCredentialExpired).
Proof. eexists _, _. split; reflexivity. Qed.

(** The live set is narrower than its comment. A credential signal moves a
    claim out of exactly these eight steps; the other non-terminal steps of the
    run machine (pending, claiming, cancelling, and the credential_required
    hold) are left where they are. *)
Theorem pausable_steps s :
  (exists raw, s = StepOther raw) \/
  (s ∈ pausedFromSteps <->
   IsTerminal s = false /\ (s ∉ [StepPending; StepClaimingSandbox; StepCancelling;
                                 StepPausedCredentialRequired])).
Proof.
  set (out := [StepPending; StepClaimingSandbox; StepCancelling; StepPausedCredentialRequired]).
  assert (Hb : (exists raw, s = StepOther raw) \/
    bool_decide (s ∈ pausedFromSteps) = negb (IsTerminal s) && bool_decide (s ∉ out)).
  { destruct s; try (right; vm_compute; reflexivity). left. eexists. reflexivity. }
  destruct Hb as [Hb|Hb]; [by left|right].
  rewrite <- (bool_decide_eq_true (s ∈ pausedFromSteps)), Hb, andb_true_iff, negb_true_iff,
    bool_decide_eq_true. done.
Qed.

(** * The wake loop *)

(** An environment fires only an armed timer. *)
Definition env_ok {T} (e : wake_env T) : Prop :=
  match env_choice e, env_next e with
  | Fired _, Ok None => False
  | _, _ => True
  end.

Definition is_ReadNext {T} (e : wake_event T) : bool := match e with ReadNext => true | _ => false end.
Definition is_ReadDue {T} (e : wake_event T) : bool := match e with ReadDue => true | _ => false end.
Definition count_ev {T} (f : wake_event T -> bool) (l : list (wake_event T)) : nat :=
  length (List.filter f l).

(** No claim attempt follows a claimless one without at least the guard's
    sleep in between; [gap] is whether the last claim attempt found nothing. *)
Fixpoint guarded {T} (gap : bool) (l : list (wake_event T)) : Prop :=
  match l with
  | [] => True
  | ArmTimer d :: l => (gap = true -> 0 < d) /\ guarded false l
  | ReadDue :: OnDue due :: l => due ≠ [] /\ guarded false l
  | ReadDue :: l => guarded true l
  | OnDue _ :: l => False
  | _ :: l => guarded gap l
  end.

Lemma wake_run_head {T} skew (es : list (wake_env T)) due l : wake_run skew es ≠ OnDue due :: l.
Proof.
  destruct es as [|e es]; cbn [wake_run]; [done|]. unfold wake_iter. repeat case_match; by simplify_eq/=.
Qed.

Lemma guarded_due {T} gap (l : list (wake_event T)) :
  (forall due l', l ≠ OnDue due :: l') -> guarded true l -> guarded gap (ReadDue :: l).
Proof. intros Hl Hg. destruct l as [|[] l]; cbn in *; try done. Qed.

Lemma guarded_run {T} (es : list (wake_env T)) gap skew :
  Forall env_ok es -> (gap = true -> skew = true) -> guarded gap (wake_run skew es).
Proof.
  revert gap skew. induction es as [|e es IH]; intros gap skew Hok Hg; [done|].
  apply Forall_cons in Hok as [He Hok]. cbn [wake_run]. unfold wake_iter, env_ok in *.
  destruct (env_next e) as [[at_|]|x]; [| |by cbn].
  - assert (Hd : gap = true -> 0 < (if (until at_ (env_now e) <=? 0) && skew
      then 50 * millisecond else until at_ (env_now e))).
    { intros ->. rewrite (Hg eq_refl), andb_true_r.
      destruct (Z.leb_spec (until at_ (env_now e)) 0); unfold millisecond; lia. }
    destruct (env_choice e) as [| |[[|d due]|x]]; cbn [app guarded]; (split; [exact Hd|]); try done.
    + by apply IH.
    + change (guarded false (ReadDue :: wake_run true es)).
      apply guarded_due; [intros; apply wake_run_head|]. by apply IH.
    + split; [done|]. by apply IH.
  - destruct (env_choice e) as [| |due]; cbn [app guarded]; try done. by apply IH.
Qed.

Lemma read_next_bound {T} (es : list (wake_env T)) skew :
  (count_ev is_ReadNext (wake_run skew es) <= length es)%nat /\
  (count_ev is_ReadDue (wake_run skew es) <= count_ev is_ReadNext (wake_run skew es))%nat.
Proof.
  revert skew. induction es as [|e es IH]; intros skew; [cbn; lia|].
  cbn [wake_run]. destruct (wake_iter skew e) as [evs next] eqn:Hi.
  assert (Hone : count_ev is_ReadNext evs = 1%nat /\ (count_ev is_ReadDue evs <= 1)%nat).
  { unfold wake_iter in Hi. repeat case_match; simplify_eq/=; cbn; lia. }
  unfold count_ev in *. rewrite !List.filter_app, !length_app.
  destruct next as [skew'|]; [specialize (IH skew')|]; cbn; lia.
Qed.

(** The wake loop does not poll. Each turn of the loop reads the next wake
    once and claims at most once; a claim is made only after an armed timer
    fired, the callback runs only on a non-empty batch, and after a claim that
    found nothing the loop sleeps a positive time before it claims again, even
    when the local clock is already past the wake. *)
Theorem wake_loop_no_spin {T} (es : list (wake_env T)) :
  Forall env_ok es ->
  guarded false (wake_run false es) /\
  (count_ev is_ReadDue (wake_run false es) <= count_ev is_ReadNext (wake_run false es) <= length es)%nat.
Proof.
  intros Hok. split; [by apply guarded_run|].
  destruct (read_next_bound es false). lia.
Qed.

(** * Witnesses *)

Definition demo_cred : CredentialRef :=
  {| CredID := "ns/key"; Principal := "ana"; CClass := ClassAPIKey |}.
Definition demo_hold : CredPauseRequest :=
  {| Credential := demo_cred; Reason := ReasonRateLimited; ReqRetryAfter := Some 30;
     ReqItem := ""; ReqRun := "" |}.

(** Hold, an early claim that finds nothing, the claim at the wake, and a second
    claim that finds nothing. *)
Lemma resumes_exactly_once_witness :
  exists led, cred_reach DefaultCredPauseConfig led [EHold "ns/key" ReasonRateLimited (Some 130); EWake "ns/key" 130] /\
    exactly_once "ns/key" None [EHold "ns/key" ReasonRateLimited (Some 130); EWake "ns/key" 130] /\
    view led "ns/key" = None.
Proof.
  set (c := DefaultCredPauseConfig).
  set (l1 := (cred_exec c 100 ∅ (CPause demo_hold 0)).1).
  set (l2 := (cred_exec c 129 l1 (CDue ∅)).1).
  set (l3 := (cred_exec c 130 l2 (CDue ∅)).1).
  set (l4 := (cred_exec c 200 l3 (CDue ∅)).1).
  assert (Hr : cred_reach c l4 ((((([] ++ [EHold "ns/key" ReasonRateLimited (Some 130)]) ++ []) ++ [EWake "ns/key" 130])) ++ [])).
  { eapply (reach_op c l3 _ 200 (CDue ∅)); [|rewrite (surjective_pairing (cred_exec c 200 l3 (CDue ∅))); f_equal; vm_compute; reflexivity].
    eapply (reach_op c l2 _ 130 (CDue ∅)); [|rewrite (surjective_pairing (cred_exec c 130 l2 (CDue ∅))); f_equal; vm_compute; reflexivity].
    eapply (reach_op c l1 _ 129 (CDue ∅)); [|rewrite (surjective_pairing (cred_exec c 129 l1 (CDue ∅))); f_equal; vm_compute; reflexivity].
    eapply (reach_op c ∅ _ 100 (CPause demo_hold 0)); [constructor|rewrite (surjective_pairing (cred_exec c 100 ∅ (CPause demo_hold 0))); f_equal; vm_compute; reflexivity]. }
  cbn [app] in Hr. exists l4. split; [exact Hr|].
  destruct (resumes_exactly_once c l4 _ "ns/key" Hr) as [H1 H2]. split; [exact H1|].
  rewrite <- H2. reflexivity.
Defined.

Lemma backoff_envelope_witness :
  2 * second <= EqualJitter (BackoffBase DefaultResumeConfig) (BackoffCap DefaultResumeConfig) 3 (2 ^ 52)
    <= 4 * second.
Proof. apply (backoff_envelope 3 (2 ^ 52)). vm_compute. split; [discriminate|reflexivity]. Defined.

Lemma backoff_capped_witness :
  0 <= EqualJitter (50 * millisecond) (800 * millisecond) 6 7 <= 800 * millisecond.
Proof.
  apply (backoff_capped (50 * millisecond) (800 * millisecond) 6 7); vm_compute;
    [reflexivity|split; reflexivity|split; [discriminate|reflexivity]].
Defined.

Lemma wake_loop_no_spin_witness :
  let es := [{| env_next := Ok (Some 10); env_now := 10; env_choice := Fired (Ok []) |};
             {| env_next := Ok (Some 10); env_now := 10; env_choice := Fired (Ok ["item"]) |};
             {| env_next := Ok None; env_now := 11; env_choice := CtxDone |}] in
  wake_run false es = [ReadNext; ArmTimer 0; ReadDue; ReadNext; ArmTimer (50 * millisecond); ReadDue;
                       OnDue ["item"]; ReadNext; Returned "context canceled"] /\
  guarded false (wake_run false es).
Proof.
  intros es. split; [reflexivity|].
  apply (wake_loop_no_spin es). repeat constructor.
Defined.
