(* ===== verification/ProdStore.v ===== *)
(** The production stores over the coord schema: the per-run reconcile store
    (src/pkg/coord/prodreconcile.go), the follow-settlement marker
    (src/pkg/coord/a2asettle.go) and the board-lane moves
    (src/pkg/coord/humanstate.go).

    A transaction is a function from the database to its next value; a statement
    that can fail takes the failing statement as an argument ([fault]), and a
    failed or rolled-back transaction returns the database unchanged. [is_uuid]
    is uuid.Parse of the uuid library, [carrier] the trace carrier of the
    request's span. *)
From S2P Require Import Prelude Machine.
Open Scope Z_scope.

(** * The rows *)

Record WorkItem : Set := { wi_project : string; wi_team : option string; wi_state : string }.

Record ClaimRow : Set := {
  reconcile_step : Step;
  fence_token : Z;
  assignee_agent : option string;
  reclaim_fenced_at : option Z;
}.

Record Lap : Set := {
  lap_task : string;
  lap_item : string;
  lap_run : string;
  dispatched_at : Z;
  settled_at : option Z;
  settle_outcome : option string;
}.

Record AuditRow : Set := {
  au_item : string;
  au_run : option string;
  au_event : string;
  au_principal : string;
  au_initiator : option string;
  au_fence : option Z;
  au_from : string;
  au_to : string;
  au_via : string; (* payload.initiator of a lane move *)
}.

Record OutboxRow : Set := {
  ob_entity : string;
  ob_event : string;
  ob_item : string;
  ob_run : string;
  ob_project : string;
  ob_squad : option string;
  ob_from : string;
  ob_to : string;
  ob_fence : Z;
  ob_trace : option string;
  ob_agent : option string;
  ob_sandbox : option string;
  ob_carrier : option string;
}.

Record Comment : Set := { cm_item : string; cm_author : string; cm_body : string }.

Record CoordDB : Set := {
  work_item : gmap string WorkItem;
  claim : gmap string ClaimRow;
  sandbox_bind : gmap string string;
  a2a_dispatch : gmap string Lap;
  audit_log : list AuditRow;
  outbox : list OutboxRow;
  comment : list Comment;
}.

Definition nullif_empty (s : string) : option string := if bool_decide (s = "") then None else Some s.

Definition set_claim (item : string) (c : ClaimRow) (db : CoordDB) : CoordDB :=
  {| work_item := work_item db; claim := <[item := c]> (claim db);
     sandbox_bind := sandbox_bind db; a2a_dispatch := a2a_dispatch db;
     audit_log := audit_log db; outbox := outbox db; comment := comment db |}.
Definition set_lane (item : string) (w : WorkItem) (db : CoordDB) : CoordDB :=
  {| work_item := <[item := w]> (work_item db); claim := claim db;
     sandbox_bind := sandbox_bind db; a2a_dispatch := a2a_dispatch db;
     audit_log := audit_log db; outbox := outbox db; comment := comment db |}.
Definition set_lap (l : Lap) (db : CoordDB) : CoordDB :=
  {| work_item := work_item db; claim := claim db;
     sandbox_bind := sandbox_bind db; a2a_dispatch := <[lap_task l := l]> (a2a_dispatch db);
     audit_log := audit_log db; outbox := outbox db; comment := comment db |}.
Definition add_audit (r : AuditRow) (db : CoordDB) : CoordDB :=
  {| work_item := work_item db; claim := claim db;
     sandbox_bind := sandbox_bind db; a2a_dispatch := a2a_dispatch db;
     audit_log := audit_log db ++ [r]; outbox := outbox db; comment := comment db |}.
Definition add_outbox (rs : list OutboxRow) (db : CoordDB) : CoordDB :=
  {| work_item := work_item db; claim := claim db;
     sandbox_bind := sandbox_bind db; a2a_dispatch := a2a_dispatch db;
     audit_log := audit_log db; outbox := outbox db ++ rs; comment := comment db |}.
Definition add_comment (c : Comment) (db : CoordDB) : CoordDB :=
  {| work_item := work_item db; claim := claim db;
     sandbox_bind := sandbox_bind db; a2a_dispatch := a2a_dispatch db;
     audit_log := audit_log db; outbox := outbox db; comment := comment db ++ [c] |}.

(** * Follow settlement *)

Definition SettleOutcomeSucceeded : string := "succeeded".
Definition SettleOutcomeFailed : string := "failed".
Definition SettleOutcomeFollowError : string := "follow_error".

Definition settleFailureComment (reason a2aTaskID agent : string) : string :=
  let who := if bool_decide (agent = "") then "" else " — agent " +:+ agent in
  "Run failed: " +:+ reason +:+ " (a2a task " +:+ a2aTaskID +:+ ")" +:+ who.

Definition mark_settled (now : Z) (outcome : string) (l : Lap) : Lap :=
  {| lap_task := lap_task l; lap_item := lap_item l; lap_run := lap_run l;
     dispatched_at := dispatched_at l; settled_at := Some now; settle_outcome := Some outcome |}.

(** [principal]: the writer's. *)
Definition Settle (principal : string) (now : Z) (db : CoordDB) (a2aTaskID runID outcome reason : string)
  : CoordDB * option string :=
  if bool_decide (outcome ∉ [SettleOutcomeSucceeded; SettleOutcomeFailed; SettleOutcomeFollowError])
  then (db, Some ("coord.ProdSettler.Settle: invalid outcome " +:+ outcome))
  else
    match a2a_dispatch db !! a2aTaskID with
    | None => (db, None)
    | Some l =>
        match settled_at l with
        | Some _ => (db, None)
        | None =>
            let item := lap_item l in
            let db := set_lap (mark_settled now outcome l) db in
            let db := add_audit {| au_item := item; au_run := Some runID; au_event := "a2a_settled";
                                   au_principal := principal; au_initiator := None; au_fence := None;
                                   au_from := ""; au_to := outcome; au_via := "" |} db in
            if bool_decide (outcome = SettleOutcomeFailed /\ reason ≠ "") then
              let agent := default "" (claim db !! item ≫= assignee_agent) in
              (add_comment {| cm_item := item; cm_author := principal;
                              cm_body := settleFailureComment reason a2aTaskID agent |} db, None)
            else (db, None)
        end
    end.

Definition A2AFollowGateOpen (dispatched settled : bool) (outcome : string) : bool :=
  if negb dispatched then true
  else settled && bool_decide (outcome = SettleOutcomeSucceeded).

(** ORDER BY dispatched_at DESC, a2a_task_id DESC *)
Definition lap_order (a b : Lap) : Prop :=
  dispatched_at b < dispatched_at a \/
  (dispatched_at a = dispatched_at b /\ String.le (lap_task b) (lap_task a)).

#[export] Instance lap_order_dec a b : Decision (lap_order a b).
Proof. unfold lap_order. apply _. Defined.

Definition laps_of (db : CoordDB) (runID : string) : list Lap :=
  filter (fun l => lap_run l = runID) ((map_to_list (a2a_dispatch db)).*2).

Section readers.
Context (is_uuid : string -> bool).

Definition latestLapSettlement (db : CoordDB) (runID : string) : bool * bool * string :=
  if bool_decide (runID = "") then (false, false, "")
  else if negb (is_uuid runID) then (false, false, "")
  else
    match merge_sort lap_order (laps_of db runID) with
    | [] => (false, false, "")
    | l :: _ => (true, match settled_at l with Some _ => true | None => false end,
                 default "" (settle_outcome l))
    end.

Definition Settled (db : CoordDB) (runID : string) : bool :=
  existsb (fun l => match settled_at l with Some _ => true | None => false end) (laps_of db runID).

Definition SettledForWorkItem (db : CoordDB) (workItemID : string) : bool * bool :=
  if bool_decide (workItemID = "") then (false, false)
  else if negb (is_uuid workItemID) then (false, false)
  else
    let laps := filter (fun l => lap_item l = workItemID) ((map_to_list (a2a_dispatch db)).*2) in
    (negb (bool_decide (laps = [])),
     existsb (fun l => match settled_at l with Some _ => true | None => false end) laps).
End readers.

#[export] Instance Lap_eq_dec : EqDecision Lap.
Proof. solve_decision. Defined.

(** * The per-run reconcile store *)

Record ProdReconcileStore : Set := {
  db : CoordDB;
  workItemID : string;
  runID : string;
  principal : string;
  initiatedBy : string;
  traceID : string;
  a2aFollowGate : bool;
  err : option string;
}.

Definition with_db (d : CoordDB) (s : ProdReconcileStore) : ProdReconcileStore :=
  {| db := d; workItemID := workItemID s; runID := runID s; principal := principal s;
     initiatedBy := initiatedBy s; traceID := traceID s; a2aFollowGate := a2aFollowGate s;
     err := err s |}.

(** The first error sticks. *)
Definition fail (e : string) (s : ProdReconcileStore) : ProdReconcileStore :=
  {| db := db s; workItemID := workItemID s; runID := runID s; principal := principal s;
     initiatedBy := initiatedBy s; traceID := traceID s; a2aFollowGate := a2aFollowGate s;
     err := match err s with None => Some e | Some x => Some x end |}.

Definition NewProdReconcileStore (d : CoordDB) (workItemID runID principal initiatedBy : string)
  : result string ProdReconcileStore :=
  if bool_decide (workItemID = "" \/ runID = "" \/ principal = "")
  then Err "coord.NewProdReconcileStore: workItemID, runID and principal are required"
  else Ok {| db := d; workItemID := workItemID; runID := runID; principal := principal;
             initiatedBy := initiatedBy; traceID := ""; a2aFollowGate := false; err := None |}.

Definition WithTraceID (t : string) (s : ProdReconcileStore) : ProdReconcileStore :=
  {| db := db s; workItemID := workItemID s; runID := runID s; principal := principal s;
     initiatedBy := initiatedBy s; traceID := t; a2aFollowGate := a2aFollowGate s; err := err s |}.
Definition WithA2AFollowGate (on : bool) (s : ProdReconcileStore) : ProdReconcileStore :=
  {| db := db s; workItemID := workItemID s; runID := runID s; principal := principal s;
     initiatedBy := initiatedBy s; traceID := traceID s; a2aFollowGate := on; err := err s |}.

(** [fails]: whether the query errors (a missing row is an error too). *)
Definition Step_read (fails : bool) (s : ProdReconcileStore) : ProdReconcileStore * Step :=
  match (if fails then None else claim (db s) !! workItemID s) with
  | Some c => (s, reconcile_step c)
  | None => (fail "coord.ProdReconcileStore.Step" s, StepNone)
  end.

Definition Fence_read (fails : bool) (s : ProdReconcileStore) : ProdReconcileStore * Z :=
  match (if fails then None else claim (db s) !! workItemID s) with
  | Some c => (s, fence_token c)
  | None => (fail "coord.ProdReconcileStore.Fence" s, 0)
  end.

(** The statement an infrastructure failure hits. A failed commit may have
    landed on the server or not. *)
Inductive AdvFault : Set :=
| FGate | FBegin | FUpdate | FAudit | FOutbox | FLifecycle (i : nat) | FCommit (landed : bool).

#[export] Instance AdvFault_eq_dec : EqDecision AdvFault.
Proof. solve_decision. Defined.

Section advance.
Context (is_uuid : string -> bool) (carrier : option string).

(** The rows one committed advance writes. *)
Definition audit_row (s : ProdReconcileStore) (expected next : Step) (fenceAfter : Z) : AuditRow :=
  {| au_item := workItemID s; au_run := Some (runID s); au_event := "reconcile_advanced";
     au_principal := principal s; au_initiator := nullif_empty (initiatedBy s);
     au_fence := Some fenceAfter; au_from := step_string expected; au_to := step_string next;
     au_via := "" |}.

(** INSERT ... SELECT FROM work_item WHERE id = $1 *)
Definition advanced_rows (s : ProdReconcileStore) (expected next : Step) (fenceAfter : Z)
  : list OutboxRow :=
  match work_item (db s) !! workItemID s with
  | None => []
  | Some wi =>
      [{| ob_entity := "run"; ob_event := "reconcile_advanced"; ob_item := workItemID s;
          ob_run := runID s; ob_project := wi_project wi; ob_squad := wi_team wi;
          ob_from := step_string expected; ob_to := step_string next; ob_fence := fenceAfter;
          ob_trace := nullif_empty (traceID s); ob_agent := None; ob_sandbox := None;
          ob_carrier := carrier |}]
  end.

Definition lifecycle_rows (s : ProdReconcileStore) (expected next : Step) (fenceAfter : Z)
    (ev : LifecycleEvent) : list OutboxRow :=
  match work_item (db s) !! workItemID s, claim (db s) !! workItemID s with
  | Some wi, Some c =>
      [{| ob_entity := Entity ev; ob_event := EventType ev; ob_item := workItemID s;
          ob_run := runID s; ob_project := wi_project wi; ob_squad := wi_team wi;
          ob_from := step_string expected; ob_to := step_string next; ob_fence := fenceAfter;
          ob_trace := nullif_empty (traceID s); ob_agent := assignee_agent c;
          ob_sandbox := sandbox_bind (db s) !! runID s ≫= nullif_empty; ob_carrier := carrier |}]
  | _, _ => []
  end.

(** What the four statements of a committed advance do to the database. *)
Definition committed (s : ProdReconcileStore) (c : ClaimRow) (expected next : Step) : CoordDB :=
  let row := {| reconcile_step := next; fence_token := fence_token c;
                assignee_agent := assignee_agent c; reclaim_fenced_at := reclaim_fenced_at c |} in
  add_outbox (advanced_rows s expected next (fence_token c) ++
              flat_map (lifecycle_rows s expected next (fence_token c)) (LifecycleEventsFor expected next))
    (add_audit (audit_row s expected next (fence_token c)) (set_claim (workItemID s) row (db s))).

Definition gate_closed (s : ProdReconcileStore) (expected next : Step) : bool :=
  a2aFollowGate s && bool_decide (expected = StepCollecting /\ next = StepSucceeded) &&
  (let '(dispatched, settled, outcome) := latestLapSettlement is_uuid (db s) (runID s) in
   negb (A2AFollowGateOpen dispatched settled outcome)).

Definition gated (s : ProdReconcileStore) (expected next : Step) : bool :=
  a2aFollowGate s && bool_decide (expected = StepCollecting /\ next = StepSucceeded).

(** The column holds the spelling of a step; [StepOther] never carries the spelling
    of a declared one, so comparing steps is comparing spellings. The settlement
    query only runs for a uuid. *)
Definition Advance (fault : option AdvFault) (s : ProdReconcileStore) (expected next : Step)
    (fence : option Z) : ProdReconcileStore * bool :=
  if gated s expected next && is_uuid (runID s) && bool_decide (fault = Some FGate) then
    (fail "coord.ProdReconcileStore.Advance: follow-settlement gate" s, false)
  else if gate_closed s expected next then (s, false)
  else if bool_decide (fault = Some FBegin) then
    (fail "coord.ProdReconcileStore.Advance: begin" s, false)
  else if bool_decide (fault = Some FUpdate) then
    (fail "coord.ProdReconcileStore.Advance: update" s, false)
  else
    match claim (db s) !! workItemID s with
    | None => (s, false)
    | Some c =>
        if negb (bool_decide (reconcile_step c = expected) &&
                 match fence with None => true | Some f => fence_token c =? f end)
        then (s, false)
        else
          match fault with
          | Some FAudit => (fail "coord.ProdReconcileStore.Advance: audit" s, false)
          | Some FOutbox => (fail "coord.ProdReconcileStore.Advance: outbox" s, false)
          | Some (FLifecycle i) =>
              if (i <? length (LifecycleEventsFor expected next))%nat
              then (fail "coord.ProdReconcileStore.Advance: lifecycle" s, false)
              else (with_db (committed s c expected next) s, true)
          | Some (FCommit landed) =>
              (fail "coord.ProdReconcileStore.Advance: commit"
                 (if landed then with_db (committed s c expected next) s else s), false)
          | _ => (with_db (committed s c expected next) s, true)
          end
    end.
End advance.

Definition Reclaim (fails : bool) (now : Z) (s : ProdReconcileStore) (newFence : Z)
  : ProdReconcileStore * bool :=
  if fails then (fail "coord.ProdReconcileStore.Reclaim" s, false)
  else
    match claim (db s) !! workItemID s with
    | Some c =>
        if fence_token c <? newFence
        then (with_db (set_claim (workItemID s)
                {| reconcile_step := reconcile_step c; fence_token := newFence;
                   assignee_agent := assignee_agent c; reclaim_fenced_at := Some now |} (db s)) s, true)
        else (s, false)
    | None => (s, false)
    end.

Definition SetStep (fails : bool) (s : ProdReconcileStore) (step : Step) : ProdReconcileStore :=
  if fails then fail "coord.ProdReconcileStore.SetStep" s
  else
    match claim (db s) !! workItemID s with
    | Some c =>
        with_db (set_claim (workItemID s)
          {| reconcile_step := step; fence_token := fence_token c;
             assignee_agent := assignee_agent c; reclaim_fenced_at := reclaim_fenced_at c |} (db s)) s
    | None => s
    end.

Definition AuditRows (s : ProdReconcileStore) : Z :=
  Z.of_nat (length (filter (fun r => au_item r = workItemID s /\ au_event r = "reconcile_advanced")
                      (audit_log (db s)))).

Definition OutboxRows (s : ProdReconcileStore) : Z :=
  Z.of_nat (length (filter (fun r => ob_item r = workItemID s /\ ob_event r = "reconcile_advanced")
                      (outbox (db s)))).

(** * Board-lane moves *)

Definition humanStates : list string :=
  ["backlog"; "todo"; "design"; "planning"; "implementation"; "code_review"; "testing";
   "documentation"; "done"; "cancelled"; "in_progress"; "in_review"].

Definition terminalStates : list string := ["done"; "cancelled"].

Definition phaseTransitionAllowed (from to : string) : bool :=
  if bool_decide (from = to) then false
  else if bool_decide (from ∉ terminalStates) then true
  else bool_decide (to ∉ terminalStates).

Inductive MoveError : Set :=
| ErrRequired | ErrInvalidState | ErrWorkItemNotFound | ErrStateConflict | ErrTransitionNotAllowed.

#[export] Instance MoveError_eq_dec : EqDecision MoveError.
Proof. solve_decision. Defined.

Record StateTransition : Set := { WorkItemID : string; FromState : string; ToState : string }.

(** The timing read and the telemetry do not touch the tables. *)
Definition transition (d : CoordDB) (workItemID teamID targetState fromState principal
    initiator initiatedByUserID : string) : CoordDB * result MoveError StateTransition :=
  if bool_decide (workItemID = "" \/ targetState = "" \/ principal = "") then (d, Err ErrRequired)
  else if bool_decide (targetState ∉ humanStates) then (d, Err ErrInvalidState)
  else if bool_decide (fromState ≠ "" /\ fromState ∉ humanStates) then (d, Err ErrInvalidState)
  else
    match work_item d !! workItemID with
    | None => (d, Err ErrWorkItemNotFound)
    | Some wi =>
        if bool_decide (teamID ≠ "" /\ wi_team wi ≠ Some teamID) then (d, Err ErrWorkItemNotFound)
        else if bool_decide (fromState ≠ "" /\ wi_state wi ≠ fromState) then (d, Err ErrStateConflict)
        else if bool_decide (wi_state wi = targetState) then (d, Err ErrStateConflict)
        else if negb (phaseTransitionAllowed (wi_state wi) targetState)
        then (d, Err ErrTransitionNotAllowed)
        else
          (add_audit {| au_item := workItemID; au_run := None; au_event := "state_transition";
                        au_principal := principal; au_initiator := nullif_empty initiatedByUserID;
                        au_fence := None; au_from := wi_state wi; au_to := targetState;
                        au_via := initiator |}
             (set_lane workItemID {| wi_project := wi_project wi; wi_team := wi_team wi;
                                     wi_state := targetState |} d),
           Ok {| WorkItemID := workItemID; FromState := wi_state wi; ToState := targetState |})
    end.

Definition TransitionState (d : CoordDB)
    (workItemID teamID targetState fromState principal initiatedByUserID : string) :=
  transition d workItemID teamID targetState fromState principal "human" initiatedByUserID.

Definition AgentTransitionState (d : CoordDB) (workItemID targetState fromState principal : string) :=
  transition d workItemID "" targetState fromState principal "agent" "".
