(* ===== verification/ProdStoreProps.v ===== *)
(** Correctness of the production stores: the reconcile store implements the seam
    the run machine is proved against, its advance is atomic under any failure,
    the follow gate, settlement and lane moves. *)
From S2P Require Import Prelude Machine ProdStore.
Open Scope Z_scope.

(** * The store against the machine's interface *)

(** The rows a bound store relies on: its work item and its claim row. *)
Definition bound (s : ProdReconcileStore) : bool :=
  match work_item (db s) !! workItemID s, claim (db s) !! workItemID s with
  | Some _, Some _ => true
  | _, _ => false
  end.

Lemma bound_rows s :
  bound s = true -> exists wi c, work_item (db s) !! workItemID s = Some wi /\ claim (db s) !! workItemID s = Some c.
Proof. unfold bound. intros Hb. repeat case_match; try done. eauto. Qed.

Definition step_of (s : ProdReconcileStore) : Step := (Step_read false s).2.
Definition fence_of (s : ProdReconcileStore) : Z := (Fence_read false s).2.

Lemma lifecycle_not_advanced expected next ev :
  ev ∈ LifecycleEventsFor expected next -> EventType ev ≠ "reconcile_advanced".
Proof. intros Hin. destruct expected, next; cbn in Hin; set_solver. Qed.

Lemma filter_lifecycle carrier s expected next f :
  filter (fun r => ob_item r = workItemID s /\ ob_event r = "reconcile_advanced")
    (flat_map (lifecycle_rows carrier s expected next f) (LifecycleEventsFor expected next)) = [].
Proof.
  pose proof (lifecycle_not_advanced expected next) as Hev.
  induction (LifecycleEventsFor expected next) as [|ev evs IH]; [done|].
  cbn [flat_map]. rewrite filter_app, IH by (intros; apply Hev; by right). rewrite app_nil_r.
  unfold lifecycle_rows. repeat case_match; [|done..].
  rewrite filter_cons_False; [done|]. cbn. intros [_ He]. by eapply (Hev ev); [left|].
Qed.

(** What a committed advance shows through the store's reads. *)
Lemma committed_reads carrier s c expected next :
  bound s = true -> claim (db s) !! workItemID s = Some c ->
  let s' := with_db (committed carrier s c expected next) s in
  step_of s' = next /\ fence_of s' = fence_token c /\
  AuditRows s' = AuditRows s + 1 /\ OutboxRows s' = OutboxRows s + 1 /\ bound s' = true.
Proof.
  intros Hb Hc. destruct (bound_rows _ Hb) as (wi & c' & Hwi & Hc'). simplify_eq. cbv zeta.
  unfold step_of, fence_of, Step_read, Fence_read, AuditRows, OutboxRows, bound, committed; cbn.
  rewrite !lookup_insert_eq, Hwi. split_and!; try done.
  - rewrite filter_app, length_app, filter_cons_True by done. cbn [length filter list_filter]. lia.
  - rewrite !filter_app, !length_app, filter_lifecycle. unfold advanced_rows. rewrite Hwi.
    rewrite filter_cons_True by done. cbn [length filter list_filter]. lia.
Qed.

Lemma fail_reads e s :
  step_of (fail e s) = step_of s /\ fence_of (fail e s) = fence_of s /\
  AuditRows (fail e s) = AuditRows s /\ OutboxRows (fail e s) = OutboxRows s /\ bound (fail e s) = bound s.
Proof.
  unfold step_of, fence_of, Step_read, Fence_read, AuditRows, OutboxRows, bound, fail; cbn.
  by destruct (claim (db s) !! workItemID s).
Qed.

Section seam.
Context (is_uuid : string -> bool) (carrier : option string).

(** Every outcome of an advance, whatever statement fails. *)
Lemma Advance_cases fault s expected next fence :
  let '(s', ok) := Advance is_uuid carrier fault s expected next fence in
  (ok = true /\ exists c, claim (db s) !! workItemID s = Some c /\ reconcile_step c = expected /\
     (forall f, fence = Some f -> fence_token c = f) /\
     gate_closed is_uuid s expected next = false /\
     s' = with_db (committed carrier s c expected next) s) \/
  (ok = false /\ s' = s) \/
  (ok = false /\ exists e, s' = fail e s) \/
  (ok = false /\ fault = Some (FCommit true) /\ exists c e, claim (db s) !! workItemID s = Some c /\
     reconcile_step c = expected /\ (forall f, fence = Some f -> fence_token c = f) /\
     gate_closed is_uuid s expected next = false /\
     s' = fail e (with_db (committed carrier s c expected next) s)).
Proof.
  unfold Advance. destruct (gated _ _ _ && _ && _); [eauto 6|].
  destruct (gate_closed is_uuid s expected next) eqn:Hg; [eauto|].
  case_bool_decide; [eauto 6|]. case_bool_decide; [eauto 6|].
  destruct (claim (db s) !! workItemID s) as [c|] eqn:Hc; [|eauto].
  destruct (bool_decide (reconcile_step c = expected)) eqn:Hs; cbn; [|eauto].
  apply bool_decide_eq_true in Hs.
  destruct (match fence with None => true | Some f => fence_token c =? f end) eqn:Hf; cbn; [|eauto].
  assert (Hfe : forall f, fence = Some f -> fence_token c = f).
  { intros f ->. by apply Z.eqb_eq in Hf. }
  destruct fault as [[| | | | |i|landed]|]; eauto 8.
  - match goal with |- context [if ?b then (fail _ _, _) else _] => destruct b end;
      [right; right; left; eauto|left; split; [done|]; exists c; done].
  - destruct landed; [right; right; right; eauto 12|eauto 8].
Qed.

Lemma Advance_bound s expected next fence :
  bound s = true -> bound (Advance is_uuid carrier None s expected next fence).1 = true.
Proof.
  intros Hb. pose proof (Advance_cases None s expected next fence) as Hc.
  destruct (Advance _ _ _ _ _ _ _) as [s' ok].
  destruct Hc as [(_ & c & Hc & _ & _ & _ & ->)|[(_ & ->)|[(_ & e & ->)|(_ & ? & _)]]]; [|done| |done].
  - by apply committed_reads.
  - cbn [fst]. by destruct (fail_reads e s) as (_ & _ & _ & _ & ->).
Qed.

Lemma Reclaim_reads now s f :
  bound s = true ->
  let '(s', ok) := Reclaim false now s f in
  bound s' = true /\ step_of s' = step_of s /\ AuditRows s' = AuditRows s /\ OutboxRows s' = OutboxRows s /\
  (if ok then fence_of s < f /\ fence_of s' = f else f <= fence_of s /\ s' = s).
Proof.
  intros Hb. destruct (bound_rows _ Hb) as (wi & c & Hwi & Hc). unfold Reclaim. rewrite Hc.
  assert (Hf : fence_of s = fence_token c) by (unfold fence_of, Fence_read; by rewrite Hc).
  destruct (Z.ltb_spec (fence_token c) f).
  - unfold step_of, fence_of, Step_read, Fence_read, bound; cbn.
    rewrite lookup_insert_eq, Hwi, Hc. cbn. split_and!; try done; unfold AuditRows, OutboxRows; done.
  - split_and!; try done; lia.
Qed.

Lemma SetStep_reads s t :
  bound s = true ->
  let s' := SetStep false s t in
  bound s' = true /\ step_of s' = t /\ fence_of s' = fence_of s /\ AuditRows s' = AuditRows s /\
  OutboxRows s' = OutboxRows s.
Proof.
  intros Hb. destruct (bound_rows _ Hb) as (wi & c & Hwi & Hc). cbv zeta. unfold SetStep. rewrite Hc.
  unfold step_of, fence_of, Step_read, Fence_read, bound; cbn.
  rewrite lookup_insert_eq, Hwi, Hc. cbn. split_and!; try done; unfold AuditRows, OutboxRows; done.
Qed.

(** The store with its rows in place, on a healthy database at clock [now]. *)
Definition BoundStore : Set := { s : ProdReconcileStore | bound s = true }.
Context (now : Z).

Definition advance_bound (s : BoundStore) (e n : Step) (f : option Z) : BoundStore * bool :=
  (exist _ _ (Advance_bound (proj1_sig s) e n f (proj2_sig s)),
   (Advance is_uuid carrier None (proj1_sig s) e n f).2).

Lemma Reclaim_bound (s : BoundStore) f : bound (Reclaim false now (proj1_sig s) f).1 = true.
Proof.
  pose proof (Reclaim_reads now (proj1_sig s) f (proj2_sig s)) as H.
  destruct (Reclaim _ _ _ _). apply H.
Qed.

#[export] Instance ProdStore_Store : Store BoundStore := {|
  st_Step s := step_of (proj1_sig s);
  st_Fence s := fence_of (proj1_sig s);
  st_Advance := advance_bound;
  st_Reclaim s f := (exist _ _ (Reclaim_bound s f), (Reclaim false now (proj1_sig s) f).2);
  st_SetStep s t := exist _ _ (proj1 (SetStep_reads (proj1_sig s) t (proj2_sig s)));
  st_AuditRows s := AuditRows (proj1_sig s);
  st_OutboxRows s := OutboxRows (proj1_sig s);
|}.

Lemma ProdStore_laws : StoreLaws BoundStore.
Proof.
  split.
  - intros [s Hb] e n f s'. cbn. unfold advance_bound. intros [= <- Hok]. cbn in *.
    pose proof (Advance_cases None s e n f) as Hc. destruct (Advance _ _ _ _ _ _ _) as [s' ok]. cbn in *.
    destruct Hc as [(_ & c & Hc & He & Hf & _ & ->)|[(? & _)|[(? & _)|(? & _)]]]; try congruence.
    destruct (committed_reads carrier s c e n Hb Hc) as (H1 & H2 & H3 & H4 & _).
    assert (Hrow : step_of s = reconcile_step c /\ fence_of s = fence_token c)
      by (unfold step_of, fence_of, Step_read, Fence_read; by rewrite Hc).
    destruct Hrow as [Hst Hfe]. split_and!; try congruence. intros g Hg. rewrite Hfe. auto.
  - intros [s Hb] e n f s'. cbn. unfold advance_bound. intros [= <- Hok]. cbn in *.
    pose proof (Advance_cases None s e n f) as Hc. destruct (Advance _ _ _ _ _ _ _) as [s' ok]. cbn in *.
    destruct Hc as [(? & _)|[(_ & ->)|[(_ & x & ->)|(_ & ? & _)]]]; [congruence|done| |done].
    destruct (fail_reads x s) as (-> & -> & -> & -> & _). done.
  - intros [s Hb] f s'. cbn -[Reclaim]. intros Heq.
    pose proof (f_equal snd Heq) as Hok. apply (f_equal fst) in Heq. cbn [fst snd] in *. subst s'.
    pose proof (Reclaim_reads now s f Hb) as H. revert Hok H. cbn -[Reclaim].
    destruct (Reclaim _ _ _ _) as [s' ok]. cbn. intros -> (_ & -> & -> & -> & ? & ?). by subst.
  - intros [s Hb] f s'. cbn -[Reclaim]. intros Heq.
    pose proof (f_equal snd Heq) as Hok. apply (f_equal fst) in Heq. cbn [fst snd] in *. subst s'.
    pose proof (Reclaim_reads now s f Hb) as H. revert Hok H. cbn -[Reclaim].
    destruct (Reclaim _ _ _ _) as [s' ok]. cbn. intros -> (_ & -> & -> & -> & ? & ?). by subst.
  - intros [s Hb] t. cbn -[SetStep]. by destruct (SetStep_reads s t Hb) as (_ & ? & _).
  - intros [s Hb] t. cbn -[SetStep]. destruct (SetStep_reads s t Hb) as (_ & _ & ? & ? & ?). done.
Qed.
End seam.

(** * Laps *)

Lemma string_le_total (x y : string) : String.le x y \/ String.le y x.
Proof. apply (total String.le). Qed.

#[export] Instance lap_order_total : Total lap_order.
Proof.
  intros a b. unfold lap_order.
  destruct (Z.lt_total (dispatched_at a) (dispatched_at b)) as [?|[?|?]]; [by right; left| |by left; left].
  destruct (string_le_total (lap_task b) (lap_task a)); [left|right]; right; auto.
Qed.
#[export] Instance lap_order_trans : Transitive lap_order.
Proof.
  intros a b c. unfold lap_order. intros [?|[? ?]] [?|[? ?]]; [left; lia..|].
  right. split; [congruence|]. by etrans.
Qed.

Lemma latest_lap is_uuid d run :
  run ≠ "" -> is_uuid run = true ->
  match latestLapSettlement is_uuid d run with
  | (false, _, _) => laps_of d run = []
  | (true, settled, outcome) =>
      exists l, l ∈ laps_of d run /\ Forall (fun l' => dispatched_at l' <= dispatched_at l) (laps_of d run) /\
        settled = (match settled_at l with Some _ => true | None => false end) /\
        outcome = default "" (settle_outcome l)
  end.
Proof.
  intros Hr Hu. unfold latestLapSettlement. rewrite bool_decide_eq_false_2, Hu by done. cbn.
  pose proof (merge_sort_Permutation lap_order (laps_of d run)) as Hp.
  assert (Hs : StronglySorted lap_order (merge_sort lap_order (laps_of d run)))
    by apply (StronglySorted_merge_sort _ _).
  destruct (merge_sort lap_order (laps_of d run)) as [|l ls] eqn:Hm.
  - by apply Permutation_nil in Hp.
  - exists l. split_and!; [rewrite <- Hp; left| |done|done].
    rewrite <- Hp. apply StronglySorted_inv in Hs as [_ Hall].
    constructor; [lia|]. eapply Forall_impl; [exact Hall|]. unfold lap_order. intros. lia.
Qed.

(** * Properties *)

(** C4: the production store implements the machine's seam. Bound to a run whose
    work item and claim rows exist, on a healthy database, the reconcile store
    satisfies every law of the interface the run machine's at-most-once and
    refinement theorems are proved against: guarded step-and-fence advance with
    exactly one audit and one outbox row, monotonic reclaim, and step re-entry. *)
Theorem prod_store_implements_seam is_uuid carrier now :
  @StoreLaws BoundStore (ProdStore_Store is_uuid carrier now).
Proof. apply ProdStore_laws. Qed.

(** An advance is all or nothing. Whatever statement fails, an advance either
    leaves every table as it was or commits all of the step move, the audit row
    and the outbox rows together; it answers true only for a commit, it answers
    false without capturing an error only when nothing was written, and the only
    way to answer false over a commit is an ambiguous commit failure, which is
    captured. *)
Theorem advance_all_or_nothing is_uuid carrier fault s expected next fence :
  let '(s', ok) := Advance is_uuid carrier fault s expected next fence in
  let unchanged := db s' = db s in
  let moved := exists c, claim (db s) !! workItemID s = Some c /\ reconcile_step c = expected /\
    (forall f, fence = Some f -> fence_token c = f) /\
    db s' = committed carrier s c expected next in
  (ok = true -> moved /\ err s' = err s) /\
  (ok = false -> err s' = err s -> unchanged \/ err s ≠ None) /\
  (ok = false -> unchanged \/ (fault = Some (FCommit true) /\ moved /\ err s' ≠ None)).
Proof.
  pose proof (Advance_cases is_uuid carrier fault s expected next fence) as Hc.
  destruct (Advance _ _ _ _ _ _ _) as [s' ok].
  destruct Hc as [(-> & c & Hc & He & Hf & _ & ->)|[(-> & ->)|[(-> & e & ->)|(-> & Hfa & c & e & Hc & He & Hf & _ & ->)]]];
    cbv zeta.
  - split; [|done]. intros _. split; [by exists c|done].
  - split; [done|]. split; by left.
  - split; [done|]. split; by left.
  - split; [done|]. cbn. split; intros _.
    + destruct (err s); [intros _; by right|done].
    + right. split; [done|]. split; [by exists c|by destruct (err s)].
Qed.

(** The follow gate. A gated store commits the terminal collecting-to-succeeded
    advance of a real run only when the run has no dispatch lap at all, or when
    its most recent lap has durably settled as succeeded: an unsettled, failed or
    broken follow, or an older lap's success, never finishes the run. *)
Theorem follow_gate_holds is_uuid carrier fault s fence s' :
  a2aFollowGate s = true -> runID s ≠ "" -> is_uuid (runID s) = true ->
  Advance is_uuid carrier fault s StepCollecting StepSucceeded fence = (s', true) ->
  laps_of (db s) (runID s) = [] \/
  exists l, l ∈ laps_of (db s) (runID s) /\
    Forall (fun l' => dispatched_at l' <= dispatched_at l) (laps_of (db s) (runID s)) /\
    is_Some (settled_at l) /\ settle_outcome l = Some SettleOutcomeSucceeded.
Proof.
  intros Hgate Hr Hu Ha.
  pose proof (Advance_cases is_uuid carrier fault s StepCollecting StepSucceeded fence) as Hc. rewrite Ha in Hc.
  destruct Hc as [(_ & c & _ & _ & _ & Hg & _)|[(? & _)|[(? & _)|(? & _)]]]; [|done..].
  unfold gate_closed in Hg. rewrite Hgate, bool_decide_eq_true_2 in Hg by done. cbn [andb] in Hg.
  pose proof (latest_lap is_uuid (db s) (runID s) Hr Hu) as Hl.
  destruct (latestLapSettlement _ _ _) as [[[|] settled] outcome]; [|by left].
  right. destruct Hl as (l & Hin & Hmax & Hs & Ho). exists l. split_and!; [done|done|..];
    unfold A2AFollowGateOpen in Hg; cbn in Hg; apply negb_false_iff, andb_true_iff in Hg as [Hst Hou];
    apply bool_decide_eq_true in Hou; subst settled; rewrite Hou in Ho.
  - by destruct (settled_at l).
  - destruct (settle_outcome l) as [o|]; cbn in Ho; [by f_equal|discriminate].
Qed.

(** settlement is written once. Settling a dispatch lap marks it, audits it
    and, exactly for a failure with a reason, comments on the item, in one step;
    it changes neither the claims nor the board; an invalid outcome is an error,
    and an unknown or already settled lap, in particular a second settlement
    with any outcome, changes nothing. *)
Theorem settle_once principal now d task run outcome reason :
  let '(d', e) := Settle principal now d task run outcome reason in
  claim d' = claim d /\ work_item d' = work_item d /\ outbox d' = outbox d /\
  (e ≠ None -> d' = d) /\
  (d' ≠ d -> exists l, a2a_dispatch d !! task = Some l /\ settled_at l = None /\
     (lap_task l = task ->
        a2a_dispatch d' !! task = Some (mark_settled now outcome l) /\
        (forall p t r o x, (Settle p t d' task r o x).1 = d')) /\
     length (audit_log d') = S (length (audit_log d)) /\
     length (comment d') = (length (comment d) +
        if bool_decide (outcome = SettleOutcomeFailed /\ reason ≠ "") then 1 else 0)%nat).
Proof.
  unfold Settle. case_bool_decide; [done|].
  destruct (a2a_dispatch d !! task) as [l|] eqn:Hl; [|done].
  destruct (settled_at l) eqn:Hs; [done|].
  case_bool_decide as Hc; cbn; (split_and!; [done..|]); intros _; exists l;
    (split_and!; [done|done| |rewrite length_app; cbn; lia|rewrite ?length_app; cbn; lia]);
    intros Htask; rewrite Htask; (split; [by rewrite lookup_insert_eq|]);
    intros p t r o x; case_bool_decide; [done| |done|]; cbn; by rewrite lookup_insert_eq.
Qed.

(** a board move is guarded and audited. A lane move succeeds exactly when its
    arguments and lanes are valid, the item exists in the caller's team, the
    caller's expected lane holds, the lane changes, and the move does not cross
    from one terminal lane to the other; it then writes the lane and exactly one
    audit row with the two lanes, the principal and the initiator. Every refusal
    leaves the database as it was, and no move touches claims, fences or the
    outbox. *)
Theorem lane_move_spec d item team target from principal initiator who :
  let '(d', res) := transition d item team target from principal initiator who in
  claim d' = claim d /\ outbox d' = outbox d /\ a2a_dispatch d' = a2a_dispatch d /\
  match res with
  | Err _ => d' = d
  | Ok mv => exists wi, work_item d !! item = Some wi /\
      mv = {| WorkItemID := item; FromState := wi_state wi; ToState := target |} /\
      target ∈ humanStates /\ wi_state wi ≠ target /\
      (team = "" \/ wi_team wi = Some team) /\ (from = "" \/ from = wi_state wi) /\
      ~ (wi_state wi ∈ terminalStates /\ target ∈ terminalStates) /\
      (wi_state <$> work_item d' !! item) = Some target /\
      (forall i, i ≠ item -> work_item d' !! i = work_item d !! i) /\
      exists row, audit_log d' = audit_log d ++ [row] /\ au_from row = wi_state wi /\ au_to row = target /\
        au_principal row = principal /\ au_via row = initiator /\ au_fence row = None
  end.
Proof.
  unfold transition. case_bool_decide as H1; [done|]. case_bool_decide as H2; [done|].
  case_bool_decide as H3; [done|]. destruct (work_item d !! item) as [wi|] eqn:Hwi; [|done].
  case_bool_decide as H4; [done|]. case_bool_decide as H5; [done|]. case_bool_decide as H6; [done|].
  destruct (phaseTransitionAllowed (wi_state wi) target) eqn:Hp; [|done]. cbn.
  split_and!; [done..|]. exists wi. split_and!; [done|done|done|done|..].
  - destruct (decide (team = "")), (decide (wi_team wi = Some team)); tauto.
  - destruct (decide (from = "")), (decide (wi_state wi = from)); auto; tauto.
  - unfold phaseTransitionAllowed in Hp. rewrite bool_decide_eq_false_2 in Hp by done.
    intros [Ha Hb]. rewrite bool_decide_eq_false_2 in Hp by tauto. by apply bool_decide_eq_true in Hp.
  - by rewrite lookup_insert_eq.
  - intros i Hi. by rewrite lookup_insert_ne.
  - eexists. split_and!; reflexivity.
Qed.

(** * Witnesses *)

Definition demo_lap (task : string) (at_ : Z) (settled : option (Z * string)) : Lap :=
  {| lap_task := task; lap_item := "i"; lap_run := "r"; dispatched_at := at_;
     settled_at := fst <$> settled; settle_outcome := snd <$> settled |}.

(** A run at collecting whose second lap succeeded after a broken first one. *)
Definition demo_store : ProdReconcileStore :=
  {| db := {| work_item := {["i" := {| wi_project := "p"; wi_team := Some "t"; wi_state := "in_progress" |}]};
              claim := {["i" := {| reconcile_step := StepCollecting; fence_token := 4;
                                   assignee_agent := Some "a"; reclaim_fenced_at := None |}]};
              sandbox_bind := ∅;
              a2a_dispatch := <["r#1" := demo_lap "r#1" 10 (Some (20, "follow_error"))]>
                                {["r#2" := demo_lap "r#2" 30 (Some (40, "succeeded"))]};
              audit_log := []; outbox := []; comment := [] |};
     workItemID := "i"; runID := "r"; principal := "operator"; initiatedBy := ""; traceID := "";
     a2aFollowGate := true; err := None |}.

Lemma follow_gate_holds_witness :
  exists l, l ∈ laps_of (db demo_store) "r" /\ settle_outcome l = Some SettleOutcomeSucceeded.
Proof.
  assert (Ha : Advance (fun _ => true) None None demo_store StepCollecting StepSucceeded (Some 4) =
    ((Advance (fun _ => true) None None demo_store StepCollecting StepSucceeded (Some 4)).1, true)).
  { rewrite (surjective_pairing (Advance _ _ _ _ _ _ _)) at 1. f_equal. }
  destruct (follow_gate_holds (fun _ => true) None None demo_store (Some 4) _ eq_refl
    ltac:(discriminate) eq_refl Ha) as [H|(l & Hin & _ & _ & Ho)].
  - exfalso. assert (Hlen : length (laps_of (db demo_store) (runID demo_store)) = 2%nat) by (vm_compute; reflexivity).
    rewrite H in Hlen. discriminate.
  - exists l. split; [exact Hin|exact Ho].
Defined.
