(* ===== verification/CoordDb.v ===== *)
(** The production coordination schema (src/db/migrations) as the claim, settle,
    cancel, re-route, hand-off and dispatch writers of src/pkg/coord and
    src/pkg/controller/rundrive see it, and the transactions they run on it.

    A transaction is a function from the tables to the next ones that can return
    early, which rolls it back. The environment says which statements fail, what
    clock_timestamp() reads at each, and whether a failed commit had landed; a
    malformed uuid is a failing statement, and so is a fence past bigint. Ids are
    canonical uuid texts; instants are not rounded to microseconds. Row locks are
    held to the end of a transaction, so a transaction is one step. Best-effort reads inside one are
    taken to succeed: a failed one makes PostgreSQL refuse the next statement. *)
From S2P Require Import Prelude Machine.
Open Scope Z_scope.

(** * Rows *)

Record ItemRow : Set := {
  it_project : string;
  it_team : option string;
  it_parent : option string;
  it_title : string;
  it_body : string;
  it_state : string;
  it_blocked : option string;
  it_source : string;
  it_created_by : string;
  it_created_at : Z;
  it_updated_at : Z;
  it_requested : option string; (* requested_agent *)
}.

Record ClaimRow : Set := {
  holder_principal : option string;
  run_id : option string;
  fence_token : Z;
  lease_expires_at : option Z;
  acquired_at : option Z;
  renewed_at : option Z;
  initiated_by : option string;
  assignee_agent : option string;
  reconcile_step : Step;
  reclaim_fenced_at : option Z;
}.

(** A jsonb payload: the fields the code builds (a string, a number, an instant in
    RFC 3339, an array of strings), or a document stored whole in its normalized
    text. *)
Inductive Field : Set :=
| FStr (s : string)
| FInt (n : Z)
| FBool (b : bool)
| FTime (t : Z)
| FList (l : list string)
| FNull.

Inductive Payload : Set :=
| NoPayload
| Fields (kvs : list (string * Field))
| Doc (canonical : string).

Record AuditRow : Set := {
  au_item : string;
  au_run : option string;
  au_event : string;
  au_principal : string;
  au_initiator : option string;
  au_fence : option Z;
  au_from : option string;
  au_to : option string;
  au_payload : Payload;
}.

Record OutboxRow : Set := {
  ob_entity : string;
  ob_event : string;
  ob_item : string;
  ob_run : option string;
  ob_payload : list (string * Field);
}.

Record CommentRow : Set := {
  cm_item : string;
  cm_author : string;
  cm_body : string;
  cm_kind : string;
  cm_run : option string;
  cm_at : Z;
}.

Record HoldRow : Set := {
  throttled_credential : string;
  attempt : Z;
  resume_at : Z;
  released_fence : Z;
  released_run : string;
  coordinator : string;
}.

Record DispatchRow : Set := {
  source_item : string;
  source_run : string;
  created_item : string;
  coordinator_principal : string;
}.

Record ChangeRef : Set := {
  cr_item : string;
  cr_run : string;
  cr_kind : string;
  cr_ref : string;
  cr_summary : string;
  cr_at : Z;
}.

(** UNIQUE (item, run, kind) *)
Record ArtifactRow : Set := {
  ar_item : string;
  ar_run : string;
  ar_kind : string;
  ar_uri : string;
  ar_sha256 : string;
  ar_meta : Payload;
  ar_at : Z;
}.

Record Db : Set := {
  items : gmap string ItemRow;
  claims : gmap string ClaimRow;
  audits : list AuditRow;
  outbox : list OutboxRow;
  comments : list CommentRow;
  artifacts : list ArtifactRow;
  holds : gmap string HoldRow;
  dispatches : gmap string DispatchRow;
  a2a_dispatch : gmap string (string * string); (* task to item and run *)
  sandbox_bind : gmap string (string * string); (* run to item and sandbox *)
  change_refs : list ChangeRef;
}.

Definition set_items (m : gmap string ItemRow) (d : Db) : Db :=
  {| items := m; claims := claims d; audits := audits d; outbox := outbox d; comments := comments d;
     artifacts := artifacts d; holds := holds d; dispatches := dispatches d;
     a2a_dispatch := a2a_dispatch d; sandbox_bind := sandbox_bind d; change_refs := change_refs d |}.
Definition set_claims (m : gmap string ClaimRow) (d : Db) : Db :=
  {| items := items d; claims := m; audits := audits d; outbox := outbox d; comments := comments d;
     artifacts := artifacts d; holds := holds d; dispatches := dispatches d;
     a2a_dispatch := a2a_dispatch d; sandbox_bind := sandbox_bind d; change_refs := change_refs d |}.
Definition add_audit (r : AuditRow) (d : Db) : Db :=
  {| items := items d; claims := claims d; audits := audits d ++ [r]; outbox := outbox d;
     comments := comments d; artifacts := artifacts d; holds := holds d; dispatches := dispatches d;
     a2a_dispatch := a2a_dispatch d; sandbox_bind := sandbox_bind d; change_refs := change_refs d |}.
Definition add_outbox (rs : list OutboxRow) (d : Db) : Db :=
  {| items := items d; claims := claims d; audits := audits d; outbox := outbox d ++ rs;
     comments := comments d; artifacts := artifacts d; holds := holds d; dispatches := dispatches d;
     a2a_dispatch := a2a_dispatch d; sandbox_bind := sandbox_bind d; change_refs := change_refs d |}.
Definition add_comment (r : CommentRow) (d : Db) : Db :=
  {| items := items d; claims := claims d; audits := audits d; outbox := outbox d;
     comments := comments d ++ [r]; artifacts := artifacts d; holds := holds d;
     dispatches := dispatches d; a2a_dispatch := a2a_dispatch d; sandbox_bind := sandbox_bind d;
     change_refs := change_refs d |}.
Definition set_artifacts (l : list ArtifactRow) (d : Db) : Db :=
  {| items := items d; claims := claims d; audits := audits d; outbox := outbox d;
     comments := comments d; artifacts := l; holds := holds d; dispatches := dispatches d;
     a2a_dispatch := a2a_dispatch d; sandbox_bind := sandbox_bind d; change_refs := change_refs d |}.
Definition set_holds (m : gmap string HoldRow) (d : Db) : Db :=
  {| items := items d; claims := claims d; audits := audits d; outbox := outbox d;
     comments := comments d; artifacts := artifacts d; holds := m; dispatches := dispatches d;
     a2a_dispatch := a2a_dispatch d; sandbox_bind := sandbox_bind d; change_refs := change_refs d |}.
Definition set_dispatches (m : gmap string DispatchRow) (d : Db) : Db :=
  {| items := items d; claims := claims d; audits := audits d; outbox := outbox d;
     comments := comments d; artifacts := artifacts d; holds := holds d; dispatches := m;
     a2a_dispatch := a2a_dispatch d; sandbox_bind := sandbox_bind d; change_refs := change_refs d |}.
Definition set_a2a (m : gmap string (string * string)) (d : Db) : Db :=
  {| items := items d; claims := claims d; audits := audits d; outbox := outbox d;
     comments := comments d; artifacts := artifacts d; holds := holds d; dispatches := dispatches d;
     a2a_dispatch := m; sandbox_bind := sandbox_bind d; change_refs := change_refs d |}.
Definition set_bind (m : gmap string (string * string)) (d : Db) : Db :=
  {| items := items d; claims := claims d; audits := audits d; outbox := outbox d;
     comments := comments d; artifacts := artifacts d; holds := holds d; dispatches := dispatches d;
     a2a_dispatch := a2a_dispatch d; sandbox_bind := m; change_refs := change_refs d |}.

Definition put_claim (item : string) (c : ClaimRow) (d : Db) : Db := set_claims (<[item := c]> (claims d)) d.

(** UPDATE work_item ...: the touch trigger stamps updated_at. *)
Definition put_lane (now : Z) (item lane : string) (w : ItemRow) (d : Db) : Db :=
  set_items (<[item := {| it_project := it_project w; it_team := it_team w; it_parent := it_parent w;
                          it_title := it_title w; it_body := it_body w; it_state := lane;
                          it_blocked := it_blocked w; it_source := it_source w;
                          it_created_by := it_created_by w; it_created_at := it_created_at w;
                          it_updated_at := now; it_requested := it_requested w |}]> (items d)) d.

Definition put_blocked (now : Z) (item reason : string) (w : ItemRow) (d : Db) : Db :=
  set_items (<[item := {| it_project := it_project w; it_team := it_team w; it_parent := it_parent w;
                          it_title := it_title w; it_body := it_body w; it_state := it_state w;
                          it_blocked := Some reason; it_source := it_source w;
                          it_created_by := it_created_by w; it_created_at := it_created_at w;
                          it_updated_at := now; it_requested := it_requested w |}]> (items d)) d.

(** NULLIF($n, '') *)
Definition nullif (s : string) : option string := if bool_decide (s = "") then None else Some s.

(** INSERT INTO work_item: the trigger provisions the unheld claim row at fence
    0, and a child takes its parent's team. *)
Definition unheld : ClaimRow :=
  {| holder_principal := None; run_id := None; fence_token := 0; lease_expires_at := None;
     acquired_at := None; renewed_at := None; initiated_by := None; assignee_agent := None;
     reconcile_step := StepPending; reclaim_fenced_at := None |}.

Definition insert_item (id : string) (w : ItemRow) (d : Db) : Db :=
  put_claim id unheld (set_items (<[id := w]> (items d)) d).

(** ORDER BY created_at; rows of one instant keep their order. *)
Definition older {A} (at_ : A -> Z) (x y : A) : Prop := at_ x <= at_ y.

#[export] Instance older_dec {A} (at_ : A -> Z) : RelDecision (older at_).
Proof. intros x y. unfold older. apply _. Defined.

Definition by_time {A} (at_ : A -> Z) (l : list A) : list A := merge_sort (older at_) l.

(** * Errors and transactions *)

Inductive CoordErr : Type :=
| Infra (statement : string)
| Port (what : string) (* a physical mechanism behind a port *)
| Invalid (msg : string)
| NoSuchItem (id : string)
| ErrNotHandoffCustodian
| ErrSourceNotComplete
| ErrCompletingRunMismatch (names asserts : string)
| ErrNotRerouteCustodian
| ErrRerouteNotInProgress (state : string).

Record TxEnv : Type := {
  faulty : string -> bool;
  clock : string -> Z;     (* clock_timestamp() at a statement *)
  tx_now : Z;              (* now(): the start of the transaction *)
  landed : bool;           (* a failed commit took effect *)
}.

(** A transaction that will return a [B]: it goes on with an [A], or returns and
    rolls back. *)
Definition Tx (B A : Type) : Type := TxEnv -> Db -> (Db * A) + result CoordErr B.

Definition tret {B A} (a : A) : Tx B A := fun _ d => inl (d, a).
Definition tbind {B A C} (m : Tx B A) (k : A -> Tx B C) : Tx B C :=
  fun env d => match m env d with
               | inl (d', a) => k a env d'
               | inr r => inr r
               end.

(** return without committing *)
Definition leave_with {B A} (r : TxEnv -> Db -> result CoordErr B) : Tx B A := fun env d => inr (r env d).
Definition leave {B A} (r : result CoordErr B) : Tx B A := leave_with (fun _ _ => r).

(** A read whose failure the code ignores. *)
Definition peek {B A} (f : Db -> A) : Tx B A := fun _ d => inl (d, f d).

(** A statement, which may fail. *)
Definition stmt {B A} (label : string) (f : TxEnv -> Db -> Db * A) : Tx B A :=
  fun env d => if faulty env label then inr (Err (Infra label)) else inl (f env d).

Definition query {B A} (label : string) (f : TxEnv -> Db -> A) : Tx B A :=
  stmt label (fun env d => (d, f env d)).

Definition exec {B} (label : string) (f : TxEnv -> Db -> Db) : Tx B unit :=
  stmt label (fun env d => (f env d, tt)).

Notation "'let!' x ':=' m 'in' k" := (tbind m (fun x => k))
  (at level 10, x pattern, m at level 100, k at level 200) : k8s_scope.
Notation "m ';;' k" := (tbind m (fun _ => k))
  (at level 100, k at level 200, right associativity) : k8s_scope.

(** A statement outside a transaction commits by itself; one that fails on the way
    back may still have taken effect. *)
Definition autocommit {A} (env : TxEnv) (label : string) (f : TxEnv -> Db -> Db * A) (d : Db)
    : Db * result CoordErr A :=
  if faulty env label then ((if landed env then fst (f env d) else d), Err (Infra label))
  else let (d', a) := f env d in (d', Ok a).

Definition runTx {B} (env : TxEnv) (t : Tx B B) (d : Db) : Db * result CoordErr B :=
  if faulty env "begin" then (d, Err (Infra "begin"))
  else match t env d with
       | inr r => (d, r)
       | inl (d', b) =>
           if faulty env "commit" then ((if landed env then d' else d), Err (Infra "commit"))
           else (d', Ok b)
       end.

(** The outbox row of an INSERT ... SELECT FROM work_item: none for a missing
    item. *)
Definition outbox_row (entity event item : string) (run : option string) (payload : list (string * Field))
    (d : Db) : list OutboxRow :=
  match items d !! item with
  | Some _ => [{| ob_entity := entity; ob_event := event; ob_item := item; ob_run := run;
                  ob_payload := payload |}]
  | None => []
  end.
