(* ===== verification/ProdClaim.v ===== *)
(** The production claim (src/pkg/coord/prodclaim.go, prodheartbeat.go), the
    rate-limit re-route and its credentialed claims (prodreroute.go), and the
    claimed event (src/pkg/events/capture.go).

    Each transaction is the sequence of its statements in the monad of [CoordDb].
    [interval] is PostgreSQL's reading of an interval literal, in nanoseconds. *)
From Stdlib Require Import Ascii.
From S2P Require Import Prelude Machine CoordDb.
Open Scope Z_scope.
Open Scope k8s_scope.

(** * Configuration *)

Record ProdConfig : Type := {
  LeaseInterval : string;
  ClaimableState : string;
  ClaimedState : string;
}.

Definition DefaultProdConfig : ProdConfig :=
  {| LeaseInterval := "30 seconds"; ClaimableState := "todo"; ClaimedState := "in_progress" |}.

Record ProdClaimer : Type := { pc_cfg : ProdConfig; emitOutbox : bool }.

Definition NewProdClaimer (cfg : ProdConfig) (capture : bool) : result CoordErr ProdClaimer :=
  if bool_decide (LeaseInterval cfg = "") || bool_decide (ClaimableState cfg = "") ||
     bool_decide (ClaimedState cfg = "")
  then Err (Invalid "coord.NewProdClaimer: incomplete config")
  else Ok {| pc_cfg := cfg; emitOutbox := capture |}.

(** ** Credential identities *)

Definition bad_key_char (a : ascii) : bool :=
  let n := Z.of_nat (nat_of_ascii a) in (n <=? 32) || (n =? 127).

Definition validateCredentialKey (field key : string) : result CoordErr unit :=
  if 253 <? Z.of_nat (String.length key)
  then Err (Invalid ("coord: " +:+ field +:+ " looks like token material, not an opaque identity"))
  else if existsb bad_key_char (String.list_ascii_of_string key)
  then Err (Invalid ("coord: " +:+ field +:+ " contains whitespace/control characters"))
  else Ok tt.

(** * The work-item event *)

(** CaptureForWorkItem: no row to derive the tenancy from is an error. *)
Definition CaptureForWorkItem {B} (item run event : string) (payload : list (string * Field)) : Tx B unit :=
  if bool_decide (item = "") then leave (Err (Invalid "events.CaptureForWorkItem: workItemID is required"))
  else if bool_decide (event = "") then leave (Err (Invalid "events.CaptureForWorkItem: eventType is required"))
  else
    let! n := stmt "outbox" (fun _ d =>
      let rows := outbox_row "work_item" event item (nullif run) payload d in
      (add_outbox rows d, length rows)) in
    if bool_decide (n = 0%nat) then leave (Err (NoSuchItem item)) else tret tt.

Definition claimEventPayload (principal : string) (fence : Z) : list (string * Field) :=
  [("v", FInt 1); ("principal", FStr principal); ("fence", FInt fence)].

(** * The claim *)

Section claimer.
Context (interval : string -> Z) (p : ProdClaimer).

Definition captureClaim {B} (item run principal : string) (fence : Z) : Tx B unit :=
  if emitOutbox p
  then CaptureForWorkItem item run "claimed" (claimEventPayload principal fence)
  else tret tt.

(** holder_principal IS NULL OR lease_expires_at < clock_timestamp() *)
Definition claimable (c : ClaimRow) (now : Z) : bool :=
  bool_decide (holder_principal c = None) || sql_ltb (lease_expires_at c) now.

(** EXISTS a hold pinning the credential whose resume_at is still ahead;
    [None]: the claim carries no guard. *)
Definition held_for (cred : option string) (item : string) (now : Z) (d : Db) : bool :=
  match cred, holds d !! item with
  | Some k, Some h => bool_decide (throttled_credential h = k) && (now <? resume_at h)
  | _, _ => false
  end.

(** ORDER BY created_at, id *)
Definition pick_le (a b : Z * string) : Prop :=
  a.1 < b.1 \/ (a.1 = b.1 /\ String.le a.2 b.2).

#[export] Instance pick_le_dec : RelDecision pick_le.
Proof. intros a b. unfold pick_le. apply _. Defined.

(** [locked]: the items whose rows other transactions hold. *)
Definition pickable (cred : option string) (locked : list string) (now : Z) (d : Db) (kv : string * ItemRow) : bool :=
  bool_decide (it_state kv.2 = ClaimableState (pc_cfg p)) &&
  match claims d !! kv.1 with Some c => claimable c now | None => false end &&
  negb (held_for cred kv.1 now d) && bool_decide (kv.1 ∉ locked).

Definition pick (cred : option string) (locked : list string) (now : Z) (d : Db) : option string :=
  snd <$> head (merge_sort pick_le
    ((fun kv : string * ItemRow => (it_created_at kv.2, kv.1)) <$>
       filter (fun kv => pickable cred locked now d kv = true) (map_to_list (items d)))).

Definition acquired (c : ClaimRow) (principal run initiator : string) (now : Z) : ClaimRow :=
  {| holder_principal := Some principal; run_id := Some run; fence_token := fence_token c + 1;
     lease_expires_at := Some (now + interval (LeaseInterval (pc_cfg p)));
     acquired_at := Some now; renewed_at := None; initiated_by := nullif initiator;
     assignee_agent := assignee_agent c; reconcile_step := reconcile_step c;
     reclaim_fenced_at := reclaim_fenced_at c |}.

(** The guarded UPDATE: the fresh fence, or no row. *)
Definition acquire {B} (cred : option string) (principal run initiator item : string) : Tx B (option Z) :=
  stmt "acquire" (fun env d =>
    let now := clock env "acquire" in
    match claims d !! item with
    | Some c =>
        if claimable c now && negb (held_for cred item now d)
        then (put_claim item (acquired c principal run initiator now) d, Some (fence_token c + 1))
        else (d, None)
    | None => (d, None)
    end).

Definition set_assignee (agent : string) (c : ClaimRow) : ClaimRow :=
  {| holder_principal := holder_principal c; run_id := run_id c; fence_token := fence_token c;
     lease_expires_at := lease_expires_at c; acquired_at := acquired_at c; renewed_at := renewed_at c;
     initiated_by := initiated_by c; assignee_agent := Some agent; reconcile_step := reconcile_step c;
     reclaim_fenced_at := reclaim_fenced_at c |}.

(** The attribution stamp, on the row this acquire has just rewritten. *)
Definition stampAssignee {B} (agent item run : string) (fence : Z) : Tx B unit :=
  if bool_decide (agent = "") then tret tt
  else exec "assignee" (fun _ d =>
    match claims d !! item with
    | Some c => if sql_eqb (run_id c) run && (fence_token c =? fence)
                then put_claim item (set_assignee agent c) d else d
    | None => d
    end).

(** UPDATE work_item SET state = claimed WHERE state IN (claimable, claimed):
    whether a row matched. *)
Definition mark {B} (item : string) : Tx B bool :=
  stmt "mark" (fun env d =>
    match items d !! item with
    | Some w =>
        if bool_decide (it_state w ∈ [ClaimableState (pc_cfg p); ClaimedState (pc_cfg p)])
        then (put_lane (tx_now env) item (ClaimedState (pc_cfg p)) w d, true)
        else (d, false)
    | None => (d, false)
    end).

Definition auditClaim {B} (item run principal initiator : string) (fence : Z) : Tx B unit :=
  exec "audit" (fun _ d => add_audit
    {| au_item := item; au_run := Some run; au_event := "claim_acquired"; au_principal := principal;
       au_initiator := nullif initiator; au_fence := Some fence;
       au_from := Some (ClaimableState (pc_cfg p)); au_to := Some (ClaimedState (pc_cfg p));
       au_payload := NoPayload |} d).

(** What every claim does to the item it has chosen. [None] is ok = false, with
    the transaction rolled back. *)
Definition claimTail (cred : option string) (principal run initiator agent item : string)
    : Tx (option (string * Z)) (option (string * Z)) :=
  let! got := acquire cred principal run initiator item in
  match got with
  | None => leave (Ok None)
  | Some fence =>
      stampAssignee agent item run fence ;;
      let! marked := mark item in
      if marked : bool then
        auditClaim item run principal initiator fence ;;
        captureClaim item run principal fence ;;
        tret (Some (item, fence))
      else leave (Ok None)
  end.

Definition popTail (cred : option string) (locked : list string) (principal run initiator : string)
    : Tx (option (string * Z)) (option (string * Z)) :=
  let! id := query "pick" (fun env d => pick cred locked (clock env "pick") d) in
  match id with
  | None => leave (Ok None)
  | Some item => claimTail cred principal run initiator "" item
  end.

Definition ClaimNext (env : TxEnv) (locked : list string) (principal run initiator : string) (d : Db)
    : Db * result CoordErr (option (string * Z)) :=
  if bool_decide (principal = "") || bool_decide (run = "")
  then (d, Err (Invalid "coord.ProdClaimer.ClaimNext: principal and runID are required"))
  else runTx env (popTail None locked principal run initiator) d.

Definition ClaimableCount (env : TxEnv) (d : Db) : Db * result CoordErr nat :=
  autocommit env "count" (fun _ d =>
    (d, length (filter (fun kv => it_state kv.2 = ClaimableState (pc_cfg p)) (map_to_list (items d))))) d.

Definition AcquireSpecific (env : TxEnv) (principal run item initiator agent : string) (d : Db)
    : Db * result CoordErr (option (string * Z)) :=
  if bool_decide (principal = "") || bool_decide (run = "") || bool_decide (item = "")
  then (d, Err (Invalid "coord.ProdClaimer.AcquireSpecific: principal, runID and itemID are required"))
  else runTx env (claimTail None principal run initiator agent item) d.

Definition acquireCredentialed (principal run item cred initiator : string)
    : Tx (option (string * Z)) (option (string * Z)) :=
  claimTail (Some cred) principal run initiator "" item.

Definition ClaimNextCredentialed (env : TxEnv) (locked : list string) (principal run cred initiator : string)
    (d : Db) : Db * result CoordErr (option (string * Z)) :=
  if bool_decide (principal = "") || bool_decide (run = "")
  then (d, Err (Invalid "coord.ProdClaimer.ClaimNextCredentialed: principal and runID are required"))
  else if bool_decide (cred = "")
  then (d, Err (Invalid "coord.ProdClaimer.ClaimNextCredentialed: credentialKey is required"))
  else match validateCredentialKey "credentialKey" cred with
       | Err e => (d, Err e)
       | Ok _ => runTx env (popTail (Some cred) locked principal run initiator) d
       end.

Definition AcquireSpecificCredentialed (env : TxEnv) (principal run item cred initiator : string) (d : Db)
    : Db * result CoordErr (option (string * Z)) :=
  if bool_decide (principal = "") || bool_decide (run = "") || bool_decide (item = "")
  then (d, Err (Invalid "coord.ProdClaimer.AcquireSpecificCredentialed: principal, runID and itemID are required"))
  else if bool_decide (cred = "")
  then (d, Err (Invalid "coord.ProdClaimer.AcquireSpecificCredentialed: credentialKey is required"))
  else match validateCredentialKey "credentialKey" cred with
       | Err e => (d, Err e)
       | Ok _ => runTx env (acquireCredentialed principal run item cred initiator) d
       end.
End claimer.

(** * The lease heartbeat *)

Definition renewed (c : ClaimRow) (lease now : Z) : ClaimRow :=
  {| holder_principal := holder_principal c; run_id := run_id c; fence_token := fence_token c;
     lease_expires_at := Some (now + lease); acquired_at := acquired_at c; renewed_at := Some now;
     initiated_by := initiated_by c; assignee_agent := assignee_agent c;
     reconcile_step := reconcile_step c; reclaim_fenced_at := reclaim_fenced_at c |}.

Definition live_custody (c : ClaimRow) (principal run : string) (fence now : Z) : bool :=
  sql_eqb (holder_principal c) principal && sql_eqb (run_id c) run && (fence_token c =? fence) &&
  sql_gtb (lease_expires_at c) now.

(** The guarded UPDATE; the code panics on an error. *)
Definition Renew (lease : Z) (env : TxEnv) (item principal run : string) (fence : Z) (d : Db)
    : Db * result CoordErr bool :=
  autocommit env "renew" (fun env d =>
    let now := clock env "renew" in
    match claims d !! item with
    | Some c =>
        if live_custody c principal run fence now &&
           negb (match items d !! item with Some w => bool_decide (it_state w = "done") | None => false end)
        then (put_claim item (renewed c lease now) d, true)
        else (d, false)
    | None => (d, false)
    end) d.

(** One turn of the heartbeater's select: the context is done, or the ticker
    fires and the renewal meets the database as it then is. *)
Inductive Beat : Type :=
| Cancelled
| Tick (env : TxEnv) (d : Db).

Inductive HeartbeatEnd : Type :=
| Beating        (* still in its loop *)
| Closed (b : bool) (* the value sent on the channel *)
| Panicked.

Fixpoint RunHeartbeater (lease : Z) (item principal run : string) (fence : Z) (turns : list Beat) : HeartbeatEnd :=
  match turns with
  | [] => Beating
  | Cancelled :: _ => Closed true
  | Tick env d :: rest =>
      match snd (Renew lease env item principal run fence d) with
      | Ok true => RunHeartbeater lease item principal run fence rest
      | Ok false => Closed false
      | Err _ => Panicked
      end
  end.

(** * The re-route *)

Record ReroutePolicy : Set := { AfterAttempts : Z; MinWindow : Z }.

Definition minute : Z := 60000000000.
Definition hour : Z := 60 * minute.

Definition DefaultReroutePolicy : ReroutePolicy := {| AfterAttempts := 2; MinWindow := 10 * minute |}.

Definition Validate (p : ReroutePolicy) : result CoordErr unit :=
  if AfterAttempts p <? 2 then Err (Invalid "coord.ReroutePolicy: AfterAttempts must be >= 2")
  else if MinWindow p <=? 0 then Err (Invalid "coord.ReroutePolicy: MinWindow must be positive")
  else Ok tt.

Definition ShouldReroute (attempt : Z) (retryAfter : option Z) (policy : ReroutePolicy) : bool :=
  let attempt := if attempt <? 1 then 1 else attempt in
  if AfterAttempts policy <=? attempt then true
  else match retryAfter with Some r => MinWindow policy <=? r | None => false end.

Fixpoint PickAlternateCredential (throttled : string) (candidates : list string) : option string :=
  match candidates with
  | [] => None
  | c :: rest =>
      if bool_decide (c ≠ "") && bool_decide (c ≠ throttled) then Some c
      else PickAlternateCredential throttled rest
  end.

Definition MaxHoldWindow : Z := 6 * hour.

Record RerouteReleaseResult : Set := { Fence : Z; AlreadyReleased : bool }.

Definition rerouteEventPayload (throttled : string) (attempt fence : Z) : list (string * Field) :=
  [("v", FInt 1); ("reason", FStr "rate_limited_reroute"); ("throttled_credential", FStr throttled);
   ("attempt", FInt attempt); ("fence", FInt fence)].

Definition reroute_freed (c : ClaimRow) : ClaimRow :=
  {| holder_principal := None; run_id := None; fence_token := fence_token c + 1;
     lease_expires_at := None; acquired_at := None; renewed_at := None; initiated_by := None;
     assignee_agent := assignee_agent c; reconcile_step := reconcile_step c;
     reclaim_fenced_at := reclaim_fenced_at c |}.

(** SELECT released_fence ... WHERE work_item_id = $1 AND released_run = $2,
    without a lock. *)
Definition priorRelease (item run : string) (d : Db) : option Z :=
  match holds d !! item with
  | Some h => if bool_decide (released_run h = run) then Some (released_fence h) else None
  | None => None
  end.

(** From the locking read on. *)
Definition releaseLocked (capture : bool) (item holder run cred : string) (att resumeAt : Z)
    (coord : string) : Tx RerouteReleaseResult RerouteReleaseResult :=
  let! row := query "read claim" (fun _ d =>
    match claims d !! item, items d !! item with
    | Some c, Some w => Some (holder_principal c, run_id c, it_state w)
    | _, _ => None
    end) in
  match row with
  | None => leave (Err (NoSuchItem item))
  | Some (Some h, Some r, st) =>
      if negb (bool_decide (h = holder) && bool_decide (r = run)) then leave (Err ErrNotRerouteCustodian)
      else if negb (bool_decide (st = "in_progress")) then leave (Err (ErrRerouteNotInProgress st))
      else
        let! fence := stmt "release" (fun _ d =>
          match claims d !! item with
          | Some c => if sql_eqb (holder_principal c) holder && sql_eqb (run_id c) run
                      then (put_claim item (reroute_freed c) d, Some (fence_token c + 1))
                      else (d, None)
          | None => (d, None)
          end) in
        match fence with
        | None => leave (Err ErrNotRerouteCustodian)
        | Some fence =>
            let! moved := stmt "re-dispatch" (fun env d =>
              match items d !! item with
              | Some w => if bool_decide (it_state w = "in_progress")
                          then (put_lane (tx_now env) item "todo" w d, true) else (d, false)
              | None => (d, false)
              end) in
            if negb moved then leave (Err (ErrRerouteNotInProgress ""))
            else
              exec "hold" (fun env d => set_holds (<[item :=
                {| throttled_credential := cred; attempt := att;
                   resume_at := Z.min resumeAt (clock env "hold" + MaxHoldWindow);
                   released_fence := fence; released_run := run; coordinator := coord |}]> (holds d)) d) ;;
              exec "audit" (fun _ d => add_audit
                {| au_item := item; au_run := Some run; au_event := "claim_released"; au_principal := coord;
                   au_initiator := None; au_fence := Some fence; au_from := Some "in_progress";
                   au_to := Some "todo";
                   au_payload := Fields [("reason", FStr "rate_limited_reroute");
                     ("throttled_credential", FStr cred); ("attempt", FInt att);
                     ("resume_at", FTime resumeAt); ("released_fence", FInt fence)] |} d) ;;
              (if capture then CaptureForWorkItem item run "reroute_released" (rerouteEventPayload cred att fence)
               else tret tt) ;;
              tret {| Fence := fence; AlreadyReleased := false |}
        end
  | Some _ => leave (Err ErrNotRerouteCustodian)
  end.

(** [resumeAt = None] is the zero time. *)
Definition ReleaseForReroute (env : TxEnv) (capture : bool) (item holder run cred : string) (att : Z)
    (resumeAt : option Z) (coord : string) (d : Db) : Db * result CoordErr RerouteReleaseResult :=
  if bool_decide ("" ∈ [item; holder; run; cred; coord])
  then (d, Err (Invalid "coord.ProdRerouteStore.ReleaseForReroute: all required"))
  else if att <? 1 then (d, Err (Invalid "coord.ProdRerouteStore.ReleaseForReroute: attempt must be >= 1"))
  else match resumeAt with
  | None => (d, Err (Invalid "coord.ProdRerouteStore.ReleaseForReroute: resumeAt is required"))
  | Some resumeAt =>
      match validateCredentialKey "throttledCredential" cred with
      | Err e => (d, Err e)
      | Ok _ =>
          runTx env (
            let! prior := query "prior hold" (fun _ d => priorRelease item run d) in
            match prior with
            | Some f => leave (Ok {| Fence := f; AlreadyReleased := true |})
            | None => releaseLocked capture item holder run cred att resumeAt coord
            end) d
      end
  end.
