(* ===== verification/Settle.v ===== *)
(** The writers that end or move a Run's checkout: the terminal settle
    (src/pkg/coord/settle.go), the kill (cancelprod.go) and the driver's claims
    (src/pkg/controller/rundrive/store.go). The post-commit metric is left out. *)
From S2P Require Import Prelude Machine CoordDb.
From S2P Require ProdClaim.
Open Scope Z_scope.
Open Scope k8s_scope.

Definition nl : string := "
".

(** * settle.go *)

Definition SettleLaneOf (step : string) : string :=
  if bool_decide (step = "failed") then "todo"
  else if bool_decide (step = "cancelled") then "cancelled"
  else "".

Definition settleIsTerminal (step : string) : bool :=
  bool_decide (step ∈ ["succeeded"; "failed"; "cancelled"]).

(** The lookup in a literal map of the code: the empty string when missing. *)
Fixpoint lookup_or_empty (kvs : list (string * string)) (k : string) : string :=
  match kvs with
  | [] => ""
  | (k', v) :: rest => if bool_decide (k = k') then v else lookup_or_empty rest k
  end.

Definition outcome_or (kvs : list (string * string)) (step : string) : string :=
  let o := lookup_or_empty kvs step in
  if bool_decide (o = "") then "Run reached terminal step " +:+ step else o.

Definition settleSummary (terminalStep lane : string) (moved : bool) (agent : string) : string :=
  let who := if bool_decide (agent = "") then "" else " — agent " +:+ agent in
  let outcome := outcome_or [("succeeded", "Run succeeded");
                             ("failed", "Run failed (retry budget exhausted)");
                             ("cancelled", "Run cancelled")] terminalStep in
  if moved then outcome +:+ who +:+ ": lane → " +:+ lane +:+ " (engine settle)."
  else if bool_decide (lane = "")
  then outcome +:+ who +:+ ": recorded on the ticket; lane unchanged (awaiting review)."
  else outcome +:+ who +:+ ": lane left as-is (human move respected, or already terminal/parked).".

Definition renderSynthesizedSummary (outcome who terminalStep runID : string)
    (changes artifacts : list string) : string :=
  let next := lookup_or_empty
    [("succeeded", "Awaiting human review; move the ticket to done when the work is accepted.");
     ("failed", "The ticket is back on the dispatchable lane for another attempt or human attention.");
     ("cancelled", "The run was stopped; no further automated work is queued.")] terminalStep in
  let next := if bool_decide (next = "") then "See the ticket lane for the current state." else next in
  "Run summary (auto-generated — the agent did not post one)" +:+ nl +:+ nl +:+
  "What I did: " +:+ outcome +:+ who +:+ "." +:+ nl +:+ nl +:+
  "What changed:" +:+ nl +:+
  (if bool_decide (changes = []) then "No commits or pull requests were reported for this run." +:+ nl
   else String.concat nl changes +:+ nl) +:+
  nl +:+ "Decisions and why: Not captured by the agent. See the per-run Activity feed for the step-by-step detail." +:+ nl +:+
  nl +:+ "Next steps: " +:+ next +:+ nl +:+
  nl +:+ "Evidence: run_id=" +:+ (if bool_decide (runID = "") then "(unknown)" else runID) +:+
  "; terminal step=" +:+ terminalStep +:+ "." +:+ nl +:+
  (if bool_decide (artifacts = []) then "" else "Artifacts:" +:+ nl +:+ String.concat nl artifacts +:+ nl).

(** $2 IS NULL OR run_id = $2 *)
Definition of_run (runID run : string) : bool := bool_decide (runID = "") || bool_decide (run = runID).

Definition change_line (c : ChangeRef) : string :=
  "- " +:+ cr_kind c +:+ " " +:+ cr_ref c +:+
  (if bool_decide (cr_summary c = "") then "" else " — " +:+ cr_summary c).

Definition reported_changes (item runID : string) (d : Db) : list string :=
  change_line <$> take 20 (by_time cr_at
    (filter (fun c => cr_item c = item /\ of_run runID (cr_run c) = true) (change_refs d))).

Definition reported_artifacts (item runID : string) (d : Db) : list string :=
  (fun a => "- " +:+ ar_kind a +:+ ": " +:+ ar_uri a) <$>
    take 20 (by_time ar_at
      (filter (fun a => ar_item a = item /\ of_run runID (ar_run a) = true) (artifacts d))).

Definition synthesizeSummary (item runID terminalStep agent : string) (d : Db) : string :=
  let outcome := outcome_or [("succeeded", "Run succeeded");
                             ("failed", "Run failed (retry budget exhausted)");
                             ("cancelled", "Run was cancelled")] terminalStep in
  let who := if bool_decide (agent = "") then "" else " by agent " +:+ agent in
  renderSynthesizedSummary outcome who terminalStep runID
    (reported_changes item runID d) (reported_artifacts item runID d).

Definition has_summary (item run : string) (d : Db) : bool :=
  existsb (fun c => bool_decide (cm_item c = item) && sql_eqb (cm_run c) run &&
                    bool_decide (cm_kind c = "summary")) (comments d).

(** UPDATE work_item SET state = $1 WHERE id = $2 AND state = 'in_progress' *)
Definition leave_in_progress {B} (label item lane : string) : Tx B bool :=
  stmt label (fun env d =>
    match items d !! item with
    | Some w => if bool_decide (it_state w = "in_progress")
                then (put_lane (tx_now env) item lane w d, true) else (d, false)
    | None => (d, false)
    end).

(** The lane a terminal step writes; a discussion item's failed run is a dead end. *)
Definition settleLane {B} (item terminalStep : string) : Tx B string :=
  let lane := SettleLaneOf terminalStep in
  if bool_decide (lane = "todo") then
    let! src := query "read source" (fun _ d =>
      match items d !! item with Some w => it_source w | None => "" end) in
    tret (if bool_decide (src = "discussion") then "cancelled" else lane)
  else tret lane.

Definition settleMove {B} (item runID principal terminalStep lane : string) : Tx B bool :=
  if bool_decide (lane = "") then tret false
  else
    let! moved := leave_in_progress "lane" item lane in
    if moved : bool then
      exec "lane audit" (fun _ d => add_audit
        {| au_item := item; au_run := nullif runID; au_event := "state_transition"; au_principal := principal;
           au_initiator := None; au_fence := None; au_from := Some "in_progress"; au_to := Some lane;
           au_payload := Fields [("reason", FStr "run_settled"); ("step", FStr terminalStep)] |} d) ;;
      tret true
    else tret false.

(** The summary every terminal run owes its thread. *)
Definition settleComment {B} (item runID principal terminalStep lane : string) (moved : bool) (agent : string) : Tx B unit :=
  let! has := (if bool_decide (runID = "") then tret false
               else query "summary presence" (fun _ d => has_summary item runID d)) in
  if has : bool then
    if bool_decide (terminalStep = "succeeded") then tret tt
    else exec "terminal progress" (fun env d => add_comment
           {| cm_item := item; cm_author := principal; cm_body := settleSummary terminalStep lane moved agent;
              cm_kind := "progress"; cm_run := nullif runID; cm_at := tx_now env |} d)
  else
    exec "summary" (fun env d => add_comment
      {| cm_item := item; cm_author := principal; cm_body := synthesizeSummary item runID terminalStep agent d;
         cm_kind := "summary"; cm_run := nullif runID; cm_at := tx_now env |} d).

Definition SettleTerminalLane {B} (item runID principal terminalStep : string) : Tx B (string * bool) :=
  if bool_decide ("" ∈ [item; principal; terminalStep])
  then leave (Err (Invalid "coord.SettleTerminalLane: workItemID, principal and terminalStep are required"))
  else if negb (settleIsTerminal terminalStep) then tret ("", false)
  else
    let! agent := query "read assignee" (fun _ d =>
      match claims d !! item with Some c => default "" (assignee_agent c) | None => "" end) in
    let! lane := settleLane item terminalStep in
    let! moved := settleMove item runID principal terminalStep lane in
    settleComment item runID principal terminalStep lane moved agent ;;
    tret (lane, moved).

(** * The fenced transitions *)

(** step NOT IN ('succeeded', 'failed', 'cancelled') *)
Definition terminal_step (s : Step) : bool := bool_decide (step_string s ∈ ["succeeded"; "failed"; "cancelled"]).

(** fence_token + 1, reclaim_fenced_at = now, reconcile_step = step and, with
    [release], holder and lease NULL. The run stays named. *)
Definition fenced (c : ClaimRow) (release : bool) (step : Step) (now : Z) : ClaimRow :=
  {| holder_principal := if release then None else holder_principal c; run_id := run_id c;
     fence_token := fence_token c + 1;
     lease_expires_at := if release then None else lease_expires_at c;
     acquired_at := acquired_at c; renewed_at := renewed_at c; initiated_by := initiated_by c;
     assignee_agent := assignee_agent c; reconcile_step := step; reclaim_fenced_at := Some now |}.

(** The UPDATE of cancelTx and enter: the new fence, or no row. *)
Definition fenceTo {B} (label item : string) (fromFence : Z) (release : bool) (step : Step) : Tx B (option Z) :=
  stmt label (fun env d =>
    match claims d !! item with
    | Some c =>
        if (fence_token c =? fromFence) && negb (terminal_step (reconcile_step c))
        then (put_claim item (fenced c release step (clock env label)) d, Some (fence_token c + 1))
        else (d, None)
    | None => (d, None)
    end).

(** ORDER BY a2a_task_id DESC LIMIT 1, in byte order; the empty string for none. *)
Definition task_ge (a b : string * string) : Prop := String.le b.1 a.1.

#[export] Instance task_ge_dec : RelDecision task_ge.
Proof. intros a b. unfold task_ge. apply _. Defined.

Definition runIDFor (item : string) (d : Db) : string :=
  match head (merge_sort task_ge
    ((fun kv : string * (string * string) => (kv.1, kv.2.2)) <$>
       filter (fun kv => kv.2.1 = item) (map_to_list (a2a_dispatch d)))) with
  | Some (_, run) => run
  | None => ""
  end.

Definition run_audit (item runID event principal : string) (fence : option Z) (from to : option string)
    (payload : Payload) : AuditRow :=
  {| au_item := item; au_run := nullif runID; au_event := event; au_principal := principal;
     au_initiator := None; au_fence := fence; au_from := from; au_to := to; au_payload := payload |}.

(** INSERT INTO outbox ... SELECT 'run' ... FROM work_item *)
Definition run_event {B} (item runID event : string) (payload : list (string * Field)) : Tx B unit :=
  exec "outbox" (fun _ d => add_outbox (outbox_row "run" event item (nullif runID) payload d) d).

(** * cancelprod.go *)

Inductive CancelOutcome : Set := CancelAccepted | CancelConflict | CancelTerminal | CancelMissing.

Definition cancel_State (env : TxEnv) (item : string) (d : Db) : Db * result CoordErr (option (Step * Z)) :=
  autocommit env "state" (fun _ d =>
    (d, (fun c => (reconcile_step c, fence_token c)) <$> claims d !! item)) d.

(** [cur]: the read that tells a terminal Run from a lost fence; an error of it
    counts as a lost fence. *)
Definition cancelTx (item runID principal initiatedBy event : string) (step : Step) (fromFence : Z)
    (releaseCheckout : bool) : Tx CancelOutcome CancelOutcome :=
  let! got := fenceTo "update" item fromFence releaseCheckout step in
  match got with
  | None => leave_with (fun env d => Ok
      match claims d !! item with
      | Some c => if terminal_step (reconcile_step c) && negb (faulty env "cur")
                  then CancelTerminal else CancelConflict
      | None => CancelConflict
      end)
  | Some fence =>
      let! run := peek (fun d => if bool_decide (runID = "") then runIDFor item d else runID) in
      exec "audit" (fun _ d => add_audit
        {| au_item := item; au_run := nullif run; au_event := event; au_principal := principal;
           au_initiator := nullif initiatedBy; au_fence := Some fence; au_from := None;
           au_to := Some (step_string step); au_payload := NoPayload |} d) ;;
      run_event item run event [("to_step", FStr (step_string step)); ("fence_token", FInt fence)] ;;
      tret CancelAccepted
  end.

Definition cancelResult (r : Db * result CoordErr CancelOutcome) : Db * (CancelOutcome * option CoordErr) :=
  (r.1, match r.2 with Ok o => (o, None) | Err e => (CancelMissing, Some e) end).

Definition CancelEnter (env : TxEnv) (item runID principal initiatedBy : string) (fromFence : Z) (d : Db)
    : Db * (CancelOutcome * option CoordErr) :=
  cancelResult (runTx env (cancelTx item runID principal initiatedBy "cancel_requested" StepCancelling fromFence true) d).

Definition CancelFinish (env : TxEnv) (item runID principal : string) (fromFence : Z) (d : Db)
    : Db * (CancelOutcome * option CoordErr) :=
  cancelResult (runTx env (cancelTx item runID principal "" "run_cancelled" StepCancelled fromFence false) d).

Definition Due (env : TxEnv) (d : Db) : Db * result CoordErr (list string) :=
  autocommit env "due" (fun _ d =>
    (d, fst <$> filter (fun kv => reconcile_step kv.2 = StepCancelling) (map_to_list (claims d)))) d.
