(* ===== verification/DriverClaims.v ===== *)
(** The run driver's writes on the claim row
    (src/pkg/controller/rundrive/store.go, ProdClaims): acquire and renew, the
    fenced re-entries, the sandbox-marker clear, the pauses and the go-live gate; and
    the machine's step advance on the same row.
    [principal] is the operator's; [is_uuid] is uuid.Parse. *)
From S2P Require Import Prelude Machine CoordDb Settle.
From S2P Require ProdClaim.
Open Scope Z_scope.
Open Scope k8s_scope.

Definition OperatorPrincipal : string := "ksquad-operator".

(** The claims a driver is built with: [ProdClaims.principal] and the claimer of
    the default configuration, with outbox capture. *)
Definition driver_principal (principal : string) : string :=
  if bool_decide (principal = "") then OperatorPrincipal else principal.

Definition driver_claimer : ProdClaim.ProdClaimer :=
  {| ProdClaim.pc_cfg := ProdClaim.DefaultProdConfig; ProdClaim.emitOutbox := true |}.

Record ClaimState : Set := {
  cs_step : Step; cs_fence : Z; cs_holder : string; cs_lease : option Z; cs_run : string; cs_lane : string }.

Section claims.
Context (interval : string -> Z) (is_uuid : string -> bool) (principal : string).

Definition State (env : TxEnv) (item : string) (d : Db) : Db * result CoordErr (option ClaimState) :=
  if negb (is_uuid item) then (d, Ok None)
  else autocommit env "state" (fun _ d =>
    (d, match claims d !! item, items d !! item with
        | Some c, Some w =>
            Some {| cs_step := reconcile_step c; cs_fence := fence_token c;
                    cs_holder := default "" (holder_principal c); cs_lease := lease_expires_at c;
                    cs_run := default "" (run_id c); cs_lane := it_state w |}
        | _, _ => None
        end)) d.

Definition Acquire (env : TxEnv) (item run agent : string) (d : Db) : Db * result CoordErr (option Z) :=
  let (d', r) := ProdClaim.AcquireSpecific interval driver_claimer env principal run item "" agent d in
  (d', match r with Ok o => Ok (snd <$> o) | Err e => Err e end).

Definition Renew (env : TxEnv) (item run : string) (fence : Z) (d : Db) : Db * result CoordErr bool :=
  ProdClaim.Renew (interval (ProdClaim.LeaseInterval ProdClaim.DefaultProdConfig)) env item principal run fence d.

(** Dispatch markers of the run whose task id contains #lap. *)
Fixpoint has_lap (s : string) : bool :=
  match s with
  | "" => false
  | String _ rest => String.prefix "#lap" s || has_lap rest
  end%string.

Definition LapsUsed (env : TxEnv) (run : string) (d : Db) : Db * result CoordErr nat :=
  autocommit env "laps" (fun _ d =>
    (d, length (filter (fun kv => kv.2.2 = run /\ has_lap kv.1 = true) (map_to_list (a2a_dispatch d))))) d.

(** ** The re-entries *)

Definition park_comment (reason : string) : string :=
  "Retry circuit-breaker: this run failed with a deterministic, non-retryable error (" +:+ reason +:+
  "). The item is parked (blocked) rather than re-dispatched — re-running cannot succeed until the " +:+
  "underlying cause is resolved (e.g. shrink the item/comment history, split the work, or raise the " +:+
  "model context window). Clear the block to re-enable dispatch.".

(** The circuit breaker: only the first park stamps the reason. *)
Definition park {B} (item run reason : string) (fence : Z) : Tx B unit :=
  if bool_decide (reason = "") then tret tt
  else
    let! parked := stmt "park" (fun env d =>
      match items d !! item with
      | Some w => match it_blocked w with
                  | None => (put_blocked (tx_now env) item reason w d, true)
                  | Some _ => (d, false)
                  end
      | None => (d, false)
      end) in
    if parked : bool then
      exec "park audit" (fun _ d => add_audit
        (run_audit item run "work_item_parked" principal (Some fence) None (Some "failed")
           (Fields [("blocked_reason", FStr reason)])) d) ;;
      exec "park comment" (fun env d => add_comment
        {| cm_item := item; cm_author := principal; cm_body := park_comment reason;
           cm_kind := "human"; cm_run := None; cm_at := tx_now env |} d)
    else tret tt.

(** Only the release of a held checkout is recorded. *)
Definition auditReleased {B} (wasHeld : option string) (item run : string) (fence : Z) (toState : string) : Tx B unit :=
  match wasHeld with
  | Some _ => exec "claim_released audit" (fun _ d => add_audit
      (run_audit item run "claim_released" principal (Some fence) None (Some toState) NoPayload) d)
  | None => tret tt
  end.

Definition enterTx (item run event : string) (fromFence : Z) (step : Step) (parkReason : string)
    : Tx (option Z) (option Z) :=
  let! held := query "pre-read" (fun _ d =>
    match claims d !! item with
    | Some c => if fence_token c =? fromFence then Some (holder_principal c) else None
    | None => None
    end) in
  match held with
  | None => leave (Ok None)
  | Some wasHeld =>
      let! got := fenceTo "update" item fromFence true step in
      match got with
      | None => leave (Ok None)
      | Some fence =>
          let toState := step_string step in
          exec "audit" (fun _ d => add_audit
            (run_audit item run event principal (Some fence) None (Some toState) NoPayload) d) ;;
          auditReleased wasHeld item run fence toState ;;
          run_event item run event [("to_step", FStr toState); ("fence_token", FInt fence)] ;;
          SettleTerminalLane item run principal toState ;;
          park item run parkReason fence ;;
          tret (Some fence)
      end
  end.

Definition enter (env : TxEnv) (item run event : string) (fromFence : Z) (step : Step) (parkReason : string)
    (d : Db) : Db * result CoordErr (option Z) :=
  runTx env (enterTx item run event fromFence step parkReason) d.

Definition entered (r : Db * result CoordErr (option Z)) : Db * result CoordErr bool :=
  (r.1, match r.2 with Ok o => Ok (bool_decide (is_Some o)) | Err e => Err e end).

Definition RetryEnter (env : TxEnv) (item run : string) (fromFence : Z) (d : Db) : Db * result CoordErr (option Z) :=
  enter env item run "retry_lap_entered" fromFence StepClaimingSandbox "" d.

Definition FailEnter (env : TxEnv) (item run : string) (fromFence : Z) (d : Db) : Db * result CoordErr bool :=
  entered (enter env item run "run_failed_entered" fromFence StepFailed "" d).

Definition FailClosedPark (env : TxEnv) (item run : string) (fromFence : Z) (reason : string) (d : Db)
    : Db * result CoordErr bool :=
  let reason := if bool_decide (reason = "") then "non_retryable_failure" else reason in
  entered (enter env item run "run_failed_entered" fromFence StepFailed reason d).

Definition CancelEnter (env : TxEnv) (item run : string) (fromFence : Z) (d : Db) : Db * result CoordErr bool :=
  entered (enter env item run "run_cancelled_entered" fromFence StepCancelled "" d).

Definition CancelFinish (env : TxEnv) (item run : string) (fromFence : Z) (d : Db) : Db * result CoordErr bool :=
  let (d', r) := Settle.CancelFinish env item run principal fromFence d in
  (d', match r with
       | (_, Some e) => Err e
       | (o, None) => Ok (match o with CancelAccepted => true | _ => false end)
       end).

Definition CancelDue (env : TxEnv) (d : Db) : Db * result CoordErr (list string) := Settle.Due env d.

(** ** The sandbox marker *)

Definition ClearSandboxBind (env : TxEnv) (run : string) (d : Db) : Db * result CoordErr unit :=
  if bool_decide (run = "") then (d, Ok tt)
  else runTx env (
    let! gone := stmt "delete" (fun _ d =>
      match sandbox_bind d !! run with
      | Some b => (set_bind (delete run (sandbox_bind d)) d, Some b)
      | None => (d, None)
      end) in
    match gone with
    | None => tret tt
    | Some (item, ref) =>
        exec "audit" (fun _ d => add_audit
          {| au_item := item; au_run := Some run; au_event := "sandbox_bind_cleared"; au_principal := principal;
             au_initiator := None; au_fence := None; au_from := None; au_to := Some "claiming_sandbox";
             au_payload := Fields [("sandbox_ref", FStr ref); ("reason", FStr "sandbox pod not found")] |} d)
    end) d.

(** ** Moves that keep the custody *)

Definition set_step (step : Step) (c : ClaimRow) : ClaimRow :=
  {| holder_principal := holder_principal c; run_id := run_id c; fence_token := fence_token c;
     lease_expires_at := lease_expires_at c; acquired_at := acquired_at c; renewed_at := renewed_at c;
     initiated_by := initiated_by c; assignee_agent := assignee_agent c; reconcile_step := step;
     reclaim_fenced_at := reclaim_fenced_at c |}.

(** The shape RequeuePaused, PauseRateLimited, GateHold and GateResume share: the
    guarded step move, its audit row (from [from], whatever the step was) and its
    event, or nothing. *)
Definition stepMove (item : string) (froms : list Step) (from to : Step) (audit event : string)
    (payload : list (string * Field)) : Tx bool bool :=
  let! moved := stmt "update" (fun _ d =>
    match claims d !! item with
    | Some c => if bool_decide (reconcile_step c ∈ froms)
                then (put_claim item (set_step to c) d, true) else (d, false)
    | None => (d, false)
    end) in
  if moved : bool then
    let! run := peek (runIDFor item) in
    exec "audit" (fun _ d => add_audit
      (run_audit item run audit principal None (Some (step_string from)) (Some (step_string to)) NoPayload) d) ;;
    run_event item run event payload ;;
    tret true
  else leave (Ok false).

Definition RequeuePaused (env : TxEnv) (item : string) (d : Db) : Db * result CoordErr bool :=
  runTx env (stepMove item [StepPausedRateLimited] StepPausedRateLimited StepDispatching
    "resume_requeued" "resume_requeued"
    [("from_step", FStr "paused(rate_limited)"); ("to_step", FStr "dispatching")]) d.

Definition PauseRateLimited (env : TxEnv) (item : string) (d : Db) : Db * result CoordErr bool :=
  runTx env (stepMove item
    [StepRunning; StepDispatching; StepCollecting; StepPaused; StepPausedRateLimited]
    StepRunning StepPausedRateLimited "paused_rate_limited" "paused"
    [("reason", FStr "rate_limited"); ("resume_mode", FStr "timer"); ("from_step", FStr "running");
     ("to_step", FStr "paused(rate_limited)")]) d.

Definition GateHold (env : TxEnv) (item : string) (missingTypes : list string) (d : Db) : Db * result CoordErr bool :=
  runTx env (stepMove item [StepClaimingSandbox] StepClaimingSandbox StepPausedCredentialRequired
    "gate_held" "paused"
    [("reason", FStr "credential_required"); ("missing_types", FList missingTypes);
     ("resume_mode", FStr "refresh"); ("from_step", FStr "claiming_sandbox");
     ("to_step", FStr "paused(credential_required)")]) d.

Definition GateResume (env : TxEnv) (item : string) (d : Db) : Db * result CoordErr bool :=
  runTx env (stepMove item [StepPausedCredentialRequired] StepPausedCredentialRequired StepClaimingSandbox
    "gate_resumed" "resume_requeued"
    [("from_step", FStr "paused(credential_required)"); ("to_step", FStr "claiming_sandbox")]) d.
End claims.

(** * The machine's step advance

    The store the machine is driven over (src/pkg/coord/prodreconcile.go, Advance), beside
    the driver's writes: the guarded move of the claim's step, its audit row, its outbox
    row and the lifecycle events of the transition, in one transaction. [ProdStore] has
    the whole store with the follow-settlement gate it is held by; here [gate] is what
    that gate's read answers, since the schema of [CoordDb] leaves out when a lap
    settled. *)

(** The store of a Run: ProdReconcileStore. *)
Record StoreOf : Set := {
  so_item : string;
  so_run : string;
  so_principal : string;
  so_initiatedBy : string;
  so_traceID : string;
  so_followGate : bool;
}.

Definition or_null (o : option string) : Field := match o with Some s => FStr s | None => FNull end.

Section advance.
Context (s : StoreOf) (expected next : Step).

Definition advance_audit (fenceAfter : Z) : AuditRow :=
  {| au_item := so_item s; au_run := Some (so_run s); au_event := "reconcile_advanced"; au_principal := so_principal s;
     au_initiator := nullif (so_initiatedBy s); au_fence := Some fenceAfter; au_from := Some (step_string expected);
     au_to := Some (step_string next); au_payload := NoPayload |}.

Definition advance_payload (fenceAfter : Z) : list (string * Field) :=
  [("from_step", FStr (step_string expected)); ("to_step", FStr (step_string next)); ("fence_token", FInt fenceAfter);
   ("run_id", FStr (so_run s)); ("trace_id", or_null (nullif (so_traceID s)))].

(** A lifecycle event, from the item, its claim and the Run's sandbox marker. *)
Definition lifecycle_rows (fenceAfter : Z) (ev : LifecycleEvent) (d : Db) : list OutboxRow :=
  match items d !! so_item s, claims d !! so_item s with
  | Some w, Some c =>
      [{| ob_entity := Entity ev; ob_event := EventType ev; ob_item := so_item s; ob_run := Some (so_run s);
          ob_payload :=
            [("schema", FStr "ksquad.lifecycle.v1"); ("event", FStr (Entity ev +:+ "." +:+ EventType ev));
             ("from_step", FStr (step_string expected)); ("to_step", FStr (step_string next)); ("fence_token", FInt fenceAfter);
             ("run_id", FStr (so_run s)); ("ticket", FStr (so_item s)); ("work_item_id", FStr (so_item s));
             ("project", FStr (it_project w)); ("team", or_null (it_team w)); ("agent", or_null (assignee_agent c));
             ("sandbox", or_null (sandbox_bind d !! so_run s ≫= fun b => nullif b.2));
             ("trace_id", or_null (nullif (so_traceID s)))] |}]
  | _, _ => []
  end.

Fixpoint lifecycle {B} (fenceAfter : Z) (evs : list LifecycleEvent) : Tx B unit :=
  match evs with
  | [] => tret tt
  | ev :: evs =>
      exec "lifecycle" (fun _ d => add_outbox (lifecycle_rows fenceAfter ev d) d) ;;
      lifecycle fenceAfter evs
  end.

Definition advanceTx (fence : option Z) : Tx bool bool :=
  let! moved := stmt "update" (fun _ d =>
    match claims d !! so_item s with
    | Some c =>
        if bool_decide (reconcile_step c = expected) && match fence with None => true | Some f => fence_token c =? f end
        then (put_claim (so_item s) (set_step next c) d, Some (fence_token c)) else (d, None)
    | None => (d, None)
    end) in
  match moved with
  | None => leave (Ok false)
  | Some fenceAfter =>
      exec "audit" (fun _ d => add_audit (advance_audit fenceAfter) d) ;;
      exec "outbox" (fun _ d => add_outbox (outbox_row "run" "reconcile_advanced" (so_item s) (Some (so_run s)) (advance_payload fenceAfter) d) d) ;;
      lifecycle fenceAfter (LifecycleEventsFor expected next) ;;
      tret true
  end.

(** [gate]: whether the gate is open, or the error of its read. An error is captured. *)
Definition Advance (gate : result CoordErr bool) (env : TxEnv) (fence : option Z) (d : Db) : Db * result CoordErr bool :=
  if so_followGate s && bool_decide (expected = StepCollecting) && bool_decide (next = StepSucceeded) then
    match gate with
    | Err e => (d, Err e)
    | Ok false => (d, Ok false)
    | Ok true => runTx env (advanceTx fence) d
    end
  else runTx env (advanceTx fence) d.
End advance.
