(* ===== verification/ProdEffects.v ===== *)
(** The effects of the Run machine on the production schema
    (src/pkg/coord/prodeffects.go): sandbox bind, dispatch, collect and terminal,
    each keyed by a durable marker. The physical mechanisms are ports that answer
    per call and whose calls are recorded; the hash and the statements' faults are
    parameters. [rival] is what other connections commit between the lookup of a
    marker and its insert. *)
From Stdlib Require Import Ascii.
From S2P Require Import Prelude Machine CoordDb Settle.
Open Scope Z_scope.
Open Scope k8s_scope.

Inductive PhysCall : Set :=
| PBind (run : string)
| PWriteCredential (run ref : string)
| PObserveRef (run ref : string)
| PSubmit (task run : string)
| PSnapshot.

(** [Meta] is the marshalled summary; [None] is the nil map. *)
Record BuildSnapshot : Set := { bs_uri : string; bs_sha256 : string; bs_meta : option (option string) }.

(** [None]: the port is not wired. *)
Record Ports : Type := {
  binder : option (string -> option string);
  dispatcher : option (string -> string -> bool);
  snapshotter : option (option BuildSnapshot);
  credWriter : option (string -> string -> bool);
  refObserver : option (string -> string -> bool);
}.

Record ProdEffects : Set := { pe_item : string; pe_run : string; pe_principal : string; pe_initiatedBy : string }.

Definition NewProdEffects (item run principal initiatedBy : string) : result CoordErr ProdEffects :=
  if bool_decide ("" ∈ [item; run; principal])
  then Err (Invalid "coord.NewProdEffects: workItemID, runID and principal are required")
  else Ok {| pe_item := item; pe_run := run; pe_principal := principal; pe_initiatedBy := initiatedBy |}.

(** The database, the physical calls made, and the first error. *)
Record Fx : Type := { fx_db : Db; fx_calls : list PhysCall; fx_err : option CoordErr }.

Definition fx_put (d : Db) (x : Fx) : Fx := {| fx_db := d; fx_calls := fx_calls x; fx_err := fx_err x |}.
Definition fx_call (c : PhysCall) (x : Fx) : Fx :=
  {| fx_db := fx_db x; fx_calls := fx_calls x ++ [c]; fx_err := fx_err x |}.
(** fail: the first error sticks. *)
Definition fx_fail (e : CoordErr) (x : Fx) : Fx :=
  {| fx_db := fx_db x; fx_calls := fx_calls x;
     fx_err := match fx_err x with None => Some e | Some e' => Some e' end |}.

(** A statement outside a transaction; an error goes to fail. *)
Definition fx_exec {A} (env : TxEnv) (label : string) (f : TxEnv -> Db -> Db * A) (x : Fx) : Fx * option A :=
  match autocommit env label f (fx_db x) with
  | (d, Ok a) => (fx_put d x, Some a)
  | (d, Err e) => (fx_fail e (fx_put d x), None)
  end.

Section effects.
Context (sha256 : string -> string) (e : ProdEffects) (ports : Ports) (env : TxEnv) (rival : Db -> Db).

Definition initiator : option string := nullif (pe_initiatedBy e).

Definition effect_row (event : string) (to : Step) : AuditRow :=
  {| au_item := pe_item e; au_run := Some (pe_run e); au_event := event; au_principal := pe_principal e;
     au_initiator := initiator; au_fence := None; au_from := None; au_to := Some (step_string to);
     au_payload := NoPayload |}.

Definition audit (event : string) (to : Step) (x : Fx) : Fx :=
  (fx_exec env "effect audit" (fun _ d => (add_audit (effect_row event to) d, tt)) x).1.

(** ** Bind *)

(** A call whose error stops the effect. *)
Definition port_call (call : PhysCall) (ok : bool) (what : string) (k : Fx -> Fx) (x : Fx) : Fx :=
  let x := fx_call call x in if ok then k x else fx_fail (Port what) x.

Definition bindMarker (ref : string) (x : Fx) : Fx :=
  let (x, done) := fx_exec env "marker" (fun _ d =>
    (match sandbox_bind d !! pe_run e with
     | None => set_bind (<[pe_run e := (pe_item e, ref)]> (sandbox_bind d)) d
     | Some _ => d
     end, tt)) (fx_put (rival (fx_db x)) x) in
  match done with
  | Some _ => audit "sandbox_bound" StepClaimingSandbox x
  | None => x
  end.

Definition observeRef (ref : string) (x : Fx) : Fx :=
  match refObserver ports with
  | Some f => if bool_decide (ref = "") then bindMarker ref x
              else port_call (PObserveRef (pe_run e) ref) (f (pe_run e) ref) "observe sandbox ref" (bindMarker ref) x
  | None => bindMarker ref x
  end.

Definition writeCredential (ref : string) (x : Fx) : Fx :=
  match credWriter ports with
  | Some f => if bool_decide (ref = "") then observeRef ref x
              else port_call (PWriteCredential (pe_run e) ref) (f (pe_run e) ref) "write run credential" (observeRef ref) x
  | None => observeRef ref x
  end.

(** The machine's run key is ignored. *)
Definition BindSandbox (runID : string) (keyed : bool) (x : Fx) : Fx :=
  match fx_err x with
  | Some _ => x
  | None =>
      if negb keyed then
        match binder ports with
        | Some f => port_call (PBind (pe_run e)) (bool_decide (is_Some (f (pe_run e)))) "naive bind" id x
        | None => x
        end
      else
        let (x, existing) := fx_exec env "lookup" (fun _ d => (d, sandbox_bind d !! pe_run e)) x in
        match existing with
        | None => x
        | Some (Some _) => x
        | Some None =>
            match binder ports with
            | None => writeCredential "" x
            | Some f =>
                let x := fx_call (PBind (pe_run e)) x in
                match f (pe_run e) with
                | None => fx_fail (Port "bind") x
                | Some ref => writeCredential ref x
                end
            end
        end
  end.

(** ** Dispatch *)

(** [Machine.RunID] is the machine's fixture run. *)
Definition boundTaskID (taskID : string) : string :=
  if bool_decide (taskID = RunID) then pe_run e
  else if String.prefix RunID taskID
       then pe_run e +:+ String.substring (String.length RunID) (String.length taskID - String.length RunID) taskID
       else pe_run e +:+ "/" +:+ taskID.

Definition dispatchMarker (task : string) (x : Fx) : Fx :=
  let (x, n) := fx_exec env "marker" (fun _ d =>
    match a2a_dispatch d !! task with
    | None => (set_a2a (<[task := (pe_item e, pe_run e)]> (a2a_dispatch d)) d, true)
    | Some _ => (d, false)
    end) (fx_put (rival (fx_db x)) x) in
  match n with
  | Some true => audit "a2a_dispatched" StepDispatching x
  | _ => x
  end.

(** Submit, then mark. *)
Definition Dispatch (taskID : string) (dedup : bool) (x : Fx) : Fx :=
  match fx_err x with
  | Some _ => x
  | None =>
      let task := boundTaskID taskID in
      if negb dedup then
        match dispatcher ports with
        | Some f => port_call (PSubmit task (pe_run e)) (f task (pe_run e)) "naive submit" id x
        | None => x
        end
      else
        let (x, existing) := fx_exec env "lookup" (fun _ d => (d, a2a_dispatch d !! task)) x in
        match existing with
        | None => x
        | Some (Some _) => x
        | Some None =>
            match dispatcher ports with
            | None => dispatchMarker task x
            | Some f => port_call (PSubmit task (pe_run e)) (f task (pe_run e)) "submit" (dispatchMarker task) x
            end
        end
  end.

(** ** Collect *)

(** What follows the last slash, unless it is the end. *)
Fixpoint last_slash (i : nat) (s : string) : option nat :=
  match s with
  | "" => None
  | String c rest =>
      match last_slash (S i) rest with
      | Some j => Some j
      | None => if bool_decide (c = "/"%char) then Some i else None
      end
  end%string.

Definition artifactKind (key : string) : string :=
  match last_slash 0 key with
  | Some i => if bool_decide (S i < String.length key)%nat
              then String.substring (S i) (String.length key - S i) key else key
  | None => key
  end.

Definition has_artifact (kind : string) (d : Db) : bool :=
  existsb (fun a => bool_decide (ar_item a = pe_item e) && bool_decide (ar_run a = pe_run e) &&
                    bool_decide (ar_kind a = kind)) (artifacts d).

Definition artifact_row (kind uri sha : string) (meta : Payload) : ArtifactRow :=
  {| ar_item := pe_item e; ar_run := pe_run e; ar_kind := kind; ar_uri := uri; ar_sha256 := sha; ar_meta := meta; ar_at := tx_now env |}.

(** INSERT ... ON CONFLICT (work_item_id, run_id, kind) DO NOTHING: whether it
    inserted. *)
Definition publish (label : string) (a : ArtifactRow) (x : Fx) : Fx * option bool :=
  fx_exec env label (fun _ d =>
    if has_artifact (ar_kind a) d then (d, false) else (set_artifacts (artifacts d ++ [a]) d, true)) x.

Definition collectBuildSnapshot (x : Fx) : Fx :=
  match fx_err x, snapshotter ports with
  | Some _, _ | _, None => x
  | None, Some answer =>
      let x := fx_call PSnapshot x in
      match answer with
      | None => audit "build_snapshot_unavailable" StepCollecting x
      | Some snap =>
          match (match bs_meta snap with None => Some "{}" | Some m => m end) with
          | None => fx_fail (Port "marshal meta") x
          | Some meta =>
              let (x, n) := publish "snapshot upsert"
                (artifact_row "build-snapshot" (bs_uri snap) (bs_sha256 snap) (Doc meta)) x in
              match n with
              | Some true => audit "build_snapshot_registered" StepCollecting x
              | _ => x
              end
          end
      end
  end.

Definition Collect (key content : string) (upsert : bool) (x : Fx) : Fx :=
  match fx_err x with
  | Some _ => x
  | None =>
      let kind := artifactKind key in
      let sha := sha256 content in
      let uri := "sha256:" +:+ sha in
      if negb upsert then
        let (x, n) := fx_exec env "naive count" (fun _ d =>
          (d, length (filter (fun a => ar_item a = pe_item e /\ ar_run a = pe_run e) (artifacts d)))) x in
        match n with
        | None => x
        | Some n =>
            (* a taken key is a unique violation *)
            let kind := kind +:+ "#" +:+ pretty n in
            match publish "naive insert" (artifact_row kind uri sha NoPayload) x with
            | (x, Some false) => fx_fail (Infra "naive insert") x
            | (x, _) => x
            end
        end
      else
        match publish "upsert" (artifact_row kind uri sha NoPayload) x with
        | (x, None) => x
        | (x, Some n) => collectBuildSnapshot (if n : bool then audit "artifact_registered" StepCollecting x else x)
        end
  end.

(** ** Terminal *)

Definition terminal_freed (c : ClaimRow) : ClaimRow :=
  {| holder_principal := None; run_id := run_id c; fence_token := fence_token c + 1;
     lease_expires_at := None; acquired_at := acquired_at c; renewed_at := None; initiated_by := initiated_by c;
     assignee_agent := assignee_agent c; reconcile_step := reconcile_step c;
     reclaim_fenced_at := reclaim_fenced_at c |}.

Definition terminal_row (event : string) (fence : option Z) (s : Step) : AuditRow :=
  {| au_item := pe_item e; au_run := Some (pe_run e); au_event := event; au_principal := pe_principal e;
     au_initiator := initiator; au_fence := fence; au_from := None; au_to := Some (step_string s);
     au_payload := NoPayload |}.

Definition terminalTx (s : Step) : Tx unit unit :=
  let! released := stmt "release" (fun _ d =>
    match claims d !! pe_item e with
    | Some c =>
        if sql_eqb (run_id c) (pe_run e) && sql_eqb (holder_principal c) (pe_principal e)
        then (put_claim (pe_item e) (terminal_freed c) d, Some (fence_token c + 1))
        else (d, None)
    | None => (d, None)
    end) in
  exec "audit" (fun _ d => add_audit (terminal_row "run_terminal" None s) d) ;;
  match released with
  | Some fence => exec "claim_released audit" (fun _ d => add_audit (terminal_row "claim_released" (Some fence) s) d)
  | None => tret tt
  end ;;
  SettleTerminalLane (pe_item e) (pe_run e) (pe_principal e) (step_string s) ;;
  tret tt.

Definition Terminal (s : Step) (x : Fx) : Fx :=
  match fx_err x with
  | Some _ => x
  | None =>
      let (d, r) := runTx env (terminalTx s) (fx_db x) in
      match r with
      | Ok _ => fx_put d x
      | Err err => fx_fail err (fx_put d x)
      end
  end.
End effects.
