(* ===== verification/Handoff.v ===== *)
(** The structured hand-off (src/pkg/coord/prodhandoff.go) and the coordinator's
    dispatch of the next item (proddispatch.go).

    [marshal], [unmarshal] and [sha256] are the encoders the code calls, [jsonb]
    PostgreSQL's normalization of a document and [bigint] its reading of a number.
    The id of an audit row is its position from 1. *)
From S2P Require Import Prelude Machine CoordDb.
Open Scope Z_scope.
Open Scope k8s_scope.

Definition HandoffKind : string := "handoff".
Definition AuditHandoffURI : string := "coord+audit://".

Record DraftWorkItem : Set := { dw_title : string; dw_body : string }.

Record ArtifactRef : Set := { rf_kind : string; rf_uri : string; rf_sha256 : string }.

Record HandoffDoc : Set := {
  Did : list string;
  Decisions : list string;
  Next : list string;
  Blockers : list string;
  Findings : string;
  RecommendedNext : list DraftWorkItem;
  ArtifactsForDownstream : list ArtifactRef;
}.

Record HandoffWriteResult : Set := { AuditLogID : Z; URI : string; SHA256 : string }.

(** [Content] errors of the resolver. *)
Inductive ContentErr : Set :=
| ReadFailed
| UnsupportedURI
| NoContent
| DigestMismatch.

Record RecordComment : Set := { rc_author : string; rc_body : string; rc_at : Z }.

Record HandoffView : Type := {
  SourceItemID : string;
  State : string;
  CompletingRunID : string;
  Comments : list RecordComment;
  Artifacts : list ArtifactRef;
  Handoff : option HandoffDoc;
}.

(** The errors of ReadHandoff that are not statements'. *)
Inductive ReadErr : Type :=
| ReadDb (e : CoordErr)
| NullRun              (* run_id is NULL, scanned into a string *)
| Resolve (uri : string) (e : ContentErr)
| Parse (uri : string).

Record DispatchDecision : Set := {
  CoordinatorPrincipal : string;
  SourceWorkItemID : string;
  SourceRunID : string;
  Title : string;
  Body : string;
  AdvisoryFollowed : bool;
  ParentToSource : bool;
}.

Record DispatchResult : Set := { CreatedWorkItemID : string; AlreadyDispatched : bool }.

Section handoff.
Context (marshal : HandoffDoc -> string) (unmarshal : string -> option HandoffDoc).
Context (jsonb : string -> string) (sha256 : string -> string) (bigint : string -> option Z).

(** * The writer *)

(** The custody predicate of both statements. *)
Definition custodian (item principal run : string) (fence now : Z) (d : Db) : bool :=
  match claims d !! item with
  | Some c => sql_eqb (holder_principal c) principal && sql_eqb (run_id c) run &&
              (fence_token c =? fence) && sql_gtb (lease_expires_at c) now
  | None => false
  end.

Definition same_key (item run kind : string) (a : ArtifactRow) : bool :=
  bool_decide (ar_item a = item) && bool_decide (ar_run a = run) && bool_decide (ar_kind a = kind).

Definition repoint (uri sha : string) (a : ArtifactRow) : ArtifactRow :=
  {| ar_item := ar_item a; ar_run := ar_run a; ar_kind := ar_kind a; ar_uri := uri; ar_sha256 := sha;
     ar_meta := ar_meta a; ar_at := ar_at a |}.

(** ON CONFLICT (work_item_id, run_id, kind) DO UPDATE SET uri, sha256 *)
Definition upsert_artifact (a : ArtifactRow) (l : list ArtifactRow) : list ArtifactRow :=
  if existsb (same_key (ar_item a) (ar_run a) (ar_kind a)) l
  then (fun b => if same_key (ar_item a) (ar_run a) (ar_kind a) b then repoint (ar_uri a) (ar_sha256 a) b else b) <$> l
  else l ++ [a].

Definition handoff_row (item principal run initiatedBy canonical : string) (fence : Z) : AuditRow :=
  {| au_item := item; au_run := Some run; au_event := "artifact_registered"; au_principal := principal;
     au_initiator := nullif initiatedBy; au_fence := Some fence; au_from := None; au_to := None;
     au_payload := Doc canonical |}.

Definition handoff_uri (id : Z) : string := AuditHandoffURI +:+ pretty id.

Definition writeTx (item principal run initiatedBy : string) (fence : Z) (doc : HandoffDoc)
    : Tx HandoffWriteResult HandoffWriteResult :=
  let canonical := jsonb (marshal doc) in
  let! id := stmt "audit" (fun env d =>
    if custodian item principal run fence (clock env "audit") d
    then (add_audit (handoff_row item principal run initiatedBy canonical fence) d,
          Some (Z.of_nat (length (audits d)) + 1))
    else (d, None)) in
  match id with
  | None => leave (Err ErrNotHandoffCustodian)
  | Some id =>
      let digest := sha256 canonical in
      let uri := handoff_uri id in
      let! n := stmt "artifact" (fun env d =>
        if custodian item principal run fence (clock env "artifact") d
        then (set_artifacts (upsert_artifact
                {| ar_item := item; ar_run := run; ar_kind := HandoffKind; ar_uri := uri; ar_sha256 := digest;
                   ar_meta := Doc "{}"; ar_at := tx_now env |} (artifacts d)) d, true)
        else (d, false)) in
      if n : bool then tret {| AuditLogID := id; URI := uri; SHA256 := digest |}
      else leave (Err ErrNotHandoffCustodian)
  end.

Definition WriteHandoff (env : TxEnv) (item principal run initiatedBy : string) (fence : Z) (doc : HandoffDoc)
    (d : Db) : Db * result CoordErr HandoffWriteResult :=
  if bool_decide ("" ∈ [item; principal; run])
  then (d, Err (Invalid "coord.ProdHandoffWriter.WriteHandoff: itemID, principal and runID are required"))
  else runTx env (writeTx item principal run initiatedBy fence doc) d.

(** * The resolver *)

(** payload::text; an audit row without a document has none. *)
Definition payload_text (p : Payload) : option string :=
  match p with Doc c => Some c | _ => None end.

Definition audit_row (id : Z) (d : Db) : option AuditRow :=
  if id <? 1 then None else audits d !! Z.to_nat (id - 1).

(** al JOIN art ON art.uri = $1 WHERE al.id = $2: the document, and the set of
    digests registered at the uri. *)
Definition AuditHandoffContent (env : TxEnv) (uri : string) (d : Db) : result ContentErr string :=
  if negb (String.prefix AuditHandoffURI uri) then Err UnsupportedURI
  else
    let n := String.length AuditHandoffURI in
    let id := String.substring n (String.length uri - n) uri in
    if faulty env "content" then Err ReadFailed
    else match bigint id with
    | None => Err ReadFailed
    | Some id =>
        let registered := ar_sha256 <$> filter (fun a => ar_uri a = uri) (artifacts d) in
        match audit_row id d with
        | None => Err NoContent
        | Some row =>
            match payload_text (au_payload row) with
            | None => Err NoContent
            | Some payload =>
                if bool_decide (registered = []) then Err NoContent
                else if bool_decide (sha256 payload ∈ registered) then Ok payload
                else Err DigestMismatch
            end
        end
    end.

(** * The coordinator *)

Definition item_comments (item : string) (d : Db) : list RecordComment :=
  (fun c => {| rc_author := cm_author c; rc_body := cm_body c; rc_at := cm_at c |}) <$>
    by_time cm_at (filter (fun c => cm_item c = item) (comments d)).

Definition item_artifacts (item : string) (d : Db) : list ArtifactRef :=
  (fun a => {| rf_kind := ar_kind a; rf_uri := ar_uri a; rf_sha256 := ar_sha256 a |}) <$>
    by_time ar_at (filter (fun a => ar_item a = item) (artifacts d)).

(** The first hand-off artifact, resolved and parsed; [content = None]: no
    resolver is bound. *)
Fixpoint find_handoff (content : string -> result ContentErr string) (l : list ArtifactRef)
    : result ReadErr (option HandoffDoc) :=
  match l with
  | [] => Ok None
  | a :: rest =>
      if bool_decide (rf_kind a = HandoffKind) then
        match content (rf_uri a) with
        | Err e => Err (Resolve (rf_uri a) e)
        | Ok raw => match unmarshal raw with
                    | Some doc => Ok (Some doc)
                    | None => Err (Parse (rf_uri a))
                    end
        end
      else find_handoff content rest
  end.

(** A read outside a transaction. *)
Definition read {A} (env : TxEnv) (label : string) (a : A) : result ReadErr A :=
  if faulty env label then Err (ReadDb (Infra label)) else Ok a.

Definition ReadHandoff (env : TxEnv) (content : option (string -> result ContentErr string)) (source : string)
    (d : Db) : result ReadErr HandoffView :=
  let? head := read env "read item" (
    match items d !! source, claims d !! source with
    | Some w, Some c => Some (it_state w, run_id c)
    | _, _ => None
    end) in
  match head with
  | None => Err (ReadDb (NoSuchItem source))
  | Some (_, None) => Err NullRun
  | Some (state, Some run) =>
      let? cs := read env "comments" (item_comments source d) in
      let? arts := read env "artifacts" (item_artifacts source d) in
      let? doc := match content with
                  | None => Ok None
                  | Some resolve => find_handoff resolve arts
                  end in
      Ok {| SourceItemID := source; State := state; CompletingRunID := run; Comments := cs;
            Artifacts := arts; Handoff := doc |}
  end.

Definition AdoptRecommendation (v : HandoffView) : list DraftWorkItem :=
  match Handoff v with None => [] | Some doc => RecommendedNext doc end.

Definition dedupe_key (source run : string) : string := source +:+ ":" +:+ run +:+ ":next".

(** [fresh]: the uuid the insert mints; a taken one is a failing statement. *)
Definition dispatchTx (fresh : string) (dec : DispatchDecision) : Tx DispatchResult DispatchResult :=
  let source := SourceWorkItemID dec in
  let dedupe := dedupe_key source (SourceRunID dec) in
  let! row := query "read source" (fun _ d =>
    match items d !! source, claims d !! source with
    | Some w, Some c => Some (w, run_id c)
    | _, _ => None
    end) in
  match row with
  | None => leave (Err (NoSuchItem source))
  | Some (_, None) => leave (Err (Infra "read source")) (* NULL into a string *)
  | Some (w, Some run) =>
      if negb (bool_decide (it_state w = "done")) then leave (Err ErrSourceNotComplete)
      else if negb (bool_decide (run = SourceRunID dec))
      then leave (Err (ErrCompletingRunMismatch run (SourceRunID dec)))
      else
        let! created := stmt "create next item" (fun env d =>
          match items d !! fresh, claims d !! fresh with
          | Some _, _ | _, Some _ => (d, false)
          | None, None =>
              (insert_item fresh
                 {| it_project := it_project w; it_team := it_team w;
                    it_parent := if ParentToSource dec then Some source else None;
                    it_title := Title dec; it_body := Body dec; it_state := "todo"; it_blocked := None;
                    it_source := "board"; it_created_by := CoordinatorPrincipal dec;
                    it_created_at := tx_now env; it_updated_at := tx_now env;
                    it_requested := None |} d, true)
          end) in
        if negb created then leave (Err (Infra "create next item"))
        else
          let! winner := stmt "marker" (fun _ d =>
            match dispatches d !! dedupe with
            | Some m => (d, Some (created_item m))
            | None => (set_dispatches (<[dedupe := {| source_item := source; source_run := SourceRunID dec;
                         created_item := fresh; coordinator_principal := CoordinatorPrincipal dec |}]>
                         (dispatches d)) d, None)
            end) in
          match winner with
          | Some existing =>
              query "read existing" (fun _ _ => tt) ;;
              leave (Ok {| CreatedWorkItemID := existing; AlreadyDispatched := true |})
          | None =>
              exec "audit" (fun _ d => add_audit
                {| au_item := source; au_run := Some (SourceRunID dec); au_event := "coordinator_dispatched";
                   au_principal := CoordinatorPrincipal dec; au_initiator := None; au_fence := None;
                   au_from := Some "done"; au_to := Some "todo";
                   au_payload := Fields [("source_work_item_id", FStr source);
                     ("source_run_id", FStr (SourceRunID dec)); ("created_work_item_id", FStr fresh);
                     ("dedupe_key", FStr dedupe); ("advisory_followed", FBool (AdvisoryFollowed dec))] |} d) ;;
              tret {| CreatedWorkItemID := fresh; AlreadyDispatched := false |}
          end
  end.

Definition DispatchNextOfRecord (env : TxEnv) (fresh : string) (dec : DispatchDecision) (d : Db)
    : Db * result CoordErr DispatchResult :=
  if bool_decide ("" ∈ [CoordinatorPrincipal dec; SourceWorkItemID dec; SourceRunID dec; Title dec])
  then (d, Err (Invalid "coord.DispatchNextOfRecord: all required"))
  else runTx env (dispatchTx fresh dec) d.
End handoff.
