(* ===== verification/EndpointGate.v ===== *)
(** The per-endpoint admission gate of the run driver
    (src/pkg/controller/rundrive/endpoint_gate.go): each method is one critical
    section, with the clock's reading as an argument. The queue token is a
    uint64. A range over a Go map visits the entries in some order; the model
    uses the finite map's, and the theorems do not depend on it. *)
From stdpp Require Import gmap.
From S2P Require Import Prelude.
Open Scope Z_scope.

Definition endpointWaiterTTL : Z := 90 * 1000000000.

Record endpointWaiter : Set := { seq : Z; lastSeen : Z }.

Record EndpointGate : Set := {
  defaultMax : Z;
  holders : gmap string (gset string);
  waiters : gmap string (gmap string endpointWaiter);
  g_seq : Z;
  waiterTTL : Z;
}.

Definition NewEndpointGate (maxConcurrent : Z) : EndpointGate :=
  {| defaultMax := if maxConcurrent <? 1 then 1 else maxConcurrent;
     holders := ∅; waiters := ∅; g_seq := 0; waiterTTL := endpointWaiterTTL |}.

Definition uint64_succ (n : Z) : Z := (n + 1) mod 2 ^ 64.

Definition holders_of (g : EndpointGate) (ep : string) : gset string := default ∅ (holders g !! ep).
Definition waiters_of (g : EndpointGate) (ep : string) : gmap string endpointWaiter :=
  default ∅ (waiters g !! ep).

(** The empty inner maps are deleted. *)
Definition set_holders (ep : string) (s : gset string) (g : EndpointGate) : EndpointGate :=
  {| defaultMax := defaultMax g;
     holders := if bool_decide (s = ∅) then delete ep (holders g) else <[ep := s]> (holders g);
     waiters := waiters g; g_seq := g_seq g; waiterTTL := waiterTTL g |}.
Definition set_waiters (ep : string) (ws : gmap string endpointWaiter) (g : EndpointGate) : EndpointGate :=
  {| defaultMax := defaultMax g; holders := holders g;
     waiters := if bool_decide (ws = ∅) then delete ep (waiters g) else <[ep := ws]> (waiters g);
     g_seq := g_seq g; waiterTTL := waiterTTL g |}.
Definition set_seq (n : Z) (g : EndpointGate) : EndpointGate :=
  {| defaultMax := defaultMax g; holders := holders g; waiters := waiters g; g_seq := n;
     waiterTTL := waiterTTL g |}.

Definition registerWaiter (ep run : string) (now : Z) (g : EndpointGate) : EndpointGate :=
  let ws := waiters_of g ep in
  match ws !! run with
  | Some w => set_waiters ep (<[run := {| seq := seq w; lastSeen := now |}]> ws) g
  | None =>
      let n := uint64_succ (g_seq g) in
      set_waiters ep (<[run := {| seq := n; lastSeen := now |}]> ws) (set_seq n g)
  end.

Definition dropWaiter (ep run : string) (g : EndpointGate) : EndpointGate :=
  match waiters g !! ep with
  | None => g
  | Some ws => set_waiters ep (delete run ws) g
  end.

Definition evictStaleWaiters (ep : string) (now : Z) (g : EndpointGate) : EndpointGate :=
  set_waiters ep (filter (fun kv => ~ (waiterTTL g < now - lastSeen kv.2)) (waiters_of g ep)) g.

(** The loop of frontWaiter, from what it has found so far. *)
Fixpoint front_from (front : string) (best : Z) (l : list (string * endpointWaiter)) : string :=
  match l with
  | [] => front
  | (id, w) :: rest =>
      if bool_decide (front = "") || (seq w <? best) then front_from id (seq w) rest
      else front_from front best rest
  end.

Definition frontWaiter (g : EndpointGate) (ep : string) : string :=
  front_from "" 0 (map_to_list (waiters_of g ep)).

Definition anyKey (s : gset string) : string := default "" (head (elements s)).

Definition slots (g : EndpointGate) (maxConcurrent : Z) : Z :=
  if maxConcurrent <? 1 then defaultMax g else maxConcurrent.

Definition Acquire (now : Z) (ep run : string) (maxConcurrent : Z) (g : EndpointGate)
    : EndpointGate * (string * bool) :=
  let max := slots g maxConcurrent in
  let hs := holders_of g ep in
  if bool_decide (run ∈ hs) then (dropWaiter ep run g, (run, true))
  else
    let g := registerWaiter ep run now (evictStaleWaiters ep now g) in
    if (Z.of_nat (size hs) <? max) && bool_decide (frontWaiter g ep = run)
    then (set_holders ep ({[run]} ∪ hs) (dropWaiter ep run g), (run, true))
    else
      let h := anyKey hs in
      if bool_decide (h = "") then (g, (frontWaiter g ep, false)) else (g, (h, false)).

(** Every slot and every place in a queue the run has; the maps it does not
    appear in are left as they are. *)
Definition ReleaseByRun (run : string) (g : EndpointGate) : EndpointGate :=
  {| defaultMax := defaultMax g;
     holders := omap (fun hs => if bool_decide (run ∈ hs)
                                then if bool_decide (hs ∖ {[run]} = ∅) then None else Some (hs ∖ {[run]})
                                else Some hs) (holders g);
     waiters := omap (fun ws => if bool_decide (delete run ws = (∅ : gmap string endpointWaiter)) then None
                                else Some (delete run ws)) (waiters g);
     g_seq := g_seq g; waiterTTL := waiterTTL g |}.
