(* ===== verification/Heartbeat.v ===== *)
(** The claim hygiene sweep (src/pkg/controller/rundrive/heartbeat.go): renew the
    lease of every held claim in flight, release the checkout of terminal Runs, of
    Runs that are gone and of Runs without a sandbox. The tick loop and the logs
    are left out: [sweep] is one pass. *)
From S2P Require Import Prelude Machine CoordDb Settle.
From S2P Require ProdClaim.
Open Scope Z_scope.
Open Scope k8s_scope.

(** * What the cluster answers *)

Section live_runs.
(** The status of a condition (meta.FindStatusCondition of k8s.io/apimachinery). *)
Context {Conditions : Set} (FindStatusCondition : Conditions -> string -> option string).

Record RunObject : Set := { ro_uid : string; ro_phase : string; ro_conditions : Conditions }.
Record PodObject : Set := { po_deleting : bool; po_phase : string }.

(** An uncached reader: a List that fails answers [None]; [list_pods] lists the
    pods with the label ksquad.io/run. *)
Record LiveRuns : Type := {
  list_runs : option (list RunObject);
  list_pods : string -> option (list PodObject) }.

(** The checkers answer [None] for an error; without a reader or a Run they say no. *)
Definition RunExists (l : option LiveRuns) (runID : string) : option bool :=
  match l with
  | None => Some false
  | Some l =>
      if bool_decide (runID = "") then Some false
      else (fun runs => existsb (fun r => bool_decide (ro_uid r = runID)) runs) <$> list_runs l
  end.

Definition HasLiveSandbox (l : option LiveRuns) (runID : string) : option bool :=
  match l with
  | None => Some false
  | Some l =>
      if bool_decide (runID = "") then Some false
      else (fun pods => existsb (fun p => negb (po_deleting p) &&
                                          negb (bool_decide (po_phase p ∈ ["Succeeded"; "Failed"]))) pods)
             <$> list_pods l runID
  end.

(** The first Run of the UID that the list holds. *)
Definition find_run (runID : string) (runs : list RunObject) : option RunObject :=
  head (filter (fun r => ro_uid r = runID) runs).

Definition condition_true (type runID : string) (runs : list RunObject) : bool :=
  match find_run runID runs with
  | Some r => bool_decide (FindStatusCondition (ro_conditions r) type = Some "True")
  | None => false
  end.

Definition carries (type : string) (l : option LiveRuns) (runID : string) : option bool :=
  match l with
  | None => Some false
  | Some l => if bool_decide (runID = "") then Some false else condition_true type runID <$> list_runs l
  end.

Definition ConditionEndpointSlotWait : string := "WaitingForEndpointSlot".
Definition ConditionQueuedAtSupervisor : string := "QueuedAtSupervisor".
Definition IsWaitingForEndpointSlot := carries ConditionEndpointSlotWait.
Definition IsQueuedAtSupervisor := carries ConditionQueuedAtSupervisor.

Definition TerminalOrGone (l : option LiveRuns) (runID : string) : option bool :=
  match l with
  | None => Some false
  | Some l =>
      if bool_decide (runID = "") then Some false
      else (fun runs => match find_run runID runs with
                        | Some r => bool_decide (ro_phase r ∈ ["Succeeded"; "Failed"; "Cancelled"])
                        | None => true
                        end) <$> list_runs l
  end.
End live_runs.

(** * The sweep *)

Definition second : Z := 1000000000.
Definition HeartbeatInterval : Z := 10 * second.
Definition DefaultZombieStallGrace : Z := 600 * second.

(** The checkers that are wired, as they answer for one row. *)
Record Checks : Type := {
  Runs : option (string -> option bool);
  Live : option (string -> option bool);
  EndpointWait : option (string -> option bool);
  MeshQueueWait : option (string -> option bool) }.

Record heldClaim : Set := {
  workItemID : string; holderRun : string; hc_principal : string; fence : Z; step : Step; acquiredAt : option Z }.

Definition held_row (kv : string * ClaimRow) : option (option heldClaim) :=
  let (item, c) := kv in
  match holder_principal c with
  | None => None
  | Some principal => Some
      (run ← run_id c;
       Some {| workItemID := item; holderRun := run; hc_principal := principal; fence := fence_token c;
               step := reconcile_step c; acquiredAt := acquired_at c |})
  end.

(** Every held claim, in the order of the table. A NULL run does not scan into a
    string, so one such row fails the pass. *)
Definition due (env : TxEnv) (d : Db) : Db * result CoordErr (list heldClaim) :=
  let (d', r) := autocommit env "list held claims" (fun _ d => (d, mapM id (omap held_row (map_to_list (claims d))))) d in
  (d', match r with
       | Ok (Some held) => Ok held
       | Ok None => Err (Infra "scan held claim")
       | Err e => Err e
       end).

Section sweeper.
(** The zombie grace, and the lease the claimer renews by. *)
Context (ZombieStallGrace lease : Z).

Definition isPausedStep (s : Step) : bool := match PhaseOf s with PhasePaused => true | _ => false end.

(** A claim without its acquire instant never stalls. *)
Definition stalled (now : Z) (hc : heldClaim) : bool :=
  match acquiredAt hc with
  | None => false
  | Some t =>
      let grace := if ZombieStallGrace <=? 0 then DefaultZombieStallGrace else ZombieStallGrace in
      grace <? now - t
  end.

(** A possible waiter is one: an error exempts. *)
Definition waiter (check : option (string -> option bool)) (hc : heldClaim) : bool :=
  match check with
  | None => false
  | Some f => if bool_decide (holderRun hc = "") then false else default true (f (holderRun hc))
  end.
Definition endpointSlotWaiter (ch : Checks) (hc : heldClaim) : bool := waiter (EndpointWait ch) hc.
Definition meshQueueWaiter (ch : Checks) (hc : heldClaim) : bool := waiter (MeshQueueWait ch) hc.

(** What the sweep does with one row. *)
Inductive Action : Set := ActReleaseTerminal | ActReleaseOrphan | ActReleaseZombie | ActSkip | ActRenew.

(** The zombie gate of a Run that exists. *)
Definition zombieGate (ch : Checks) (now : Z) (hc : heldClaim) : Action :=
  match Live ch with
  | Some live =>
      if negb (bool_decide (holderRun hc = "")) && negb (isPausedStep (step hc)) && stalled now hc then
        match live (holderRun hc) with
        | None => ActRenew
        | Some alive =>
            if negb alive && negb (endpointSlotWaiter ch hc) && negb (meshQueueWaiter ch hc)
            then ActReleaseZombie else ActRenew
        end
      else ActRenew
  | None => ActRenew
  end.

Definition decide_row (ch : Checks) (now : Z) (hc : heldClaim) : Action :=
  if IsTerminal (step hc) then ActReleaseTerminal
  else match Runs ch with
       | Some exists_ =>
           if bool_decide (holderRun hc = "") then zombieGate ch now hc
           else match exists_ (holderRun hc) with
                | None => ActSkip
                | Some false => ActReleaseOrphan
                | Some true => zombieGate ch now hc
                end
       | None => zombieGate ch now hc
       end.

(** ** The writes *)

Definition renew (env : TxEnv) (hc : heldClaim) (d : Db) : Db :=
  if bool_decide (holderRun hc = "") then d
  else (ProdClaim.Renew lease env (workItemID hc) (hc_principal hc) (holderRun hc) (fence hc) d).1.

(** Custody cleared: holder, run and lease; the step as given. *)
Definition cleared (s : Step) (c : ClaimRow) : ClaimRow :=
  {| holder_principal := None; run_id := None; fence_token := fence_token c; lease_expires_at := None;
     acquired_at := acquired_at c; renewed_at := renewed_at c; initiated_by := initiated_by c;
     assignee_agent := assignee_agent c; reconcile_step := s; reclaim_fenced_at := reclaim_fenced_at c |}.

Definition released_audit (hc : heldClaim) (to : string) : AuditRow :=
  {| au_item := workItemID hc; au_run := Some (holderRun hc); au_event := "claim_released";
     au_principal := hc_principal hc; au_initiator := None; au_fence := Some (fence hc); au_from := None;
     au_to := Some to; au_payload := NoPayload |}.

Definition released_event (hc : heldClaim) (key value : string) (d : Db) : list OutboxRow :=
  outbox_row "run" "claim_released" (workItemID hc) (Some (holderRun hc))
    [("fence_token", FInt (fence hc)); (key, FStr value)] d.

(** The rows the UPDATE matched are not asked for. *)
Definition releaseTerminalTx (hc : heldClaim) : Tx unit unit :=
  exec "release" (fun _ d =>
    match claims d !! workItemID hc with
    | Some c => if sql_eqb (run_id c) (holderRun hc) && terminal_step (reconcile_step c)
                then put_claim (workItemID hc) (cleared (reconcile_step c) c) d else d
    | None => d
    end) ;;
  exec "audit" (fun _ d => add_audit (released_audit hc (step_string (step hc))) d) ;;
  exec "outbox" (fun _ d => add_outbox (released_event hc "step" (step_string (step hc)) d) d) ;;
  let lane := SettleLaneOf (step_string (step hc)) in
  if negb (bool_decide (step hc = StepSucceeded)) && negb (bool_decide (lane = ""))
  then (let! _ := leave_in_progress "lane return" (workItemID hc) lane in tret tt)
  else tret tt.

Definition releaseTerminal (env : TxEnv) (hc : heldClaim) (d : Db) : Db * result CoordErr unit :=
  if bool_decide (holderRun hc = "") then (d, Ok tt) else runTx env (releaseTerminalTx hc) d.

Definition releaseDeadTx (hc : heldClaim) (reason : string) : Tx unit unit :=
  let! matched := stmt "release" (fun _ d =>
    match claims d !! workItemID hc with
    | Some c => if sql_eqb (run_id c) (holderRun hc) && bool_decide (is_Some (holder_principal c))
                then (put_claim (workItemID hc) (cleared StepFailed c) d, true) else (d, false)
    | None => (d, false)
    end) in
  if matched : bool then
    exec "audit" (fun _ d => add_audit (released_audit hc reason) d) ;;
    exec "outbox" (fun _ d => add_outbox (released_event hc "reason" reason d) d) ;;
    let! _ := leave_in_progress "lane return" (workItemID hc) "todo" in
    tret tt
  else tret tt.

Definition releaseDead (env : TxEnv) (hc : heldClaim) (reason : string) (d : Db) : Db * result CoordErr unit :=
  if bool_decide (holderRun hc = "") then (d, Ok tt) else runTx env (releaseDeadTx hc reason) d.

Definition releaseOrphan (env : TxEnv) (hc : heldClaim) (d : Db) := releaseDead env hc "orphan_run_deleted" d.
Definition releaseZombie (env : TxEnv) (hc : heldClaim) (d : Db) := releaseDead env hc "zombie_no_sandbox" d.

(** Errors are only logged. *)
Definition act (env : TxEnv) (a : Action) (hc : heldClaim) (d : Db) : Db :=
  match a with
  | ActReleaseTerminal => (releaseTerminal env hc d).1
  | ActReleaseOrphan => (releaseOrphan env hc d).1
  | ActReleaseZombie => (releaseZombie env hc d).1
  | ActSkip => d
  | ActRenew => renew env hc d
  end.

(** ** The pass *)

(** What happens around the turn of one row: what others wrote since the last, what
    the checkers answer, the clock, and the transaction. *)
Record Turn : Type := { before : Db -> Db; checks : Checks; tn_now : Z; tn_env : TxEnv }.

Definition sweep_row (t : Turn) (hc : heldClaim) (d : Db) : Db :=
  act (tn_env t) (decide_row (checks t) (tn_now t) hc) hc (before t d).

Fixpoint sweep_rows (turn : nat -> Turn) (held : list heldClaim) (d : Db) : Db :=
  match held with
  | [] => d
  | hc :: rest => sweep_rows (fun n => turn (S n)) rest (sweep_row (turn O) hc d)
  end.

Definition sweep (env : TxEnv) (turn : nat -> Turn) (d : Db) : Db :=
  match due env d with
  | (d', Ok held) => sweep_rows turn held d'
  | (d', Err _) => d'
  end.
End sweeper.
