(* ===== verification/Intake.v ===== *)
(** The ticket intake (src/pkg/controller/rundrive/intake.go): the board's due
    items, the re-arm of a settled claim, the circuit breaker, and the pass that
    creates the Runs. The pass is a program over the calls of its source and of
    the Kubernetes client; the tick loop, the spans and the logs are left out. *)
From Stdlib Require Import Ascii.
From S2P Require Import Prelude GoStr Calls Machine CoordDb Settle.
From S2P Require DriverClaims.
Open Scope Z_scope.
Open Scope k8s_scope.

Definition second : Z := 1000000000.
Definition IntakeInterval : Z := 10 * second.
Definition DefaultIntakeMaxPerPass : Z := 32.
Definition IntakePrincipal : string := "ksquad-intake".
Definition DefaultMaxGenerations : Z := 10.

Record IntakeItem : Set := {
  ID : string; TeamID : string; ProjectID : string; RequestedAgent : string; Source : string }.

(** * The board source *)

Definition terminal_claim (item : string) (d : Db) : bool :=
  match claims d !! item with Some c => terminal_step (reconcile_step c) | None => false end.

Definition due_item (d : Db) (kv : string * ItemRow) : option (Z * IntakeItem) :=
  let (id, w) := kv in
  match it_team w with
  | Some team =>
      if bool_decide (it_state w = "todo") && bool_decide (it_blocked w = None) &&
         negb (bool_decide (it_source w = "discussion") && terminal_claim id d)
      then Some (it_created_at w, {| ID := id; TeamID := team; ProjectID := it_project w;
                                     RequestedAgent := default "" (it_requested w); Source := it_source w |})
      else None
  | None => None
  end.

(** ORDER BY created_at, id *)
Definition due_before (x y : Z * IntakeItem) : Prop :=
  x.1 < y.1 \/ x.1 = y.1 /\ String.le (ID x.2) (ID y.2).

#[export] Instance due_before_dec : RelDecision due_before.
Proof. intros x y. unfold due_before. apply _. Defined.

Definition DueWorkItems_sql (env : TxEnv) (limit : Z) (d : Db) : Db * result CoordErr (list IntakeItem) :=
  let limit := if limit <=? 0 then DefaultIntakeMaxPerPass else limit in
  autocommit env "list due work items" (fun _ d =>
    (d, take (Z.to_nat limit) (snd <$> merge_sort due_before (omap (due_item d) (map_to_list (items d)))))) d.

Definition rearmed (now : Z) (c : ClaimRow) : ClaimRow :=
  {| holder_principal := holder_principal c; run_id := run_id c; fence_token := fence_token c + 1;
     lease_expires_at := lease_expires_at c; acquired_at := acquired_at c; renewed_at := renewed_at c;
     initiated_by := initiated_by c; assignee_agent := assignee_agent c; reconcile_step := StepPending;
     reclaim_fenced_at := Some now |}.

(** The item waits on the board for its next generation. *)
Definition rearmable (item : string) (d : Db) : bool :=
  match items d !! item with
  | Some w => bool_decide (it_state w = "todo") && bool_decide (it_blocked w = None) &&
              negb (bool_decide (it_source w = "discussion"))
  | None => false
  end.

Definition rearmTx (item : string) : Tx unit unit :=
  let! got := stmt "re-arm" (fun env d =>
    match claims d !! item with
    | Some c =>
        if bool_decide (holder_principal c = None) && terminal_step (reconcile_step c) && rearmable item d
        then (put_claim item (rearmed (clock env "re-arm") c) d, Some (fence_token c + 1)) else (d, None)
    | None => (d, None)
    end) in
  match got with
  | None => tret tt
  | Some fence =>
      exec "audit" (fun _ d => add_audit
        {| au_item := item; au_run := None; au_event := "reconcile_rearmed"; au_principal := DriverClaims.OperatorPrincipal;
           au_initiator := None; au_fence := Some fence; au_from := None; au_to := Some "pending";
           au_payload := NoPayload |} d) ;;
      exec "outbox" (fun _ d => add_outbox (outbox_row "run" "reconcile_rearmed" item None
        [("to_step", FStr "pending"); ("fence_token", FInt fence)] d) d)
  end.

Definition RearmSettled_sql (env : TxEnv) (item : string) (d : Db) : Db * result CoordErr unit := runTx env (rearmTx item) d.

Definition breaker_comment (reason : string) : string :=
  "Retry circuit-breaker: this item reached the maximum re-dispatch generations (" +:+ reason +:+
  ") and is parked (blocked) rather than re-minted. Repeated re-dispatch kept failing — inspect the latest " +:+
  "run failures, resolve the cause, and clear the block to re-enable dispatch.".

Definition parkTx (item reason : string) : Tx unit unit :=
  let reason := if bool_decide (reason = "") then "retry_circuit_breaker" else reason in
  let! parked := stmt "park" (fun env d =>
    match items d !! item with
    | Some w => match it_blocked w with
                | None => (put_blocked (tx_now env) item reason w d, true)
                | Some _ => (d, false)
                end
    | None => (d, false)
    end) in
  if parked : bool then
    exec "audit" (fun _ d => add_audit
      {| au_item := item; au_run := None; au_event := "work_item_parked"; au_principal := DriverClaims.OperatorPrincipal;
         au_initiator := None; au_fence := None; au_from := None; au_to := Some "todo";
         au_payload := Fields [("blocked_reason", FStr reason)] |} d) ;;
    exec "comment" (fun env d => add_comment
      {| cm_item := item; cm_author := DriverClaims.OperatorPrincipal; cm_body := breaker_comment reason;
         cm_kind := "human"; cm_run := None; cm_at := tx_now env |} d) ;;
    exec "outbox" (fun _ d => add_outbox (outbox_row "run" "work_item_parked" item None
      [("blocked_reason", FStr reason)] d) d)
  else tret tt.

Definition ParkWorkItem_sql (env : TxEnv) (item reason : string) (d : Db) : Db * result CoordErr unit :=
  runTx env (parkTx item reason) d.

(** * Names and generations *)

(** What follows the last -r. *)
Fixpoint after_last_r (s : string) : option string :=
  match s with
  | EmptyString => None
  | String _ rest =>
      match after_last_r rest with
      | Some tail => Some tail
      | None => if String.prefix "-r" s then Some (String.substring 2 (String.length s - 2) s) else None
      end
  end.

Definition runGeneration (name : string) : Z :=
  match after_last_r name with
  | Some tail => match atoi tail with
                 | Some n => if 0 <? n then n else 1
                 | None => 1
                 end
  | None => 1
  end.

Definition intakeName (workItemID : string) (highestGen : Z) (agentName : string) : string :=
  let agentSegment := if bool_decide (agentName = "") then "" else "-" +:+ agentName in
  if 0 <? highestGen then "intake-" +:+ workItemID +:+ agentSegment +:+ "-r" +:+ itoa (highestGen + 1)
  else "intake-" +:+ workItemID +:+ agentSegment.

(** * The cluster's objects *)

Record ObjectRef : Set := { Name : string; Namespace : string }. (* an empty namespace is unset *)

Record Team : Set := {
  tm_uid : string; tm_name : string; tm_namespace : string; tm_status_namespace : string; tm_agents : list ObjectRef }.

Record Project : Set := { pj_uid : string; pj_name : string; pj_namespace : string }.

(** The parts of a Run that intake writes, or reads of the Runs there are. *)
Record RunCR : Set := {
  rn_name : string; rn_namespace : string; rn_labels : list (string * string); rn_team : ObjectRef;
  rn_project : ObjectRef; rn_item : string; rn_agents : list ObjectRef; rn_owner : string; rn_phase : string }.

Inductive Created : Set := CreatedOk | AlreadyExists | CreateFailed.

(** Where a call can fail, its answer is optional, or false. *)
Inductive Call : Type -> Type :=
| DueWorkItems (limit : Z) : Call (option (list IntakeItem))
| RearmSettled (item : string) : Call bool
| ParkWorkItem (item reason : string) : Call bool
| ListTeams : Call (option (list Team))
| ListRuns : Call (option (list RunCR))
| ListProjects : Call (option (list Project))
| GetAgent (ns name : string) : Call bool
| CreateRun (run : RunCR) : Call Created.

Notation Prog := (Calls.Prog Call).
Notation ret := Ret.

Definition runPhaseTerminal (phase : string) : bool := bool_decide (phase ∈ ["Succeeded"; "Failed"; "Cancelled"]).

Definition runObjectMeta (workItemID ns : string) (highestGen : Z) (agentName : string) :
    string * string * list (string * string) :=
  (intakeName workItemID highestGen agentName, ns, [("ksquad.io/created-by", "intake")]).

(** * One Run *)

Definition agentRefForRun (name agentNS runNS : string) : ObjectRef :=
  if negb (bool_decide (agentNS = "")) && negb (bool_decide (agentNS = runNS))
  then {| Name := name; Namespace := agentNS |} else {| Name := name; Namespace := "" |}.

Definition resolveProject (ns projectID : string) : Prog (option ObjectRef) :=
  if bool_decide (projectID = "") then ret None
  else
    let* projects := call ListProjects in
    ret (match projects with
         | None => None
         | Some ps =>
             match head (filter (fun p => pj_uid p = projectID) ps) with
             | Some p => Some {| Name := pj_name p; Namespace := if bool_decide (pj_namespace p = ns) then "" else pj_namespace p |}
             | None =>
                 (fun p => {| Name := pj_name p; Namespace := "" |}) <$>
                   head (filter (fun p => pj_namespace p = ns /\ pj_name p = projectID) ps)
             end
         end).

(** The namespaces to look in, without the empty ones and repetitions. *)
Definition candidates (nss : list string) : list string :=
  foldl (fun acc ns => if bool_decide (ns = "") || bool_decide (ns ∈ acc) then acc else acc ++ [ns]) [] nss.

Fixpoint first_namespace (name : string) (nss : list string) : Prog (option string) :=
  match nss with
  | [] => ret None
  | ns :: rest =>
      let* found := call (GetAgent ns name) in
      if found : bool then ret (Some ns) else first_namespace name rest
  end.

Definition resolveAgent (ref : ObjectRef) (homeNS execNS : string) : Prog (option string) :=
  first_namespace (Name ref) (candidates [Namespace ref; homeNS; execNS]).

Definition find_agent (team : Team) (name : string) : option ObjectRef :=
  head (filter (fun a => Name a = name) (tm_agents team)).

Definition teamHasAgent (team : Team) (name : string) : bool := existsb (fun a => bool_decide (Name a = name)) (tm_agents team).

Definition buildRunForAgent (item : IntakeItem) (team : Team) (highestGen : Z) (target : string) (fanOut : bool)
    : Prog (option RunCR) :=
  let ns := tm_status_namespace team in
  if bool_decide (ns = "") then ret None
  else
    let* project := resolveProject ns (ProjectID item) in
    match project with
    | None => ret None
    | Some project =>
        match find_agent team target with
        | None => ret None
        | Some ref =>
            let* agentNS := resolveAgent ref (tm_namespace team) ns in
            ret (match agentNS with
                 | None => None
                 | Some agentNS =>
                     let '(name, ns, labels) := runObjectMeta (ID item) ns highestGen (if fanOut then Name ref else "") in
                     Some {| rn_name := name; rn_namespace := ns;
                             rn_labels := labels ++ (if bool_decide (Source item = "") then []
                                                     else [("ksquad.io/work-item-source", Source item)]);
                             rn_team := if bool_decide (tm_namespace team = ns)
                                        then {| Name := tm_name team; Namespace := "" |}
                                        else {| Name := tm_name team; Namespace := tm_namespace team |};
                             rn_project := project; rn_item := ID item;
                             rn_agents := [agentRefForRun (Name ref) agentNS ns]; rn_owner := IntakePrincipal; rn_phase := "" |}
                 end)
        end
    end.

(** * The pass *)

Record Intake : Set := { MaxPerPass : Z; MaxGenerations : Z }.

Section intake.
Context (i : Intake).

Definition maxGenerations : Z := if 0 <? MaxGenerations i then MaxGenerations i else DefaultMaxGenerations.
Definition maxPerPass : Z := if MaxPerPass i <=? 0 then DefaultIntakeMaxPerPass else MaxPerPass i.

Definition team_index (teams : list Team) : gmap string Team := foldl (fun m t => <[tm_uid t := t]> m) ∅ teams.

(** The live items, and the highest generation of each. *)
Definition run_index (runs : list RunCR) : gset string * gmap string Z :=
  foldl (fun '(live, high) r =>
    let high := if default 0 (high !! rn_item r) <? runGeneration (rn_name r)
                then <[rn_item r := runGeneration (rn_name r)]> high else high in
    (if runPhaseTerminal (rn_phase r) then live else {[rn_item r]} ∪ live, high)) (∅, ∅) runs.

Definition breaker_reason : string := "retry_circuit_breaker_max_generations_" +:+ itoa maxGenerations.

Fixpoint buildAll (item : IntakeItem) (team : Team) (highestGen : Z) (agents : list ObjectRef) : Prog (list RunCR) :=
  match agents with
  | [] => ret []
  | a :: rest =>
      let* run := buildRunForAgent item team highestGen (Name a) true in
      let* runs := buildAll item team highestGen rest in
      ret (match run with Some run => run :: runs | None => runs end)
  end.

Fixpoint createAll (runs : list RunCR) : Prog unit :=
  match runs with
  | [] => ret tt
  | run :: rest => let* _ := call (CreateRun run) in createAll rest
  end.

(** The Runs of one item, within what is left of the pass. *)
Definition runsFor (item : IntakeItem) (team : Team) (highestGen : Z) (left : Z) : Prog (list RunCR) :=
  if negb (bool_decide (RequestedAgent item = "")) then
    match (if teamHasAgent team (RequestedAgent item) then Some (RequestedAgent item)
           else Name <$> head (tm_agents team)) with
    | None => ret []
    | Some target =>
        let* run := buildRunForAgent item team highestGen target false in
        ret (match run with Some run => [run] | None => [] end)
    end
  else buildAll item team highestGen (take (Z.to_nat left) (tm_agents team)).

(** The number of Runs built for the item. *)
Definition dispatch (teams : gmap string Team) (live : gset string) (high : gmap string Z)
    (item : IntakeItem) (left : Z) : Prog Z :=
  let g := default 0 (high !! ID item) in
  if bool_decide (ID item ∈ live) then ret 0
  else if maxGenerations <=? g then
    let* _ := call (ParkWorkItem (ID item) breaker_reason) in ret 0
  else
    let* armed := call (RearmSettled (ID item)) in
    if negb armed then ret 0
    else match teams !! TeamID item with
         | None => ret 0
         | Some team =>
             let* runs := runsFor item team g left in
             let* _ := createAll runs in
             ret (Z.of_nat (length runs))
         end.

Fixpoint dispatchAll (teams : gmap string Team) (live : gset string) (high : gmap string Z)
    (limit dispatched : Z) (due : list IntakeItem) : Prog unit :=
  match due with
  | [] => ret tt
  | item :: rest =>
      if limit <=? dispatched then ret tt
      else
        let* n := dispatch teams live high item (limit - dispatched) in
        dispatchAll teams live high limit (dispatched + n) rest
  end.

Definition sweep : Prog unit :=
  let* due := call (DueWorkItems maxPerPass) in
  match due with
  | None | Some [] => ret tt
  | Some due =>
      let* teams := call ListTeams in
      match teams with
      | None => ret tt
      | Some teams =>
          let* runs := call ListRuns in
          match runs with
          | None => ret tt
          | Some runs =>
              let '(live, high) := run_index runs in
              dispatchAll (team_index teams) live high maxPerPass 0 due
          end
      end
  end.
End intake.
