(* ===== verification/ToolGate.v ===== *)
(** The go-live gate of tool credentials (src/pkg/toolcred/gate.go and
    binding.go, src/pkg/capability/gate.go): the credential types the skills of a
    Run declare, the project Secrets that satisfy them, and the verdict. Strings
    are the bytes Go keeps; the two runes outside ASCII whose lower case is in it
    are written out. *)
From Stdlib Require Import Ascii.
From S2P Require Import Prelude GoStr.
Open Scope Z_scope.
Local Open Scope string_scope.

(** * The registry *)

Definition CredentialTypeSeparator : ascii := ",".

Definition SplitCredentialTypes (raw : string) : list string :=
  if bool_decide (TrimSpace raw = "") then []
  else filter (fun p => p <> "") (TrimSpace <$> split CredentialTypeSeparator raw).

Inductive Consumption : Set := ConsumptionMCPHeader | ConsumptionToolchainEnv | ConsumptionFile.

#[export] Instance Consumption_eq_dec : EqDecision Consumption.
Proof. solve_decision. Defined.

Record Binding : Set := {
  Type_ : string; DisplayName : string; DataKey : string; Consumption_ : Consumption;
  EnvVar : string; HeaderName : string; ProbeKind : string; RequiredByGate : bool }.

Definition ProbeNone : string := "none".

Definition env_binding (t display key var : string) : string * Binding :=
  (t, {| Type_ := t; DisplayName := display; DataKey := key; Consumption_ := ConsumptionToolchainEnv;
         EnvVar := var; HeaderName := ""; ProbeKind := ProbeNone; RequiredByGate := true |}).
Definition header_binding (t display key header : string) : string * Binding :=
  (t, {| Type_ := t; DisplayName := display; DataKey := key; Consumption_ := ConsumptionMCPHeader;
         EnvVar := ""; HeaderName := header; ProbeKind := ProbeNone; RequiredByGate := true |}).

Definition bindingRows : list (string * Binding) := [
  env_binding "github" "GitHub" "token" "GITHUB_TOKEN";
  env_binding "dynatrace" "Dynatrace" "api-token" "DT_API_TOKEN";
  env_binding "terraform" "Terraform Cloud" "token" "TF_TOKEN";
  env_binding "ansible" "Ansible" "token" "ANSIBLE_TOKEN";
  env_binding "proxmox-api" "Proxmox API" "token" "PROXMOX_API_TOKEN";
  header_binding "linkedin-publish" "LinkedIn (publish)" "token" "Authorization";
  header_binding "x-publish" "X / Twitter (publish)" "token" "Authorization";
  header_binding "blog-publish" "Blog (publish)" "token" "Authorization";
  env_binding "gemini" "Google Gemini" "api-key" "GEMINI_API_KEY";
  env_binding "fal.ai" "fal.ai" "api-key" "FAL_KEY";
  header_binding "heygen" "HeyGen" "api-key" "X-Api-Key";
  header_binding "elevenlabs" "ElevenLabs" "api-key" "xi-api-key" ].

Definition bindingTable : gmap string Binding := list_to_map bindingRows.

Definition LookupBinding (credType : string) : option Binding := bindingTable !! credType.
Definition IsKnownType (credType : string) : bool := bool_decide (is_Some (bindingTable !! credType)).

Definition BindingTypes : list string := merge_sort String.le (map_to_list bindingTable).*1.

(** The check of one row, in the order of the source; the first defect. *)
Definition validate_row (key : string) (b : Binding) : option string :=
  if negb (bool_decide (Type_ b = key)) then Some "binding key does not match Type"
  else if bool_decide (DataKey b = "") then Some "empty DataKey"
  else
    match
      match Consumption_ b with
      | ConsumptionToolchainEnv =>
          if bool_decide (EnvVar b = "") then Some "toolchain-env but has no EnvVar"
          else if negb (bool_decide (HeaderName b = "")) then Some "toolchain-env but sets HeaderName" else None
      | ConsumptionMCPHeader =>
          if bool_decide (HeaderName b = "") then Some "mcp-header but has no HeaderName"
          else if negb (bool_decide (EnvVar b = "")) then Some "mcp-header but sets EnvVar" else None
      | ConsumptionFile =>
          if negb (bool_decide (EnvVar b = "")) || negb (bool_decide (HeaderName b = ""))
          then Some "file but sets EnvVar/HeaderName" else None
      end
    with
    | Some e => Some e
    | None => if bool_decide (ProbeKind b = "") then Some "empty ProbeKind" else None
    end.

Definition ValidateBindings : list string :=
  omap (fun kb => validate_row kb.1 kb.2) (map_to_list bindingTable).

(** ** Secret names *)

Definition lower_alnum (c : ascii) : option ascii :=
  let n := nat_of_ascii c in
  if ((97 <=? n) && (n <=? 122) || (48 <=? n) && (n <=? 57))%nat then Some c
  else if ((65 <=? n) && (n <=? 90))%nat then Some (ascii_of_nat (n + 32))
  else None.

(** Runs of bytes that are not letters or digits become one dash. Outside ASCII
    only U+0130 and U+212A have a lower case in it (i and k). *)
Fixpoint dash_runs (prevDash : bool) (s : string) : string :=
  match s with
  | "" => ""
  | String c rest =>
      match lower_alnum c with
      | Some l => String l (dash_runs false rest)
      | None =>
          let dash tail := if prevDash then tail else String "-" tail in
          match rest with
          | String c2 rest2 =>
              if bool_decide (String c (String c2 "") = bytes [196; 176]%nat) then String "i" (dash_runs false rest2)
              else match rest2 with
                   | String c3 rest3 =>
                       if bool_decide (String c (String c2 (String c3 "")) = bytes [226; 132; 170]%nat)
                       then String "k" (dash_runs false rest3)
                       else dash (dash_runs true rest)
                   | "" => dash (dash_runs true rest)
                   end
          | "" => dash (dash_runs true rest)
          end
      end
  end.

Definition dns1123 (s : string) : string := trim_right ["-"] (trim_left ["-"] (dash_runs false s)).

Definition MaterializedSecretName (project credType : string) : option string :=
  if IsKnownType credType
  then Some ("proj-" +:+ dns1123 project +:+ "-cred-" +:+ dns1123 credType) else None.

(** * The gate *)

Record SkillGateVerdict : Set := {
  Declared : list string; Gating : list string; SkillAdmitted : bool; Missing : list string }.

(** Equal neighbours become one. *)
Fixpoint dedupeSorted (l : list string) : list string :=
  match l with
  | [] => []
  | x :: rest =>
      match dedupeSorted rest with
      | y :: ys => if bool_decide (x = y) then y :: ys else x :: y :: ys
      | [] => [x]
      end
  end.

(** A known type the registry calls advisory never gates. *)
Definition gating (t : string) : bool :=
  match LookupBinding t with Some b => RequiredByGate b | None => true end.

Definition EvaluateSkillGate (annotation : string) (satisfied : gset string) : SkillGateVerdict :=
  let declared := SplitCredentialTypes annotation in
  let needs := filter (fun t => gating t = true) declared in
  if bool_decide (needs = []) then {| Declared := declared; Gating := []; SkillAdmitted := true; Missing := [] |}
  else
    let met t := IsKnownType t && bool_decide (t ∈ satisfied) in
    let admitted := existsb met needs in
    {| Declared := declared; Gating := needs; SkillAdmitted := admitted;
       Missing := if admitted then []
                  else dedupeSorted (merge_sort String.le (filter (fun t => met t = false) needs)) |}.

Record GatedSkill : Set := { SourceName : string; Annotation : string }.

Record RunGateDecision : Set := { Admitted_ : bool; WithheldSkills : list string; MissingTypes : list string }.

Definition withheld (satisfied : gset string) (s : GatedSkill) : bool :=
  negb (SkillAdmitted (EvaluateSkillGate (Annotation s) satisfied)).

Definition EvaluateRunGate (skills : list GatedSkill) (satisfied : gset string) : RunGateDecision :=
  let held := filter (fun s => withheld satisfied s = true) skills in
  let missing := flat_map (fun s => Missing (EvaluateSkillGate (Annotation s) satisfied)) held in
  {| Admitted_ := bool_decide (held = []); WithheldSkills := SourceName <$> held;
     MissingTypes := if bool_decide (held = []) then [] else dedupeSorted (merge_sort String.le missing) |}.

(** The candidates whose Secret is [present]. *)
Definition ProjectSatisfiedTypes (project : string) (candidateTypes : list string)
    (present : string -> bool) : gset string :=
  list_to_set (filter (fun t => match MaterializedSecretName project t with
                                | Some name => present name
                                | None => false
                                end = true) candidateTypes).

(** * The skills of a Run *)

(** A skill entry of the manifest recorded on Run.status. *)
Record ManifestSkill : Set := { ms_Namespace : string; ms_Name : string; CredentialType : string }.

Definition GatedSkillsFromManifest (m : option (list ManifestSkill)) : list GatedSkill :=
  (fun s => {| SourceName := ms_Namespace s +:+ "/" +:+ ms_Name s; Annotation := CredentialType s |}) <$>
    filter (fun s => CredentialType s <> "") (default [] m).

(** First occurrences, in order. *)
Fixpoint first_seen (seen : gset string) (l : list string) : list string :=
  match l with
  | [] => []
  | t :: rest => if bool_decide (t ∈ seen) then first_seen seen rest else t :: first_seen ({[t]} ∪ seen) rest
  end.

Definition CandidateCredentialTypes (gated : list GatedSkill) : list string :=
  first_seen ∅ (flat_map (fun g => SplitCredentialTypes (Annotation g)) gated).
