(* ===== verification/ModelEndpoint.v ===== *)
(** The model endpoint seam (src/pkg/modelendpoint): the tier-as-a-unit resolution
    of an agent's model and fallback (resolve.go), the decision on a rate limit and
    the provenance segments (fallback.go), and the Retry-After parse
    (ratelimit_parse.go). The resolver is a program over the reads of its client;
    the spans are left out. *)
From Stdlib Require Import Ascii.
From S2P Require Import Prelude GoStr Calls.
Open Scope Z_scope.
Open Scope k8s_scope.

(** * Data *)

Record SecretRef : Set := { sr_name : string; sr_key : string }.
Record FallbackModel : Set := { fb_model : string; fb_ref : option SecretRef }.

(** The fields the seam reads. *)
Record Agent : Set := {
  ag_name : string; ag_namespace : string; ag_model : string; ag_fallback : option FallbackModel;
  ag_endpoint : option SecretRef; ag_credential : SecretRef; ag_role_ns : string; ag_role : string }.
Record Role : Set := { rl_namespace : string; rl_model : string; rl_fallback : option FallbackModel }.
Record ModelConfig : Set := {
  mc_namespace : string; mc_model : string; mc_fallback : option FallbackModel; mc_endpoint : option SecretRef }.

Inductive Tier : Set := TierAgent | TierRole | TierDefault.

Record Endpoint : Set := {
  Model : string; BaseURL : string; Token : string; SecretName : string; ContextWindow : Z; MaxConcurrent : Z }.

Definition provider_default (model : string) : Endpoint :=
  {| Model := model; BaseURL := ""; Token := ""; SecretName := ""; ContextWindow := 0; MaxConcurrent := 0 |}.

Record RuntimeConfig : Set := { rc_model : string; rc_url : string; rc_token : string }.
Definition Endpoint_RuntimeConfig (e : Endpoint) : RuntimeConfig :=
  {| rc_model := Model e; rc_url := BaseURL e; rc_token := Token e |}.

Definition Endpoint_String (e : Endpoint) : string :=
  (if bool_decide (BaseURL e = "") then "provider-default" else BaseURL e) +:+ "/" +:+ Model e.

Inductive ErrUnresolved : Set :=
| ErrNoModel
| ConfigUnread (ns name : string)
| SecretUnread (ns name : string)
| MissingKey (ns name key : string)
| BadURL (ns name url : string).

(** A Secret's data; an answer of [None] is any error of the read. *)
Notation Secret := (gmap string string).

Inductive Read (A : Type) : Type := Found (a : A) | NotFound | ReadError.
Arguments Found {A} a.
Arguments NotFound {A}.
Arguments ReadError {A}.

Record ActivationDims : Set := {
  dm_project : string; dm_agent : string; dm_role : string; dm_primary : string; dm_fallback : string }.

Inductive Call : Type -> Type :=
| GetSecret (ns name : string) : Call (option Secret)
| GetModelConfig (ns name : string) : Call (Read ModelConfig)
| IncFallbackActivation (dims : ActivationDims) : Call unit.

Notation Prog := (Calls.Prog Call).
Notation ret := Ret.

(** * Resolution *)

Section resolver.
(** net/url: the scheme, the host and the rendering of a URL that parses. *)
Context (url_parse : string -> option (string * string * string)) (SystemNamespace : string).

Definition KeyEndpointURL : string := "endpointURL".
Definition KeyAPIToken : string := "apiToken".
Definition KeyContextWindow : string := "contextWindow".
Definition KeyMaxConcurrent : string := "maxConcurrent".
Definition aliasURL : string := "url".
Definition aliasToken : string := "token".
Definition DefaultModelConfigName : string := "default".
Definition DefaultSystemNamespace : string := "k8squad-system".

Definition systemNamespace : string :=
  if bool_decide (SystemNamespace = "") then DefaultSystemNamespace else SystemNamespace.

Record tierInput : Set := {
  ti_tier : Tier; ti_model : string; ti_fallback : option FallbackModel; ti_endpoint : option SecretRef;
  ti_credential : option SecretRef; ti_namespace : string }.

Definition secretKey (s : Secret) (key alias : string) : string :=
  match s !! key with
  | Some v => TrimSpace v
  | None => match s !! alias with Some v => TrimSpace v | None => "" end
  end.

Definition parseContextWindow (raw : string) : Z :=
  match atoi raw with Some n => if n <=? 0 then 0 else n | None => 0 end.
Definition parseMaxConcurrent (raw : string) : Z :=
  match atoi raw with Some n => if n <=? 0 then 0 else n | None => 0 end.

(** strings.TrimRight(s, "/") *)
Definition trim_slashes (s : string) : string := trim_right ["/"] s.

Definition ResolveRef (namespace : string) (ref : SecretRef) (model : string) : Prog (result ErrUnresolved Endpoint) :=
  let* secret := call (GetSecret namespace (sr_name ref)) in
  ret (match secret with
       | None => Err (SecretUnread namespace (sr_name ref))
       | Some s =>
           let urlKey := if bool_decide (sr_key ref = "") then KeyEndpointURL else sr_key ref in
           let rawURL := secretKey s urlKey aliasURL in
           if bool_decide (rawURL = "") then Err (MissingKey namespace (sr_name ref) urlKey)
           else match url_parse (TrimSpace rawURL) with
                | Some (scheme, host, text) =>
                    if bool_decide (host = "") || negb (bool_decide (scheme ∈ ["http"; "https"]))
                    then Err (BadURL namespace (sr_name ref) rawURL)
                    else Ok {| Model := model; BaseURL := trim_slashes text;
                               Token := secretKey s KeyAPIToken aliasToken; SecretName := sr_name ref;
                               ContextWindow := parseContextWindow (secretKey s KeyContextWindow "");
                               MaxConcurrent := parseMaxConcurrent (secretKey s KeyMaxConcurrent "") |}
                | None => Err (BadURL namespace (sr_name ref) rawURL)
                end
       end).

Definition set_token (tok : string) (e : Endpoint) : Endpoint :=
  {| Model := Model e; BaseURL := BaseURL e; Token := tok; SecretName := SecretName e;
     ContextWindow := ContextWindow e; MaxConcurrent := MaxConcurrent e |}.

Definition credential_token (ref : SecretRef) (s : Secret) : string :=
  if bool_decide (sr_key ref = "") then secretKey s KeyAPIToken aliasToken
  else match s !! sr_key ref with Some v => TrimSpace v | None => "" end.

Definition applyCredentialToken (namespace : string) (credentialRef : option SecretRef) (ep : Endpoint) : Prog Endpoint :=
  match credentialRef with
  | None => ret ep
  | Some ref =>
      if bool_decide (sr_name ref = "") then ret ep
      else
        let* secret := call (GetSecret namespace (sr_name ref)) in
        ret (match secret with
             | None => ep
             | Some s => let tok := credential_token ref s in
                         if bool_decide (tok = "") then ep else set_token tok ep
             end)
  end.

Definition resolvePrimary (t : tierInput) : Prog (result ErrUnresolved Endpoint) :=
  match ti_endpoint t with
  | None => ret (Ok (provider_default (ti_model t)))
  | Some ref =>
      let* r := ResolveRef (ti_namespace t) ref (ti_model t) in
      match r with
      | Err e => ret (Err e)
      | Ok ep => let* ep := applyCredentialToken (ti_namespace t) (ti_credential t) ep in ret (Ok ep)
      end
  end.

(** [None]: the tier has no fallback. *)
Definition resolveFallback (t : tierInput) : Prog (result ErrUnresolved (option Endpoint)) :=
  match ti_fallback t with
  | None => ret (Ok None)
  | Some fb =>
      match (match fb_ref fb with Some r => Some r | None => ti_endpoint t end) with
      | None => ret (Ok (Some (provider_default (fb_model fb))))
      | Some ref =>
          let* r := ResolveRef (ti_namespace t) ref (fb_model fb) in
          match r with
          | Err e => ret (Err e)
          | Ok ep =>
              if bool_decide (is_Some (fb_ref fb)) && negb (bool_decide (Token ep = "")) then ret (Ok (Some ep))
              else let* ep := applyCredentialToken (ti_namespace t) (ti_credential t) ep in ret (Ok (Some ep))
          end
      end
  end.

Definition credentialRefOf (agent : Agent) : option SecretRef :=
  if bool_decide (sr_name (ag_credential agent) = "") then None else Some (ag_credential agent).

Definition agentTier (agent : Agent) : tierInput :=
  {| ti_tier := TierAgent; ti_model := ag_model agent; ti_fallback := ag_fallback agent; ti_endpoint := ag_endpoint agent;
     ti_credential := credentialRefOf agent; ti_namespace := ag_namespace agent |}.

Definition roleTier (role : Role) : tierInput :=
  {| ti_tier := TierRole; ti_model := rl_model role; ti_fallback := rl_fallback role; ti_endpoint := None;
     ti_credential := None; ti_namespace := rl_namespace role |}.

Definition defaultTier (mc : ModelConfig) : tierInput :=
  {| ti_tier := TierDefault; ti_model := mc_model mc; ti_fallback := mc_fallback mc; ti_endpoint := mc_endpoint mc;
     ti_credential := None; ti_namespace := mc_namespace mc |}.

Definition Resolve (agent : Agent) : Prog (result ErrUnresolved Endpoint) := resolvePrimary (agentTier agent).
Definition ResolveFallback (agent : Agent) : Prog (result ErrUnresolved (option Endpoint)) := resolveFallback (agentTier agent).

Definition defaultModelConfig : Prog (result ErrUnresolved (option ModelConfig)) :=
  let* mc := call (GetModelConfig systemNamespace DefaultModelConfigName) in
  ret (match mc with
       | Found mc => Ok (Some mc)
       | NotFound => Ok None
       | ReadError => Err (ConfigUnread systemNamespace DefaultModelConfigName)
       end).

Definition role_supplies (role : option Role) : option Role :=
  match role with Some r => if bool_decide (rl_model r = "") then None else Some r | None => None end.

Definition winningTier (agent : option Agent) (role : option Role) : Prog (result ErrUnresolved tierInput) :=
  match (match agent with Some a => if bool_decide (ag_model a = "") then None else Some a | None => None end) with
  | Some a => ret (Ok (agentTier a))
  | None =>
      match role_supplies role with
      | Some r => ret (Ok (roleTier r))
      | None =>
          let* r := defaultModelConfig in
          ret (match r with
               | Err e => Err e
               | Ok (Some mc) => if bool_decide (mc_model mc = "") then Err ErrNoModel else Ok (defaultTier mc)
               | Ok None => Err ErrNoModel
               end)
      end
  end.

(** The tier that won, if one did, with the pair or the failure. *)
Definition ResolveEffective (agent : option Agent) (role : option Role)
    : Prog (option Tier * result ErrUnresolved (Endpoint * option Endpoint)) :=
  let* w := winningTier agent role in
  match w with
  | Err e => ret (None, Err e)
  | Ok win =>
      let* p := resolvePrimary win in
      match p with
      | Err e => ret (Some (ti_tier win), Err e)
      | Ok primary =>
          let* f := resolveFallback win in
          ret (Some (ti_tier win), match f with Err e => Err e | Ok fallback => Ok (primary, fallback) end)
      end
  end.

(** * The decision on a rate limit *)

Inductive SwitchAction : Set := ActionSwitchModel | ActionPauseRun.
Definition ReasonRateLimited : string := "rate_limited".

Record SwitchPlan : Set := { Action : SwitchAction; From : string; To : option Endpoint; KeepClaim : bool }.

(** The instant and the window in nanoseconds. *)
Record RateLimitedSignal : Set := { FromModel : string; At : Z; RetryAfter : Z }.

(** [metered]: whether metrics are wired. *)
Definition OnRateLimited (metered : bool) (agent : Agent) (sig : RateLimitedSignal) : Prog (result ErrUnresolved SwitchPlan) :=
  let from := if bool_decide (FromModel sig = "") then ag_model agent else FromModel sig in
  let* r := ResolveFallback agent in
  match r with
  | Err e => ret (Err e)
  | Ok None => ret (Ok {| Action := ActionPauseRun; From := from; To := None; KeepClaim := false |})
  | Ok (Some fallback) =>
      let plan := {| Action := ActionSwitchModel; From := from; To := Some fallback; KeepClaim := true |} in
      if metered then
        let* _ := call (IncFallbackActivation
          {| dm_project := ag_namespace agent; dm_agent := ag_name agent; dm_role := ag_role agent; dm_primary := from;
             dm_fallback := Model fallback |}) in
        ret (Ok plan)
      else ret (Ok plan)
  end.

Definition ShouldSkipSwitch (plan : SwitchPlan) (serving : Endpoint) : bool :=
  match Action plan, To plan with
  | ActionSwitchModel, Some to => bool_decide (Model serving = Model to) && bool_decide (BaseURL serving = BaseURL to)
  | _, _ => false
  end.
End resolver.

(** ** Provenance segments *)

Record ModelSegment : Set := {
  sg_model : string; sg_started : Z; sg_ended : option Z; sg_reason : string; sg_secret : string; sg_tier : string }.

Definition end_segment (endedAt : Z) (reason : string) (s : ModelSegment) : ModelSegment :=
  {| sg_model := sg_model s; sg_started := sg_started s; sg_ended := Some endedAt; sg_reason := reason;
     sg_secret := sg_secret s; sg_tier := sg_tier s |}.

Definition open_on (model : string) (s : ModelSegment) : Prop := sg_model s = model /\ sg_ended s = None.

(** From the end: the last open segment of the model, if there is one. *)
Fixpoint close_last (segments : list ModelSegment) (model : string) (endedAt : Z) (reason : string) : option (list ModelSegment) :=
  match segments with
  | [] => None
  | s :: rest =>
      match close_last rest model endedAt reason with
      | Some rest' => Some (s :: rest')
      | None => if decide (open_on model s) then Some (end_segment endedAt reason s :: rest) else None
      end
  end.

Definition CloseSegment (segments : list ModelSegment) (model : string) (endedAt : Z) (reason : string) : list ModelSegment :=
  default segments (close_last segments model endedAt reason).

Definition tier_string (t : option Tier) : string :=
  match t with Some TierAgent => "agent" | Some TierRole => "role" | Some TierDefault => "default" | None => "" end.

Definition OpenSegment (segments : list ModelSegment) (ep : Endpoint) (tier : option Tier) (startedAt : Z) : list ModelSegment :=
  segments ++ [{| sg_model := Model ep; sg_started := startedAt; sg_ended := None; sg_reason := "";
                  sg_secret := SecretName ep; sg_tier := tier_string tier |}].

(** * Retry-After *)

Section retry_after.
(** net/http's ParseTime, in nanoseconds. *)
Context (ParseTime : string -> option Z).

Definition second : Z := 1000000000.
Definition StatusTooManyRequests : Z := 429.

(** time.Time.Sub saturates. *)
Definition time_sub (t u : Z) : Z := Z.max (- 2 ^ 63) (Z.min (2 ^ 63 - 1) (t - u)).

Definition ParseRetryAfter (value : string) (now : Z) : Z * bool :=
  let v := TrimSpace value in
  if bool_decide (v = "") then (0, false)
  else match atoi v with
       | Some secs => if secs <? 0 then (0, false) else (wrap64 (secs * second), true)
       | None =>
           match ParseTime v with
           | Some t => let d := time_sub t now in if d <? 0 then (0, true) else (d, true)
           | None => (0, false)
           end
       end.

Record RawRateLimit : Set := { StatusCode : Z; raw_RetryAfter : string; raw_FromModel : string; ObservedAt : option Z }.

(** [now]: the clock, for an observation without its instant. *)
Definition NormalizeRateLimited (now : Z) (raw : RawRateLimit) : option RateLimitedSignal :=
  if negb (StatusCode raw =? StatusTooManyRequests) then None
  else
    let at_ := default now (ObservedAt raw) in
    Some {| FromModel := raw_FromModel raw; At := at_; RetryAfter := (ParseRetryAfter (raw_RetryAfter raw) at_).1 |}.
End retry_after.
