(* ===== verification/RateLimit.v ===== *)
(** A rate limit on the way: the consumer of the shim's signal
    (src/internal/a2a/ratelimit.go) with the operator's seams
    (src/pkg/controller/rundrive/ratelimitbridge.go), and the task built for the
    next dispatch (dispatch.go: buildTask and what it reads). Programs over the
    calls of the resolver, the Kubernetes client, the board and the stores; logs,
    spans and annotations are left out. *)
From Stdlib Require Import Ascii.
From S2P Require Import Prelude GoStr Calls ModelEndpoint.
Open Scope Z_scope.
Open Scope k8s_scope.

Record ObjectRef : Set := { Name : string; Namespace : string }.

Record Run : Set := {
  UID : string; rn_name : string; rn_namespace : string; WorkItemRef : string; TeamRef : string; ProjectRef : string;
  Agents : list ObjectRef; ModelSegments : list ModelSegment }.

Section seams.
(** The resolved MCP servers and their credentials (capability envelope). *)
Context {MCP : Type}.

(** A list that fails says whether it failed as not found. *)
Inductive Call : Type -> Type :=
| Resolver {X : Type} (c : ModelEndpoint.Call X) : Call X
| ListRuns : Call (result bool (list Run))
| GetAgent (ns name : string) : Call (Read Agent)
| GetRole (ns name : string) : Call (Read Role)
| PatchSegments (run : string) (segments : list ModelSegment) : Call bool
| PauseRateLimited (item : string) : Call bool
| RecordPause (item run : string) (retryAfter : option Z) : Call bool
| Now : Call Z
| WorkItem (item : string) : Call (option (string * string))
| FenceToken (item : string) : Call (option Z)
| AssembleSystemContext (run : string) : Call (option string)
| AcquireSlot (endpoint run : string) (max : Z) : Call (option string)
| McpEnvelope (run : string) : Call (option MCP)
| TicketKey (item : string) : Call (option string).

Notation Prog := (Calls.Prog Call).
Notation ret := Ret.

Definition resolve {A} (p : Calls.Prog ModelEndpoint.Call A) : Prog A := embed (fun X c => Resolver c) p.

(** * Runs, agents and their model *)

Inductive RunErr : Set := ListFailed (notFound : bool) | NoRun (uid : string).

(** apierrors.IsNotFound *)
Definition IsNotFound (e : RunErr) : bool := match e with ListFailed nf => nf | NoRun _ => false end.

Definition runByUID (runID : string) : Prog (result RunErr Run) :=
  let* runs := call ListRuns in
  ret (match runs with
       | Err nf => Err (ListFailed nf)
       | Ok rs => match head (filter (fun r => UID r = runID) rs) with Some r => Ok r | None => Err (NoRun runID) end
       end).

(** The id up to the first # or /. *)
Fixpoint cleanRunID (s : string) : string :=
  match s with
  | EmptyString => EmptyString
  | String c rest => if bool_decide (c ∈ ["#"%char; "/"%char]) then EmptyString else String c (cleanRunID rest)
  end.

Definition agent_namespace (run : Run) (ref : ObjectRef) : string :=
  if bool_decide (Namespace ref = "") then rn_namespace run else Namespace ref.

Inductive DispatchErr : Set :=
| RunUnresolved (e : RunErr)
| NoWorkItemRef
| BoardFailed
| ContextFailed
| AgentUnresolved (notFound : bool)
| RoleUnresolved
| ModelUnresolved (e : ErrUnresolved)
| EndpointSlotBusy (endpoint holder : string)
| McpFailed.

Section operator.
Context (url_parse : string -> option (string * string * string)).

Definition roleFor (agent : Agent) : Prog (result DispatchErr (option Role)) :=
  if bool_decide (ag_role agent = "") then ret (Ok None)
  else
    let* r := call (GetRole (if bool_decide (ag_role_ns agent = "") then ag_namespace agent else ag_role_ns agent)
                            (ag_role agent)) in
    ret (match r with Found role => Ok (Some role) | NotFound => Ok None | ReadError => Err RoleUnresolved end).

(** The resolver's system namespace is left at its default. *)
Definition resolveEffectiveEndpoint (run : Run) (ref : ObjectRef)
    : Prog (result DispatchErr (Endpoint * option Endpoint * option Tier)) :=
  let* agent := call (GetAgent (agent_namespace run ref) (Name ref)) in
  match agent with
  | NotFound => ret (Err (AgentUnresolved true))
  | ReadError => ret (Err (AgentUnresolved false))
  | Found agent =>
      let* role := roleFor agent in
      match role with
      | Err e => ret (Err e)
      | Ok role =>
          let* (tier, r) := resolve (ResolveEffective url_parse "" (Some agent) role) in
          ret (match r with Err e => Err (ModelUnresolved e) | Ok (p, f) => Ok (p, f, tier) end)
      end
  end.

Definition fallbackActive (run : Run) : bool :=
  existsb (fun s => bool_decide (sg_reason s = ReasonRateLimited)) (ModelSegments run).

(** A write that fails is only logged. *)
Definition recordModelProvenance (run : Run) (ep : Endpoint) (tier : option Tier) : Prog unit :=
  if bool_decide (Model ep = "") then ret tt
  else if existsb (fun s => bool_decide (sg_ended s = None) && bool_decide (sg_model s = Model ep) &&
                            bool_decide (sg_tier s = tier_string tier)) (ModelSegments run) then ret tt
  else
    let* now := call Now in
    let* _ := call (PatchSegments (UID run) (OpenSegment (ModelSegments run) ep tier now)) in
    ret tt.

(** * The task of a dispatch *)

Record ModelRoute : Set := { mr_endpoint : string; mr_model : string; mr_token : string }.
Definition no_route : ModelRoute := {| mr_endpoint := ""; mr_model := ""; mr_token := "" |}.

Record Task : Type := {
  A2ATaskID : string; WorkItemID : string; tk_fence : Z; Input : string; SystemContext : string;
  Metadata : list (string * string); id_name : string; id_squad : string; id_project : string; tk_mcp : MCP;
  tk_route : ModelRoute; ModelTier : string; tk_key : string }.

Record DispatchConfig : Set := { ContextAssemblers : bool; EndpointGate : bool }.

(** The route of the dispatch agent, with its slot taken and its segment opened. *)
Definition route (cfg : DispatchConfig) (run : Run) (runID : string) (ref : ObjectRef)
    : Prog (result DispatchErr (ModelRoute * string)) :=
  let* r := resolveEffectiveEndpoint run ref in
  match r with
  | Err e => ret (Err e)
  | Ok (primary, fallback, tier) =>
      let endpoint := match fallback with Some f => if fallbackActive run then f else primary | None => primary end in
      let finish r := let* _ := recordModelProvenance run endpoint tier in ret (Ok (r, tier_string tier)) in
      if bool_decide (BaseURL endpoint = "") then finish no_route
      else
        let routed := {| mr_endpoint := BaseURL endpoint; mr_model := Model endpoint; mr_token := Token endpoint |} in
        if EndpointGate cfg then
          let* holder := call (AcquireSlot (BaseURL endpoint) runID (MaxConcurrent endpoint)) in
          match holder with
          | Some h => ret (Err (EndpointSlotBusy (BaseURL endpoint) h))
          | None => finish routed
          end
        else finish routed
  end.

Definition buildTask (cfg : DispatchConfig) (a2aTaskID runID : string) : Prog (result DispatchErr Task) :=
  let* r := runByUID runID in
  match r with
  | Err e => ret (Err (RunUnresolved e))
  | Ok run =>
      if bool_decide (WorkItemRef run = "") then ret (Err NoWorkItemRef)
      else
        let* wi := call (WorkItem (WorkItemRef run)) in
        match wi with
        | None => ret (Err BoardFailed)
        | Some (title, body) =>
            let* fence := call (FenceToken (WorkItemRef run)) in
            match fence with
            | None => ret (Err BoardFailed)
            | Some fence =>
                let* ctx := (if ContextAssemblers cfg then call (AssembleSystemContext (UID run)) else ret (Some "")) in
                match ctx with
                | None => ret (Err ContextFailed)
                | Some ctx =>
                    let* routed := (match Agents run with
                                    | [] => ret (Ok (no_route, ""))
                                    | ref :: _ => route cfg run runID ref
                                    end) in
                    match routed with
                    | Err e => ret (Err e)
                    | Ok (mr, tier) =>
                        let* mcp := call (McpEnvelope (UID run)) in
                        match mcp with
                        | None => ret (Err McpFailed)
                        | Some mcp =>
                            let* key := call (TicketKey (WorkItemRef run)) in
                            ret (Ok {| A2ATaskID := a2aTaskID; WorkItemID := WorkItemRef run; tk_fence := fence;
                                       Input := if bool_decide (body = "") then title else body; SystemContext := ctx;
                                       Metadata := [("work_item.title", title); ("work_item.id", WorkItemRef run);
                                                    ("team", TeamRef run); ("project", ProjectRef run);
                                                    ("run.namespace", rn_namespace run); ("run.name", rn_name run)];
                                       id_name := default "" (Name <$> head (Agents run)); id_squad := TeamRef run;
                                       id_project := ProjectRef run; tk_mcp := mcp; tk_route := mr; ModelTier := tier;
                                       tk_key := default "" key |})
                        end
                    end
                end
            end
        end
  end.

(** * The signal *)

Record RateLimitedPayload : Set := { pl_model : string; pl_RetryAfter : string }.

(** The payload of an event: the typed value, a pointer to it, or what JSON makes
    of anything else. *)
Inductive Payload : Set :=
| Typed (p : RateLimitedPayload)
| Pointer (p : option RateLimitedPayload)
| Decoded (p : option RateLimitedPayload).

Definition rateLimitedPayload (p : Payload) : option RateLimitedPayload :=
  match p with Typed p => Some p | Pointer p => p | Decoded p => p end.

Record Event : Set := { rate_limited : bool; TS : option Z; ev_payload : Payload }.

Record RunContext : Set := { rc_agent : Agent; rc_run : string }.

(** [None]: the event is dropped. *)
Definition runResolver (runID : string) : Prog (result DispatchErr (option RunContext)) :=
  let* r := runByUID runID in
  match r with
  | Err e => ret (if IsNotFound e then Ok None else Err (RunUnresolved e))
  | Ok run =>
      match Agents run with
      | [] => ret (Ok None)
      | ref :: _ =>
          let* agent := call (GetAgent (agent_namespace run ref) (Name ref)) in
          ret (match agent with
               | Found a => Ok (Some {| rc_agent := a; rc_run := runID |})
               | NotFound => Ok None
               | ReadError => Err (AgentUnresolved false)
               end)
      end
  end.

Inductive HandleErr : Set :=
| ResolveFailed (e : DispatchErr)
| DecisionFailed (e : ErrUnresolved)
| SwitchFailed (e : RunErr)
| PauseFailed (e : option RunErr).

(** [wired]: the claims and the pause store are there. *)
Definition parker (wired : bool) (runID : string) (retryAfter : option Z) : Prog (result (option RunErr) unit) :=
  if negb wired then ret (Ok tt)
  else
    let* r := runByUID runID in
    match r with
    | Err e => ret (if IsNotFound e then Ok tt else Err (Some e))
    | Ok run =>
        let* parked := call (PauseRateLimited (WorkItemRef run)) in
        if negb parked then ret (Err None)
        else
          let* recorded := call (RecordPause (WorkItemRef run) runID retryAfter) in
          ret (if recorded : bool then Ok tt else Err None)
    end.

(** The model of the last open portion. *)
Definition last_open (segments : list ModelSegment) : string :=
  foldl (fun acc s => if bool_decide (sg_ended s = None) then sg_model s else acc) "" segments.

Definition switchExecutor (runID : string) (to : string) : Prog (result RunErr unit) :=
  let* r := runByUID runID in
  match r with
  | Err e => ret (if IsNotFound e then Ok tt else Err e)
  | Ok run =>
      if existsb (fun s => bool_decide (sg_ended s = None) && bool_decide (sg_model s = to)) (ModelSegments run)
      then ret (Ok tt)
      else if bool_decide (last_open (ModelSegments run) = "") then ret (Ok tt)
      else
        let* now := call Now in
        let* _ := call (PatchSegments (UID run)
          (CloseSegment (ModelSegments run) (last_open (ModelSegments run)) now ReasonRateLimited)) in
        ret (Ok tt)
  end.

Section bridge.
Context (ParseTime : string -> option Z) (wired : bool).

(** The bridge of one Run: its switcher has no metrics. *)
Definition Handle (runID : string) (ev : Event) : Prog (result HandleErr unit) :=
  if negb (rate_limited ev) then ret (Ok tt)
  else match rateLimitedPayload (ev_payload ev) with
       | None => ret (Ok tt)
       | Some pay =>
           let* rc := runResolver runID in
           match rc with
           | Err e => ret (Err (ResolveFailed e))
           | Ok None => ret (Ok tt)
           | Ok (Some rc) =>
               let* now := (match TS ev with Some _ => ret 0 | None => call Now end) in
               match NormalizeRateLimited ParseTime now
                       {| StatusCode := StatusTooManyRequests; raw_RetryAfter := pl_RetryAfter pay;
                          raw_FromModel := pl_model pay; ObservedAt := TS ev |} with
               | None => ret (Ok tt)
               | Some sig =>
                   let* plan := resolve (OnRateLimited url_parse false (rc_agent rc) sig) in
                   match plan with
                   | Err e => ret (Err (DecisionFailed e))
                   | Ok plan =>
                       match Action plan with
                       | ActionSwitchModel =>
                           let* s := switchExecutor (rc_run rc) (default "" (Model <$> To plan)) in
                           ret (match s with Err e => Err (SwitchFailed e) | Ok _ => Ok tt end)
                       | ActionPauseRun =>
                           let* p := parker wired runID (if 0 <? RetryAfter sig then Some (RetryAfter sig) else None) in
                           ret (match p with Err e => Err (PauseFailed e) | Ok _ => Ok tt end)
                       end
                   end
               end
           end
       end.

(** The event goes on to the inner sink unless the bridge failed. *)
Definition Sink (runID : string) (inner : Event -> Prog (result HandleErr unit)) (ev : Event) : Prog (result HandleErr unit) :=
  let* r := Handle runID ev in
  match r with Err e => ret (Err e) | Ok _ => inner ev end.
End bridge.
End operator.
End seams.
Arguments Call : clear implicits.
Arguments Task : clear implicits.
