(* ===== verification/Wire.v ===== *)
(** The wire events of a run (src/third_party/k8sagentmesh/a2a/types.go, re-exported
    by src/pkg/a2a/types.go): their types, the payloads the operator reads and how
    a payload of any Go type is normalised to one of them, and the runes of a byte
    string. *)
From Stdlib Require Import Ascii PrimFloat.
From S2P Require Import Prelude GoStr.
Open Scope Z_scope.
Open Scope k8s_scope.

(** * Events *)

Definition EventStatus : string := "status".
Definition EventMessage : string := "message".
Definition EventTool : string := "tool".
Definition EventUsage : string := "usage".
Definition EventArtifactRef : string := "artifact-ref".

Definition TaskCompleted : string := "completed".
Definition TaskFailed : string := "failed".
Definition TaskCanceled : string := "canceled".
Definition TaskState_IsTerminal (s : string) : bool := bool_decide (s ∈ [TaskCompleted; TaskFailed; TaskCanceled]).

Definition MessageKindDeliverable : string := "deliverable".

Record StatusPayload : Set := { st_State : string; st_Reason : string; st_TraceID : string }.
Record MessagePayload : Set := { ms_Text : string; ms_Kind : string }.
Record ToolPayload : Set := {
  tl_Name : string; tl_Phase : string; tl_OK : option bool; tl_Summary : string; tl_Skill : string; tl_Server : string;
  tl_Command : string }.
Record UsagePayload : Set := {
  us_Model : string; us_Input : Z; us_Output : Z; us_CacheRead : Z; us_CacheWrite : Z; us_Reasoning : Z; us_CostUSD : float;
  us_DurationMS : Z; us_ResponseModel : string }.

Record ArtifactRef : Set := { af_Kind : string; af_WorkItemID : string; af_URI : string; af_SHA256 : string }.

(** The Go value in a payload: a value of one of the types or a pointer to one, or
    anything else. *)
Inductive Concrete : Set :=
| OfMessage (p : MessagePayload) | ToMessage (p : option MessagePayload)
| OfTool (p : ToolPayload) | ToTool (p : option ToolPayload)
| OfStatus (p : StatusPayload) | ToStatus (p : option StatusPayload)
| OfUsage (p : UsagePayload) | ToUsage (p : option UsagePayload)
| OfArtifact (p : ArtifactRef) | ToArtifact (p : option ArtifactRef)
| OfOther.

(** The value, with what a trip through JSON makes of it as each of the types. *)
Record Payload : Set := {
  concrete : Concrete; json_message : option MessagePayload; json_tool : option ToolPayload;
  json_status : option StatusPayload; json_usage : option UsagePayload; json_artifact : option ArtifactRef }.

Definition messagePayload (p : Payload) : option MessagePayload :=
  match concrete p with OfMessage v => Some v | ToMessage v => v | _ => json_message p end.
Definition toolPayload (p : Payload) : option ToolPayload :=
  match concrete p with OfTool v => Some v | ToTool v => v | _ => json_tool p end.
Definition statusPayload (p : Payload) : option StatusPayload :=
  match concrete p with OfStatus v => Some v | ToStatus v => v | _ => json_status p end.
Definition usagePayload (p : Payload) : option UsagePayload :=
  match concrete p with OfUsage v => Some v | ToUsage v => v | _ => json_usage p end.

(** [Seq] is a uint64; a missing [TS] is the zero time. *)
Record Event : Set := { Seq : Z; A2ATaskID : string; TS : option Z; Type_ : string; payload : Payload }.

(** * Runes *)

Definition in_range (lo hi : nat) (a : ascii) : bool := (lo <=? nat_of_ascii a)%nat && (nat_of_ascii a <=? hi)%nat.
Definition continuation (a : ascii) : bool := in_range 128 191 a.

(** For the first byte of a longer rune: the range of the second byte and how many
    continuation bytes follow that one. *)
Definition leading (a : ascii) : option (nat * nat * nat) :=
  if in_range 194 223 a then Some (128, 191, 0)%nat
  else if in_range 224 224 a then Some (160, 191, 1)%nat
  else if in_range 237 237 a then Some (128, 159, 1)%nat
  else if in_range 225 239 a then Some (128, 191, 1)%nat
  else if in_range 240 240 a then Some (144, 191, 2)%nat
  else if in_range 241 243 a then Some (128, 191, 2)%nat
  else if in_range 244 244 a then Some (128, 143, 2)%nat
  else None.

(** U+FFFD, what a byte that begins no rune decodes to. *)
Definition RuneError : string := bytes [239; 191; 189]%nat.

(** [[]rune(s)], each rune by the bytes it is written back as. *)
Fixpoint runes (s : string) : list string :=
  match s with
  | EmptyString => []
  | String a s1 =>
      if in_range 0 127 a then String a EmptyString :: runes s1
      else
        match leading a, s1 with
        | Some (lo, hi, more), String b s2 =>
            if negb (in_range lo hi b) then RuneError :: runes s1
            else
              match more, s2 with
              | 0%nat, _ => String a (String b EmptyString) :: runes s2
              | 1%nat, String c s3 =>
                  if continuation c then String a (String b (String c EmptyString)) :: runes s3 else RuneError :: runes s1
              | _, String c (String d s4) =>
                  if continuation c && continuation d
                  then String a (String b (String c (String d EmptyString))) :: runes s4 else RuneError :: runes s1
              | _, _ => RuneError :: runes s1
              end
        | _, _ => RuneError :: runes s1
        end
  end.

(** %d of a number of either sign. *)
Definition sitoa (n : Z) : string := if n <? 0 then "-" +:+ itoa (- n) else itoa n.

(** ** Lengths *)

Fixpoint total_length (l : list string) : Z :=
  match l with [] => 0 | s :: l => Z.of_nat (String.length s) + total_length l end.

Lemma length_app_string s s' : String.length (s ++ s')%string = (String.length s + String.length s')%nat.
Proof. induction s as [|a s IH]; [done|]. change (S (String.length (s ++ s')) = S (String.length s + String.length s'))%nat. by rewrite IH. Qed.

Lemma length_concat l : Z.of_nat (String.length (String.concat EmptyString l)) = total_length l.
Proof.
  induction l as [|s l IH]; [done|]. cbn [total_length]. rewrite <- IH. destruct l as [|s' l]; [cbn; lia|].
  change (String.concat "" (s :: s' :: l)) with ((s ++ "" ++ String.concat "" (s' :: l))%string).
  rewrite !length_app_string. cbn [String.length]. lia.
Qed.

(** A rune is one to four bytes, and takes one to four bytes of the string. *)
Lemma runes_size s :
  Forall (fun r => 1 <= Z.of_nat (String.length r) <= 4) (runes s) /\
  Z.of_nat (length (runes s)) <= Z.of_nat (String.length s) <= 4 * Z.of_nat (length (runes s)).
Proof.
  induction s as [s IH] using (induction_ltof1 _ String.length). unfold ltof in IH.
  destruct s as [|a s1]; [split; [constructor|cbn; lia]|].
  assert (Hbad : Forall (fun r => 1 <= Z.of_nat (String.length r) <= 4) (RuneError :: runes s1) /\
    Z.of_nat (length (RuneError :: runes s1)) <= Z.of_nat (String.length (String a s1)) <= 4 * Z.of_nat (length (RuneError :: runes s1))).
  { destruct (IH s1) as [? ?]; [cbn; lia|]. split; [constructor; [cbn; lia|done]|]. cbn [length String.length]. lia. }
  cbn [runes]. destruct (in_range 0 127 a).
  { destruct (IH s1) as [? ?]; [cbn; lia|]. split; [constructor; [cbn; lia|done]|]. cbn [length String.length]. lia. }
  destruct (leading a) as [[[lo hi] [|[|more]]]|]; [| | |by destruct s1]; (destruct s1 as [|b s2]; [done|]);
    (destruct (negb (in_range lo hi b)); [done|]).
  - destruct (IH s2) as [? ?]; [cbn; lia|]. split; [constructor; [cbn; lia|done]|]. cbn [length String.length] in *. lia.
  - destruct s2 as [|c s3]; [done|]. destruct (continuation c); [|done].
    destruct (IH s3) as [? ?]; [cbn; lia|]. split; [constructor; [cbn; lia|done]|]. cbn [length String.length] in *. lia.
  - destruct s2 as [|c [|d s4]]; [done|done|]. destruct (continuation c && continuation d); [|done].
    destruct (IH s4) as [? ?]; [cbn; lia|]. split; [constructor; [cbn; lia|done]|]. cbn [length String.length] in *. lia.
Qed.
