(* ===== verification/Mirror.v ===== *)
(** The progress mirror (src/pkg/controller/rundrive/progressmirror.go): the sink
    that turns the wire events of every followed run into comments and live rows of
    its work item. One instance is shared by the follows of all runs, so the handler
    is cut at its critical sections, cache accesses and database calls: [enter] is
    the first critical section, [advance] one step of an event behind it, [Sys] the
    mirror with all the events in flight, and [Handle] the handler of one event
    from beginning to end. What is written is the list of observations [Obs]. *)
From Stdlib Require Import Ascii.
From S2P Require Import Prelude GoStr ModelEndpoint RateLimit Wire.
Open Scope Z_scope.
Open Scope k8s_scope.

(** * Bodies *)

Definition progressMirrorMinInterval : Z := 1000000000.
Definition progressMirrorThinkingInterval : Z := 250000000.
Definition progressMirrorMaxBody : Z := 8192.
Definition progressMirrorMaxTracked : Z := 4096.
Definition thinkingEventType : string := "thinking".

Inductive mirrorTier : Set := mirrorTierEphemeral | mirrorTierProgress | mirrorTierDeliverable.
#[export] Instance mirrorTier_eq_dec : EqDecision mirrorTier.
Proof. solve_decision. Defined.

Definition mirrorTierOf (ev : Event) : mirrorTier :=
  if bool_decide (Type_ ev = EventMessage) then
    match messagePayload (payload ev) with
    | Some p => if bool_decide (ms_Kind p = MessageKindDeliverable) then mirrorTierDeliverable else mirrorTierEphemeral
    | None => mirrorTierEphemeral
    end
  else if bool_decide (Type_ ev = EventTool) then mirrorTierEphemeral
  else mirrorTierProgress.

Definition isTerminalEvent (ev : Event) : bool :=
  bool_decide (Type_ ev = EventStatus) &&
  match statusPayload (payload ev) with Some p => TaskState_IsTerminal (st_State p) | None => false end.

Definition ellipsis : string := bytes [226; 128; 166]%nat.
Definition truncateRun (s : string) : string :=
  let r := runes s in
  if Z.of_nat (length r) <=? progressMirrorMaxBody then s
  else String.concat "" (take (Z.to_nat progressMirrorMaxBody) r) +:+ ellipsis.

Definition shortRunID (runID : string) : string :=
  if (String.length runID <=? 8)%nat then runID else String.substring 0 8 runID.

Definition deliverableBody (ev : Event) : string :=
  match messagePayload (payload ev) with Some p => truncateRun (ms_Text p) | None => "" end.

Definition middle_dot : string := bytes [194; 183]%nat.
Definition mirrorUsageBody (tag : string) (p : UsagePayload) : string :=
  let model := if bool_decide (us_Model p = "") then us_ResponseModel p else us_Model p in
  let total := wrap64 (us_Input p + us_Output p) in
  if bool_decide (model = "") && (total =? 0) then ""
  else
    tag +:+ "[llm:response] " +:+ (if bool_decide (model = "") then "model" else model) +:+
    (if 0 <? total
     then " " +:+ middle_dot +:+ " " +:+ sitoa total +:+ " tok (" +:+ sitoa (us_Input p) +:+ " in / " +:+ sitoa (us_Output p) +:+ " out)"
     else "").

(** An optional segment. *)
Definition segment (key value : string) : string :=
  if bool_decide (value = "") then "" else "[" +:+ key +:+ ":" +:+ value +:+ "]".

Definition mirrorToolBody (tag : string) (p : ToolPayload) : string :=
  let phase := match tl_OK p with
               | Some ok => if bool_decide (tl_Phase p = "result") then (if ok : bool then "result(ok)" else "result(err)") else tl_Phase p
               | None => tl_Phase p
               end in
  tag +:+ "[tool:" +:+ tl_Name p +:+ "/" +:+ phase +:+ "]" +:+ segment "cmd" (tl_Command p) +:+ segment "skill" (tl_Skill p) +:+
  segment "server" (tl_Server p) +:+ (if bool_decide (tl_Summary p = "") then "" else " " +:+ truncateRun (tl_Summary p)).

Definition mirrorBody (runID : string) (ev : Event) : string :=
  let tag := "[run " +:+ shortRunID runID +:+ "]" in
  if bool_decide (Type_ ev = EventMessage) then
    match messagePayload (payload ev) with
    | Some p => if bool_decide (ms_Text p = "") then "" else tag +:+ "[untrusted] " +:+ truncateRun (ms_Text p)
    | None => ""
    end
  else if bool_decide (Type_ ev = EventTool) then
    match toolPayload (payload ev) with
    | Some p => if bool_decide (tl_Name p = "") then "" else mirrorToolBody tag p
    | None => ""
    end
  else if bool_decide (Type_ ev = EventStatus) then
    match statusPayload (payload ev) with
    | Some p => if TaskState_IsTerminal (st_State p)
                then tag +:+ "[status] " +:+ st_State p +:+ (if bool_decide (st_Reason p = "") then "" else ": " +:+ truncateRun (st_Reason p))
                else ""
    | None => ""
    end
  else if bool_decide (Type_ ev = EventUsage) then
    match usagePayload (payload ev) with Some p => mirrorUsageBody tag p | None => "" end
  else "".

Definition bodyOf (ev : Event) : string :=
  match mirrorTierOf ev with
  | mirrorTierDeliverable => deliverableBody ev
  | _ => mirrorBody (cleanRunID (A2ATaskID ev)) ev
  end.

(** * State *)

Record ProgressMirror : Set := {
  lastSeq : gmap string Z;
  lastAt : gmap string Z;
  lastPubAt : gmap string Z;
  delivered : gmap string bool;
  wiCache : gmap string string;
  agentCache : gmap string string }.

Definition NewProgressMirror : ProgressMirror :=
  {| lastSeq := ∅; lastAt := ∅; lastPubAt := ∅; delivered := ∅; wiCache := ∅; agentCache := ∅ |}.

(** The maps of the guards are replaced together; the caches stay. *)
Definition reset_maps (m : ProgressMirror) : ProgressMirror :=
  {| lastSeq := ∅; lastAt := ∅; lastPubAt := ∅; delivered := ∅; wiCache := wiCache m; agentCache := agentCache m |}.
Definition set_seq (task : string) (seq : Z) (m : ProgressMirror) : ProgressMirror :=
  {| lastSeq := <[task := seq]> (lastSeq m); lastAt := lastAt m; lastPubAt := lastPubAt m; delivered := delivered m;
     wiCache := wiCache m; agentCache := agentCache m |}.
Definition set_at (run : string) (t : Z) (m : ProgressMirror) : ProgressMirror :=
  {| lastSeq := lastSeq m; lastAt := <[run := t]> (lastAt m); lastPubAt := lastPubAt m; delivered := delivered m;
     wiCache := wiCache m; agentCache := agentCache m |}.
Definition set_pub (run : string) (t : Z) (m : ProgressMirror) : ProgressMirror :=
  {| lastSeq := lastSeq m; lastAt := lastAt m; lastPubAt := <[run := t]> (lastPubAt m); delivered := delivered m;
     wiCache := wiCache m; agentCache := agentCache m |}.
Definition set_delivered (run : string) (b : bool) (m : ProgressMirror) : ProgressMirror :=
  {| lastSeq := lastSeq m; lastAt := lastAt m; lastPubAt := lastPubAt m; delivered := <[run := b]> (delivered m);
     wiCache := wiCache m; agentCache := agentCache m |}.
Definition cache_wi (task wi : string) (m : ProgressMirror) : ProgressMirror :=
  {| lastSeq := lastSeq m; lastAt := lastAt m; lastPubAt := lastPubAt m; delivered := delivered m;
     wiCache := <[task := wi]> (wiCache m); agentCache := agentCache m |}.
Definition cache_agent (wi name : string) (m : ProgressMirror) : ProgressMirror :=
  {| lastSeq := lastSeq m; lastAt := lastAt m; lastPubAt := lastPubAt m; delivered := delivered m;
     wiCache := wiCache m; agentCache := <[wi := name]> (agentCache m) |}.

Definition is_delivered (m : ProgressMirror) (run : string) : bool := default false (delivered m !! run).

(** Where an event stands behind the first critical section. *)
Inductive PC : Set :=
| AtMarker | AtLookup
| AtAgent (wi : string) | AtAssignee (wi : string)
| AtWrite (wi author : string)
| AtRollback
| AtEcho (wi author : string).

Record Flight : Set := {
  fl_ev : Event; fl_run : string; fl_body : string; fl_tier : mirrorTier; fl_reserved : bool; fl_pc : PC }.

Definition at_pc (pc : PC) (f : Flight) : Flight :=
  {| fl_ev := fl_ev f; fl_run := fl_run f; fl_body := fl_body f; fl_tier := fl_tier f; fl_reserved := fl_reserved f; fl_pc := pc |}.

(** What is seen of the mirror: an event admitted to its task's sequence, the guards
    reset, an event let past its guard, the rows written, and a summary whose write
    was answered with an error all the same. *)
Inductive Obs : Set :=
| Sequenced (ev : Event)
| Reset
| Passed (ev : Event) (guarded : option mirrorTier) (at_ : Z)
| Summary (ev : Event) (wi author run body : string)
| Row (ev : Event) (wi author run body : string)
| Live (ev : Event) (wi author run body : string) (seq : Z)
| Unacked (run : string).

Section mirror.
Context (minInterval pubInterval : Z).

(** Whether the guard lets the event pass, and the guard it went by. [since] and
    [now] are the two readings of the clock. *)
Definition guard (since now : Z) (t : mirrorTier) (ev : Event) (m : ProgressMirror) : option (ProgressMirror * option mirrorTier) :=
  let run := cleanRunID (A2ATaskID ev) in
  let early last interval := match last with Some l => time_sub since l <? interval | None => false end in
  match t with
  | mirrorTierDeliverable => Some (m, None)
  | mirrorTierEphemeral =>
      if early (lastPubAt m !! run) pubInterval then None else Some (set_pub run now m, Some mirrorTierEphemeral)
  | mirrorTierProgress =>
      if isTerminalEvent ev then Some (m, None)
      else if early (lastAt m !! run) minInterval then None else Some (set_at run now m, Some mirrorTierProgress)
  end.

(** Up to the end of the first critical section. *)
Definition enter (since now : Z) (ev : Event) (m : ProgressMirror) : ProgressMirror * option Flight * list Obs :=
  let run := cleanRunID (A2ATaskID ev) in
  let t := mirrorTierOf ev in
  let body := bodyOf ev in
  if bool_decide (body = "") then (m, None, [])
  else if Seq ev <=? default 0 (lastSeq m !! A2ATaskID ev) then (m, None, [])
  else
    let full := progressMirrorMaxTracked <=? Z.of_nat (size (lastSeq m)) in
    let m := if full then reset_maps m else m in
    let m := set_seq (A2ATaskID ev) (Seq ev) m in
    let seen := (if full then [Reset] else []) ++ [Sequenced ev] in
    match guard since now t ev m with
    | None => (m, None, seen)
    | Some (m, g) =>
        let seen := seen ++ [Passed ev g now] in
        let flight t reserved := {| fl_ev := ev; fl_run := run; fl_body := body; fl_tier := t; fl_reserved := reserved; fl_pc := AtMarker |} in
        match t with
        | mirrorTierDeliverable =>
            if is_delivered m run then (m, Some (flight mirrorTierEphemeral false), seen)
            else (set_delivered run true m, Some (flight mirrorTierDeliverable true), seen)
        | _ => (m, Some (flight t false), seen)
        end
    end.

(** The database: a read answers a string, empty for no row or NULL, or fails; a
    write is acknowledged, refused, or done and not acknowledged. *)
Inductive Write : Set := Acked | Refused | LostAck.
Record Answer : Set := { an_marker : option string; an_agent : option string; an_write : Write; an_echo : Write }.

Definition echo_of (f : Flight) (wi author : string) : Obs :=
  Live (fl_ev f) wi author (fl_run f) (fl_body f) (Seq (fl_ev f)).

(** One step of an event in flight. *)
Definition advance (a : Answer) (f : Flight) (m : ProgressMirror) : ProgressMirror * option Flight * list Obs :=
  match fl_pc f with
  | AtMarker =>
      match wiCache m !! A2ATaskID (fl_ev f) with
      | Some wi => (m, Some (at_pc (AtAgent wi) f), [])
      | None => (m, Some (at_pc AtLookup f), [])
      end
  | AtLookup =>
      match an_marker a with
      | None => (m, None, [])
      | Some wi => if bool_decide (wi = "") then (m, None, [])
                   else (cache_wi (A2ATaskID (fl_ev f)) wi m, Some (at_pc (AtAgent wi) f), [])
      end
  | AtAgent wi =>
      match agentCache m !! wi with
      | Some name => (m, Some (at_pc (AtWrite wi ("agent:" +:+ name)) f), [])
      | None => (m, Some (at_pc (AtAssignee wi) f), [])
      end
  | AtAssignee wi =>
      let name := default "" (an_agent a) in
      if bool_decide (name = "") then (m, Some (at_pc (AtWrite wi ("run/" +:+ shortRunID (fl_run f))) f), [])
      else (cache_agent wi name m, Some (at_pc (AtWrite wi ("agent:" +:+ name)) f), [])
  | AtWrite wi author =>
      match fl_tier f with
      | mirrorTierEphemeral => (m, Some (at_pc (AtEcho wi author) f), [])
      | mirrorTierDeliverable =>
          let row := Summary (fl_ev f) wi author (fl_run f) (fl_body f) in
          let failed := if fl_reserved f then Some (at_pc AtRollback f) else None in
          match an_write a with
          | Acked => (m, Some (at_pc (AtEcho wi author) f), [row])
          | Refused => (m, failed, [])
          | LostAck => (m, failed, [row; Unacked (fl_run f)])
          end
      | mirrorTierProgress =>
          let row := Row (fl_ev f) wi author (fl_run f) (fl_body f) in
          match an_write a with
          | Acked => (m, Some (at_pc (AtEcho wi author) f), [row])
          | Refused => (m, None, [])
          | LostAck => (m, None, [row])
          end
      end
  | AtRollback => (set_delivered (fl_run f) false m, None, [])
  | AtEcho wi author =>
      match an_echo a with Refused => (m, None, []) | _ => (m, None, [echo_of f wi author]) end
  end.

(** One event, with nothing of another in between. *)
Fixpoint finish (fuel : nat) (a : Answer) (f : option Flight) (m : ProgressMirror) : ProgressMirror * option Flight * list Obs :=
  match f, fuel with
  | Some f, S fuel =>
      let '(m, f, seen) := advance a f m in
      let '(m, f, seen') := finish fuel a f m in (m, f, seen ++ seen')
  | _, _ => (m, f, [])
  end.

(** Six steps at most are behind the first section. *)
Definition Handle (since now : Z) (ev : Event) (a : Answer) (m : ProgressMirror) : ProgressMirror * option Flight * list Obs :=
  let '(m, f, seen) := enter since now ev m in
  let '(m, f, seen') := finish 6 a f m in (m, f, seen ++ seen').

(** * All the follows together *)

Record Sys : Set := { mirror : ProgressMirror; flights : list Flight; seen : list Obs }.
Definition start : Sys := {| mirror := NewProgressMirror; flights := []; seen := [] |}.

(** An event arrives, an event in flight goes on, or the operator restarts. *)
Inductive Move : Set :=
| Arrive (since now : Z) (ev : Event)
| Go (i : nat) (a : Answer)
| Restart.

Definition move (s : Sys) (l : Move) : Sys :=
  match l with
  | Arrive since now ev =>
      let '(m, f, o) := enter since now ev (mirror s) in
      {| mirror := m; flights := flights s ++ option_list f; seen := seen s ++ o |}
  | Go i a =>
      match flights s !! i with
      | None => s
      | Some f =>
          let '(m, f', o) := advance a f (mirror s) in
          {| mirror := m; flights := take i (flights s) ++ option_list f' ++ drop (S i) (flights s); seen := seen s ++ o |}
      end
  | Restart => {| mirror := NewProgressMirror; flights := []; seen := seen s ++ [Reset] |}
  end.

Definition moves (ls : list Move) : Sys := foldl move start ls.
End mirror.
