(* ===== verification/MirrorProps.v ===== *)
(** The progress mirror: one summary per run, no duplicates, pacing, and what the
    handler of an event writes; with the places where a summary is lost or doubled. *)
From Stdlib Require Import Ascii.
From S2P Require Import Prelude GoStr ModelEndpoint RateLimit Wire Mirror.
Open Scope Z_scope.
Open Scope k8s_scope.

(** * Counting *)

Definition ind (b : bool) : Z := if b then 1 else 0.

Fixpoint cnt {A} (p : A -> bool) (l : list A) : Z :=
  match l with [] => 0 | x :: l => ind (p x) + cnt p l end.

Lemma cnt_app {A} (p : A -> bool) l l' : cnt p (l ++ l') = cnt p l + cnt p l'.
Proof. induction l as [|x l IH]; cbn; [done|]. rewrite IH. lia. Qed.
Lemma cnt_nonneg {A} (p : A -> bool) l : 0 <= cnt p l.
Proof. induction l as [|x l IH]; cbn; [lia|]. unfold ind. destruct (p x); lia. Qed.
Lemma cnt_cons {A} (p : A -> bool) x l : cnt p (x :: l) = ind (p x) + cnt p l.
Proof. done. Qed.
Lemma ind_le1 b : 0 <= ind b <= 1.
Proof. destruct b; cbn; lia. Qed.

Lemma cnt_at {A} (p : A -> bool) l i x :
  l !! i = Some x -> cnt p l = cnt p (take i l) + ind (p x) + cnt p (drop (S i) l).
Proof. intros H. rewrite <- (take_drop_middle l i x H) at 1. rewrite cnt_app. cbn. lia. Qed.

Definition is_reset (o : Obs) : bool := match o with Reset => true | _ => false end.
Definition is_summary (run : string) (o : Obs) : bool :=
  match o with Summary _ _ _ r _ => bool_decide (r = run) | _ => false end.
Definition is_unacked (run : string) (o : Obs) : bool := match o with Unacked r => bool_decide (r = run) | _ => false end.

(** Rows, live rows, admissions and passes of the events [q] picks. *)
Definition row_of (q : Event -> bool) (o : Obs) : bool :=
  match o with Summary ev _ _ _ _ | Row ev _ _ _ _ => q ev | _ => false end.
Definition live_of (q : Event -> bool) (o : Obs) : bool := match o with Live ev _ _ _ _ _ => q ev | _ => false end.
Definition passed_of (q : Event -> bool) (o : Obs) : bool := match o with Passed ev _ _ => q ev | _ => false end.
Definition admitted_of (q : Event -> bool) (o : Obs) : bool := match o with Sequenced ev => q ev | _ => false end.
Definition is_event (task : string) (seq : Z) (ev : Event) : bool :=
  bool_decide (A2ATaskID ev = task) && (Seq ev =? seq).

Section mirror.
Context (minInterval pubInterval : Z).
Notation enter := (enter minInterval pubInterval).
Notation move := (move minInterval pubInterval).
Notation moves := (moves minInterval pubInterval).
Notation guard := (guard minInterval pubInterval).
Notation Handle := (Handle minInterval pubInterval).

(** ** Invariants of the moves *)

(** An invariant by its steps: at an arrival, at a step of an event, at a restart. *)
Lemma moves_invariant (I : Sys -> Prop) :
  I start ->
  (forall s since now ev m f o, I s -> enter since now ev (mirror s) = (m, f, o) ->
     I {| mirror := m; flights := flights s ++ option_list f; seen := seen s ++ o |}) ->
  (forall s i a f m f' o, I s -> flights s !! i = Some f -> advance a f (mirror s) = (m, f', o) ->
     I {| mirror := m; flights := take i (flights s) ++ option_list f' ++ drop (S i) (flights s); seen := seen s ++ o |}) ->
  (forall s, I s -> I {| mirror := NewProgressMirror; flights := []; seen := seen s ++ [Reset] |}) ->
  forall ls, I (moves ls).
Proof.
  intros H0 Ha Hg Hr ls. unfold Mirror.moves. revert H0. generalize start.
  induction ls as [|l ls IH]; intros s Hs; cbn; [done|]. apply IH. destruct l as [since now ev|i a|]; cbn.
  - destruct (enter since now ev (mirror s)) as [[m f] o] eqn:He. eauto.
  - destruct (flights s !! i) as [f|] eqn:Hf; [|done]. destruct (advance a f (mirror s)) as [[m f'] o] eqn:He. eauto.
  - eauto.
Qed.

(** The first critical section, by its outcomes: after the admission, and whole. *)
Inductive passing since now ev m1 : ProgressMirror * option Flight * list Obs -> Prop :=
| pa_dropped : guard since now (mirrorTierOf ev) ev m1 = None -> passing since now ev m1 (m1, None, [])
| pa_demoted m2 g : guard since now (mirrorTierOf ev) ev m1 = Some (m2, g) -> mirrorTierOf ev = mirrorTierDeliverable ->
    is_delivered m2 (cleanRunID (A2ATaskID ev)) = true ->
    passing since now ev m1 (m2, Some {| fl_ev := ev; fl_run := cleanRunID (A2ATaskID ev); fl_body := bodyOf ev;
       fl_tier := mirrorTierEphemeral; fl_reserved := false; fl_pc := AtMarker |}, [Passed ev g now])
| pa_reserved m2 g : guard since now (mirrorTierOf ev) ev m1 = Some (m2, g) -> mirrorTierOf ev = mirrorTierDeliverable ->
    is_delivered m2 (cleanRunID (A2ATaskID ev)) = false ->
    passing since now ev m1 (set_delivered (cleanRunID (A2ATaskID ev)) true m2,
       Some {| fl_ev := ev; fl_run := cleanRunID (A2ATaskID ev); fl_body := bodyOf ev;
       fl_tier := mirrorTierDeliverable; fl_reserved := true; fl_pc := AtMarker |}, [Passed ev g now])
| pa_plain m2 g : guard since now (mirrorTierOf ev) ev m1 = Some (m2, g) -> mirrorTierOf ev ≠ mirrorTierDeliverable ->
    passing since now ev m1 (m2, Some {| fl_ev := ev; fl_run := cleanRunID (A2ATaskID ev); fl_body := bodyOf ev;
       fl_tier := mirrorTierOf ev; fl_reserved := false; fl_pc := AtMarker |}, [Passed ev g now]).

Inductive entered since now ev m : ProgressMirror * option Flight * list Obs -> Prop :=
| en_nothing : bodyOf ev = "" \/ Seq ev <= default 0 (lastSeq m !! A2ATaskID ev) -> entered since now ev m (m, None, [])
| en_admitted full m1 m' f o :
    bodyOf ev ≠ "" -> default 0 (lastSeq m !! A2ATaskID ev) < Seq ev ->
    m1 = set_seq (A2ATaskID ev) (Seq ev) (if full : bool then reset_maps m else m) ->
    passing since now ev m1 (m', f, o) ->
    entered since now ev m (m', f, (if full then [Reset] else []) ++ Sequenced ev :: o).

Lemma enter_entered since now ev m : entered since now ev m (enter since now ev m).
Proof.
  unfold Mirror.enter. case_bool_decide as Hb; [by constructor; left|].
  destruct (Seq ev <=? _) eqn:Hs; [constructor; right; lia|]. cbv zeta.
  set (full := progressMirrorMaxTracked <=? _). set (m1 := set_seq _ _ _).
  destruct (guard since now (mirrorTierOf ev) ev m1) as [[m2 g]|] eqn:Hg.
  - destruct (mirrorTierOf ev) eqn:Ht; [| |destruct (is_delivered m2 _) eqn:Hd];
      rewrite <- app_assoc; (eapply (en_admitted _ _ _ _ full m1); [done|lia|done|]).
    1,2: rewrite <- Ht; eapply pa_plain; rewrite Ht; [exact Hg|done].
    + eapply pa_demoted; rewrite ?Ht; done.
    + eapply pa_reserved; rewrite ?Ht; done.
  - eapply (en_admitted _ _ _ _ full m1); [done|lia|done|by constructor].
Qed.

Lemma guard_keeps since now t ev m m' g :
  guard since now t ev m = Some (m', g) ->
  lastSeq m' = lastSeq m /\ delivered m' = delivered m /\ wiCache m' = wiCache m /\ agentCache m' = agentCache m.
Proof. unfold Mirror.guard. intros H. split_matches; simplify_eq; done. Qed.

Lemma guard_delivered since now t ev m m' g run :
  guard since now t ev m = Some (m', g) -> is_delivered m' run = is_delivered m run.
Proof. intros (_ & H & _)%guard_keeps. unfold is_delivered. by rewrite H. Qed.

(** ** One summary *)

Definition holds_token (run : string) (f : Flight) : bool :=
  fl_reserved f && bool_decide (fl_run f = run) && match fl_pc f with AtEcho _ _ => false | _ => true end.

Definition reservations (s : Sys) : Prop :=
  (forall f, f ∈ flights s -> fl_tier f = mirrorTierDeliverable -> fl_reserved f = true) /\
  (forall f, f ∈ flights s -> fl_pc f = AtRollback -> fl_reserved f = true) /\
  forall run, cnt (is_summary run) (seen s) + cnt (holds_token run) (flights s)
              <= ind (is_delivered (mirror s) run) + cnt is_reset (seen s) + cnt (is_unacked run) (seen s).
Lemma is_delivered_set run b m run' :
  is_delivered (set_delivered run b m) run' = if bool_decide (run = run') then b else is_delivered m run'.
Proof.
  unfold is_delivered, set_delivered. cbn. case_bool_decide as H; [subst; by rewrite lookup_insert_eq|by rewrite lookup_insert_ne].
Qed.

Lemma is_delivered_wi task wi m run : is_delivered (cache_wi task wi m) run = is_delivered m run.
Proof. done. Qed.
Lemma is_delivered_agent wi name m run : is_delivered (cache_agent wi name m) run = is_delivered m run.
Proof. done. Qed.

Lemma elem_of_spliced {A} (l : list A) i x (o : option A) y :
  l !! i = Some x -> y ∈ take i l ++ option_list o ++ drop (S i) l -> y ∈ l \/ o = Some y.
Proof.
  intros Hi. rewrite !elem_of_app. intros [H|[H|H]].
  - left. by eapply elem_of_sublist, sublist_take.
  - right. destruct o; cbn in H; [by apply list_elem_of_singleton in H; subst|by apply not_elem_of_nil in H].
  - left. by eapply elem_of_sublist, sublist_drop.
Qed.

(** What a step keeps of an event, and when it moves the mark of its run. *)
Lemma advance_keeps a f m m' f' o :
  advance a f m = (m', f', o) ->
  lastSeq m' = lastSeq m /\ lastAt m' = lastAt m /\ lastPubAt m' = lastPubAt m /\
  (f' = None \/ exists pc, f' = Some (at_pc pc f) /\ (pc = AtRollback -> fl_reserved f = true)) /\
  cnt is_reset o = 0.
Proof.
  unfold advance. intros H. split_matches; simplify_eq; cbn; repeat split; eauto; right; eexists; (split; [reflexivity|done]).
Qed.

(** The books of a run's summary: each step moves a token, a row or an excuse. *)
Lemma advance_books run a f m m' f' o :
  (fl_tier f = mirrorTierDeliverable -> fl_reserved f = true) -> (fl_pc f = AtRollback -> fl_reserved f = true) ->
  advance a f m = (m', f', o) ->
  cnt (is_summary run) o + cnt (holds_token run) (option_list f') + ind (is_delivered m run) <=
  ind (is_delivered m' run) + ind (holds_token run f) + cnt (is_unacked run) o.
Proof.
  intros Hd Hr. unfold advance, holds_token.
  destruct (fl_pc f) eqn:Hpc; cbn; intros H; split_matches; simplify_eq; cbn;
    rewrite ?Hd, ?Hr, ?is_delivered_set, ?is_delivered_wi, ?is_delivered_agent by done; cbn; rewrite ?Hpc;
    destruct (fl_reserved f), (bool_decide (fl_run f = run)); cbn;
    repeat match goal with |- context [ind (is_delivered ?m ?r)] => destruct (is_delivered m r) end; cbn; try lia.
Qed.
Lemma enter_books run since now ev m m' f' o :
  enter since now ev m = (m', f', o) ->
  cnt (is_summary run) o + cnt (holds_token run) (option_list f') + ind (is_delivered m run) <=
  ind (is_delivered m' run) + cnt is_reset o + cnt (is_unacked run) o /\
  (forall f, f' = Some f -> (fl_tier f = mirrorTierDeliverable -> fl_reserved f = true) /\ fl_pc f = AtMarker).
Proof.
  intros He. pose proof (enter_entered since now ev m) as H. rewrite He in H.
  inversion H as [H0|full m1 m2 f o' Hb Hs -> Hp]; subst; [split; [cbn; pose proof (ind_le1 (is_delivered m' run)); lia|done]|].
  assert (Hm : forall r, ind (is_delivered m r) <= ind (is_delivered (set_seq (A2ATaskID ev) (Seq ev) (if full then reset_maps m else m)) r) + ind full).
  { intros r. destruct full; cbn; [|change (is_delivered (set_seq _ _ m) r) with (is_delivered m r); lia].
    pose proof (ind_le1 (is_delivered m r)). pose proof (ind_le1 (is_delivered (set_seq (A2ATaskID ev) (Seq ev) (reset_maps m)) r)). lia. }
  specialize (Hm run). rewrite !cnt_app.
  assert (cnt (is_summary run) (if full then [Reset] else []) = 0) as -> by by destruct full.
  assert (cnt (is_unacked run) (if full then [Reset] else []) = 0) as -> by by destruct full.
  assert (cnt is_reset (if full then [Reset] else []) = ind full) as -> by by destruct full.
  revert Hm. generalize (set_seq (A2ATaskID ev) (Seq ev) (if full then reset_maps m else m)), Hp. clear. intros m1 Hp Hm.
  inversion Hp as [Hg|m2 g Hg Ht Hd|m2 g Hg Ht Hd|m2 g Hg Ht]; subst; cbn;
    (try (apply (guard_delivered _ _ _ _ _ _ _ run) in Hg; rewrite <- Hg in Hm)).
  - split; [lia|done].
  - split; [lia|intros f [= <-]; done].
  - unfold holds_token. cbn. rewrite is_delivered_set.
    split; [|intros f [= <-]; done]. case_bool_decide as Hr; cbn; [subst|lia].
    rewrite Hd in Hm. cbn in Hm. lia.
  - split; [lia|]. intros f [= <-]. done.
Qed.

Lemma reservations_hold ls : reservations (moves ls).
Proof.
  apply moves_invariant.
  - split; [|split]; [intros f []%not_elem_of_nil..|]. intros run. pose proof (ind_le1 (is_delivered (mirror start) run)). cbn in *. lia.
  - intros s since now ev m f o (H1 & H2 & H3) He.
    assert (Hin : forall g, g ∈ flights s ++ option_list f -> g ∈ flights s \/ f = Some g).
    { intros g [?|Hg]%elem_of_app; [by left|right]. destruct f; cbn in Hg; [by apply list_elem_of_singleton in Hg; subst|by apply not_elem_of_nil in Hg]. }
    split; [|split]; cbn.
    + intros g [Hg|Hg]%Hin; [auto|]. by apply (enter_books "" _ _ _ _ _ _ _ He) in Hg as [? _].
    + intros g [Hg|Hg]%Hin Hpc; [auto|]. apply (enter_books "" _ _ _ _ _ _ _ He) in Hg as [_ Hg]. congruence.
    + intros run. destruct (enter_books run _ _ _ _ _ _ _ He) as [Hb _]. specialize (H3 run). rewrite !cnt_app. lia.
  - intros s i a f m f' o (H1 & H2 & H3) Hi He. destruct (advance_keeps _ _ _ _ _ _ He) as (_ & _ & _ & Hf' & Hr).
    assert (Hf : f ∈ flights s) by by eapply list_elem_of_lookup_2.
    split; [|split]; cbn.
    + intros g [Hg|Hg]%(elem_of_spliced _ _ _ _ _ Hi); [auto|]. destruct Hf' as [->|(pc & -> & _)]; [done|]. simplify_eq. cbn. auto.
    + intros g [Hg|Hg]%(elem_of_spliced _ _ _ _ _ Hi); [auto|]. destruct Hf' as [->|(pc & -> & Hpc)]; [done|]. simplify_eq. cbn. auto.
    + intros run. pose proof (advance_books run _ _ _ _ _ _ (H1 _ Hf) (H2 _ Hf) He) as Hb. specialize (H3 run).
      rewrite !cnt_app, Hr. rewrite (cnt_at _ _ _ _ Hi) in H3. lia.
  - intros s (_ & _ & H3). split; [|split]; [intros f []%not_elem_of_nil..|]. intros run. cbn. rewrite !cnt_app. cbn.
    specialize (H3 run). pose proof (cnt_nonneg (holds_token run) (flights s)). pose proof (ind_le1 (is_delivered (mirror s) run)).
    pose proof (ind_le1 (is_delivered NewProgressMirror run)). lia.
Qed.
(** ** Each event once *)

Definition before_write (f : Flight) : bool := match fl_pc f with AtRollback | AtEcho _ _ => false | _ => true end.
Definition unwritten (q : Event -> bool) (f : Flight) : bool := q (fl_ev f) && before_write f.
Definition in_flight (q : Event -> bool) (f : Flight) : bool := q (fl_ev f).

Lemma enter_counts q since now ev m m' f' o :
  enter since now ev m = (m', f', o) ->
  cnt (row_of q) o = 0 /\ cnt (live_of q) o = 0 /\
  cnt (passed_of q) o <= cnt (admitted_of q) o /\
  cnt (in_flight q) (option_list f') <= cnt (passed_of q) o /\
  cnt (unwritten q) (option_list f') <= cnt (passed_of q) o.
Proof.
  intros He. pose proof (enter_entered since now ev m) as H. rewrite He in H.
  inversion H as [H0|full m1 m2 f o' Hb Hs Hm Hp]; subst; [cbn; lia|]. rewrite !cnt_app.
  inversion Hp; subst; destruct full; cbn; unfold unwritten, in_flight; cbn; rewrite ?andb_true_r;
    pose proof (ind_le1 (q ev)); lia.
Qed.

Lemma advance_counts q a f m m' f' o :
  advance a f m = (m', f', o) ->
  cnt (row_of q) o + cnt (unwritten q) (option_list f') <= ind (unwritten q f) /\
  cnt (live_of q) o + cnt (in_flight q) (option_list f') <= ind (in_flight q f) /\
  cnt (passed_of q) o = 0 /\ cnt (admitted_of q) o = 0.
Proof.
  unfold advance, unwritten, in_flight, before_write. destruct (fl_pc f) eqn:Hpc; intros H; split_matches; simplify_eq; cbn;
    rewrite ?Hpc; destruct (q (fl_ev f)); cbn; lia.
Qed.

Definition books (q : Event -> bool) (s : Sys) : Prop :=
  cnt (row_of q) (seen s) + cnt (unwritten q) (flights s) <= cnt (passed_of q) (seen s) /\
  cnt (live_of q) (seen s) + cnt (in_flight q) (flights s) <= cnt (passed_of q) (seen s) /\
  cnt (passed_of q) (seen s) <= cnt (admitted_of q) (seen s).

Lemma books_hold q ls : books q (moves ls).
Proof.
  apply moves_invariant; unfold books; [cbn; lia|..].
  - intros s since now ev m f o H He. apply (enter_counts q) in He. cbn. rewrite !cnt_app. lia.
  - intros s i a f m f' o H Hi He. apply (advance_counts q) in He. cbn. rewrite !cnt_app.
    rewrite !(cnt_at _ _ _ _ Hi) in H. lia.
  - intros s H. cbn. rewrite !cnt_app. cbn. pose proof (cnt_nonneg (unwritten q) (flights s)).
    pose proof (cnt_nonneg (in_flight q) (flights s)). lia.
Qed.

Definition reached (m : ProgressMirror) (task : string) (seq : Z) : bool := seq <=? default 0 (lastSeq m !! task).

Lemma enter_admits task seq since now ev m m' f' o :
  0 < seq -> enter since now ev m = (m', f', o) ->
  cnt (admitted_of (is_event task seq)) o + ind (reached m task seq) <= cnt is_reset o + ind (reached m' task seq).
Proof.
  intros Hpos He. pose proof (enter_entered since now ev m) as H. rewrite He in H.
  inversion H as [H0|full m1 m2 f o' Hb Hs Hm Hp]; subst; [cbn; lia|]. rewrite !cnt_app.
  assert (reached m' task seq = reached (set_seq (A2ATaskID ev) (Seq ev) (if full then reset_maps m else m)) task seq /\
               cnt (admitted_of (is_event task seq)) o' = 0 /\ cnt is_reset o' = 0) as (-> & Ho & Ho').
  { unfold reached. inversion Hp as [Hg|m2 g Hg|m2 g Hg|m2 g Hg]; subst; cbn; [done|..]; apply guard_keeps in Hg as (-> & _); done. }
  cbn. rewrite Ho, Ho'. unfold reached, is_event. cbn. destruct (decide (A2ATaskID ev = task)) as [Heq|Hne].
  - subst. rewrite bool_decide_true by done. cbn. rewrite lookup_insert_eq. cbn. destruct full; cbn;
      repeat match goal with |- context [ind (?x <=? ?y)] => destruct (Z.leb_spec x y) | |- context [ind (?x =? ?y)] => destruct (Z.eqb_spec x y) end;
      cbn; lia.
  - rewrite bool_decide_false by done. cbn. rewrite lookup_insert_ne by done.
    destruct full; cbn; [|lia]. rewrite lookup_empty. cbn. pose proof (ind_le1 (seq <=? default 0 (lastSeq m !! task))).
    destruct (Z.leb_spec seq 0); cbn; lia.
Qed.

Lemma admitted_once task seq ls :
  0 < seq -> cnt (admitted_of (is_event task seq)) (seen (moves ls)) <= cnt is_reset (seen (moves ls)) + ind (reached (mirror (moves ls)) task seq).
Proof.
  intros Hpos. apply moves_invariant; [unfold reached; cbn; destruct (seq <=? _); cbn; lia|..].
  - intros s since now ev m f o H He. apply (enter_admits task seq) in He; [|done]. cbn. rewrite !cnt_app. lia.
  - intros s i a f m f' o H Hi He. pose proof (advance_counts (is_event task seq) _ _ _ _ _ _ He) as (_ & _ & _ & Ha).
    destruct (advance_keeps _ _ _ _ _ _ He) as (Hl & _ & _ & _ & Hr). cbn. unfold reached in *. rewrite Hl, !cnt_app. lia.
  - intros s H. cbn. rewrite !cnt_app. cbn. pose proof (ind_le1 (reached (mirror s) task seq)).
    pose proof (ind_le1 (reached NewProgressMirror task seq)). lia.
Qed.
(** ** Pacing *)

Definition last_of (g : mirrorTier) (m : ProgressMirror) : gmap string Z :=
  match g with mirrorTierEphemeral => lastPubAt m | mirrorTierProgress => lastAt m | mirrorTierDeliverable => ∅ end.
Definition interval_of (g : mirrorTier) : Z :=
  match g with mirrorTierEphemeral => pubInterval | mirrorTierProgress => minInterval | mirrorTierDeliverable => 0 end.
Definition is_pass (run : string) (g : mirrorTier) (o : Obs) : bool :=
  match o with Passed ev (Some g') _ => bool_decide (g' = g) && bool_decide (cleanRunID (A2ATaskID ev) = run) | _ => false end.

(** The clock never goes back over the arrivals, which lie in [t, t']. *)
Fixpoint clocked (t : Z) (ls : list Move) (t' : Z) : Prop :=
  match ls with
  | [] => t <= t'
  | Arrive since now _ :: ls => t <= since /\ since <= now /\ clocked now ls t'
  | _ :: ls => clocked t ls t'
  end.

(** A guard that lets an event pass has been quiet for its interval. *)
Lemma guard_paces since now t ev m m' g run :
  guard since now t ev m = Some (m', Some g) ->
  g ≠ mirrorTierDeliverable /\
  last_of g m' !! cleanRunID (A2ATaskID ev) = Some now /\
  (forall l, last_of g m !! cleanRunID (A2ATaskID ev) = Some l -> interval_of g <= time_sub since l) /\
  (forall g', g' ≠ g \/ run ≠ cleanRunID (A2ATaskID ev) -> last_of g' m' !! run = last_of g' m !! run).
Proof.
  unfold Mirror.guard. intros H. split_matches; simplify_eq; cbn; rewrite ?lookup_insert_eq; repeat split; try done;
    try (intros l Hl; simplify_eq; try (rewrite Hl in *; simplify_eq); lia).
  all: intros g' Hg; destruct g'; cbn; try done; rewrite lookup_insert_ne; [done|]; destruct Hg; congruence.
Qed.

Lemma guard_quiet since now t ev m m' : guard since now t ev m = Some (m', None) -> m' = m.
Proof. unfold Mirror.guard. intros H. split_matches; simplify_eq; done. Qed.

Definition paced (run : string) (g : mirrorTier) (t0 t : Z) (s : Sys) : Prop :=
  let k := cnt (is_pass run g) (seen s) - cnt is_reset (seen s) in
  match last_of g (mirror s) !! run with
  | Some l => l <= t /\ (k - 1) * interval_of g <= l - t0
  | None => k * interval_of g <= t - t0
  end.

Lemma time_sub_ge t u i : 0 <= i -> i <= time_sub t u -> i <= t - u.
Proof. unfold time_sub. lia. Qed.

Lemma paced_later run g t0 t t' s : t <= t' -> paced run g t0 t s -> paced run g t0 t' s.
Proof. unfold paced. destruct (last_of _ _ !! _); lia. Qed.

(** A reset forgets the last time, and gives one more event. *)
Lemma paced_reset run g t0 t s m fs :
  0 <= interval_of g -> last_of g m !! run = None -> paced run g t0 t s ->
  paced run g t0 t {| mirror := m; flights := fs; seen := seen s ++ [Reset] |}.
Proof.
  unfold paced. cbn. intros Hi -> H. rewrite !cnt_app. cbn. destruct (last_of g (mirror s) !! run); nia.
Qed.

Lemma paced_same run g t0 t s m fs o :
  last_of g m !! run = last_of g (mirror s) !! run -> cnt (is_pass run g) o = 0 -> cnt is_reset o = 0 ->
  paced run g t0 t s -> paced run g t0 t {| mirror := m; flights := fs; seen := seen s ++ o |}.
Proof. unfold paced. cbn. intros -> Hp Hr H. rewrite !cnt_app, Hp, Hr, !Z.add_0_r. done. Qed.

Lemma paced_pass run g t0 since now ev m m1 s fs g' :
  0 <= interval_of g -> since <= now ->
  guard since now (mirrorTierOf ev) ev m = Some (m1, g') -> last_of g (mirror s) !! run = last_of g m !! run ->
  paced run g t0 since s -> paced run g t0 now {| mirror := m1; flights := fs; seen := seen s ++ [Passed ev g' now] |}.
Proof.
  intros Hi Hle Hg Hl Hp. destruct g' as [g'|].
  - destruct (guard_paces _ _ _ _ _ _ _ run Hg) as (_ & Hnow & Hquiet & Hother).
    destruct (decide (g' = g /\ run = cleanRunID (A2ATaskID ev))) as [[-> ->]|Hne].
    + unfold paced in *. cbn. rewrite Hnow, !cnt_app, Hl in *. cbn. rewrite !bool_decide_true by done. cbn.
      destruct (last_of g m !! _) as [l|]; [|nia]. specialize (Hquiet l eq_refl). apply time_sub_ge in Hquiet; [|done]. nia.
    + apply (paced_later _ _ _ since); [done|]. apply paced_same; cbn; try done.
      * rewrite Hl. apply Hother. destruct (decide (g = g')); [right|by left]. intros ->. by apply Hne.
      * destruct (bool_decide_reflect (g' = g)), (bool_decide_reflect (cleanRunID (A2ATaskID ev) = run)); cbn; try done. exfalso. by apply Hne.
  - apply guard_quiet in Hg as ->. apply (paced_later _ _ _ since); [done|]. by apply paced_same.
Qed.
Lemma enter_paced run g t0 t since now ev s m f o fs :
  0 <= interval_of g -> t <= since -> since <= now -> enter since now ev (mirror s) = (m, f, o) ->
  paced run g t0 t s -> paced run g t0 now {| mirror := m; flights := fs; seen := seen s ++ o |}.
Proof.
  intros Hi Ht Hle He Hp. pose proof (enter_entered since now ev (mirror s)) as H. rewrite He in H.
  apply (paced_later _ _ _ _ since) in Hp; [|done].
  inversion H as [H0|full m1 m2 f' o' Hb Hs Hm Hpa]; subst; [apply (paced_later _ _ _ since), paced_same; done|].
  set (m1 := set_seq _ _ _) in *. set (o1 := (if full then [Reset] else []) ++ [Sequenced ev]).
  set (s1 := {| mirror := m1; flights := fs; seen := seen s ++ o1 |}).
  assert (H1 : paced run g t0 since s1).
  { subst s1 o1 m1. destruct full; cbn [app].
    - apply (paced_reset _ _ _ _ _ (set_seq (A2ATaskID ev) (Seq ev) (reset_maps (mirror s))) fs) in Hp; [|done|by destruct g].
      apply (paced_same _ _ _ _ _ (set_seq (A2ATaskID ev) (Seq ev) (reset_maps (mirror s))) fs [Sequenced ev]) in Hp; [|done..].
      cbn in Hp. by rewrite <- app_assoc in Hp.
    - apply paced_same; [by destruct g|done|done|done]. }
  assert (Heq : (if full then [Reset] else []) ++ Sequenced ev :: o' = o1 ++ o').
  { subst o1. by rewrite <- app_assoc. }
  rewrite Heq, app_assoc.
  assert (Hdel : forall m2 b, paced run g t0 now {| mirror := m2; flights := fs; seen := (seen s ++ o1) ++ o' |} ->
    paced run g t0 now {| mirror := set_delivered (cleanRunID (A2ATaskID ev)) b m2; flights := fs; seen := (seen s ++ o1) ++ o' |}).
  { intros m2 b. unfold paced. cbn. by destruct g. }
  inversion Hpa as [Hg|m2 g' Hg|m2 g' Hg|m2 g' Hg]; subst.
  - rewrite app_nil_r. by apply (paced_later _ _ _ since).
  - exact (paced_pass _ _ _ since _ _ m1 _ s1 _ _ Hi Hle Hg eq_refl H1).
  - apply Hdel. exact (paced_pass _ _ _ since _ _ m1 _ s1 _ _ Hi Hle Hg eq_refl H1).
  - exact (paced_pass _ _ _ since _ _ m1 _ s1 _ _ Hi Hle Hg eq_refl H1).
Qed.

Lemma passes_paced run g t0 t' ls :
  0 <= interval_of g -> clocked t0 ls t' -> 
  (cnt (is_pass run g) (seen (moves ls)) - cnt is_reset (seen (moves ls)) - 1) * interval_of g <= t' - t0.
Proof.
  intros Hi Hc. assert (Hp : exists t, t <= t' /\ paced run g t0 t (moves ls)).
  { unfold Mirror.moves. assert (H0 : paced run g t0 t0 start) by (unfold paced; destruct g; cbn; rewrite ?lookup_empty; lia).
    assert (Hgen : forall t s, paced run g t0 t s -> clocked t ls t' -> exists t1, t1 <= t' /\ paced run g t0 t1 (foldl move s ls)); [|by eapply Hgen].
    clear H0 Hc. induction ls as [|l ls IH]; intros t s Hp Hc; cbn in *; [eauto|].
    destruct l as [since now ev|i a|]; cbn.
    - destruct Hc as (H1 & H2 & Hc). destruct (enter since now ev (mirror s)) as [[m f] o] eqn:He.
      apply (IH now); [|done]. by eapply (enter_paced _ _ _ t since _ ev).
    - apply (IH t); [|done]. destruct (flights s !! i) as [f|]; [|done]. destruct (advance a f (mirror s)) as [[m f'] o] eqn:He.
      pose proof (advance_keeps _ _ _ _ _ _ He) as (_ & Ha & Hb & _ & Hr). apply paced_same; [destruct g; cbn; congruence| |done|done].
      assert (Hn : forall x, x ∈ o -> is_pass run g x = false); [|clear -Hn; induction o as [|x o IHo]; cbn; [done|]; rewrite (Hn x) by set_solver; rewrite IHo; [done|set_solver]].
      clear -He. unfold advance in He. intros x Hx. split_matches; simplify_eq; set_solver.
    - apply (IH t); [|done]. apply paced_reset; [done|by destruct g|done]. }
  destruct Hp as (t & Ht & Hp). unfold paced in Hp. destruct (last_of g _ !! run); nia.
Qed.
(** ** Content *)

(** The rows of an event: of its tier, with its body, to a work item [P] allows. *)
Definition faithful (P : string -> string -> Prop) (o : Obs) : Prop :=
  match o with
  | Summary ev wi author run body =>
      mirrorTierOf ev = mirrorTierDeliverable /\ run = cleanRunID (A2ATaskID ev) /\ body = deliverableBody ev /\ body ≠ "" /\
      P (A2ATaskID ev) wi
  | Row ev wi author run body =>
      mirrorTierOf ev = mirrorTierProgress /\ run = cleanRunID (A2ATaskID ev) /\ body = mirrorBody run ev /\ body ≠ "" /\
      P (A2ATaskID ev) wi
  | Live ev wi author run body seq =>
      run = cleanRunID (A2ATaskID ev) /\ body = bodyOf ev /\ body ≠ "" /\ seq = Seq ev /\ P (A2ATaskID ev) wi
  | Passed ev g _ =>
      g = match mirrorTierOf ev with
          | mirrorTierDeliverable => None
          | mirrorTierProgress => if isTerminalEvent ev then None else Some mirrorTierProgress
          | mirrorTierEphemeral => Some mirrorTierEphemeral
          end
  | _ => True
  end.

Definition on_course (P : string -> string -> Prop) (f : Flight) : Prop :=
  fl_run f = cleanRunID (A2ATaskID (fl_ev f)) /\ fl_body f = bodyOf (fl_ev f) /\ fl_body f ≠ "" /\
  (fl_tier f = mirrorTierOf (fl_ev f) \/ mirrorTierOf (fl_ev f) = mirrorTierDeliverable /\ fl_tier f = mirrorTierEphemeral) /\
  match fl_pc f with
  | AtAgent wi | AtAssignee wi | AtWrite wi _ | AtEcho wi _ => P (A2ATaskID (fl_ev f)) wi
  | _ => True
  end.

(** The marker reads of the moves answer a work item [P] allows, or none. *)
Definition honest (P : string -> string -> Prop) (s : Sys) (l : Move) : Prop :=
  match l with
  | Go i a => forall f wi, flights s !! i = Some f -> fl_pc f = AtLookup -> an_marker a = Some wi -> wi ≠ "" -> P (A2ATaskID (fl_ev f)) wi
  | _ => True
  end.
Fixpoint honest_from (P : string -> string -> Prop) (s : Sys) (ls : list Move) : Prop :=
  match ls with [] => True | l :: ls => honest P s l /\ honest_from P (move s l) ls end.

Definition truthful (P : string -> string -> Prop) (s : Sys) : Prop :=
  (forall task wi, wiCache (mirror s) !! task = Some wi -> P task wi) /\
  Forall (on_course P) (flights s) /\ Forall (faithful P) (seen s).

Lemma enter_truthful P since now ev m m' f o :
  enter since now ev m = (m', f, o) ->
  wiCache m' = wiCache m /\ Forall (on_course P) (option_list f) /\ Forall (faithful P) o.
Proof.
  intros He. pose proof (enter_entered since now ev m) as H. rewrite He in H.
  inversion H as [H0|full m1 m2 f' o' Hb Hs Hm Hp]; subst; [done|].
  assert (Hg : forall m1 m2 g, guard since now (mirrorTierOf ev) ev m1 = Some (m2, g) -> faithful P (Passed ev g now)).
  { clear. intros m1 m2 g. unfold Mirror.guard. cbn. intros H. split_matches; simplify_eq; done. }
  assert (Hw : wiCache (if full then reset_maps m else m) = wiCache m) by by destruct full.
  assert (H1 : forall x, Forall (faithful P) x -> Forall (faithful P) ((if full then [Reset] else []) ++ Sequenced ev :: x)).
  { intros x Hx. destruct full; repeat constructor; done. }
  inversion Hp as [Hq|m2 g Hq|m2 g Hq|m2 g Hq]; subst; try (pose proof (Hg _ _ _ Hq); apply guard_keeps in Hq as (_ & _ & Hq & _)); cbn;
    (split; [cbn in *; congruence|]); (split; [first [apply Forall_nil_2|apply Forall_singleton; unfold on_course; cbn; split_and!; auto]|apply H1; repeat constructor; done]).
Qed.

Lemma advance_truthful P a f m m' f' o :
  (forall task wi, wiCache m !! task = Some wi -> P task wi) -> on_course P f ->
  (fl_pc f = AtLookup -> forall wi, an_marker a = Some wi -> wi ≠ "" -> P (A2ATaskID (fl_ev f)) wi) ->
  advance a f m = (m', f', o) ->
  (forall task wi, wiCache m' !! task = Some wi -> P task wi) /\ Forall (on_course P) (option_list f') /\ Forall (faithful P) o.
Proof.
  intros Hc (H1 & H2 & H3 & H4 & H5) Ha.
  assert (HD : fl_tier f = mirrorTierDeliverable -> mirrorTierOf (fl_ev f) = mirrorTierDeliverable /\ fl_body f = deliverableBody (fl_ev f)).
  { intros Ht. rewrite H2. unfold bodyOf. destruct H4 as [H4|[? ?]]; [|congruence]. rewrite <- H4, Ht. done. }
  assert (HP : fl_tier f = mirrorTierProgress -> mirrorTierOf (fl_ev f) = mirrorTierProgress /\ fl_body f = mirrorBody (fl_run f) (fl_ev f)).
  { intros Ht. rewrite H2, H1. unfold bodyOf. destruct H4 as [H4|[? ?]]; [|congruence]. rewrite <- H4, Ht. done. }
  unfold advance. destruct (fl_pc f) eqn:Hpc; intros H; split_matches; simplify_eq;
    (split; [try done|split; [first [apply Forall_nil_2|apply Forall_singleton; unfold on_course; cbn; split_and!; eauto]|
      repeat (first [apply Forall_nil_2|apply Forall_cons_2]); cbn; try done; split_and!]]); eauto.
  all: try (repeat match goal with E : fl_tier ?g = _ |- _ => rewrite E end; first [exact H4|by destruct (HD eq_refl)|by destruct (HP eq_refl)]).
  intros task wi. cbn. rewrite lookup_insert_Some. intros [[<- <-]|[_ ?]]; eauto.
Qed.

Lemma moves_truthful P ls : honest_from P start ls -> truthful P (moves ls).
Proof.
  unfold Mirror.moves. assert (H0 : truthful P start) by (split; [done|split; constructor]). revert H0. generalize start.
  induction ls as [|l ls IH]; intros s Hs; cbn; [done|]. intros [Hl Hls]. apply IH; [|done]. destruct Hs as (Hc & Hf & Ho).
  destruct l as [since now ev|i a|]; cbn.
  - destruct (enter since now ev (mirror s)) as [[m f] o] eqn:He. apply (enter_truthful P) in He as (Hw & H1 & H2).
    split; [cbn; by rewrite Hw|]. split; by apply Forall_app.
  - destruct (flights s !! i) as [f|] eqn:Hi; [|done]. destruct (advance a f (mirror s)) as [[m f'] o] eqn:He.
    apply (advance_truthful P) in He as (Hw & H1 & H2);
      [|done|by eapply Forall_lookup_1|intros Hpc wi Ha Hne; by eapply Hl].
    split; [done|]. split; cbn; [|by apply Forall_app]. apply Forall_app; split; [by apply Forall_take|].
    apply Forall_app; split; [done|by apply Forall_drop].
  - split; [done|]. split; cbn; [constructor|]. apply Forall_app; split; [done|repeat constructor].
Qed.

Lemma honest_anything s ls : honest_from (fun _ _ => True) s ls.
Proof. revert s. induction ls as [|l ls IH]; intros s; cbn; [done|]. split; [by destruct l|auto]. Qed.
(** The events whose rows and live rows a guard paces. *)
Definition chatty (run : string) (ev : Event) : bool :=
  bool_decide (cleanRunID (A2ATaskID ev) = run) && bool_decide (mirrorTierOf ev = mirrorTierProgress) && negb (isTerminalEvent ev).
Definition thinking (run : string) (ev : Event) : bool :=
  bool_decide (cleanRunID (A2ATaskID ev) = run) && bool_decide (mirrorTierOf ev = mirrorTierEphemeral).

Lemma cnt_mono {A} (p q : A -> bool) l : Forall (fun x => p x = true -> q x = true) l -> cnt p l <= cnt q l.
Proof.
  induction 1 as [|x l Hx _ IH]; cbn; [lia|]. pose proof (ind_le1 (q x)). destruct (p x); cbn; [rewrite Hx by done; cbn|]; lia.
Qed.

Lemma guarded_passes run ls :
  let o := seen (moves ls) in
  cnt (passed_of (chatty run)) o <= cnt (is_pass run mirrorTierProgress) o /\
  cnt (passed_of (thinking run)) o <= cnt (is_pass run mirrorTierEphemeral) o.
Proof.
  cbv zeta. destruct (moves_truthful (fun _ _ => True) ls (honest_anything _ _)) as (_ & _ & H).
  split; apply cnt_mono; refine (Forall_impl _ _ _ H _); intros []; cbn; try done;
    unfold chatty, thinking; intros ->; intros Hc; apply andb_prop in Hc as [Hc1 Hc2]; try apply andb_prop in Hc1 as [Hc1 Hc3];
    apply bool_decide_eq_true in Hc1; rewrite ?(bool_decide_eq_true_2 _ Hc1).
  - apply bool_decide_eq_true in Hc3. rewrite Hc3. apply negb_true_iff in Hc2. rewrite Hc2. cbn. by rewrite bool_decide_true.
  - apply bool_decide_eq_true in Hc2. rewrite Hc2. cbn. by rewrite bool_decide_true.
Qed.
End mirror.

(** One summary per run. However the events of all the follows interleave,
    arrive out of order or again, and whatever the database answers, the mirror
    writes at most one summary for a run: every further one is paid for by a reset
    of the guards (a restart, or the 4096 tracked tasks) or by a write of this run
    that was done and answered with an error. *)
Theorem mirror_one_summary minInterval pubInterval ls run :
  let o := seen (moves minInterval pubInterval ls) in
  cnt (is_summary run) o <= 1 + cnt is_reset o + cnt (is_unacked run) o.
Proof.
  cbv zeta. destruct (reservations_hold minInterval pubInterval ls) as (_ & _ & H). specialize (H run).
  pose proof (cnt_nonneg (holds_token run) (flights (moves minInterval pubInterval ls))).
  pose proof (ind_le1 (is_delivered (mirror (moves minInterval pubInterval ls)) run)). lia.
Qed.

(** Every row is an event's, once. If the dispatch markers answer for a task
    only its own work items, then every summary is the text of a deliverable message
    of the run, every other durable row the body of a usage or terminal status
    event, and every live row the body of its event, each to a work item of the
    event's task; no thought and no tool call becomes a durable row; and of an event,
    told by its task and sequence number, there is one durable row and one live row
    at most, plus one for each reset of the guards. *)
Theorem mirror_rows_faithful minInterval pubInterval (P : string -> string -> Prop) ls :
  honest_from minInterval pubInterval P start ls ->
  let o := seen (moves minInterval pubInterval ls) in
  Forall (faithful P) o /\
  forall task seq, 0 < seq ->
    cnt (row_of (is_event task seq)) o <= 1 + cnt is_reset o /\ cnt (live_of (is_event task seq)) o <= 1 + cnt is_reset o.
Proof.
  intros Hh. cbv zeta. split; [by apply moves_truthful|]. intros task seq Hpos.
  destruct (books_hold minInterval pubInterval (is_event task seq) ls) as (H1 & H2 & H3).
  pose proof (admitted_once minInterval pubInterval task seq ls Hpos).
  pose proof (ind_le1 (reached (mirror (moves minInterval pubInterval ls)) task seq)).
  pose proof (cnt_nonneg (unwritten (is_event task seq)) (flights (moves minInterval pubInterval ls))).
  pose proof (cnt_nonneg (in_flight (is_event task seq)) (flights (moves minInterval pubInterval ls))). lia.
Qed.

(** The mirror is paced. Over a clock that does not go back, from t to t', the
    durable rows of a run that are no summary and no final status number at most one
    more than the minimal intervals in t' - t, and so do the live rows of its
    thoughts and tool calls by their shorter interval, each plus one for every reset
    of the guards. *)
Theorem mirror_paces minInterval pubInterval ls t t' run :
  0 <= minInterval -> 0 <= pubInterval -> clocked t ls t' ->
  let o := seen (moves minInterval pubInterval ls) in
  (cnt (row_of (chatty run)) o - 1 - cnt is_reset o) * minInterval <= t' - t /\
  (cnt (live_of (thinking run)) o - 1 - cnt is_reset o) * pubInterval <= t' - t.
Proof.
  intros Hm Hp Hc. cbv zeta. destruct (guarded_passes minInterval pubInterval run ls) as [G1 G2].
  pose proof (passes_paced minInterval pubInterval run mirrorTierProgress t t' ls Hm Hc) as P1.
  pose proof (passes_paced minInterval pubInterval run mirrorTierEphemeral t t' ls Hp Hc) as P2.
  destruct (books_hold minInterval pubInterval (chatty run) ls) as (B1 & _ & _).
  destruct (books_hold minInterval pubInterval (thinking run) ls) as (_ & B2 & _).
  pose proof (cnt_nonneg (unwritten (chatty run)) (flights (moves minInterval pubInterval ls))).
  pose proof (cnt_nonneg (in_flight (thinking run)) (flights (moves minInterval pubInterval ls))).
  cbn [interval_of] in *. cbv zeta in *. split; nia.
Qed.

(** * One event by itself *)

Definition marker_of (a : Answer) (task : string) (m : ProgressMirror) : option string :=
  match wiCache m !! task with
  | Some wi => Some wi
  | None => match an_marker a with Some wi => if bool_decide (wi = "") then None else Some wi | None => None end
  end.
Definition author_of (a : Answer) (wi run : string) (m : ProgressMirror) : string :=
  match agentCache m !! wi with
  | Some name => "agent:" +:+ name
  | None => if bool_decide (default "" (an_agent a) = "") then "run/" +:+ shortRunID run else "agent:" +:+ default "" (an_agent a)
  end.

(** What the last two steps write, to a known work item and author. *)
Definition put (a : Answer) (f : Flight) (wi author : string) : list Obs :=
  let echo := match an_echo a with Refused => [] | _ => [echo_of f wi author] end in
  match fl_tier f, an_write a with
  | mirrorTierEphemeral, _ => echo
  | _, Refused => []
  | mirrorTierDeliverable, Acked => Summary (fl_ev f) wi author (fl_run f) (fl_body f) :: echo
  | mirrorTierDeliverable, LostAck => [Summary (fl_ev f) wi author (fl_run f) (fl_body f); Unacked (fl_run f)]
  | mirrorTierProgress, Acked => Row (fl_ev f) wi author (fl_run f) (fl_body f) :: echo
  | mirrorTierProgress, LostAck => [Row (fl_ev f) wi author (fl_run f) (fl_body f)]
  end.
Definition unmark (a : Answer) (f : Flight) (m : ProgressMirror) : ProgressMirror :=
  if fl_reserved f && match an_write a with Acked => false | _ => true end then set_delivered (fl_run f) false m else m.

Lemma finish_none n a m : finish n a None m = (m, None, []).
Proof. by destruct n. Qed.

Lemma finish_step n a f m :
  finish (S n) a (Some f) m = (let '(m, f, o) := advance a f m in let '(m, f, o') := finish n a f m in (m, f, o ++ o')).
Proof. done. Qed.

Lemma at_pc_twice pc pc' f : at_pc pc (at_pc pc' f) = at_pc pc f.
Proof. done. Qed.

Lemma finish_write n a f wi author m :
  fl_reserved f = bool_decide (fl_tier f = mirrorTierDeliverable) ->
  finish (S (S n)) a (Some (at_pc (AtWrite wi author) f)) m = (unmark a f m, None, put a f wi author).
Proof.
  intros Hr. unfold unmark, put. rewrite Hr, finish_step. unfold advance. cbn [fl_pc at_pc fl_tier fl_reserved fl_ev fl_run fl_body].
  rewrite Hr. destruct (fl_tier f), (an_write a);
    change (bool_decide (mirrorTierEphemeral = mirrorTierDeliverable)) with false;
    change (bool_decide (mirrorTierProgress = mirrorTierDeliverable)) with false;
    change (bool_decide (mirrorTierDeliverable = mirrorTierDeliverable)) with true; cbv beta iota zeta;
    rewrite ?finish_none, ?finish_step; unfold advance; cbn; destruct (an_echo a); rewrite ?finish_none; done.
Qed.

Lemma finish_agent n a f wi m :
  fl_reserved f = bool_decide (fl_tier f = mirrorTierDeliverable) ->
  exists m1, finish (S (S (S (S n)))) a (Some (at_pc (AtAgent wi) f)) m = (unmark a f m1, None, put a f wi (author_of a wi (fl_run f) m)) /\
    lastSeq m1 = lastSeq m /\ delivered m1 = delivered m.
Proof.
  intros Hr. unfold author_of. rewrite finish_step. unfold advance. cbn [fl_pc at_pc].
  destruct (agentCache m !! wi) as [name|].
  - cbv beta iota zeta. exists m. by rewrite at_pc_twice, finish_write.
  - rewrite finish_step. unfold advance. cbn [fl_pc at_pc fl_run].
    destruct (bool_decide (default "" (an_agent a) = "")); cbv beta iota zeta; eexists; rewrite !at_pc_twice, finish_write; done.
Qed.

Lemma finish_exact a f m :
  fl_pc f = AtMarker -> fl_reserved f = bool_decide (fl_tier f = mirrorTierDeliverable) ->
  exists m1, lastSeq m1 = lastSeq m /\ delivered m1 = delivered m /\
    finish 6 a (Some f) m =
    match marker_of a (A2ATaskID (fl_ev f)) m with
    | None => (m1, None, [])
    | Some wi => (unmark a f m1, None, put a f wi (author_of a wi (fl_run f) m))
    end.
Proof.
  intros Hpc Hr. unfold marker_of. rewrite finish_step. unfold advance at 1. rewrite Hpc.
  destruct (wiCache m !! A2ATaskID (fl_ev f)) as [wi|] eqn:Hw; cbv beta iota zeta.
  - destruct (finish_agent 1 a f wi m Hr) as (m1 & -> & ? & ?). by exists m1.
  - rewrite finish_step. unfold advance at 1. cbn [fl_pc at_pc fl_ev]. destruct (an_marker a) as [wi|]; cbv beta iota zeta; [|by exists m; rewrite finish_none].
    destruct (bool_decide (wi = "")); cbv beta iota zeta; [by exists m; rewrite finish_none|].
    destruct (finish_agent 0 a f wi (cache_wi (A2ATaskID (fl_ev f)) wi m) Hr) as (m1 & Hf & ? & ?).
    exists m1. split; [done|]. split; [done|]. by rewrite at_pc_twice, Hf.
Qed.

Lemma enter_flight minInterval pubInterval since now ev m m' f o :
  enter minInterval pubInterval since now ev m = (m', Some f, o) ->
  fl_ev f = ev /\ fl_run f = cleanRunID (A2ATaskID ev) /\ fl_body f = bodyOf ev /\ fl_pc f = AtMarker /\
  fl_reserved f = bool_decide (fl_tier f = mirrorTierDeliverable) /\
  (fl_reserved f = true -> is_delivered m' (fl_run f) = true) /\
  fl_tier f = (if bool_decide (mirrorTierOf ev = mirrorTierDeliverable) && negb (fl_reserved f) then mirrorTierEphemeral else mirrorTierOf ev).
Proof.
  intros He. pose proof (enter_entered minInterval pubInterval since now ev m) as H. rewrite He in H.
  inversion H as [|full m1 m2 f' o' Hb Hs Hm Hp]; subst.
  inversion Hp as [|m2 g Hg Ht Hd|m2 g Hg Ht Hd|m2 g Hg Ht]; subst; cbn; rewrite ?is_delivered_set, ?Ht.
  - done.
  - repeat split; try done. by rewrite bool_decide_true.
  - repeat split; try done. destruct (mirrorTierOf ev); done. by rewrite bool_decide_false.
Qed.

(** The events no guard may drop. *)
Definition never_dropped (ev : Event) : Prop :=
  mirrorTierOf ev = mirrorTierDeliverable \/ mirrorTierOf ev = mirrorTierProgress /\ isTerminalEvent ev = true.

Lemma enter_takes minInterval pubInterval since now ev m :
  let '(m', f, o) := enter minInterval pubInterval since now ev m in
  let new := bodyOf ev ≠ "" /\ default 0 (lastSeq m !! A2ATaskID ev) < Seq ev in
  (~ new -> m' = m /\ f = None /\ o = []) /\ (new -> lastSeq m' !! A2ATaskID ev = Some (Seq ev) /\ (never_dropped ev -> is_Some f)).
Proof.
  pose proof (enter_entered minInterval pubInterval since now ev m) as H.
  destruct (enter minInterval pubInterval since now ev m) as [[m' f] o]. cbv zeta.
  inversion H as [H0|full m1 m2 f' o' Hb Hs Hm Hp]; subst.
  - split; [done|]. intros [? ?]. exfalso. destruct H0; [done|lia].
  - split; [intros Hn; exfalso; by apply Hn|]. intros _.
    assert (Hl : lastSeq m' = lastSeq (set_seq (A2ATaskID ev) (Seq ev) (if full then reset_maps m else m))).
    { inversion Hp as [Hg|m2 g Hg|m2 g Hg|m2 g Hg]; subst; [done|..]; apply guard_keeps in Hg as (<- & _); done. }
    split; [rewrite Hl; cbn; by rewrite lookup_insert_eq|].
    intros Hd. inversion Hp as [Hg| | |]; subst; try done. exfalso. unfold guard in Hg.
    destruct Hd as [Hd|[Hd Ht]]; rewrite Hd in Hg; [done|by rewrite Ht in Hg].
Qed.

(** The handler of an event, on every branch. It ends in six steps and never
    fails the run. An event without a body or at most as new as its task's last is
    dropped and leaves no trace; a deliverable and a final status pass every guard;
    the first deliverable of a run reserves the run's summary, a later one goes on
    as a thought. An event whose task has no marker writes nothing. Otherwise it is
    authored by the agent of its work item, by the run where none is known, and
    written as its tier says: a thought as a live row only, the others as a durable
    row and, once that is acknowledged, a live one. The reservation is given back
    exactly when the write of the summary was not acknowledged. *)
Theorem mirror_handles minInterval pubInterval since now ev a m :
  let '(m1, f, o) := enter minInterval pubInterval since now ev m in
  let new := bodyOf ev ≠ "" /\ default 0 (lastSeq m !! A2ATaskID ev) < Seq ev in
  (~ new -> m1 = m /\ f = None /\ o = []) /\ (new -> never_dropped ev -> is_Some f) /\
  match f with
  | None => Handle minInterval pubInterval since now ev a m = (m1, None, o)
  | Some f =>
      fl_run f = cleanRunID (A2ATaskID ev) /\ fl_body f = bodyOf ev /\
      fl_tier f = (if bool_decide (mirrorTierOf ev = mirrorTierDeliverable) && negb (fl_reserved f) then mirrorTierEphemeral else mirrorTierOf ev) /\
      (fl_reserved f = true -> is_delivered m1 (fl_run f) = true) /\
      exists m2, lastSeq m2 = lastSeq m1 /\ delivered m2 = delivered m1 /\
        Handle minInterval pubInterval since now ev a m =
        match marker_of a (A2ATaskID ev) m1 with
        | None => (m2, None, o)
        | Some wi => (unmark a f m2, None, o ++ put a f wi (author_of a wi (fl_run f) m1))
        end
  end.
Proof.
  pose proof (enter_takes minInterval pubInterval since now ev m) as Ht. unfold Handle.
  destruct (enter minInterval pubInterval since now ev m) as [[m1 [f|]] o] eqn:He; cbv zeta in *; destruct Ht as [H1 H2].
  - apply enter_flight in He as (H3 & H4 & H5 & H6 & H7 & H8 & H9). split; [done|]. split; [intros Hn; by apply H2|].
    split_and!; try done. destruct (finish_exact a f m1 H6 H7) as (m2 & ? & ? & Hf). rewrite H3 in Hf.
    exists m2. split; [done|]. split; [done|]. rewrite Hf. destruct (marker_of _ _ _); by rewrite ?app_nil_r.
  - split; [done|]. split; [intros Hn; by apply H2|]. by rewrite finish_none, app_nil_r.
Qed.

(** ** Bodies *)

(** A summary is its text up to 8192 runes, which are 32768 bytes at most, and the
    ellipsis only where something is cut. *)
Lemma truncateRun_bounds s :
  (Z.of_nat (length (runes s)) <= progressMirrorMaxBody -> truncateRun s = s) /\
  Z.of_nat (String.length (truncateRun s)) <= 4 * progressMirrorMaxBody + 3.
Proof.
  unfold truncateRun. destruct (runes_size s) as [Hf Hl]. cbv zeta. destruct (_ <=? _) eqn:Hle; [split; [done|lia]|].
  split; [lia|]. rewrite length_app_string. change (String.length ellipsis) with 3%nat.
  rewrite Nat2Z.inj_add, length_concat.
  assert (Ht : forall l, Forall (fun r => 1 <= Z.of_nat (String.length r) <= 4) l -> total_length l <= 4 * Z.of_nat (length l)).
  { clear. induction 1 as [|r l Hr _ IH]; cbn [total_length length]; lia. }
  specialize (Ht (take (Z.to_nat progressMirrorMaxBody) (runes s)) (Forall_take _ _ _ Hf)).
  pose proof (length_take (runes s) (Z.to_nat progressMirrorMaxBody)) as Hn.
  assert (Z.of_nat (length (take (Z.to_nat progressMirrorMaxBody) (runes s))) <= progressMirrorMaxBody); [|lia].
  rewrite Hn. unfold progressMirrorMaxBody in *. lia.
Qed.

(** * Concrete runs *)

Definition said (kind text : string) : Payload :=
  {| concrete := OfMessage {| ms_Text := text; ms_Kind := kind |}; json_message := None; json_tool := None; json_status := None; json_usage := None; json_artifact := None |}.
Definition ended (state : string) : Payload :=
  {| concrete := OfStatus {| st_State := state; st_Reason := ""; st_TraceID := "" |}; json_message := None; json_tool := None;
     json_status := None; json_usage := None; json_artifact := None |}.
Definition event (seq : Z) (type : string) (p : Payload) : Event :=
  {| Seq := seq; A2ATaskID := "u1"; TS := None; Type_ := type; payload := p |}.
Definition all_well : Answer := {| an_marker := Some "i1"; an_agent := Some "coder"; an_write := Acked; an_echo := Acked |}.
Definition no_marker : Answer := {| an_marker := Some ""; an_agent := Some "coder"; an_write := Acked; an_echo := Acked |}.
Definition go_on (a : Answer) (n : nat) : list Move := replicate n (Go 0 a).

(** A thought, an answer and the end of a run. *)
Definition sample : list Move :=
  Arrive 0 0 (event 1 EventMessage (said "thinking" "hm")) :: go_on all_well 6 ++
  Arrive 1 1 (event 2 EventMessage (said "deliverable" "done")) :: go_on all_well 4 ++
  Arrive 2 2 (event 3 EventStatus (ended "completed")) :: go_on all_well 4.

Lemma sample_seen : seen (moves progressMirrorMinInterval progressMirrorThinkingInterval sample) =
  let ev1 := event 1 EventMessage (said "thinking" "hm") in
  let ev2 := event 2 EventMessage (said "deliverable" "done") in
  let ev3 := event 3 EventStatus (ended "completed") in
  [Sequenced ev1; Passed ev1 (Some mirrorTierEphemeral) 0; Live ev1 "i1" "agent:coder" "u1" "[run u1][untrusted] hm" 1;
   Sequenced ev2; Passed ev2 None 1; Summary ev2 "i1" "agent:coder" "u1" "done"; Live ev2 "i1" "agent:coder" "u1" "done" 2;
   Sequenced ev3; Passed ev3 None 2; Row ev3 "i1" "agent:coder" "u1" "[run u1][status] completed";
   Live ev3 "i1" "agent:coder" "u1" "[run u1][status] completed" 3].
Proof. vm_compute. reflexivity. Qed.

Lemma mirror_rows_faithful_witness :
  let P task wi := task = "u1" /\ wi = "i1" in
  let o := seen (moves progressMirrorMinInterval progressMirrorThinkingInterval sample) in
  Forall (faithful P) o /\ cnt (row_of (is_event "u1" 2)) o <= 1 + cnt is_reset o.
Proof.
  cbv zeta. destruct (mirror_rows_faithful progressMirrorMinInterval progressMirrorThinkingInterval
    (fun task wi => task = "u1" /\ wi = "i1") sample) as [H1 H2].
  - unfold sample, go_on. cbn [replicate app honest_from honest].
    repeat match goal with |- _ /\ _ => split end; try exact I; intros f wi Hf Hpc Ha Hne;
      vm_compute in Hf; injection Hf as <-; cbn in Hpc; try discriminate; cbn in Ha; injection Ha as <-; split; reflexivity.
  - split; [exact H1|]. destruct (H2 "u1" 2) as [H3 _]; [lia|exact H3].
Defined.

Lemma mirror_paces_witness :
  let ls := sample ++ [Arrive 5 6 (event 4 EventMessage (said "thinking" "too soon"))] in
  let o := seen (moves progressMirrorMinInterval progressMirrorThinkingInterval ls) in
  (cnt (live_of (thinking "u1")) o - 1 - cnt is_reset o) * progressMirrorThinkingInterval <= 10 - 0 /\
  cnt (live_of (thinking "u1")) o = 1.
Proof.
  cbv zeta. split; [|vm_compute; reflexivity].
  apply (mirror_paces progressMirrorMinInterval progressMirrorThinkingInterval _ 0 10 "u1");
    [unfold progressMirrorMinInterval; lia|unfold progressMirrorThinkingInterval; lia|].
  unfold sample, go_on. cbn. lia.
Defined.

(** ** Where a summary is lost or doubled *)

(** A deliverable that comes before the dispatch marker is dropped and keeps the
    run's reservation: the next one, with the marker there, is a thought. *)
Lemma reservation_lost :
  let ls := Arrive 0 0 (event 1 EventMessage (said "deliverable" "draft")) :: go_on no_marker 2 ++
            Arrive 1 1 (event 2 EventMessage (said "deliverable" "done")) :: go_on all_well 6 in
  let s := moves progressMirrorMinInterval progressMirrorThinkingInterval ls in
  flights s = [] /\ cnt (is_summary "u1") (seen s) = 0 /\ cnt (live_of (is_event "u1" 2)) (seen s) = 1.
Proof. vm_compute. done. Qed.

(** A deliverable whose summary was refused is not written when it is delivered
    again: its sequence number is taken. *)
Lemma refused_summary_not_retried :
  let refused := {| an_marker := Some "i1"; an_agent := None; an_write := Refused; an_echo := Acked |} in
  let ev := event 1 EventMessage (said "deliverable" "done") in
  let ls := Arrive 0 0 ev :: go_on refused 6 ++ Arrive 1 1 ev :: go_on all_well 6 in
  let s := moves progressMirrorMinInterval progressMirrorThinkingInterval ls in
  flights s = [] /\ cnt (is_summary "u1") (seen s) = 0 /\ is_delivered (mirror s) "u1" = false.
Proof. vm_compute. done. Qed.

(** After a restart the follow is attached again and delivers its events from the
    first: the run gets its summary twice. *)
Lemma restart_doubles_the_summary :
  let ev := event 1 EventMessage (said "deliverable" "done") in
  let ls := Arrive 0 0 ev :: go_on all_well 6 ++ Restart :: Arrive 9 9 ev :: go_on all_well 6 in
  let s := moves progressMirrorMinInterval progressMirrorThinkingInterval ls in
  cnt (is_summary "u1") (seen s) = 2 /\ cnt is_reset (seen s) = 1.
Proof. vm_compute. done. Qed.
