(* ===== verification/RunStatus.v ===== *)
(** The writers of a Run's status that follow its execution: the projection of
    usage and trace id (src/pkg/controller/rundrive/runllm_status.go) and the
    observer of the bound sandbox (sandboxref_status.go). Programs over the client
    of the Kubernetes API. *)
From Stdlib Require Import Ascii PrimFloat.
From S2P Require Import Prelude GoStr Calls ModelEndpoint RateLimit Wire.
Open Scope Z_scope.
Open Scope k8s_scope.

Record TokenUsage : Set := { InputTokens : Z; OutputTokens : Z; TotalTokens : Z }.
Record LLMInteraction : Set := {
  li_ID : string; li_Model : string; li_Timestamp : Z; li_DurationMs : Z; li_Usage : TokenUsage }.

(** The fields of a Run these writers read and write. *)
Record RunObj : Set := {
  ro_uid : string; ro_name : string; ro_namespace : string;
  LLMInteractions : list LLMInteraction; TotalTokenUsage : option TokenUsage; TraceID : string;
  SandboxRef : option (string * string) }.

Record OwnerRef : Set := { ow_kind : string; ow_name : string; ow_uid : string; ow_controller : bool }.

Inductive Call : Type -> Type :=
| ListRuns : Call (result bool (list RunObj))
| Now : Call Z
| PatchUsage (uid : string) (interactions : list LLMInteraction) (total : TokenUsage) : Call bool
| PatchTraceID (uid traceID : string) : Call bool
| PatchSandboxRef (uid name ns : string) : Call bool
| GetPod (ns name : string) : Call (Read (list OwnerRef))
| PatchOwners (ns name : string) (owners : list OwnerRef) : Call bool.

Notation Prog := (Calls.Prog Call).
Notation ret := Ret.

Definition runByUIDFrom (runID : string) : Prog (result RunErr RunObj) :=
  let* runs := call ListRuns in
  ret (match runs with
       | Err nf => Err (ListFailed nf)
       | Ok rs => match head (filter (fun r => ro_uid r = runID) rs) with Some r => Ok r | None => Err (NoRun runID) end
       end).

(** * Usage and trace id *)

Definition llmInteractionsCap : nat := 128.

(** The first 128 bytes of the run's id and the sequence number. *)
Definition llmInteractionID (ev : Event) : string :=
  let id := cleanRunID (A2ATaskID ev) +:+ ":" +:+ itoa (Seq ev) in
  if (128 <? String.length id)%nat then String.substring 0 128 id else id.

Definition usagePayloadHasSignal (p : UsagePayload) : bool :=
  negb (bool_decide (us_Model p = "")) || negb (us_Input p =? 0) || negb (us_Output p =? 0) || negb (us_Reasoning p =? 0) ||
  negb (us_CacheRead p =? 0) || negb (us_CacheWrite p =? 0) || negb (PrimFloat.eqb (us_CostUSD p) 0%float).

Definition llmUsagePayload (p : Payload) : option UsagePayload :=
  match concrete p with
  | OfUsage v => Some v
  | ToUsage v => v
  | _ => match json_usage p with Some v => if usagePayloadHasSignal v then Some v else None | None => None end
  end.

Definition llmStatusPayload (p : Payload) : option StatusPayload :=
  match concrete p with
  | OfStatus v => Some v
  | ToStatus v => v
  | _ => match json_status p with Some v => if bool_decide (st_State v = "") then None else Some v | None => None end
  end.

Definition interaction (ev : Event) (p : UsagePayload) (ts : Z) : LLMInteraction :=
  {| li_ID := llmInteractionID ev; li_Model := us_Model p; li_Timestamp := ts; li_DurationMs := us_DurationMS p;
     li_Usage := {| InputTokens := us_Input p; OutputTokens := us_Output p; TotalTokens := wrap64 (us_Input p + us_Output p) |} |}.

Definition no_tokens : TokenUsage := {| InputTokens := 0; OutputTokens := 0; TotalTokens := 0 |}.

Definition add_tokens (p : UsagePayload) (t : TokenUsage) : TokenUsage :=
  let i := wrap64 (InputTokens t + us_Input p) in
  let o := wrap64 (OutputTokens t + us_Output p) in
  {| InputTokens := i; OutputTokens := o; TotalTokens := wrap64 (i + o) |}.

(** The most recent 128. *)
Definition window (l : list LLMInteraction) : list LLMInteraction := drop (length l - llmInteractionsCap) l.

Definition projectUsage (ev : Event) (p : UsagePayload) : Prog unit :=
  let* r := runByUIDFrom (cleanRunID (A2ATaskID ev)) in
  match r with
  | Err _ => ret tt
  | Ok run =>
      if existsb (fun i => bool_decide (li_ID i = llmInteractionID ev)) (LLMInteractions run) then ret tt
      else
        let* ts := (match TS ev with Some ts => ret ts | None => call Now end) in
        let* _ := call (PatchUsage (ro_uid run) (window (LLMInteractions run ++ [interaction ev p ts]))
                                   (add_tokens p (default no_tokens (TotalTokenUsage run)))) in
        ret tt
  end.

Definition projectTraceID (ev : Event) (traceID : string) : Prog unit :=
  let* r := runByUIDFrom (cleanRunID (A2ATaskID ev)) in
  match r with
  | Err _ => ret tt
  | Ok run =>
      if bool_decide (TraceID run = traceID) then ret tt
      else let* _ := call (PatchTraceID (ro_uid run) traceID) in ret tt
  end.

Definition RunLLMStatusWriter_Event (ev : Event) : Prog unit :=
  if bool_decide (Type_ ev = EventUsage) then
    match llmUsagePayload (payload ev) with Some p => projectUsage ev p | None => ret tt end
  else if bool_decide (Type_ ev = EventStatus) then
    match llmStatusPayload (payload ev) with
    | Some p => if bool_decide (st_TraceID p = "") then ret tt else projectTraceID ev (st_TraceID p)
    | None => ret tt
    end
  else ret tt.

(** * The bound sandbox *)

Inductive ObserveErr : Set := ResolveRun (e : RunErr) | GetPodFailed | AdoptFailed | PatchStatusFailed.

Definition run_owner (run : RunObj) : OwnerRef :=
  {| ow_kind := "Run"; ow_name := ro_name run; ow_uid := ro_uid run; ow_controller := true |}.

Definition adoptSandboxPod (run : RunObj) (sandboxRef : string) : Prog (result ObserveErr unit) :=
  let* pod := call (GetPod (ro_namespace run) sandboxRef) in
  match pod with
  | NotFound => ret (Ok tt)
  | ReadError => ret (Err GetPodFailed)
  | Found owners =>
      if existsb (fun o => bool_decide (ow_uid o = ro_uid run)) owners then ret (Ok tt)
      else
        let* patched := call (PatchOwners (ro_namespace run) sandboxRef (owners ++ [run_owner run])) in
        ret (if patched : bool then Ok tt else Err AdoptFailed)
  end.

Definition ObserveSandboxRef (runID sandboxRef : string) : Prog (result ObserveErr unit) :=
  let* r := runByUIDFrom runID in
  match r with
  | Err e => ret (Err (ResolveRun e))
  | Ok run =>
      let* adopted := adoptSandboxPod run sandboxRef in
      match adopted with
      | Err e => ret (Err e)
      | Ok _ =>
          if bool_decide (fst <$> SandboxRef run = Some sandboxRef) then ret (Ok tt)
          else
            let* patched := call (PatchSandboxRef (ro_uid run) sandboxRef (ro_namespace run)) in
            ret (if patched : bool then Ok tt else Err PatchStatusFailed)
      end
  end.

(** * The API server *)

(** The Runs and the pods' owners. A merge patch replaces the fields it names. *)
Record Cluster : Set := { runs_of : gmap string RunObj; owners_of : gmap (string * string) (list OwnerRef) }.

Definition set_usage (l : list LLMInteraction) (t : TokenUsage) (r : RunObj) : RunObj :=
  {| ro_uid := ro_uid r; ro_name := ro_name r; ro_namespace := ro_namespace r; LLMInteractions := l; TotalTokenUsage := Some t;
     TraceID := TraceID r; SandboxRef := SandboxRef r |}.
Definition set_trace (id : string) (r : RunObj) : RunObj :=
  {| ro_uid := ro_uid r; ro_name := ro_name r; ro_namespace := ro_namespace r; LLMInteractions := LLMInteractions r;
     TotalTokenUsage := TotalTokenUsage r; TraceID := id; SandboxRef := SandboxRef r |}.
Definition set_sandbox (name ns : string) (r : RunObj) : RunObj :=
  {| ro_uid := ro_uid r; ro_name := ro_name r; ro_namespace := ro_namespace r; LLMInteractions := LLMInteractions r;
     TotalTokenUsage := TotalTokenUsage r; TraceID := TraceID r; SandboxRef := Some (name, ns) |}.

Definition on_run (uid : string) (f : RunObj -> RunObj) (w : Cluster) : Cluster :=
  {| runs_of := alter f uid (runs_of w); owners_of := owners_of w |}.

(** A read answers what is there or fails; a write is done or refused, and a write
    to a Run or a pod that is gone is refused. *)
Definition serves X (c : Call X) (w : Cluster) : X -> Cluster -> Prop :=
  match c in Call X return X -> Cluster -> Prop with
  | ListRuns => fun x w' => w' = w /\ match x with Ok rs => rs = (map_to_list (runs_of w)).*2 | Err _ => True end
  | Now => fun _ w' => w' = w
  | PatchUsage uid l t => fun ok w' => if ok : bool then is_Some (runs_of w !! uid) /\ w' = on_run uid (set_usage l t) w else w' = w
  | PatchTraceID uid id => fun ok w' => if ok : bool then is_Some (runs_of w !! uid) /\ w' = on_run uid (set_trace id) w else w' = w
  | PatchSandboxRef uid name ns => fun ok w' => if ok : bool then is_Some (runs_of w !! uid) /\ w' = on_run uid (set_sandbox name ns) w else w' = w
  | GetPod ns name => fun x w' => w' = w /\ match x with Found o => owners_of w !! (ns, name) = Some o | NotFound => owners_of w !! (ns, name) = None | ReadError => True end
  | PatchOwners ns name o => fun ok w' =>
      if ok : bool then is_Some (owners_of w !! (ns, name)) /\ w' = {| runs_of := runs_of w; owners_of := <[(ns, name) := o]> (owners_of w) |}
      else w' = w
  end.
