(* ===== verification/RunStatusProps.v ===== *)
(** The status writers: the tally of a Run's usage and its window, and the sandbox a
    Run is shown to have. *)
From Stdlib Require Import Ascii PrimFloat.
From S2P Require Import Prelude GoStr Calls ModelEndpoint RateLimit Wire RunStatus.
Open Scope Z_scope.
Open Scope k8s_scope.

(** * The window *)

Lemma window_cap l : (length (window l) <= llmInteractionsCap)%nat.
Proof. unfold window. rewrite length_drop. lia. Qed.

Lemma window_window l x : window (window l ++ [x]) = window (l ++ [x]).
Proof.
  unfold window, llmInteractionsCap. rewrite !length_app, length_drop. cbn [length].
  destruct (decide (length l <= 128)%nat) as [Hle|Hgt].
  - replace (length l - 128)%nat with 0%nat by lia. by rewrite drop_0, Nat.sub_0_r.
  - rewrite !drop_app_le by (rewrite ?length_drop; lia). rewrite drop_drop. do 2 f_equal. lia.
Qed.

Lemma window_lookup l i x : l !! i = Some x -> (length l <= i + llmInteractionsCap)%nat -> x ∈ window l.
Proof.
  intros Hi Hl. unfold window. apply list_elem_of_lookup. exists (i - (length l - llmInteractionsCap))%nat.
  rewrite lookup_drop. rewrite <- Hi. f_equal. unfold llmInteractionsCap in *. apply lookup_lt_Some in Hi. lia.
Qed.

(** * The tally *)

(** What was projected, in order. *)
Record Usage : Set := { ug_ev : Event; ug_payload : UsagePayload; ug_ts : Z }.
Definition entry (u : Usage) : LLMInteraction := interaction (ug_ev u) (ug_payload u) (ug_ts u).
Definition id_of (u : Usage) : string := llmInteractionID (ug_ev u).

Fixpoint sum (f : UsagePayload -> Z) (h : list Usage) : Z :=
  match h with [] => 0 | u :: h => f (ug_payload u) + sum f h end.
Lemma sum_snoc f h u : sum f (h ++ [u]) = sum f h + f (ug_payload u).
Proof. induction h as [|v h IH]; [cbn; lia|]. cbn [sum app]. rewrite IH. lia. Qed.

Lemma wrap64_add_l a b : wrap64 (wrap64 a + b) = wrap64 (a + b).
Proof.
  unfold wrap64. f_equal. replace ((a + 2 ^ 63) mod 2 ^ 64 - 2 ^ 63 + b + 2 ^ 63) with ((a + 2 ^ 63) mod 2 ^ 64 + b) by lia.
  rewrite Zplus_mod_idemp_l. f_equal. lia.
Qed.
Lemma wrap64_add_r a b : wrap64 (a + wrap64 b) = wrap64 (a + b).
Proof. by rewrite Z.add_comm, wrap64_add_l, Z.add_comm. Qed.
Lemma wrap64_0 : wrap64 0 = 0.
Proof. done. Qed.

(** A Run's status against what was projected on it: the entries of the last 128,
    the totals of all, each to 64 bits, and no event again within 128 of itself. *)
Definition tally (h : list Usage) (r : RunObj) : Prop :=
  LLMInteractions r = window (entry <$> h) /\
  TotalTokenUsage r = (if bool_decide (h = []) then None else
     Some {| InputTokens := wrap64 (sum us_Input h); OutputTokens := wrap64 (sum us_Output h);
             TotalTokens := wrap64 (sum us_Input h + sum us_Output h) |}) /\
  forall i j u v, (i < j)%nat -> h !! i = Some u -> h !! j = Some v -> id_of u = id_of v -> (i + llmInteractionsCap < j)%nat.

Definition known (id : string) (r : RunObj) : bool := existsb (fun i => bool_decide (li_ID i = id)) (LLMInteractions r).

Lemma known_elem id r : known id r = true <-> id ∈ li_ID <$> LLMInteractions r.
Proof.
  unfold known. rewrite existsb_exists, list_elem_of_fmap. split.
  - intros (i & Hi & He). exists i. split; [by apply bool_decide_eq_true in He|by apply list_elem_of_In].
  - intros (i & -> & Hi). exists i. split; [by apply list_elem_of_In|by apply bool_decide_eq_true].
Qed.

(** One more projection keeps the tally. *)
Lemma tally_snoc h r ev p ts :
  tally h r -> known (llmInteractionID ev) r = false ->
  tally (h ++ [{| ug_ev := ev; ug_payload := p; ug_ts := ts |}])
        (set_usage (window (LLMInteractions r ++ [interaction ev p ts])) (add_tokens p (default no_tokens (TotalTokenUsage r))) r).
Proof.
  intros (Hl & Ht & Hs) Hk. split; [|split].
  - cbn [LLMInteractions set_usage]. rewrite Hl, window_window, fmap_app. done.
  - cbn [TotalTokenUsage set_usage]. rewrite bool_decide_false by (by destruct h). rewrite Ht, !sum_snoc. cbn [ug_payload].
    case_bool_decide as He; [subst h; cbn|]; unfold add_tokens; cbn [default id InputTokens OutputTokens no_tokens];
      rewrite ?wrap64_add_l, ?wrap64_add_r; repeat f_equal; try lia.
  - intros i j u v Hij Hi Hj Hid. rewrite lookup_app in Hi, Hj.
    destruct (h !! j) as [v'|] eqn:Hj'.
    { simplify_eq. assert (is_Some (h !! i)) as [u' Hi'] by (apply lookup_lt_is_Some_2; apply lookup_lt_Some in Hj'; lia).
      rewrite Hi' in Hi. simplify_eq. by apply (Hs i j u v). }
    apply lookup_ge_None_1 in Hj'. assert (j = length h) as ->.
    { apply lookup_lt_Some in Hj. cbn in Hj. lia. }
    rewrite Nat.sub_diag in Hj. cbn in Hj. simplify_eq.
    assert (is_Some (h !! i)) as [u' Hi'] by (apply lookup_lt_is_Some_2; lia). rewrite Hi' in Hi. simplify_eq.
    destruct (decide (i + llmInteractionsCap < length h)%nat) as [|Hn]; [done|exfalso].
    apply not_true_iff_false in Hk. apply Hk, known_elem. rewrite Hl. apply list_elem_of_fmap.
    exists (entry u). split; [cbn; by symmetry|]. apply (window_lookup _ i); [by rewrite list_lookup_fmap, Hi'|rewrite length_fmap; lia].
Qed.

(** * One event *)

(** The Runs are kept under their uid. *)
Definition keyed (w : Cluster) : Prop := forall uid r, runs_of w !! uid = Some r -> ro_uid r = uid.

Lemma keyed_on_run uid f w : (forall r, ro_uid (f r) = ro_uid r) -> keyed w -> keyed (on_run uid f w).
Proof.
  intros Hf Hw u r. cbn. destruct (decide (uid = u)) as [->|Hne].
  - rewrite lookup_alter_eq. destruct (runs_of w !! u) as [r0|] eqn:E; cbn; [|done]. intros [= <-]. rewrite Hf. by apply Hw.
  - rewrite lookup_alter_ne by done. apply Hw.
Qed.

(** A read of a Run: it finds the one there is, or fails. *)
Lemma runByUID_reads id w t r w' :
  keyed w -> runs serves (runByUIDFrom id) w t r w' ->
  w' = w /\ match r with Ok run => runs_of w !! id = Some run | Err (NoRun _) => runs_of w !! id = None | Err _ => True end.
Proof.
  intros Hk (x & w1 & t' & _ & Hs & Hr)%runs_inv. cbn in Hs. destruct Hs as [-> Hx].
  apply runs_inv in Hr as (_ & -> & <-). split; [done|]. destruct x as [rs|nf]; [|done]. subst rs.
  destruct (head (filter _ _)) as [run|] eqn:Hh.
  - apply head_Some_elem_of, list_elem_of_filter in Hh as [Hu Hin]. apply list_elem_of_fmap in Hin as ([k v] & -> & Hin).
    apply elem_of_map_to_list in Hin. cbn in *. rewrite <- Hu, (Hk _ _ Hin). done.
  - destruct (runs_of w !! id) as [run|] eqn:Hl; [exfalso|done].
    assert (run ∈ filter (fun r => ro_uid r = id) (map_to_list (runs_of w)).*2) as Hin.
    { apply list_elem_of_filter. split; [by apply Hk|]. apply list_elem_of_fmap. exists (id, run). split; [done|by apply elem_of_map_to_list]. }
    destruct (filter _ _); [by apply not_elem_of_nil in Hin|done].
Qed.

(** What an event does to the cluster: nothing, one projection of its usage on its
    Run, or the trace id. *)
Inductive event_step (ev : Event) (w : Cluster) : Cluster -> Prop :=
| step_none : event_step ev w w
| step_usage p run ts :
    Type_ ev = EventUsage -> llmUsagePayload (payload ev) = Some p ->
    runs_of w !! cleanRunID (A2ATaskID ev) = Some run -> known (llmInteractionID ev) run = false ->
    event_step ev w (on_run (cleanRunID (A2ATaskID ev))
      (set_usage (window (LLMInteractions run ++ [interaction ev p ts])) (add_tokens p (default no_tokens (TotalTokenUsage run)))) w)
| step_trace p run :
    Type_ ev = EventStatus -> llmStatusPayload (payload ev) = Some p -> st_TraceID p ≠ "" ->
    runs_of w !! cleanRunID (A2ATaskID ev) = Some run ->
    event_step ev w (on_run (cleanRunID (A2ATaskID ev)) (set_trace (st_TraceID p)) w).

Lemma event_steps ev w t w' : keyed w -> runs serves (RunLLMStatusWriter_Event ev) w t tt w' -> event_step ev w w'.
Proof.
  intros Hk. unfold RunLLMStatusWriter_Event. destruct (bool_decide_reflect (Type_ ev = EventUsage)) as [Ht|].
  - destruct (llmUsagePayload (payload ev)) as [p|] eqn:Hp; [|by intros (_ & _ & ->)%runs_inv; constructor].
    unfold projectUsage. intros (t1 & r & w1 & t2 & _ & Hr & H)%runs_bind.
    apply runByUID_reads in Hr as [-> Hr]; [|done]. destruct r as [run|e]; [|apply runs_inv in H as (_ & _ & ->); constructor].
    fold (known (llmInteractionID ev) run) in H. destruct (known _ run) eqn:Hn; [apply runs_inv in H as (_ & _ & ->); constructor|].
    apply runs_bind in H as (t3 & ts & w2 & t4 & _ & Hts & H).
    assert (w2 = w) as -> by (destruct (TS ev); apply runs_inv in Hts; [by destruct Hts as (_ & _ & <-)|
      destruct Hts as (? & ? & ? & _ & Hs & (_ & _ & <-)%runs_inv); cbn in Hs; done]).
    apply runs_inv in H as (ok & w3 & t5 & _ & Hs & H). apply runs_inv in H as (_ & _ & <-). cbn in Hs.
    rewrite (Hk _ _ Hr) in Hs. destruct ok; [destruct Hs as [_ ->]; by econstructor|subst; constructor].
  - destruct (bool_decide_reflect (Type_ ev = EventStatus)) as [Ht|]; [|by intros (_ & _ & ->)%runs_inv; constructor].
    destruct (llmStatusPayload (payload ev)) as [p|] eqn:Hp; [|by intros (_ & _ & ->)%runs_inv; constructor].
    destruct (bool_decide_reflect (st_TraceID p = "")) as [|Hne]; [by intros (_ & _ & ->)%runs_inv; constructor|].
    unfold projectTraceID. intros (t1 & r & w1 & t2 & _ & Hr & H)%runs_bind.
    apply runByUID_reads in Hr as [-> Hr]; [|done]. destruct r as [run|e]; [|apply runs_inv in H as (_ & _ & ->); constructor].
    case_bool_decide; [apply runs_inv in H as (_ & _ & ->); constructor|].
    apply runs_inv in H as (ok & w3 & t5 & _ & Hs & H). apply runs_inv in H as (_ & _ & <-). cbn in Hs.
    rewrite (Hk _ _ Hr) in Hs. destruct ok; [destruct Hs as [_ ->]; by econstructor|subst; constructor].
Qed.

Lemma event_step_keyed ev w w' : keyed w -> event_step ev w w' -> keyed w'.
Proof. intros Hk []; [done|by apply keyed_on_run..]. Qed.

(** * A stream of events *)

(** Deliveries one after the other: of one run or of several, again or not. *)
Inductive delivered : Cluster -> list Event -> Cluster -> Prop :=
| del_nil w : delivered w [] w
| del_cons w ev t w1 evs w2 :
    runs serves (RunLLMStatusWriter_Event ev) w t tt w1 -> delivered w1 evs w2 -> delivered w (ev :: evs) w2.

(** The usage events of a run among the deliveries, as projected. *)
Definition projects (uid : string) (u : Usage) : Prop :=
  Type_ (ug_ev u) = EventUsage /\ llmUsagePayload (payload (ug_ev u)) = Some (ug_payload u) /\ cleanRunID (A2ATaskID (ug_ev u)) = uid.

Lemma delivered_tally uid w evs w' h r :
  keyed w -> delivered w evs w' -> runs_of w !! uid = Some r -> tally h r ->
  exists r' h', runs_of w' !! uid = Some r' /\ tally (h ++ h') r' /\ Forall (projects uid) h' /\ (ug_ev <$> h') `sublist_of` evs.
Proof.
  intros Hk Hd. revert h r Hk. induction Hd as [w|w ev t w1 evs w2 Hr Hd IH]; intros h r Hk Hl Ht.
  { exists r, []. rewrite app_nil_r. split_and!; try done; constructor. }
  apply event_steps in Hr; [|done]. pose proof (event_step_keyed _ _ _ Hk Hr) as Hk1.
  destruct Hr as [|p run ts Hty Hp Hrun Hn|p run Hty Hp Hne Hrun].
  - destruct (IH h r Hk1 Hl Ht) as (r' & h' & ? & ? & ? & ?). exists r', h'. split_and!; try done. by apply sublist_cons.
  - destruct (decide (cleanRunID (A2ATaskID ev) = uid)) as [Hu|Hu].
    + rewrite Hu in Hrun. rewrite Hrun in Hl. injection Hl as ->. pose proof (tally_snoc _ _ ev p ts Ht Hn) as Ht1.
      destruct (IH _ _ Hk1 ltac:(cbn; rewrite Hu, lookup_alter_eq, Hrun; reflexivity) Ht1) as (r' & h' & ? & Ht' & Hf & Hs).
      exists r', ({| ug_ev := ev; ug_payload := p; ug_ts := ts |} :: h'). rewrite <- app_assoc in Ht'.
      split_and!; try done; [by constructor|]. cbn. by constructor.
    + destruct (IH h r Hk1 ltac:(cbn; rewrite lookup_alter_ne by done; exact Hl) Ht) as (r' & h' & ? & ? & ? & ?).
      exists r', h'. split_and!; try done. by apply sublist_cons.
  - assert (exists r1, runs_of (on_run (cleanRunID (A2ATaskID ev)) (set_trace (st_TraceID p)) w) !! uid = Some r1 /\ tally h r1) as (r1 & Hl1 & Ht1).
    { cbn. destruct (decide (cleanRunID (A2ATaskID ev) = uid)) as [->|Hu].
      - rewrite lookup_alter_eq, Hl. by eexists.
      - rewrite lookup_alter_ne by done. by exists r. }
    destruct (IH h r1 Hk1 Hl1 Ht1) as (r' & h' & ? & ? & ? & ?). exists r', h'. split_and!; try done. by apply sublist_cons.
Qed.

(** What is within 128 of each other is distinct. *)
Lemma spaced_nodup h k :
  (forall i j u v, (i < j)%nat -> h !! i = Some u -> h !! j = Some v -> id_of u = id_of v -> (i + llmInteractionsCap < j)%nat) ->
  (length h <= k + llmInteractionsCap + 1)%nat -> NoDup (id_of <$> drop k h).
Proof.
  intros Hs Hl. apply NoDup_alt. intros i j x Hi Hj. rewrite list_lookup_fmap, lookup_drop in Hi, Hj.
  destruct (h !! (k + i)%nat) as [u|] eqn:Hu; [|done]. destruct (h !! (k + j)%nat) as [v|] eqn:Hv; [|done].
  cbn in Hi, Hj. simplify_eq. pose proof (lookup_lt_Some _ _ _ Hu). pose proof (lookup_lt_Some _ _ _ Hv).
  destruct (lt_eq_lt_dec i j) as [[Hij|]|Hij]; [exfalso|done|exfalso].
  - assert (k + i + llmInteractionsCap < k + j)%nat by (eapply Hs; [|done..|by symmetry]; lia). lia.
  - assert (k + j + llmInteractionsCap < k + i)%nat by (eapply Hs; [|done..]; lia). lia.
Qed.

Lemma tally_window h r : tally h r -> (length (LLMInteractions r) <= llmInteractionsCap)%nat /\ NoDup (li_ID <$> LLMInteractions r).
Proof.
  intros (Hl & _ & Hs). rewrite Hl. split; [apply window_cap|]. unfold window. rewrite fmap_drop, <- list_fmap_compose, <- fmap_drop.
  apply (spaced_nodup h _ Hs). rewrite length_fmap. lia.
Qed.

(** A Run no usage was projected on. *)
Definition untouched (r : RunObj) : Prop := LLMInteractions r = [] /\ TotalTokenUsage r = None.

Lemma untouched_tally r : untouched r -> tally [] r.
Proof. intros [H1 H2]. split; [done|]. split; [done|]. intros i j u v _ Hi. done. Qed.

(** A Run's usage is the tally of its usage events. Whatever is delivered, of
    whichever runs, in whatever order and however often, and whichever reads and
    writes fail: the totals of a Run are the sums, to 64 bits, of the usage events
    projected on it, each a delivered usage event of that run and in the order of
    delivery; the entries shown are those of the last 128, with distinct ids; no
    event is counted again among the 128 projections that follow it, so none twice
    within the first 129. *)
Theorem usage_tallied uid w evs w' r :
  keyed w -> delivered w evs w' -> runs_of w !! uid = Some r -> untouched r ->
  exists r' h, runs_of w' !! uid = Some r' /\ tally h r' /\ Forall (projects uid) h /\ (ug_ev <$> h) `sublist_of` evs /\
    (length (LLMInteractions r') <= 128)%nat /\ NoDup (li_ID <$> LLMInteractions r') /\
    ((length h <= 129)%nat -> NoDup (id_of <$> h)).
Proof.
  intros Hk Hd Hr Hu. destruct (delivered_tally _ _ _ _ _ _ Hk Hd Hr (untouched_tally _ Hu)) as (r' & h & H1 & H2 & H3 & H4).
  exists r', h. destruct (tally_window _ _ H2) as [H5 H6]. split_and!; try done.
  intros Hl. apply (spaced_nodup h 0); [apply H2|unfold llmInteractionsCap; lia].
Qed.

(** ** A delivery that lands *)

Lemma usage_lands uid w r ev p ts :
  keyed w -> runs_of w !! uid = Some r -> cleanRunID (A2ATaskID ev) = uid -> Type_ ev = EventUsage ->
  llmUsagePayload (payload ev) = Some p -> TS ev = Some ts -> known (llmInteractionID ev) r = false ->
  exists t, runs serves (RunLLMStatusWriter_Event ev) w t tt
    (on_run uid (set_usage (window (LLMInteractions r ++ [interaction ev p ts])) (add_tokens p (default no_tokens (TotalTokenUsage r)))) w).
Proof.
  intros Hk Hr Hu Ht Hp Hts Hn. unfold RunLLMStatusWriter_Event. rewrite Ht, bool_decide_true, Hp by done.
  unfold projectUsage, runByUIDFrom, call. rewrite Hu. cbn [pbind]. eexists. eapply (runs_do _ _ _ _ (Ok _)); [by split|]. cbn [pbind].
  assert (head (filter (fun r => ro_uid r = uid) (map_to_list (runs_of w)).*2) = Some r) as ->.
  { assert (r ∈ filter (fun r => ro_uid r = uid) (map_to_list (runs_of w)).*2) as Hin.
    { apply list_elem_of_filter. split; [by apply Hk|]. apply list_elem_of_fmap. exists (uid, r). split; [done|by apply elem_of_map_to_list]. }
    destruct (filter _ _) as [|r0 rs] eqn:Hf; [by apply not_elem_of_nil in Hin|]. cbn. f_equal.
    assert (r0 ∈ filter (fun r => ro_uid r = uid) (map_to_list (runs_of w)).*2) as H0 by (rewrite Hf; left).
    apply list_elem_of_filter in H0 as [Hu0 H0]. apply list_elem_of_fmap in H0 as ([k v] & -> & H0). apply elem_of_map_to_list in H0.
    cbn in *. rewrite (Hk _ _ H0) in Hu0. congruence. }
  fold (known (llmInteractionID ev) r). rewrite Hn, Hts. cbn [pbind]. eapply (runs_do _ _ _ _ true); [|apply runs_ret].
  cbn. rewrite (Hk _ _ Hr). by split.
Qed.

(** ** Where the count is off *)

(** An event delivered again once 128 others followed it is counted twice. *)
Lemma late_replay_counts_twice uid w r h u ts :
  keyed w -> runs_of w !! uid = Some r -> tally h r -> projects uid u -> TS (ug_ev u) = Some ts -> u ∈ h ->
  id_of u ∉ li_ID <$> LLMInteractions r ->
  exists t w' r', runs serves (RunLLMStatusWriter_Event (ug_ev u)) w t tt w' /\ runs_of w' !! uid = Some r' /\
    tally (h ++ [{| ug_ev := ug_ev u; ug_payload := ug_payload u; ug_ts := ts |}]) r'.
Proof.
  intros Hk Hr Ht (Hty & Hp & Hu) Hts _ Hn. assert (Hn' : known (llmInteractionID (ug_ev u)) r = false).
  { destruct (known _ r) eqn:E; [|done]. by apply known_elem in E. }
  destruct (usage_lands uid w r (ug_ev u) (ug_payload u) ts Hk Hr Hu Hty Hp Hts Hn') as [t H].
  eexists t, _, _. split; [exact H|]. split; [cbn; rewrite lookup_alter_eq, Hr; done|]. by apply tally_snoc.
Qed.

(** The id names the run and not the task, so an event of a later lap is taken for
    the event of the first lap with its number, and its tokens are not counted. *)
Lemma later_lap_not_counted uid lap seq ts ts' payload1 payload2 w w' t r :
  keyed w -> runs_of w !! uid = Some r -> cleanRunID uid = uid -> 
  let ev1 := {| Seq := seq; A2ATaskID := uid; TS := ts; Type_ := EventUsage; payload := payload1 |} in
  let ev2 := {| Seq := seq; A2ATaskID := lap; TS := ts'; Type_ := EventUsage; payload := payload2 |} in
  cleanRunID lap = uid -> llmInteractionID ev1 ∈ li_ID <$> LLMInteractions r ->
  runs serves (RunLLMStatusWriter_Event ev2) w t tt w' -> w' = w.
Proof.
  intros Hk Hr Huid ev1 ev2 Hlap Hin H. apply event_steps in H; [|done]. inversion H as [|p run ts0 _ _ Hrun Hn|p run Ht]; subst; [done| |done].
  exfalso. cbn in Hrun. rewrite Hr in Hrun. simplify_eq. apply not_true_iff_false in Hn. apply Hn, known_elem.
  unfold llmInteractionID in *. cbn in *. by rewrite Huid in Hin.
Qed.

(** * The bound sandbox *)

Definition owned_by (uid : string) (owners : list OwnerRef) : Prop := exists o, o ∈ owners /\ ow_uid o = uid.

(** What the pods are after an adoption: the pod of the run is its own, with the
    owners it had, or gone; all others are as they were. *)
Definition adopted_pods (run : RunObj) (pod : string) (w w' : Cluster) : Prop :=
  (forall key, key <> (ro_namespace run, pod) -> owners_of w' !! key = owners_of w !! key) /\
  match owners_of w !! (ro_namespace run, pod) with
  | None => owners_of w' = owners_of w
  | Some o => exists o', owners_of w' !! (ro_namespace run, pod) = Some o' /\ o `prefix_of` o' /\ owned_by (ro_uid run) o' /\
                         (owned_by (ro_uid run) o -> o' = o)
  end.

Lemma adopt_exact run pod w t r w' :
  runs serves (adoptSandboxPod run pod) w t r w' ->
  runs_of w' = runs_of w /\ match r with Ok _ => adopted_pods run pod w w' | Err e => w' = w /\ (e = GetPodFailed \/ e = AdoptFailed) end.
Proof.
  unfold adoptSandboxPod. intros (x & w1 & t1 & _ & Hs & H)%runs_inv. cbn in Hs. destruct Hs as [-> Hx].
  destruct x as [owners| |]; [|apply runs_inv in H as (_ & -> & <-); split; [done|]; split; [done|]; by rewrite Hx|apply runs_inv in H as (_ & -> & <-); auto].
  cbn in H. destruct (existsb _ owners) eqn:He.
  - apply runs_inv in H as (_ & -> & <-). split; [done|]. split; [done|]. rewrite Hx. exists owners.
    apply existsb_exists in He as (o & Ho & Hu%bool_decide_eq_true). split_and!; try done. exists o. split; [by apply list_elem_of_In|done].
  - apply runs_inv in H as (ok & w2 & t2 & _ & Hs & H). apply runs_inv in H as (_ & -> & <-). cbn in Hs.
    destruct ok; [|subst; auto]. destruct Hs as [_ ->]. cbn. split; [done|]. split; [intros key Hk; cbn; by rewrite lookup_insert_ne|].
    rewrite Hx. eexists. split; [cbn; by rewrite lookup_insert_eq|]. split_and!.
    + by eexists.
    + exists (run_owner run). split; [|done]. apply elem_of_app. right. by left.
    + intros (o & Ho & Hu). exfalso. apply not_true_iff_false in He. apply He, existsb_exists.
      exists o. split; [by apply list_elem_of_In|by apply bool_decide_eq_true].
Qed.

(** A bind is recorded on the Run and on the pod. On success the Run, which is
    there, names the sandbox, and the pod of that name in the Run's namespace, if
    there is one, has the Run among its owners next to all it had before, with
    nothing added where the Run was one already; no other Run and no other pod is
    touched. A failure to find the Run, to read or to adopt the pod changes nothing,
    and a refused status write leaves the Run as it was and the pod adopted. *)
Theorem observe_exact runID sandbox w t r w' :
  keyed w -> runs serves (ObserveSandboxRef runID sandbox) w t r w' ->
  match r with
  | Err (ResolveRun _) | Err GetPodFailed | Err AdoptFailed => w' = w
  | Err PatchStatusFailed => runs_of w' = runs_of w /\ exists run, runs_of w !! runID = Some run /\ adopted_pods run sandbox w w'
  | Ok _ => exists run run', runs_of w !! runID = Some run /\ adopted_pods run sandbox w w' /\
      runs_of w' = <[runID := run']> (runs_of w) /\ fst <$> SandboxRef run' = Some sandbox /\
      (run' = run \/ run' = set_sandbox sandbox (ro_namespace run) run /\ fst <$> SandboxRef run <> Some sandbox)
  end.
Proof.
  intros Hk. unfold ObserveSandboxRef. intros (t1 & x & w1 & t2 & _ & Hr & H)%runs_bind.
  apply runByUID_reads in Hr as [-> Hr]; [|done]. destruct x as [run|e]; [|by apply runs_inv in H as (_ & -> & <-)].
  apply runs_bind in H as (t3 & y & w2 & t4 & _ & Ha & H). apply adopt_exact in Ha as [Hruns Ha].
  destruct y as [[]|e]; [|apply runs_inv in H as (_ & -> & <-); by destruct Ha as [-> [-> | ->]]].
  case_bool_decide as Hsame.
  - apply runs_inv in H as (_ & -> & <-). exists run, run. split_and!; try done; [|by left].
    by rewrite Hruns, insert_id.
  - apply runs_inv in H as (ok & w3 & t5 & _ & Hs & H). apply runs_inv in H as (_ & -> & <-). cbn in Hs. rewrite (Hk _ _ Hr) in Hs.
    destruct ok; [|subst; split; [done|by exists run]]. destruct Hs as [_ ->]. exists run, (set_sandbox sandbox (ro_namespace run) run).
    split_and!; try done; [|by right]. cbn. rewrite Hruns. apply map_eq. intros k.
    destruct (decide (runID = k)) as [->|]; [by rewrite lookup_alter_eq, lookup_insert_eq, Hr|by rewrite lookup_alter_ne, lookup_insert_ne].
Qed.

(** * Concrete runs *)

Definition spent (input output : Z) : Payload :=
  {| concrete := OfUsage {| us_Model := "glm"; us_Input := input; us_Output := output; us_CacheRead := 0; us_CacheWrite := 0;
       us_Reasoning := 0; us_CostUSD := 0%float; us_DurationMS := 5; us_ResponseModel := "" |};
     json_message := None; json_tool := None; json_status := None; json_usage := None; json_artifact := None |}.
Definition usage (seq : Z) (p : Payload) : Event :=
  {| Seq := seq; A2ATaskID := "u1"; TS := Some seq; Type_ := EventUsage; payload := p |}.
Definition fresh_run : RunObj :=
  {| ro_uid := "u1"; ro_name := "run-1"; ro_namespace := "squad"; LLMInteractions := []; TotalTokenUsage := None; TraceID := "";
     SandboxRef := None |}.
Definition one_run (r : RunObj) : Cluster := {| runs_of := {["u1" := r]}; owners_of := {[("squad", "pod-1") := []]} |}.

Definition after_one : RunObj :=
  set_usage [interaction (usage 1 (spent 10 5)) {| us_Model := "glm"; us_Input := 10; us_Output := 5; us_CacheRead := 0;
      us_CacheWrite := 0; us_Reasoning := 0; us_CostUSD := 0%float; us_DurationMS := 5; us_ResponseModel := "" |} 1]
    {| InputTokens := 10; OutputTokens := 5; TotalTokens := 15 |} fresh_run.

Lemma keyed_one r : ro_uid r = "u1" -> keyed (one_run r).
Proof. intros Hr uid r' H. cbn in H. apply lookup_singleton_Some in H as [<- <-]. done. Qed.

(** The same event twice: it is counted once. *)
Lemma replayed : delivered (one_run fresh_run) [usage 1 (spent 10 5); usage 1 (spent 10 5)] (one_run after_one).
Proof.
  eapply (del_cons _ _ _ (one_run after_one)).
  - eapply (runs_do _ _ _ _ (Ok [fresh_run])); [by split|]. eapply (runs_do _ _ _ _ true); [|apply runs_ret].
    split; [by eexists|]. vm_compute. reflexivity.
  - eapply (del_cons _ _ _ (one_run after_one)); [|constructor].
    eapply (runs_do _ _ _ _ (Ok [after_one])); [by split|]. apply runs_ret.
Qed.

Lemma usage_tallied_witness :
  exists r' h, runs_of (one_run after_one) !! "u1" = Some r' /\ tally h r' /\ TotalTokenUsage r' = Some {| InputTokens := 10; OutputTokens := 5; TotalTokens := 15 |}.
Proof.
  destruct (usage_tallied "u1" (one_run fresh_run) [usage 1 (spent 10 5); usage 1 (spent 10 5)] (one_run after_one) fresh_run) as (r' & h & H1 & H2 & _).
  - by apply keyed_one.
  - exact replayed.
  - reflexivity.
  - by split.
  - exists r', h. split; [exact H1|]. split; [exact H2|]. assert (Hr : Some r' = Some after_one) by (rewrite <- H1; reflexivity).
    injection Hr as Hr. rewrite Hr. reflexivity.
Defined.

Lemma observe_exact_witness :
  exists run', fst <$> SandboxRef run' = Some "pod-1" /\
    match owners_of (one_run fresh_run) !! ("squad", "pod-1") with Some o => True | None => False end.
Proof.
  set (w1 := {| runs_of := {["u1" := fresh_run]}; owners_of := {[("squad", "pod-1") := [run_owner fresh_run]]} |}).
  destruct (observe_exact "u1" "pod-1" (one_run fresh_run)
    [Ev ListRuns (Ok [fresh_run]); Ev (GetPod "squad" "pod-1") (Found []);
     Ev (PatchOwners "squad" "pod-1" [run_owner fresh_run]) true; Ev (PatchSandboxRef "u1" "pod-1" "squad") true]
    (Ok tt) (on_run "u1" (set_sandbox "pod-1" "squad") w1)) as (run & run' & _ & _ & _ & H & _).
  - by apply keyed_one.
  - eapply (runs_do _ _ _ _ (Ok [fresh_run])); [by split|]. eapply (runs_do _ _ _ _ (Found [])); [by split|].
    eapply (runs_do _ _ _ _ true _ w1); [split; [by eexists|vm_compute; reflexivity]|].
    eapply (runs_do _ _ _ _ true); [split; [by eexists|reflexivity]|]. apply runs_ret.
  - exists run'. split; [exact H|exact I].
Defined.
