(* ===== verification/Adopt.v ===== *)
(** What becomes of the sandbox pods a new leader finds (src/pkg/warmpool/adopt.go):
    the adoption pass at the start, the sweep of settled runs' pods and the sweep of
    ended runs' pods. Programs over the Kubernetes client, the pool, the settlement
    reader, the follow oracle and the run oracle; readers are there. *)
From S2P Require Import Prelude Calls Pool.
Open Scope Z_scope.
Open Scope k8s_scope.

(** * Pods *)

Definition AnnPoolRuntimeClass : string := "k8squad.io/pool-runtime-class".
Definition AnnPoolImage : string := "k8squad.io/pool-image".
Definition AnnPoolNamespace : string := "k8squad.io/pool-namespace".
Definition AnnPoolCapabilityHash : string := "k8squad.io/pool-capability-hash".
Definition AnnPoolProjectPVC : string := "k8squad.io/pool-project-pvc".
Definition AnnRunID : string := "k8squad.io/run-id".

(** [pd_ready]: the first Ready condition, its truth and its transition time. *)
Record Pod : Set := {
  pd_name : string; pd_namespace : string; pd_annotations : gmap string string; pd_created : Z;
  pd_deleting : bool; pd_ready : option (bool * Z) }.

Definition podReady (p : Pod) : bool := match pd_ready p with Some (b, _) => b | None => false end.
Definition podReadySince (p : Pod) : Z := match pd_ready p with Some (_, t) => t | None => 0 end.

Definition runIDFromPod (p : Pod) : string := default "" (pd_annotations p !! AnnRunID).

Definition poolKeyFromAnnotations (p : Pod) : option PoolKey :=
  match pd_annotations p !! AnnPoolRuntimeClass, pd_annotations p !! AnnPoolImage, pd_annotations p !! AnnPoolNamespace,
        pd_annotations p !! AnnPoolCapabilityHash, pd_annotations p !! AnnPoolProjectPVC with
  | Some rc, Some img, Some ns, Some ch, Some pvc =>
      Some {| RuntimeClass := rc; Image := img; Namespace := ns; CapabilityHash := ch; ProjectPVC := pvc |}
  | _, _, _, _, _ => None
  end.

(** What Boot stamps. *)
Definition stamp (k : PoolKey) : gmap string string :=
  <[AnnPoolRuntimeClass := RuntimeClass k]> (<[AnnPoolImage := Image k]> (<[AnnPoolNamespace := Namespace k]>
  (<[AnnPoolCapabilityHash := CapabilityHash k]> (<[AnnPoolProjectPVC := ProjectPVC k]> ∅)))).

Record AdoptReport : Set := { Adopted : nat; Reaped : nat; LeftRunOwned : nat }.
Definition no_report : AdoptReport := {| Adopted := 0; Reaped := 0; LeftRunOwned := 0 |}.
Definition one_adopted (r : AdoptReport) : AdoptReport :=
  {| Adopted := S (Adopted r); Reaped := Reaped r; LeftRunOwned := LeftRunOwned r |}.
Definition one_reaped (r : AdoptReport) : AdoptReport :=
  {| Adopted := Adopted r; Reaped := S (Reaped r); LeftRunOwned := LeftRunOwned r |}.
Definition one_left (r : AdoptReport) : AdoptReport :=
  {| Adopted := Adopted r; Reaped := Reaped r; LeftRunOwned := S (LeftRunOwned r) |}.

Inductive SecretRead : Set := SecretFound | SecretNotFound | SecretError.

Inductive Call : Type -> Type :=
| ListPods : Call (option (list Pod))
| GetSecret (ns name : string) : Call SecretRead
| Settled (run : string) : Call (option bool)
| IsFollowing (run : string) : Call bool
| TerminalOrGone (run : string) : Call (option bool)
| AdoptSandbox (sb : Sandbox) : Call bool
| DeletePod (ns name : string) : Call bool.

Notation Prog := (Calls.Prog Call).
Notation ret := Ret.

(** Deleted, or gone already; a failure is collected. *)
Definition reapPod (p : Pod) : Prog bool := call (DeletePod (pd_namespace p) (pd_name p)).

(** [None]: the reader or the delete failed. *)
Definition reapIfSettled (p : Pod) : Prog (option bool) :=
  if bool_decide (runIDFromPod p = "") then ret (Some false)
  else
    let* settled := call (Settled (runIDFromPod p)) in
    match settled with
    | None => ret None
    | Some false => ret (Some false)
    | Some true =>
        let* following := call (IsFollowing (runIDFromPod p)) in
        if following : bool then ret (Some false)
        else let* deleted := reapPod p in ret (if deleted : bool then Some true else None)
    end.

(** A pod that is someone's, by its Secret: reaped if its run settled, else left.
    The report, and whether an error was collected. *)
Definition owned_pod (p : Pod) (report : AdoptReport) : Prog (AdoptReport * bool) :=
  let* reaped := reapIfSettled p in
  ret (match reaped with
       | None => (report, true)
       | Some true => (one_reaped report, false)
       | Some false => (one_left report, false)
       end).

Definition reap (p : Pod) (report : AdoptReport) : Prog (AdoptReport * bool) :=
  let* deleted := reapPod p in ret (if deleted : bool then (one_reaped report, false) else (report, true)).

(** One pod of the adoption pass. *)
Definition adopt_pod (managed : list PoolKey) (p : Pod) (report : AdoptReport) : Prog (AdoptReport * bool) :=
  if pd_deleting p then ret (report, false)
  else
    match poolKeyFromAnnotations p with
    | None => reap p report
    | Some key =>
        if negb (bool_decide (key ∈ managed)) then reap p report
        else
          let* secret := call (GetSecret (pd_namespace p) (pd_name p)) in
          match secret with
          | SecretFound => owned_pod p report
          | SecretError => ret (report, true)
          | SecretNotFound =>
              if podReady p then
                let* adopted := call (AdoptSandbox {| ID := pd_name p; Key := key; State := StateReady; BoundRun := "";
                                                     CreatedAt := pd_created p; ReadyAt := podReadySince p |}) in
                ret (if adopted : bool then one_adopted report else report, false)
              else reap p report
          end
    end.

(** One pod of the sweep of settled runs, and of the sweep of ended runs. *)
Definition settled_pod (managed : list PoolKey) (p : Pod) (report : AdoptReport) : Prog (AdoptReport * bool) :=
  if pd_deleting p then ret (report, false)
  else
    match poolKeyFromAnnotations p with
    | None => ret (report, false)
    | Some key =>
        if negb (bool_decide (key ∈ managed)) then ret (report, false)
        else
          let* secret := call (GetSecret (pd_namespace p) (pd_name p)) in
          match secret with
          | SecretNotFound => ret (report, false)
          | SecretError => ret (report, true)
          | SecretFound => owned_pod p report
          end
    end.

Definition terminal_pod (p : Pod) (report : AdoptReport) : Prog (AdoptReport * bool) :=
  if pd_deleting p then ret (report, false)
  else if bool_decide (runIDFromPod p = "") then ret (report, false)
  else
    let* done := call (TerminalOrGone (runIDFromPod p)) in
    match done with
    | None => ret (report, true)
    | Some false => ret (one_left report, false)
    | Some true => reap p report
    end.

(** A pass: the report, and how many errors were collected. *)
Fixpoint pass (step : Pod -> AdoptReport -> Prog (AdoptReport * bool)) (pods : list Pod) (report : AdoptReport) (errs : nat)
    : Prog (AdoptReport * nat) :=
  match pods with
  | [] => ret (report, errs)
  | p :: pods =>
      let* (report, err) := step p report in
      pass step pods report (if err : bool then S errs else errs)
  end.

(** sort.SliceStable by the creation time. *)
Fixpoint insert_pod (p : Pod) (l : list Pod) : list Pod :=
  match l with
  | [] => [p]
  | q :: l => if pd_created q <? pd_created p then q :: insert_pod p l else p :: q :: l
  end.
Definition oldest_first (l : list Pod) : list Pod := foldr insert_pod [] l.

(** [None]: the pods could not be listed. *)
Definition AdoptOrReap (managed : list PoolKey) : Prog (option (AdoptReport * nat)) :=
  let* pods := call ListPods in
  match pods with
  | None => ret None
  | Some pods => let* r := pass (adopt_pod managed) (oldest_first pods) no_report 0 in ret (Some r)
  end.

Definition SweepSettledRunOwned (managed : list PoolKey) : Prog (option (AdoptReport * nat)) :=
  let* pods := call ListPods in
  match pods with
  | None => ret None
  | Some pods => let* r := pass (settled_pod managed) pods no_report 0 in ret (Some r)
  end.

Definition SweepTerminalRunOwned : Prog (option (AdoptReport * nat)) :=
  let* pods := call ListPods in
  match pods with
  | None => ret None
  | Some pods => let* r := pass terminal_pod pods no_report 0 in ret (Some r)
  end.
