(* ===== verification/AdoptProps.v ===== *)
(** The adoption pass and the sweeps: no pod is deleted without a proof, none is
    adopted that may be a run's, and none is kept without a reason. *)
From S2P Require Import Prelude Calls Pool Adopt.
Open Scope Z_scope.
Open Scope k8s_scope.

Implicit Types (hist h : list (Event Call)).

Lemma insert_pod_permutation p l : insert_pod p l ≡ₚ p :: l.
Proof.
  induction l as [|q l IH]; cbn; [done|]. destruct (_ <? _); [|done]. rewrite IH. apply Permutation_swap.
Qed.

Lemma oldest_first_permutation l : oldest_first l ≡ₚ l.
Proof. induction l as [|p l IH]; cbn; [done|]. by rewrite insert_pod_permutation, IH. Qed.

(** Adoption goes by age. *)
Lemma oldest_first_sorted l : StronglySorted (fun p q => pd_created p <= pd_created q) (oldest_first l).
Proof.
  unfold oldest_first. induction l as [|p l IH]; cbn; [constructor|]. revert IH. generalize (foldr insert_pod [] l). clear l.
  induction 1 as [|q l' Hs IH Hf]; cbn; [repeat constructor|].
  destruct (Z.ltb_spec (pd_created q) (pd_created p)).
  - constructor; [done|]. rewrite insert_pod_permutation. constructor; [lia|done].
  - constructor; [by constructor|]. constructor; [done|]. eapply Forall_impl; [exact Hf|]. cbn. lia.
Qed.

(** What Boot stamps decodes to the key, whatever else is annotated. *)
Lemma stamp_decodes p k : stamp k ⊆ pd_annotations p -> poolKeyFromAnnotations p = Some k.
Proof.
  intros Hs. unfold poolKeyFromAnnotations.
  assert (H : forall a v, stamp k !! a = Some v -> pd_annotations p !! a = Some v) by (intros; by eapply lookup_weaken).
  rewrite (H AnnPoolRuntimeClass (RuntimeClass k) eq_refl), (H AnnPoolImage (Image k) eq_refl), (H AnnPoolNamespace (Namespace k) eq_refl),
    (H AnnPoolCapabilityHash (CapabilityHash k) eq_refl), (H AnnPoolProjectPVC (ProjectPVC k) eq_refl). by destruct k.
Qed.

(** * Grounds *)

Definition listed hist (p : Pod) : Prop := exists pods, answered hist ListPods (Some pods) /\ p ∈ pods.
Definition secret_of hist (p : Pod) (s : SecretRead) : Prop := answered hist (GetSecret (pd_namespace p) (pd_name p)) s.
Definition managed_pod (managed : list PoolKey) (p : Pod) : Prop := exists key, poolKeyFromAnnotations p = Some key /\ key ∈ managed.

(** The run of the pod settled and nobody here follows it. *)
Definition done_with hist (p : Pod) : Prop :=
  secret_of hist p SecretFound /\ runIDFromPod p <> "" /\
  answered hist (Settled (runIDFromPod p)) (Some true) /\ answered hist (IsFollowing (runIDFromPod p)) false.

(** Why a pod that is someone's is kept. *)
Definition may_be_working hist (p : Pod) : Prop :=
  runIDFromPod p = "" \/ answered hist (Settled (runIDFromPod p)) None \/ answered hist (Settled (runIDFromPod p)) (Some false) \/
  answered hist (IsFollowing (runIDFromPod p)) true.

Definition delete_asked hist (p : Pod) : Prop := exists ok, answered hist (DeletePod (pd_namespace p) (pd_name p)) ok.

Section adoption.
Context (managed : list PoolKey).

(** The calls the adoption pass may make. *)
Definition adopting hist X (c : Call X) : Prop :=
  match c with
  | DeletePod ns name => exists p, listed hist p /\ pd_deleting p = false /\ ns = pd_namespace p /\ name = pd_name p /\
      (~ managed_pod managed p \/ secret_of hist p SecretNotFound /\ podReady p = false \/ done_with hist p)
  | AdoptSandbox sb => exists p, listed hist p /\ pd_deleting p = false /\ ID sb = pd_name p /\ State sb = StateReady /\ BoundRun sb = "" /\
      poolKeyFromAnnotations p = Some (Key sb) /\ Key sb ∈ managed /\ secret_of hist p SecretNotFound /\ podReady p = true
  | TerminalOrGone _ => False
  | _ => True
  end.

(** The calls the sweep of settled runs may make, and that of ended runs. *)
Definition sweeping hist X (c : Call X) : Prop :=
  match c with
  | DeletePod ns name => exists p, listed hist p /\ pd_deleting p = false /\ ns = pd_namespace p /\ name = pd_name p /\
      managed_pod managed p /\ done_with hist p
  | AdoptSandbox _ | TerminalOrGone _ => False
  | _ => True
  end.
End adoption.

Definition ending hist X (c : Call X) : Prop :=
  match c with
  | ListPods => True
  | TerminalOrGone run => run <> ""
  | DeletePod ns name => exists p, listed hist p /\ pd_deleting p = false /\ ns = pd_namespace p /\ name = pd_name p /\
      runIDFromPod p <> "" /\ answered hist (TerminalOrGone (runIDFromPod p)) (Some true)
  | _ => False
  end.

(** What became of a pod, in each pass. *)
Definition adopt_fate (managed : list PoolKey) hist (p : Pod) : Prop :=
  pd_deleting p = true \/ delete_asked hist p \/
  managed_pod managed p /\ (secret_of hist p SecretError \/ secret_of hist p SecretFound /\ may_be_working hist p \/
    exists sb ok, answered hist (AdoptSandbox sb) ok /\ ID sb = pd_name p).
Definition settled_fate (managed : list PoolKey) hist (p : Pod) : Prop :=
  pd_deleting p = true \/ delete_asked hist p \/ ~ managed_pod managed p \/ secret_of hist p SecretError \/
  secret_of hist p SecretNotFound \/ may_be_working hist p.
Definition terminal_fate hist (p : Pod) : Prop :=
  pd_deleting p = true \/ delete_asked hist p \/ runIDFromPod p = "" \/ answered hist (TerminalOrGone (runIDFromPod p)) None \/
  answered hist (TerminalOrGone (runIDFromPod p)) (Some false).

Ltac prefixes := repeat match goal with
  | H : ?h `prefix_of` ?h', A : answered ?h _ _ |- _ => apply (answered_prefix _ _ _ _ H) in A
  end.

Lemma listed_pod_prefix hist h p : hist `prefix_of` h -> listed hist p -> listed h p.
Proof. intros Hp (pods & ? & ?). exists pods. eauto using answered_prefix. Qed.

Lemma delete_asked_prefix hist h p : hist `prefix_of` h -> delete_asked hist p -> delete_asked h p.
Proof. intros Hp [ok ?]. exists ok. eauto using answered_prefix. Qed.

Lemma may_be_working_prefix hist h p : hist `prefix_of` h -> may_be_working hist p -> may_be_working h p.
Proof. intros Hp. unfold may_be_working. intuition eauto using answered_prefix. Qed.

Lemma adopt_fate_prefix managed hist h p : hist `prefix_of` h -> adopt_fate managed hist p -> adopt_fate managed h p.
Proof.
  intros Hp [?|[?|(? & [?|[[? ?]|(sb & ok & ? & ?)]])]]; unfold adopt_fate; [by left|right; left; by eapply delete_asked_prefix|..];
    right; right; (split; [done|]); [left|right; left|right; right]; unfold secret_of in *; eauto using answered_prefix, may_be_working_prefix.
Qed.
Lemma settled_fate_prefix managed hist h p : hist `prefix_of` h -> settled_fate managed hist p -> settled_fate managed h p.
Proof.
  intros Hp. unfold settled_fate, secret_of. intuition eauto using answered_prefix, delete_asked_prefix, may_be_working_prefix.
Qed.
Lemma terminal_fate_prefix hist h p : hist `prefix_of` h -> terminal_fate hist p -> terminal_fate h p.
Proof. intros Hp. unfold terminal_fate. intuition eauto using answered_prefix, delete_asked_prefix. Qed.

(** * Steps *)

Section steps.
Context (may : list (Event Call) -> forall X, Call X -> Prop).
Notation ok := (obeys may any_answer).

(** A pod that may be deleted once its run settled and is not followed. *)
Lemma ok_reapIfSettled p hist :
  (forall h run, hist `prefix_of` h -> may h _ (Settled run) /\ may h _ (IsFollowing run)) ->
  (forall h, hist `prefix_of` h -> runIDFromPod p <> "" -> answered h (Settled (runIDFromPod p)) (Some true) ->
     answered h (IsFollowing (runIDFromPod p)) false -> may h _ (DeletePod (pd_namespace p) (pd_name p))) ->
  ok (fun h _ => delete_asked h p \/ may_be_working h p) hist (reapIfSettled p).
Proof.
  intros Hq Hd. unfold reapIfSettled. case_bool_decide as Hr; [right; by left|]. cbn [obeys pbind call]. split; [by apply Hq|].
  intros [[]|] _; [|right; right; right; left; apply answered_last|right; right; left; apply answered_last].
  cbn [obeys pbind call]. split; [apply Hq; by eexists|]. intros [] _; [right; right; right; right; apply answered_last|].
  cbn [obeys pbind call reapPod]. split.
  { apply Hd; [rewrite <- app_assoc; by eexists|done|apply answered_app, answered_last|apply answered_last]. }
  intros x _. left. exists x. apply answered_last.
Qed.

(** A pass treats every pod, in a history that has the list. *)
Lemma ok_pods (fate : list (Event Call) -> Pod -> Prop) step all :
  (forall hist h p, hist `prefix_of` h -> fate hist p -> fate h p) ->
  (forall p report hist, p ∈ all -> answered hist ListPods (Some all) -> ok (fun h _ => fate h p) hist (step p report)) ->
  forall pods report errs hist, Forall (fun p => p ∈ all) pods -> answered hist ListPods (Some all) ->
  ok (fun h _ => Forall (fate h) pods) hist (pass step pods report errs).
Proof.
  intros Hpre Hstep. induction pods as [|p pods IH]; intros report errs hist Hin Hl; [constructor|].
  inversion_clear Hin as [|? ? Hp Hin']. cbn [pass]. apply obeys_bind. eapply obeys_weaken; [by apply Hstep|].
  intros h [report' err] Hh Hf. eapply obeys_weaken; [apply IH; [done|by eapply answered_prefix]|].
  intros h' r Hh' Hfs. constructor; [by eapply Hpre|done].
Qed.
End steps.

Lemma ok_adopt_pod managed p report all hist :
  p ∈ all -> answered hist ListPods (Some all) ->
  obeys (adopting managed) any_answer (fun h _ => adopt_fate managed h p) hist (adopt_pod managed p report).
Proof.
  intros Hin Hl. assert (Hls : forall h, hist `prefix_of` h -> listed h p) by (intros h Hh; exists all; split; [by eapply answered_prefix|done]).
  unfold adopt_pod. destruct (pd_deleting p) eqn:Hdel; [by left|].
  assert (Hreap : forall h, hist `prefix_of` h ->
    (~ managed_pod managed p \/ secret_of h p SecretNotFound /\ podReady p = false) ->
    obeys (adopting managed) any_answer (fun h _ => adopt_fate managed h p) h (reap p report)).
  { intros h Hh Hg. cbn. split; [exists p; split; [by apply Hls|]; split_and!; try done; tauto|].
    intros x _. right. left. exists x. apply answered_last. }
  destruct (poolKeyFromAnnotations p) as [key|] eqn:Hk; [|apply Hreap; [done|]; left; intros (? & ? & _); congruence].
  case_bool_decide as Hm; cbn [negb]; [|apply Hreap; [done|]; left; intros (? & ? & ?); congruence].
  assert (Hmp : managed_pod managed p) by by exists key.
  cbn [obeys pbind call]. split; [done|]. intros [] _.
  - unfold owned_pod. apply obeys_bind. eapply obeys_weaken.
    + apply ok_reapIfSettled; [done|]. intros h Hh Hr Hs Hf. exists p. split; [apply Hls; etransitivity; [by eexists|exact Hh]|].
      split_and!; try done. right. right. split_and!; try done. eapply answered_prefix; [exact Hh|apply answered_last].
    + intros h r Hh [Hd|Hw]; [right; by left|]. right. right. split; [done|]. right. left. split; [|done].
      eapply answered_prefix; [exact Hh|apply answered_last].
  - destruct (podReady p) eqn:Hready.
    + cbn [obeys pbind call]. split.
      * exists p. split; [apply Hls; by eexists|]. split_and!; try done. apply answered_last.
      * intros ok _. right. right. split; [done|]. right. right. eexists _, ok. split; [apply answered_last|done].
    + apply Hreap; [by eexists|]. right. split; [apply answered_last|done].
  - right. right. split; [done|]. left. apply answered_last.
Qed.

Lemma ok_settled_pod managed p report all hist :
  p ∈ all -> answered hist ListPods (Some all) ->
  obeys (sweeping managed) any_answer (fun h _ => settled_fate managed h p) hist (settled_pod managed p report).
Proof.
  intros Hin Hl. unfold settled_pod. destruct (pd_deleting p) eqn:Hdel; [by left|].
  destruct (poolKeyFromAnnotations p) as [key|] eqn:Hk; [|right; right; left; intros (? & ? & _); congruence].
  case_bool_decide as Hm; cbn [negb]; [|right; right; left; intros (? & ? & ?); congruence].
  cbn [obeys pbind call]. split; [done|]. intros [] _.
  - unfold owned_pod. apply obeys_bind. eapply obeys_weaken.
    + apply ok_reapIfSettled; [done|]. intros h Hh Hr Hs Hf. exists p. split.
      { exists all. split; [|done]. eapply answered_prefix; [exact Hh|]. by apply answered_app. }
      split_and!; try done; [by exists key|]. split_and!; try done. eapply answered_prefix; [exact Hh|apply answered_last].
    + intros h r Hh [Hd|Hw]; [right; by left|]. by do 5 right.
  - do 4 right. left. apply answered_last.
  - do 3 right. left. apply answered_last.
Qed.

Lemma ok_terminal_pod p report all hist :
  p ∈ all -> answered hist ListPods (Some all) ->
  obeys ending any_answer (fun h _ => terminal_fate h p) hist (terminal_pod p report).
Proof.
  intros Hin Hl. unfold terminal_pod. destruct (pd_deleting p) eqn:Hdel; [by left|].
  case_bool_decide as Hr; [by right; right; left|]. cbn [obeys pbind call]. split; [done|]. intros [[]|] _.
  - cbn. split.
    + exists p. split; [exists all; split; [by apply answered_app|done]|]. split_and!; try done. apply answered_last.
    + intros x _. right. left. exists x. apply answered_last.
  - do 4 right. apply answered_last.
  - do 3 right. left. apply answered_last.
Qed.

(** * The passes *)

Lemma ok_AdoptOrReap managed :
  obeys (adopting managed) any_answer (fun h r => match r with
    | None => answered h ListPods None
    | Some _ => exists pods, answered h ListPods (Some pods) /\ Forall (adopt_fate managed h) pods
    end) [] (AdoptOrReap managed).
Proof.
  unfold AdoptOrReap. cbn [obeys pbind call]. split; [done|]. intros [pods|] _; [|apply answered_last].
  apply obeys_bind. eapply obeys_weaken.
  - apply (ok_pods (adopting managed) (adopt_fate managed) _ pods); [apply adopt_fate_prefix| | |apply answered_last].
    + intros p report hist Hin Hl. by eapply ok_adopt_pod.
    + apply Forall_forall. intros p Hp. by rewrite <- (oldest_first_permutation pods).
  - intros h r Hh Hf. exists pods. split; [eapply answered_prefix; [exact Hh|apply answered_last]|].
    by rewrite <- (oldest_first_permutation pods).
Qed.

Lemma ok_SweepSettled managed :
  obeys (sweeping managed) any_answer (fun h r => match r with
    | None => answered h ListPods None
    | Some _ => exists pods, answered h ListPods (Some pods) /\ Forall (settled_fate managed h) pods
    end) [] (SweepSettledRunOwned managed).
Proof.
  unfold SweepSettledRunOwned. cbn [obeys pbind call]. split; [done|]. intros [pods|] _; [|apply answered_last].
  apply obeys_bind. eapply obeys_weaken.
  - apply (ok_pods (sweeping managed) (settled_fate managed) _ pods); [apply settled_fate_prefix| |by apply Forall_forall|apply answered_last].
    intros p report hist Hin Hl. by eapply ok_settled_pod.
  - intros h r Hh Hf. exists pods. split; [eapply answered_prefix; [exact Hh|apply answered_last]|done].
Qed.

Lemma ok_SweepTerminal :
  obeys ending any_answer (fun h r => match r with
    | None => answered h ListPods None
    | Some _ => exists pods, answered h ListPods (Some pods) /\ Forall (terminal_fate h) pods
    end) [] SweepTerminalRunOwned.
Proof.
  unfold SweepTerminalRunOwned. cbn [obeys pbind call]. split; [done|]. intros [pods|] _; [|apply answered_last].
  apply obeys_bind. eapply obeys_weaken.
  - apply (ok_pods ending terminal_fate _ pods); [apply terminal_fate_prefix| |by apply Forall_forall|apply answered_last].
    intros p report hist Hin Hl. by eapply ok_terminal_pod.
  - intros h r Hh Hf. exists pods. split; [eapply answered_prefix; [exact Hh|apply answered_last]|done].
Qed.

(** What a pass did, from what it obeys. *)
Lemma obeyed {W A} may post (h : forall X, Call X -> W -> X -> W -> Prop) (p : Prog A) w t a w' :
  obeys may any_answer post [] p -> runs h p w t a w' -> trace_ok may any_answer [] t /\ post t a.
Proof.
  intros Ho Hr. by eapply (obeys_runs may any_answer h (fun _ _ => True)) in Hr as (_ & Ht & Hp).
Qed.

(** A restart adopts warmth and spares the working. Whatever the cluster and the
    readers answer, the first pass of a new leader deletes a pod only if it is
    listed, not already going, and either of no managed key, or without a Secret
    and not ready, or of a run that settled and is not followed here; it adopts a
    pod only as ready and unbound, if its stamp decodes to a managed key, it has no
    Secret and is ready; and of every listed pod of a managed key that it keeps it
    has a reason: a failed read, an adoption, or a run that may be working. A
    failure over one pod never shields another. *)
Theorem adoption_by_the_book managed {W} (h : forall X, Call X -> W -> X -> W -> Prop) w t r w' :
  runs h (AdoptOrReap managed) w t r w' ->
  trace_ok (adopting managed) any_answer [] t /\
  match r with
  | None => answered t ListPods None
  | Some _ => exists pods, answered t ListPods (Some pods) /\ Forall (adopt_fate managed t) pods
  end.
Proof. intros H. exact (obeyed _ _ _ _ _ _ _ _ (ok_AdoptOrReap managed) H). Qed.

(** The sweeps delete on proof and keep on reason. The sweep of settled runs
    deletes a pod only if it is listed, not already going, of a managed key, with a
    Secret and a run that settled and is not followed here; the sweep of ended runs
    only if it carries a run that is terminal or gone. Every other listed pod is
    kept, and a pod that is kept has a reason of the same list: going, no run or key
    of its own, a read that failed or answered no. *)
Theorem sweeps_by_the_book managed {W} (h : forall X, Call X -> W -> X -> W -> Prop) w t r w' t2 r2 w2 :
  runs h (SweepSettledRunOwned managed) w t r w' -> runs h SweepTerminalRunOwned w' t2 r2 w2 ->
  (trace_ok (sweeping managed) any_answer [] t /\
   match r with
   | None => answered t ListPods None
   | Some _ => exists pods, answered t ListPods (Some pods) /\ Forall (settled_fate managed t) pods
   end) /\
  trace_ok ending any_answer [] t2 /\
  match r2 with
  | None => answered t2 ListPods None
  | Some _ => exists pods, answered t2 ListPods (Some pods) /\ Forall (terminal_fate t2) pods
  end.
Proof.
  intros H1 H2. split; [exact (obeyed _ _ _ _ _ _ _ _ (ok_SweepSettled managed) H1)|exact (obeyed _ _ _ _ _ _ _ _ ok_SweepTerminal H2)].
Qed.

(** * Concrete passes *)

Definition gvisor : PoolKey :=
  {| RuntimeClass := "gvisor"; Image := "sandbox:1"; Namespace := "squad"; CapabilityHash := ""; ProjectPVC := "" |}.
Definition on_demand : PoolKey :=
  {| RuntimeClass := "gvisor"; Image := "sandbox:1"; Namespace := "squad"; CapabilityHash := "c1"; ProjectPVC := "shop" |}.
Definition warm : Pod :=
  {| pd_name := "sandbox-1"; pd_namespace := "squad"; pd_annotations := stamp gvisor; pd_created := 5; pd_deleting := false;
     pd_ready := Some (true, 7) |}.
Definition bound (key : PoolKey) : Pod :=
  {| pd_name := "sandbox-2"; pd_namespace := "squad"; pd_annotations := <[AnnRunID := "u1"]> (stamp key); pd_created := 4;
     pd_deleting := false; pd_ready := Some (true, 6) |}.

Lemma stamped_run k : runIDFromPod (bound k) = "u1" /\ poolKeyFromAnnotations (bound k) = Some k.
Proof.
  split; [done|]. apply stamp_decodes. cbn. apply insert_subseteq. done.
Qed.

Definition adopted_warm : Sandbox :=
  {| ID := "sandbox-1"; Key := gvisor; State := StateReady; BoundRun := ""; CreatedAt := 5; ReadyAt := 7 |}.

(** A warm pod and the pod of a run that goes on: one adopted, one left. *)
Definition restart_script : list (Event Call) :=
  [Ev ListPods (Some [warm; bound gvisor]); Ev (GetSecret "squad" "sandbox-2") SecretFound; Ev (Settled "u1") (Some false);
   Ev (GetSecret "squad" "sandbox-1") SecretNotFound; Ev (AdoptSandbox adopted_warm) true].

Lemma adoption_by_the_book_witness :
  trace_ok (adopting [gvisor]) any_answer [] restart_script /\
  exists pods, answered restart_script ListPods (Some pods) /\ Forall (adopt_fate [gvisor] restart_script) pods.
Proof.
  apply (adoption_by_the_book [gvisor] scripted restart_script restart_script
    (Some ({| Adopted := 1; Reaped := 0; LeftRunOwned := 1 |}, 0%nat)) []).
  unfold restart_script. play.
Defined.

Definition settled_script : list (Event Call) :=
  [Ev ListPods (Some [warm; bound gvisor]); Ev (GetSecret "squad" "sandbox-1") SecretNotFound;
   Ev (GetSecret "squad" "sandbox-2") SecretFound; Ev (Settled "u1") (Some true); Ev (IsFollowing "u1") false;
   Ev (DeletePod "squad" "sandbox-2") true].
Definition terminal_script : list (Event Call) :=
  [Ev ListPods (Some [warm; bound gvisor]); Ev (TerminalOrGone "u1") None].

Lemma sweeps_by_the_book_witness :
  trace_ok (sweeping [gvisor]) any_answer [] settled_script /\ trace_ok ending any_answer [] terminal_script.
Proof.
  destruct (sweeps_by_the_book [gvisor] scripted (settled_script ++ terminal_script) settled_script
    (Some ({| Adopted := 0; Reaped := 1; LeftRunOwned := 0 |}, 0%nat)) terminal_script terminal_script (Some (no_report, 1%nat)) [])
    as [[H1 _] [H2 _]]; [unfold settled_script, terminal_script; cbn [app]; play|unfold terminal_script; play|split; [exact H1|exact H2]].
Defined.

(** ** Where a working run loses its sandbox *)

(** A pod of a key no pool manages is deleted at the restart without a look at its
    Secret or its run: a sandbox booted on demand for a run that goes on. *)
Lemma on_demand_run_killed :
  let t := [Ev ListPods (Some [bound on_demand]); Ev (DeletePod "squad" "sandbox-2") true] in
  runs scripted (AdoptOrReap [gvisor]) t t (Some ({| Adopted := 0; Reaped := 1; LeftRunOwned := 0 |}, 0%nat)) [].
Proof. cbv zeta. play. Qed.
