(* ===== verification/Follow.v ===== *)
(** Following a dispatched task: the client that drains its stream
    (src/internal/a2a/client.go), the dispatcher with its count of live follows
    (dispatcher.go), what the operator does when a follow ends (the OnDone of
    src/cmd/operator/main.go), and the re-attachment of the follows a restart cut
    off (src/pkg/coord/a2areattach.go, src/pkg/controller/rundrive/reattach.go). *)
From S2P Require Import Prelude GoStr Calls Machine ProdStore EndpointGate Wire.
Open Scope Z_scope.
Open Scope k8s_scope.

(** * The client *)

Record TaskStatus : Set := { ts_State : string; ts_Reason : string }.
Record Result : Set := { Status : TaskStatus; Artifacts : list ArtifactRef; LastSeq : Z }.
Definition no_status : TaskStatus := {| ts_State := ""; ts_Reason := "" |}.
Definition no_result : Result := {| Status := no_status; Artifacts := []; LastSeq := 0 |}.

Definition artifactRef (p : Payload) : option ArtifactRef :=
  match concrete p with
  | OfArtifact v => Some v
  | ToArtifact v => v
  | _ => match json_artifact p with
         | Some v => if bool_decide (af_URI v = "" /\ af_SHA256 v = "" /\ af_Kind v = "") then None else Some v
         | None => None
         end
  end.

(** What the loop finds: the context done, the stream closed (with the context done
    in between, or with the status), or an event. *)
Inductive Select : Set := CtxDone | Closed (ctxErr : bool) (status : TaskStatus) | Got (ev : Event).

Inductive FollowErr : Set := ContextErr | SinkRejected (seq : Z).

Definition received (ev : Event) (res : Result) : Result :=
  {| Status := Status res;
     Artifacts := if bool_decide (Type_ ev = EventArtifactRef)
                  then Artifacts res ++ option_list (artifactRef (payload ev)) else Artifacts res;
     LastSeq := Seq ev |}.

(** The result once the loop is left, whether the task was canceled on the way, and
    the sink's state. [None]: it waits for more. *)
Fixpoint Follow {S : Type} (sink : S -> Event -> S * bool) (s : S) (xs : list Select) (res : Result)
    : option (Result * option FollowErr * bool) * S :=
  match xs with
  | [] => (None, s)
  | CtxDone :: _ => (Some (res, Some ContextErr, true), s)
  | Closed true _ :: _ => (Some (res, Some ContextErr, true), s)
  | Closed false st :: _ => (Some ({| Status := st; Artifacts := Artifacts res; LastSeq := LastSeq res |}, None, false), s)
  | Got ev :: xs =>
      let res := received ev res in
      let '(s, ok) := sink s ev in
      if ok : bool then Follow sink s xs res else (Some (res, Some (SinkRejected (Seq ev)), true), s)
  end.

(** chainSinks: the second is told unless the first fails. *)
Definition chainSinks {S T : Type} (a : S -> Event -> S * bool) (b : option (T -> Event -> T * bool)) (st : S * T) (ev : Event)
    : (S * T) * bool :=
  let '(s, ok) := a (fst st) ev in
  if negb ok then ((s, snd st), false)
  else match b with
       | None => ((s, snd st), true)
       | Some b => let '(t, ok) := b (snd st) ev in ((s, t), ok)
       end.

(** * The dispatcher and the end of a follow *)

Definition SettleOutcome (st : TaskStatus) (followErr : option string) : string :=
  match followErr with
  | Some _ => SettleOutcomeFollowError
  | None => if bool_decide (ts_State st = TaskCompleted) then SettleOutcomeSucceeded else SettleOutcomeFailed
  end.

(** Where a follow's goroutine stands: draining, in the steps of OnDone, leaving. *)
Inductive Phase : Set :=
| Streaming
| Settling (st : TaskStatus) (followErr : option string)
| Freeing | Releasing | Leaving.
Record Follower : Set := { fw_task : string; fw_run : string; fw_phase : Phase }.
Definition at_phase (p : Phase) (f : Follower) : Follower := {| fw_task := fw_task f; fw_run := fw_run f; fw_phase := p |}.

Definition followEnter (run : string) (live : gmap string Z) : gmap string Z := <[run := default 0 (live !! run) + 1]> live.
Definition followLeave (run : string) (live : gmap string Z) : gmap string Z :=
  let n := default 0 (live !! run) in if n <=? 1 then delete run live else <[run := n - 1]> live.
Definition IsFollowing (live : gmap string Z) (run : string) : bool := 0 <? default 0 (live !! run).

(** What OnDone did, in order. *)
Inductive Act : Set :=
| Marked (task run outcome : string) (written : bool)
| Freed (run : string)
| Released (run : string).

(** The operator's process and the database behind it. *)
Record Operator : Set := {
  live : gmap string Z; followers : list Follower; gate : EndpointGate; db : CoordDB; acts : list Act }.

Inductive SubmitErr : Set := BuildFailed | BeginFailed.

(** The task is built, submitted, and followed in the background. *)
Definition Submit (task run : string) (built accepted : bool) (o : Operator) : Operator * option SubmitErr :=
  if negb built then (o, Some BuildFailed)
  else if negb accepted then (o, Some BeginFailed)
  else ({| live := followEnter run (live o);
           followers := followers o ++ [{| fw_task := task; fw_run := run; fw_phase := Streaming |}];
           gate := gate o; db := db o; acts := acts o |}, None).

Definition OperatorPrincipal : string := "ksquad-operator".

(** One step of OnDone; [fault]: the statement of the marker failed. The last one
    takes the follow off the count. *)
Definition on_done (now : Z) (fault : bool) (f : Follower) (o : Operator) : Operator * option Follower :=
  let upd d a := {| live := live o; followers := followers o; gate := gate o; db := d; acts := acts o ++ [a] |} in
  match fw_phase f with
  | Streaming => (o, Some f)
  | Settling st err =>
      let outcome := SettleOutcome st err in
      let reason := match err with Some e => e | None => ts_Reason st end in
      let next := match err with Some _ => Leaving | None => Freeing end in
      (if fault then upd (db o) (Marked (fw_task f) (fw_run f) outcome false)
       else upd (fst (Settle OperatorPrincipal now (db o) (fw_task f) (fw_run f) outcome reason))
                (Marked (fw_task f) (fw_run f) outcome true),
       Some (at_phase next f))
  | Freeing =>
      ({| live := live o; followers := followers o; gate := ReleaseByRun (fw_run f) (gate o); db := db o; acts := acts o ++ [Freed (fw_run f)] |},
       Some (at_phase Releasing f))
  | Releasing => (upd (db o) (Released (fw_run f)), Some (at_phase Leaving f))
  | Leaving =>
      ({| live := followLeave (fw_run f) (live o); followers := followers o; gate := gate o; db := db o; acts := acts o |}, None)
  end.

Definition set_followers (fs : list Follower) (o : Operator) : Operator :=
  {| live := live o; followers := fs; gate := gate o; db := db o; acts := acts o |}.

(** A submission, the end of a stream, a step of OnDone, what others do to the
    database, and a restart, which keeps only the database. *)
Inductive Move : Type :=
| Submits (task run : string) (built accepted : bool)
| Ends (i : nat) (st : TaskStatus) (followErr : option string)
| Goes (i : nat) (now : Z) (fault : bool)
| Others (f : CoordDB -> CoordDB)
| Restarts (maxConcurrent : Z).

Definition move (o : Operator) (m : Move) : Operator :=
  match m with
  | Submits task run built accepted => fst (Submit task run built accepted o)
  | Ends i st err =>
      match followers o !! i with
      | Some f => match fw_phase f with
                  | Streaming => set_followers (<[i := at_phase (Settling st err) f]> (followers o)) o
                  | _ => o
                  end
      | None => o
      end
  | Goes i now fault =>
      match followers o !! i with
      | Some f =>
          let '(o', f') := on_done now fault f o in
          set_followers (take i (followers o) ++ option_list f' ++ drop (S i) (followers o)) o'
      | None => o
      end
  | Others f => {| live := live o; followers := followers o; gate := gate o; db := f (db o); acts := acts o |}
  | Restarts n => {| live := ∅; followers := []; gate := NewEndpointGate n; db := db o; acts := acts o |}
  end.

Definition started (n : Z) (d : CoordDB) : Operator :=
  {| live := ∅; followers := []; gate := NewEndpointGate n; db := d; acts := [] |}.

(** * Re-attachment *)

Record ReattachTarget : Set := { rt_task : string; rt_run : string }.

(** An unsettled lap of the window whose item's claim has not ended badly. *)
Definition reattachable (now window : Z) (d : CoordDB) (l : Lap) : bool :=
  bool_decide (settled_at l = None) && (now - window <? dispatched_at l) &&
  match claim d !! lap_item l with
  | Some c => negb (bool_decide (reconcile_step c ∈ [StepCancelled; StepFailed]))
  | None => false
  end.

(** ORDER BY work_item_id, dispatched_at DESC, a2a_task_id DESC *)
Definition reattach_order (a b : Lap) : Prop :=
  String.le (lap_item a) (lap_item b) /\ (lap_item a = lap_item b -> lap_order a b).
#[export] Instance reattach_order_dec a b : Decision (reattach_order a b).
Proof. unfold reattach_order. apply _. Defined.

(** DISTINCT ON (work_item_id): the first of each run of rows of an item. *)
Fixpoint distinct_on (last : option string) (l : list Lap) : list Lap :=
  match l with
  | [] => []
  | x :: l => if bool_decide (last = Some (lap_item x)) then distinct_on last l else x :: distinct_on (Some (lap_item x)) l
  end.

Definition UnsettledDispatches (now window : Z) (d : CoordDB) : list ReattachTarget :=
  if window <=? 0 then []
  else (fun l => {| rt_task := lap_task l; rt_run := lap_run l |}) <$>
       distinct_on None (merge_sort reattach_order (filter (fun l => reattachable now window d l = true) ((map_to_list (a2a_dispatch d)).*2))).

Definition DefaultReattachWindow : Z := 12 * 3600 * 1000000000.

Inductive Call : Type -> Type :=
| ListUnsettled (window : Z) : Call (option (list ReattachTarget))
| CtxErr : Call bool
| SubmitLap (task run : string) : Call bool.

(** The counts of the pass: re-attached and failed. *)
Fixpoint attach (targets : list ReattachTarget) (reattached failed : nat) : Prog Call (nat * nat) :=
  match targets with
  | [] => Ret (reattached, failed)
  | t :: targets =>
      let* stop := call CtxErr in
      if stop : bool then Ret (reattached, failed)
      else
        let* ok := call (SubmitLap (rt_task t) (rt_run t)) in
        if ok : bool then attach targets (S reattached) failed else attach targets reattached (S failed)
  end.

(** [wired]: the reader and the dispatcher are there. [None]: no pass was made. *)
Definition ReattachFollows_Start (wired : bool) (Window : Z) : Prog Call (option (nat * nat)) :=
  if negb wired then Ret None
  else
    let window := if Window <=? 0 then DefaultReattachWindow else Window in
    let* targets := call (ListUnsettled window) in
    match targets with
    | None => Ret None
    | Some targets => let* counts := attach targets 0 0 in Ret (Some counts)
    end.
