(* ===== verification/FollowProps.v ===== *)
(** The follows: a stream is forwarded to its end, the count of live follows is
    exact, the marker comes before the release, and what a restart attaches again. *)
From S2P Require Import Prelude GoStr Calls Machine ProdStore ProdStoreProps EndpointGate Wire Follow.
Open Scope Z_scope.
Open Scope k8s_scope.

(** * One stream *)

Section stream.
Context {S : Type} (sink : S -> Event -> S * bool).

Definition fed (s : S) (evs : list Event) : S := foldl (fun s ev => fst (sink s ev)) s evs.

(** The sink takes all of them. *)
Fixpoint takes (s : S) (evs : list Event) : Prop :=
  match evs with [] => True | ev :: evs => snd (sink s ev) = true /\ takes (fst (sink s ev)) evs end.

Definition artifacts_of (evs : list Event) : list ArtifactRef :=
  evs ≫= fun ev => if bool_decide (Type_ ev = EventArtifactRef) then option_list (artifactRef (payload ev)) else [].

Definition after (res : Result) (evs : list Event) : Result := foldl (fun res ev => received ev res) res evs.

Lemma after_spec evs : forall res, Status (after res evs) = Status res /\ Artifacts (after res evs) = Artifacts res ++ artifacts_of evs /\
  LastSeq (after res evs) = default (LastSeq res) (Seq <$> last evs).
Proof.
  induction evs as [|ev evs IH]; intros res; cbn [after foldl]; [cbn; by rewrite app_nil_r|].
  destruct (IH (received ev res)) as (H1 & H2 & H3). unfold after in *. rewrite H1, H2, H3. split; [done|]. split.
  - cbn. case_bool_decide; [by rewrite <- app_assoc|done].
  - rewrite last_cons. by destruct (last evs).
Qed.

Lemma Follow_spec xs : forall s res out s',
  Follow sink s xs res = (out, s') ->
  exists evs rest, xs = (Got <$> evs) ++ rest /\ s' = fed s evs /\
    match out with
    | None => rest = [] /\ takes s evs
    | Some (r, None, canceled) =>
        exists st more, rest = Closed false st :: more /\ takes s evs /\ canceled = false /\
          r = {| Status := st; Artifacts := Artifacts (after res evs); LastSeq := LastSeq (after res evs) |}
    | Some (r, Some ContextErr, canceled) =>
        exists x more, rest = x :: more /\ (x = CtxDone \/ exists st, x = Closed true st) /\ takes s evs /\ canceled = true /\ r = after res evs
    | Some (r, Some (SinkRejected q), canceled) =>
        exists evs0 ev, evs = evs0 ++ [ev] /\ takes s evs0 /\ snd (sink (fed s evs0) ev) = false /\ q = Seq ev /\ canceled = true /\ r = after res evs
    end.
Proof.
  induction xs as [|[|[] st|ev] xs IH]; intros s res out s'; cbn [Follow].
  - intros [= <- <-]. exists [], []. done.
  - intros [= <- <-]. exists [], (CtxDone :: xs). split_and!; try done. exists CtxDone, xs. split_and!; try done. by left.
  - intros [= <- <-]. exists [], (Closed true st :: xs). split_and!; try done. exists (Closed true st), xs. split_and!; try done. right. by eexists.
  - intros [= <- <-]. exists [], (Closed false st :: xs). split_and!; try done. by exists st, xs.
  - destruct (sink s ev) as [s1 []] eqn:Hs.
    + intros H. apply IH in H as (evs & rest & -> & -> & H). exists (ev :: evs), rest. split; [done|].
      assert (Hf : forall l, fed s (ev :: l) = fed s1 l) by (intros l; cbn; by rewrite Hs).
      assert (Ht : forall l, takes s1 l -> takes s (ev :: l)) by (intros l Hl; cbn; by rewrite Hs).
      split; [by rewrite Hf|]. destruct out as [[[r [[|q]|]] c]|].
      * destruct H as (x & more & ? & ? & ? & ? & ?). exists x, more. split_and!; auto.
      * destruct H as (evs0 & e & -> & ? & ? & ? & ? & ->). exists (ev :: evs0), e. split_and!; auto. by rewrite Hf.
      * destruct H as (st & more & ? & ? & ? & ?). exists st, more. split_and!; auto.
      * destruct H. split; auto.
    + intros [= <- <-]. exists [ev], xs. split; [done|]. split; [cbn; by rewrite Hs|]. exists [], ev. split_and!; try done. cbn. by rewrite Hs.
Qed.
End stream.

(** A follow forwards its stream whole. It hands the sink the events of the
    stream one by one, in order and none twice, up to where it stops: where the
    stream closes, and then it answers the final status without an error and has
    canceled nothing; where the context ends; or where the sink refuses an event,
    and then that event is the last it forwarded and is named by the error. In the
    last two cases, and only there, the task is canceled. The result has the
    artifacts and the sequence number of exactly the events forwarded. *)
Theorem follow_whole {S : Type} (sink : S -> Event -> S * bool) s xs :
  exists evs rest, xs = (Got <$> evs) ++ rest /\ snd (Follow sink s xs no_result) = fed sink s evs /\
    match fst (Follow sink s xs no_result) with
    | None => rest = [] /\ takes sink s evs
    | Some (r, err, canceled) =>
        Artifacts r = artifacts_of evs /\ LastSeq r = default 0 (Seq <$> last evs) /\ canceled = bool_decide (is_Some err) /\
        match err with
        | None => takes sink s evs /\ exists more, rest = Closed false (Status r) :: more
        | Some ContextErr => takes sink s evs /\ exists x more, rest = x :: more /\ (x = CtxDone \/ exists st, x = Closed true st)
        | Some (SinkRejected q) => exists evs0 ev, evs = evs0 ++ [ev] /\ takes sink s evs0 /\ q = Seq ev /\ snd (sink (fed sink s evs0) ev) = false
        end
    end.
Proof.
  destruct (Follow sink s xs no_result) as [out s'] eqn:HF. apply Follow_spec in HF as (evs & rest & -> & -> & H).
  exists evs, rest. split; [done|]. split; [done|]. destruct (after_spec evs no_result) as (_ & Ha & Hl). cbn [fst].
  destruct out as [[[r [[|q]|]] c]|]; [| | |done].
  - destruct H as (x & more & -> & Hx & Ht & -> & ->). split_and!; try done. by exists x, more.
  - destruct H as (evs0 & ev & -> & Ht & Hs & -> & -> & ->). split_and!; try done. by exists evs0, ev.
  - destruct H as (st & more & -> & Ht & -> & ->). cbn. split_and!; try done. by exists more.
Qed.

(** * The count of live follows *)

Definition follows (run : string) (o : Operator) : nat := length (filter (fun f => fw_run f = run) (followers o)).

(** The count is the number of followers, and no run is kept at none. *)
Definition counted (o : Operator) : Prop :=
  forall run, live o !! run = (if bool_decide (follows run o = 0%nat) then None else Some (Z.of_nat (follows run o))).

Lemma filter_at (P : Follower -> Prop) `{!forall x, Decision (P x)} (l : list Follower) i f :
  l !! i = Some f ->
  length (filter P l) = (length (filter P (take i l)) + (if decide (P f) then 1 else 0) + length (filter P (drop (S i) l)))%nat.
Proof.
  intros Hi. rewrite <- (take_drop_middle l i f Hi) at 1. rewrite filter_app, length_app, filter_cons.
  destruct (decide (P f)); cbn; lia.
Qed.

Lemma on_done_frame now fault f o : let o' := fst (on_done now fault f o) in
  followers o' = followers o /\
  match snd (on_done now fault f o) with
  | Some f' => fw_run f' = fw_run f /\ fw_task f' = fw_task f /\ live o' = live o
  | None => live o' = followLeave (fw_run f) (live o)
  end.
Proof. unfold on_done. destruct (fw_phase f) as [|st [e|]| | |], fault; cbn; done. Qed.

Lemma followLeave_counted run o n :
  counted o -> follows run o = S n ->
  forall r, followLeave run (live o) !! r =
    (let k := if decide (r = run) then n else follows r o in if bool_decide (k = 0%nat) then None else Some (Z.of_nat k)).
Proof.
  intros Hc Hn r. unfold followLeave. rewrite (Hc run), Hn, bool_decide_false by lia. cbn [default id]. cbv zeta.
  destruct (Z.leb_spec (Z.of_nat (S n)) 1).
  - assert (n = 0%nat) as -> by lia. destruct (decide (r = run)) as [->|Hne]; cbn; [by rewrite lookup_delete_eq|by rewrite lookup_delete_ne, Hc].
  - destruct (decide (r = run)) as [->|Hne]; cbn; [|by rewrite lookup_insert_ne, Hc].
    rewrite lookup_insert_eq, bool_decide_false by lia. f_equal. lia.
Qed.

Lemma move_counted o m : counted o -> counted (move o m).
Proof.
  intros Hc. destruct m as [task run built accepted|i st err|i now fault|g|n]; cbn.
  - unfold Submit. destruct built, accepted; cbn [negb fst]; try done. intros r. unfold counted, follows in *. cbn.
    rewrite filter_app, length_app, filter_cons. cbn. unfold followEnter. destruct (decide (run = r)) as [->|Hne].
    + rewrite lookup_insert_eq, (Hc r). generalize (length (filter (fun f => fw_run f = r) (followers o))).
      intros [|k]; [reflexivity|]. rewrite !bool_decide_false by (cbn; lia). cbn [default id length]. f_equal. lia.
    + rewrite lookup_insert_ne by done. cbn. by rewrite Nat.add_0_r.
  - destruct (followers o !! i) as [f|] eqn:Hi; [|done]. destruct (fw_phase f) eqn:Hp; try done.
    intros r. cbn. rewrite (Hc r). unfold follows. cbn.
    assert (length (filter (fun f => fw_run f = r) (<[i := at_phase (Settling st err) f]> (followers o))) =
            length (filter (fun f => fw_run f = r) (followers o))) as ->; [|done].
    assert (Hlt : (i < length (followers o))%nat) by by eapply lookup_lt_Some.
    assert (Hi' : <[i := at_phase (Settling st err) f]> (followers o) !! i = Some (at_phase (Settling st err) f)) by by apply list_lookup_insert_eq.
    rewrite (filter_at _ _ _ _ Hi'), (filter_at _ _ _ _ Hi).
    rewrite take_insert_ge by lia. rewrite drop_insert_lt by lia. done.
  - destruct (followers o !! i) as [f|] eqn:Hi; [|done]. destruct (on_done_frame now fault f o) as [_ Hf].
    destruct (on_done now fault f o) as [o' f'] eqn:Ho. cbn in Hf. unfold counted, follows. cbn. intros r.
    pose proof (filter_at (fun f => fw_run f = r) _ _ _ Hi) as Hr.
    rewrite !filter_app, !length_app. destruct f' as [f'|].
    + destruct Hf as (Hr1 & _ & ->). rewrite (Hc r). unfold follows. rewrite Hr.
      assert (length (filter (fun f => fw_run f = r) (option_list (Some f'))) = if decide (fw_run f = r) then 1%nat else 0%nat) as ->.
      { change (option_list (Some f')) with [f']. rewrite filter_cons, Hr1. by destruct (decide (fw_run f = r)). }
      by rewrite Nat.add_assoc.
    + rewrite Hf. assert (Hn : exists n, follows (fw_run f) o = S n).
      { unfold follows. rewrite (filter_at _ _ _ _ Hi). destruct (decide (fw_run f = fw_run f)); [|done]. eexists. by rewrite <- plus_n_Sm, Nat.add_succ_l. }
      destruct Hn as [n Hn]. rewrite (followLeave_counted _ _ _ Hc Hn). cbn.
      assert ((if decide (r = fw_run f) then n else follows r o) =
        (length (filter (fun f => fw_run f = r) (take i (followers o))) + length (filter (fun f => fw_run f = r) (drop (S i) (followers o))))%nat) as ->; [|done].
      destruct (decide (r = fw_run f)) as [->|Hne].
      * unfold follows in Hn. rewrite Hr in Hn. destruct (decide (fw_run f = fw_run f)); [lia|done].
      * unfold follows. rewrite Hr. destruct (decide (fw_run f = r)); [congruence|lia].
  - done.
  - intros r. done.
Qed.

Lemma moves_counted n d ms : counted (foldl move (started n d) ms).
Proof.
  assert (H0 : counted (started n d)) by (intros r; done). revert H0. generalize (started n d).
  induction ms as [|m ms IH]; intros o Ho; cbn; [done|]. by apply IH, move_counted.
Qed.

(** The dispatcher's count of live follows is exact, in every state reached by
    any interleaving of submissions, stream ends, steps of OnDone (with its database
    failing or not), other writers and restarts: IsFollowing answers yes for a run
    exactly while a follow of that run has not left, the whole of OnDone, its durable
    marker and its releases, included. So no reaper that asks it first takes a
    sandbox from under a follow of its own process, and a run whose follows have all
    left is never held back. *)
Theorem following_exact n d ms run :
  IsFollowing (live (foldl move (started n d) ms)) run = true <->
  exists f, f ∈ followers (foldl move (started n d) ms) /\ fw_run f = run.
Proof.
  pose proof (moves_counted n d ms run) as Hc. unfold IsFollowing. rewrite Hc.
  generalize (foldl move (started n d) ms). intros o. unfold follows. split.
  - destruct (filter (fun f => fw_run f = run) (followers o)) as [|f fs] eqn:Hf; [done|]. intros _.
    exists f. assert (f ∈ filter (fun f => fw_run f = run) (followers o)) as [? ?]%list_elem_of_filter by (rewrite Hf; left). done.
  - intros (f & Hf & Hr). assert (Hin : f ∈ filter (fun f => fw_run f = run) (followers o)) by by apply list_elem_of_filter.
    destruct (filter (fun f => fw_run f = run) (followers o)) as [|g fs]; [by apply not_elem_of_nil in Hin|].
    rewrite bool_decide_false by done. cbn [default id length]. apply Z.ltb_lt. lia.
Qed.

(** * Marked, freed, released *)

#[export] Instance Act_eq_dec : EqDecision Act.
Proof. solve_decision. Defined.
#[export] Instance TaskStatus_eq_dec : EqDecision TaskStatus.
Proof. solve_decision. Defined.
#[export] Instance Phase_eq_dec : EqDecision Phase.
Proof. solve_decision. Defined.

(** A follow of the run that ended without an error was marked. *)
Definition ended (run : string) (a : Act) : bool :=
  match a with Marked _ r out _ => bool_decide (r = run /\ out <> SettleOutcomeFollowError) | _ => false end.
Definition freed (run : string) (a : Act) : bool := bool_decide (a = Freed run).
Definition released (run : string) (a : Act) : bool := bool_decide (a = Released run).
Definition count {A} (p : A -> bool) (l : list A) : nat := length (filter (fun a => p a = true) l).

Lemma count_app {A} (p : A -> bool) l l' : count p (l ++ l') = (count p l + count p l')%nat.
Proof. unfold count. by rewrite filter_app, length_app. Qed.
Lemma count_one {A} (p : A -> bool) a : count p [a] = if p a then 1%nat else 0%nat.
Proof. unfold count. rewrite filter_cons. destruct (p a); done. Qed.

Lemma count_at {A} (p : A -> bool) (l : list A) i a :
  l !! i = Some a -> count p l = (count p (take i l) + (if p a then 1 else 0) + count p (drop (S i) l))%nat.
Proof.
  intros Hi. rewrite <- (take_drop_middle l i a Hi) at 1. change (a :: drop (S i) l) with ([a] ++ drop (S i) l).
  rewrite !count_app, count_one. lia.
Qed.

Definition standing (run : string) (p : Phase) (f : Follower) : bool := bool_decide (fw_run f = run /\ fw_phase f = p).

Definition in_order (run : string) (l : list Act) : Prop :=
  (count (released run) l <= count (freed run) l <= count (ended run) l)%nat.

(** The follows still between two steps are counted too. *)
Definition ordered (run : string) (fs : list Follower) (l : list Act) : Prop :=
  (count (released run) l + count (standing run Releasing) fs <= count (freed run) l)%nat /\
  (count (freed run) l + count (standing run Freeing) fs <= count (ended run) l)%nat.

Definition every_prefix (run : string) (l : list Act) : Prop := forall l1 l2, l = l1 ++ l2 -> in_order run l1.

Lemma prefix_snoc run l a : every_prefix run l -> in_order run (l ++ [a]) -> every_prefix run (l ++ [a]).
Proof.
  intros Hl Ha l1 l2 Heq. destruct l2 as [|b l2' _] using rev_ind.
  - rewrite app_nil_r in Heq. by subst.
  - rewrite app_assoc in Heq. apply app_inj_tail in Heq as [-> ->]. by eapply Hl.
Qed.

Lemma ordered_prefix run fs l : ordered run fs l -> in_order run l.
Proof. unfold ordered, in_order. lia. Qed.

Definition marks_kept (o : Operator) : Prop := forall run, ordered run (followers o) (acts o) /\ every_prefix run (acts o).

Lemma SettleOutcome_ended st err : SettleOutcome st err <> SettleOutcomeFollowError <-> err = None.
Proof.
  unfold SettleOutcome. destruct err; [split; done|]. split; [done|]. intros _. case_bool_decide; discriminate.
Qed.

Lemma count_none {A} (p : A -> bool) : count p [] = 0%nat.
Proof. done. Qed.

Ltac tally :=
  cbn [option_list]; rewrite ?count_none, ?count_one; unfold released, freed, ended, standing; cbn;
  repeat match goal with H : fw_phase _ = _ |- _ => rewrite H end;
  repeat case_bool_decide; first [lia | split; lia | exfalso; naive_solver].

(** What the step adds to the counts, for each phase. *)
Lemma on_done_counts now fault f o run :
  let '(o', f') := on_done now fault f o in
  exists new, acts o' = acts o ++ new /\ (length new <= 1)%nat /\
    (count (released run) new + count (standing run Releasing) (option_list f') =
       count (standing run Releasing) [f] + count (freed run) new)%nat /\
    (count (freed run) new + count (standing run Freeing) (option_list f') =
       count (standing run Freeing) [f] + count (ended run) new)%nat.
Proof.
  unfold on_done. destruct (fw_phase f) as [|st err| | |] eqn:Hp.
  - exists []. rewrite app_nil_r. split_and!; [done|cbn; lia|tally..].
  - exists [Marked (fw_task f) (fw_run f) (SettleOutcome st err) (negb fault)].
    split; [by destruct fault|]. split; [cbn; lia|].
    destruct err as [e|]; [|assert (SettleOutcome st None <> SettleOutcomeFollowError) by by apply SettleOutcome_ended]; split; tally.
  - exists [Freed (fw_run f)]. split_and!; [done|cbn; lia|tally..].
  - exists [Released (fw_run f)]. split_and!; [done|cbn; lia|tally..].
  - exists []. rewrite app_nil_r. split_and!; [done|cbn; lia|tally..].
Qed.

Lemma marks_goes now fault f i o : followers o !! i = Some f -> marks_kept o ->
  let '(o', f') := on_done now fault f o in
  marks_kept (set_followers (take i (followers o) ++ option_list f' ++ drop (S i) (followers o)) o').
Proof.
  intros Hi Hk. destruct (on_done now fault f o) as [o' f'] eqn:Ho. intros run. destruct (Hk run) as [[H1 H2] Hpre].
  pose proof (on_done_counts now fault f o run) as Hc. rewrite Ho in Hc. destruct Hc as (new & Ha & Hlen & Hr & Hf).
  pose proof (count_at (standing run Releasing) _ _ _ Hi) as Hcr. pose proof (count_at (standing run Freeing) _ _ _ Hi) as Hcf.
  rewrite <- count_one in Hcr, Hcf. unfold set_followers. cbn [followers acts].
  assert (Hord : ordered run (take i (followers o) ++ option_list f' ++ drop (S i) (followers o)) (acts o')).
  { rewrite Ha. unfold ordered. rewrite !count_app. lia. }
  split; [done|]. apply ordered_prefix in Hord. destruct new as [|a [|b new]]; cbn in Hlen; [by rewrite Ha, app_nil_r|rewrite Ha in *; by apply prefix_snoc|lia].
Qed.

Lemma marks_move o m : marks_kept o -> marks_kept (move o m).
Proof.
  intros Hk. destruct m as [task run0 built accepted|i st err|i now fault|g|n]; cbn.
  - unfold Submit. destruct built, accepted; cbn [negb fst]; try done. intros run. destruct (Hk run) as [[H1 H2] Hp]. split; [|done].
    unfold ordered. cbn [followers acts]. rewrite !count_app.
    assert (Hn : forall p, p <> Streaming -> count (standing run p) [{| fw_task := task; fw_run := run0; fw_phase := Streaming |}] = 0%nat).
    { intros p Hne. rewrite count_one. unfold standing. cbn. by rewrite bool_decide_false by naive_solver. }
    rewrite !Hn by done. lia.
  - destruct (followers o !! i) as [f|] eqn:Hi; [|done]. destruct (fw_phase f) eqn:Hph; try done.
    intros run. destruct (Hk run) as [[H1 H2] Hp]. split; [|done]. unfold ordered. cbn [set_followers followers acts].
    assert (Hlt : (i < length (followers o))%nat) by by eapply lookup_lt_Some.
    assert (Hi' : <[i := at_phase (Settling st err) f]> (followers o) !! i = Some (at_phase (Settling st err) f)) by by apply list_lookup_insert_eq.
    assert (Hsame : forall p, p <> Streaming -> (forall st err, p <> Settling st err) ->
      count (standing run p) (<[i := at_phase (Settling st err) f]> (followers o)) = count (standing run p) (followers o)).
    { intros p Hp1 Hp2. rewrite (count_at _ _ _ _ Hi'), (count_at _ _ _ _ Hi), take_insert_ge, drop_insert_lt by lia.
      unfold standing. cbn. rewrite Hph, !bool_decide_false by naive_solver. done. }
    rewrite !Hsame by done. lia.
  - destruct (followers o !! i) as [f|] eqn:Hi; [|done]. pose proof (marks_goes now fault f i o Hi Hk) as Hg.
    by destruct (on_done now fault f o).
  - done.
  - intros run. destruct (Hk run) as [[H1 H2] Hp]. split; [|done]. unfold ordered. cbn [followers acts]. rewrite !count_none. lia.
Qed.

Lemma marks_moves n d ms : marks_kept (foldl move (started n d) ms).
Proof.
  assert (H0 : marks_kept (started n d)).
  { intros run. split; [unfold ordered; cbn; lia|]. intros [|a l1] l2 Heq; [unfold in_order; cbn; lia|done]. }
  revert H0. generalize (started n d). induction ms as [|m ms IH]; intros o Ho; cbn; [done|]. by apply IH, marks_move.
Qed.

(** The end of a follow is marked before anything is given back. In the history
    of any interleaving of follows, database failures, other writers and restarts,
    and at every moment of it, a run's sandbox has been released at most as often as
    its model endpoint slots were freed, and these at most as often as a follow of
    the run that ended without an error was marked (whether or not the database took
    the marker). In particular a follow that ended in an error releases nothing, and
    a crash between two of the steps leaves a marked, never an unmarked release. *)
Theorem marked_before_released n d ms run l1 l2 :
  acts (foldl move (started n d) ms) = l1 ++ l2 ->
  (count (released run) l1 <= count (freed run) l1 <= count (ended run) l1)%nat.
Proof. apply (marks_moves n d ms run). Qed.

Definition three_steps : list Move :=
  [Submits "t" "r" true true; Ends 0 {| ts_State := TaskCompleted; ts_Reason := "" |} None; Goes 0 5 true; Goes 0 6 false; Goes 0 7 false].

Lemma marked_before_released_witness :
  acts (foldl move (started 1 (Build_CoordDB ∅ ∅ ∅ ∅ [] [] [])) three_steps) =
    [Marked "t" "r" SettleOutcomeSucceeded false; Freed "r"] ++ [Released "r"] /\
  (0 <= 1 <= 1)%nat.
Proof.
  split; [reflexivity|].
  apply (marked_before_released 1 (Build_CoordDB ∅ ∅ ∅ ∅ [] [] []) three_steps "r"
    [Marked "t" "r" SettleOutcomeSucceeded false; Freed "r"] [Released "r"]). reflexivity.
Defined.

(** * Re-attachment *)

#[export] Instance reattach_order_total : Total reattach_order.
Proof.
  intros a b. unfold reattach_order. destruct (decide (lap_item a = lap_item b)) as [Heq|Hne].
  - rewrite Heq. destruct (total lap_order a b); [left|right]; (split; [reflexivity|auto]).
  - destruct (string_le_total (lap_item a) (lap_item b)); [left|right]; (split; [done|congruence]).
Qed.
#[export] Instance reattach_order_trans : Transitive reattach_order.
Proof.
  intros a b c [H1 H2] [H3 H4]. split; [by etrans|]. intros Heq.
  assert (lap_item a = lap_item b) as Hab by (apply (anti_symm String.le); [done|by rewrite Heq]).
  etrans; [by apply H2|]. apply H4. congruence.
Qed.

Lemma lap_order_refl l : lap_order l l.
Proof. right. split; [done|reflexivity]. Qed.

(** The first of the rows of each item, of rows in order. *)
Lemma distinct_on_spec l : forall last,
  StronglySorted reattach_order l -> (forall a x, last = Some a -> x ∈ l -> String.le a (lap_item x)) ->
  NoDup (lap_item <$> distinct_on last l) /\
  (forall x, x ∈ distinct_on last l -> x ∈ l /\ last <> Some (lap_item x) /\ forall y, y ∈ l -> lap_item y = lap_item x -> lap_order x y) /\
  (forall y, y ∈ l -> last <> Some (lap_item y) -> exists x, x ∈ distinct_on last l /\ lap_item x = lap_item y).
Proof.
  induction l as [|z l IH]; intros last Hs Hl; cbn [distinct_on].
  - split_and!; [constructor|intros x Hx; by apply not_elem_of_nil in Hx..].
  - apply StronglySorted_inv in Hs as [Hs Hz]. rewrite Forall_forall in Hz.
    case_bool_decide as Hlast.
    + destruct (IH last Hs) as (H1 & H2 & H3); [intros a x Ha Hx; apply (Hl a x Ha); by right|].
      split_and!; [done| |].
      * intros x Hx. destruct (H2 x Hx) as (Hin & Hne & Hy). split_and!; [by right|done|].
        intros y [->|Hyl]%elem_of_cons Heq; [congruence|by apply Hy].
      * intros y [->|Hyl]%elem_of_cons Hne; [done|by apply H3].
    + destruct (IH (Some (lap_item z)) Hs) as (H1 & H2 & H3).
      { intros a x [= <-] Hx. apply (Hz x Hx). }
      split_and!.
      * cbn. constructor; [|done]. intros (x & Heq & Hx)%list_elem_of_fmap. apply (proj1 (proj2 (H2 x Hx))). by rewrite Heq.
      * intros x [->|Hx]%elem_of_cons.
        { split_and!; [left|done|]. intros y [->|Hy]%elem_of_cons Heq; [apply lap_order_refl|]. by apply (Hz y Hy). }
        destruct (H2 x Hx) as (Hin & Hne & Hy). split_and!; [by right| |].
        { intros Heq. destruct (Hz x Hin) as [Hle _]. pose proof (Hl _ z Heq ltac:(left)) as Hle'.
          apply Hne. f_equal. by apply (anti_symm String.le). }
        intros y [->|Hyl]%elem_of_cons Heq; [congruence|by apply Hy].
      * intros y [->|Hyl]%elem_of_cons Hne; [exists z; split; [left|done]|].
        destruct (decide (lap_item z = lap_item y)) as [Heq|Hn]; [exists z; split; [left|done]|].
        destruct (H3 y Hyl) as (x & Hx & Heq); [congruence|]. exists x. split; [by right|done].
Qed.

Definition target_of (l : Lap) : ReattachTarget := {| rt_task := lap_task l; rt_run := lap_run l |}.

(** The laps behind the targets. *)
Lemma reattach_laps now window d : 0 < window ->
  exists ls, UnsettledDispatches now window d = target_of <$> ls /\ NoDup (lap_item <$> ls) /\
    (forall l, l ∈ ls -> l ∈ (map_to_list (a2a_dispatch d)).*2 /\ reattachable now window d l = true /\
       forall l', l' ∈ (map_to_list (a2a_dispatch d)).*2 -> reattachable now window d l' = true -> lap_item l' = lap_item l -> lap_order l l') /\
    (forall l, l ∈ (map_to_list (a2a_dispatch d)).*2 -> reattachable now window d l = true -> exists l', l' ∈ ls /\ lap_item l' = lap_item l).
Proof.
  intros Hw. unfold UnsettledDispatches. rewrite (proj2 (Z.leb_gt _ _)) by done.
  set (rows := filter _ _). eexists. split; [reflexivity|].
  pose proof (merge_sort_Permutation reattach_order rows) as Hp.
  assert (Hs : StronglySorted reattach_order (merge_sort reattach_order rows)) by apply (StronglySorted_merge_sort _ _).
  destruct (distinct_on_spec _ None Hs ltac:(done)) as (H1 & H2 & H3).
  assert (Hin : forall l, l ∈ merge_sort reattach_order rows <->
    l ∈ (map_to_list (a2a_dispatch d)).*2 /\ reattachable now window d l = true).
  { intros l. rewrite Hp. unfold rows. rewrite list_elem_of_filter. tauto. }
  split_and!; [done| |].
  - intros l Hl. destruct (H2 l Hl) as (Hlr & _ & Hy). apply Hin in Hlr as [Hrow Hre]. split_and!; [done|done|]. intros l' ? ? ?. apply Hy; [by apply Hin|done].
  - intros l Hl Hr. apply H3; [by apply Hin|done].
Qed.

(** The database answers the reader; the submissions and the context answer anything. *)
Definition answers_of (now : Z) (d : CoordDB) (X : Type) (c : Call X) : unit -> X -> unit -> Prop :=
  match c in Call X return unit -> X -> unit -> Prop with
  | ListUnsettled window => fun _ x _ => x = Some (UnsettledDispatches now window d)
  | _ => fun _ _ _ => True
  end.

Definition submitted (t : list (Calls.Event Call)) : list (ReattachTarget * bool) :=
  omap (fun e => match e with
                 | @Ev _ X c x => match c in Call X return X -> option (ReattachTarget * bool) with
                                  | SubmitLap task run => fun ok => Some ({| rt_task := task; rt_run := run |}, ok)
                                  | _ => fun _ => None
                                  end x
                 end) t.

(** The context was found done. *)
Definition interrupted (t : list (Calls.Event Call)) : bool :=
  existsb (fun e => match e with
                    | @Ev _ X c x => match c in Call X return X -> bool with CtxErr => fun stop => stop | _ => fun _ => false end x
                    end) t.

Lemma submitted_app t1 t2 : submitted (t1 ++ t2) = submitted t1 ++ submitted t2.
Proof. apply omap_app. Qed.

Lemma attach_runs now d targets : forall a b t counts w w',
  runs (answers_of now d) (attach targets a b) w t counts w' ->
  (submitted t).*1 `prefix_of` targets /\ (interrupted t = false -> (submitted t).*1 = targets) /\
  counts = (a + count snd (submitted t), b + count (fun s => negb (snd s)) (submitted t))%nat.
Proof.
  induction targets as [|tg targets IH]; intros a b t counts w w'; cbn [attach].
  - intros (-> & -> & _)%runs_inv. cbn. rewrite !Nat.add_0_r. split_and!; [reflexivity|done|done].
  - intros (stop & w1 & t1 & -> & _ & H)%runs_inv. cbn in H. destruct stop.
    + apply runs_inv in H as (-> & -> & _). cbn. rewrite !Nat.add_0_r. split_and!; [apply prefix_nil|done|done].
    + apply runs_inv in H as (ok & w2 & t2 & -> & _ & H). cbn in H.
      assert (Hs : submitted (Ev CtxErr false :: Ev (SubmitLap (rt_task tg) (rt_run tg)) ok :: t2) = (tg, ok) :: submitted t2) by (by destruct tg).
      rewrite Hs. change (interrupted (Ev CtxErr false :: Ev (SubmitLap (rt_task tg) (rt_run tg)) ok :: t2)) with (interrupted t2).
      change ((tg, ok) :: submitted t2) with ([(tg, ok)] ++ submitted t2). rewrite !count_app, !count_one. cbn [snd negb].
      destruct ok; apply IH in H as (H1 & H2 & ->); (split_and!; [by apply prefix_cons|intros Hi; cbn; f_equal; by apply H2|f_equal; cbn; lia]).
Qed.

(** What a restart attaches again. The pass that follows a won leadership submits,
    in their order and once each, one lap of every work item that has an unsettled
    lap in the window whose claim is neither cancelled nor failed: the newest of
    these. A refused submission does not stop it, only the end of its context does,
    and its counts are those of the answers it got. *)
Theorem reattach_whole now d Window t counts w w' :
  runs (answers_of now d) (ReattachFollows_Start true Window) w t (Some counts) w' ->
  exists window ls,
    window = (if Window <=? 0 then DefaultReattachWindow else Window) /\
  (submitted t).*1 `prefix_of` (target_of <$> ls) /\
  (interrupted t = false -> (submitted t).*1 = target_of <$> ls) /\
  counts = (count snd (submitted t), count (fun s => negb (snd s)) (submitted t)) /\
  NoDup (lap_item <$> ls) /\
  (forall l, l ∈ ls -> l ∈ (map_to_list (a2a_dispatch d)).*2 /\ reattachable now window d l = true /\
  forall l', l' ∈ (map_to_list (a2a_dispatch d)).*2 -> reattachable now window d l' = true -> lap_item l' = lap_item l -> lap_order l l') /\
  (forall l, l ∈ (map_to_list (a2a_dispatch d)).*2 -> reattachable now window d l = true -> exists l', l' ∈ ls /\ lap_item l' = lap_item l).
Proof.
  unfold ReattachFollows_Start. cbn [negb]. intros (targets & w1 & t1 & -> & -> & H)%runs_inv. cbn in H.
  apply runs_bind in H as (t2 & c & w2 & t3 & -> & H & (-> & [= ->] & _)%runs_inv).
  set (window := if Window <=? 0 then DefaultReattachWindow else Window) in *.
  assert (Hw : 0 < window). { unfold window. destruct (Z.leb_spec Window 0); [done|lia]. }
  destruct (reattach_laps now window d Hw) as (ls & Hls & H1 & H2 & H3). exists window, ls.
  apply attach_runs in H as (Hp & Hi & ->). rewrite Hls in Hp, Hi. rewrite app_nil_r.
  change (submitted (Ev (ListUnsettled window) (Some (UnsettledDispatches now window d)) :: t2)) with (submitted t2).
  change (interrupted (Ev (ListUnsettled window) (Some (UnsettledDispatches now window d)) :: t2)) with (interrupted t2).
  split_and!; done.
Qed.

(** ** A concrete restart *)

Definition lap_at (task item run : string) (at_ : Z) (settled : option Z) : Lap :=
  {| lap_task := task; lap_item := item; lap_run := run; dispatched_at := at_; settled_at := settled;
     settle_outcome := (fun _ => SettleOutcomeSucceeded) <$> settled |}.
Definition running : ClaimRow :=
  {| reconcile_step := StepRunning; fence_token := 2; assignee_agent := None; reclaim_fenced_at := None |}.

(** One item with two laps, the later one settled, and one with a lap of its own. *)
Definition two_laps : CoordDB :=
  {| work_item := ∅; claim := <["w1" := running]> (<["w2" := running]> ∅); sandbox_bind := ∅;
     a2a_dispatch := <["u1" := lap_at "u1" "w1" "u1" 100 None]>
       (<["u1#lap1" := lap_at "u1#lap1" "w1" "u1" 200 (Some 300)]> (<["u2" := lap_at "u2" "w2" "u2" 150 None]> ∅));
     audit_log := []; outbox := []; comment := [] |}.

Definition restart_pass : list (Calls.Event Call) :=
  [Ev (ListUnsettled DefaultReattachWindow) (Some [{| rt_task := "u1"; rt_run := "u1" |}; {| rt_task := "u2"; rt_run := "u2" |}]);
   Ev CtxErr false; Ev (SubmitLap "u1" "u1") false; Ev CtxErr false; Ev (SubmitLap "u2" "u2") true].

Lemma reattach_whole_witness : exists ls,
  (submitted restart_pass).*1 = target_of <$> ls /\ (1, 1)%nat = (count snd (submitted restart_pass), count (fun s => negb (snd s)) (submitted restart_pass)).
Proof.
  destruct (reattach_whole 400 two_laps 0 restart_pass (1, 1)%nat tt tt) as (window & ls & _ & _ & Hi & Hc & _).
  - unfold restart_pass. eapply runs_do with (w1 := tt); [vm_compute; reflexivity|].
    repeat (step_call; eapply runs_do with (w1 := tt); [exact I|cbv beta]). halt.
  - exists ls. split; [by apply Hi|exact Hc].
Defined.

(** The rows are filtered before the newest of an item is taken, so an item whose
    newest lap has settled has the older, never settled lap submitted again. *)
Lemma stale_lap_reattached :
  In {| rt_task := "u1"; rt_run := "u1" |} (UnsettledDispatches 400 DefaultReattachWindow two_laps) /\
  exists newest, a2a_dispatch two_laps !! "u1#lap1" = Some newest /\ lap_item newest = "w1" /\
    settled_at newest = Some 300 /\ dispatched_at newest > 100.
Proof. split; [vm_compute; by left|]. eexists. split; [reflexivity|]. cbn. split_and!; [done|done|lia]. Qed.
