(* ===== verification/Teardown.v ===== *)
(** The sweep of settled runs over the operator's own follows: what
    src/pkg/warmpool/adopt.go takes down while src/internal/a2a/dispatcher.go and
    the OnDone of src/cmd/operator/main.go go on between any two of its calls. *)
From S2P Require Import Prelude Calls Pool Adopt AdoptProps GoStr Machine ProdStore ProdStoreProps EndpointGate Wire Follow FollowProps.
Open Scope Z_scope.
Open Scope k8s_scope.

(** The readers of the sweep answer from the operator, which has moved on before
    every call; the cluster answers anything. *)
Definition watching (X : Type) (c : Adopt.Call X) (o : Operator) (x : X) (o' : Operator) : Prop :=
  (exists ms, o' = foldl move o ms) /\
  match c in Adopt.Call X return X -> Prop with
  | Adopt.Settled run => fun x => x = None \/ x = Some (ProdStore.Settled (db o') run)
  | Adopt.IsFollowing run => fun x => x = Follow.IsFollowing (live o') run
  | _ => fun _ => True
  end x.

(** One comes to the other. *)
Definition leads (o o' : Operator) : Prop := exists ms, o' = foldl move o ms.

#[export] Instance leads_pre : PreOrder leads.
Proof.
  split; [by intros o; exists []|]. intros o1 o2 o3 [ms1 ->] [ms2 ->]. exists (ms1 ++ ms2). by rewrite foldl_app.
Qed.

(** What the history's answers say of the states between [o0] and now. *)
Definition seen (o0 : Operator) (hist : list (Calls.Event Adopt.Call)) (o : Operator) : Prop :=
  leads o0 o /\
  (forall run, answered hist (Adopt.Settled run) (Some true) -> exists o1, leads o0 o1 /\ leads o1 o /\ ProdStore.Settled (db o1) run = true) /\
  (forall run, answered hist (Adopt.IsFollowing run) false -> exists o1, leads o0 o1 /\ leads o1 o /\ Follow.IsFollowing (live o1) run = false).

Lemma answered_snoc {C X} (hist : list (Calls.Event C)) (c : C X) x e :
  answered (hist ++ [e]) c x -> answered hist c x \/ Ev c x = e.
Proof. unfold answered. rewrite elem_of_app, list_elem_of_singleton. tauto. Qed.

(** What was read, if it was one of the two. *)
Definition read_settled (e : Calls.Event Adopt.Call) : option (string * option bool) :=
  match e with
  | @Ev _ X c x => match c in Adopt.Call X return X -> option (string * option bool) with
                   | Adopt.Settled run => fun x => Some (run, x) | _ => fun _ => None end x
  end.
Definition read_following (e : Calls.Event Adopt.Call) : option (string * bool) :=
  match e with
  | @Ev _ X c x => match c in Adopt.Call X return X -> option (string * bool) with
                   | Adopt.IsFollowing run => fun x => Some (run, x) | _ => fun _ => None end x
  end.

Lemma seen_call o0 hist X (c : Adopt.Call X) o x o' :
  seen o0 hist o -> watching X c o x o' -> seen o0 (hist ++ [Ev c x]) o'.
Proof.
  intros (H0 & H1 & H2) [Hm Hx]. assert (Hl : leads o o') by done. split; [by etrans|]. split.
  - intros run [Ha|He]%answered_snoc.
    + destruct (H1 _ Ha) as (o1 & ? & ? & ?). exists o1. split_and!; [done|by etrans|done].
    + exists o'. split_and!; [by etrans|done|]. apply (f_equal read_settled) in He.
      destruct c; try discriminate He. injection He as Hr Hv. subst. destruct Hx as [Hx|Hx]; congruence.
  - intros run [Ha|He]%answered_snoc.
    + destruct (H2 _ Ha) as (o1 & ? & ? & ?). exists o1. split_and!; [done|by etrans|done].
    + exists o'. split_and!; [by etrans|done|]. apply (f_equal read_following) in He.
      destruct c; try discriminate He. injection He as Hr Hv. by subst.
Qed.

Lemma moves_app n d ms o : leads (foldl move (started n d) ms) o -> exists ms', o = foldl move (started n d) ms'.
Proof. intros [ms' ->]. exists (ms ++ ms'). by rewrite foldl_app. Qed.

Lemma not_following n d ms run : Follow.IsFollowing (live (foldl move (started n d) ms)) run = false ->
  Forall (fun f => fw_run f <> run) (followers (foldl move (started n d) ms)).
Proof.
  unfold Follow.IsFollowing. rewrite (moves_counted n d ms run). unfold follows. intros H. apply Forall_forall. intros f Hf Hr.
  assert (Hin : f ∈ filter (fun f => fw_run f = run) (followers (foldl move (started n d) ms))) by by apply list_elem_of_filter.
  destruct (filter (fun f => fw_run f = run) _) as [|g fs]; [by apply not_elem_of_nil in Hin|].
  rewrite bool_decide_false in H by done. cbn [default id length] in H. apply Z.ltb_ge in H. lia.
Qed.

(** The sweep of settled runs spares what the operator follows. While the
    operator goes on submitting, following, marking and releasing, others write to
    the database and processes restart, all between any two calls of the sweep, a
    pod is deleted only if it is a listed pod of a managed key that carries a run
    and its Secret, and there was, since the sweep began, a moment at which a lap of
    that run was settled and a moment at which not one follow of that run was in
    progress, its marker and releases included. *)
Theorem sweep_spares_followed n d ms managed t r o' t1 ns name ok t2 :
  runs watching (SweepSettledRunOwned managed) (foldl move (started n d) ms) t r o' ->
  t = t1 ++ Ev (Adopt.DeletePod ns name) ok :: t2 ->
  exists p o1 o2,
    listed t1 p /\ pd_deleting p = false /\ ns = pd_namespace p /\ name = pd_name p /\ managed_pod managed p /\
    secret_of t1 p SecretFound /\ runIDFromPod p <> "" /\
    leads (foldl move (started n d) ms) o1 /\ leads o1 o' /\ ProdStore.Settled (db o1) (runIDFromPod p) = true /\
    leads (foldl move (started n d) ms) o2 /\ leads o2 o' /\ Forall (fun f => fw_run f <> runIDFromPod p) (followers o2).
Proof.
  intros Hr ->. pose proof (ok_SweepSettled managed) as Ho.
  eapply (obeys_runs (sweeping managed) any_answer watching (seen (foldl move (started n d) ms))) in Hr as (Hs & Ht & _); [|idtac|exact Ho|].
  - apply trace_ok_at in Ht as [(p & Hl & Hdel & -> & -> & Hm & Hsec & Hrun & Hset & Hfol) _]. cbn [app] in *.
    destruct Hs as (_ & H1 & H2).
    destruct (H1 (runIDFromPod p)) as (o1 & ? & ? & ?); [by apply answered_app|].
    destruct (H2 (runIDFromPod p)) as (o2 & Hl2 & ? & Hn); [by apply answered_app|].
    exists p, o1, o2. split_and!; try done. destruct (moves_app _ _ _ _ Hl2) as [ms' ->]. by apply not_following.
  - intros hist X c u x u' _ HI Hw. split; [by eapply seen_call|done].
  - split; [reflexivity|]. split; intros run Ha; by apply not_elem_of_nil in Ha.
Qed.

(** ** A follow that ends in an error *)

Definition one_lap : CoordDB :=
  {| work_item := ∅; claim := <["w1" := running]> ∅; sandbox_bind := ∅; a2a_dispatch := <["u1" := lap_at "u1" "w1" "u1" 100 None]> ∅;
     audit_log := []; outbox := []; comment := [] |}.
Definition cut_off : list Move :=
  [Submits "u1" "u1" true true; Ends 0 no_status (Some "stream reset"); Goes 0 200 false; Goes 0 201 false].
Definition cut_sweep : list (Calls.Event Adopt.Call) :=
  [Ev ListPods (Some [AdoptProps.bound gvisor]); Ev (GetSecret "squad" "sandbox-2") SecretFound; Ev (Adopt.Settled "u1") (Some true);
   Ev (Adopt.IsFollowing "u1") false; Ev (Adopt.DeletePod "squad" "sandbox-2") true].

Lemma cut_sweep_runs : runs watching (SweepSettledRunOwned [gvisor]) (foldl move (started 1 one_lap) cut_off) cut_sweep
    (Some ({| Adopted := 0; Reaped := 1; LeftRunOwned := 0 |}, 0%nat)) (foldl move (started 1 one_lap) cut_off).
Proof.
  unfold cut_sweep. generalize (eq_refl (foldl move (started 1 one_lap) cut_off)).
  generalize (foldl move (started 1 one_lap) cut_off) at 1 3 4. intros o Ho.
  do 2 (step_call; eapply (runs_do _ _ _ _ _ _ o); [split; [by exists []|exact I]|cbv beta]).
  step_call; eapply (runs_do _ _ _ _ _ _ o); [split; [by exists []|right; subst o; vm_compute; reflexivity]|cbv beta].
  step_call; eapply (runs_do _ _ _ _ _ _ o); [split; [by exists []|subst o; vm_compute; reflexivity]|cbv beta].
  step_call; eapply (runs_do _ _ _ _ _ _ o); [split; [by exists []|exact I]|cbv beta].
  halt.
Qed.

Lemma sweep_spares_followed_witness : exists p o2,
  runIDFromPod p <> "" /\ pd_name p = "sandbox-2" /\ Forall (fun f => fw_run f <> runIDFromPod p) (followers o2).
Proof.
  destruct (sweep_spares_followed 1 one_lap cut_off [gvisor] cut_sweep _ _ (take 4 cut_sweep) "squad" "sandbox-2" true [] cut_sweep_runs eq_refl)
    as (p & o1 & o2 & _ & _ & _ & Hn & _ & _ & Hr & _ & _ & _ & _ & _ & Hf).
  exists p, o2. split_and!; [exact Hr|symmetry; exact Hn|exact Hf].
Defined.

(** The follow's error is no proof that the agent is done, and OnDone gives nothing
    back; but the marker it writes is a settlement to the sweep, which deletes the
    pod of the run. *)
Lemma errored_follow_reaped :
  let o := foldl move (started 1 one_lap) cut_off in
  acts o = [Marked "u1" "u1" SettleOutcomeFollowError true] /\
  (settle_outcome <$> a2a_dispatch (db o) !! "u1") = Some (Some SettleOutcomeFollowError) /\
  runs watching (SweepSettledRunOwned [gvisor]) o cut_sweep (Some ({| Adopted := 0; Reaped := 1; LeftRunOwned := 0 |}, 0%nat)) o.
Proof. cbv zeta. split; [reflexivity|]. split; [vm_compute; reflexivity|]. apply cut_sweep_runs. Qed.
