(* ===== verification/Outbox.v ===== *)
(** The outbox of domain events and its relay: what a transaction captures
    (src/pkg/events/event.go, capture.go), the subject an event is published under
    (subject.go), the backlog (store.go) and the worker that publishes it
    (relay.go), over a table with open transactions and a bus that may persist a
    message and lose the acknowledgement. Trace carriers are telemetry and are left
    out. *)
From Stdlib Require Import Ascii.
From S2P Require Import Prelude GoStr Calls Wire.
Open Scope Z_scope.
Open Scope k8s_scope.

(** * Subjects *)

Definition DefaultPrefix : string := "ksquad".
Definition nullSquadToken : string := "_".

(** The mapping of sanitizeToken, on a rune by its bytes. *)
Definition sanitize_rune (r : string) : string :=
  if bool_decide (r ∈ ["."; " "; bytes [9%nat]; "*"; ">"]) then "_" else r.

Definition sanitizeToken (tok : string) : string :=
  if bool_decide (tok = "") then nullSquadToken else String.concat "" (sanitize_rune <$> runes tok).

Definition Subject (prefix entity project squad eventType : string) : string :=
  let prefix := if bool_decide (prefix = "") then DefaultPrefix else prefix in
  let squad := if bool_decide (squad = "") then nullSquadToken else squad in
  String.concat "." (sanitizeToken <$> [prefix; entity; project; squad; eventType]).

Record SubjectParts : Set := { sp_Prefix : string; sp_Entity : string; sp_ProjectID : string; sp_Squad : string; sp_EventType : string }.

Definition ParseSubject (subject : string) : result string SubjectParts :=
  match split "."%char subject with
  | [p; e; pr; sq; et] =>
      Ok {| sp_Prefix := p; sp_Entity := e; sp_ProjectID := pr;
            sp_Squad := if bool_decide (sq = nullSquadToken) then "" else sq; sp_EventType := et |}
  | _ => Err "events.ParseSubject: is not a 5-token subject"
  end.

(** * Capture *)

Definition Entities : list string := ["run"; "work_item"; "artifact"; "memory"; "scm"; "mesh"].

Record DomainEvent : Set := {
  Entity : string; ProjectID : string; Squad : string; EventType : string; WorkItemID : string; RunID : string; ev_Payload : string }.

Definition validate (e : DomainEvent) : result string unit :=
  if bool_decide (Entity e ∉ Entities) then Err "events: invalid entity"
  else if bool_decide (ProjectID e = "") then Err "events: project_id is required"
  else if bool_decide (EventType e = "") then Err "events: event_type is required"
  else Ok tt.

(** A row of coord.outbox; [""] for NULL. *)
Record OutboxRow : Set := {
  row_ID : Z; row_Entity : string; row_ProjectID : string; row_Squad : string; row_EventType : string;
  row_Item : string; row_RunID : string; row_Payload : string }.

Definition body_of (payload : string) : string := if bool_decide (payload = "") then "{}" else payload.

(** The row [Capture] inserts, under the id the sequence gives. *)
Definition Capture (ev : DomainEvent) (id : Z) : result string OutboxRow :=
  let? _ := validate ev in
  Ok {| row_ID := id; row_Entity := Entity ev; row_ProjectID := ProjectID ev; row_Squad := Squad ev; row_EventType := EventType ev;
        row_Item := WorkItemID ev; row_RunID := RunID ev; row_Payload := body_of (ev_Payload ev) |}.

(** The tenancy of the item's row, if there is one, goes into the event's. *)
Definition capture_for (entity : string) (item : option (string * option string)) (workItemID runID eventType payload : string) (id : Z)
    : result string OutboxRow :=
  match item with
  | None => Err "work_item not found (no event captured)"
  | Some (project, team) =>
      Ok {| row_ID := id; row_Entity := entity; row_ProjectID := project; row_Squad := default "" team; row_EventType := eventType;
            row_Item := workItemID; row_RunID := runID; row_Payload := body_of payload |}
  end.

Definition CaptureForWorkItem item (workItemID runID eventType payload : string) (id : Z) : result string OutboxRow :=
  if bool_decide (workItemID = "") then Err "workItemID is required"
  else if bool_decide (eventType = "") then Err "eventType is required"
  else capture_for "work_item" item workItemID runID eventType payload id.

Definition CaptureRunForWorkItem item (workItemID runID eventType payload : string) (id : Z) : result string OutboxRow :=
  if bool_decide (workItemID = "") then Err "workItemID is required"
  else if bool_decide (runID = "") then Err "runID is required"
  else if bool_decide (eventType = "") then Err "eventType is required"
  else capture_for "run" item workItemID runID eventType payload id.

(** * The backlog *)

(** The committed rows with their flush stamps, the rows of open transactions, the
    sequence, and the messages the bus has persisted, in order. *)
Record Store : Set := {
  rows : gmap Z (OutboxRow * option Z); opened : gmap Z OutboxRow; nextval : Z; bus : list (string * string) }.

Definition by_id (a b : OutboxRow) : Prop := row_ID a <= row_ID b.
#[export] Instance by_id_dec a b : Decision (by_id a b).
Proof. unfold by_id. apply _. Defined.

Definition backlog (w : Store) : list OutboxRow :=
  merge_sort by_id (fst <$> filter (fun r => snd r = None) ((map_to_list (rows w)).*2)).

(** Unpublished *)
Definition scan (limit : Z) (w : Store) : list OutboxRow :=
  if 0 <? limit then take (Z.to_nat limit) (backlog w) else backlog w.

Definition stamp_row (now : Z) (r : OutboxRow * option Z) : OutboxRow * option Z :=
  match snd r with None => (fst r, Some now) | Some _ => r end.
Definition stamped (now id : Z) (w : Store) : Store :=
  {| rows := alter (stamp_row now) id (rows w); opened := opened w; nextval := nextval w; bus := bus w |}.
Definition persisted (subject data : string) (w : Store) : Store :=
  {| rows := rows w; opened := opened w; nextval := nextval w; bus := bus w ++ [(subject, data)] |}.

(** Depth *)
Definition depth (w : Store) : Z * Z := (Z.of_nat (size (rows w)), Z.of_nat (length (backlog w))).

(** * The relay *)

Inductive Call : Type -> Type :=
| Unpublished (limit : Z) : Call (option (list OutboxRow))
| CtxErr : Call bool
| Publish (subject data : string) : Call bool
| MarkPublished (id : Z) : Call bool
| IncPublishFailures : Call unit
| Depth : Call (option (Z * Z))
| SetDepth (total unflushed : Z) : Call unit
| ConsumerLag : Call (option Z)
| SetConsumerLag (pending : Z) : Call unit.

Notation Prog := (Calls.Prog Call).
Notation ret := Ret.

Section relay.
Context (prefix : string) (batch : Z) (lag : bool).

Definition subject_of (r : OutboxRow) : string :=
  Subject prefix (row_Entity r) (row_ProjectID r) (row_Squad r) (row_EventType r).

(** The counts of the rows published and failed. *)
Fixpoint flush_rows (l : list OutboxRow) (published failed : nat) : Prog (nat * nat) :=
  match l with
  | [] => ret (published, failed)
  | r :: l =>
      let* stop := call CtxErr in
      if stop : bool then ret (published, failed)
      else
        let* acked := call (Publish (subject_of r) (row_Payload r)) in
        if negb acked then let* _ := call IncPublishFailures in flush_rows l published (S failed)
        else
          let* marked := call (MarkPublished (row_ID r)) in
          if marked : bool then flush_rows l (S published) failed else flush_rows l published (S failed)
  end.

(** [lag]: the publisher reports consumer lag. *)
Definition refreshMetrics : Prog unit :=
  let* d := call Depth in
  let* _ := (match d with Some (total, unflushed) => call (SetDepth total unflushed) | None => ret tt end) in
  if negb lag then ret tt
  else
    let* pending := call ConsumerLag in
    match pending with Some n => call (SetConsumerLag n) | None => ret tt end.

(** [None]: the backlog could not be read. *)
Definition Flush : Prog (option (nat * nat)) :=
  let* l := call (Unpublished batch) in
  match l with
  | None => ret None
  | Some l =>
      let* counts := flush_rows l 0 0 in
      let* _ := refreshMetrics in
      ret (Some counts)
  end.

(** The Waker field: unset, or an interface that holds a nil *PgWaker or one. *)
Inductive WakerField : Set := NoWaker | NilWaker | SomeWaker.
Inductive Tick : Set := Ticked | Woken | Done.
Inductive Stopped : Set := Cancelled | NilDereference.

(** [None]: the loop waits for more. *)
Fixpoint loop (ticks : list Tick) : Prog (option Stopped) :=
  match ticks with
  | [] => ret None
  | Done :: _ => ret (Some Cancelled)
  | _ :: ticks => let* _ := Flush in loop ticks
  end.

Definition Run (w : WakerField) (ticks : list Tick) : Prog (option Stopped) :=
  match w with
  | NilWaker => ret (Some NilDereference)
  | _ => let* _ := Flush in loop ticks
  end.
End relay.

(** What cmd/event-relay gives the relay: the *PgWaker of NewPgWaker, nil when it
    cannot listen. *)
Definition relay_waker (listening : bool) : WakerField := if listening then SomeWaker else NilWaker.

(** * The table, the bus and the relays together *)

(** How a call is answered. A publish may fail before or after the bus has persisted
    the message, and so may a stamp. *)
Definition serves X (c : Call X) (w : Store) : X -> Store -> Prop :=
  match c in Call X return X -> Store -> Prop with
  | Unpublished limit => fun x w' => w' = w /\ (x = None \/ x = Some (scan limit w))
  | Publish subject data => fun x w' => w' = persisted subject data w \/ (x = false /\ w' = w)
  | MarkPublished id => fun x w' => (exists now, w' = stamped now id w) \/ (x = false /\ w' = w)
  | Depth => fun x w' => w' = w /\ (x = None \/ x = Some (depth w))
  | _ => fun _ w' => w' = w
  end.

Record Sys : Type := { store : Store; relays : list (Prog (option (nat * nat))) }.

Definition no_store : Store := {| rows := ∅; opened := ∅; nextval := 1; bus := [] |}.

(** A capture in a transaction that then commits or does not, a flush that begins, a
    call of one in progress, and a crash. *)
Inductive step (prefix : string) (batch : Z) (lag : bool) : Sys -> Sys -> Prop :=
| step_insert w ts r :
    row_ID r = nextval w ->
    step prefix batch lag {| store := w; relays := ts |}
      {| store := {| rows := rows w; opened := <[nextval w := r]> (opened w); nextval := nextval w + 1; bus := bus w |}; relays := ts |}
| step_commit w ts id r :
    opened w !! id = Some r ->
    step prefix batch lag {| store := w; relays := ts |}
      {| store := {| rows := <[id := (r, None)]> (rows w); opened := delete id (opened w); nextval := nextval w; bus := bus w |}; relays := ts |}
| step_rollback w ts id :
    step prefix batch lag {| store := w; relays := ts |}
      {| store := {| rows := rows w; opened := delete id (opened w); nextval := nextval w; bus := bus w |}; relays := ts |}
| step_flush w ts :
    step prefix batch lag {| store := w; relays := ts |} {| store := w; relays := ts ++ [Flush prefix batch lag] |}
| step_call w ts i X (c : Call X) k x w' :
    ts !! i = Some (Do c k) -> serves X c w x w' ->
    step prefix batch lag {| store := w; relays := ts |} {| store := w'; relays := <[i := k x]> ts |}
| step_crash w ts i :
    step prefix batch lag {| store := w; relays := ts |} {| store := w; relays := delete i ts |}.

Definition reachable (prefix : string) (batch : Z) (lag : bool) (s : Sys) : Prop :=
  rtc (step prefix batch lag) {| store := no_store; relays := [] |} s.
