(* ===== verification/OutboxProps.v ===== *)
(** The outbox: subjects decode to their components, no stamp without a message, no
    message without a committed row, and a flush that reaches every row. *)
From Stdlib Require Import Ascii.
From S2P Require Import Prelude GoStr Wire Calls Outbox.
Open Scope Z_scope.
Open Scope k8s_scope.

(** * Subjects *)

Notation bytes_of := String.list_ascii_of_string.

Lemma bytes_app s t : bytes_of (s ++ t)%string = bytes_of s ++ bytes_of t.
Proof. induction s as [|a s IH]; [done|]. change (a :: bytes_of (s ++ t)%string = a :: (bytes_of s ++ bytes_of t)). by rewrite IH. Qed.

(** A rune is an ASCII byte, or has none. *)
Definition rune_shape (r : string) : Prop :=
  (exists a, r = String a "" /\ (nat_of_ascii a < 128)%nat) \/ (forall a, a ∈ bytes_of r -> (128 <= nat_of_ascii a)%nat).

Lemma in_range_spec lo hi a : in_range lo hi a = true <-> (lo <= nat_of_ascii a <= hi)%nat.
Proof. unfold in_range. rewrite andb_true_iff, !Nat.leb_le. lia. Qed.

Lemma RuneError_high : rune_shape RuneError.
Proof. right. intros a Ha. vm_compute in Ha. repeat (apply elem_of_cons in Ha as [->|Ha]; [vm_compute; lia|]). by apply not_elem_of_nil in Ha. Qed.

Lemma leading_high a lo hi more : leading a = Some (lo, hi, more) -> (128 <= nat_of_ascii a)%nat /\ (128 <= lo)%nat.
Proof.
  unfold leading. repeat match goal with |- context [if in_range ?l ?h a then _ else _] => destruct (in_range l h a) eqn:? end;
    intros [= <- <- <-]; repeat match goal with H : in_range _ _ _ = true |- _ => apply in_range_spec in H end; lia.
Qed.

Lemma high_string l : Forall (fun a => (128 <= nat_of_ascii a)%nat) l -> rune_shape (String.string_of_list_ascii l).
Proof.
  intros Hl. right. rewrite String.list_ascii_of_string_of_list_ascii. by apply Forall_forall.
Qed.

Lemma runes_shape s : Forall rune_shape (runes s).
Proof.
  induction s as [s IH] using (induction_ltof1 _ String.length). unfold ltof in IH.
  destruct s as [|a s1]; [constructor|]. assert (H1 : Forall rune_shape (runes s1)) by (apply IH; cbn; lia).
  cbn [runes]. destruct (in_range 0 127 a) eqn:Ha.
  { apply in_range_spec in Ha. constructor; [left; exists a; split; [done|lia]|done]. }
  assert (He : Forall rune_shape (RuneError :: runes s1)) by (constructor; [apply RuneError_high|done]).
  destruct (leading a) as [[[lo hi] more]|] eqn:Hl; [|done]. apply leading_high in Hl as [Hah Hlo].
  destruct s1 as [|b s2]; [done|]. destruct (in_range lo hi b) eqn:Hb; cbn [negb]; [|done].
  apply in_range_spec in Hb. assert (Hbh : (128 <= nat_of_ascii b)%nat) by lia.
  assert (H2 : Forall rune_shape (runes s2)) by (apply IH; cbn; lia).
  assert (Hc : forall c, continuation c = true -> (128 <= nat_of_ascii c)%nat) by (intros c; unfold continuation; rewrite in_range_spec; lia).
  destruct more as [|[|more]].
  - constructor; [by apply (high_string [a; b]); repeat constructor|done].
  - destruct s2 as [|c s3]; [done|]. destruct (continuation c) eqn:Hcc; [|done].
    constructor; [apply (high_string [a; b; c]); repeat constructor; auto|apply IH; cbn; lia].
  - destruct s2 as [|c [|d s4]]; [done|done|]. destruct (continuation c) eqn:Hcc, (continuation d) eqn:Hcd; cbn [andb]; try done.
    constructor; [apply (high_string [a; b; c; d]); repeat constructor; auto|apply IH; cbn; lia].
Qed.

(** No byte of a sanitized token splits or widens a subject. *)
Definition special (a : ascii) : Prop := a ∈ ["."; " "; "009"; "*"; ">"]%char.

Lemma special_ascii a : special a -> (nat_of_ascii a < 128)%nat.
Proof.
  unfold special. intros H. repeat (apply elem_of_cons in H as [->|H]; [vm_compute; lia|]). by apply not_elem_of_nil in H.
Qed.

Lemma sanitize_rune_clean r : rune_shape r -> forall a, a ∈ bytes_of (sanitize_rune r) -> ~ special a.
Proof.
  intros Hr a Ha Hs. unfold sanitize_rune in Ha. case_bool_decide as Hin.
  - apply list_elem_of_singleton in Ha as ->. unfold special in Hs.
    repeat (apply elem_of_cons in Hs as [Hs|Hs]; [discriminate|]). by apply not_elem_of_nil in Hs.
  - destruct Hr as [(b & -> & _)|Hr].
    + apply list_elem_of_singleton in Ha as ->. apply Hin. unfold special in Hs.
      repeat (apply elem_of_cons in Hs as [->|Hs]; [vm_compute; repeat (first [left|right])|]). by apply not_elem_of_nil in Hs.
    + apply Hr in Ha. apply special_ascii in Hs. lia.
Qed.

Lemma bytes_concat l a : a ∈ bytes_of (String.concat "" l) <-> exists s, s ∈ l /\ a ∈ bytes_of s.
Proof.
  induction l as [|s l IH].
  - split; [intros H; by apply not_elem_of_nil in H|intros (? & H & _); by apply not_elem_of_nil in H].
  - transitivity (a ∈ bytes_of s \/ a ∈ bytes_of (String.concat "" l)).
    + destruct l as [|s' l]; [cbn; split; [by left|by intros [?|H]; [|apply not_elem_of_nil in H]]|].
      change (String.concat "" (s :: s' :: l)) with (s ++ "" ++ String.concat "" (s' :: l))%string.
      rewrite !bytes_app, elem_of_app. done.
    + rewrite IH. setoid_rewrite elem_of_cons. naive_solver.
Qed.

Lemma sanitizeToken_clean tok a : a ∈ bytes_of (sanitizeToken tok) -> ~ special a.
Proof.
  unfold sanitizeToken. case_bool_decide.
  - intros Ha Hs. apply list_elem_of_singleton in Ha as ->. unfold special in Hs.
    repeat (apply elem_of_cons in Hs as [Hs|Hs]; [discriminate|]). by apply not_elem_of_nil in Hs.
  - intros (s & (r & -> & Hr)%list_elem_of_fmap & Ha)%bytes_concat. pose proof (runes_shape tok) as Hall.
    rewrite Forall_forall in Hall. by eapply sanitize_rune_clean; [apply Hall|].
Qed.

(** ** Splitting *)

Lemma split_not_nil sep s : split sep s <> [].
Proof. destruct s as [|c s]; cbn; [done|]. destruct (split sep s); [done|]. by case_bool_decide. Qed.

Lemma split_none sep s : sep ∉ bytes_of s -> split sep s = [s].
Proof.
  induction s as [|c s IH]; [done|]. cbn. intros Hn. apply not_elem_of_cons in Hn as [Hc Hs].
  rewrite (IH Hs). by rewrite bool_decide_false by congruence.
Qed.

Lemma split_cons sep s t : sep ∉ bytes_of s -> split sep (s ++ String sep t)%string = s :: split sep t.
Proof.
  induction s as [|c s IH].
  - intros _. change (split sep (String sep t) = "" :: split sep t). cbn. destruct (split sep t) eqn:Ht; [by apply split_not_nil in Ht|]. by rewrite bool_decide_true.
  - intros Hn. apply not_elem_of_cons in Hn as [Hc Hs].
    change (split sep (String c (s ++ String sep t)) = String c s :: split sep t). cbn. rewrite (IH Hs).
    by rewrite bool_decide_false by congruence.
Qed.

Lemma split_join sep l : l <> [] -> Forall (fun s => sep ∉ bytes_of s) l -> split sep (String.concat (String sep "") l) = l.
Proof.
  intros Hne Hl. induction Hl as [|s l Hs Hl IH]; [done|]. destruct l as [|s' l]; [by apply split_none|].
  change (split sep (s ++ String sep (String.concat (String sep "") (s' :: l)))%string = s :: s' :: l).
  rewrite split_cons by done. by rewrite IH.
Qed.

(** ** Tokens that stand for themselves *)

(** Printable ASCII without separator and wildcards, not empty. *)
Definition plain (a : ascii) : bool := in_range 33 126 a && bool_decide (a ∉ ["."; "*"; ">"]%char).
Definition token (t : string) : bool := negb (bool_decide (t = "")) && forallb plain (bytes_of t).

Lemma sanitize_token t : token t = true -> sanitizeToken t = t.
Proof.
  unfold token, sanitizeToken. rewrite andb_true_iff, negb_true_iff. intros [Hne Hall]. rewrite Hne. clear Hne.
  rewrite forallb_forall in Hall. induction t as [|a t IH]; [done|].
  assert (Ha : plain a = true) by (apply Hall; by left). unfold plain in Ha.
  apply andb_true_iff in Ha as [Hr Hs]. apply in_range_spec in Hr. apply bool_decide_eq_true in Hs.
  cbn [runes]. assert (in_range 0 127 a = true) as -> by (apply in_range_spec; lia). cbn [fmap list_fmap].
  assert (sanitize_rune (String a "") = String a "") as ->.
  { unfold sanitize_rune. rewrite bool_decide_false; [done|]. intros H. apply Hs.
    repeat (apply elem_of_cons in H as [[= ->]|H]; [first [repeat (first [left|right]); fail|vm_compute in Hr; lia|set_solver]|]).
    by apply not_elem_of_nil in H. }
  assert (String.concat "" (String a "" :: (sanitize_rune <$> runes t)) = String a (String.concat "" (sanitize_rune <$> runes t))) as ->.
  { destruct (sanitize_rune <$> runes t); [done|]. reflexivity. }
  f_equal. apply IH. intros b Hb. apply Hall. by right.
Qed.

(** A subject always decodes to the components it was composed of. Whatever the
    columns of a row hold, the subject it is published under has exactly the five
    tokens prefix, entity, project, squad and event type, each its sanitized column,
    so no column can add a token, shift another or widen a subscription; and for
    columns of plain tokens (and no squad, or one that is not the stand-in) what a
    subscriber recovers is what the row holds. *)
Theorem subject_roundtrip p e pr sq et :
  let shown t := sanitizeToken (if bool_decide (t = "") then nullSquadToken else t) in
  ParseSubject (Subject p e pr sq et) =
    Ok {| sp_Prefix := sanitizeToken (if bool_decide (p = "") then DefaultPrefix else p); sp_Entity := sanitizeToken e;
          sp_ProjectID := sanitizeToken pr; sp_Squad := if bool_decide (shown sq = nullSquadToken) then "" else shown sq;
          sp_EventType := sanitizeToken et |} /\
  (Forall (fun t => token t = true) [p; e; pr; et] -> sq = "" \/ (token sq = true /\ sq <> nullSquadToken) ->
   ParseSubject (Subject p e pr sq et) =
     Ok {| sp_Prefix := p; sp_Entity := e; sp_ProjectID := pr; sp_Squad := sq; sp_EventType := et |}).
Proof.
  intros shown.
  assert (H : ParseSubject (Subject p e pr sq et) =
    Ok {| sp_Prefix := sanitizeToken (if bool_decide (p = "") then DefaultPrefix else p); sp_Entity := sanitizeToken e;
          sp_ProjectID := sanitizeToken pr; sp_Squad := if bool_decide (shown sq = nullSquadToken) then "" else shown sq;
          sp_EventType := sanitizeToken et |}).
  { unfold ParseSubject, Subject. rewrite split_join; [reflexivity|done|]. apply Forall_forall.
    intros s (t & -> & _)%list_elem_of_fmap Hd. eapply sanitizeToken_clean; [exact Hd|]. left. }
  split; [exact H|]. intros Ht Hsq. rewrite H.
  apply Forall_cons in Ht as [Hp Ht]. apply Forall_cons in Ht as [He Ht]. apply Forall_cons in Ht as [Hpr Ht].
  apply Forall_cons in Ht as [Het _]. assert (p <> "") by (by intros ->). rewrite (bool_decide_false (p = "")) by done.
  rewrite !sanitize_token by done. do 2 f_equal. unfold shown. destruct Hsq as [->|[Hsq Hn]]; [done|].
  assert (sq <> "") by (by intros ->). rewrite (bool_decide_false (sq = "")), sanitize_token by done. by rewrite bool_decide_false.
Qed.

Lemma subject_roundtrip_witness :
  ParseSubject (Subject "ksquad" "run" "p-1" "" "reconcile_advanced") =
    Ok {| sp_Prefix := "ksquad"; sp_Entity := "run"; sp_ProjectID := "p-1"; sp_Squad := ""; sp_EventType := "reconcile_advanced" |}.
Proof. apply (proj2 (subject_roundtrip "ksquad" "run" "p-1" "" "reconcile_advanced")); [by repeat constructor|by left]. Defined.

(** * The relay *)

Section relay.
Context (prefix : string) (batch : Z) (lag : bool).
Implicit Types (hist h : list (Event Call)).

Definition flushed hist (r : OutboxRow) : Prop :=
  (exists l, answered hist (Unpublished batch) (Some l) /\ r ∈ l) /\ answered hist (Publish (subject_of prefix r) (row_Payload r)) true.

(** What a flush may ask: it publishes rows of its backlog under their own subject,
    and stamps what was acknowledged. *)
Definition relaying hist X (c : Call X) : Prop :=
  match c with
  | Publish subject data => exists l r, answered hist (Unpublished batch) (Some l) /\ r ∈ l /\ subject = subject_of prefix r /\ data = row_Payload r
  | MarkPublished id => exists r, flushed hist r /\ row_ID r = id
  | _ => True
  end.

Lemma ok_flush_rows l : forall all hist pub failed, answered hist (Unpublished batch) (Some all) -> l ⊆ all ->
  obeys relaying any_answer (fun _ _ => True) hist (flush_rows prefix l pub failed).
Proof.
  induction l as [|r l IH]; intros all hist pub failed Hall Hin; cbn [flush_rows]; [done|].
  assert (Hr : r ∈ all) by (apply Hin; left). assert (Hl : l ⊆ all) by (intros x Hx; apply Hin; by right).
  cbn [obeys pbind call]. split; [done|]. intros stop _. destruct stop; [done|]. cbn [obeys pbind call]. split.
  { exists all, r. split; [by apply answered_app|done]. }
  intros acked _. destruct acked; cbn [negb].
  - cbn [obeys pbind call]. split.
    { exists r. split; [|done]. split; [exists all; split; [by do 2 apply answered_app|done]|apply answered_last]. }
    intros [] _; (eapply IH; [by do 3 apply answered_app|done]).
  - cbn [obeys pbind call]. split; [done|]. intros [] _. eapply IH; [by do 3 apply answered_app|done].
Qed.

Lemma ok_refreshMetrics hist : obeys relaying any_answer (fun _ _ => True) hist (refreshMetrics lag).
Proof.
  unfold refreshMetrics. cbn [obeys pbind call]. split; [done|]. intros d _. apply obeys_bind.
  assert (Ht : forall h, obeys relaying any_answer (fun _ _ => True) h (if negb lag then ret tt
    else let* pending := call ConsumerLag in match pending with Some n => call (SetConsumerLag n) | None => ret tt end)).
  { intros h. destruct lag; cbn [negb]; [|done]. cbn [obeys pbind call]. split; [done|]. by intros [n|] _. }
  destruct d as [[total unflushed]|]; [|apply Ht]. cbn [obeys call]. split; [done|]. intros [] _. apply Ht.
Qed.

Lemma ok_Flush : obeys relaying any_answer (fun _ _ => True) [] (Flush prefix batch lag).
Proof.
  unfold Flush. cbn [obeys pbind call]. split; [done|]. intros [l|] _; [|done].
  apply obeys_bind. eapply obeys_weaken; [by eapply ok_flush_rows; [apply answered_last|]|]. intros h counts _ _.
  apply obeys_bind. eapply obeys_weaken; [apply ok_refreshMetrics|done].
Qed.

(** ** The invariant *)

Definition has_row (w : Store) (r : OutboxRow) : Prop := exists p, rows w !! row_ID r = Some (r, p).
Definition sent (w : Store) (r : OutboxRow) : Prop := (subject_of prefix r, row_Payload r) ∈ bus w.

(** What a relay has seen is so. *)
Definition seen (w : Store) hist : Prop :=
  (forall l r, answered hist (Unpublished batch) (Some l) -> r ∈ l -> has_row w r) /\
  (forall subject data, answered hist (Publish subject data) true -> (subject, data) ∈ bus w).

Record good (s : Sys) : Prop := {
  g_key : forall id r p, rows (store s) !! id = Some (r, p) -> row_ID r = id;
  g_open : forall id r, opened (store s) !! id = Some r -> row_ID r = id /\ rows (store s) !! id = None /\ id < nextval (store s);
  g_next : forall id r p, rows (store s) !! id = Some (r, p) -> id < nextval (store s);
  g_stamp : forall id r now, rows (store s) !! id = Some (r, Some now) -> sent (store s) r;
  g_bus : forall m, m ∈ bus (store s) -> exists r, has_row (store s) r /\ m = (subject_of prefix r, row_Payload r);
  g_relay : Forall (fun p => exists hist, seen (store s) hist /\ obeys relaying any_answer (fun _ _ => True) hist p) (relays s) }.

(** The store only grows. *)
Definition grows (w w' : Store) : Prop := (forall r, has_row w r -> has_row w' r) /\ (forall m, m ∈ bus w -> m ∈ bus w').

Lemma seen_grows w w' hist : grows w w' -> seen w hist -> seen w' hist.
Proof. intros [Hr Hb] [H1 H2]. split; eauto. Qed.

Lemma relays_grow w w' ts : grows w w' ->
  Forall (fun p : Prog (option (nat * nat)) => exists hist, seen w hist /\ obeys relaying any_answer (fun _ _ => True) hist p) ts ->
  Forall (fun p => exists hist, seen w' hist /\ obeys relaying any_answer (fun _ _ => True) hist p) ts.
Proof. intros Hg Hf. eapply Forall_impl; [exact Hf|]. cbn. intros p (hist & Hs & Ho). exists hist. split; [by eapply seen_grows|done]. Qed.

Lemma backlog_rows w r : r ∈ backlog w <-> exists id, rows w !! id = Some (r, None).
Proof.
  unfold backlog. rewrite merge_sort_Permutation, list_elem_of_fmap. split.
  - intros ([r' p] & -> & (Hp & Hin)%list_elem_of_filter). cbn in *. subst p.
    apply list_elem_of_fmap in Hin as ([id x] & [= <-] & Hin). apply elem_of_map_to_list in Hin. by exists id.
  - intros [id Hid]. exists (r, None). split; [done|]. apply list_elem_of_filter. split; [done|].
    apply list_elem_of_fmap. exists (id, (r, None)). split; [done|]. by apply elem_of_map_to_list.
Qed.

Lemma scan_backlog limit w r : r ∈ scan limit w -> r ∈ backlog w.
Proof. unfold scan. destruct (0 <? limit); [|done]. apply elem_of_take_weaken || (intros H; by eapply elem_of_sublist; [|apply sublist_take]). Qed.

Lemma stamped_row now id w r p : rows (stamped now id w) !! row_ID r = Some (r, p) -> exists p0, rows w !! row_ID r = Some (r, p0) /\
  (p = p0 \/ p0 = None /\ p = Some now /\ id = row_ID r).
Proof.
  cbn. destruct (decide (id = row_ID r)) as [->|Hne]; [rewrite lookup_alter_eq|rewrite lookup_alter_ne by done; intros ->; eauto].
  destruct (rows w !! row_ID r) as [[r0 [t|]]|]; cbn; [| |done]; unfold stamp_row; cbn; intros [= -> <-]; eauto 8.
Qed.

Lemma stamped_has now id w r : has_row w r -> has_row (stamped now id w) r.
Proof.
  intros [p Hp]. unfold has_row. cbn. destruct (decide (id = row_ID r)) as [->|Hne]; [rewrite lookup_alter_eq, Hp|rewrite lookup_alter_ne by done; eauto].
  destruct p; cbn; unfold stamp_row; cbn; eauto.
Qed.

Lemma serves_grows X (c : Call X) w x w' : serves X c w x w' -> grows w w'.
Proof.
  assert (Hid : grows w w) by by split.
  destruct c; cbn; intros H.
  - by destruct H as [-> _].
  - by subst.
  - destruct H as [->|[_ ->]]; [|done]. split; [done|]. intros m Hm. cbn. apply elem_of_app. by left.
  - destruct H as [[now ->]|[_ ->]]; [|done]. split; [|done]. intros r. apply stamped_has.
  - by subst.
  - by destruct H as [-> _].
  - by subst.
  - by subst.
  - by subst.
Qed.

Lemma good_call w ts i X (c : Call X) k x w' :
  good {| store := w; relays := ts |} -> ts !! i = Some (Do c k) -> serves X c w x w' ->
  good {| store := w'; relays := <[i := k x]> ts |}.
Proof.
  intros [Hk Ho Hn Hs Hb Ht] Hi Hx. cbn in *. pose proof (serves_grows _ _ _ _ _ Hx) as Hg.
  pose proof (proj1 (Forall_lookup _ _) Ht i _ Hi) as (hist & Hseen & Hc & Hkx).
  assert (Hts : Forall (fun p => exists hist, seen w' hist /\ obeys relaying any_answer (fun _ _ => True) hist p) (<[i := k x]> ts)).
  { apply Forall_insert; [by eapply relays_grow|]. exists (hist ++ [Ev c x]). split; [|by apply Hkx].
    apply (seen_grows _ _ _ Hg) in Hseen as [H1 H2]. split.
    - intros l r [Ha|He]%elem_of_app Hin; [by eapply H1|]. apply list_elem_of_singleton in He.
      destruct c; try (apply (f_equal (fun e => match e with @Ev _ X c _ => match c with Unpublished _ => true | _ => false end end)) in He; discriminate He).
      cbn in Hx. destruct Hx as [-> Hx].
      apply (f_equal (fun e => match e with @Ev _ X c x => match c in Call X return X -> option (list OutboxRow) with Unpublished _ => fun x => x | _ => fun _ => None end x end)) in He.
      cbn in He. destruct Hx as [->| ->]; [discriminate|]. injection He as ->.
      apply scan_backlog, backlog_rows in Hin as [id Hid]. exists None. by rewrite (Hk _ _ _ Hid).
    - intros subject data [Ha|He]%elem_of_app; [by eapply H2|]. apply list_elem_of_singleton in He.
      apply (f_equal (fun e => match e with @Ev _ X c x => match c in Call X return X -> option (string * string * bool) with Publish s d => fun x => Some (s, d, x) | _ => fun _ => None end x end)) in He.
      destruct c; try discriminate He. injection He as H3 H4 H5. subst. cbn in Hx. destruct Hx as [->|[Hf _]]; [|discriminate].
      cbn. apply elem_of_app. right. by left. }
  assert (Hsame : forall r, has_row w r -> has_row w' r) by apply Hg.
  destruct c; cbn in Hx; try (destruct Hx as [-> _]; by constructor); try (subst w'; by constructor).
  - destruct Hx as [->|[_ ->]]; [|by constructor]. destruct Hc as (l & r & Hl & Hin & -> & ->). constructor; cbn; try done.
    + intros id r0 now Hid. cbn. apply elem_of_app. left. by eapply Hs.
    + intros m [Hm|Hm]%elem_of_app; [by apply Hb|]. apply list_elem_of_singleton in Hm as ->. exists r. split; [|done].
      by eapply (proj1 Hseen).
  - destruct Hx as [[now ->]|[_ ->]]; [|by constructor].
    assert (Hback : forall id0 r p, rows (stamped now id w) !! id0 = Some (r, p) ->
      row_ID r = id0 /\ exists p0, rows w !! id0 = Some (r, p0) /\ (p = p0 \/ p0 = None /\ p = Some now /\ id = id0)).
    { intros id0 r p Hid. assert (row_ID r = id0) as <-; [|split; [done|by apply stamped_row]].
      cbn in Hid. destruct (decide (id = id0)) as [->|Hne]; [rewrite lookup_alter_eq in Hid|rewrite lookup_alter_ne in Hid by done; by eapply Hk].
      destruct (rows w !! id0) as [[r0 q]|] eqn:E; [|done]. apply Hk in E. unfold stamp_row in Hid. destruct q; cbn in Hid; congruence. }
    constructor; [| | | | |done]; cbn [store].
    + intros id0 r p Hid. by apply Hback in Hid as [? _].
    + intros id0 r Hid. destruct (Ho _ _ Hid) as (? & Hnone & ?). split_and!; [done| |done].
      cbn. destruct (decide (id = id0)) as [->|Hne]; [rewrite lookup_alter_eq, Hnone|rewrite lookup_alter_ne]; done.
    + intros id0 r p Hid. apply Hback in Hid as (_ & p0 & Hid & _). by eapply Hn.
    + intros id0 r t Hid. destruct (Hback _ _ _ Hid) as (Hkey & p0 & Hid0 & [<-|(-> & [= <-] & <-)]); [by eapply Hs|].
      destruct Hc as (r' & [(l & Hl & Hin) Hp] & Hr'). pose proof (proj1 Hseen _ _ Hl Hin) as [q Hq]. rewrite Hr', Hid0 in Hq.
      injection Hq as <- _. by apply (proj2 Hseen).
    + intros m Hm. destruct (Hb m Hm) as (r & Hr & ->). exists r. split; [by apply Hsame|done].
Qed.

Lemma good_step s s' : good s -> step prefix batch lag s s' -> good s'.
Proof.
  intros Hg Hstep. destruct Hstep as [w ts r Hr|w ts id r Hid|w ts id|w ts|w ts i X c k x w' Hi Hx|w ts i]; [| | | |by eapply good_call|];
    destruct Hg as [Hk Ho Hn Hs Hb Ht]; cbn in *.
  - constructor; cbn; try done.
    + intros id r0 Hid. destruct (decide (id = nextval w)) as [->|Hne].
      * rewrite lookup_insert_eq in Hid. injection Hid as <-. split_and!; [done| |lia].
        destruct (rows w !! nextval w) as [[r1 p]|] eqn:E; [|done]. apply Hn in E. lia.
      * rewrite lookup_insert_ne in Hid by done. apply Ho in Hid as (? & ? & ?). split_and!; [done|done|lia].
    + intros id r0 p Hid. apply Hn in Hid. lia.
  - destruct (Ho _ _ Hid) as (Hkey & Hnone & Hlt).
    assert (Hgr : grows w {| rows := <[id := (r, None)]> (rows w); opened := delete id (opened w); nextval := nextval w; bus := bus w |}).
    { split; [|done]. intros r0 [p Hp]. exists p. cbn. rewrite lookup_insert_ne; [done|]. intros ->. congruence. }
    constructor; cbn.
    + intros id0 r0 p. destruct (decide (id = id0)) as [->|Hne]; [rewrite lookup_insert_eq; intros [= <- _]; done|rewrite lookup_insert_ne by done; apply Hk].
    + intros id0 r0. destruct (decide (id = id0)) as [->|Hne]; [by rewrite lookup_delete_eq|rewrite lookup_delete_ne by done].
      intros H. destruct (Ho _ _ H) as (? & ? & ?). by rewrite lookup_insert_ne.
    + intros id0 r0 p. destruct (decide (id = id0)) as [->|Hne]; [done|rewrite lookup_insert_ne by done; apply Hn].
    + intros id0 r0 now. destruct (decide (id = id0)) as [->|Hne]; [by rewrite lookup_insert_eq|rewrite lookup_insert_ne by done; apply Hs].
    + intros m Hm. destruct (Hb m Hm) as (r0 & Hr0 & ->). exists r0. split; [by apply Hgr|done].
    + by eapply relays_grow.
  - constructor; cbn; try done. intros id0 r0. destruct (decide (id = id0)) as [->|Hne]; [by rewrite lookup_delete_eq|rewrite lookup_delete_ne by done; apply Ho].
  - constructor; cbn; try done. apply Forall_app. split; [done|]. constructor; [|done]. exists []. split; [|apply ok_Flush].
    split; [intros l r H|intros subject data H]; by apply not_elem_of_nil in H.
  - constructor; cbn; try done. by apply Forall_delete.
Qed.

Lemma good_reachable s : reachable prefix batch lag s -> good s.
Proof.
  assert (H0 : good {| store := no_store; relays := [] |}).
  { constructor; cbn; try done. intros m Hm. by apply not_elem_of_nil in Hm. }
  unfold reachable. revert H0. generalize {| store := no_store; relays := [] |}. intros s0 H0 Hr. induction Hr; [done|].
  apply IHHr. by eapply good_step.
Qed.
End relay.

(** C26: No event is lost and none is made up. In every state of writers, relays and
    a bus that fail and crash at any point, a row of the outbox that is stamped as
    published has its message on the bus, under the row's own subject with the
    row's payload; and every message on the bus is that of a committed row, never
    of a transaction that rolled back. Stamps aside, a committed row never changes
    and never goes. *)
Theorem outbox_at_least_once prefix batch lag s :
  reachable prefix batch lag s ->
  (forall id r now, rows (store s) !! id = Some (r, Some now) -> (subject_of prefix r, row_Payload r) ∈ bus (store s)) /\
  (forall m, m ∈ bus (store s) -> exists id r p, rows (store s) !! id = Some (r, p) /\ m = (subject_of prefix r, row_Payload r)) /\
  (forall s', step prefix batch lag s s' -> forall id r p, rows (store s) !! id = Some (r, p) ->
     exists p', rows (store s') !! id = Some (r, p') /\ (p = None \/ p' = p)).
Proof.
  intros Hr. pose proof (good_reachable _ _ _ _ Hr) as Hg. destruct Hg as [Hk Ho Hn Hs Hb Ht]. split_and!; [done| |].
  - intros m Hm. destruct (Hb m Hm) as (r & [p Hp] & ->). eauto.
  - intros s' Hstep id r p Hid. destruct Hstep as [w ts r0 Hr0|w ts id0 r0 Hid0|w ts id0|w ts|w ts i X c k x w' Hi Hx|w ts i]; cbn in *; eauto.
    + destruct (Ho _ _ Hid0) as (_ & Hnone & _). exists p. rewrite lookup_insert_ne by congruence. eauto.
    + destruct c; cbn in Hx; try (destruct Hx as [-> _]; eauto); try (subst w'; eauto).
      * destruct Hx as [->|[_ ->]]; eauto.
      * destruct Hx as [[now ->]|[_ ->]]; [|eauto]. cbn. destruct (decide (id0 = id)) as [->|Hne].
        { rewrite lookup_alter_eq, Hid. destruct p; cbn; unfold stamp_row; cbn; eauto. }
        { rewrite lookup_alter_ne by done. eauto. }
Qed.

(** * A flush that nothing disturbs *)

Definition message (prefix : string) (r : OutboxRow) : string * string := (subject_of prefix r, row_Payload r).

(** The database and the bus answer, and the context is alive. *)
Definition healthy X (c : Call X) (w : Store) (x : X) (w' : Store) : Prop :=
  serves X c w x w' /\
  match c in Call X return X -> Prop with
  | Unpublished _ => fun x => x <> None
  | CtxErr => fun x => x = false
  | Publish _ _ | MarkPublished _ => fun x => x = true
  | _ => fun _ => True
  end x.

Definition keyed (w : Store) : Prop := forall id r p, rows w !! id = Some (r, p) -> row_ID r = id.

Lemma stamped_keyed now id w : keyed w -> keyed (stamped now id w).
Proof.
  intros Hk id0 r p. cbn. destruct (decide (id = id0)) as [->|Hne]; [rewrite lookup_alter_eq|rewrite lookup_alter_ne by done; apply Hk].
  destruct (rows w !! id0) as [[r0 q]|] eqn:E; [|done]. apply Hk in E. unfold stamp_row. destruct q; cbn; intros [= <- _]; done.
Qed.

Lemma stamped_backlog now id w r : keyed w -> r ∈ backlog (stamped now id w) <-> r ∈ backlog w /\ row_ID r <> id.
Proof.
  intros Hk. rewrite !backlog_rows. split.
  - intros [id0 Hid]. pose proof (stamped_keyed now id w Hk _ _ _ Hid) as <-.
    destruct (stamped_row _ _ _ _ _ Hid) as (p0 & Hp0 & [<-|(_ & [=] & _)]). split; [eauto|]. intros Heq.
    cbn in Hid. rewrite Heq, lookup_alter_eq in Hid. rewrite Heq in Hp0. by rewrite Hp0 in Hid.
  - intros ([id0 Hid] & Hne). pose proof (Hk _ _ _ Hid) as Hkey. exists id0. cbn. by rewrite lookup_alter_ne by congruence.
Qed.

Lemma flush_rows_healthy prefix l : forall pub failed w t counts w',
  keyed w -> runs healthy (flush_rows prefix l pub failed) w t counts w' ->
  keyed w' /\ counts = (pub + length l, failed)%nat /\ bus w' = bus w ++ (message prefix <$> l) /\
  forall r, r ∈ backlog w' <-> r ∈ backlog w /\ row_ID r ∉ row_ID <$> l.
Proof.
  induction l as [|r0 l IH]; intros pub failed w t counts w' Hk; cbn [flush_rows].
  - intros (-> & -> & <-)%runs_inv. rewrite Nat.add_0_r, app_nil_r. split_and!; try done. intros r. split; [|tauto].
    intros H. split; [done|]. apply not_elem_of_nil.
  - intros (stop & w1 & t1 & -> & [Hs ->] & H)%runs_inv. cbn in Hs, H. subst w1.
    apply runs_inv in H as (acked & w2 & t2 & -> & [Hs ->] & H). cbn in Hs. destruct Hs as [->|[? _]]; [|done]. cbn in H.
    apply runs_inv in H as (marked & w3 & t3 & -> & [Hs ->] & H). cbn in Hs. destruct Hs as [[now ->]|[? _]]; [|done]. cbn in H.
    assert (Hk1 : keyed (persisted (subject_of prefix r0) (row_Payload r0) w)) by exact Hk.
    apply IH in H as (Hk' & -> & Hb & Hl); [|by apply stamped_keyed].
    split_and!; [done|f_equal; cbn; lia| |].
    + rewrite Hb. cbn. by rewrite <- app_assoc.
    + intros r. rewrite Hl, (stamped_backlog _ _ _ _ Hk1). rewrite fmap_cons, not_elem_of_cons. cbn.
      change (backlog (persisted (subject_of prefix r0) (row_Payload r0) w)) with (backlog w). tauto.
Qed.

Lemma refreshMetrics_healthy lag w t u w' : runs healthy (refreshMetrics lag) w t u w' -> w' = w.
Proof.
  unfold refreshMetrics. intros (d & w1 & t1 & -> & [[-> _] _] & H)%runs_inv. cbn in H.
  apply runs_bind in H as (t2 & v & w2 & t3 & -> & H1 & H2).
  assert (w2 = w) as ->.
  { destruct d as [[total unflushed]|]; [|by apply runs_inv in H1 as (_ & _ & <-)].
    apply runs_inv in H1 as (x & w3 & t4 & _ & [Hs _] & H1). cbn in Hs. subst. by apply runs_inv in H1 as (_ & _ & <-). }
  destruct lag; cbn [negb] in H2; [|by apply runs_inv in H2 as (_ & _ & <-)].
  apply runs_inv in H2 as (n & w3 & t4 & _ & [Hs _] & H2). cbn in Hs, H2. subst. destruct n as [n|]; [|by apply runs_inv in H2 as (_ & _ & <-)].
  apply runs_inv in H2 as (x & w3 & t5 & _ & [Hs _] & H2). cbn in Hs. subst. by apply runs_inv in H2 as (_ & _ & <-).
Qed.

Lemma backlog_sorted w : StronglySorted by_id (backlog w).
Proof.
  assert (Total by_id) by (intros a b; unfold by_id; lia). assert (Transitive by_id) by (intros a b c; unfold by_id; lia).
  apply (StronglySorted_merge_sort _ _).
Qed.

(** C27: A flush that nothing disturbs drains the backlog. While the database and the
    bus answer, a flush from any reachable state publishes the rows committed and
    not yet stamped (the lowest ids of them, where a batch limit is set), each once
    and in the order of their ids, stamps exactly these and reports no failure: the
    backlog that is left is the rest, and without a limit nothing is left. *)
Theorem flush_drains prefix batch lag s t r w' :
  reachable prefix batch lag s -> runs healthy (Flush prefix batch lag) (store s) t r w' ->
  let l := scan batch (store s) in
  r = Some (length l, 0)%nat /\ bus w' = bus (store s) ++ (message prefix <$> l) /\ StronglySorted by_id l /\
  (forall x, x ∈ backlog w' <-> x ∈ backlog (store s) /\ row_ID x ∉ row_ID <$> l) /\
  (batch <= 0 -> backlog w' = []).
Proof.
  intros Hr H l. assert (Hk : keyed (store s)) by (pose proof (good_reachable _ _ _ _ Hr) as Hg; by destruct Hg).
  unfold Flush in H. apply runs_inv in H as (rs & w1 & t1 & -> & [[-> Hrs] Hne] & H). destruct Hrs as [->| ->]; [done|].
  change (runs healthy (let* counts := flush_rows prefix l 0 0 in let* _ := refreshMetrics lag in ret (Some counts)) (store s) t1 r w') in H.
  apply runs_bind in H as (t2 & counts & w2 & t3 & -> & H1 & H2).
  apply flush_rows_healthy in H1 as (_ & -> & Hb & Hl); [|done].
  apply runs_bind in H2 as (t4 & u & w3 & t5 & -> & Hm & (_ & -> & <-)%runs_inv). apply refreshMetrics_healthy in Hm as ->.
  assert (Hall : forall x, x ∈ backlog w2 <-> x ∈ backlog (store s) /\ row_ID x ∉ row_ID <$> l) by exact Hl.
  split_and!; [done|done| |done|].
  - unfold l, scan. destruct (0 <? batch); [|apply backlog_sorted].
    pose proof (backlog_sorted (store s)) as Hs. revert Hs. generalize (backlog (store s)) (Z.to_nat batch). clear.
    induction l as [|x l IH]; intros n Hs; [by rewrite take_nil|]. destruct n as [|n]; [constructor|].
    apply StronglySorted_inv in Hs as [Hs Hf]. cbn. constructor; [by apply IH|by apply Forall_take].
  - intros Hz. destruct (backlog w2) as [|x bl] eqn:E; [done|]. exfalso.
    assert (Hx : x ∈ x :: bl) by left. rewrite Hall in Hx by done. destruct Hx as [Hx Hn]. apply Hn.
    apply list_elem_of_fmap. exists x. split; [done|]. unfold l, scan. rewrite (proj2 (Z.ltb_ge 0 batch)) by lia. done.
Qed.

(** ** Concrete histories *)

(** A flush on its own is a path of the system. *)
Lemma runs_steps prefix batch lag (p : Prog (option (nat * nat))) w t a w' ts i :
  runs serves p w t a w' -> ts !! i = Some p ->
  rtc (step prefix batch lag) {| store := w; relays := ts |} {| store := w'; relays := <[i := Ret a]> ts |}.
Proof.
  intros Hr. revert ts. induction Hr as [a w|X c k x w w1 t a w2 Hc Hr IH]; intros ts Hi.
  - by rewrite list_insert_id.
  - eapply rtc_l; [eapply step_call; [exact Hi|exact Hc]|]. assert (Hlt : (i < length ts)%nat) by by eapply lookup_lt_Some.
    rewrite <- (list_insert_insert_eq ts i (Ret a) (k x)). apply IH. by apply list_lookup_insert_eq.
Qed.

Definition row1 : OutboxRow :=
  {| row_ID := 1; row_Entity := "run"; row_ProjectID := "p1"; row_Squad := ""; row_EventType := "started"; row_Item := ""; row_RunID := "u1"; row_Payload := "{}" |}.
Definition captured : Store := {| rows := {[1 := (row1, None)]}; opened := ∅; nextval := 2; bus := [] |}.

Lemma captured_reachable : reachable "ksquad" 0 false {| store := captured; relays := [Flush "ksquad" 0 false] |}.
Proof.
  eapply rtc_l; [eapply (step_insert _ _ _ no_store [] row1); reflexivity|].
  eapply rtc_l; [eapply (step_commit _ _ _ _ [] 1 row1); reflexivity|]. eapply rtc_l; [apply step_flush|]. apply rtc_refl.
Qed.

Definition flush_script : list (Event Call) :=
  [Ev (Unpublished 0) (Some [row1]); Ev CtxErr false; Ev (Publish "ksquad.run.p1._.started" "{}") true; Ev (MarkPublished 1) true; Ev Depth None].
Definition flushed_store : Store := stamped 9 1 (persisted "ksquad.run.p1._.started" "{}" captured).

Lemma flush_script_runs : runs healthy (Flush "ksquad" 0 false) captured flush_script (Some (1, 0)%nat) flushed_store.
Proof.
  unfold flush_script. step_call. eapply runs_do with (w1 := captured); [split; [split; [done|right; vm_compute; reflexivity]|done]|cbv beta].
  step_call. eapply runs_do with (w1 := captured); [done|cbv beta].
  step_call. eapply (runs_do _ _ (Publish "ksquad.run.p1._.started" "{}")) with (w1 := persisted "ksquad.run.p1._.started" "{}" captured); [split; [by left|done]|cbv beta].
  step_call. eapply runs_do with (w1 := flushed_store); [split; [left; by exists 9|done]|cbv beta].
  step_call. eapply runs_do with (w1 := flushed_store); [split; [split; [done|by left]|done]|cbv beta]. halt.
Qed.

Lemma flush_drains_witness : bus flushed_store = [("ksquad.run.p1._.started", "{}")] /\ backlog flushed_store = [].
Proof.
  destruct (flush_drains "ksquad" 0 false _ _ _ _ captured_reachable flush_script_runs) as (_ & _ & _ & _ & H).
  split; [reflexivity|apply H; lia].
Defined.

Lemma runs_weaken {W A} (h h' : forall X, Call X -> W -> X -> W -> Prop) (p : Prog A) w t a w' :
  (forall X (c : Call X) w x w', h X c w x w' -> h' X c w x w') -> runs h p w t a w' -> runs h' p w t a w'.
Proof. intros Hh. induction 1; econstructor; eauto. Qed.

Lemma flushed_reachable : reachable "ksquad" 0 false {| store := flushed_store; relays := [Ret (Some (1, 0)%nat)] |}.
Proof.
  unfold reachable. etrans; [exact captured_reachable|].
  apply (runs_steps _ _ _ _ _ _ _ _ [Flush "ksquad" 0 false] 0 (runs_weaken _ _ _ _ _ _ _ (fun X c w x w' H => proj1 H) flush_script_runs) eq_refl).
Qed.

Lemma outbox_at_least_once_witness : (subject_of "ksquad" row1, "{}") ∈ bus flushed_store.
Proof. apply (proj1 (outbox_at_least_once _ _ _ _ flushed_reachable) 1 row1 9). reflexivity. Defined.

(** Without LISTEN the relay is documented to fall back to its poll. The worker
    hands the relay the nil *PgWaker of the failed listener, an interface that is
    not nil, and the relay dereferences it before its first flush. *)
Lemma relay_panics_without_listen prefix batch lag ticks :
  Run prefix batch lag (relay_waker false) ticks = Ret (Some NilDereference).
Proof. reflexivity. Qed.
