(* ===== verification/RunStream.v ===== *)
(** The live stream of a run: the projector that tails the outbox
    (src/internal/apiserver/runevents.go), the hub and the handler of one connection
    (sse.go), over the readers of src/pkg/events/store.go. What happens in between
    any two of their steps is a move of its own: commits, scans, publishes, replays
    and writes interleave freely. *)
From Stdlib Require Import Ascii.
From S2P Require Import Prelude GoStr Outbox.
Open Scope Z_scope.
Open Scope k8s_scope.

(** * Readers *)

Definition defaultRunEventLimit : Z := 1000.
Definition limit_of (limit : Z) : nat := Z.to_nat (if limit <=? 0 then defaultRunEventLimit else limit).

(** The run rows that carry a run, by id. *)
Definition is_run (r : OutboxRow) : bool := bool_decide (row_Entity r = "run").
Definition run_rows (w : Store) : list OutboxRow :=
  merge_sort by_id (filter (fun r => is_run r = true /\ row_RunID r <> "") ((map_to_list (rows w)).*2.*1)).

Definition LatestRunEventID (w : Store) : Z :=
  foldr (fun r m => Z.max (row_ID r) m) 0 (filter (fun r => is_run r = true) ((map_to_list (rows w)).*2.*1)).

Definition RunEventsAfter (w : Store) (afterID limit : Z) : list OutboxRow :=
  take (limit_of limit) (filter (fun r => afterID < row_ID r) (run_rows w)).
Definition RunEventsForRun (w : Store) (runID : string) (afterID limit : Z) : list OutboxRow :=
  take (limit_of limit) (filter (fun r => row_RunID r = runID /\ afterID < row_ID r) (run_rows w)).

(** * Server-sent events *)

(** The Event of sse.go. *)
Record SSE : Set := { sse_ID : string; sse_Type : string; sse_Data : string }.

Definition runEventToSSE (r : OutboxRow) : SSE :=
  {| sse_ID := itoa (row_ID r); sse_Type := row_EventType r; sse_Data := row_Payload r |}.

Definition LF : ascii := "010"%char.
Definition nl : string := String LF "".

(** What writeEvent sends. *)
Definition writeEvent (ev : SSE) : string :=
  (if bool_decide (sse_ID ev = "") then "" else "id: " +:+ sse_ID ev +:+ nl) +:+
  (if bool_decide (sse_Type ev = "") then "" else "event: " +:+ sse_Type ev +:+ nl) +:+
  String.concat "" ((fun line => "data: " +:+ line +:+ nl) <$> split LF (sse_Data ev)) +:+ nl.

(** ^[A-Za-z0-9_-]+$ *)
Definition id_char (a : ascii) : bool :=
  let n := nat_of_ascii a in
  ((65 <=? n) && (n <=? 90) || (97 <=? n) && (n <=? 122) || (48 <=? n) && (n <=? 57) || (n =? 95) || (n =? 45))%nat.
Definition runIDPattern (s : string) : bool := negb (bool_decide (s = "")) && forallb id_char (String.list_ascii_of_string s).

(** The header's value, unless the query has one. *)
Definition parseLastEventID (header query : string) : Z :=
  let raw := if bool_decide (query = "") then header else query in
  match atoi raw with Some id => if id <? 0 then 0 else id | None => 0 end.

(** The key to subscribe under: the run's UID where it resolves. [None]: refused. *)
Definition subKey (runID : string) (resolved : option string) : option string :=
  if negb (runIDPattern runID) then None
  else match resolved with
       | Some uid => if runIDPattern uid then Some uid else Some runID
       | None => Some runID
       end.

(** * The projector, the hub and the connections *)

Definition subBuffer : nat := 64.

(** A connection: subscribed and not yet replayed, or at its loop with the highest id
    replayed. What it has written is [out]. *)
Inductive PC : Set := Subscribed | Streaming (replayedThrough : Z).
Record Conn : Set := { cn_key : string; cn_after : Z; cn_pc : PC; cn_ch : list SSE; cn_out : list SSE }.

Definition projectBridgeEventTypes : list string := ["thinking"].

Record Live : Set := {
  st : Store; seeded : bool; lastID : Z; pending : list OutboxRow; conns : list Conn;
  slugCache : gmap string string; bridged : list (string * SSE) }.

Definition booted (w : Store) : Live :=
  {| st := w; seeded := false; lastID := 0; pending := []; conns := []; slugCache := ∅; bridged := [] |}.

Definition set_conns (cs : list Conn) (s : Live) : Live :=
  {| st := st s; seeded := seeded s; lastID := lastID s; pending := pending s; conns := cs; slugCache := slugCache s; bridged := bridged s |}.

(** One subscriber's part of Publish: dropped when its buffer is full. *)
Definition deliver (run : string) (ev : SSE) (c : Conn) : Conn :=
  if bool_decide (cn_key c = run) && (length (cn_ch c) <? subBuffer)%nat
  then {| cn_key := cn_key c; cn_after := cn_after c; cn_pc := cn_pc c; cn_ch := cn_ch c ++ [ev]; cn_out := cn_out c |} else c.
Definition Publish (run : string) (ev : SSE) (cs : list Conn) : list Conn := deliver run ev <$> cs.

(** bridgeToProject; [resolved]: the resolver's answer. The cache and the publishes. *)
Definition bridgeToProject (armed : bool) (resolved : option string) (r : OutboxRow) (ev : SSE) (cache : gmap string string)
    : gmap string string * list (string * SSE) :=
  if negb armed then (cache, [])
  else if bool_decide (row_EventType r ∉ projectBridgeEventTypes) then (cache, [])
  else if bool_decide (row_ProjectID r = "") then (cache, [])
  else
    match cache !! row_ProjectID r with
    | Some slug => (cache, [(slug, ev)])
    | None =>
        match resolved with
        | Some slug => (<[row_ProjectID r := slug]> cache, [(slug, ev)])
        | None => (cache, [])
        end
    end.

(** The highest id among the events replayed. *)
Definition through (evs : list SSE) : Z :=
  foldl (fun m ev => match atoi (sse_ID ev) with Some id => if m <? id then id else m | None => m end) (-1) evs.

(** The replay of one connection; [None]: it failed. *)
Definition replay (w : Store) (ok : bool) (c : Conn) : Conn :=
  match cn_pc c with
  | Streaming _ => c
  | Subscribed =>
      if ok then
        let evs := runEventToSSE <$> RunEventsForRun w (cn_key c) (cn_after c) 0 in
        {| cn_key := cn_key c; cn_after := cn_after c; cn_pc := Streaming (through evs); cn_ch := cn_ch c; cn_out := cn_out c ++ evs |}
      else {| cn_key := cn_key c; cn_after := cn_after c; cn_pc := Streaming (-1); cn_ch := cn_ch c; cn_out := cn_out c |}
  end.

(** The next event of the channel: dropped if it was replayed, else written. *)
Definition receive (c : Conn) : Conn :=
  match cn_pc c, cn_ch c with
  | Streaming th, ev :: ch =>
      let dup := match atoi (sse_ID ev) with Some id => id <=? th | None => false end in
      {| cn_key := cn_key c; cn_after := cn_after c; cn_pc := cn_pc c; cn_ch := ch; cn_out := if dup then cn_out c else cn_out c ++ [ev] |}
  | _, _ => c
  end.

(** A run event commits; the projector seeds its watermark (or cannot), scans, and
    publishes the next row of its scan; a client connects, has its replay, is
    written the next event, and leaves; the process restarts. *)
Inductive Move : Set :=
| Commits (r : OutboxRow)
| Seeds (ok : bool)
| Scans (ok : bool)
| Fans (armed : bool) (slug : option string)
| Connects (runID : string) (resolved : option string) (header query : string)
| Replays (i : nat) (ok : bool)
| Receives (i : nat)
| Leaves (i : nat)
| Reboots.

(** The projector's scans are unlimited but for the reader's cap. *)
Definition batch : Z := 0.

(** A row with an id of the sequence that is not taken. *)
Definition fresh (w : Store) (r : OutboxRow) : bool :=
  (0 <? row_ID r) && (row_ID r <? 2 ^ 63) && bool_decide (rows w !! row_ID r = None).

Definition move (s : Live) (m : Move) : Live :=
  match m with
  | Commits r =>
      if fresh (st s) r then
        {| st := {| rows := <[row_ID r := (r, None)]> (rows (st s)); opened := opened (st s); nextval := nextval (st s); bus := bus (st s) |};
           seeded := seeded s; lastID := lastID s; pending := pending s; conns := conns s; slugCache := slugCache s; bridged := bridged s |}
      else s
  | Seeds ok =>
      if seeded s then s
      else {| st := st s; seeded := true; lastID := if ok then LatestRunEventID (st s) else 0; pending := []; conns := conns s;
              slugCache := slugCache s; bridged := bridged s |}
  | Scans ok =>
      match pending s with
      | [] => if seeded s && ok then
                {| st := st s; seeded := seeded s; lastID := lastID s; pending := RunEventsAfter (st s) (lastID s) batch; conns := conns s;
                   slugCache := slugCache s; bridged := bridged s |}
              else s
      | _ => s
      end
  | Fans armed slug =>
      match pending s with
      | [] => s
      | r :: l =>
          let ev := runEventToSSE r in
          let '(cache, b) := bridgeToProject armed slug r ev (slugCache s) in
          {| st := st s; seeded := seeded s; lastID := if lastID s <? row_ID r then row_ID r else lastID s; pending := l;
             conns := Publish (row_RunID r) ev (conns s); slugCache := cache; bridged := bridged s ++ b |}
      end
  | Connects runID resolved header query =>
      match subKey runID resolved with
      | None => s
      | Some key =>
          set_conns (conns s ++ [{| cn_key := key; cn_after := parseLastEventID header query; cn_pc := Subscribed; cn_ch := []; cn_out := [] |}]) s
      end
  | Replays i ok => set_conns (alter (replay (st s) ok) i (conns s)) s
  | Receives i => set_conns (alter receive i (conns s)) s
  | Leaves i => set_conns (delete i (conns s)) s
  | Reboots => booted (st s)
  end.
