(* ===== verification/RunStreamProps.v ===== *)
(** The live stream of a run: what a connection writes is in order and never twice;
    it is complete while ids commit in order, buffers hold and the replay is not cut;
    and where it is not. *)
From Stdlib Require Import Ascii.
From S2P Require Import Prelude GoStr Outbox OutboxProps RunStream.
Open Scope Z_scope.
Open Scope k8s_scope.

(** * Rows in order *)

#[export] Instance OutboxRow_eq_dec : EqDecision OutboxRow.
Proof. solve_decision. Defined.

Definition asc (l : list OutboxRow) : Prop := StronglySorted (fun a b => row_ID a < row_ID b) l.

Record wf (w : Store) : Prop := {
  wf_key : keyed w; wf_id : forall id r p, rows w !! id = Some (r, p) -> 0 < id < 2 ^ 63 }.

Lemma asc_snoc l x : asc l -> (forall y, y ∈ l -> row_ID y < row_ID x) -> asc (l ++ [x]).
Proof.
  induction 1 as [|y l Hl IH Hy]; intros Hx; cbn; [repeat constructor|].
  constructor; [apply IH; intros z Hz; apply Hx; by right|]. apply Forall_app. split; [done|]. repeat constructor. apply Hx. left.
Qed.

Lemma asc_sublist l l' : l `sublist_of` l' -> asc l' -> asc l.
Proof.
  induction 1 as [|x l l' Hs IH|x l l' Hs IH]; intros Ha; [done| |]; apply StronglySorted_inv in Ha as [Ha Hx].
  - constructor; [by apply IH|]. apply Forall_forall. intros y Hy. rewrite Forall_forall in Hx. apply Hx. by eapply elem_of_sublist.
  - by apply IH.
Qed.

Lemma sublist_filter_of {A} (P : A -> Prop) `{!forall x, Decision (P x)} (l : list A) : filter P l `sublist_of` l.
Proof.
  induction l as [|x l IH]; [constructor|]. rewrite filter_cons. destruct (decide (P x)); by constructor.
Qed.

Lemma asc_filter (P : OutboxRow -> Prop) `{!forall x, Decision (P x)} l : asc l -> asc (filter P l).
Proof. apply asc_sublist, sublist_filter_of. Qed.
Lemma asc_take n l : asc l -> asc (take n l).
Proof. apply asc_sublist, sublist_take. Qed.

Lemma asc_app_inv l1 l2 x y : asc (l1 ++ l2) -> x ∈ l1 -> y ∈ l2 -> row_ID x < row_ID y.
Proof.
  induction l1 as [|z l1 IH]; intros Ha Hx Hy; [by apply not_elem_of_nil in Hx|].
  apply StronglySorted_inv in Ha as [Ha Hz]. apply elem_of_cons in Hx as [->|Hx]; [|by apply IH].
  rewrite Forall_forall in Hz. apply Hz. apply elem_of_app. by right.
Qed.

Lemma run_rows_spec w r : wf w ->
  r ∈ run_rows w <-> is_run r = true /\ row_RunID r <> "" /\ exists p, rows w !! row_ID r = Some (r, p).
Proof.
  intros Hw. unfold run_rows. rewrite merge_sort_Permutation, list_elem_of_filter, list_elem_of_fmap. split.
  - intros [[H1 H2] ([r' p] & -> & Hin)]. apply list_elem_of_fmap in Hin as ([id x] & [= <-] & Hin).
    apply elem_of_map_to_list in Hin. cbn in *. pose proof (wf_key _ Hw _ _ _ Hin) as <-. eauto.
  - intros (H1 & H2 & p & Hp). split; [done|]. exists (r, p). split; [done|]. apply list_elem_of_fmap.
    exists (row_ID r, (r, p)). split; [done|]. by apply elem_of_map_to_list.
Qed.

Lemma sorted_asc l : StronglySorted by_id l -> NoDup (row_ID <$> l) -> asc l.
Proof.
  induction 1 as [|x l Hl IH Hx]; intros Hn; [constructor|]. cbn in Hn. apply NoDup_cons in Hn as [Hni Hn].
  constructor; [by apply IH|]. apply Forall_forall. intros y Hy. rewrite Forall_forall in Hx. specialize (Hx y Hy).
  unfold by_id in Hx. assert (row_ID x <> row_ID y); [|lia]. intros Heq. apply Hni. apply list_elem_of_fmap. by exists y.
Qed.

Lemma row_ids_nodup w : keyed w -> NoDup (row_ID <$> (map_to_list (rows w)).*2.*1).
Proof.
  intros Hk. assert (row_ID <$> (map_to_list (rows w)).*2.*1 = (map_to_list (rows w)).*1) as ->.
  { assert (Hall : Forall (fun x => row_ID x.2.1 = x.1) (map_to_list (rows w))).
    { apply Forall_forall. intros [id [r p]] Hin. apply elem_of_map_to_list in Hin. cbn. by eapply Hk. }
    rewrite <- !list_fmap_compose. apply list_fmap_ext. intros i x Hi. rewrite Forall_lookup in Hall. by apply (Hall i). }
  apply NoDup_fst_map_to_list.
Qed.

Lemma run_rows_asc w : wf w -> asc (run_rows w).
Proof.
  intros Hw. apply sorted_asc.
  - assert (Total by_id) by (intros a b; unfold by_id; lia). assert (Transitive by_id) by (intros a b c; unfold by_id; lia).
    apply (StronglySorted_merge_sort _ _).
  - unfold run_rows. rewrite merge_sort_Permutation. eapply sublist_NoDup; [apply (row_ids_nodup w (wf_key _ Hw))|apply fmap_sublist, sublist_filter_of].
Qed.

(** An ordered list is determined by its members. *)
Lemma asc_ext l : forall l', asc l -> asc l' -> (forall r, r ∈ l <-> r ∈ l') -> l = l'.
Proof.
  induction l as [|x l IH]; intros l' Hl Hl' He.
  - destruct l' as [|y l']; [done|]. exfalso. apply (not_elem_of_nil y), He. left.
  - destruct l' as [|y l']; [exfalso; apply (not_elem_of_nil x), He; left|].
    apply StronglySorted_inv in Hl as [Hl Hx]. apply StronglySorted_inv in Hl' as [Hl' Hy]. rewrite Forall_forall in Hx, Hy.
    assert (x = y) as <-.
    { assert (H1 : x ∈ y :: l') by (apply He; left). assert (H2 : y ∈ x :: l) by (apply He; left).
      apply elem_of_cons in H1 as [->|H1]; [done|]. apply elem_of_cons in H2 as [->|H2]; [done|].
      specialize (Hx _ H2). specialize (Hy _ H1). lia. }
    f_equal. apply IH; [done|done|]. intros r. split; intros Hr.
    + assert (H : r ∈ x :: l') by (apply He; by right). apply elem_of_cons in H as [->|H]; [|done]. specialize (Hx _ Hr). lia.
    + assert (H : r ∈ x :: l) by (apply He; by right). apply elem_of_cons in H as [->|H]; [|done]. specialize (Hy _ Hr). lia.
Qed.

Lemma sse_id r : 0 < row_ID r < 2 ^ 63 -> atoi (sse_ID (runEventToSSE r)) = Some (row_ID r).
Proof. intros H. apply atoi_itoa. lia. Qed.

(** * One connection *)

(** A committed row of the run. *)
Definition row_of (w : Store) (key : string) (r : OutboxRow) : Prop := r ∈ run_rows w /\ row_RunID r = key.

(** The channel and what was written, by the rows they carry. *)
Record conn_ok (w : Store) (last_ : Z) (c : Conn) (chr outr : list OutboxRow) : Prop := {
  co_ch : cn_ch c = runEventToSSE <$> chr;
  co_out : cn_out c = runEventToSSE <$> outr;
  co_rows : forall r, r ∈ outr ++ chr -> row_of w (cn_key c) r;
  co_chasc : asc chr;
  co_outasc : asc outr;
  co_last : forall r, r ∈ chr -> row_ID r <= last_;
  co_pc : match cn_pc c with
          | Subscribed => outr = []
          | Streaming th => forall o, o ∈ outr -> row_ID o <= th \/ (row_ID o <= last_ /\ forall r, r ∈ chr -> row_ID o < row_ID r)
          end }.

Record live_ok (s : Live) : Prop := {
  lo_wf : wf (st s);
  lo_last : 0 <= lastID s;
  lo_pasc : asc (pending s);
  lo_pending : forall r, r ∈ pending s -> r ∈ run_rows (st s) /\ lastID s < row_ID r;
  lo_unseeded : seeded s = false -> pending s = [] /\ lastID s = 0;
  lo_conns : Forall (fun c => exists chr outr, conn_ok (st s) (lastID s) c chr outr) (conns s) }.

Lemma run_rows_id w r : wf w -> r ∈ run_rows w -> 0 < row_ID r < 2 ^ 63.
Proof. intros Hw Hr. apply run_rows_spec in Hr as (_ & _ & p & Hp); [|done]. by eapply wf_id. Qed.

(** More rows and a higher watermark are no trouble. *)
Lemma conn_ok_mono w w' n n' c chr outr :
  (forall r, r ∈ run_rows w -> r ∈ run_rows w') -> n <= n' -> conn_ok w n c chr outr -> conn_ok w' n' c chr outr.
Proof.
  intros Hr Hn [H1 H2 H3 H4 H5 H6 H7]. constructor; try done.
  - intros r Hin. destruct (H3 r Hin). split; auto.
  - intros r Hin. specialize (H6 r Hin). lia.
  - destruct (cn_pc c); [done|]. intros o Ho. destruct (H7 o Ho) as [?|[? ?]]; [by left|right]. split; [lia|done].
Qed.

Lemma deliver_ok w n r c chr outr :
  wf w -> r ∈ run_rows w -> n < row_ID r -> conn_ok w n c chr outr ->
  conn_ok w (row_ID r) (deliver (row_RunID r) (runEventToSSE r) c)
    (if bool_decide (cn_key c = row_RunID r) && (length (cn_ch c) <? subBuffer)%nat then chr ++ [r] else chr) outr.
Proof.
  intros Hw Hr Hn Hc. unfold deliver. destruct (bool_decide (cn_key c = row_RunID r)) eqn:Hk; cbn [andb]; cycle 1.
  { by eapply conn_ok_mono; [| |exact Hc]; [|lia]. }
  apply bool_decide_eq_true in Hk. destruct (length (cn_ch c) <? subBuffer)%nat; cycle 1.
  { by eapply conn_ok_mono; [| |exact Hc]; [|lia]. } destruct Hc as [H1 H2 H3 H4 H5 H6 H7]. constructor; cbn.
  - by rewrite H1, fmap_app.
  - done.
  - intros x. rewrite app_assoc, elem_of_app, list_elem_of_singleton. intros [Hx| ->]; [by apply H3|by split].
  - apply asc_snoc; [done|]. intros y Hy. specialize (H6 y Hy). lia.
  - done.
  - intros x [Hx|Hx]%elem_of_app; [specialize (H6 x Hx); lia|apply list_elem_of_singleton in Hx as ->; lia].
  - destruct (cn_pc c); [done|]. intros o Ho. destruct (H7 o Ho) as [?|[? Ho']]; [by left|right]. split; [lia|].
    intros x [Hx|Hx]%elem_of_app; [by apply Ho'|apply list_elem_of_singleton in Hx as ->; lia].
Qed.

(** The events of a replay, and the highest of them. *)
Lemma through_rows l : forall m, (forall r, r ∈ l -> 0 < row_ID r < 2 ^ 63) ->
  let m' := foldl (fun m ev => match atoi (sse_ID ev) with Some id => if m <? id then id else m | None => m end) m (runEventToSSE <$> l) in
  m <= m' /\ (forall r, r ∈ l -> row_ID r <= m') /\ (m' = m \/ exists r, r ∈ l /\ row_ID r = m').
Proof.
  induction l as [|x l IH]; intros m Hl; cbn [fmap list_fmap foldl].
  - split_and!; [lia|intros r Hr; by apply not_elem_of_nil in Hr|by left].
  - rewrite sse_id by (apply Hl; left). destruct (IH (if m <? row_ID x then row_ID x else m)) as (H1 & H2 & H3); [intros r Hr; apply Hl; by right|].
    destruct (Z.ltb_spec m (row_ID x)); (split_and!; [lia|intros r [->|Hr]%elem_of_cons; [lia|by apply H2]|]);
      destruct H3 as [H3|(r & Hr & H3)]; first [by left|right; exists x; split; [left|lia]|right; exists r; split; [by right|done]].
Qed.

Lemma replayed_rows w key after r limit : r ∈ RunEventsForRun w key after limit -> r ∈ run_rows w /\ row_RunID r = key /\ after < row_ID r.
Proof.
  unfold RunEventsForRun. intros Hr. assert (Hf : r ∈ filter (fun r => row_RunID r = key /\ after < row_ID r) (run_rows w))
    by by eapply elem_of_sublist, sublist_take.
  apply list_elem_of_filter in Hf as [[? ?] ?]. done.
Qed.

Lemma replay_ok w n ok c chr outr : wf w -> conn_ok w n c chr outr ->
  exists outr', conn_ok w n (replay w ok c) chr outr' /\
    match cn_pc c with
    | Streaming _ => outr' = outr
    | Subscribed => outr' = if ok then RunEventsForRun w (cn_key c) (cn_after c) 0 else []
    end.
Proof.
  intros Hw Hc. unfold replay. destruct (cn_pc c) as [|th] eqn:Hpc; [|exists outr; split; [exact Hc|done]].
  destruct Hc as [H1 H2 H3 H4 H5 H6 H7]. rewrite Hpc in H7. subst outr.
  destruct ok; [exists (RunEventsForRun w (cn_key c) (cn_after c) 0)|exists []]; (split; [|done]).
  - set (l := RunEventsForRun w (cn_key c) (cn_after c) 0).
    assert (Hl : forall r, r ∈ l -> 0 < row_ID r < 2 ^ 63) by (intros r Hr; apply replayed_rows in Hr as [? _]; by eapply run_rows_id).
    destruct (through_rows l (-1) Hl) as (_ & Hth & _). constructor; cbn; try done.
    + by rewrite H2.
    + intros r [Hr|Hr]%elem_of_app; [apply replayed_rows in Hr as (? & ? & _); by split|by apply H3].
    + apply asc_take, asc_filter. by apply run_rows_asc.
    + intros o Ho. left. by apply Hth.
  - constructor; cbn; try done. intros o Ho. by apply not_elem_of_nil in Ho.
Qed.

Lemma receive_ok w n c chr outr : wf w -> conn_ok w n c chr outr ->
  exists chr' outr', conn_ok w n (receive c) chr' outr' /\
    match cn_pc c, chr with
    | Streaming th, r :: rest => chr' = rest /\ outr' = if row_ID r <=? th then outr else outr ++ [r]
    | _, _ => chr' = chr /\ outr' = outr
    end.
Proof.
  intros Hw Hc. unfold receive. destruct Hc as [H1 H2 H3 H4 H5 H6 H7].
  destruct (cn_pc c) as [|th] eqn:Hpc; [exists chr, outr; split; [constructor; by rewrite ?Hpc|done]|].
  destruct chr as [|r rest]; rewrite H1; cbn [fmap list_fmap]; [exists [], outr; split; [constructor; by rewrite ?Hpc|done]|].
  assert (Hid : 0 < row_ID r < 2 ^ 63) by (eapply run_rows_id; [done|apply H3; apply elem_of_app; right; left]).
  rewrite sse_id by done. apply StronglySorted_inv in H4 as [H4 Hr]. rewrite Forall_forall in Hr.
  exists rest. destruct (Z.leb_spec (row_ID r) th).
  - exists outr. split; [|done]. constructor; cbn; try done.
    + intros x [Hx|Hx]%elem_of_app; apply H3, elem_of_app; [by left|right; by right].
    + intros x Hx. apply H6. by right.
    + intros o Ho. destruct (H7 o Ho) as [?|[? Hlt]]; [by left|right]. split; [done|]. intros x Hx. apply Hlt. by right.
  - exists (outr ++ [r]). split; [|done]. constructor; cbn; try done.
    + by rewrite H2, fmap_app.
    + intros x Hx. apply H3. rewrite !elem_of_app, list_elem_of_singleton in Hx. rewrite elem_of_app, elem_of_cons. tauto.
    + apply asc_snoc; [done|]. intros o Ho. destruct (H7 o Ho) as [?|[_ Hlt]]; [lia|]. apply Hlt. left.
    + intros x Hx. apply H6. by right.
    + intros o [Ho|Ho]%elem_of_app.
      * destruct (H7 o Ho) as [?|[? Hlt]]; [by left|right]. split; [done|]. intros x Hx. apply Hlt. by right.
      * apply list_elem_of_singleton in Ho as ->. right. split; [apply H6; left|done].
Qed.

(** * All the moves *)

Lemma commit_rows w r : wf w -> fresh w r = true ->
  let w' := {| rows := <[row_ID r := (r, None)]> (rows w); opened := opened w; nextval := nextval w; bus := bus w |} in
  wf w' /\ forall x, x ∈ run_rows w' <-> x ∈ run_rows w \/ (x = r /\ is_run r = true /\ row_RunID r <> "").
Proof.
  intros Hw Hf w'. unfold fresh in Hf. rewrite !andb_true_iff, !Z.ltb_lt in Hf. destruct Hf as [[H0 H63] Hn]. apply bool_decide_eq_true in Hn.
  assert (Hw' : wf w').
  { constructor.
    - intros id x p. cbn. destruct (decide (row_ID r = id)) as [<-|Hne]; [rewrite lookup_insert_eq; by intros [= <- _]|].
      rewrite lookup_insert_ne by done. apply (wf_key _ Hw).
    - intros id x p. cbn. destruct (decide (row_ID r = id)) as [<-|Hne]; [done|]. rewrite lookup_insert_ne by done. apply (wf_id _ Hw). }
  split; [done|]. intros x. rewrite !run_rows_spec by done. cbn. destruct (decide (row_ID r = row_ID x)) as [Heq|Hne].
  - rewrite Heq, lookup_insert_eq. split.
    + intros (? & ? & p & [= <- _]). by right.
    + intros [(_ & _ & p & Hp)|(-> & ? & ?)]; [rewrite <- Heq in Hp; congruence|eauto].
  - rewrite lookup_insert_ne by done. split; [by left|]. intros [?|(-> & _)]; [done|done].
Qed.

Lemma after_rows w n limit r : r ∈ RunEventsAfter w n limit -> r ∈ run_rows w /\ n < row_ID r.
Proof.
  unfold RunEventsAfter. intros Hr. assert (Hf : r ∈ filter (fun r => n < row_ID r) (run_rows w)) by by eapply elem_of_sublist, sublist_take.
  apply list_elem_of_filter in Hf as [? ?]. done.
Qed.

Lemma Latest_nonneg w : 0 <= LatestRunEventID w.
Proof. unfold LatestRunEventID. induction (filter _ _) as [|r l IH]; cbn; lia. Qed.

Lemma live_move s m : live_ok s -> live_ok (move s m).
Proof.
  intros Hs. pose proof Hs as [Hw Hl Hpa Hp Hu Hc]. destruct m as [r|ok|ok|armed slug|run res hd q|i ok|i|i|]; cbn [move].
  - destruct (fresh (st s) r) eqn:Hf; [|exact Hs]. destruct (commit_rows _ _ Hw Hf) as [Hw' Hr].
    constructor; cbn; try done.
    + intros x Hx. destruct (Hp x Hx). split; [apply Hr; by left|done].
    + eapply Forall_impl; [exact Hc|]. cbn. intros c (chr & outr & Hok). exists chr, outr.
      eapply conn_ok_mono; [|reflexivity|exact Hok]. intros x Hx. apply Hr. by left.
  - destruct (seeded s) eqn:Hsd; [exact Hs|]. destruct (Hu eq_refl) as [_ H0]. pose proof (Latest_nonneg (st s)) as HL.
    constructor; cbn; try done.
    + by destruct ok.
    + constructor.
    + intros x Hx. by apply not_elem_of_nil in Hx.
    + eapply Forall_impl; [exact Hc|]. cbn. intros c (chr & outr & Hok). exists chr, outr.
      eapply conn_ok_mono; [done| |exact Hok]. rewrite H0. by destruct ok.
  - destruct (pending s) eqn:Hpe; [|exact Hs]. destruct (seeded s && ok) eqn:Hso; [|exact Hs]. apply andb_true_iff in Hso as [Hsd ->].
    constructor; cbn; try done.
    + apply asc_take, asc_filter. by apply run_rows_asc.
    + apply after_rows.
    + rewrite Hsd. done.
  - destruct (pending s) as [|r l] eqn:Hpe; [exact Hs|]. destruct (bridgeToProject _ _ _ _ _) as [cache b].
    apply StronglySorted_inv in Hpa as [Hpa Hr]. rewrite Forall_forall in Hr. destruct (Hp r ltac:(left)) as [Hrow Hlt].
    rewrite (proj2 (Z.ltb_lt _ _) Hlt). constructor; cbn; try done.
    + lia.
    + intros x Hx. split; [apply Hp; by right|by apply Hr].
    + intros Hsd. destruct (Hu Hsd) as [? _]. done.
    + unfold Publish. apply Forall_fmap. eapply Forall_impl; [exact Hc|]. cbn. intros c (chr & outr & Hok).
      eexists _, outr. by apply (deliver_ok _ _ _ _ _ _ Hw Hrow Hlt Hok).
  - destruct (subKey run res) as [key|]; [|exact Hs]. constructor; cbn; try done. apply Forall_app. split; [done|].
    constructor; [|done]. exists [], []. constructor; cbn; try done; try (by apply SSorted_nil); intros r Hr; by apply not_elem_of_nil in Hr.
  - constructor; cbn; try done. apply Forall_alter; [done|]. intros c _ (chr & outr & Hok).
    destruct (replay_ok _ _ ok _ _ _ Hw Hok) as (outr' & Hok' & _). by exists chr, outr'.
  - constructor; cbn; try done. apply Forall_alter; [done|]. intros c _ (chr & outr & Hok).
    destruct (receive_ok _ _ _ _ _ Hw Hok) as (chr' & outr' & Hok' & _). by exists chr', outr'.
  - constructor; cbn; try done. by apply Forall_delete.
  - constructor; cbn; try done; [constructor|]. intros x Hx. by apply not_elem_of_nil in Hx.
Qed.

Definition from_scratch (ms : list Move) : Live := foldl move (booted no_store) ms.

Lemma live_moves ms : live_ok (from_scratch ms).
Proof.
  assert (H0 : live_ok (booted no_store)).
  { constructor; cbn; try done; [apply SSorted_nil|intros r Hr; by apply not_elem_of_nil in Hr]. }
  unfold from_scratch. revert H0. generalize (booted no_store). induction ms as [|m ms IH]; intros s Hs; cbn; [done|].
  by apply IH, live_move.
Qed.

(** A connection never writes an event twice, out of order, or of another run.
    Whatever commits, fails, overflows, is replayed, connects and restarts in
    between, what a connection has written is the list of committed run rows of its
    key, unaltered and in strictly ascending order of their ids. *)
Theorem stream_in_order ms :
  Forall (fun c => exists l, cn_out c = runEventToSSE <$> l /\ asc l /\ Forall (row_of (st (from_scratch ms)) (cn_key c)) l)
    (conns (from_scratch ms)).
Proof.
  eapply Forall_impl; [exact (lo_conns _ (live_moves ms))|]. cbn. intros c (chr & outr & Hok). exists outr.
  split_and!; [by destruct Hok|by destruct Hok|]. apply Forall_forall. intros r Hr. apply (co_rows _ _ _ _ _ Hok).
  apply elem_of_app. by left.
Qed.

(** * Completeness *)

(** Ids commit in order, no buffer is full, a replay succeeds and is not cut by the
    reader's cap, and the projector seeds before anyone connects. *)
Definition orderly (s : Live) (m : Move) : Prop :=
  match m with
  | Commits r => forall id x, rows (st s) !! id = Some x -> id < row_ID r
  | Seeds _ => conns s = []
  | Fans _ _ => match pending s with
                | r :: _ => Forall (fun c => cn_key c = row_RunID r -> (length (cn_ch c) < subBuffer)%nat) (conns s)
                | [] => True
                end
  | Replays i ok => ok = true /\ match conns s !! i with
      | Some c => Z.of_nat (length (filter (fun r => row_RunID r = cn_key c /\ cn_after c < row_ID r) (run_rows (st s)))) <= defaultRunEventLimit
      | None => True
      end
  | _ => True
  end.
Fixpoint all_orderly (s : Live) (ms : list Move) : Prop :=
  match ms with [] => True | m :: ms => orderly s m /\ all_orderly (move s m) ms end.

(** Everything up to the replay and the watermark was written or waits in the channel. *)
Definition covered (w : Store) (last_ : Z) (c : Conn) (chr outr : list OutboxRow) : Prop :=
  match cn_pc c with
  | Subscribed => True
  | Streaming th =>
      (th = -1 \/ exists r, r ∈ run_rows w /\ row_ID r = th) /\
      forall r, row_of w (cn_key c) r -> cn_after c < row_ID r -> row_ID r <= Z.max th last_ -> r ∈ outr \/ (r ∈ chr /\ th < row_ID r)
  end.

Record complete (s : Live) : Prop := {
  cp_last : lastID s = 0 \/ exists x, rows (st s) !! lastID s = Some x;
  cp_pending : forall r x, r ∈ run_rows (st s) -> lastID s < row_ID r -> x ∈ pending s -> r ∉ pending s -> row_ID x < row_ID r;
  cp_unseeded : seeded s = false -> pending s = [] /\ lastID s = 0;
  cp_pasc : asc (pending s);
  cp_prow : forall r, r ∈ pending s -> r ∈ run_rows (st s) /\ lastID s < row_ID r;
  cp_conns : Forall (fun c => exists chr outr, conn_ok (st s) (lastID s) c chr outr /\ covered (st s) (lastID s) c chr outr) (conns s) }.

Lemma same_row w r x : wf w -> r ∈ run_rows w -> x ∈ run_rows w -> row_ID r = row_ID x -> r = x.
Proof.
  intros Hw Hr Hx Heq. apply run_rows_spec in Hr as (_ & _ & p & Hp); [|done]. apply run_rows_spec in Hx as (_ & _ & q & Hq); [|done].
  rewrite Heq, Hq in Hp. congruence.
Qed.

Lemma Latest_row w : wf w -> LatestRunEventID w = 0 \/ exists x, rows w !! LatestRunEventID w = Some x.
Proof.
  intros Hw. unfold LatestRunEventID.
  assert (Hin : forall r, r ∈ filter (fun r => is_run r = true) (map_to_list (rows w)).*2.*1 -> exists x, rows w !! row_ID r = Some x).
  { intros r [_ Hr]%list_elem_of_filter. apply list_elem_of_fmap in Hr as ([r' p] & -> & Hr).
    apply list_elem_of_fmap in Hr as ([id x] & [= <-] & Hr). apply elem_of_map_to_list in Hr. cbn. rewrite (wf_key _ Hw _ _ _ Hr). eauto. }
  induction (filter _ _) as [|r l IH]; cbn; [by left|].
  destruct (Z.max_spec (row_ID r) (foldr (fun r m => Z.max (row_ID r) m) 0 l)) as [[_ ->]|[_ ->]].
  - apply IH. intros x Hx. apply Hin. by right.
  - right. apply Hin. left.
Qed.

Lemma covered_mono w w' n c chr outr :
  (forall r, r ∈ run_rows w -> r ∈ run_rows w') ->
  (forall r, r ∈ run_rows w' -> r ∉ run_rows w -> n < row_ID r /\ forall x, x ∈ run_rows w -> row_ID x < row_ID r) ->
  (forall r, r ∈ run_rows w' -> 0 < row_ID r) ->
  covered w n c chr outr -> covered w' n c chr outr.
Proof.
  intros Hsub Hnew Hpos. unfold covered. destruct (cn_pc c) as [|th]; [done|]. intros [Hth Hcov]. split.
  - destruct Hth as [?|(x & ? & ?)]; [by left|right; exists x; auto].
  - intros r [Hr Hk] Ha Hle. destruct (decide (r ∈ run_rows w)) as [Hin|Hnin]; [by apply Hcov|].
    destruct (Hnew r Hr Hnin) as [Hn Hx]. specialize (Hpos r Hr). destruct Hth as [->|(x & Hxr & <-)]; [lia|].
    specialize (Hx x Hxr). lia.
Qed.

Lemma complete_commit s r : live_ok s -> complete s -> orderly s (Commits r) -> complete (move s (Commits r)).
Proof.
  intros Hs Hcp Ho. cbn in Ho. cbn [move]. destruct (fresh (st s) r) eqn:Hf; [|done]. pose proof (lo_wf _ Hs) as Hw.
  destruct (commit_rows _ _ Hw Hf) as [Hw' Hr]. destruct Hcp as [H1 H2 H3 H4 H5 H6]. cbn in Hr.
  assert (Hpos : 0 < row_ID r) by (unfold fresh in Hf; rewrite !andb_true_iff, !Z.ltb_lt in Hf; lia).
  assert (Hlt : lastID s < row_ID r) by (destruct H1 as [->|(x & Hx)]; [lia|by eapply Ho]).
  assert (Hold : forall x, x ∈ run_rows (st s) -> row_ID x < row_ID r).
  { intros x Hx. apply run_rows_spec in Hx as (_ & _ & p & Hp); [|done]. by eapply Ho. }
  constructor; cbn; try done.
  - destruct H1 as [?|(x & Hx)]; [by left|right]. exists x. rewrite lookup_insert_ne; [done|]. lia.
  - intros x y Hx Hl Hy Hn. apply Hr in Hx as [Hx|(-> & _)]; [by apply H2|]. apply Hold. by apply H5.
  - intros x Hx. destruct (H5 x Hx). split; [apply Hr; by left|done].
  - eapply Forall_impl; [exact H6|]. cbn. intros c (chr & outr & Hok & Hcov). exists chr, outr. split.
    + eapply conn_ok_mono; [|reflexivity|exact Hok]. intros x Hx. apply Hr. by left.
    + eapply covered_mono; [| | |exact Hcov].
      * intros x Hx. apply Hr. by left.
      * intros x Hx Hn. apply Hr in Hx as [?|(-> & _)]; [done|]. split; [done|exact Hold].
      * intros x Hx. by destruct (run_rows_id _ _ Hw' Hx).
Qed.

Lemma complete_fans s armed slug : live_ok s -> complete s -> orderly s (Fans armed slug) -> complete (move s (Fans armed slug)).
Proof.
  intros Hs Hcp Ho. pose proof (lo_wf _ Hs) as Hw. destruct Hcp as [H1 H2 H3 H4 H5 H6]. cbn in Ho. cbn [move].
  destruct (pending s) as [|r l] eqn:Hpe; [by constructor; rewrite ?Hpe|]. destruct (bridgeToProject _ _ _ _ _) as [cache b].
  apply StronglySorted_inv in H4 as [H4 Hr]. rewrite Forall_forall in Hr. destruct (H5 r ltac:(left)) as [Hrow Hlt].
  rewrite (proj2 (Z.ltb_lt _ _) Hlt).
  assert (Hnext : forall x, x ∈ run_rows (st s) -> lastID s < row_ID x -> row_ID x <= row_ID r -> x = r).
  { intros x Hx Hlx Hle. destruct (decide (x ∈ r :: l)) as [Hin|Hnin].
    - apply elem_of_cons in Hin as [->|Hin]; [done|]. specialize (Hr x Hin). lia.
    - specialize (H2 x r Hx Hlx ltac:(left) Hnin). lia. }
  constructor; cbn; try done.
  - right. apply run_rows_spec in Hrow as (_ & _ & p & Hp); [|done]. eauto.
  - intros x y Hx Hlx Hy Hn. apply (H2 x y Hx); [lia|by right|]. apply not_elem_of_cons. split; [|done]. intros ->. lia.
  - intros Hsd. destruct (H3 Hsd). done.
  - intros x Hx. split; [apply H5; by right|by apply Hr].
  - unfold Publish. apply Forall_fmap. rewrite Forall_forall in H6, Ho. apply Forall_forall. intros c Hc. cbn.
    destruct (H6 c Hc) as (chr & outr & Hok & Hcov). eexists _, outr.
    split; [by apply (deliver_ok _ _ _ _ _ _ Hw Hrow Hlt Hok)|].
    assert (Hkey : cn_key (deliver (row_RunID r) (runEventToSSE r) c) = cn_key c /\
      cn_pc (deliver (row_RunID r) (runEventToSSE r) c) = cn_pc c /\ cn_after (deliver (row_RunID r) (runEventToSSE r) c) = cn_after c)
      by (unfold deliver; destruct (_ && _); done).
    destruct Hkey as (Hk1 & Hk2 & Hk3). unfold covered in *. rewrite Hk1, Hk2, Hk3. destruct (cn_pc c) as [|th]; [done|].
    destruct Hcov as [Hth Hcov]. split; [done|]. intros x Hx Ha Hle.
    destruct (decide (row_ID x <= Z.max th (lastID s))) as [Hold|Hnew].
    + destruct (Hcov x Hx Ha Hold) as [?|[? ?]]; [by left|right]. split; [|done]. destruct (_ && _); [apply elem_of_app; by left|done].
    + right. destruct Hx as [Hxr Hxk]. assert (x = r) as -> by (apply Hnext; [done|lia|lia]).
      split; [|lia]. rewrite bool_decide_true by done. specialize (Ho c Hc (eq_sym Hxk)). apply Nat.ltb_lt in Ho. rewrite Ho.
      cbn [andb]. apply elem_of_app. right. by left.
Qed.

Lemma uncut w key after :
  Z.of_nat (length (filter (fun r => row_RunID r = key /\ after < row_ID r) (run_rows w))) <= defaultRunEventLimit ->
  forall r, row_of w key r -> after < row_ID r -> r ∈ RunEventsForRun w key after 0.
Proof.
  intros Hlen r [Hr Hk] Ha. unfold RunEventsForRun. change (limit_of 0) with (Z.to_nat defaultRunEventLimit).
  rewrite take_ge by lia. by apply list_elem_of_filter.
Qed.

Lemma complete_move s m : live_ok s -> complete s -> orderly s m -> complete (move s m).
Proof.
  intros Hs Hcp Ho. destruct m as [r|ok|ok|armed slug|run res hd q|i ok|i|i|]; [by apply complete_commit| | |by apply complete_fans|..];
    pose proof (lo_wf _ Hs) as Hw; pose proof Hcp as [H1 H2 H3 H4 H5 H6]; cbn in Ho; cbn [move].
  - destruct (seeded s) eqn:Hsd; [done|]. constructor; cbn; try done.
    + destruct ok; [by apply Latest_row|by left].
    + intros r x _ _ Hx. by apply not_elem_of_nil in Hx.
    + apply SSorted_nil.
    + intros r Hr. by apply not_elem_of_nil in Hr.
    + rewrite Ho. constructor.
  - destruct (pending s) eqn:Hpe; [|done]. destruct (seeded s && ok) eqn:Hso; [|done]. apply andb_true_iff in Hso as [Hsd ->].
    constructor; cbn; try done.
    + intros r x Hr Hlr Hx Hn. unfold RunEventsAfter in Hx, Hn.
      set (f := filter (fun r => lastID s < row_ID r) (run_rows (st s))) in *.
      assert (Hf : asc (take (limit_of batch) f ++ drop (limit_of batch) f)).
      { rewrite take_drop. apply asc_filter. by apply run_rows_asc. }
      eapply asc_app_inv; [exact Hf|done|]. assert (Hrf : r ∈ f) by by apply list_elem_of_filter.
      rewrite <- (take_drop (limit_of batch) f) in Hrf. apply elem_of_app in Hrf as [?|?]; done.
    + by rewrite Hsd.
    + apply asc_take, asc_filter. by apply run_rows_asc.
    + apply after_rows.
  - destruct (subKey run res) as [key|]; [|done]. constructor; cbn; try done. apply Forall_app. split; [done|].
    constructor; [|done]. exists [], []. split; [|done]. constructor; cbn; try done; try (by apply SSorted_nil); intros r Hr; by apply not_elem_of_nil in Hr.
  - destruct Ho as [-> Ho]. constructor; cbn; try done. apply Forall_alter; [done|]. intros c Hc (chr & outr & Hok & Hcov).
    rewrite Hc in Ho. destruct (replay_ok _ _ true _ _ _ Hw Hok) as (outr' & Hok' & Hout). exists chr, outr'. split; [done|].
    unfold covered, replay in *. destruct (cn_pc c) as [|th] eqn:Hpc; [|rewrite Hpc; by subst]. cbn [cn_pc cn_key cn_after]. subst outr'.
    set (l := RunEventsForRun (st s) (cn_key c) (cn_after c) 0).
    assert (Hl : forall r, r ∈ l -> 0 < row_ID r < 2 ^ 63) by (intros r Hr; apply replayed_rows in Hr as [? _]; by eapply run_rows_id).
    destruct (through_rows l (-1) Hl) as (_ & _ & Hth). split.
    + destruct Hth as [Hth|(r & Hr & Hth)]; [by left|right]. exists r. split; [by apply replayed_rows in Hr as [? _]|done].
    + intros r Hr Ha _. left. by apply uncut.
  - constructor; cbn; try done. apply Forall_alter; [done|]. intros c Hc (chr & outr & Hok & Hcov).
    destruct (receive_ok _ _ _ _ _ Hw Hok) as (chr' & outr' & Hok' & Hr). exists chr', outr'. split; [done|].
    unfold covered, receive in *. destruct (cn_pc c) as [|th] eqn:Hpc; [by rewrite Hpc|]. rewrite (co_ch _ _ _ _ _ Hok).
    destruct chr as [|r rest]; cbn [fmap list_fmap]; [rewrite Hpc; destruct Hr as [-> ->]; done|]. cbn [cn_pc cn_key cn_after].
    destruct Hr as [-> ->], Hcov as [Hth Hcov]. split; [done|]. intros x Hx Ha Hle.
    destruct (Hcov x Hx Ha Hle) as [Hin|[Hin Hlt]].
    + left. destruct (row_ID r <=? th); [done|]. apply elem_of_app. by left.
    + apply elem_of_cons in Hin as [->|Hin]; [|by right]. left. rewrite (proj2 (Z.leb_gt _ _)) by lia. apply elem_of_app. right. by left.
  - constructor; cbn; try done. by apply Forall_delete.
  - constructor; cbn; try done; [by left|intros r x _ _ Hx; by apply not_elem_of_nil in Hx|apply SSorted_nil|].
    intros r Hr. by apply not_elem_of_nil in Hr.
Qed.

Lemma complete_moves ms : all_orderly (booted no_store) ms -> complete (from_scratch ms).
Proof.
  assert (H0 : complete (booted no_store)).
  { constructor; cbn; try done; [by left|apply SSorted_nil|].
    intros r Hr. by apply not_elem_of_nil in Hr. }
  pose proof (live_moves []) as Hl. cbn in Hl. unfold from_scratch. revert H0 Hl. generalize (booted no_store).
  induction ms as [|m ms IH]; intros s Hc Hs; cbn; [done|]. intros [Hm Hms]. apply IH; [by apply complete_move|by apply live_move|done].
Qed.

(** A connection misses nothing while its feeds hold together. Let ids commit in
    their order, the projector seed before the first client, no buffer be full when
    an event is published and every replay succeed within the reader's cap; the
    rest may interleave in any way. Then a connection that has had its replay, whose
    channel is empty and whose projector has caught up has written the committed
    events of its run after the id it asked for, each exactly once and in order:
    the replay and the live tail meet without a gap and without an overlap. *)
Theorem stream_complete ms c th :
  all_orderly (booted no_store) ms -> c ∈ conns (from_scratch ms) ->
  cn_pc c = Streaming th -> cn_ch c = [] -> (forall r, r ∈ run_rows (st (from_scratch ms)) -> row_ID r <= lastID (from_scratch ms)) ->
  exists l, cn_out c = runEventToSSE <$> l /\
    filter (fun r => cn_after c < row_ID r) l =
    filter (fun r => row_RunID r = cn_key c /\ cn_after c < row_ID r) (run_rows (st (from_scratch ms))).
Proof.
  intros Ho Hc Hpc Hch Hall. pose proof (cp_conns _ (complete_moves ms Ho)) as Hf. rewrite Forall_forall in Hf.
  destruct (Hf c Hc) as (chr & outr & Hok & Hcov). pose proof (lo_wf _ (live_moves ms)) as Hw. exists outr. split; [by destruct Hok|].
  pose proof (co_ch _ _ _ _ _ Hok) as Hch'. rewrite Hch in Hch'. destruct chr; [|done]. unfold covered in Hcov. rewrite Hpc in Hcov.
  destruct Hcov as [_ Hcov]. apply asc_ext; [apply asc_filter; by destruct Hok|apply asc_filter; by apply run_rows_asc|].
  intros r. rewrite !list_elem_of_filter. split.
  - intros [Ha Hr]. destruct (co_rows _ _ _ _ _ Hok r) as [Hrow Hk]; [apply elem_of_app; by left|]. done.
  - intros [[Hk Ha] Hr]. split; [done|]. destruct (Hcov r) as [?|[Hn _]]; [by split|done| |done|by apply not_elem_of_nil in Hn].
    specialize (Hall r Hr). lia.
Qed.

(** ** Concrete streams *)

Definition run_row (id : Z) (kind : string) : OutboxRow :=
  {| row_ID := id; row_Entity := "run"; row_ProjectID := "p1"; row_Squad := ""; row_EventType := kind; row_Item := ""; row_RunID := "u1"; row_Payload := "{}" |}.
Definition join : Move := Connects "run-a" (Some "u1") "" "".

(** A replay and a live tail that overlap in one event. *)
Definition overlapping : list Move :=
  [Commits (run_row 1 "started"); Seeds true; join; Commits (run_row 2 "thinking"); Replays 0 true; Commits (run_row 3 "ended");
   Scans true; Fans true (Some "squad/shop"); Fans true None; Receives 0; Receives 0].

Lemma conn_eq (s : Live) c : conns s = [c] -> c ∈ conns s.
Proof. intros ->. left. Qed.

Lemma overlapping_state :
  conns (from_scratch overlapping) =
    [{| cn_key := "u1"; cn_after := 0; cn_pc := Streaming 2; cn_ch := [];
        cn_out := runEventToSSE <$> [run_row 1 "started"; run_row 2 "thinking"; run_row 3 "ended"] |}] /\
  run_rows (st (from_scratch overlapping)) = [run_row 1 "started"; run_row 2 "thinking"; run_row 3 "ended"] /\
  lastID (from_scratch overlapping) = 3 /\
  bridged (from_scratch overlapping) = [("squad/shop", runEventToSSE (run_row 2 "thinking"))].
Proof. vm_compute. done. Qed.

(** [orderly], decided. *)
Definition orderlyb (s : Live) (m : Move) : bool :=
  match m with
  | Commits r => forallb (fun p => p.1 <? row_ID r) (map_to_list (rows (st s)))
  | Seeds _ => match conns s with [] => true | _ => false end
  | Fans _ _ => match pending s with
                | r :: _ => forallb (fun c => negb (bool_decide (cn_key c = row_RunID r)) || (length (cn_ch c) <? subBuffer)%nat) (conns s)
                | [] => true
                end
  | Replays i ok => ok && match conns s !! i with
      | Some c => Z.of_nat (length (filter (fun r => row_RunID r = cn_key c /\ cn_after c < row_ID r) (run_rows (st s)))) <=? defaultRunEventLimit
      | None => true
      end
  | _ => true
  end.
Fixpoint all_orderlyb (s : Live) (ms : list Move) : bool :=
  match ms with [] => true | m :: ms => orderlyb s m && all_orderlyb (move s m) ms end.

Lemma orderlyb_ok s m : orderlyb s m = true -> orderly s m.
Proof.
  destruct m as [r|ok|ok|armed slug|run res hd q|i ok|i|i|]; cbn; try done.
  - rewrite forallb_forall. intros H id x Hx. apply elem_of_map_to_list, list_elem_of_In, H in Hx. cbn in Hx. lia.
  - by destruct (conns s).
  - destruct (pending s) as [|r l]; [done|]. rewrite forallb_forall. intros H. apply Forall_forall. intros c Hc Hk.
    apply list_elem_of_In, H in Hc. apply orb_true_iff in Hc as [Hc|Hc]; [|by apply Nat.ltb_lt].
    apply negb_true_iff, bool_decide_eq_false in Hc. done.
  - rewrite andb_true_iff. intros [-> H]. split; [done|]. destruct (conns s !! i); [|done]. lia.
Qed.
Lemma all_orderlyb_ok ms : forall s, all_orderlyb s ms = true -> all_orderly s ms.
Proof.
  induction ms as [|m ms IH]; intros s; cbn; [done|]. rewrite andb_true_iff. intros [Hm Hms]. split; [by apply orderlyb_ok|by apply IH].
Qed.

Lemma overlapping_orderly : all_orderly (booted no_store) overlapping.
Proof. apply all_orderlyb_ok. vm_compute. reflexivity. Qed.

Lemma stream_complete_witness : exists l,
  runEventToSSE <$> [run_row 1 "started"; run_row 2 "thinking"; run_row 3 "ended"] = runEventToSSE <$> l /\
  filter (fun r => 0 < row_ID r) l = filter (fun r => row_RunID r = "u1" /\ 0 < row_ID r) (run_rows (st (from_scratch overlapping))).
Proof.
  destruct overlapping_state as (Hc & Hr & Hl & _).
  apply (stream_complete overlapping _ 2 overlapping_orderly (conn_eq _ _ Hc) eq_refl eq_refl).
  rewrite Hl, Hr. apply Forall_forall. repeat constructor; done.
Defined.

(** Ids are given at the insert and become visible at the commit. An event that
    commits after one with a higher id was published lies behind the watermark: no
    scan finds it, and the client that resumes after the higher id misses it too. *)
Lemma late_commit_missed :
  let s := from_scratch [Seeds true; join; Replays 0 true; Commits (run_row 2 "ended"); Scans true; Fans true None; Receives 0;
                         Commits (run_row 1 "thinking"); Scans true; Leaves 0; Connects "run-a" (Some "u1") "2" ""; Replays 0 true] in
  run_rows (st s) = [run_row 1 "thinking"; run_row 2 "ended"] /\ pending s = [] /\ lastID s = 2 /\
  conns s = [{| cn_key := "u1"; cn_after := 2; cn_pc := Streaming (-1); cn_ch := []; cn_out := [] |}].
Proof. vm_compute. done. Qed.

(** The ids at or below the cursor are dropped from the live tail only if the replay
    had an event: a client that resumes at the end of the tail, ahead of the
    projector, is written the event it already has. *)
Lemma reconnect_repeats :
  let s := from_scratch [Seeds true; Commits (run_row 1 "ended"); join; Replays 0 true; Leaves 0;
                         Connects "run-a" (Some "u1") "1" ""; Replays 0 true; Scans true; Fans true None; Receives 0] in
  conns s = [{| cn_key := "u1"; cn_after := 1; cn_pc := Streaming (-1); cn_ch := []; cn_out := [runEventToSSE (run_row 1 "ended")] |}].
Proof. vm_compute. done. Qed.

(** The projector starts at the latest id it sees, beside the server: an event that
    commits after a client's replay and before the seed is never published. *)
Lemma seed_skips :
  let s := from_scratch [join; Replays 0 true; Commits (run_row 1 "ended"); Seeds true; Scans true; Fans true None; Receives 0] in
  run_rows (st s) = [run_row 1 "ended"] /\ pending s = [] /\ lastID s = 1 /\
  conns s = [{| cn_key := "u1"; cn_after := 0; cn_pc := Streaming (-1); cn_ch := []; cn_out := [] |}].
Proof. vm_compute. done. Qed.

Definition burst (n : nat) : list Move := (fun k => Commits (run_row (Z.of_nat k) "thinking")) <$> seq 1 n.

(** A client whose buffer overflows keeps its stream and loses the event, and goes on
    to later ones. *)
Lemma slow_client_has_a_gap :
  let s := from_scratch ([Seeds true; join; Replays 0 true] ++ burst 66 ++ [Scans true] ++ replicate 65 (Fans true None) ++
                         [Receives 0; Fans true None] ++ replicate 64 (Receives 0)) in
  sse_ID <$> drop 63 (from_option cn_out [] (conns s !! 0%nat)) = ["64"; "66"] /\ pending s = [].
Proof. vm_compute. done. Qed.

(** A first connection to a run with more events than the reader's cap is replayed the
    oldest of them and then tailed from the live ones: the events between, its end
    among them, are never written. *)
Lemma replay_cut_loses_the_end :
  let s := from_scratch (burst 1000 ++ [Commits (run_row 1001 "ended"); Seeds true; join; Replays 0 true; Commits (run_row 1002 "released");
                         Scans true; Fans true None; Receives 0]) in
  (fun c => (length (cn_out c), sse_ID <$> drop 999 (cn_out c))) <$> conns s = [(1001%nat, ["1000"; "1002"])] /\ pending s = [].
Proof. vm_compute. done. Qed.

(** * The wire

    The client is the console's EventSource, after the event stream format of the HTML
    standard, on the bytes: a line ends at a line feed, a carriage return or the two
    together, and what the last end leaves over is dropped. (A leading byte order mark is
    not looked for: no stream begins with one.) *)

Definition CR : ascii := "013"%char.
Definition NUL : ascii := "000"%char.

(** The lines, and what is left over as the last of the list. *)
Fixpoint stream_lines (s : string) : list string :=
  match s with
  | "" => [""]
  | String c s =>
      if bool_decide (c = LF) then "" :: stream_lines s
      else if bool_decide (c = CR) then
        "" :: match s with
              | String d s' => if bool_decide (d = LF) then stream_lines s' else stream_lines s
              | "" => stream_lines s
              end
      else match stream_lines s with l :: ls => String c l :: ls | [] => [String c ""] end
  end.

Fixpoint cut_colon (l : string) : string * option string :=
  match l with
  | "" => ("", None)
  | String c l => if bool_decide (c = ":"%char) then ("", Some l) else let r := cut_colon l in (String c r.1, r.2)
  end.

(** A field and its value, without the space that may begin it. *)
Definition field_of (l : string) : string * string :=
  match cut_colon l with
  | (name, Some (String c v as w)) => (name, if bool_decide (c = " "%char) then v else w)
  | (name, Some "") => (name, "")
  | (name, None) => (name, "")
  end.

Fixpoint chomp (s : string) : string :=
  match s with "" => "" | String c "" => if bool_decide (c = LF) then "" else s | String c s => String c (chomp s) end.

(** The buffers of the last id, the type and the data; a type of "" is dispatched as a
    message. A comment is the field "", and retry has no part in the events. *)
Fixpoint interpret (ls : list string) (id type data : string) : list SSE :=
  match ls with
  | [] => []
  | "" :: ls =>
      if bool_decide (data = "") then interpret ls id "" ""
      else {| sse_ID := id; sse_Type := type; sse_Data := chomp data |} :: interpret ls id "" ""
  | l :: ls =>
      let '(name, v) := field_of l in
      if bool_decide (name = "event") then interpret ls id v data
      else if bool_decide (name = "data") then interpret ls id type (data +:+ v +:+ nl)
      else if bool_decide (name = "id") then interpret ls (if bool_decide (NUL ∈ bytes_of v) then id else v) type data
      else interpret ls id type data
  end.
Definition EventSource (s : string) : list SSE := interpret (removelast (stream_lines s)) "" "" "".

Lemma str_assoc (s t u : string) : (s ++ (t ++ u) = (s ++ t) ++ u)%string.
Proof. induction s as [|a s IH]; [done|]. change (String a (s ++ (t ++ u)) = String a ((s ++ t) ++ u))%string. by rewrite IH. Qed.
Lemma str_nil_r (s : string) : (s ++ "" = s)%string.
Proof. induction s as [|a s IH]; [done|]. change (String a (s ++ "") = String a s)%string. by rewrite IH. Qed.

(** The lines of an event. *)
Definition lines (ev : SSE) : list string :=
  (if bool_decide (sse_ID ev = "") then [] else ["id: " +:+ sse_ID ev]) ++
  (if bool_decide (sse_Type ev = "") then [] else ["event: " +:+ sse_Type ev]) ++
  ((fun line => "data: " +:+ line) <$> split LF (sse_Data ev)) ++ [""].

Definition ended (ls : list string) : string := String.concat "" ((fun l => l +:+ nl) <$> ls).

Lemma join_cons s l : String.concat "" (s :: l) = (s ++ String.concat "" l)%string.
Proof. destruct l as [|s' l]; [|done]. cbn. by rewrite str_nil_r. Qed.

Lemma ended_app l1 l2 : ended (l1 ++ l2) = (ended l1 ++ ended l2)%string.
Proof.
  induction l1 as [|s l1 IH]; [done|]. unfold ended in *. cbn [app fmap list_fmap]. rewrite !join_cons, IH. apply str_assoc.
Qed.

Lemma writeEvent_lines ev : writeEvent ev = ended (lines ev).
Proof.
  unfold writeEvent, lines. rewrite !ended_app.
  assert (ended [""] = nl) as -> by reflexivity.
  assert (ended ((fun line => "data: " +:+ line) <$> split LF (sse_Data ev)) = String.concat "" ((fun line => "data: " +:+ line +:+ nl) <$> split LF (sse_Data ev))) as ->.
  { unfold ended. f_equal. rewrite <- list_fmap_compose. apply list_fmap_ext. intros i x _. cbn. by rewrite str_assoc. }
  f_equal; [|f_equal].
  - case_bool_decide; [done|]. unfold ended. cbn [fmap list_fmap]. rewrite join_cons. cbn [String.concat]. rewrite str_nil_r. by rewrite str_assoc.
  - case_bool_decide; [done|]. unfold ended. cbn [fmap list_fmap]. rewrite join_cons. cbn [String.concat]. rewrite str_nil_r. by rewrite str_assoc.
Qed.

Lemma split_ended ls rest : Forall (fun l => LF ∉ bytes_of l) ls -> split LF (ended ls ++ rest)%string = ls ++ split LF rest.
Proof.
  induction 1 as [|l ls Hl Hls IH]; [done|]. unfold ended. cbn [fmap list_fmap]. rewrite join_cons, <- !str_assoc.
  change (nl ++ (String.concat "" ((fun l => l +:+ nl) <$> ls) ++ rest))%string with (String LF (ended ls ++ rest)).
  rewrite split_cons by done. by rewrite IH.
Qed.

Lemma join_split sep s : String.concat (String sep "") (split sep s) = s.
Proof.
  induction s as [|c s IH]; [done|]. cbn [split]. destruct (split sep s) as [|x xs] eqn:E; [by apply split_not_nil in E|].
  case_bool_decide as Hc.
  - subst c. change (String sep (String.concat (String sep "") (x :: xs)) = String sep s). by rewrite IH.
  - destruct xs as [|y ys]; cbn in *; [by rewrite IH|].
    change (String c (x ++ String sep (String.concat (String sep "") (y :: ys))) = String c s)%string. f_equal. exact IH.
Qed.

Lemma split_free sep s : Forall (fun l => sep ∉ bytes_of l) (split sep s).
Proof.
  induction s as [|c s IH]; cbn [split]; [repeat constructor; apply not_elem_of_nil|].
  destruct (split sep s) as [|x xs]; [by repeat constructor; apply not_elem_of_nil|].
  apply Forall_cons in IH as [Hx Hxs]. case_bool_decide as Hc; repeat (constructor; try done); [apply not_elem_of_nil|].
  cbn. apply not_elem_of_cons. split; [congruence|done].
Qed.

Lemma split_bytes c sep s : c ∉ bytes_of s -> Forall (fun l => c ∉ bytes_of l) (split sep s).
Proof.
  induction s as [|d s IH]; cbn [split]; intros Hs; [repeat constructor; apply not_elem_of_nil|]. cbn in Hs. apply not_elem_of_cons in Hs as [Hd Hs].
  specialize (IH Hs). destruct (split sep s) as [|x xs]; [by repeat constructor; apply not_elem_of_nil|].
  apply Forall_cons in IH as [Hx Hxs]. case_bool_decide; repeat (constructor; try done); [apply not_elem_of_nil|].
  cbn. by apply not_elem_of_cons.
Qed.

(** Without carriage returns the lines are those of the line feeds. *)
Lemma stream_lines_split s : CR ∉ bytes_of s -> stream_lines s = split LF s.
Proof.
  induction s as [|c s IH]; cbn [stream_lines split]; intros Hs; [done|]. cbn in Hs. apply not_elem_of_cons in Hs as [Hc Hs].
  rewrite (IH Hs). rewrite (bool_decide_false (c = CR)) by congruence. case_bool_decide as E.
  - destruct (split LF s) eqn:El; [by apply split_not_nil in El|done].
  - destruct (split LF s) eqn:El; [by apply split_not_nil in El|done].
Qed.

Lemma chomp_app s : chomp (s ++ nl)%string = s.
Proof.
  induction s as [|c s IH]; [done|]. change (chomp (String c (s ++ nl)) = String c s). rewrite <- IH at 2. by destruct s.
Qed.

Lemma ended_concat d ds : ended (d :: ds) = (String.concat nl (d :: ds) ++ nl)%string.
Proof.
  revert d. induction ds as [|d' ds IH]; intros d; [done|].
  unfold ended in *. cbn [fmap list_fmap] in *. rewrite join_cons, IH. change (String.concat nl (d :: d' :: ds)) with (d ++ nl ++ String.concat nl (d' :: ds))%string.
  rewrite !str_assoc. done.
Qed.

Lemma interpret_data ds rest id ty : forall acc,
  interpret (((fun line => "data: " +:+ line) <$> ds) ++ rest) id ty acc = interpret rest id ty (acc ++ ended ds)%string.
Proof.
  induction ds as [|d ds IH]; intros acc; cbn [fmap list_fmap app]; [by rewrite str_nil_r|].
  change (interpret (((fun line => "data: " +:+ line) <$> ds) ++ rest) id ty (acc +:+ d +:+ nl) = interpret rest id ty (acc ++ ended (d :: ds))%string).
  rewrite IH. f_equal. unfold ended. cbn [fmap list_fmap]. rewrite join_cons. by rewrite !str_assoc.
Qed.

Lemma interpret_event ev rest id : sse_ID ev <> "" -> NUL ∉ bytes_of (sse_ID ev) ->
  interpret (lines ev ++ rest) id "" "" = ev :: interpret rest (sse_ID ev) "" "".
Proof.
  intros Hid Hnul. unfold lines. rewrite (bool_decide_false (sse_ID ev = "")) by done.
  assert (Hd : forall ty, interpret (((fun line => "data: " +:+ line) <$> split LF (sse_Data ev)) ++ "" :: rest) (sse_ID ev) ty "" =
    {| sse_ID := sse_ID ev; sse_Type := ty; sse_Data := sse_Data ev |} :: interpret rest (sse_ID ev) "" "").
  { intros ty. rewrite interpret_data. change ("" ++ ended (split LF (sse_Data ev)))%string with (ended (split LF (sse_Data ev))).
    pose proof (join_split LF (sse_Data ev) : String.concat nl (split LF (sse_Data ev)) = sse_Data ev) as Ej.
    destruct (split LF (sse_Data ev)) as [|d ds] eqn:El; [by apply split_not_nil in El|]. rewrite ended_concat, Ej.
    cbn [interpret]. rewrite bool_decide_false by (destruct (sse_Data ev); intros [=]). by rewrite chomp_app. }
  rewrite <- !app_assoc.
  change (interpret ((if bool_decide (sse_Type ev = "") then [] else ["event: " +:+ sse_Type ev]) ++
    ((fun line => "data: " +:+ line) <$> split LF (sse_Data ev)) ++ "" :: rest) (if bool_decide (NUL ∈ bytes_of (sse_ID ev)) then id else sse_ID ev) "" "" =
    ev :: interpret rest (sse_ID ev) "" "").
  rewrite (bool_decide_false (NUL ∈ _)) by done. case_bool_decide as Ht.
  - cbn [app]. rewrite Hd, <- Ht. by destruct ev.
  - change (interpret (((fun line => "data: " +:+ line) <$> split LF (sse_Data ev)) ++ "" :: rest) (sse_ID ev) (sse_Type ev) "" =
      ev :: interpret rest (sse_ID ev) "" ""). rewrite Hd. by destruct ev.
Qed.

Lemma stream_lines_free : forall n s, (String.length s <= n)%nat -> Forall (fun l => CR ∉ bytes_of l) (stream_lines s).
Proof.
  assert (CR ∉ bytes_of "") as H0 by apply not_elem_of_nil.
  assert (Forall (fun l => CR ∉ bytes_of l) (stream_lines "")) as He by by constructor.
  induction n as [|n IH]; intros [|c s] Hn; try done; cbn in Hn; [lia|]. cbn [stream_lines].
  case_bool_decide as Hl; [constructor; [done|apply IH; lia]|]. case_bool_decide as Hc.
  - constructor; [done|]. destruct s as [|d s]; [done|]. cbn in Hn. case_bool_decide; apply IH; cbn; lia.
  - pose proof (IH s ltac:(lia)) as Hs. destruct (stream_lines s) as [|l ls].
    + constructor; [|constructor]. cbn. apply not_elem_of_cons. split; [congruence|done].
    + apply Forall_cons in Hs as [Hl' Hs]. constructor; [|done]. cbn. by apply not_elem_of_cons.
Qed.

Lemma cut_colon_free l v : CR ∉ bytes_of l -> (cut_colon l).2 = Some v -> CR ∉ bytes_of v.
Proof.
  induction l as [|c l IH]; cbn; [done|]. intros [Hc Hl]%not_elem_of_cons. case_bool_decide; cbn; [by intros [= <-]|by apply IH].
Qed.

Lemma field_free l name v : CR ∉ bytes_of l -> field_of l = (name, v) -> CR ∉ bytes_of v.
Proof.
  intros Hl. pose proof (cut_colon_free l) as Hv. unfold field_of. destruct (cut_colon l) as [nm [[|c w]|]]; cbn in Hv; intros [= _ <-]; try apply not_elem_of_nil.
  specialize (Hv _ Hl eq_refl). case_bool_decide; [|done]. cbn in Hv. by apply not_elem_of_cons in Hv as [_ Hv].
Qed.

Lemma chomp_free s : CR ∉ bytes_of s -> CR ∉ bytes_of (chomp s).
Proof.
  induction s as [|c s IH]; [done|]. intros [Hc Hs]%not_elem_of_cons. specialize (IH Hs). destruct s as [|d s].
  - cbn. case_bool_decide; [apply not_elem_of_nil|]. cbn. by apply not_elem_of_cons.
  - change (CR ∉ c :: bytes_of (chomp (String d s))). by apply not_elem_of_cons.
Qed.

(** No event that is read has a carriage return in its data. *)
Lemma interpret_free ls : Forall (fun l => CR ∉ bytes_of l) ls -> forall id ty data, CR ∉ bytes_of data ->
  Forall (fun ev => CR ∉ bytes_of (sse_Data ev)) (interpret ls id ty data).
Proof.
  assert (CR ∉ bytes_of "") as H0 by apply not_elem_of_nil.
  induction 1 as [|l ls Hl _ IH]; intros id ty data Hd; [constructor|]. destruct l as [|c l].
  - cbn [interpret]. case_bool_decide; [by apply IH|]. constructor; [by apply chomp_free|by apply IH].
  - cbn [interpret]. destruct (field_of (String c l)) as [name v] eqn:E. apply field_free in E; [|done].
    repeat case_bool_decide; try (by apply IH). apply IH. rewrite !bytes_app, !not_elem_of_app. split_and!; try done.
    by intros [=]%list_elem_of_singleton.
Qed.

Lemma removelast_snoc {A} (l : list A) x : removelast (l ++ [x]) = l.
Proof. rewrite removelast_app by done. cbn. apply app_nil_r. Qed.

Lemma stream_events evs : String.concat "" (writeEvent <$> evs) = ended (mjoin (lines <$> evs)).
Proof.
  induction evs as [|ev evs IH]; [done|]. cbn [fmap list_fmap mjoin list_join]. rewrite join_cons, ended_app, IH. by rewrite writeEvent_lines.
Qed.

Lemma bytes_plain c p : existsb (fun b => bool_decide (c = b)) (bytes_of p) = false -> c ∉ bytes_of p.
Proof. intros H Hin%list_elem_of_In. apply not_true_iff_false in H. apply H, existsb_exists. exists c. by rewrite bool_decide_true. Qed.

Lemma bytes_subset p q : forallb (fun a => existsb (fun b => bool_decide (a = b)) (bytes_of q)) (bytes_of p) = true -> bytes_of p ⊆ bytes_of q.
Proof.
  intros H a Ha%list_elem_of_In. pose proof (proj1 (forallb_forall _ _) H _ Ha) as Hb. apply existsb_exists in Hb as (b & Hb & E).
  apply bool_decide_eq_true in E as ->. by apply list_elem_of_In.
Qed.

(** A line of an event holds a byte only if a field does. *)
Lemma line_free c evs : c ∉ bytes_of "id: event: data: " ->
  Forall (fun ev => c ∉ bytes_of (sse_ID ev) /\ c ∉ bytes_of (sse_Type ev) /\ Forall (fun l => c ∉ bytes_of l) (split LF (sse_Data ev))) evs ->
  Forall (fun l => c ∉ bytes_of l) (mjoin (lines <$> evs)).
Proof.
  intros Hc. assert (forall p s, bytes_of p ⊆ bytes_of "id: event: data: " -> c ∉ bytes_of s -> c ∉ bytes_of (p ++ s)%string) as Hpre.
  { intros p s Hp Hs. rewrite bytes_app, not_elem_of_app. split; [intros Hin; by apply Hc, Hp|done]. }
  induction 1 as [|ev evs (Hid & Hty & Hd) Hall IH]; [constructor|]. cbn [fmap list_fmap mjoin list_join]. apply Forall_app. split; [|done].
  unfold lines. rewrite !Forall_app. split_and!.
  - case_bool_decide; repeat constructor. apply Hpre; [by apply bytes_subset|done].
  - case_bool_decide; repeat constructor. apply Hpre; [by apply bytes_subset|done].
  - apply Forall_fmap. eapply Forall_impl; [exact Hd|]. cbn. intros l Hl. apply Hpre; [by apply bytes_subset|done].
  - repeat constructor. apply not_elem_of_nil.
Qed.

(** C28: What a connection writes is what the console's EventSource reads. The bytes of
    any sequence of events, each with an id free of line ends and NUL and a type free of
    line ends, are read back as exactly these events, whatever line feeds and blank
    lines their data holds, if and only if no data holds a carriage return: the format
    ends a line there as well, and writeEvent does not split at it, so that such data
    does end or forge an event. An empty type is what the client calls a message. *)
Theorem wire_roundtrip evs :
  Forall (fun ev => sse_ID ev <> "" /\ (forall c, c ∈ [LF; CR; NUL] -> c ∉ bytes_of (sse_ID ev)) /\ (forall c, c ∈ [LF; CR] -> c ∉ bytes_of (sse_Type ev))) evs ->
  EventSource (String.concat "" (writeEvent <$> evs)) = evs <-> Forall (fun ev => CR ∉ bytes_of (sse_Data ev)) evs.
Proof.
  intros Hall. split.
  - intros <-. apply interpret_free; [|apply not_elem_of_nil]. apply Forall_forall. intros l Hl.
    assert (l ∈ stream_lines (String.concat "" (writeEvent <$> evs))) as Hl'.
    { destruct (stream_lines (String.concat "" (writeEvent <$> evs))) as [|x xs] eqn:E using rev_ind; [done|]. rewrite removelast_snoc in Hl.
      apply elem_of_app. by left. }
    exact (proj1 (Forall_forall _ _) (stream_lines_free _ _ (le_n _)) _ Hl').
  - intros Hdata. rewrite stream_events. unfold EventSource.
    assert (forall c, c = LF \/ c = CR -> Forall (fun l => c ∉ bytes_of l) (mjoin (lines <$> evs))) as Hfree.
    { intros c Hc. apply line_free; [destruct Hc as [->| ->]; by apply bytes_plain|]. apply Forall_forall. intros ev Hev.
      rewrite Forall_forall in Hall, Hdata. destruct (Hall _ Hev) as (_ & Hid & Hty). specialize (Hdata _ Hev).
      destruct Hc as [->| ->]; (split_and!; [apply Hid; set_solver|apply Hty; set_solver|]); [apply split_free|by apply split_bytes]. }
    rewrite stream_lines_split.
    + rewrite <- (str_nil_r (ended _)), split_ended by (apply Hfree; by left). cbn [split]. rewrite removelast_snoc.
      clear Hdata Hfree. generalize "" at 1 as id. induction Hall as [|ev evs (Hne & Hid & _) Hall IH]; intros id; [done|].
      cbn [fmap list_fmap mjoin list_join]. rewrite interpret_event by (try done; apply Hid; set_solver). by rewrite IH.
    + unfold ended. rewrite bytes_concat. intros (l & (l' & -> & Hl)%list_elem_of_fmap & Hin). rewrite bytes_app, elem_of_app in Hin.
      destruct Hin as [Hin|Hin]; [|by apply list_elem_of_singleton in Hin]. by apply (proj1 (Forall_forall _ _) (Hfree CR (or_intror eq_refl)) _ Hl).
Qed.

Lemma wire_roundtrip_witness :
  let evs := [{| sse_ID := "7"; sse_Type := "thinking"; sse_Data := "a" +:+ nl +:+ nl +:+ "id: 9" |}; runEventToSSE (run_row 8 "ended")] in
  EventSource (String.concat "" (writeEvent <$> evs)) = evs.
Proof.
  intros evs. assert (forall cs s, forallb (fun c => negb (existsb (fun b => bool_decide (c = b)) (bytes_of s))) cs = true -> forall c, c ∈ cs -> c ∉ bytes_of s) as Hf.
  { intros cs s H c Hc%list_elem_of_In. apply bytes_plain, negb_true_iff. exact (proj1 (forallb_forall _ _) H _ Hc). }
  apply wire_roundtrip; apply Forall_cons_2; [split; [discriminate|split; by apply Hf]| |by apply bytes_plain|].
  - apply Forall_cons_2; [split; [discriminate|split; by apply Hf]|constructor].
  - apply Forall_cons_2; [by apply bytes_plain|constructor].
Defined.

(** Data with carriage returns ends its event and forges another. *)
Lemma return_forges_event :
  let cr := String CR "" in
  EventSource (writeEvent {| sse_ID := "7"; sse_Type := "tool"; sse_Data := "a" +:+ cr +:+ cr +:+ "id: 900" +:+ cr +:+ "data: forged" |}) =
    [{| sse_ID := "7"; sse_Type := "tool"; sse_Data := "a" |}; {| sse_ID := "900"; sse_Type := ""; sse_Data := "forged" |}].
Proof. vm_compute. reflexivity. Qed.
