(* ===== verification/Room.v ===== *)
(** The discussion room's path from a message to agent runs: mentions, the guardrails
    and the routing of a post (src/internal/discussion/dispatch.go, store.go), and the
    dispatcher that mints a run (src/internal/mentiondispatch/mentiondispatch.go).
    A payload is the JSON document, a minted item's body the data it is rendered from;
    case is folded on ASCII, which names are. *)
From Stdlib Require Import Ascii.
From S2P Require Import Prelude GoStr Calls.
Open Scope Z_scope.
Open Scope k8s_scope.

(** * Text *)

Definition between (a b : nat) (c : ascii) : bool := ((a <=? nat_of_ascii c) && (nat_of_ascii c <=? b))%nat.
Definition lower_char (c : ascii) : ascii := if between 65 90 c then ascii_of_nat (nat_of_ascii c + 32) else c.
Definition ToLower (s : string) : string := String.string_of_list_ascii (lower_char <$> String.list_ascii_of_string s).
Definition EqualFold (a b : string) : bool := bool_decide (ToLower a = ToLower b).

(** strings.CutPrefix *)
Definition CutPrefix (p s : string) : option string :=
  if String.prefix p s then Some (drop_bytes (String.length p) s) else None.

Definition alnum (c : ascii) : bool := between 48 57 c || between 65 90 c || between 97 122 c.
(** [A-Za-z0-9_.-] *)
Definition name_char (c : ascii) : bool := alnum c || bool_decide (c ∈ ["_"; "."; "-"]%char).
(** [^\w@/], which every byte of a longer rune is *)
Definition opens (c : ascii) : bool := negb (alnum c || bool_decide (c ∈ ["_"; "@"; "/"]%char)).

(** The names mentionTokenRe finds, left to right: [ok] when a token may open here,
    [inside] the name being read, backwards. *)
Fixpoint tokens (ok : bool) (inside : option (list ascii)) (s : list ascii) : list string :=
  match inside, s with
  | None, [] => []
  | Some name, [] => [String.string_of_list_ascii (rev name)]
  | Some name, c :: s =>
      if name_char c then tokens false (Some (c :: name)) s
      else String.string_of_list_ascii (rev name) :: tokens (opens c) None s
  | None, c :: s =>
      if ok && bool_decide (c = "@"%char) && (match s with d :: _ => alnum d | [] => false end)
      then tokens false (Some []) s
      else tokens (opens c) None s
  end.

(** The first of the names that fold together. *)
Fixpoint distinct_names (seen : list string) (l : list string) : list string :=
  match l with
  | [] => []
  | name :: l =>
      let name := trim_right ["."] name in
      if bool_decide (name = "") || bool_decide (ToLower name ∈ seen) then distinct_names seen l
      else name :: distinct_names (ToLower name :: seen) l
  end.

Definition parseMentions (body : string) : list string :=
  distinct_names [] (tokens true None (String.list_ascii_of_string body)).

(** * Messages and agents *)

Record AuthorContext : Set := {
  auth_Principal : string; auth_TeamID : string; auth_AgentID : option string; auth_RunID : option string; auth_IsAdmin : bool }.

Record TicketRef : Set := { ref_WorkItemID : string; ref_Title : string }.

Record Message : Set := {
  msg_ID : string; msg_ThreadID : string; msg_ParentID : option string; msg_AuthorPrincipal : string;
  msg_AuthorAgentID : option string; msg_AuthorRunID : option string; msg_Body : string; msg_Audience : string;
  msg_Kind : string; msg_Payload : option json; msg_CreatedAt : Z; msg_InvalidatedAt : option Z }.

(** A message with its replies, as GetThread nests them. *)
Inductive MessageTree : Set := Node (m : Message) (replies : list MessageTree).

Record TeamAgent : Set := { ta_Name : string; ta_Status : string; ta_Coordinator : bool }.

Definition dispatchPayloadKey : string := "_dispatch".
Definition referencesPayloadKey : string := "references".

Definition hop_meta (hopDepth : Z) : json := JObj [("hopDepth", json_int hopDepth)].

(** [None]: it panics on a payload of null. *)
Definition StampDispatchHop (existing : option json) (hopDepth : Z) : option json :=
  merge_key existing dispatchPayloadKey (hop_meta hopDepth).

Definition decode_hop : Decoder Z := decode_field dispatchPayloadKey (decode_field "hopDepth" decode_int).

Definition DispatchHopOf (payload : option json) : Z :=
  match payload ≫= decode_hop 0 with
  | Some h => if h <? 0 then 0 else h
  | None => 0
  end.

Definition partyBroadcastRequested (payload : option json) : bool :=
  default false (payload ≫= decode_field "_party" (decode_field "broadcast" decode_bool) false).

Definition ref_json (r : TicketRef) : json :=
  JObj (("workItemId", JStr (ref_WorkItemID r)) :: if bool_decide (ref_Title r = "") then [] else [("title", JStr (ref_Title r))]).

(** [None]: as StampDispatchHop. *)
Definition StampReferences (existing : option json) (refs : list TicketRef) : option (option json) :=
  match refs with
  | [] => Some existing
  | _ => Some <$> merge_key existing referencesPayloadKey (JArr (ref_json <$> refs))
  end.

(** [uuid_ok] is uuid.Parse's verdict. *)
Fixpoint normalizeTicketRefs (uuid_ok : string -> bool) (seen : list string) (refs : list TicketRef) : list TicketRef :=
  match refs with
  | [] => []
  | r :: refs =>
      let id := TrimSpace (ref_WorkItemID r) in
      if bool_decide (id = "") || negb (uuid_ok id) || bool_decide (id ∈ seen) then normalizeTicketRefs uuid_ok seen refs
      else {| ref_WorkItemID := id; ref_Title := ref_Title r |} :: normalizeTicketRefs uuid_ok (id :: seen) refs
  end.

Definition normalizeAudience (audience : option string) : result string string :=
  match audience with
  | None | Some "" => Ok "party"
  | Some a =>
      if bool_decide (a = "party") then Ok a
      else match CutPrefix "direct:" a with
           | Some target => if bool_decide (target = "") then Err "audience must be 'party' or 'direct:{agentId}'" else Ok a
           | None => Err "audience must be 'party' or 'direct:{agentId}'"
           end
  end.

Definition normalizeKind (kind : option string) : result string string :=
  match kind with
  | None | Some "" => Ok "text"
  | Some k =>
      if bool_decide (k ∈ ["text"; "structured"; "task"; "decision"; "vote"; "proposal"]) then Ok k
      else Err "kind must be one of text, structured, task, decision, vote, proposal"
  end.

(** * Who is dispatched *)

Definition maxMentionHopDepth : Z := 2.
Definition maxMentionDispatchPerMessage : nat := 5.
Definition DefaultMaxConcurrentRunsPerDiscussion : Z := 4.

Definition resolveMaxConcurrentRunsFromEnv (raw : string) : Z :=
  let v := TrimSpace raw in
  if bool_decide (v = "") then DefaultMaxConcurrentRunsPerDiscussion
  else match atoi v with
       | Some n => if 0 <? n then n else DefaultMaxConcurrentRunsPerDiscussion
       | None => DefaultMaxConcurrentRunsPerDiscussion
       end.

(** Of PartyContext, what the advancer fills in. *)
Record PartyPeerTurn : Set := { turn_Name : string; turn_Body : string }.
Record PartyContext : Set := { pc_Round : Z; pc_Persona : string; pc_PeersThisRound : list PartyPeerTurn }.

Record MentionDispatch : Set := {
  d_ProjectID : string; d_ThreadID : string; d_MessageID : string; d_TeamID : string; d_AgentName : string; d_HopDepth : Z;
  d_TriggeredByPrincipal : string; d_TriggeredByAgentID : option string;
  d_Orchestrate : bool; d_OrchestratedAgents : list string; d_RequestBody : string; d_Party : option PartyContext }.

Definition dispatchableStatus (status : string) : bool :=
  negb (bool_decide (ToLower (TrimSpace status) ∈ ["paused"; "blocked"; "disabled"])).

Definition named (a : TeamAgent) : bool := negb (bool_decide (ta_Name a = "")).

(** The byName map of a roster: the last agent of a name wins. *)
Definition byName (roster : list TeamAgent) : gmap string TeamAgent :=
  foldl (fun m a => if named a then <[ToLower (ta_Name a) := a]> m else m) ∅ roster.

(** Candidates resolved against the roster, opted-out agents, [self] and repeats
    left out. *)
Fixpoint resolve_names (names : gmap string TeamAgent) (self : string) (seen : list string) (l : list string) : list TeamAgent :=
  match l with
  | [] => []
  | name :: l =>
      let key := ToLower name in
      if bool_decide (key ∈ seen) then resolve_names names self seen l
      else match names !! key with
           | Some a => if negb (dispatchableStatus (ta_Status a)) || bool_decide (key = self) then resolve_names names self seen l
                       else a :: resolve_names names self (key :: seen) l
           | None => resolve_names names self seen l
           end
  end.

Definition coordinatorOf (roster : list TeamAgent) : option TeamAgent :=
  head (filter (fun a => ta_Coordinator a && named a && dispatchableStatus (ta_Status a) = true) roster).

(** A target of [resolveMentionTargets]: the dispatch before DispatchMentionsFrom
    fills in where it came from. *)
Definition target (agent : string) (hop : Z) : MentionDispatch :=
  {| d_ProjectID := ""; d_ThreadID := ""; d_MessageID := ""; d_TeamID := ""; d_AgentName := agent; d_HopDepth := hop;
     d_TriggeredByPrincipal := ""; d_TriggeredByAgentID := None; d_Orchestrate := false; d_OrchestratedAgents := [];
     d_RequestBody := ""; d_Party := None |}.

Definition orchestrated (coordinator : string) (hop : Z) (mentioned : list string) (body : string) : MentionDispatch :=
  {| d_ProjectID := ""; d_ThreadID := ""; d_MessageID := ""; d_TeamID := ""; d_AgentName := coordinator; d_HopDepth := hop;
     d_TriggeredByPrincipal := ""; d_TriggeredByAgentID := None; d_Orchestrate := true; d_OrchestratedAgents := mentioned;
     d_RequestBody := body; d_Party := None |}.

(** The candidates, and whether they are the whole room. *)
Definition candidates_of (msg : Message) (roster : list TeamAgent) : list string * bool :=
  let direct := match CutPrefix "direct:" (msg_Audience msg) with
                | Some t => if bool_decide (t = "") then None else Some t
                | None => None
                end in
  match direct with
  | Some t => ([t], false)
  | None =>
      match parseMentions (msg_Body msg), msg_AuthorAgentID msg with
      | [], Some _ => ([], false)
      | [], None => (ta_Name <$> filter (fun a => named a = true) roster, true)
      | l, _ => (l, false)
      end
  end.

Definition selfOf (msg : Message) : string :=
  match msg_AuthorAgentID msg with Some a => ToLower a | None => "" end.

Definition hop_of (msg : Message) : Z :=
  wrap64 ((match msg_AuthorAgentID msg with Some _ => DispatchHopOf (msg_Payload msg) | None => 0 end) + 1).

(** The targets, how many were dropped, and whether the caller is to ask. [cap] is
    MaxConcurrentRunsPerDiscussion. *)
Definition resolveMentionTargets (cap : Z) (msg : Message) (roster : list TeamAgent) : list MentionDispatch * nat * bool :=
  let nextHop := hop_of msg in
  if maxMentionHopDepth <? nextHop then ([], 0%nat, false)
  else
    let '(candidates, broadcast) := candidates_of msg roster in
    let resolved := resolve_names (byName roster) (selfOf msg) [] candidates in
    if negb broadcast && (2 <=? length resolved)%nat then
      match coordinatorOf roster with
      | Some c =>
          if bool_decide (ToLower (ta_Name c) = selfOf msg) then ([], 0%nat, true)
          else ([orchestrated (ta_Name c) nextHop (ta_Name <$> resolved) (msg_Body msg)], 0%nat, false)
      | None => ([], 0%nat, true)
      end
    else
      let dispatchCap := if broadcast : bool then Z.to_nat cap else maxMentionDispatchPerMessage in
      let targets := (fun a => target (ta_Name a) nextHop) <$> take dispatchCap resolved in
      (targets, (length resolved - length targets)%nat, false).

Inductive partyRouteClass : Set := partyRouteNormal | partyRouteFacilitator.

Definition eligible (roster : list TeamAgent) : nat :=
  length (filter (fun a => named a && dispatchableStatus (ta_Status a) = true) roster).

Definition classifyPartyRoute (msg : Message) (roster : list TeamAgent) : partyRouteClass :=
  if bool_decide (is_Some (msg_AuthorAgentID msg)) then partyRouteNormal
  else if negb (bool_decide (msg_Audience msg = "party")) then partyRouteNormal
  else if negb (bool_decide (msg_Kind msg = "")) && negb (bool_decide (msg_Kind msg = "text")) then partyRouteNormal
  else if negb (bool_decide (parseMentions (msg_Body msg) = [])) then partyRouteNormal
  else if partyBroadcastRequested (msg_Payload msg) then partyRouteNormal
  else if negb (bool_decide (is_Some (coordinatorOf roster))) then partyRouteNormal
  else if (eligible roster <? 2)%nat then partyRouteNormal
  else partyRouteFacilitator.

(** * The discussion tables *)

(** A row of discussion.mention_dispatch. *)
Record MentionRow : Set := { md_ProjectID : string; md_ThreadID : string; md_HopDepth : Z; md_Item : option string; md_CreatedAt : Z }.

Record PartyBudget : Set := { MaxRounds : Z; MaxVoicesPerRound : Z; PaidRunBudget : Z }.

Definition PartyPhaseActive : string := "active".
Definition PartyPhaseClosed : string := "closed".
Definition PartyPhaseConverged : string := "converged".
Definition PartyPhaseBudgetExhausted : string := "budget_exhausted".

(** A row of discussion.party_session. *)
Record PartySession : Set := {
  ps_ID : string; ps_ThreadID : string; ps_ProjectID : string; ps_TeamID : string; ps_StartedBy : string; ps_TopicMessageID : string;
  Round : Z; Budget : PartyBudget; PaidRunsUsed : Z; Phase : string; OpenedAt : Z; ClosedAt : option Z;
  CurrentRoundMessageID : option string; RoundStartedAt : option Z; RoundVoices : list string }.

(** What the items minted from the room are asked. *)
Record FacilitatorRound : Set := {
  fr_ProjectID : string; fr_ThreadID : string; fr_TopicMessageID : string; fr_Round : Z; fr_MaxRounds : Z; fr_VoiceCap : Z }.
Inductive Directive : Set :=
| MentionRun (d : MentionDispatch)
| FacilitatorRoundDirective (d : FacilitatorRound)
| TakeawaysDirective (d : FacilitatorRound) (reason : string).

Record CreateWorkItemInput : Set := { in_ProjectID : string; in_TeamID : string; in_Title : string; in_Body : Directive; in_Principal : string }.

(** The tables: the ledger by message and agent, the latest settle mark of an item's
    follows, the sessions, the party_round ledger, the messages and the threads with
    their project and team, the claim of a run, the items created in the coordination
    schema, and the dispatches committed there by item and agent, with whether the
    caller was told (a ghost of the history, which no statement reads). *)
Record Tables : Set := {
  now : Z; ledger : gmap (string * string) MentionRow; settled : gmap string Z;
  sessions : gmap string PartySession; rounds : gmap (string * Z) string;
  messages : gmap string Message; threads : gmap string (string * string);
  claims : gmap string string; items : gmap string CreateWorkItemInput; requests : list (string * string * bool) }.

Definition set_ledger (f : gmap (string * string) MentionRow -> gmap (string * string) MentionRow) (w : Tables) : Tables :=
  {| now := now w; ledger := f (ledger w); settled := settled w; sessions := sessions w; rounds := rounds w;
     messages := messages w; threads := threads w; claims := claims w; items := items w; requests := requests w |}.
Definition set_sessions (f : gmap string PartySession -> gmap string PartySession) (w : Tables) : Tables :=
  {| now := now w; ledger := ledger w; settled := settled w; sessions := f (sessions w); rounds := rounds w;
     messages := messages w; threads := threads w; claims := claims w; items := items w; requests := requests w |}.

(** The settle mark of a ledger row's item: the lateral join of the queries. *)
Definition mark_of (w : Tables) (r : MentionRow) : option Z := md_Item r ≫= (fun item => settled w !! item).

(** * The dispatcher of mentions *)

Inductive Call : Type -> Type :=
(* The ledger and the coordination stores. *)
| CountInFlight (thread : string) (staleness : Z) : Call (option Z)
| Claim (d : MentionDispatch) : Call (option bool)
| Bind (message agent item : string) : Call bool
| Release (message agent : string) : Call unit
| HopForDispatchedRun (run : string) : Call (option (option Z))
| ResolveProject (ref : string) : Call (option (string * string))
| CreateWorkItem (i : CreateWorkItemInput) : Call (option string)
| MarkSource (item : string) : Call bool
| RequestDispatch (item agent team principal initiator : string) : Call bool
(* Messages. *)
| ThreadInScope (project team thread : string) : Call (result string unit)
| ThreadOfMessage (message : string) : Call (option (option string))
| InsertMessage (m : Message) : Call (option (string * Z))
| Roster (auth : AuthorContext) (project : string) : Call (option (list TeamAgent))
| ResolveTicketRefs (project team : string) (refs : list TicketRef) : Call (option (list TicketRef))
| GetThread (project team thread : string) : Call (option (list MessageTree))
(* Party sessions: one statement or transaction each; [None]: an error, [Some
   false]: no row was hit. *)
| ActiveSession (thread : string) : Call (option (option PartySession))
| ActivePartySessions : Call (option (list PartySession))
| GetSession (id : string) : Call (option (option PartySession))
| SettlementOf (message : string) (timeout : Z) : Call (option (Z * Z * Z))
| ChargeRuns (id : string) (n : Z) : Call (option bool)
| NextRound (id : string) (fromRound : Z) : Call (option bool)
| EndSession (id phase : string) : Call (option bool)
| StampRound (id : string) (forRound : Z) (message : string) (voices : list string) : Call (option bool)
| StartSession (m : Message) (project : string) (team : string) (b : PartyBudget) : Call (option (option (Message * PartySession)))
| OpenSession (project thread topic principal : string) (b : PartyBudget) : Call (option bool)
| ResetRoom (m : Message) : Call (option (Message * Z))
(* The advancer's other seams. *)
| CoordinatorForTeam (team : string) : Call (option (option string))
| Now : Call Z.

Notation Prog := (Calls.Prog Call).
Notation ret := Ret.

Definition dispatchPrincipal : string := "discussion-dispatch".
Definition uuid_Nil : string := "00000000-0000-0000-0000-000000000000".
Definition DefaultPartyVoiceSettleTimeout : Z := 10 * 60 * 10 ^ 9.

Definition mentionRunTitle (d : MentionDispatch) : string :=
  if d_Orchestrate d then "Discussion coordination: @" +:+ d_AgentName d +:+ " structure work in thread " +:+ d_ThreadID d
  else "Discussion reply: @" +:+ d_AgentName d +:+ " in thread " +:+ d_ThreadID d.

Section dispatcher.
(** The dispatcher's maxInFlight and inFlightStaleness, and whether it has a project
    resolver. *)
Context (maxInFlight inFlightStaleness : Z) (refs : bool).

Definition staleness : Z := if inFlightStaleness <=? 0 then DefaultPartyVoiceSettleTimeout else inFlightStaleness.

(** Project and team of the minted item. *)
Definition resolve_refs (project team : string) : Prog (option (string * string)) :=
  if negb refs then ret (Some (project, team))
  else
    let* r := call (ResolveProject project) in
    ret (match r with Some (uid, t) => Some (uid, if bool_decide (t = "") then team else t) | None => None end).

(** After the claim: whether the run was minted. *)
Definition mint (d : MentionDispatch) : Prog bool :=
  let* r := resolve_refs (d_ProjectID d) (d_TeamID d) in
  match r with
  | None => ret false
  | Some (project, team) =>
      let* rec := call (CreateWorkItem {| in_ProjectID := project; in_TeamID := team; in_Title := mentionRunTitle d;
                                          in_Body := MentionRun d; in_Principal := dispatchPrincipal |}) in
      match rec with
      | None => ret false
      | Some item =>
          let* marked := call (MarkSource item) in
          if negb marked then ret false
          else
            let* bound := call (Bind (d_MessageID d) (d_AgentName d) item) in
            if negb bound then ret false
            else
              let initiator := if bool_decide (is_Some (d_TriggeredByAgentID d)) then "agent" else "human" in
              call (RequestDispatch item (d_AgentName d) team dispatchPrincipal initiator)
      end
  end.

(** The claim, and its release when nothing was minted. [true]: no error. *)
Definition claim_and_mint (d : MentionDispatch) : Prog bool :=
  let* claimed := call (Claim d) in
  match claimed with
  | None => ret false
  | Some false => ret true
  | Some true =>
      let* minted := mint d in
      if minted : bool then ret true else let* _ := call (Release (d_MessageID d) (d_AgentName d)) in ret false
  end.

Definition DispatchMention (d : MentionDispatch) : Prog bool :=
  if bool_decide (d_AgentName d = "") then ret false
  else if (0 <? maxInFlight) && negb (bool_decide (d_ThreadID d = uuid_Nil)) then
    let* n := call (CountInFlight (d_ThreadID d) staleness) in
    match n with
    | None => ret false
    | Some n => if maxInFlight <=? n then ret true else claim_and_mint d
    end
  else claim_and_mint d.

(** A target with where it came from. *)
Definition addressed (project : string) (auth : AuthorContext) (msg : Message) (t : MentionDispatch) : MentionDispatch :=
  {| d_ProjectID := project; d_ThreadID := msg_ThreadID msg; d_MessageID := msg_ID msg; d_TeamID := auth_TeamID auth;
     d_AgentName := d_AgentName t; d_HopDepth := d_HopDepth t; d_TriggeredByPrincipal := auth_Principal auth;
     d_TriggeredByAgentID := auth_AgentID auth; d_Orchestrate := d_Orchestrate t; d_OrchestratedAgents := d_OrchestratedAgents t;
     d_RequestBody := d_RequestBody t; d_Party := d_Party t |}.

Fixpoint dispatch_all (l : list MentionDispatch) : Prog unit :=
  match l with
  | [] => ret tt
  | d :: l => let* _ := DispatchMention d in dispatch_all l
  end.

(** [cap] is MaxConcurrentRunsPerDiscussion of the process that posts. *)
Definition DispatchMentionsFrom (cap : Z) (roster : list TeamAgent) (project : string) (auth : AuthorContext) (msg : Message) : Prog unit :=
  let '(targets, _, fallback) := resolveMentionTargets cap msg roster in
  if fallback : bool then ret tt else dispatch_all (addressed project auth msg <$> targets).
End dispatcher.

(** The panic of a nil map ends the request. *)
Definition nil_map : string := "assignment to entry in nil map".

(** [wired]: the seam is there. *)
Definition StampReplyHopFrom (wired : bool) (auth : AuthorContext) (payload : option json) : Prog (result string (option json)) :=
  match auth_AgentID auth, auth_RunID auth, wired with
  | Some _, Some run, true =>
      if bool_decide (TrimSpace run = "") then ret (Ok payload)
      else
        let* hop := call (HopForDispatchedRun run) in
        ret (match hop with
             | Some (Some h) => match StampDispatchHop payload h with Some p => Ok (Some p) | None => Err nil_map end
             | _ => Ok payload
             end)
  | _, _, _ => ret (Ok payload)
  end.

Definition StampTicketRefsFrom (wired : bool) (uuid_ok : string -> bool) (project : string) (auth : AuthorContext) (refs : list TicketRef)
    (payload : option json) : Prog (result string (option json)) :=
  if negb wired then ret (Ok payload)
  else match normalizeTicketRefs uuid_ok [] refs with
       | [] => ret (Ok payload)
       | candidates =>
           let* resolved := call (ResolveTicketRefs project (auth_TeamID auth) candidates) in
           ret (match resolved with
                | Some l => match StampReferences payload l with Some p => Ok p | None => Err nil_map end
                | None => Ok payload
                end)
       end.

(** * Posting *)

Definition new_message (thread : string) (parent : option string) (auth : AuthorContext) (body audience kind : string)
    (payload : option json) : Message :=
  {| msg_ID := ""; msg_ThreadID := thread; msg_ParentID := parent; msg_AuthorPrincipal := auth_Principal auth;
     msg_AuthorAgentID := auth_AgentID auth; msg_AuthorRunID := auth_RunID auth; msg_Body := body; msg_Audience := audience;
     msg_Kind := kind; msg_Payload := payload; msg_CreatedAt := 0; msg_InvalidatedAt := None |}.

Definition as_row (m : Message) (id : string) (t : Z) : Message :=
  {| msg_ID := id; msg_ThreadID := msg_ThreadID m; msg_ParentID := msg_ParentID m; msg_AuthorPrincipal := msg_AuthorPrincipal m;
     msg_AuthorAgentID := msg_AuthorAgentID m; msg_AuthorRunID := msg_AuthorRunID m; msg_Body := msg_Body m;
     msg_Audience := msg_Audience m; msg_Kind := msg_Kind m; msg_Payload := msg_Payload m; msg_CreatedAt := t; msg_InvalidatedAt := None |}.

Definition PostMessage (project team thread : string) (auth : AuthorContext) (body : string) (parent audience kind : option string)
    (payload : option json) : Prog (result string Message) :=
  if bool_decide (body = "") then ret (Err "message body is required")
  else match normalizeAudience audience, normalizeKind kind with
       | Err e, _ => ret (Err e)
       | Ok _, Err e => ret (Err e)
       | Ok a, Ok k =>
           let* scope := call (ThreadInScope project team thread) in
           match scope with
           | Err e => ret (Err e)
           | Ok _ =>
               let* bad := (match parent with
                            | None => ret None
                            | Some p =>
                                let* t := call (ThreadOfMessage p) in
                                ret (match t with
                                     | None => Some "read parent"
                                     | Some None => Some "message not found"
                                     | Some (Some t) => if bool_decide (t = thread) then None else Some "parent belongs to a different thread"
                                     end)
                            end) in
               match bad with
               | Some e => ret (Err e)
               | None =>
                   let m := new_message thread parent auth body a k payload in
                   let* row := call (InsertMessage m) in
                   ret (match row with Some (id, t) => Ok (as_row m id t) | None => Err "insert message" end)
               end
           end
       end.
