(* ===== verification/RoomProps.v ===== *)
(** The guardrails of a mention: who a message addresses, whom it dispatches, and how
    many hops from a human. *)
From S2P Require Import Prelude GoStr Calls Room.
Open Scope Z_scope.
Open Scope k8s_scope.

(** * The roster *)



Notation key a := (ToLower (ta_Name a)).





(** * Hops *)






(** * Who a message dispatches *)

















(** Two agents named of three in the room, one in the wrong case. *)
Module Asked.
Definition msg : Message :=
  as_row (new_message "th" None {| auth_Principal := "pat"; auth_TeamID := "tm"; auth_AgentID := None; auth_RunID := None; auth_IsAdmin := false |}
            "@ada and @Bob, please" "party" "text" None) "m1" 0.
Definition agent (name : string) (coordinator : bool) : TeamAgent := {| ta_Name := name; ta_Status := "idle"; ta_Coordinator := coordinator |}.
Definition roster : list TeamAgent := [agent "ada" false; agent "bob" false; agent "lead" true].
End Asked.


(** A payload that says 2^63 - 1 hops gets past the bound; the ledger's column refuses
    the hop it is dispatched at. *)
Lemma hop_wraps :
  let msg := as_row (new_message "th" None {| auth_Principal := "ada"; auth_TeamID := "tm"; auth_AgentID := Some "ada"; auth_RunID := None; auth_IsAdmin := false |}
                       "@bob" "party" "text" (StampDispatchHop None (2 ^ 63 - 1))) "m1" 0 in
  resolveMentionTargets 4 msg Asked.roster = ([target "bob" (- 2 ^ 63)], 0%nat, false).
Proof. vm_compute. reflexivity. Qed.
