(* ===== verification/Party.v ===== *)
(** The party debate of a discussion room: budgets and sessions (party.go), the
    decisions (facilitator.go, advancer.go), the hook that records a round's roster
    (party_dispatch.go), the operator's advancer (advancer_runner.go,
    cmd/operator/party_advancer_adapter.go), the handlers of a post, and the tables
    that answer them all. All under src/internal/discussion unless said otherwise. *)
From S2P Require Import Prelude GoStr Calls Room.
Open Scope Z_scope.
Open Scope k8s_scope.

(** * Budgets *)

Definition DefaultMaxPartyRounds : Z := 3.
Definition MinVoicesPerRound : Z := 2.
Definition MaxVoicesCap : Z := 4.
Definition DefaultVoicesPerRound : Z := 3.

Definition withDerivedCeiling (b : PartyBudget) : PartyBudget :=
  {| MaxRounds := MaxRounds b; MaxVoicesPerRound := MaxVoicesPerRound b;
     PaidRunBudget := wrap64 (wrap64 (MaxRounds b * MaxVoicesPerRound b) + MaxRounds b) |}.

Definition DefaultPartyBudget : PartyBudget :=
  withDerivedCeiling {| MaxRounds := DefaultMaxPartyRounds; MaxVoicesPerRound := DefaultVoicesPerRound; PaidRunBudget := 0 |}.

Definition normalize (b : PartyBudget) : result string PartyBudget :=
  let r := if MaxRounds b =? 0 then DefaultMaxPartyRounds else MaxRounds b in
  let v := if MaxVoicesPerRound b =? 0 then DefaultVoicesPerRound else MaxVoicesPerRound b in
  if (r <? 0) || (v <? 0) || (PaidRunBudget b <? 0) then Err "party budget caps must be positive"
  else
    let b1 := {| MaxRounds := r; MaxVoicesPerRound := Z.min MaxVoicesCap (Z.max MinVoicesPerRound v); PaidRunBudget := PaidRunBudget b |} in
    Ok (if PaidRunBudget b =? 0 then withDerivedCeiling b1 else b1).

Definition IsActive (s : PartySession) : bool := bool_decide (Phase s = PartyPhaseActive).

Definition RemainingPaidRuns (s : PartySession) : Z :=
  if PaidRunBudget (Budget s) <=? PaidRunsUsed s then 0 else PaidRunBudget (Budget s) - PaidRunsUsed s.

(** [None]: the round may start; else the phase to end with. *)
Definition CanStartRound (s : PartySession) : option string :=
  if negb (IsActive s) then Some (Phase s)
  else if RemainingPaidRuns s <? 1 then Some PartyPhaseBudgetExhausted
  else if MaxRounds (Budget s) <=? Round s then Some PartyPhaseClosed
  else None.

(** The voices allowed of those requested. *)
Definition VoicesAllowedThisRound (s : PartySession) (requested : Z) : Z :=
  if requested <=? 0 then 0
  else Z.max 0 (Z.min (Z.min requested (MaxVoicesPerRound (Budget s))) (Z.max 0 (RemainingPaidRuns s))).

Definition human_only (auth : AuthorContext) : bool := negb (bool_decide (is_Some (auth_AgentID auth))).
Definition PartyStartAllowed : AuthorContext -> bool := human_only.
Definition ResetAllowed : AuthorContext -> bool := human_only.

(** * Decisions *)

Record RoundSettlement : Set := { Dispatched : Z; Settled : Z; TimedOut : Z }.

Definition Complete (rs : RoundSettlement) : bool :=
  if Dispatched rs <=? 0 then true else Dispatched rs <=? Settled rs + TimedOut rs.
Definition AllSilent (rs : RoundSettlement) : bool :=
  (0 <? Dispatched rs) && (Settled rs =? 0) && (TimedOut rs =? Dispatched rs).

Inductive AdvanceDecision : Set :=
| AdvanceWait
| AdvanceNextRound
| AdvanceTakeaways (reason : string)
| AdvanceClose (reason : string).

Definition DecideAdvance (s : PartySession) (complete converged : bool) : AdvanceDecision :=
  if negb complete then AdvanceWait
  else if negb (IsActive s) then AdvanceClose (Phase s)
  else match CanStartRound s, converged with
       | None, false => AdvanceNextRound
       | gate, _ =>
           let reason := if converged then PartyPhaseConverged
                         else match gate with Some r => if bool_decide (r = "") then PartyPhaseClosed else r | None => PartyPhaseClosed end in
           if RemainingPaidRuns s <? 1 then AdvanceClose PartyPhaseBudgetExhausted else AdvanceTakeaways reason
       end.

(** PartyTickPlan: the action with the fields it carries. A plan whose literal leaves
    FromRound out has 0 there. *)
Inductive PartyTickPlan : Set :=
| PartyTickWait
| PartyTickMintRound (fromRound : Z)
| PartyTickDispatchVoice (voiceIndex : Z)
| PartyTickTakeaways (fromRound : Z) (reason : string)
| PartyTickClose (reason : string).

Definition PlanPartyTick (s : PartySession) (settle : RoundSettlement) (now facilitatorPostTimeout : Z) : PartyTickPlan :=
  if negb (IsActive s) then PartyTickWait
  else if Round s =? 0 then PartyTickMintRound 0
  else match CurrentRoundMessageID s with
       | None =>
           match RoundStartedAt s with
           | Some t => if (0 <? facilitatorPostTimeout) && (facilitatorPostTimeout <? now - t) then PartyTickClose PartyPhaseClosed
                       else PartyTickWait
           | None => PartyTickWait
           end
       | Some _ =>
           let roster := Z.of_nat (length (RoundVoices s)) in
           if Dispatched settle <? roster then
             if Dispatched settle <=? Settled settle + TimedOut settle then PartyTickDispatchVoice (Dispatched settle) else PartyTickWait
           else if negb (Complete settle) then PartyTickWait
           else match DecideAdvance s true (AllSilent settle) with
                | AdvanceNextRound => PartyTickMintRound (Round s)
                | AdvanceTakeaways reason => PartyTickTakeaways 0 reason
                | AdvanceClose reason => PartyTickClose reason
                | AdvanceWait => PartyTickWait
                end
       end.

(** * The store's methods over its statements *)

(** GetPartySession; [None]: an error, the absent row's included. *)
Definition GetPartySession (id : string) : Prog (option PartySession) :=
  let* r := call (GetSession id) in ret (match r with Some s => s | None => None end).

Inductive StoreError : Set := NotActive | OtherError.

(** A statement that should hit a row, and the read of the row after it. *)
Definition update_then_get (id : string) (hit : option bool) : Prog (result StoreError PartySession) :=
  match hit with
  | None => ret (Err OtherError)
  | Some false => ret (Err NotActive)
  | Some true => let* r := GetPartySession id in ret (match r with Some s => Ok s | None => Err OtherError end)
  end.

Definition RecordPaidRuns (id : string) (n : Z) : Prog (result StoreError PartySession) :=
  if n <? 0 then ret (Err OtherError) else let* hit := call (ChargeRuns id n) in update_then_get id hit.

Definition MintRound (id : string) (fromRound : Z) : Prog (result StoreError PartySession) :=
  let* hit := call (NextRound id fromRound) in update_then_get id hit.

Definition CloseSession (id phase : string) : Prog (result StoreError PartySession) :=
  if bool_decide (phase ∈ [PartyPhaseClosed; PartyPhaseConverged; PartyPhaseBudgetExhausted]) then
    let* hit := call (EndSession id phase) in update_then_get id hit
  else ret (Err OtherError).

(** [Some won], or an error. *)
Definition SetRoundFacilitatorMessage (id : string) (forRound : Z) (message : string) (voices : list string) : Prog (option bool) :=
  let* hit := call (StampRound id forRound message voices) in
  match hit with
  | Some true => let* r := GetPartySession id in ret (match r with Some _ => Some true | None => None end)
  | _ => ret hit
  end.

Definition RoundVoiceSettlement (message : string) (timeout : Z) : Prog (option RoundSettlement) :=
  let* r := call (SettlementOf message (Z.max 0 timeout)) in
  ret (match r with Some (d, s, t) => Some {| Dispatched := d; Settled := s; TimedOut := t |} | None => None end).

Definition budget_of (budget : option PartyBudget) : result string PartyBudget :=
  match budget with Some b => normalize b | None => Ok DefaultPartyBudget end.

Definition StartPartySession (project team thread : string) (auth : AuthorContext) (body : string) (budget : option PartyBudget) :
    Prog (result string (PartySession * option Message)) :=
  if bool_decide (body = "") then ret (Err "message body is required")
  else if negb (PartyStartAllowed auth) then ret (Err "only a human may start a party session")
  else match budget_of budget with
       | Err e => ret (Err e)
       | Ok b =>
           let* scope := call (ThreadInScope project team thread) in
           match scope with
           | Err e => ret (Err e)
           | Ok _ =>
               let* r := call (StartSession (new_message thread None auth body "party" "party_start" None) project team b) in
               match r with
               | None => ret (Err "open party session")
               | Some (Some (m, s)) => ret (Ok (s, Some m))
               | Some None =>
                   let* live := call (ActiveSession thread) in
                   ret (match live with
                        | Some (Some s) => Ok (s, None)
                        | Some None => Err "no active party session for thread"
                        | None => Err "read active session"
                        end)
               end
           end
       end.

(** The session and whether it was opened here; [None]: an error. *)
Definition OpenPartySessionForMessage (project thread topic : string) (auth : AuthorContext) (budget : option PartyBudget) :
    Prog (option (PartySession * bool)) :=
  if negb (PartyStartAllowed auth) then ret None
  else match budget_of budget with
       | Err _ => ret None
       | Ok b =>
           let* opened := call (OpenSession project thread topic (auth_Principal auth) b) in
           match opened with
           | None => ret None
           | Some opened =>
               let* live := call (ActiveSession thread) in
               ret (match live with Some (Some s) => Some (s, opened) | _ => None end)
           end
       end.

Definition resetMarkerBody : string := "— discussion cleared —".

(** The marker's payload is not read by any of this. *)
Definition ResetThread (project team thread : string) (auth : AuthorContext) : Prog (result string (Message * Z)) :=
  if negb (ResetAllowed auth) then ret (Err "only a human may reset a discussion")
  else
    let* scope := call (ThreadInScope project team thread) in
    match scope with
    | Err e => ret (Err e)
    | Ok _ =>
        let* r := call (ResetRoom (new_message thread None auth resetMarkerBody "party" "reset" None)) in
        ret (match r with Some x => Ok x | None => Err "reset" end)
    end.

(** * The hook of a facilitator's post *)

(** The voices of a post, as the roster spells them. *)
Definition party_voices (auth_agent : string) (msg : Message) (roster : list TeamAgent) : list string :=
  ta_Name <$> resolve_names (byName roster) (ToLower auth_agent) [] (parseMentions (msg_Body msg)).

(** [true]: the post is handled. [wired]: there are a dispatcher and a store. *)
Definition DispatchPartyMentionsFrom (wired : bool) (auth : AuthorContext) (msg : Message) (roster : list TeamAgent)
    (authorIsCoordinator : bool) : Prog bool :=
  if negb wired then ret false
  else match auth_AgentID auth with
       | None => ret false
       | Some agent =>
           if negb authorIsCoordinator then ret false
           else
             let* live := call (ActiveSession (msg_ThreadID msg)) in
             match live with
             | Some (Some sess) =>
                 if bool_decide (parseMentions (msg_Body msg) = []) then ret false
                 else
                   let resolved := party_voices agent msg roster in
                   if bool_decide (resolved = []) then ret true
                   else
                     let allowed := VoicesAllowedThisRound sess (Z.of_nat (length resolved)) in
                     if allowed =? 0 then ret true
                     else
                       let* _ := SetRoundFacilitatorMessage (ps_ID sess) (Round sess) (msg_ID msg) (take (Z.to_nat allowed) resolved) in
                       ret true
             | _ => ret false
             end
       end.

Definition is_coordinator (auth : AuthorContext) (roster : list TeamAgent) : bool :=
  match auth_AgentID auth, coordinatorOf roster with
  | Some agent, Some c => EqualFold (ta_Name c) agent
  | _, _ => false
  end.

Definition routeBarePartyToFacilitator (project : string) (auth : AuthorContext) (msg : Message) (roster : list TeamAgent) : Prog bool :=
  match classifyPartyRoute msg roster with
  | partyRouteNormal => ret false
  | partyRouteFacilitator =>
      let* r := OpenPartySessionForMessage project (msg_ThreadID msg) (msg_ID msg) auth None in
      ret (bool_decide (is_Some r))
  end.

(** What a post is dispatched by: the handler of the REST edge, or the discussion_post
    tool (src/internal/memory/discussiondispatch.go) with the coordinator marker of its
    session, whose roster has no statuses and no flags. *)
Inductive Edge : Set := RestEdge | ToolEdge (authorIsCoordinator : bool).

Section handlers.
Context (maxInFlight inFlightStaleness : Z) (refs : bool) (cap : Z).

Definition dispatchMentions (edge : Edge) (project : string) (auth : AuthorContext) (msg : Message) : Prog unit :=
  let* roster := call (Roster auth project) in
  match roster with
  | None => ret tt
  | Some roster =>
      let* party := DispatchPartyMentionsFrom true auth msg roster
                      (match edge with RestEdge => is_coordinator auth roster | ToolEdge c => c end) in
      if party : bool then ret tt
      else
        let* routed := (match edge with RestEdge => routeBarePartyToFacilitator project auth msg roster | ToolEdge _ => ret false end) in
        if routed : bool then ret tt
        else DispatchMentionsFrom maxInFlight inFlightStaleness refs cap roster project auth msg
  end.

(** A payload of null is none. *)
Definition request_payload (payload : option json) : option json := match payload with Some JNull => None | p => p end.

(** Handler.postMessage after its request is parsed, and the tool's, which takes no
    audience, kind or payload. *)
Definition post (edge : Edge) (uuid_ok : string -> bool) (project team thread : string) (auth : AuthorContext) (body : string)
    (parent audience kind : option string) (references : list TicketRef) (payload : option json) : Prog (result string Message) :=
  let '(audience, kind, payload) := match edge with
                                    | RestEdge => (audience, kind, request_payload payload)
                                    | ToolEdge _ => (None, None, None)
                                    end in
  let* stamped := StampReplyHopFrom true auth payload in
  match stamped with
  | Err e => ret (Err e)
  | Ok payload =>
      let* linked := StampTicketRefsFrom true uuid_ok project auth references payload in
      match linked with
      | Err e => ret (Err e)
      | Ok payload =>
          let* r := PostMessage project team thread auth body parent audience kind payload in
          match r with
          | Err e => ret (Err e)
          | Ok msg => let* _ := dispatchMentions edge project auth msg in ret (Ok msg)
          end
      end
  end.
End handlers.

(** * The advancer *)

Definition DefaultPartyAdvancerTick : Z := 10 * 10 ^ 9.
Definition DefaultPartySequentialTurnSettleTimeout : Z := 5 * 60 * 10 ^ 9.
Definition DefaultPartyFacilitatorPostTimeout : Z := 10 * 60 * 10 ^ 9.
Definition AdvancerInitiator : string := "system:party-advancer".

Definition effectivePartySettleTimeout (hasRoster : bool) (backstop seqSettleTO : Z) : Z :=
  if hasRoster && (0 <? seqSettleTO) && (seqSettleTO <? backstop) then seqSettleTO else backstop.

Fixpoint tree_size (t : MessageTree) : nat := match t with Node _ rs => S (list_sum (tree_size <$> rs)) end.

(** Breadth first; every pass takes a message off the queue. *)
Fixpoint flatten_queue (fuel : nat) (queue : list MessageTree) : list Message :=
  match fuel, queue with
  | S fuel, Node m rs :: queue => m :: flatten_queue fuel (queue ++ rs)
  | _, _ => []
  end.
Definition flattenMessages (msgs : list MessageTree) : list Message := flatten_queue (list_sum (tree_size <$> msgs)) msgs.

(** With no persona lookup: the other agents' turns under their ids. *)
Definition AssemblePeerTurns (roundMsgs : list Message) (dispatchedAgent : string) : list PartyPeerTurn :=
  omap (fun m => match msg_AuthorAgentID m with
                 | Some author =>
                     if bool_decide (author = "") || bool_decide (author = dispatchedAgent) || bool_decide (TrimSpace (msg_Body m) = "")
                     then None else Some {| turn_Name := author; turn_Body := TrimSpace (msg_Body m) |}
                 | None => None
                 end) roundMsgs.

Section advancer.
(** The advancer's settings: Principal, SettleTO, SeqSettleTO, PostTO, and the voice
    dispatcher's, with whether it is there. *)
Context (Principal : string) (SettleTO SeqSettleTO PostTO : Z).
Context (voice_dispatcher : bool) (maxInFlight inFlightStaleness : Z).

Definition advancerPrincipal : string := if bool_decide (Principal = "") then "ksquad-operator" else Principal.

Definition dispatch_of (sess : PartySession) (message voice : string) (roundMsgs : list Message) : MentionDispatch :=
  {| d_ProjectID := ps_ProjectID sess; d_ThreadID := ps_ThreadID sess; d_MessageID := message; d_TeamID := ps_TeamID sess;
     d_AgentName := voice; d_HopDepth := 1; d_TriggeredByPrincipal := advancerPrincipal; d_TriggeredByAgentID := None;
     d_Orchestrate := false; d_OrchestratedAgents := []; d_RequestBody := "";
     d_Party := Some {| pc_Round := Round sess; pc_Persona := voice; pc_PeersThisRound := AssemblePeerTurns roundMsgs voice |} |}.

Definition dispatchVoice (sess : PartySession) (voiceIndex : Z) : Prog unit :=
  if negb voice_dispatcher then ret tt
  else match CurrentRoundMessageID sess with
       | None => ret tt
       | Some message =>
           if voiceIndex <? 0 then ret tt
           else match RoundVoices sess !! Z.to_nat voiceIndex with
                | None => ret tt
                | Some voice =>
                    let* thread := call (GetThread (ps_ProjectID sess) (ps_TeamID sess) (ps_ThreadID sess)) in
                    let roundMsgs := match thread with Some msgs => flattenMessages msgs | None => [] end in
                    let* _ := DispatchMention maxInFlight inFlightStaleness true (dispatch_of sess message voice roundMsgs) in
                    ret tt
                end
       end.

(** coordAdvancerWriter.CreateWorkItem *)
Definition create_item (i : CreateWorkItemInput) : Prog (option string) :=
  let* r := resolve_refs true (in_ProjectID i) (in_TeamID i) in
  match r with
  | None => ret None
  | Some (project, team) =>
      let* rec := call (CreateWorkItem {| in_ProjectID := project; in_TeamID := team; in_Title := in_Title i; in_Body := in_Body i;
                                          in_Principal := in_Principal i |}) in
      match rec with
      | None => ret None
      | Some item => let* marked := call (MarkSource item) in ret (if marked : bool then Some item else None)
      end
  end.

Definition round_of (sess : PartySession) (round : Z) : FacilitatorRound :=
  {| fr_ProjectID := ps_ProjectID sess; fr_ThreadID := ps_ThreadID sess; fr_TopicMessageID := ps_TopicMessageID sess;
     fr_Round := round; fr_MaxRounds := MaxRounds (Budget sess); fr_VoiceCap := MaxVoicesPerRound (Budget sess) |}.

Definition facilitator_item (sess : PartySession) (title : string) (body : Directive) : CreateWorkItemInput :=
  {| in_ProjectID := ps_ProjectID sess; in_TeamID := ps_TeamID sess; in_Title := title; in_Body := body; in_Principal := advancerPrincipal |}.

Definition request (sess : PartySession) (item coordinator : string) : Prog bool :=
  call (RequestDispatch item coordinator (ps_TeamID sess) advancerPrincipal AdvancerInitiator).

Definition mintRound (sess : PartySession) (fromRound : Z) : Prog unit :=
  let* updated := MintRound (ps_ID sess) fromRound in
  match updated with
  | Err _ => ret tt
  | Ok updated =>
      let* coordinator := call (CoordinatorForTeam (ps_TeamID sess)) in
      match coordinator with
      | Some (Some coordinator) =>
          let round := Round updated in
          let title := "Party facilitation — round " +:+ itoa round +:+ " of " +:+ itoa (MaxRounds (Budget sess)) in
          let* item := create_item (facilitator_item sess title (FacilitatorRoundDirective (round_of sess round))) in
          match item with
          | None => ret tt
          | Some item => let* _ := request sess item coordinator in ret tt
          end
      | _ => ret tt
      end
  end.

Definition close (sess : PartySession) (reason : string) : Prog unit :=
  let* _ := CloseSession (ps_ID sess) reason in ret tt.

Definition mintTakeaways (sess : PartySession) (fromRound : Z) (reason : string) : Prog unit :=
  let* updated := MintRound (ps_ID sess) fromRound in
  match updated with
  | Err _ => ret tt
  | Ok updated =>
      let* coordinator := call (CoordinatorForTeam (ps_TeamID sess)) in
      match coordinator with
      | Some (Some coordinator) =>
          let round := Round updated in
          let* item := create_item (facilitator_item sess ("Party takeaways — round " +:+ itoa round)
                                      (TakeawaysDirective (round_of sess round) reason)) in
          match item with
          | None => close sess reason
          | Some item => let* _ := request sess item coordinator in close sess reason
          end
      | _ => close sess reason
      end
  end.

Definition no_settlement : RoundSettlement := {| Dispatched := 0; Settled := 0; TimedOut := 0 |}.

(** The settlement read and the charge of a settled round: the session to decide on,
    unless the pass ends here. *)
Definition read_and_charge (settleTO seqSettleTO : Z) (sess : PartySession) : Prog (option (PartySession * RoundSettlement)) :=
  match CurrentRoundMessageID sess with
  | None => ret (Some (sess, no_settlement))
  | Some message =>
      let hasRoster := negb (bool_decide (RoundVoices sess = [])) in
      let* s := RoundVoiceSettlement message (effectivePartySettleTimeout hasRoster settleTO seqSettleTO) in
      match s with
      | None => ret None
      | Some settle =>
          let roundFullyDispatched := Z.of_nat (length (RoundVoices sess)) <=? Dispatched settle in
          if Complete settle && (0 <? Dispatched settle) && roundFullyDispatched then
            let* charged := RecordPaidRuns (ps_ID sess) (Dispatched settle) in
            ret (match charged with Ok charged => Some (charged, settle) | Err _ => None end)
          else ret (Some (sess, settle))
      end
  end.

Definition execute (sess : PartySession) (plan : PartyTickPlan) : Prog unit :=
  match plan with
  | PartyTickWait => ret tt
  | PartyTickDispatchVoice i => dispatchVoice sess i
  | PartyTickMintRound r => mintRound sess r
  | PartyTickTakeaways r reason => mintTakeaways sess r reason
  | PartyTickClose reason => close sess reason
  end.

Definition advanceSession (settleTO seqSettleTO postTO : Z) (sess : PartySession) : Prog unit :=
  let* r := read_and_charge settleTO seqSettleTO sess in
  match r with
  | None => ret tt
  | Some (sess, settle) =>
      let* t := call Now in
      execute sess (PlanPartyTick sess settle t postTO)
  end.

Definition or_default (v d : Z) : Z := if v <=? 0 then d else v.

Fixpoint advance_all (settleTO seqSettleTO postTO : Z) (l : list PartySession) : Prog unit :=
  match l with
  | [] => ret tt
  | sess :: l => let* _ := advanceSession settleTO seqSettleTO postTO sess in advance_all settleTO seqSettleTO postTO l
  end.

Definition tick : Prog unit :=
  let* sessions := call ActivePartySessions in
  match sessions with
  | None => ret tt
  | Some l => advance_all (or_default SettleTO DefaultPartyVoiceSettleTimeout) (or_default SeqSettleTO DefaultPartySequentialTurnSettleTimeout)
                (or_default PostTO DefaultPartyFacilitatorPostTimeout) l
  end.
End advancer.

(** * The tables that answer *)

Definition int4 (x : Z) : bool := (- 2 ^ 31 <=? x) && (x <? 2 ^ 31).
Definition int4_positive (x : Z) : bool := (0 <? x) && (x <? 2 ^ 31).
Definition budget_ok (b : PartyBudget) : bool :=
  int4_positive (MaxRounds b) && int4_positive (MaxVoicesPerRound b) && int4_positive (PaidRunBudget b).

(** A row with the columns a statement sets. *)
Definition set_row (s : PartySession) (round used : Z) (phase : string) (closed : option Z) (message : option string)
    (started : option Z) (voices : list string) : PartySession :=
  {| ps_ID := ps_ID s; ps_ThreadID := ps_ThreadID s; ps_ProjectID := ps_ProjectID s; ps_TeamID := ps_TeamID s;
     ps_StartedBy := ps_StartedBy s; ps_TopicMessageID := ps_TopicMessageID s; Round := round; Budget := Budget s;
     PaidRunsUsed := used; Phase := phase; OpenedAt := OpenedAt s; ClosedAt := closed; CurrentRoundMessageID := message;
     RoundStartedAt := started; RoundVoices := voices |}.

Definition charged_row (now n : Z) (s : PartySession) : PartySession :=
  let full := PaidRunBudget (Budget s) <=? PaidRunsUsed s + n in
  set_row s (Round s) (PaidRunsUsed s + n) (if full then PartyPhaseBudgetExhausted else Phase s)
    (if full then Some now else ClosedAt s) (CurrentRoundMessageID s) (RoundStartedAt s) (RoundVoices s).
Definition next_row (now : Z) (s : PartySession) : PartySession :=
  set_row s (Round s + 1) (PaidRunsUsed s + 1) (Phase s) (ClosedAt s) None (Some now) [].
Definition ended_row (now : Z) (phase : string) (s : PartySession) : PartySession :=
  set_row s (Round s) (PaidRunsUsed s) phase (Some now) (CurrentRoundMessageID s) (RoundStartedAt s) (RoundVoices s).
Definition stamped_row (message : string) (voices : list string) (s : PartySession) : PartySession :=
  set_row s (Round s) (PaidRunsUsed s) (Phase s) (ClosedAt s) (Some message) (RoundStartedAt s) voices.

Definition opened_row (id thread project team by_ topic : string) (b : PartyBudget) (now : Z) : PartySession :=
  {| ps_ID := id; ps_ThreadID := thread; ps_ProjectID := project; ps_TeamID := team; ps_StartedBy := by_; ps_TopicMessageID := topic;
     Round := 0; Budget := b; PaidRunsUsed := 0; Phase := PartyPhaseActive; OpenedAt := now; ClosedAt := None;
     CurrentRoundMessageID := None; RoundStartedAt := None; RoundVoices := [] |}.

(** An UPDATE of the active row [id] where [P] holds of it: whether it hit. *)
Definition on_active (id : string) (P : PartySession -> bool) (f : PartySession -> PartySession) (w : Tables) : bool * Tables :=
  match sessions w !! id with
  | Some s => if IsActive s && P s then (true, set_sessions (<[id := f s]>) w) else (false, w)
  | None => (false, w)
  end.

Definition record_round (id : string) (round : Z) (message : string) (w : Tables) : Tables :=
  {| now := now w; ledger := ledger w; settled := settled w; sessions := sessions w;
     rounds := match rounds w !! (id, round) with Some _ => rounds w | None => <[(id, round) := message]> (rounds w) end;
     messages := messages w; threads := threads w; claims := claims w; items := items w; requests := requests w |}.

Definition charge_stmt (id : string) (n : Z) (w : Tables) : bool * Tables := on_active id (fun _ => true) (charged_row (now w) n) w.
Definition next_stmt (id : string) (from : Z) (w : Tables) : bool * Tables := on_active id (fun s => Round s =? from) (next_row (now w)) w.
Definition end_stmt (id phase : string) (w : Tables) : bool * Tables := on_active id (fun _ => true) (ended_row (now w) phase) w.
Definition stamp_stmt (id : string) (round : Z) (message : string) (voices : list string) (w : Tables) : bool * Tables :=
  match on_active id (fun s => (Round s =? round) && bool_decide (CurrentRoundMessageID s = None)) (stamped_row message voices) w with
  | (true, w') => (true, record_round id round message w')
  | r => r
  end.

Definition close_thread (thread : string) (w : Tables) : Tables :=
  set_sessions (fmap (fun s => if IsActive s && bool_decide (ps_ThreadID s = thread) then ended_row (now w) PartyPhaseClosed s else s)) w.

Definition live_on (thread : string) (w : Tables) (s : PartySession) : Prop :=
  sessions w !! ps_ID s = Some s /\ IsActive s = true /\ ps_ThreadID s = thread.

(** A new active row for the thread, when it has none and the checks pass. *)
Definition opens_session (id thread project team by_ topic : string) (b : PartyBudget) (w w' : Tables) : Prop :=
  sessions w !! id = None /\ budget_ok b = true /\ (forall s, ~ live_on thread w s) /\
  w' = set_sessions (<[id := opened_row id thread project team by_ topic b (now w)]>) w.

Definition add_message (m : Message) (w : Tables) : Tables :=
  {| now := now w; ledger := ledger w; settled := settled w; sessions := sessions w; rounds := rounds w;
     messages := <[msg_ID m := m]> (messages w); threads := threads w; claims := claims w; items := items w; requests := requests w |}.
Definition add_item (id : string) (i : CreateWorkItemInput) (w : Tables) : Tables :=
  {| now := now w; ledger := ledger w; settled := settled w; sessions := sessions w; rounds := rounds w; messages := messages w;
     threads := threads w; claims := claims w; items := <[id := i]> (items w); requests := requests w |}.
Definition add_request (item agent : string) (told : bool) (w : Tables) : Tables :=
  {| now := now w; ledger := ledger w; settled := settled w; sessions := sessions w; rounds := rounds w; messages := messages w;
     threads := threads w; claims := claims w; items := items w; requests := requests w ++ [(item, agent, told)] |}.

(** The in-flight rows of a thread. *)
Definition in_flight (thread : string) (staleness : Z) (w : Tables) (r : MentionRow) : bool :=
  bool_decide (md_ThreadID r = thread) && bool_decide (mark_of w r = None) && (now w - staleness <=? md_CreatedAt r).
Definition count_in_flight (thread : string) (staleness : Z) (w : Tables) : Z :=
  Z.of_nat (size (filter (fun kr => in_flight thread staleness w kr.2 = true) (ledger w))).

Definition under (message : string) (w : Tables) : gmap (string * string) MentionRow :=
  filter (fun kr => kr.1.1 = message) (ledger w).
Definition timed_out (timeout : Z) (w : Tables) (r : MentionRow) : bool := md_CreatedAt r <? now w - timeout.
Definition count_rows (P : MentionRow -> bool) (m : gmap (string * string) MentionRow) : Z :=
  Z.of_nat (size (filter (fun kr => P kr.2 = true) m)).
Definition has_mark (w : Tables) (r : MentionRow) : bool := bool_decide (is_Some (mark_of w r)).
Definition settlement (message : string) (timeout : Z) (w : Tables) : Z * Z * Z :=
  (count_rows (fun _ => true) (under message w), count_rows (has_mark w) (under message w),
   count_rows (fun r => negb (has_mark w r) && timed_out timeout w r) (under message w)).

Definition claim_row (d : MentionDispatch) (w : Tables) : bool * Tables :=
  match ledger w !! (d_MessageID d, d_AgentName d) with
  | Some _ => (false, w)
  | None => (true, set_ledger (<[(d_MessageID d, d_AgentName d) :=
      {| md_ProjectID := d_ProjectID d; md_ThreadID := d_ThreadID d; md_HopDepth := d_HopDepth d; md_Item := None; md_CreatedAt := now w |}]>) w)
  end.
Definition bind_row (item : string) (r : MentionRow) : MentionRow :=
  {| md_ProjectID := md_ProjectID r; md_ThreadID := md_ThreadID r; md_HopDepth := md_HopDepth r; md_Item := Some item; md_CreatedAt := md_CreatedAt r |}.
Definition bind_stmt (message agent item : string) (w : Tables) : Tables := set_ledger (alter (bind_row item) (message, agent)) w.
Definition release_stmt (message agent : string) (w : Tables) : Tables := set_ledger (delete (message, agent)) w.

(** A statement that answers whether it hit; one that fails may have landed. *)
Definition exec (r : bool * Tables) (w : Tables) (x : option bool) (w' : Tables) : Prop :=
  x = Some r.1 /\ w' = r.2 \/ x = None /\ (w' = w \/ w' = r.2).
Definition lands (w1 w : Tables) (acked : bool) (w' : Tables) : Prop := w' = w1 \/ acked = false /\ w' = w.
(** A read that answers [v], or fails. *)
Definition reads {A} (v : A -> Prop) (w : Tables) (x : option A) (w' : Tables) : Prop :=
  w' = w /\ match x with Some a => v a | None => True end.

Definition active_rows (w : Tables) : list PartySession := filter (fun s => IsActive s = true) ((map_to_list (sessions w)).*2).

(** The rows of the ledger a run was dispatched by. *)
Definition dispatched_by (w : Tables) (run : string) (r : MentionRow) : Prop :=
  exists k item, ledger w !! k = Some r /\ md_Item r = Some item /\ claims w !! run = Some item.

Definition serves X (c : Call X) (w : Tables) : X -> Tables -> Prop :=
  match c in Call X return X -> Tables -> Prop with
  | CountInFlight thread st => reads (fun n => n = count_in_flight thread st w) w
  | Claim d => fun x w' => if int4 (d_HopDepth d) then exec (claim_row d w) w x w' else x = None /\ w' = w
  | Bind message agent item => lands (bind_stmt message agent item w) w
  | Release message agent => fun _ w' => w' = w \/ w' = release_stmt message agent w
  | HopForDispatchedRun run =>
      reads (fun hop => match hop with
                        | Some h => exists r, dispatched_by w run r /\ h = md_HopDepth r
                        | None => forall r, ~ dispatched_by w run r
                        end) w
  | ResolveProject _ => reads (fun _ => True) w
  | CreateWorkItem i => fun x w' =>
      match x with
      | Some id => items w !! id = None /\ w' = add_item id i w
      | None => w' = w \/ exists id, items w !! id = None /\ w' = add_item id i w
      end
  | MarkSource _ => fun _ w' => w' = w
  | RequestDispatch item agent _ _ _ => fun told w' => w' = add_request item agent told w \/ told = false /\ w' = w
  | ThreadInScope project team thread => fun x w' => w' = w /\ (is_ok x = true -> threads w !! thread = Some (project, team))
  | ThreadOfMessage m => reads (fun t => t = msg_ThreadID <$> messages w !! m) w
  | InsertMessage m => fun x w' =>
      match x with
      | Some (id, t) => t = now w /\ messages w !! id = None /\ w' = add_message (as_row m id t) w
      | None => w' = w \/ exists id, messages w !! id = None /\ w' = add_message (as_row m id (now w)) w
      end
  | Roster _ _ => reads (fun _ => True) w
  | ResolveTicketRefs _ _ refs => reads (fun l => forall r, r ∈ l -> ref_WorkItemID r ∈ ref_WorkItemID <$> refs) w
  | GetThread _ _ _ => reads (fun _ => True) w
  | ActiveSession thread =>
      reads (fun s => match s with Some s => live_on thread w s | None => forall s, ~ live_on thread w s end) w
  | ActivePartySessions => reads (fun l => l ≡ₚ active_rows w /\ StronglySorted (fun a b => OpenedAt a <= OpenedAt b) l) w
  | GetSession id => reads (fun s => s = sessions w !! id) w
  | SettlementOf m timeout => reads (fun r => r = settlement m timeout w) w
  | ChargeRuns id n => exec (charge_stmt id n w) w
  | NextRound id from => exec (next_stmt id from w) w
  | EndSession id phase => exec (end_stmt id phase w) w
  | StampRound id round m voices => exec (stamp_stmt id round m voices w) w
  | StartSession m project team b => fun x w' =>
      match x with
      | Some (Some (m', s)) =>
          exists id sid, messages w !! id = None /\ m' = as_row m id (now w) /\
            opens_session sid (msg_ThreadID m) project team (msg_AuthorPrincipal m) id b (add_message m' w) w' /\ sessions w' !! sid = Some s
      | Some None => w' = w /\ exists s, live_on (msg_ThreadID m) w s
      | None => w' = w \/ exists id sid, messages w !! id = None /\
            opens_session sid (msg_ThreadID m) project team (msg_AuthorPrincipal m) id b (add_message (as_row m id (now w)) w) w'
      end
  | OpenSession project thread topic principal b => fun x w' =>
      match x with
      | Some true => exists id team m, threads w !! thread = Some (project, team) /\ messages w !! topic = Some m /\
            msg_ThreadID m = thread /\ opens_session id thread project team principal topic b w w'
      | Some false => w' = w
      | None => w' = w \/ exists id team, opens_session id thread project team principal topic b w w'
      end
  | ResetRoom m => fun x w' =>
      match x with
      | Some (m', _) => exists id, messages w !! id = None /\ m' = as_row m id (now w) /\ w' = add_message m' (close_thread (msg_ThreadID m) w)
      | None => w' = w \/ exists id, messages w !! id = None /\ w' = add_message (as_row m id (now w)) (close_thread (msg_ThreadID m) w)
      end
  | CoordinatorForTeam _ => reads (fun _ => True) w
  | Now => fun x w' => x = now w /\ w' = w
  end.

(** * The debate among everything else

    One advancer at a time (the runnable is leader-elected), whose process may die
    anywhere; the handlers of any number of posts, each at its own pace, and the other
    handlers; the clock, the runs that claim items and settle. *)

Record World : Type := { tables : Tables; posts : list (string * Prog unit) }.

Definition served X (c : Call X) (w : World) (x : X) (w' : World) : Prop :=
  serves X c (tables w) x (tables w') /\ posts w' = posts w.

Definition passes_time (t : Z) (w : Tables) : Tables :=
  {| now := t; ledger := ledger w; settled := settled w; sessions := sessions w; rounds := rounds w; messages := messages w;
     threads := threads w; claims := claims w; items := items w; requests := requests w |}.
Definition settles (item : string) (t : Z) (w : Tables) : Tables :=
  {| now := now w; ledger := ledger w; settled := <[item := t]> (settled w); sessions := sessions w; rounds := rounds w;
     messages := messages w; threads := threads w; claims := claims w; items := items w; requests := requests w |}.
Definition run_claims (run item : string) (w : Tables) : Tables :=
  {| now := now w; ledger := ledger w; settled := settled w; sessions := sessions w; rounds := rounds w; messages := messages w;
     threads := threads w; claims := <[run := item]> (claims w); items := items w; requests := requests w |}.

Section system.
(** The settings of the dispatchers and of the advancer. *)
Context (maxInFlight inFlightStaleness cap : Z) (Principal : string) (SettleTO SeqSettleTO PostTO : Z).

Inductive elsewhere : World -> World -> Prop :=
| time_passes w t : now (tables w) <= t -> elsewhere w {| tables := passes_time t (tables w); posts := posts w |}
| run_settles w item t : elsewhere w {| tables := settles item t (tables w); posts := posts w |}
| run_begins w run item : claims (tables w) !! run = None -> elsewhere w {| tables := run_claims run item (tables w); posts := posts w |}
| post_commits w m edge project auth :
    messages (tables w) !! msg_ID m = None ->
    elsewhere w {| tables := add_message m (tables w);
                   posts := posts w ++ [(msg_ID m, dispatchMentions maxInFlight inFlightStaleness true cap edge project auth m)] |}
| post_goes w l1 id X (c : Call X) k l2 x t' :
    posts w = l1 ++ (id, Do c k) :: l2 -> serves X c (tables w) x t' ->
    elsewhere w {| tables := t'; posts := l1 ++ (id, k x) :: l2 |}
| session_starts w m project team b x t' :
    serves _ (StartSession m project team b) (tables w) x t' -> elsewhere w {| tables := t'; posts := posts w |}
| room_reset w m x t' : serves _ (ResetRoom m) (tables w) x t' -> elsewhere w {| tables := t'; posts := posts w |}.

Definition advancer_pass (p : Prog unit) : Prop :=
  p = tick Principal SettleTO SeqSettleTO PostTO true maxInFlight inFlightStaleness.

(** Nothing has been dispatched or opened yet. *)
Definition fresh_room (w : World) : Prop :=
  ledger (tables w) = ∅ /\ sessions (tables w) = ∅ /\ rounds (tables w) = ∅ /\ requests (tables w) = [] /\ posts w = [].

Definition debates : World -> World * Prog unit -> Prop := sys_reaches served elsewhere advancer_pass.
End system.

(** * The runs of the voices

    A voice's run is a work item whose dispatch committed. [told]: a dispatcher was
    answered so; of the lost ones none was. *)

Definition dispatched (w : Tables) (item : string) : bool := existsb (fun r => bool_decide (r.1.1 = item)) (requests w).
Definition told_of (w : Tables) (item : string) : bool := existsb (fun r => bool_decide (r.1.1 = item) && r.2) (requests w).

(** The voice answers a message of [P]. *)
Definition voice_for (P : string -> bool) (i : CreateWorkItemInput) : bool := match in_Body i with MentionRun d => P (d_MessageID d) | _ => false end.

Definition voice_runs (P : string -> bool) (w : Tables) : gmap string CreateWorkItemInput :=
  filter (fun ki => voice_for P ki.2 && dispatched w ki.1 = true) (items w).
Definition lost_runs (P : string -> bool) (w : Tables) : gmap string CreateWorkItemInput :=
  filter (fun ki => negb (told_of w ki.1) = true) (voice_runs P w).

(** The messages of a session's rounds; one message. *)
Definition round_message (id : string) (w : Tables) (m : string) : bool := bool_decide (map_Exists (fun k m' => k.1 = id /\ m' = m) (rounds w)).
Definition only (m m' : string) : bool := bool_decide (m' = m).
