(* ===== verification/PartyProps.v ===== *)
(** The party debate keeps its budget: what holds of the tables in every interleaving
    of an advancer that may die anywhere with the posts, resets and runs around it. *)
From S2P Require Import Prelude GoStr Calls Room Party.
Open Scope Z_scope.
Open Scope k8s_scope.

(** * The rosters a session has paid for *)

(** The roster of each round of each session, kept here although its row forgets it. *)
Notation rosters := (gmap (string * Z) (list string)).

Definition turns (ros : rosters) (id : string) (r : Z) : list string := default [] (ros !! (id, r)).
(** The voices of the rounds up to the [n]th. *)
Definition spent (ros : rosters) (id : string) (n : Z) : Z :=
  Z.of_nat (sum_list_with (fun i => length (turns ros id (Z.of_nat i))) (seq 1 (Z.to_nat n))).

Lemma spent_0 ros id n : n <= 0 -> spent ros id n = 0.
Proof. intros H. unfold spent. by replace (Z.to_nat n) with 0%nat by lia. Qed.

Lemma spent_next ros id n : 0 <= n -> spent ros id (n + 1) = spent ros id n + Z.of_nat (length (turns ros id (n + 1))).
Proof.
  intros H. unfold spent. replace (Z.to_nat (n + 1)) with (S (Z.to_nat n)) by lia.
  rewrite seq_S, sum_list_with_app. cbn. replace (Z.of_nat (S (Z.to_nat n))) with (n + 1) by lia. lia.
Qed.

(** Only the rounds counted matter. *)
Lemma spent_ext ros ros' id n : (forall r, 1 <= r <= n -> turns ros id r = turns ros' id r) -> spent ros id n = spent ros' id n.
Proof.
  intros H. unfold spent. f_equal. assert (forall a k, (1 <= a)%nat -> (a + k <= S (Z.to_nat n))%nat ->
    sum_list_with (fun i => length (turns ros id (Z.of_nat i))) (seq a k) = sum_list_with (fun i => length (turns ros' id (Z.of_nat i))) (seq a k)) as Hk.
  { intros a k. revert a. induction k as [|k IH]; intros a Ha Hak; cbn; [done|]. rewrite (H (Z.of_nat a)), IH by lia. done. }
  apply Hk; lia.
Qed.

(** * What holds of the tables *)

Definition row_ok (ros : rosters) (rds : gmap (string * Z) string) (id : string) (s : PartySession) : Prop :=
  ps_ID s = id /\ budget_ok (Budget s) = true /\ 0 <= Round s <= MaxRounds (Budget s) /\
  match CurrentRoundMessageID s with
  | Some m => rds !! (id, Round s) = Some m /\ ros !! (id, Round s) = Some (RoundVoices s)
  | None => rds !! (id, Round s) = None /\ ros !! (id, Round s) = None
  end /\
  Round s + spent ros id (Round s - 1) <= PaidRunsUsed s /\
  Round s + spent ros id (Round s) <= PaidRunBudget (Budget s).

Record sound (ros : rosters) (t : Tables) : Prop := {
  sound_rows id s : sessions t !! id = Some s -> row_ok ros (rounds t) id s;
  sound_keys id r m : rounds t !! (id, r) = Some m -> exists s, sessions t !! id = Some s /\ r <= Round s;
  sound_rosters id r l : ros !! (id, r) = Some l -> exists s, sessions t !! id = Some s /\ r <= Round s /\
                           Z.of_nat (length l) <= MaxVoicesPerRound (Budget s) /\ is_Some (rounds t !! (id, r));
  sound_once k k' m : rounds t !! k = Some m -> rounds t !! k' = Some m -> k = k';
  sound_ledger id r m a : rounds t !! (id, r) = Some m -> is_Some (ledger t !! (m, a)) -> 1 <= r /\ a ∈ turns ros id r;
  sound_known_round k m : rounds t !! k = Some m -> is_Some (messages t !! m);
  sound_known_row m a : is_Some (ledger t !! (m, a)) -> is_Some (messages t !! m) }.

(** How the rows, rounds and rosters move. *)
Definition row_moves (s s' : PartySession) : Prop :=
  ps_ID s' = ps_ID s /\ Budget s' = Budget s /\ Round s <= Round s' /\
  (Round s' = Round s -> (IsActive s' = true -> IsActive s = true) /\ PaidRunsUsed s <= PaidRunsUsed s' /\
     (PaidRunsUsed s < PaidRunBudget (Budget s) -> IsActive s' = true -> PaidRunsUsed s' < PaidRunBudget (Budget s))).

Record moves (ros : rosters) (t : Tables) (ros' : rosters) (t' : Tables) : Prop := {
  moves_rows id s : sessions t !! id = Some s -> exists s', sessions t' !! id = Some s' /\ row_moves s s';
  moves_rounds : rounds t ⊆ rounds t';
  moves_rosters : ros ⊆ ros';
  moves_new id r l : ros' !! (id, r) = Some l -> ros !! (id, r) = Some l \/ sessions t !! id = None \/ exists s, sessions t !! id = Some s /\ r = Round s;
  moves_messages m : is_Some (messages t !! m) -> is_Some (messages t' !! m) }.

(** What a row that was read still says. *)
Definition seen (ros : rosters) (t : Tables) (s : PartySession) : Prop :=
  exists cur, sessions t !! ps_ID s = Some cur /\ Budget cur = Budget s /\ 0 <= Round s <= Round cur /\
    Round s + spent ros (ps_ID s) (Round s - 1) <= PaidRunsUsed s /\
    (forall m, CurrentRoundMessageID s = Some m -> rounds t !! (ps_ID s, Round s) = Some m /\ ros !! (ps_ID s, Round s) = Some (RoundVoices s)) /\
    (Round cur = Round s -> PaidRunsUsed s < PaidRunBudget (Budget s) -> IsActive cur = true -> PaidRunsUsed cur < PaidRunBudget (Budget s)).

Lemma row_moves_refl s : row_moves s s.
Proof. split_and!; [done|done|lia|]. intros _. split_and!; [done|lia|done]. Qed.

Lemma spent_moves ros t ros' t' id s n : moves ros t ros' t' -> sessions t !! id = Some s -> n < Round s -> spent ros' id n = spent ros id n.
Proof.
  intros Hm Hs Hn. apply spent_ext. intros r Hr. unfold turns.
  destruct (ros' !! (id, r)) as [l|] eqn:E'.
  - destruct (moves_new _ _ _ _ Hm _ _ _ E') as [->|[?|(s0 & ? & ->)]]; [done|congruence|]. simplify_eq. lia.
  - destruct (ros !! (id, r)) as [l|] eqn:E; [|done]. eapply lookup_weaken in E; [|apply (moves_rosters _ _ _ _ Hm)]. congruence.
Qed.

Lemma seen_moves ros t ros' t' s : sound ros t -> moves ros t ros' t' -> seen ros t s -> seen ros' t' s.
Proof.
  intros Hs Hm (cur & Hc & Hb & Hr & Hsp & Hmsg & Hu).
  destruct (moves_rows _ _ _ _ Hm _ _ Hc) as (cur' & Hc' & Hid & Hb' & Hr' & Hsame).
  exists cur'. split; [done|]. split; [congruence|]. split; [lia|]. split.
  { destruct (Z.eq_dec (Round s) 0) as [E|]; [rewrite spent_0 in * by lia; lia|].
    rewrite (spent_moves _ _ _ _ _ _ _ Hm Hc) by lia. done. }
  split.
  { intros m Em. destruct (Hmsg m Em). split; eapply lookup_weaken; eauto using moves_rounds, moves_rosters. }
  intros E Hlt Ha. assert (Round cur = Round s) as E1 by lia. destruct Hsame as (H1 & H2 & H3); [lia|].
  rewrite Hb in H3. apply H3; [|done]. apply Hu; auto.
Qed.

(** A row that is read is seen. *)
Lemma seen_now ros t id s : sound ros t -> sessions t !! id = Some s -> seen ros t s.
Proof.
  intros Hs E. destruct (sound_rows _ _ Hs _ _ E) as (Hid & _ & Hr & Hm & Hu & _). exists s. rewrite Hid. split; [done|].
  split; [done|]. split; [lia|]. split; [done|]. split; [|auto]. intros m Em. rewrite Em in Hm. done.
Qed.

(** * What each statement does to them *)

Lemma row_ok_rounds ros rds id s s' :
  row_ok ros rds id s -> ps_ID s' = ps_ID s -> Budget s' = Budget s -> Round s' = Round s ->
  CurrentRoundMessageID s' = CurrentRoundMessageID s -> RoundVoices s' = RoundVoices s -> PaidRunsUsed s <= PaidRunsUsed s' ->
  row_ok ros rds id s'.
Proof. unfold row_ok. intros H -> -> -> -> -> ?. destruct H as (? & ? & ? & ? & ? & ?). split_and!; try done; lia. Qed.

Lemma updated ros t id s s' :
  sound ros t -> sessions t !! id = Some s -> row_moves s s' -> row_ok ros (rounds t) id s' ->
  sound ros (set_sessions (<[id := s']>) t) /\ moves ros t ros (set_sessions (<[id := s']>) t).
Proof.
  intros Hs E Hmv Hok. destruct Hmv as (Hid & Hb & Hr & Hu). split.
  - split; cbn.
    + intros id0 s0. rewrite lookup_insert_Some. intros [[<- <-]|[Hne E0]]; [done|by eapply sound_rows].
    + intros id0 r m Hm. destruct (sound_keys _ _ Hs _ _ _ Hm) as (s0 & E0 & Hr0).
      destruct (decide (id0 = id)) as [->|Hne]; [exists s'; rewrite lookup_insert_eq; split; [done|simplify_eq; lia]|].
      exists s0. by rewrite lookup_insert_ne.
    + intros id0 r l Hl. destruct (sound_rosters _ _ Hs _ _ _ Hl) as (s0 & E0 & Hr0 & Hv & Hk).
      destruct (decide (id0 = id)) as [->|Hne]; [exists s'; rewrite lookup_insert_eq, Hb; simplify_eq; split_and!; [done|lia|done|done]|].
      exists s0. by rewrite lookup_insert_ne.
    + apply Hs.
    + apply Hs.
    + apply Hs.
    + apply Hs.
  - split; cbn; try done.
    + intros id0 s0 E0. destruct (decide (id0 = id)) as [->|Hne].
      * exists s'. rewrite lookup_insert_eq. simplify_eq. done.
      * exists s0. rewrite lookup_insert_ne by done. split; [done|apply row_moves_refl].
    + intros id0 r l Hl. by left.
Qed.

Lemma updated_all ros t (f : PartySession -> PartySession) :
  sound ros t -> (forall id s, sessions t !! id = Some s -> row_moves s (f s) /\ row_ok ros (rounds t) id (f s)) ->
  sound ros (set_sessions (fmap f) t) /\ moves ros t ros (set_sessions (fmap f) t).
Proof.
  intros Hs Hf. split.
  - split; cbn; try apply Hs.
    + intros id s. rewrite lookup_fmap, fmap_Some. intros (s0 & E & ->). by apply Hf.
    + intros id r m Hm. destruct (sound_keys _ _ Hs _ _ _ Hm) as (s0 & E0 & Hr0). exists (f s0). rewrite lookup_fmap, E0.
      split; [done|]. destruct (Hf _ _ E0) as [(_ & _ & ? & _) _]. lia.
    + intros id r l Hl. destruct (sound_rosters _ _ Hs _ _ _ Hl) as (s0 & E0 & Hr0 & Hv & Hk). exists (f s0). rewrite lookup_fmap, E0.
      destruct (Hf _ _ E0) as [(_ & -> & ? & _) _]. split_and!; [done|lia|done|done].
  - split; cbn; try done.
    + intros id s E. exists (f s). rewrite lookup_fmap, E. split; [done|]. by eapply Hf.
    + intros id r l Hl. by left.
Qed.

Lemma added ros t id s :
  sound ros t -> sessions t !! id = None -> ps_ID s = id -> budget_ok (Budget s) = true -> Round s = 0 -> PaidRunsUsed s = 0 ->
  CurrentRoundMessageID s = None ->
  sound ros (set_sessions (<[id := s]>) t) /\ moves ros t ros (set_sessions (<[id := s]>) t).
Proof.
  intros Hs E Hid Hb Hr Hu Hm.
  assert (forall r, rounds t !! (id, r) = None) as Hno.
  { intros r. destruct (rounds t !! (id, r)) eqn:Er; [|done]. destruct (sound_keys _ _ Hs _ _ _ Er) as (? & ? & _). congruence. }
  assert (forall r, ros !! (id, r) = None) as Hno'.
  { intros r. destruct (ros !! (id, r)) eqn:Er; [|done]. destruct (sound_rosters _ _ Hs _ _ _ Er) as (? & ? & _). congruence. }
  assert (0 < MaxRounds (Budget s) /\ 0 < PaidRunBudget (Budget s)) as [? ?].
  { unfold budget_ok, int4_positive in Hb. repeat (apply andb_true_iff in Hb as [Hb ?]).
    repeat match goal with H : _ && _ = true |- _ => apply andb_true_iff in H as [? ?] end. lia. }
  split.
  - split; cbn; try apply Hs.
    + intros id0 s0. rewrite lookup_insert_Some. intros [[<- <-]|[Hne E0]]; [|by eapply sound_rows].
      unfold row_ok. rewrite Hm, Hr, Hu, !spent_0 by lia. split_and!; try done; lia.
    + intros id0 r m Hk. destruct (sound_keys _ _ Hs _ _ _ Hk) as (s0 & E0 & Hr0).
      exists s0. rewrite lookup_insert_ne by congruence. done.
    + intros id0 r l Hl. destruct (sound_rosters _ _ Hs _ _ _ Hl) as (s0 & E0 & Hr0).
      exists s0. rewrite lookup_insert_ne by congruence. done.
  - split; cbn; try done.
    + intros id0 s0 E0. exists s0. rewrite lookup_insert_ne by congruence. split; [done|apply row_moves_refl].
    + intros id0 r l Hl. by left.
Qed.

(** Statements that leave sessions and rounds alone. *)
Lemma elsewhere_moved ros t t' :
  sound ros t -> sessions t' = sessions t -> rounds t' = rounds t -> (forall m, is_Some (messages t !! m) -> is_Some (messages t' !! m)) ->
  (forall m a, is_Some (ledger t' !! (m, a)) -> is_Some (ledger t !! (m, a)) \/
     is_Some (messages t !! m) /\ forall id r, rounds t !! (id, r) = Some m -> 1 <= r /\ a ∈ turns ros id r) ->
  sound ros t' /\ moves ros t ros t'.
Proof.
  intros Hs Es Er Hm Hl. split.
  - split; rewrite ?Es, ?Er; try apply Hs.
    + intros id r m a Hk Ha. destruct (Hl _ _ Ha) as [Ho|[_ Hn]]; [by eapply sound_ledger|by apply Hn].
    + intros k m Hk. apply Hm. by eapply sound_known_round.
    + intros m a Ha. apply Hm. destruct (Hl _ _ Ha) as [Ho|[Hn _]]; [by eapply sound_known_row|done].
  - split; rewrite ?Es, ?Er; try done.
    + intros id s E. exists s. split; [done|apply row_moves_refl].
    + intros id r l Hr. by left.
Qed.

Lemma moves_refl ros t : moves ros t ros t.
Proof. split; try done; [|intros; by left]. intros id s E. exists s. split; [done|apply row_moves_refl]. Qed.

Lemma on_active_cases id P f t :
  on_active id P f t = (false, t) \/
  exists s, sessions t !! id = Some s /\ IsActive s = true /\ P s = true /\ on_active id P f t = (true, set_sessions (<[id := f s]>) t).
Proof.
  unfold on_active. destruct (sessions t !! id) as [s|]; [|by left]. destruct (IsActive s) eqn:Ea; cbn; [|by left].
  destruct (P s) eqn:Ep; [|by left]. right. eauto 10.
Qed.

Lemma exec_cases r t x t' : exec r t x t' -> t' = t \/ t' = r.2.
Proof. intros [[-> ->]|[-> [->| ->]]]; auto. Qed.

Lemma charge_moves s n now : 0 <= n -> row_moves s (charged_row now n s).
Proof.
  intros Hn. unfold row_moves, charged_row, IsActive. cbn. split_and!; [done|done|lia|]. intros _.
  destruct (Z.leb_spec (PaidRunBudget (Budget s)) (PaidRunsUsed s + n)); cbn; split_and!; try lia; try done.
Qed.

Lemma end_moves s phase now : phase <> PartyPhaseActive -> row_moves s (ended_row now phase s).
Proof.
  intros Hp. unfold row_moves, ended_row, IsActive. cbn. rewrite bool_decide_eq_false_2 by done. split_and!; [done|done|lia|]. done.
Qed.

Lemma charge_sound ros t id n x t' :
  sound ros t -> 0 <= n -> exec (charge_stmt id n t) t x t' -> sound ros t' /\ moves ros t ros t'.
Proof.
  intros Hs Hn [->| ->]%exec_cases; [by split; [|apply moves_refl]|]. unfold charge_stmt.
  destruct (on_active_cases id (fun _ => true) (charged_row (now t) n) t) as [->|(s & E & Ha & _ & ->)]; [by split; [|apply moves_refl]|].
  apply updated with (s := s); [done|done|by apply charge_moves|]. eapply row_ok_rounds; [by eapply sound_rows|done..|]. cbn. lia.
Qed.

Lemma end_sound ros t id phase x t' :
  sound ros t -> phase <> PartyPhaseActive -> exec (end_stmt id phase t) t x t' -> sound ros t' /\ moves ros t ros t'.
Proof.
  intros Hs Hp [->| ->]%exec_cases; [by split; [|apply moves_refl]|]. unfold end_stmt.
  destruct (on_active_cases id (fun _ => true) (ended_row (now t) phase) t) as [->|(s & E & Ha & _ & ->)]; [by split; [|apply moves_refl]|].
  apply updated with (s := s); [done|done|by apply end_moves|]. eapply row_ok_rounds; [by eapply sound_rows|done..|]. cbn. lia.
Qed.

Lemma close_sound ros t thread : sound ros t -> sound ros (close_thread thread t) /\ moves ros t ros (close_thread thread t).
Proof.
  intros Hs. apply updated_all; [done|]. intros id s E. destruct (IsActive s && bool_decide (ps_ThreadID s = thread)).
  - split; [by apply end_moves|]. eapply row_ok_rounds; [by eapply sound_rows|done..|]. cbn. lia.
  - split; [apply row_moves_refl|by eapply sound_rows].
Qed.

(** The next round begins when this one's roster is paid for and a run is left. *)
Lemma next_sound ros t id from x t' :
  sound ros t -> exec (next_stmt id from t) t x t' ->
  (forall s, sessions t !! id = Some s -> IsActive s = true -> Round s = from ->
     from < MaxRounds (Budget s) /\ from + spent ros id from <= PaidRunsUsed s /\ from + spent ros id from < PaidRunBudget (Budget s)) ->
  sound ros t' /\ moves ros t ros t'.
Proof.
  intros Hs [->| ->]%exec_cases Hok; [by split; [|apply moves_refl]|]. unfold next_stmt.
  destruct (on_active_cases id (fun s => Round s =? from) (next_row (now t)) t) as [->|(s & E & Ha & Hr & ->)]; [by split; [|apply moves_refl]|].
  apply Z.eqb_eq in Hr. destruct (Hok _ E Ha Hr) as (H1 & H2 & H3). destruct (sound_rows _ _ Hs _ _ E) as (Hid & Hb & Hrr & Hm & Hu & Hp).
  assert (rounds t !! (id, from + 1) = None) as Hno.
  { destruct (rounds t !! (id, from + 1)) eqn:Er; [|done]. destruct (sound_keys _ _ Hs _ _ _ Er) as (? & ? & ?). simplify_eq. lia. }
  assert (ros !! (id, from + 1) = None) as Hno'.
  { destruct (ros !! (id, from + 1)) eqn:Er; [|done]. destruct (sound_rosters _ _ Hs _ _ _ Er) as (? & ? & ? & _). simplify_eq. lia. }
  apply updated with (s := s); [done|done|..].
  - unfold row_moves. cbn. split_and!; [done|done|lia|lia].
  - unfold row_ok. cbn. rewrite Hr. replace (from + 1 - 1) with from by lia. rewrite spent_next by lia.
    unfold turns. rewrite Hno'. cbn. split_and!; try done; lia.
Qed.

Lemma insert_spent ros id r v id' n : n < r \/ id' <> id -> spent (<[(id, r) := v]> ros) id' n = spent ros id' n.
Proof. intros H. apply spent_ext. intros i Hi. unfold turns. rewrite lookup_insert_ne; [done|]. intros [= -> ->]. destruct H; [lia|done]. Qed.

(** A round's roster recorded: the tables after the stamp of [s]'s round. *)
Section stamp.
Context (ros : rosters) (t : Tables) (id m : string) (v : list string) (s : PartySession).
Context (Hs : sound ros t) (E : sessions t !! id = Some s) (Hn : CurrentRoundMessageID s = None).
Let s' := stamped_row m v s.
Let t' := record_round id (Round s) m (set_sessions (<[id := s']>) t).
Let ros' := <[(id, Round s) := v]> ros.

Lemma stamp_rounds : rounds t' = <[(id, Round s) := m]> (rounds t).
Proof. destruct (sound_rows _ _ Hs _ _ E) as (_ & _ & _ & Hm & _). rewrite Hn in Hm. destruct Hm as [Hm _]. cbn. by rewrite Hm. Qed.

Lemma stamp_moves : moves ros t ros' t'.
Proof.
  destruct (sound_rows _ _ Hs _ _ E) as (_ & _ & _ & Hm & _). rewrite Hn in Hm. destruct Hm as [Hm1 Hm2].
  split; rewrite ?stamp_rounds.
  - intros id0 s0 E0. cbn. destruct (decide (id0 = id)) as [->|Hne].
    + exists s'. rewrite lookup_insert_eq. simplify_eq. split; [done|]. split_and!; [done|done|cbn; lia|].
      intros _. split_and!; [done|cbn; lia|done].
    + exists s0. rewrite lookup_insert_ne by done. split; [done|apply row_moves_refl].
  - by apply insert_subseteq.
  - by apply insert_subseteq.
  - intros id0 r0 l0. unfold ros'. rewrite lookup_insert_Some. intros [[[= <- <-] <-]|[Hne E0]]; [right; right; by exists s|by left].
  - done.
Qed.

Lemma stamp_row_ok : Round s + spent ros id (Round s - 1) + Z.of_nat (length v) <= PaidRunBudget (Budget s) -> row_ok ros' (rounds t') id s'.
Proof.
  intros Hv. destruct (sound_rows _ _ Hs _ _ E) as (Hid & Hb & Hrr & _ & Hu & Hp). unfold row_ok. rewrite stamp_rounds.
  unfold ros', s'. cbn. rewrite !lookup_insert_eq, insert_spent by lia. split_and!; try done; [lia..|].
  destruct (Z.eq_dec (Round s) 0); [rewrite spent_0 in * by lia; lia|].
  replace (spent _ id (Round s)) with (spent ros id (Round s - 1) + Z.of_nat (length v)); [lia|].
  replace (Round s) with (Round s - 1 + 1) at 3 by lia. rewrite spent_next, insert_spent by lia.
  unfold turns. replace (Round s - 1 + 1) with (Round s) by lia. by rewrite lookup_insert_eq.
Qed.

Context (Hv : Round s + spent ros id (Round s - 1) + Z.of_nat (length v) <= PaidRunBudget (Budget s)).
Context (Hmax : Z.of_nat (length v) <= MaxVoicesPerRound (Budget s)).
Context (Hnew : forall k, rounds t !! k <> Some m) (Hrows : forall a, ledger t !! (m, a) = None) (Hmsg : is_Some (messages t !! m)).

Lemma stamp_keeps : sound ros' t'.
Proof.
  assert (forall id0 s0, sessions t !! id0 = Some s0 -> exists s1, sessions t' !! id0 = Some s1 /\ Round s1 = Round s0 /\ Budget s1 = Budget s0) as Hrow.
  { intros id0 s0 E0. cbn. destruct (decide (id0 = id)) as [->|]; [|exists s0; by rewrite lookup_insert_ne].
    exists s'. rewrite lookup_insert_eq. by simplify_eq. }
  split.
  - intros id0 s0. cbn [sessions t' record_round set_sessions]. rewrite lookup_insert_Some. intros [[<- <-]|[Hne E0]]; [by apply stamp_row_ok|].
    destruct (sound_rows _ _ Hs _ _ E0) as (? & ? & ? & Hm0 & ? & ?). unfold row_ok. rewrite stamp_rounds. unfold ros'.
    rewrite !insert_spent by auto. split_and!; try done; [lia..|]. rewrite !lookup_insert_ne by congruence. done.
  - intros id0 r0 m0. rewrite stamp_rounds, lookup_insert_Some. intros [[[= <- <-] <-]|[Hne E0]].
    + destruct (Hrow _ _ E) as (s1 & ? & Er & _). exists s1. by rewrite Er.
    + destruct (sound_keys _ _ Hs _ _ _ E0) as (s0 & Es0 & ?). destruct (Hrow _ _ Es0) as (s1 & ? & Er & _). exists s1. by rewrite Er.
  - intros id0 r0 l0. rewrite stamp_rounds. unfold ros'. rewrite lookup_insert_Some. intros [[[= <- <-] <-]|[Hne E0]].
    + destruct (Hrow _ _ E) as (s1 & ? & Er & Eb). exists s1. by rewrite Er, Eb, lookup_insert_eq.
    + destruct (sound_rosters _ _ Hs _ _ _ E0) as (s0 & Es0 & ? & ? & ?). destruct (Hrow _ _ Es0) as (s1 & ? & Er & Eb).
      exists s1. by rewrite Er, Eb, lookup_insert_ne.
  - intros k k' m0. rewrite stamp_rounds, !lookup_insert_Some.
    intros [[<- <-]|[Hk E0]] [[<- E1]|[Hk' E1]]; [done|by apply Hnew in E1|subst; by apply Hnew in E0|by eapply sound_once].
  - intros id0 r0 m0 a. rewrite stamp_rounds, lookup_insert_Some.
    intros [[[= <- <-] <-]|[Hne E0]] Hl; cbn in Hl; [rewrite Hrows in Hl; by destruct Hl|].
    destruct (sound_ledger _ _ Hs _ _ _ _ E0 Hl). split; [done|]. unfold turns, ros'. by rewrite lookup_insert_ne.
  - intros k m0. rewrite stamp_rounds, lookup_insert_Some. intros [[<- <-]|[Hne E0]]; [done|by eapply (sound_known_round _ _ Hs)].
  - apply Hs.
Qed.
End stamp.

(** A roster within the budget that is left, recorded while its message has no rows. *)
Lemma stamp_sound ros t id r m v x t' :
  sound ros t -> exec (stamp_stmt id r m v t) t x t' ->
  (forall s, sessions t !! id = Some s -> IsActive s = true -> Round s = r ->
     r + spent ros id (r - 1) + Z.of_nat (length v) <= PaidRunBudget (Budget s) /\ Z.of_nat (length v) <= MaxVoicesPerRound (Budget s)) ->
  (forall k, rounds t !! k <> Some m) -> (forall a, ledger t !! (m, a) = None) -> is_Some (messages t !! m) ->
  exists ros', sound ros' t' /\ moves ros t ros' t' /\ (forall k m', rounds t' !! k = Some m' -> m' = m \/ rounds t !! k = Some m') /\ ledger t' = ledger t.
Proof.
  intros Hs [->| ->]%exec_cases Hv Hnew Hrows Hmsg; [exists ros; split_and!; [done|apply moves_refl|auto|done]|]. unfold stamp_stmt.
  destruct (on_active_cases id (fun s => (Round s =? r) && bool_decide (CurrentRoundMessageID s = None)) (stamped_row m v) t)
    as [->|(s & E & Ha & Hp & ->)]; [exists ros; split_and!; [done|apply moves_refl|auto|done]|].
  apply andb_true_iff in Hp as [Hr%Z.eqb_eq Hn%bool_decide_eq_true]. destruct (Hv _ E Ha Hr) as [Hv1 Hv2]. subst r.
  exists (<[(id, Round s) := v]> ros). split; [by apply stamp_keeps|]. split; [by apply stamp_moves|]. split; [|done].
  intros k m'. cbn [snd]. rewrite (stamp_rounds ros) by done. rewrite lookup_insert_Some. intros [[_ ?]|[_ ?]]; auto.
Qed.

(** * The handler of a post *)

Definition is_stamp (e : Event Call) : bool := match e with Ev c _ => match c with StampRound _ _ _ _ => true | _ => false end end.
Definition claim_of (e : Event Call) : option string := match e with Ev c _ => match c with Claim d => Some (d_MessageID d) | _ => None end end.
Definition next_of (e : Event Call) : option string := match e with Ev c _ => match c with NextRound id _ => Some id | _ => None end end.

Definition active_of (e : Event Call) : option PartySession :=
  match e with @Ev _ X c x => match c in Call X return X -> _ with ActiveSession _ => fun x => match x with Some s => s | None => None end | _ => fun _ => None end x end.

Definition never_stamped (h : list (Event Call)) : Prop := forall e, e ∈ h -> is_stamp e = false.
Definition untouched (h : list (Event Call)) : Prop := forall e, e ∈ h -> is_stamp e = false /\ claim_of e = None.

(** What the handler of message [msg] does: one stamp of its own message for a session
    it has read, within its budget; or dispatches of its own message. *)
Definition post_may (msg : string) (h : list (Event Call)) X (c : Call X) : Prop :=
  match c with
  | StampRound id r m v =>
      m = msg /\ untouched h /\
      exists e s, e ∈ h /\ active_of e = Some s /\ ps_ID s = id /\ Round s = r /\
        Z.of_nat (length v) <= MaxVoicesPerRound (Budget s) /\ PaidRunsUsed s + Z.of_nat (length v) <= PaidRunBudget (Budget s)
  | Claim d => d_MessageID d = msg /\ never_stamped h
  | Bind m _ _ | Release m _ => m = msg /\ never_stamped h
  | ChargeRuns _ _ | NextRound _ _ | EndSession _ _ | StartSession _ _ _ _ | ResetRoom _ | InsertMessage _ => False
  | _ => True
  end.

Definition post_told (ros : rosters) (msg : string) (h : list (Event Call)) (t : Tables) : Prop :=
  is_Some (messages t !! msg) /\
  (never_stamped h -> forall k, rounds t !! k <> Some msg) /\
  (untouched h -> forall a, ledger t !! (msg, a) = None) /\
  forall e s, e ∈ h -> active_of e = Some s -> seen ros t s.

Lemma untouched_never h : untouched h -> never_stamped h.
Proof. intros H e He. by apply H. Qed.

Lemma never_stamped_app h e : never_stamped (h ++ [e]) <-> never_stamped h /\ is_stamp e = false.
Proof.
  unfold never_stamped. split.
  - intros H. split; [intros e0 He0|]; apply H, elem_of_app; [by left|right; by apply list_elem_of_singleton].
  - intros [H1 H2] e0 [He0|He0%list_elem_of_singleton]%elem_of_app; [auto|by subst].
Qed.

Lemma untouched_app h e : untouched (h ++ [e]) <-> untouched h /\ is_stamp e = false /\ claim_of e = None.
Proof.
  unfold untouched. split.
  - intros H. split; [intros e0 He0|]; apply H, elem_of_app; [by left|right; by apply list_elem_of_singleton].
  - intros [H1 H2] e0 [He0|He0%list_elem_of_singleton]%elem_of_app; [auto|by subst].
Qed.

(** Nothing changes of a message that is no round's, unless it is [msg]. *)
Definition leaves (msg : option string) (t t' : Tables) : Prop :=
  forall m, Some m <> msg -> (forall k, rounds t !! k <> Some m) ->
    (forall k, rounds t' !! k <> Some m) /\ forall a, ledger t' !! (m, a) = ledger t !! (m, a).

Lemma post_told_moves ros t ros' t' msg h m :
  sound ros t -> moves ros t ros' t' -> leaves m t t' -> Some msg <> m -> post_told ros msg h t -> post_told ros' msg h t'.
Proof.
  intros Hs Hm Hl Hne (H1 & H2 & H3 & H4). split_and!.
  - by eapply moves_messages.
  - intros Hh. by apply (Hl msg Hne (H2 Hh)).
  - intros Hh a. destruct (Hl msg Hne (H2 (untouched_never _ Hh))) as [_ ->]. by apply H3.
  - intros e s He Ha. eapply seen_moves; eauto.
Qed.

(** A call that changes nothing but what no one here reads. *)
Definition quiet (t t' : Tables) : Prop :=
  sessions t' = sessions t /\ rounds t' = rounds t /\ ledger t' = ledger t /\ settled t' = settled t /\ now t' = now t /\
  forall m, is_Some (messages t !! m) -> is_Some (messages t' !! m).

Lemma quiet_refl t : quiet t t.
Proof. by split_and!. Qed.

Lemma quiet_message m t : quiet t (add_message m t).
Proof.
  split_and!; try done. intros k [m0 H]. cbn. destruct (decide (k = msg_ID m)) as [->|]; [rewrite lookup_insert_eq|rewrite lookup_insert_ne by done]; eauto.
Qed.

Lemma quiet_moves ros t t' : sound ros t -> quiet t t' -> sound ros t' /\ moves ros t ros t'.
Proof. intros Hs (E1 & E2 & E3 & _ & _ & H). apply elsewhere_moved; try done. rewrite E3. auto. Qed.

Lemma quiet_leaves t t' o : quiet t t' -> leaves o t t'.
Proof. intros (E1 & E2 & E3 & _) m _ H. rewrite E2, E3. auto. Qed.

(** The calls that are quiet. *)
Definition is_quiet X (c : Call X) : bool :=
  match c with
  | Claim _ | Bind _ _ _ | Release _ _ | ChargeRuns _ _ | NextRound _ _ | EndSession _ _ | StampRound _ _ _ _
  | StartSession _ _ _ _ | OpenSession _ _ _ _ _ | ResetRoom _ => false
  | _ => true
  end.

Lemma served_quiet X (c : Call X) t x t' : is_quiet X c = true -> serves X c t x t' -> quiet t t'.
Proof.
  intros Hq Hx. destruct c; try discriminate Hq; cbn in Hx;
    try (destruct Hx as [-> _]; apply quiet_refl); try (destruct Hx as [_ ->]; apply quiet_refl).
  - destruct x; [destruct Hx as [_ ->]; by split_and!|]. destruct Hx as [->|(? & _ & ->)]; [apply quiet_refl|by split_and!].
  - destruct Hx as [->|[_ ->]]; [by split_and!|apply quiet_refl].
  - destruct x as [[id0 t0]|]; [destruct Hx as (_ & _ & ->); apply quiet_message|]. destruct Hx as [->|(? & _ & ->)]; [apply quiet_refl|apply quiet_message].
Qed.

(** Opening a session. *)
Lemma open_sound ros t id thread project team by_ topic b t' :
  sound ros t -> opens_session id thread project team by_ topic b t t' -> sound ros t' /\ moves ros t ros t'.
Proof. intros Hs (E & Hb & _ & ->). by apply added. Qed.

Lemma open_leaves id thread project team by_ topic b t t' o : opens_session id thread project team by_ topic b t t' -> leaves o t t'.
Proof. intros (_ & _ & _ & ->) m _ H. auto. Qed.

(** * Ledger statements *)

(** The rows under other messages stay, and no row but [(m, a)] is new. *)
Definition ledger_moved (m a : string) (t t' : Tables) : Prop :=
  sessions t' = sessions t /\ rounds t' = rounds t /\ messages t' = messages t /\ settled t' = settled t /\ now t' = now t /\
  forall m' a', (m', a') <> (m, a) -> ledger t' !! (m', a') = ledger t !! (m', a').

Definition ledger_call X (c : Call X) : option (string * string) :=
  match c with
  | Claim d => Some (d_MessageID d, d_AgentName d)
  | Bind m a _ | Release m a => Some (m, a)
  | _ => None
  end.

Lemma served_ledger X (c : Call X) m a t x t' : ledger_call X c = Some (m, a) -> serves X c t x t' -> ledger_moved m a t t'.
Proof.
  assert (ledger_moved m a t t) as H0 by by split_and!.
  assert (forall f, (forall k, k <> (m, a) -> f (ledger t) !! k = ledger t !! k) -> ledger_moved m a t (set_ledger f t)) as H1 by (intros f Hf; by split_and!; auto).
  destruct c; intros [= <- <-] Hx; cbn in Hx.
  - assert (t' = t \/ t' = (claim_row d t).2) as [->| ->] by (destruct (int4 (d_HopDepth d)); [by eapply exec_cases|left; tauto]); [done|]. unfold claim_row. destruct (ledger t !! _); [done|]. apply H1. intros k Hk. by apply lookup_insert_ne.
  - destruct Hx as [->|[_ ->]]; [|done]. apply H1. intros k Hk. by apply lookup_alter_ne.
  - destruct Hx as [->| ->]; [done|]. apply H1. intros k Hk. by apply lookup_delete_ne.
Qed.

(** The rows that are still there, where the call was no claim. *)
Lemma served_ledger_old X (c : Call X) m a t x t' :
  ledger_call X c = Some (m, a) -> claim_of (Ev c x) = None -> serves X c t x t' -> is_Some (ledger t' !! (m, a)) -> is_Some (ledger t !! (m, a)).
Proof.
  destruct c; intros [= <- <-] Hne Hx H; cbn in Hx; try discriminate Hne.
  - destruct Hx as [->|[_ ->]]; [|done]. cbn in H. rewrite lookup_alter_eq in H. by apply fmap_is_Some in H.
  - destruct Hx as [->| ->]; [done|]. cbn in H. rewrite lookup_delete_eq in H. by destruct H.
Qed.

Lemma ledger_sound ros t t' m a :
  sound ros t -> ledger_moved m a t t' ->
  (is_Some (ledger t' !! (m, a)) -> is_Some (ledger t !! (m, a)) \/
     is_Some (messages t !! m) /\ forall id r, rounds t !! (id, r) = Some m -> 1 <= r /\ a ∈ turns ros id r) ->
  sound ros t' /\ moves ros t ros t'.
Proof.
  intros Hs (E1 & E2 & E3 & _ & _ & Hl) Hnew. apply elsewhere_moved; try done; [by rewrite E3|].
  intros m' a' Ha. destruct (decide ((m', a') = (m, a))) as [[= -> ->]|Hne]; [auto|]. rewrite Hl in Ha by done. by left.
Qed.

Lemma ledger_leaves t t' m a : ledger_moved m a t t' -> leaves (Some m) t t'.
Proof.
  intros (_ & E2 & _ & _ & _ & Hl) m' Hne H. rewrite E2. split; [done|]. intros a'. apply Hl. intros [= -> _]. done.
Qed.

(** * What the handler's calls do *)

(** The turns of the rounds there are stay as they are; a new round has none. *)
Definition undisturbed (t t' : Tables) : Prop :=
  (forall k m a, rounds t !! k = Some m -> ledger t' !! (m, a) = ledger t !! (m, a)) /\
  (forall k m, rounds t' !! k = Some m -> rounds t !! k = Some m \/ forall a, ledger t' !! (m, a) = None).

Lemma undisturbed_same t t' : rounds t' = rounds t -> ledger t' = ledger t -> undisturbed t t'.
Proof. unfold undisturbed. intros -> ->. auto. Qed.

Section post_call.
Context (ros : rosters) (t : Tables) (msg : string) (h : list (Event Call)).
Context (Hs : sound ros t) (Ht : post_told ros msg h t).
Context {X : Type} (c : Call X) (x : X) (t' : Tables) (Hx : serves X c t x t').

Definition post_done : Prop := exists ros', sound ros' t' /\ moves ros t ros' t' /\ leaves (Some msg) t t' /\ undisturbed t t' /\ post_told ros' msg (h ++ [Ev c x]) t'.

(** What was read before stays; what is read now is a row. *)
Lemma post_seen ros' : moves ros t ros' t' -> forall e s, e ∈ h ++ [Ev c x] -> active_of e = Some s -> seen ros' t' s.
Proof.
  intros Hmv e s [He|He%list_elem_of_singleton]%elem_of_app Ha; eapply seen_moves; try done.
  - destruct Ht as (_ & _ & _ & H4). by eapply H4.
  - subst e. destruct c; try discriminate Ha. cbn in Ha, Hx. destruct x as [[s0|]|]; try discriminate Ha. injection Ha as ->.
    destruct Hx as [_ [E _]]. by eapply seen_now.
Qed.

(** A call that leaves the message alone. *)
Lemma post_aside ros' :
  sound ros' t' -> moves ros t ros' t' -> leaves None t t' -> undisturbed t t' -> post_done.
Proof.
  intros Hs' Hmv Hl Hun. exists ros'. split; [done|]. split; [done|]. split; [intros m _ H; by apply Hl|]. split; [done|].
  destruct Ht as (H1 & H2 & H3 & H4). split_and!.
  - by eapply moves_messages.
  - rewrite never_stamped_app. intros [Hn _]. apply (Hl msg); [done|auto].
  - rewrite untouched_app. intros [Hn _] a. destruct (Hl msg) as [_ ->]; [done|by apply H2, untouched_never|auto].
  - by apply post_seen.
Qed.

Lemma post_quiet : is_quiet X c = true -> post_done.
Proof.
  intros Hq. pose proof (served_quiet _ _ _ _ _ Hq Hx) as Hqt. destruct (quiet_moves _ _ _ Hs Hqt).
  eapply post_aside; [done|done|by apply quiet_leaves|]. destruct Hqt as (_ & ? & ? & _). by apply undisturbed_same.
Qed.

Lemma post_ledger m a : ledger_call X c = Some (m, a) -> m = msg -> never_stamped h -> post_done.
Proof.
  intros Hl -> Hnv. pose proof (served_ledger _ _ _ _ _ _ _ Hl Hx) as Hlm. destruct Ht as (H1 & H2 & H3 & _).
  destruct (ledger_sound ros t t' msg a Hs Hlm) as [Hs' Hmv]; [intros _; right; split; [done|]; intros id r E; by apply H2 in E|].
  exists ros. split; [done|]. split; [done|]. split; [by eapply ledger_leaves|]. destruct Hlm as (E1 & E2 & E3 & _ & _ & Hl').
  split; [split; [intros k m' a' Hk; apply Hl'; intros [= -> _]; by eapply H2|rewrite E2; by left]|]. split_and!.
  - by rewrite E3.
  - rewrite never_stamped_app, E2. intros [? _]. auto.
  - rewrite untouched_app. intros (Hu & _ & Hc) a'. destruct (decide (a' = a)) as [->|Hne]; [|rewrite Hl' by congruence; auto].
    apply eq_None_not_Some. intros Hsome. destruct (served_ledger_old X c msg a t x t') as [? He]; [done..|]. by rewrite H3 in He.
  - by apply post_seen.
Qed.
End post_call.

Lemma post_stamp ros t msg h id r v x t' :
  sound ros t -> post_told ros msg h t -> post_may msg h _ (StampRound id r msg v) -> serves _ (StampRound id r msg v) t x t' ->
  post_done ros t msg h (StampRound id r msg v) x t'.
Proof.
  intros Hs Ht (_ & Hu & e & s & He & Ha & <- & <- & Hv1 & Hv2) Hx. pose proof Ht as (H1 & H2 & H3 & H4).
  destruct (stamp_sound _ _ _ _ _ _ _ _ Hs Hx) as (ros' & Hs' & Hmv & Hr & Hled); [|by apply H2, untouched_never|by apply H3|done|].
  { intros cur E _ Er. destruct (H4 _ _ He Ha) as (cur' & E' & Hb & _ & Hsp & _). simplify_eq. rewrite Hb. split; lia. }
  exists ros'. split; [done|]. split; [done|]. split; [|split; [split|split_and!]].
  - intros m Hne Hno. rewrite Hled. split; [|done]. intros k E. destruct (Hr _ _ E) as [->|?]; [done|by eapply Hno].
  - intros k m a _. by rewrite Hled.
  - intros k m Hk. rewrite Hled. destruct (Hr _ _ Hk) as [->|?]; [right; by apply H3|by left].
  - by eapply moves_messages.
  - rewrite never_stamped_app. intros [_ [=]].
  - rewrite untouched_app. intros (_ & [=] & _).
  - exact (post_seen ros t msg h Hs Ht _ _ _ Hx _ Hmv).
Qed.

Lemma post_open ros t msg h project thread topic principal b x t' :
  sound ros t -> post_told ros msg h t -> serves _ (OpenSession project thread topic principal b) t x t' ->
  post_done ros t msg h (OpenSession project thread topic principal b) x t'.
Proof.
  intros Hs Ht Hx. assert (t' = t \/ exists id team, opens_session id thread project team principal topic b t t') as [->|(id & team & Ho)].
  { destruct x as [[]|]; cbn in Hx; [right; naive_solver|by left|]. destruct Hx as [->|(? & ? & ?)]; [by left|right; eauto]. }
  - apply (post_aside ros t msg h Hs Ht _ _ _ Hx ros Hs (moves_refl ros t)); [apply quiet_leaves, quiet_refl|by apply undisturbed_same].
  - destruct (open_sound _ _ _ _ _ _ _ _ _ _ Hs Ho) as [Hs' Hmv]. apply (post_aside ros t msg h Hs Ht _ _ _ Hx ros Hs' Hmv); [by eapply open_leaves|].
    destruct Ho as (_ & _ & _ & ->). by apply undisturbed_same.
Qed.

Lemma post_call ros t msg h X (c : Call X) x t' :
  sound ros t -> post_told ros msg h t -> post_may msg h X c -> serves X c t x t' -> post_done ros t msg h c x t'.
Proof.
  intros Hs Ht Hm Hx. destruct (is_quiet X c) eqn:Hq; [by apply post_quiet|].
  destruct (ledger_call X c) as [[m a]|] eqn:Hl.
  { assert (m = msg /\ never_stamped h) as [-> Hnv] by (destruct c; try discriminate Hl; injection Hl as <- <-; cbn in Hm; tauto).
    by eapply post_ledger. }
  destruct c; try discriminate Hq; try discriminate Hl; try (by destruct Hm).
  - assert (message = msg) as -> by apply Hm. by apply post_stamp.
  - by apply post_open.
Qed.

(** * The handler does only what it may *)

Ltac unstamped := repeat (apply never_stamped_app; split; [|reflexivity]); assumption.
(** Walk a program, each call within its part of [post_may]. *)
Ltac post_walk := repeat (cbn [obeys pbind call]; first [split; [first [exact I|split; [done|unstamped]]|intros ? _] | unstamped | case_match]).

Lemma dispatch_obeys msg h maxInFlight st refs d :
  d_MessageID d = msg -> never_stamped h -> obeys (post_may msg) any_answer (fun h _ => never_stamped h) h (DispatchMention maxInFlight st refs d).
Proof.
  intros Hd Hn. unfold DispatchMention, claim_and_mint, mint, resolve_refs. post_walk.
Qed.

Lemma dispatch_all_obeys msg maxInFlight st refs l h :
  (forall d, d ∈ l -> d_MessageID d = msg) -> never_stamped h ->
  obeys (post_may msg) any_answer (fun _ _ => True) h (dispatch_all maxInFlight st refs l).
Proof.
  revert h. induction l as [|d l IH]; intros h Hl Hn; cbn [dispatch_all]; [done|]. apply obeys_bind.
  eapply obeys_weaken; [apply dispatch_obeys; [apply Hl; by left|done]|]. intros h' ? ? Hn'. apply IH; [|done].
  intros d' Hd'. apply Hl. by right.
Qed.

(** The hook: [false] only when it has not stamped. *)
Lemma hook_obeys auth m roster coordinator h :
  untouched h -> obeys (post_may (msg_ID m)) any_answer (fun h (b : bool) => b = false -> never_stamped h) h
    (DispatchPartyMentionsFrom true auth m roster coordinator).
Proof.
  intros Hu. pose proof (untouched_never _ Hu) as Hn. unfold DispatchPartyMentionsFrom. cbn [negb].
  destruct (auth_AgentID auth) as [agent|]; [|by intros _]. destruct coordinator; [|by intros _]. cbn. split; [exact I|]. intros live _.
  destruct live as [[sess|]|]; [|intros _; unstamped..]. case_bool_decide; [intros _; unstamped|].
  case_bool_decide; [done|]. case_match eqn:Ea; [done|]. apply Z.eqb_neq in Ea. cbn. split; [|intros x _; by repeat (case_match; cbn; try done)].
  split; [done|]. split; [by apply untouched_app|]. exists (Ev (ActiveSession (msg_ThreadID m)) (Some (Some sess))), sess.
  split; [apply answered_last|]. split; [done|]. split; [done|]. split; [done|]. unfold VoicesAllowedThisRound, RemainingPaidRuns in *.
  rewrite length_take. destruct (Z.leb_spec (Z.of_nat (length (party_voices agent m roster))) 0); [done|].
  destruct (Z.leb_spec (PaidRunBudget (Budget sess)) (PaidRunsUsed sess)); lia.
Qed.

Lemma post_obeys maxInFlight st cap edge project auth m :
  obeys (post_may (msg_ID m)) any_answer (fun _ _ => True) [] (dispatchMentions maxInFlight st true cap edge project auth m).
Proof.
  unfold dispatchMentions. cbn. split; [exact I|]. intros [roster|] _; [|done].
  assert (untouched [Ev (Roster auth project) (Some roster)]) as Hu by (intros e ->%list_elem_of_singleton; done).
  apply obeys_bind. eapply obeys_weaken; [by apply hook_obeys|]. intros h [] Hp Hn; [done|]. specialize (Hn eq_refl). clear Hp Hu.
  apply obeys_bind. eapply (obeys_weaken _ _ (fun h _ => never_stamped h)).
  - destruct edge; [|done]. unfold routeBarePartyToFacilitator. destruct (classifyPartyRoute m roster); [done|].
    unfold OpenPartySessionForMessage. destruct (PartyStartAllowed auth); [|done]. cbn. split; [exact I|]. intros [opened|] _; cbn; [|unstamped].
    split; [exact I|]. intros live _. unstamped.
  - intros h' [] ? Hn'; [done|]. unfold DispatchMentionsFrom. destruct (resolveMentionTargets cap m roster) as [[targets ?] []]; [done|].
    apply dispatch_all_obeys; [|done]. intros d (t & -> & _)%list_elem_of_fmap. done.
Qed.

(** * The advancer *)

Definition snap_of (e : Event Call) : list PartySession :=
  match e with
  | @Ev _ X c x => match c in Call X return X -> _ with
                   | ActivePartySessions => default []
                   | GetSession _ => fun x => match x with Some (Some s) => [s] | _ => [] end
                   | _ => fun _ => []
                   end x
  end.
Definition charge_of (e : Event Call) : option (string * Z) :=
  match e with @Ev _ X c x => match c in Call X return X -> _ with ChargeRuns id n => fun x => match x with Some true => Some (id, n) | _ => None end | _ => fun _ => None end x end.
Definition next_hit (e : Event Call) : option (string * Z) :=
  match e with @Ev _ X c x => match c in Call X return X -> _ with NextRound id r => fun x => match x with Some true => Some (id, r) | _ => None end | _ => fun _ => None end x end.
(** A settlement read that shows every turn ended. *)
Definition settle_of (e : Event Call) : option (string * Z) :=
  match e with
  | @Ev _ X c x => match c in Call X return X -> _ with
                   | SettlementOf m timeout => fun x => match x with Some (d, s, o) => if d <=? s + o then Some (m, timeout) else None | None => None end
                   | _ => fun _ => None
                   end x
  end.

Definition snapped (h : list (Event Call)) (s : PartySession) : Prop := exists e, e ∈ h /\ s ∈ snap_of e.
Definition not_begun (h : list (Event Call)) (id : string) : Prop := forall e, e ∈ h -> next_of e <> Some id.
Definition not_claimed (h : list (Event Call)) (m : string) : Prop := forall e, e ∈ h -> claim_of e <> Some m.

(** Two readings of one round that disagree on its roster, which cannot be. *)
Definition mismatch (h : list (Event Call)) : Prop :=
  exists s s2, snapped h s /\ snapped h s2 /\ ps_ID s = ps_ID s2 /\ not_begun h (ps_ID s) /\
    CurrentRoundMessageID s <> None /\ CurrentRoundMessageID s2 <> None /\ length (RoundVoices s) <> length (RoundVoices s2).

Definition disagreed (h : list (Event Call)) : Prop := exists h1, h1 `prefix_of` h /\ mismatch h1.

Definition paid (h : list (Event Call)) (s s2 : PartySession) : Prop :=
  s = s2 /\ RoundVoices s = [] \/ exists e n, e ∈ h /\ charge_of e = Some (ps_ID s, n) /\ Z.of_nat (length (RoundVoices s)) <= n.

Section advancer.
(** The timeout of a turn. *)
Context (turn_timeout : Z).

Definition adv_may (h : list (Event Call)) X (c : Call X) : Prop :=
  match c with
  | ChargeRuns _ n => 0 <= n
  | NextRound id r =>
      not_begun h id /\
      (r = 0 \/ exists s s2, snapped h s /\ snapped h s2 /\ ps_ID s = id /\ ps_ID s2 = id /\ Round s2 = r /\ r < MaxRounds (Budget s2) /\
                  PaidRunsUsed s2 < PaidRunBudget (Budget s2) /\ CurrentRoundMessageID s <> None /\ CurrentRoundMessageID s2 <> None /\ paid h s s2)
  | Claim d =>
      disagreed h \/
      exists s, snapped h s /\ CurrentRoundMessageID s = Some (d_MessageID d) /\ Round s <> 0 /\ d_AgentName d ∈ RoundVoices s /\
        not_claimed h (d_MessageID d) /\ exists e, e ∈ h /\ settle_of e = Some (d_MessageID d, turn_timeout)
  | Bind m _ _ | Release m _ => (exists s, snapped h s /\ CurrentRoundMessageID s = Some m) /\ exists e, e ∈ h /\ claim_of e = Some m
  | CreateWorkItem i =>
      match in_Body i with
      | TakeawaysDirective _ _ => exists h1 e h2 id s, h = h1 ++ e :: h2 /\ next_hit e = Some (id, 0) /\ snapped h1 s /\ ps_ID s = id /\ Round s <> 0
      | _ => True
      end
  | EndSession _ phase => phase <> PartyPhaseActive
  | StampRound _ _ _ _ | OpenSession _ _ _ _ _ | StartSession _ _ _ _ | ResetRoom _ | InsertMessage _ => False
  | _ => True
  end.

Definition adv_answers X (c : Call X) : X -> Prop :=
  match c in Call X return X -> Prop with
  | ActivePartySessions => fun x => match x with Some l => NoDup (ps_ID <$> l) /\ NoDup (omap CurrentRoundMessageID l) | None => True end
  | GetSession id => fun x => match x with Some (Some s) => ps_ID s = id | _ => True end
  | SettlementOf _ _ => fun x => match x with Some (d, _, _) => 0 <= d | None => True end
  | _ => fun _ => True
  end.

Definition turn_over (to : Z) (t : Tables) (r : MentionRow) : Prop := has_mark t r = true \/ timed_out to t r = true.

(** What the answers so far still mean; [begun] and [claimed]: but for a session's
    round and a message's turns. *)
Record adv_told (begun claimed : option string) (ros : rosters) (h : list (Event Call)) (t : Tables) : Prop := {
  told_seen s : snapped h s -> seen ros t s;
  told_round s : snapped h s -> not_begun h (ps_ID s) -> begun <> Some (ps_ID s) ->
    exists cur, sessions t !! ps_ID s = Some cur /\ Round cur = Round s;
  told_charge e id n : e ∈ h -> charge_of e = Some (id, n) -> not_begun h id -> begun <> Some id ->
    exists cur, sessions t !! id = Some cur /\ Round cur + spent ros id (Round cur - 1) + n <= PaidRunsUsed cur;
  told_first h1 e h2 id s : h = h1 ++ e :: h2 -> next_hit e = Some (id, 0) -> snapped h1 s -> ps_ID s = id -> Round s = 0;
  told_turns e m to k : e ∈ h -> settle_of e = Some (m, to) -> rounds t !! k = Some m -> not_claimed h m -> claimed <> Some m ->
    forall a r, ledger t !! (m, a) = Some r -> turn_over to t r;
  told_agreed : ~ disagreed h }.

(** What happens in between the advancer's calls, and in one of them. *)
Record meanwhile (begun claimed : option string) (ros : rosters) (t : Tables) (ros' : rosters) (t' : Tables) : Prop := {
  meanwhile_moves : moves ros t ros' t';
  meanwhile_round id cur : sessions t !! id = Some cur -> begun <> Some id -> exists cur', sessions t' !! id = Some cur' /\ Round cur' = Round cur;
  meanwhile_ledger k m a : rounds t !! k = Some m -> claimed <> Some m ->
    forall r', ledger t' !! (m, a) = Some r' -> exists r, ledger t !! (m, a) = Some r /\ forall to, turn_over to t r -> turn_over to t' r';
  meanwhile_new k m : rounds t' !! k = Some m -> rounds t !! k = Some m \/ forall a, ledger t' !! (m, a) = None }.

Lemma turn_over_later to t t' r :
  now t <= now t' -> (forall i, is_Some (settled t !! i) -> is_Some (settled t' !! i)) -> turn_over to t r -> turn_over to t' r.
Proof.
  intros Hn Hs [H|H]; [left|right].
  - unfold has_mark, mark_of in *. apply bool_decide_eq_true in H. apply bool_decide_eq_true. destruct (md_Item r) as [i|]; [|by destruct H].
    cbn in *. auto.
  - unfold timed_out in *. apply Z.ltb_lt in H. apply Z.ltb_lt. lia.
Qed.

Lemma told_meanwhile b c ros t ros' t' h :
  sound ros t -> meanwhile b c ros t ros' t' -> adv_told None None ros h t -> adv_told b c ros' h t'.
Proof.
  intros Hs Hw Ht. pose proof (meanwhile_moves _ _ _ _ _ _ Hw) as Hm. split.
  - intros s Hn. eapply seen_moves; [done|done|]. by eapply told_seen.
  - intros s Hn Hb Hne. destruct (told_round _ _ _ _ _ Ht _ Hn Hb) as (cur & E & Er); [done|].
    destruct (meanwhile_round _ _ _ _ _ _ Hw _ _ E Hne) as (cur' & E' & Er'). exists cur'. split; [done|congruence].
  - intros e id n He Hc Hb Hne. destruct (told_charge _ _ _ _ _ Ht _ _ _ He Hc Hb) as (cur & E & Hle); [done|].
    destruct (meanwhile_round _ _ _ _ _ _ Hw _ _ E Hne) as (c1 & E1 & Er). destruct (moves_rows _ _ _ _ Hm _ _ E) as (c2 & E2 & _ & _ & _ & Hu).
    simplify_eq. destruct Hu as (_ & Hu & _); [done|]. eexists. split; [done|]. rewrite Er.
    destruct (Z.eq_dec (Round cur) 0) as [E0|]; [rewrite spent_0 in * by lia; lia|]. rewrite (spent_moves _ _ _ _ _ _ _ Hm E) by lia. lia.
  - apply Ht.
  - intros e m to k He Hse Hk Hc Hne a r Hr. destruct (meanwhile_new _ _ _ _ _ _ Hw _ _ Hk) as [Hk'|Hno]; [|by rewrite Hno in Hr].
    destruct (meanwhile_ledger _ _ _ _ _ _ Hw _ _ _ Hk' Hne _ Hr) as (r0 & Hr0 & Hto). apply Hto. by eapply told_turns.
  - apply Ht.
Qed.

(** * What the advancer's calls do *)

Lemma snapped_app h e s : snapped (h ++ [e]) s <-> snapped h s \/ s ∈ snap_of e.
Proof.
  unfold snapped. split.
  - intros (e0 & [He|He%list_elem_of_singleton]%elem_of_app & Hs); [left; eauto|right; by subst].
  - intros [(e0 & He & Hs)|Hs]; [exists e0|exists e]; (split; [apply elem_of_app|done]); [by left|right; by apply list_elem_of_singleton].
Qed.

Lemma not_begun_app h e id : not_begun (h ++ [e]) id <-> not_begun h id /\ next_of e <> Some id.
Proof.
  unfold not_begun. split.
  - intros H. split; [intros e0 He0|]; apply H, elem_of_app; [by left|right; by apply list_elem_of_singleton].
  - intros [H1 H2] e0 [He0|He0%list_elem_of_singleton]%elem_of_app; [auto|by subst].
Qed.

Lemma not_claimed_app h e m : not_claimed (h ++ [e]) m <-> not_claimed h m /\ claim_of e <> Some m.
Proof.
  unfold not_claimed. split.
  - intros H. split; [intros e0 He0|]; apply H, elem_of_app; [by left|right; by apply list_elem_of_singleton].
  - intros [H1 H2] e0 [He0|He0%list_elem_of_singleton]%elem_of_app; [auto|by subst].
Qed.

(** Two readings of a round that is still the session's agree. *)
Lemma readings_agree ros h t :
  (forall s, snapped h s -> seen ros t s) ->
  (forall s, snapped h s -> not_begun h (ps_ID s) -> exists cur, sessions t !! ps_ID s = Some cur /\ Round cur = Round s) -> ~ mismatch h.
Proof.
  intros Hseen Hround (s & s2 & H1 & H2 & Hid & Hb & Hm1 & Hm2 & Hne).
  destruct (Hround _ H1 Hb) as (c1 & E1 & R1). rewrite Hid in Hb, E1. destruct (Hround _ H2 Hb) as (c2 & E2 & R2). simplify_eq.
  destruct (CurrentRoundMessageID s) as [m1|] eqn:M1; [|done]. destruct (CurrentRoundMessageID s2) as [m2|] eqn:M2; [|done].
  destruct (Hseen _ H1) as (x1 & _ & _ & _ & _ & A1 & _). destruct (Hseen _ H2) as (x2 & _ & _ & _ & _ & A2 & _).
  destruct (A1 _ M1) as [_ B1], (A2 _ M2) as [_ B2]. rewrite Hid, <- R1, R2 in B1. congruence.
Qed.

(** What a call teaches: what it answers. *)
Lemma told_call ros h t X (c : Call X) x :
  adv_told (next_of (Ev c x)) (claim_of (Ev c x)) ros h t ->
  (forall s, s ∈ snap_of (Ev c x) -> sessions t !! ps_ID s = Some s /\ seen ros t s) ->
  (forall id n, charge_of (Ev c x) = Some (id, n) -> exists cur, sessions t !! id = Some cur /\ Round cur + spent ros id (Round cur - 1) + n <= PaidRunsUsed cur) ->
  (forall id s, next_hit (Ev c x) = Some (id, 0) -> snapped h s -> ps_ID s = id -> Round s = 0) ->
  (forall m to, settle_of (Ev c x) = Some (m, to) -> forall a r, ledger t !! (m, a) = Some r -> turn_over to t r) ->
  adv_told None None ros (h ++ [Ev c x]) t.
Proof.
  intros Ht Hsn Hch Hnh Hse.
  assert (forall s, snapped (h ++ [Ev c x]) s -> seen ros t s) as Hseen by (intros s [H|H]%snapped_app; [by eapply told_seen|by apply Hsn]).
  assert (forall s, snapped (h ++ [Ev c x]) s -> not_begun (h ++ [Ev c x]) (ps_ID s) -> exists cur, sessions t !! ps_ID s = Some cur /\ Round cur = Round s) as Hround.
  { intros s [H|H]%snapped_app [Hb Hne]%not_begun_app; [by eapply told_round|]. exists s. by destruct (Hsn _ H). }
  split.
  - done.
  - intros s H Hb _. by apply Hround.
  - intros e id n [He|He%list_elem_of_singleton]%elem_of_app Hc [Hb Hne]%not_begun_app _; [by eapply told_charge|subst e; auto].
  - intros h1 e h2 id s E He H1 Hid. destruct h2 as [|e2 h2 _] using rev_ind.
    + apply app_inj_tail in E as [-> <-]. by eapply Hnh.
    + rewrite app_comm_cons, app_assoc in E. apply app_inj_tail in E as [E _]. by eapply told_first.
  - intros e m to k [He|He%list_elem_of_singleton]%elem_of_app Hc Hk [Hb Hne]%not_claimed_app _; [by eapply told_turns|subst e; eauto].
  - intros (h1 & [h2 Hp] & Hm). destruct h2 as [|e2 h2 _] using rev_ind.
    + rewrite app_nil_r in Hp. subst h1. by eapply readings_agree.
    + rewrite app_assoc in Hp. apply app_inj_tail in Hp as [-> _]. apply (told_agreed _ _ _ _ _ Ht). exists h1. split; [by eexists|done].
Qed.

Lemma told_claimed b m ros h t e : e ∈ h -> claim_of e = Some m -> adv_told b (Some m) ros h t -> adv_told b None ros h t.
Proof.
  intros He Hc [H1 H2 H3 H4 H5 H6]. split; try done. intros e0 m0 to k He0 Hse Hk Hn _. apply (H5 e0 m0 to k); try done.
  intros [= ->]. by apply (Hn e).
Qed.

(** A settlement that counts every turn out. *)
Lemma all_counted (P Q : MentionRow -> bool) (m : gmap (string * string) MentionRow) :
  count_rows (fun _ => true) m <= count_rows P m + count_rows (fun r => negb (P r) && Q r) m ->
  forall k r, m !! k = Some r -> P r = true \/ Q r = true.
Proof.
  unfold count_rows. intros Hle k r E. destruct (P r) eqn:EP; [by left|]. destruct (Q r) eqn:EQ; [by right|]. exfalso.
  rewrite (map_filter_id (fun _ => true = true)) in Hle by done.
  set (A := filter (fun kr : string * string * MentionRow => P kr.2 = true) m) in Hle.
  set (B := filter (fun kr : string * string * MentionRow => negb (P kr.2) && Q kr.2 = true) m) in Hle.
  assert (A ##ₘ B) as Hd.
  { apply map_disjoint_spec. intros i r1 r2 [E1 H1]%map_lookup_filter_Some [E2 H2]%map_lookup_filter_Some. cbn in *. simplify_eq. by rewrite H1 in H2. }
  assert (A ∪ B ⊆ delete k m) as Hsub.
  { apply map_subseteq_spec. intros i r1 [[E1 H1]%map_lookup_filter_Some|[E1 H1]%map_lookup_filter_Some]%lookup_union_Some; [| |done];
      cbn in H1; rewrite lookup_delete_Some; (split; [intros <-; simplify_eq|done]); [congruence|]. by rewrite EP, EQ in H1. }
  apply map_subseteq_size in Hsub. rewrite map_size_disj_union, map_size_delete_Some in Hsub by (done || by eexists).
  assert (size m <> 0%nat) by (intros H0%map_size_empty_iff; subst m; by rewrite lookup_empty in E). lia.
Qed.

Lemma settled_turns m to t d s o :
  settlement m to t = (d, s, o) -> d <= s + o -> forall a r, ledger t !! (m, a) = Some r -> turn_over to t r.
Proof.
  unfold settlement. intros [= <- <- <-] Hle a r Hr. eapply (all_counted _ _ _ Hle (m, a)). by apply map_lookup_filter_Some.
Qed.

(** ** The kinds of calls *)

Lemma served_clock X (c : Call X) t x t' : serves X c t x t' -> now t' = now t /\ settled t' = settled t.
Proof.
  intros Hx. destruct (is_quiet X c) eqn:Hq; [by destruct (served_quiet _ _ _ _ _ Hq Hx) as (_ & _ & _ & ? & ? & _)|].
  destruct (ledger_call X c) as [[m a]|] eqn:Hl; [by destruct (served_ledger _ _ _ _ _ _ _ Hl Hx) as (_ & _ & _ & ? & ? & _)|].
  assert (forall id P f, now (on_active id P f t).2 = now t /\ settled (on_active id P f t).2 = settled t) as Hact.
  { intros id P f. destruct (on_active_cases id P f t) as [->|(s & _ & _ & _ & ->)]; done. }
  assert (forall t0 id th pr tm b tp bu, opens_session id th pr tm b tp bu t0 t' -> now t' = now t0 /\ settled t' = settled t0) as Hop by (by intros ? ? ? ? ? ? ? ? (_ & _ & _ & ->)).
  destruct c; try discriminate Hq; try discriminate Hl; cbn in Hx.
  - apply exec_cases in Hx as [->| ->]; [done|apply Hact].
  - apply exec_cases in Hx as [->| ->]; [done|apply Hact].
  - apply exec_cases in Hx as [->| ->]; [done|apply Hact].
  - apply exec_cases in Hx as [->| ->]; [done|]. unfold stamp_stmt. specialize (Hact id (fun s => (Round s =? forRound) && bool_decide (CurrentRoundMessageID s = None)) (stamped_row message voices)).
    by destruct (on_active id _ _ t) as [[] w].
  - destruct x as [[[m' s]|]|].
    + destruct Hx as (id & sid & _ & _ & H%Hop & _). done.
    + by destruct Hx as [-> _].
    + destruct Hx as [->|(id & sid & _ & H%Hop)]; done.
  - destruct x as [[]|].
    + destruct Hx as (id & tm & m & _ & _ & _ & H%Hop). done.
    + by subst.
    + destruct Hx as [->|(id & tm & H%Hop)]; done.
  - destruct x as [[m' n]|]; [destruct Hx as (id & _ & _ & ->); done|]. destruct Hx as [->|(id & _ & ->)]; done.
Qed.

Lemma quiet_meanwhile b c ros t t' : sound ros t -> quiet t t' -> meanwhile b c ros t ros t'.
Proof.
  intros Hs Hq. destruct (quiet_moves _ _ _ Hs Hq) as [_ Hm]. destruct Hq as (E1 & E2 & E3 & E4 & E5 & _). split; [done|..]; rewrite ?E1, ?E2, ?E3.
  - intros id cur E _. by exists cur.
  - intros k m a _ _ r Hr. exists r. split; [done|]. intros to. apply turn_over_later; [lia|by rewrite E4].
  - intros k m H. by left.
Qed.

Lemma ledger_meanwhile b ros t t' m a : sound ros t -> ledger_moved m a t t' -> moves ros t ros t' -> meanwhile b (Some m) ros t ros t'.
Proof.
  intros Hs (E1 & E2 & E3 & E4 & E5 & Hl) Hm. split; [done|..]; rewrite ?E1, ?E2.
  - intros id cur E _. by exists cur.
  - intros k m' a' _ Hne r Hr. rewrite Hl in Hr by (intros [= -> ->]; done). exists r. split; [done|]. intros to. apply turn_over_later; [lia|by rewrite E4].
  - intros k m' H. by left.
Qed.

(** An update of a session's row; [b] where the round moves. *)
Lemma update_meanwhile b c ros t id P f :
  sound ros t -> moves ros t ros (on_active id P f t).2 -> (b = Some id \/ forall s, Round (f s) = Round s) ->
  meanwhile b c ros t ros (on_active id P f t).2.
Proof.
  intros Hs Hm Hr. destruct (on_active_cases id P f t) as [E|(s & E & _ & _ & E')]; [rewrite E in *; by apply quiet_meanwhile, quiet_refl|].
  rewrite E' in *. split; [done|..].
  - intros id0 cur E0 Hb. cbn. destruct (decide (id0 = id)) as [->|]; [|exists cur; by rewrite lookup_insert_ne].
    rewrite lookup_insert_eq. exists (f s). simplify_eq. split; [done|]. by destruct Hr as [?|Hr]; [|apply Hr].
  - intros k m a _ _ r Hk. exists r. split; [done|]. intros to. by apply turn_over_later.
  - intros k m H. by left.
Qed.

(** ** The rows a pass begins with *)

Lemma NoDup_omap_by {A B C} (g : A -> B) (f : A -> option C) l :
  NoDup (g <$> l) -> (forall a b m, a ∈ l -> b ∈ l -> f a = Some m -> f b = Some m -> g a = g b) -> NoDup (omap f l).
Proof.
  induction l as [|a l IH]; cbn; [intros; constructor|]. intros [Hn Hd]%NoDup_cons Hf.
  assert (NoDup (omap f l)) as IH' by (apply IH; [done|]; intros; eapply Hf; eauto; by right).
  destruct (f a) as [m|] eqn:E; [|done]. apply NoDup_cons. split; [|done]. intros (b & Hb & Eb)%list_elem_of_omap.
  apply Hn. apply list_elem_of_fmap. exists b. split; [|done]. eapply Hf; eauto; [by left|by right].
Qed.

Lemma active_row ros t s : sound ros t -> s ∈ active_rows t -> sessions t !! ps_ID s = Some s /\ IsActive s = true.
Proof.
  intros Hs. unfold active_rows. rewrite list_elem_of_filter, list_elem_of_fmap. intros (Ha & [id s'] & -> & E%elem_of_map_to_list).
  cbn in *. by destruct (sound_rows _ _ Hs _ _ E) as (-> & _).
Qed.

Lemma active_ids ros t : sound ros t -> NoDup (ps_ID <$> active_rows t).
Proof.
  intros Hs. unfold active_rows. eapply sublist_NoDup; [|apply fmap_sublist, sublist_filter].
  replace (ps_ID <$> (map_to_list (sessions t)).*2) with ((map_to_list (sessions t)).*1); [apply NoDup_fst_map_to_list|].
  rewrite <- list_fmap_compose. apply list_fmap_ext. intros i [id s] E%list_elem_of_lookup_2. apply elem_of_map_to_list in E. cbn.
  by destruct (sound_rows _ _ Hs _ _ E) as (-> & _).
Qed.

Lemma pass_begins ros t l : sound ros t -> l ≡ₚ active_rows t -> NoDup (ps_ID <$> l) /\ NoDup (omap CurrentRoundMessageID l).
Proof.
  intros Hs Hl. assert (NoDup (ps_ID <$> l)) as Hn by (rewrite Hl; by apply (active_ids ros)). split; [done|].
  apply (NoDup_omap_by ps_ID); [done|]. intros a b m Ha Hb Ea Eb. rewrite Hl in Ha, Hb.
  destruct (active_row _ _ _ Hs Ha) as [Ea' _]. destruct (active_row _ _ _ Hs Hb) as [Eb' _].
  destruct (sound_rows _ _ Hs _ _ Ea') as (_ & _ & _ & Ma & _). destruct (sound_rows _ _ Hs _ _ Eb') as (_ & _ & _ & Mb & _).
  rewrite Ea in Ma. rewrite Eb in Mb. destruct Ma as [Ma _], Mb as [Mb _]. by injection (sound_once _ _ Hs _ _ _ Ma Mb).
Qed.

Section adv_call.
Context (ros : rosters) (t : Tables) (h : list (Event Call)).
Context (Hs : sound ros t) (Ht : adv_told None None ros h t).

Definition adv_done {X} (c : Call X) (x : X) (t' : Tables) : Prop :=
  sound ros t' /\ moves ros t ros t' /\ leaves None t t' /\ adv_told None None ros (h ++ [Ev c x]) t' /\ adv_answers X c x.

Lemma adv_quiet X (c : Call X) x t' : is_quiet X c = true -> serves X c t x t' -> adv_done c x t'.
Proof.
  intros Hq Hx. pose proof (served_quiet _ _ _ _ _ Hq Hx) as Hqt. destruct (quiet_moves _ _ _ Hs Hqt) as [Hs' Hm].
  assert (forall id s, sessions t !! id = Some s -> sessions t' !! ps_ID s = Some s /\ seen ros t' s) as Hrow.
  { intros id s E. destruct Hqt as (E1 & _). destruct (sound_rows _ _ Hs _ _ E) as (Hid & _). rewrite E1, Hid. split; [done|].
    eapply seen_now; [done|]. by rewrite E1. }
  split; [done|]. split; [done|]. split; [by apply quiet_leaves|]. split.
  - apply told_call.
    + apply told_meanwhile with (ros := ros) (t := t); [done| |done]. by apply quiet_meanwhile.
    + intros s Hin. destruct c; cbn in Hin; try by apply not_elem_of_nil in Hin.
      * destruct x as [l|]; [|by apply not_elem_of_nil in Hin]. destruct Hx as (_ & Hl & _). cbn in Hin. rewrite Hl in Hin.
        apply (active_row _ _ _ Hs) in Hin as [E _]. by eapply Hrow.
      * destruct x as [[s0|]|]; try by apply not_elem_of_nil in Hin. apply list_elem_of_singleton in Hin as ->.
        destruct Hx as [_ E]. by eapply Hrow.
    + intros id n. destruct c; try discriminate Hq; discriminate.
    + intros id s. destruct c; try discriminate Hq; discriminate.
    + intros m to Hse. destruct c; try discriminate. cbn in Hse, Hx. destruct x as [[[d se] o]|]; [|done]. case_match eqn:El; [|done].
      apply Z.leb_le in El. injection Hse as <- <-. destruct Hx as [-> Hx]. symmetry in Hx. by eapply settled_turns.
  - destruct c; try done; cbn.
    + destruct x as [l|]; [|done]. destruct Hx as (_ & Hl & _). by apply (pass_begins ros t).
    + destruct x as [[s|]|]; try done. destruct Hx as [_ E]. symmetry in E. by destruct (sound_rows _ _ Hs _ _ E) as (? & _).
    + destruct x as [[[d se] o]|]; [|done]. destruct Hx as [_ [= -> _ _]]. apply Nat2Z.is_nonneg.
Qed.

(** A message that a row names is a round's, and its voices are the roster. *)
Lemma snapped_round s m : snapped h s -> CurrentRoundMessageID s = Some m ->
  rounds t !! (ps_ID s, Round s) = Some m /\ ros !! (ps_ID s, Round s) = Some (RoundVoices s).
Proof. intros Hn Em. destruct (told_seen _ _ _ _ _ Ht _ Hn) as (cur & _ & _ & _ & _ & Hm & _). by apply Hm. Qed.

Lemma adv_ledger X (c : Call X) m a x t' :
  ledger_call X c = Some (m, a) -> adv_may h X c -> serves X c t x t' -> adv_done c x t'.
Proof.
  intros Hl Hm Hx. pose proof (served_ledger _ _ _ _ _ _ _ Hl Hx) as Hlm.
  assert (exists s, snapped h s /\ CurrentRoundMessageID s = Some m /\
    (claim_of (Ev c x) = Some m /\ Round s <> 0 /\ a ∈ RoundVoices s \/ claim_of (Ev c x) = None /\ exists e, e ∈ h /\ claim_of e = Some m)) as (s & Hsn & Em & Hwhy).
  { destruct c; try discriminate Hl; injection Hl as <- <-; cbn in Hm.
    - destruct Hm as [Hm|(s & ? & ? & ? & ? & _)]; [by destruct (told_agreed _ _ _ _ _ Ht)|]. exists s. split_and!; [done..|]. left. done.
    - destruct Hm as [(s & ? & ?) ?]. exists s. split_and!; [done..|]. by right.
    - destruct Hm as [(s & ? & ?) ?]. exists s. split_and!; [done..|]. by right. }
  destruct (snapped_round _ _ Hsn Em) as [Hk Hr].
  destruct (ledger_sound ros t t' m a Hs Hlm) as [Hs' Hmv].
  { intros Ha. destruct Hwhy as [(_ & H1 & Hv)|[Hc _]]; [right|left; by eapply served_ledger_old].
    split; [by eapply sound_known_round|]. intros id r Hk'. injection (sound_once _ _ Hs _ _ _ Hk Hk') as <- <-. unfold turns. rewrite Hr. split; [|done].
    destruct (told_seen _ _ _ _ _ Ht _ Hsn) as (cur & _ & _ & Hrr & _). lia. }
  split; [done|]. split; [done|]. split.
  { intros m' _ Hno. destruct Hlm as (_ & E2 & _ & _ & _ & Hl'). rewrite E2. split; [done|]. intros a'. apply Hl'. intros [= -> _]. by eapply Hno. }
  split; [|destruct c; try discriminate Hl; done].
  apply told_call; try (destruct c; try discriminate Hl; cbn; try done; by intros ? ?%not_elem_of_nil).
  assert (adv_told None (Some m) ros h t') as Ht'.
  { apply told_meanwhile with (ros := ros) (t := t); [done| |done]. by eapply ledger_meanwhile. }
  replace (next_of (Ev c x)) with (@None string) by (by destruct c; try discriminate Hl).
  destruct Hwhy as [(-> & _)|[-> (e & He & Hc)]]; [done|]. by eapply told_claimed.
Qed.

Lemma exec_meanwhile b o id P f x t' :
  exec (on_active id P f t) t x t' -> moves ros t ros t' -> (b = Some id \/ forall s, Round (f s) = Round s) -> meanwhile b o ros t ros t'.
Proof. intros [->| ->]%exec_cases Hm Hr; [by apply quiet_meanwhile, quiet_refl|by apply update_meanwhile]. Qed.

Lemma exec_leaves id P f x t' : exec (on_active id P f t) t x t' -> leaves None t t'.
Proof.
  intros [->| ->]%exec_cases; [by apply quiet_leaves, quiet_refl|].
  destruct (on_active_cases id P f t) as [->|(s & _ & _ & _ & ->)]; intros m _ H; auto.
Qed.

(** The row a statement hit. *)
Lemma exec_hit id P f t' : exec (on_active id P f t) t (Some true) t' ->
  exists s, sessions t !! id = Some s /\ IsActive s = true /\ P s = true /\ sessions t' !! id = Some (f s).
Proof.
  intros [[Hx ->]|[Hx _]]; [|done]. destruct (on_active_cases id P f t) as [E|(s & E & Ha & Hp & E')]; [rewrite E in Hx; discriminate Hx|].
  exists s. rewrite E'. cbn. by rewrite lookup_insert_eq.
Qed.

(** An update of a row: what there is left to show. *)
Lemma adv_update X (c : Call X) x t' id P f r :
  exec (on_active id P f t) t r t' -> sound ros t' /\ moves ros t ros t' ->
  (next_of (Ev c x) = Some id \/ forall s, Round (f s) = Round s) ->
  claim_of (Ev c x) = None -> snap_of (Ev c x) = [] -> settle_of (Ev c x) = None -> adv_answers X c x ->
  (forall id n, charge_of (Ev c x) = Some (id, n) -> exists cur, sessions t' !! id = Some cur /\ Round cur + spent ros id (Round cur - 1) + n <= PaidRunsUsed cur) ->
  (forall id s, next_hit (Ev c x) = Some (id, 0) -> snapped h s -> ps_ID s = id -> Round s = 0) ->
  adv_done c x t'.
Proof.
  intros Hx [Hs' Hm] Hr Hc Hsn Hse Ha Hch Hnh. split; [done|]. split; [done|]. split; [by eapply exec_leaves|]. split; [|done].
  apply told_call; [|rewrite Hsn; by intros ? ?%not_elem_of_nil|done|done|by rewrite Hse].
  apply told_meanwhile with (ros := ros) (t := t); [done| |done]. by eapply exec_meanwhile.
Qed.

Lemma adv_charge id n x t' : 0 <= n -> serves _ (ChargeRuns id n) t x t' -> adv_done (ChargeRuns id n) x t'.
Proof.
  intros Hn Hx. pose proof (charge_sound _ _ _ _ _ _ Hs Hn Hx). eapply adv_update; try done; [by right|].
  intros id0 n0 Hc. cbn in Hc. destruct x as [[]|]; try discriminate Hc. injection Hc as -> ->.
  destruct (exec_hit _ _ _ _ Hx) as (s & E & _ & _ & E'). exists (charged_row (now t) n0 s). split; [done|]. cbn.
  destruct (sound_rows _ _ Hs _ _ E) as (_ & _ & _ & _ & Hu & _). lia.
Qed.

Lemma adv_end id phase x t' : phase <> PartyPhaseActive -> serves _ (EndSession id phase) t x t' -> adv_done (EndSession id phase) x t'.
Proof. intros Hp Hx. pose proof (end_sound _ _ _ _ _ _ Hs Hp Hx). eapply adv_update; try done. by right. Qed.

(** The roster of the round that ends has been charged. *)
Lemma paid_for id s s2 cur :
  not_begun h id -> snapped h s -> snapped h s2 -> ps_ID s = id -> ps_ID s2 = id -> CurrentRoundMessageID s <> None -> paid h s s2 ->
  1 <= Round cur -> sessions t !! id = Some cur -> Round cur + spent ros id (Round cur) <= PaidRunsUsed cur.
Proof.
  intros Hb H1 H2 I1 I2 Hm Hp Hr E. destruct (CurrentRoundMessageID s) as [m|] eqn:Em; [|done].
  destruct (snapped_round _ _ H1 Em) as [_ Hros]. rewrite <- I1 in Hb.
  destruct (told_round _ _ _ _ _ Ht _ H1 Hb) as (c & Ec & Rc); [done|]. rewrite I1 in Ec, Hros, Hb. simplify_eq.
  replace (Round cur) with (Round cur - 1 + 1) at 2 by lia. rewrite spent_next by lia. unfold turns.
  replace (Round cur - 1 + 1) with (Round cur) by lia. rewrite Rc, Hros in *. cbn.
  destruct Hp as [[-> Hv]|(e & n & He & Hc & Hn)].
  - rewrite Hv. cbn. destruct (sound_rows _ _ Hs _ _ E) as (_ & _ & _ & _ & Hu & _). rewrite Rc in Hu. lia.
  - destruct (told_charge _ _ _ _ _ Ht _ _ _ He Hc Hb) as (c & Ec' & Hle); [done|]. simplify_eq. rewrite Rc in Hle. lia.
Qed.

Lemma adv_next id from x t' : adv_may h _ (NextRound id from) -> serves _ (NextRound id from) t x t' -> adv_done (NextRound id from) x t'.
Proof.
  intros [Hb Hwhy] Hx.
  assert (sound ros t' /\ moves ros t ros t') as Hm.
  { apply (next_sound ros t id from x t' Hs Hx). intros cur E Ha <-. destruct (sound_rows _ _ Hs _ _ E) as (_ & Hbud & Hr & _ & Hu & Hp).
    destruct Hwhy as [E0|(s & s2 & H1 & H2 & I1 & I2 & R2 & Hlt & Hus & M1 & M2 & Hpaid)].
    - rewrite E0 in *. rewrite !spent_0 in * by lia. unfold budget_ok, int4_positive in Hbud.
      repeat match goal with H : _ && _ = true |- _ => apply andb_true_iff in H as [? ?] end. lia.
    - destruct (told_seen _ _ _ _ _ Ht _ H2) as (c & Ec & Hbu & Hrr & _ & _ & Hact). rewrite I2 in Ec. simplify_eq. rewrite Hbu.
      destruct (Z.eq_dec (Round cur) 0) as [E0|].
      + rewrite E0 in *. rewrite !spent_0 in * by lia. unfold budget_ok, int4_positive in Hbud. rewrite Hbu in Hbud.
        repeat match goal with H : _ && _ = true |- _ => apply andb_true_iff in H as [? ?] end. lia.
      + assert (Round cur + spent ros (ps_ID s) (Round cur) <= PaidRunsUsed cur) by (eapply (paid_for _ s s2); try done; lia).
        specialize (Hact ltac:(lia) Hus Ha). lia. }
  eapply adv_update; try done; [by left|]. intros id0 s Hc Hsn Hid. cbn in Hc. destruct x as [[]|]; try discriminate Hc. injection Hc as -> ->.
  destruct (exec_hit _ _ _ _ Hx) as (cur & E & _ & Hr%Z.eqb_eq & _).
  destruct (told_seen _ _ _ _ _ Ht _ Hsn) as (c & Ec & _ & Hrr & _). rewrite Hid in Ec. simplify_eq. lia.
Qed.

Lemma adv_call X (c : Call X) x t' : adv_may h X c -> serves X c t x t' -> adv_done c x t'.
Proof.
  intros Hm Hx. destruct (is_quiet X c) eqn:Hq; [by apply adv_quiet|].
  destruct (ledger_call X c) as [[m a]|] eqn:Hl; [by eapply adv_ledger|].
  destruct c; try discriminate Hq; try discriminate Hl; try (by destruct Hm);
    [by apply adv_charge|by apply adv_next|by apply adv_end].
Qed.
End adv_call.

(** * A pass does only what it may *)

Lemma snapped_more h e s : snapped h s -> snapped (h ++ [e]) s.
Proof. intros H. apply snapped_app. by left. Qed.
Lemma disagreed_more h e : disagreed h -> disagreed (h ++ [e]).
Proof. intros (h1 & Hp & Hm). exists h1. split; [by apply prefix_app_r|done]. Qed.
Lemma in_more (h : list (Event Call)) e e0 : e0 ∈ h -> e0 ∈ h ++ [e].
Proof. intros H. apply elem_of_app. by left. Qed.
Lemma in_last (h : list (Event Call)) e : e ∈ h ++ [e].
Proof. apply elem_of_app. right. by apply list_elem_of_singleton. Qed.

(** The messages claimed since [h] are [m]'s. *)
Definition claims_only (m : option string) (h h' : list (Event Call)) : Prop :=
  forall m', Some m' <> m -> not_claimed h m' -> not_claimed h' m'.

Lemma claims_only_refl m h : claims_only m h h.
Proof. by intros m'. Qed.
Lemma claims_only_more m h h' e : claims_only m h h' -> claim_of e = None \/ claim_of e = m -> claims_only m h (h' ++ [e]).
Proof. intros H He m' Hne Hn. apply not_claimed_app. split; [auto|]. destruct He as [->| ->]; [done|]. congruence. Qed.

Ltac claims_step := repeat (apply claims_only_more; [|by (left + right)]); first [assumption|apply claims_only_refl].

(** What the dispatch of a turn needs. *)
Definition turn_ok (h : list (Event Call)) (d : MentionDispatch) : Prop :=
  (exists s, snapped h s /\ CurrentRoundMessageID s = Some (d_MessageID d)) /\ adv_may h _ (Claim d).

Lemma turn_ok_more h d e : claim_of e = None -> turn_ok h d -> turn_ok (h ++ [e]) d.
Proof.
  intros Hc [(s & Hs & Em) Hm]. split; [exists s; split; [by apply snapped_more|done]|].
  destruct Hm as [Hm|(s0 & H1 & H2 & H3 & H4 & H5 & e0 & H6 & H7)]; [left; by apply disagreed_more|right].
  exists s0. split_and!; try done; [by apply snapped_more|apply not_claimed_app; split; [done|by rewrite Hc]|].
  exists e0. split; [by apply in_more|done].
Qed.

Lemma mint_adv h h0 d :
  (exists s, snapped h s /\ CurrentRoundMessageID s = Some (d_MessageID d)) -> (exists e, e ∈ h /\ claim_of e = Some (d_MessageID d)) ->
  claims_only (Some (d_MessageID d)) h0 h ->
  obeys adv_may adv_answers (fun h' b => claims_only (Some (d_MessageID d)) h0 h' /\
     (exists s, snapped h' s /\ CurrentRoundMessageID s = Some (d_MessageID d)) /\ (exists e, e ∈ h' /\ claim_of e = Some (d_MessageID d))) h (mint true d).
Proof.
  intros (s & Hs & Em) (e0 & He & Hc) Hk. assert (forall h', (exists t, h' = h ++ t) ->
    (exists s, snapped h' s /\ CurrentRoundMessageID s = Some (d_MessageID d)) /\ (exists e, e ∈ h' /\ claim_of e = Some (d_MessageID d))) as Hkeep.
  { intros h' [t ->]. split; [|exists e0; split; [apply elem_of_app; by left|done]].
    exists s. split; [|done]. destruct Hs as (e1 & He1 & Hin). exists e1. split; [apply elem_of_app; by left|done]. }
  unfold mint, resolve_refs. cbn [negb pbind call obeys]. split; [exact I|]. intros [[uid tm]|] _; cbn.
  2: { split; [claims_step|]. apply Hkeep. by eexists. }
  split; [exact I|]. intros [item|] _; cbn; [|split; [claims_step|]; apply Hkeep; rewrite <- app_assoc; by eexists].
  split; [exact I|]. intros [] _; cbn; [|split; [claims_step|]; apply Hkeep; rewrite <- !app_assoc; by eexists].
  split; [apply Hkeep; rewrite <- !app_assoc; by eexists|].
  intros [] _; cbn; [|split; [claims_step|]; apply Hkeep; rewrite <- !app_assoc; by eexists].
  split; [exact I|]. intros b _. split; [claims_step|]. apply Hkeep. rewrite <- !app_assoc. by eexists.
Qed.

Lemma dispatch_adv h h0 maxInFlight st d :
  turn_ok h d -> claims_only (Some (d_MessageID d)) h0 h ->
  obeys adv_may adv_answers (fun h' _ => claims_only (Some (d_MessageID d)) h0 h') h (DispatchMention maxInFlight st true d).
Proof.
  intros Hd Hk. assert (forall h, turn_ok h d -> claims_only (Some (d_MessageID d)) h0 h ->
    obeys adv_may adv_answers (fun h' _ => claims_only (Some (d_MessageID d)) h0 h') h (claim_and_mint true d)) as Hclaim.
  { clear h Hd Hk. intros h [(s & Hs & Em) Hm] Hk. unfold claim_and_mint. cbn [pbind call obeys]. split; [done|].
    intros [[]|] _; [|cbn; claims_step..]. apply obeys_bind.
    eapply obeys_weaken; [apply (mint_adv _ h0)|].
    - exists s. split; [by apply snapped_more|done].
    - eexists. split; [apply in_last|done].
    - claims_step.
    - intros h' [] _ (Hk' & Hr); [done|]. cbn. split; [done|]. intros ? ?. claims_step. }
  unfold DispatchMention. case_bool_decide; [done|]. destruct ((0 <? maxInFlight) && _); [|by apply Hclaim]. cbn. split; [exact I|].
  intros [n|] _; cbn; [|claims_step]. destruct (maxInFlight <=? n); [cbn; claims_step|]. apply Hclaim; [by apply turn_ok_more|claims_step].
Qed.

Context (Principal : string).

Lemma create_adv h h0 m i :
  (match in_Body i with TakeawaysDirective _ _ => exists h1 e h2 id s, h = h1 ++ e :: h2 /\ next_hit e = Some (id, 0) /\ snapped h1 s /\ ps_ID s = id /\ Round s <> 0 | _ => True end) ->
  claims_only m h0 h ->
  obeys adv_may adv_answers (fun h' _ => claims_only m h0 h') h (create_item i).
Proof.
  intros Hb Hk. unfold create_item, resolve_refs. cbn. split; [exact I|]. intros [[uid tm]|] _; cbn; [|claims_step]. split.
  - destruct (in_Body i); [done..|]. destruct Hb as (h1 & e & h2 & id & s & -> & Hn & Hs & Hid & Hr).
    eexists h1, e, _, id, s. split; [by rewrite <- app_assoc|done].
  - intros [item|] _; cbn; [|claims_step]. split; [exact I|]. intros b _. claims_step.
Qed.

Lemma close_adv h h0 m sess reason : claims_only m h0 h -> obeys adv_may adv_answers (fun h' _ => claims_only m h0 h') h (close sess reason).
Proof.
  intros Hk. unfold close, CloseSession. case_bool_decide as Hp; cbn; [|done]. split.
  - intros ->. repeat (apply elem_of_cons in Hp as [Hp|Hp]; [discriminate Hp|]). by apply not_elem_of_nil in Hp.
  - intros [[]|] _; cbn; [|claims_step..]. split; [exact I|]. intros r _. cbn. claims_step.
Qed.

#[local] Arguments create_item : simpl never.
#[local] Arguments close : simpl never.

Lemma mintRound_adv h h0 m sess r :
  adv_may h _ (NextRound (ps_ID sess) r) -> claims_only m h0 h ->
  obeys adv_may adv_answers (fun h' _ => claims_only m h0 h') h (mintRound Principal sess r).
Proof.
  intros Hm Hk. unfold mintRound, MintRound. cbn. split; [done|]. intros [[]|] _; cbn; [|claims_step..].
  split; [exact I|]. intros updated _. destruct updated as [[u|]|]; cbn [pbind]; [|cbn; claims_step..].
  cbn [pbind call obeys]. split; [exact I|]. intros [[co|]|] _; [|cbn; claims_step..].
  apply obeys_bind. eapply obeys_weaken; [apply (create_adv _ h0 m); [done|claims_step]|]. intros h' [item|] ? Hk'; cbn; [|done].
  split; [exact I|]. intros b _. claims_step.
Qed.

Lemma mintTakeaways_adv h h0 m sess reason s0 :
  adv_may h _ (NextRound (ps_ID sess) 0) -> snapped h s0 -> ps_ID s0 = ps_ID sess -> Round s0 <> 0 -> claims_only m h0 h ->
  obeys adv_may adv_answers (fun h' _ => claims_only m h0 h') h (mintTakeaways Principal sess 0 reason).
Proof.
  intros Hm Hs Hid Hr Hk. unfold mintTakeaways, MintRound. cbn. split; [done|]. intros [[]|] _; cbn; [|claims_step..].
  split; [exact I|]. intros updated _. destruct updated as [[u|]|]; cbn [pbind]; [|cbn; claims_step..].
  cbn [pbind call obeys]. split; [exact I|]. intros [[co|]|] _; [|apply close_adv; claims_step..].
  apply obeys_bind. eapply obeys_weaken; [apply (create_adv _ h0 m); [|claims_step]|].
  - cbn. exists h, (Ev (NextRound (ps_ID sess) 0) (Some true)). rewrite <- !app_assoc. eexists _, (ps_ID sess), s0. done.
  - intros h' [item|] ? Hk'; [|by apply close_adv]. cbn [pbind call obeys request]. split; [exact I|]. intros b _. apply close_adv. claims_step.
Qed.

(** The plans, and why they are made. *)
Lemma plan_why s settle t postTO :
  match PlanPartyTick s settle t postTO with
  | PartyTickWait => True
  | PartyTickClose reason => True
  | PartyTickMintRound r =>
      r = 0 \/ CurrentRoundMessageID s <> None /\ r = Round s /\ r < MaxRounds (Budget s) /\ PaidRunsUsed s < PaidRunBudget (Budget s) /\
               Z.of_nat (length (RoundVoices s)) <= Dispatched settle /\ Complete settle = true
  | PartyTickDispatchVoice i =>
      CurrentRoundMessageID s <> None /\ Round s <> 0 /\ i = Dispatched settle /\ i < Z.of_nat (length (RoundVoices s)) /\ i <= Settled settle + TimedOut settle
  | PartyTickTakeaways r _ => r = 0 /\ Round s <> 0
  end.
Proof.
  unfold PlanPartyTick. destruct (IsActive s) eqn:Ha; [|done]. cbn [negb]. destruct (Z.eqb_spec (Round s) 0); [by left|].
  destruct (CurrentRoundMessageID s) as [m|]; [|by repeat case_match].
  destruct (Z.ltb_spec (Dispatched settle) (Z.of_nat (length (RoundVoices s)))).
  { destruct (Z.leb_spec (Dispatched settle) (Settled settle + TimedOut settle)); [|done]. done. }
  destruct (Complete settle) eqn:Hc; [|done]. cbn [negb]. unfold DecideAdvance. cbn [negb]. rewrite Ha. cbn [negb].
  destruct (CanStartRound s) as [gate|] eqn:Eg.
  - destruct (RemainingPaidRuns s <? 1); [done|]. done.
  - unfold CanStartRound in Eg. rewrite Ha in Eg. cbn [negb] in Eg. unfold RemainingPaidRuns in *.
    destruct (AllSilent settle); [by destruct (_ <? 1)|]. right. split; [done|]. split; [done|].
    destruct (Z.leb_spec (PaidRunBudget (Budget s)) (PaidRunsUsed s)); [discriminate Eg|].
    destruct (Z.ltb_spec (PaidRunBudget (Budget s) - PaidRunsUsed s) 1); [discriminate Eg|].
    destruct (Z.leb_spec (MaxRounds (Budget s)) (Round s)); [discriminate Eg|]. split_and!; try done; lia.
Qed.

(** Deciding on [s2], a reading of the session no older than [sess]. *)
Record ready (h : list (Event Call)) (sess s2 : PartySession) (settle : RoundSettlement) : Prop := {
  ready_sess : snapped h sess;
  ready_s2 : snapped h s2;
  ready_id : ps_ID s2 = ps_ID sess;
  ready_new : not_begun h (ps_ID sess);
  ready_turn : CurrentRoundMessageID s2 <> None -> Dispatched settle < Z.of_nat (length (RoundVoices s2)) -> Dispatched settle <= Settled settle + TimedOut settle ->
    disagreed h \/ s2 = sess /\ exists m, CurrentRoundMessageID sess = Some m /\ not_claimed h m /\ exists e, e ∈ h /\ settle_of e = Some (m, turn_timeout);
  ready_mint : CurrentRoundMessageID s2 <> None -> Z.of_nat (length (RoundVoices s2)) <= Dispatched settle -> Complete settle = true ->
    CurrentRoundMessageID sess <> None /\ paid h sess s2 }.

Definition after (sess : PartySession) (h0 h : list (Event Call)) : Prop := disagreed h \/ claims_only (CurrentRoundMessageID sess) h0 h.

Lemma ready_may_mint h sess s2 settle r :
  ready h sess s2 settle ->
  (r = 0 \/ CurrentRoundMessageID s2 <> None /\ r = Round s2 /\ r < MaxRounds (Budget s2) /\ PaidRunsUsed s2 < PaidRunBudget (Budget s2) /\
            Z.of_nat (length (RoundVoices s2)) <= Dispatched settle /\ Complete settle = true) ->
  adv_may h _ (NextRound (ps_ID s2) r).
Proof.
  intros Hr Hw. split; [rewrite (ready_id _ _ _ _ Hr); apply Hr|]. destruct Hw as [->|(H1 & H2 & H3 & H4 & H5 & H6)]; [by left|right].
  destruct (ready_mint _ _ _ _ Hr H1 H5 H6) as [Hm Hp]. exists sess, s2. rewrite (ready_id _ _ _ _ Hr).
  split_and!; try done; apply Hr.
Qed.

Lemma execute_adv h sess s2 settle t postTO maxInFlight st :
  ready h sess s2 settle ->
  obeys adv_may adv_answers (fun h' _ => after sess h h') h (execute Principal true maxInFlight st s2 (PlanPartyTick s2 settle t postTO)).
Proof.
  intros Hr. pose proof (plan_why s2 settle t postTO) as Hwhy. destruct (PlanPartyTick s2 settle t postTO) as [|r|i|r reason|reason]; cbn [execute].
  - right. apply claims_only_refl.
  - eapply obeys_weaken; [apply (mintRound_adv h h (CurrentRoundMessageID sess)); [by eapply ready_may_mint|apply claims_only_refl]|].
    intros h' [] ? Hk. by right.
  - destruct Hwhy as (Hm & Hz & -> & Hlt & Hle). unfold dispatchVoice. cbn [negb]. destruct (CurrentRoundMessageID s2) as [m|] eqn:Em; [|done].
    destruct (Dispatched settle <? 0); [right; apply claims_only_refl|].
    destruct (RoundVoices s2 !! Z.to_nat (Dispatched settle)) as [voice|] eqn:Ev; [|right; apply claims_only_refl].
    cbn [pbind call obeys]. split; [exact I|]. intros thread _. apply obeys_bind.
    eapply obeys_weaken; [apply (dispatch_adv _ h)|].
    + apply turn_ok_more; [done|]. split; [exists s2; split; [apply Hr|done]|].
      destruct (ready_turn _ _ _ _ Hr) as [Hd|(-> & m' & Em' & Hnc & e & He & Hse)]; [by rewrite Em|done|done|by left|].
      right. exists sess. rewrite Em in Em'. injection Em' as <-. split_and!; try done; [apply Hr|by eapply list_elem_of_lookup_2|by exists e].
    + claims_step.
    + intros h' b Hp Hk. cbn. destruct (ready_turn _ _ _ _ Hr) as [Hd|(-> & m' & Em' & _)]; [by rewrite Em|done|done|left|right].
      * destruct Hd as (h1 & Hp1 & Hmm). exists h1. split; [|done]. etrans; [exact Hp1|]. etrans; [by apply prefix_app_r|exact Hp].
      * rewrite Em. exact Hk.
  - destruct Hwhy as [-> Hz]. eapply obeys_weaken; [apply (mintTakeaways_adv h h (CurrentRoundMessageID sess) s2 reason s2)|].
    + eapply ready_may_mint; [done|by left].
    + apply Hr.
    + done.
    + done.
    + apply claims_only_refl.
    + intros h' [] ? Hk. by right.
  - eapply obeys_weaken; [apply (close_adv h h (CurrentRoundMessageID sess)); apply claims_only_refl|]. intros h' [] ? Hk. by right.
Qed.

Lemma not_begun_more h e id : next_of e = None -> not_begun h id -> not_begun (h ++ [e]) id.
Proof. intros He H. apply not_begun_app. by rewrite He. Qed.

(** The reading before the decision. *)
Lemma read_adv h sess settleTO seqSettleTO :
  turn_timeout = Z.max 0 (effectivePartySettleTimeout true settleTO seqSettleTO) ->
  snapped h sess -> not_begun h (ps_ID sess) -> (disagreed h \/ forall m, CurrentRoundMessageID sess = Some m -> not_claimed h m) ->
  obeys adv_may adv_answers (fun h' r => claims_only None h h' /\ match r with Some (s2, settle) => ready h' sess s2 settle | None => True end) h
    (read_and_charge settleTO seqSettleTO sess).
Proof.
  intros Hto Hs Hb Hc. unfold read_and_charge. destruct (CurrentRoundMessageID sess) as [m|] eqn:Em.
  2: { split; [apply claims_only_refl|]. split; rewrite ?Em; try done. }
  cbn [pbind call obeys RoundVoiceSettlement]. split; [exact I|]. intros [[[d se] o]|] Hd0; cbn [pbind]; [|by split; [claims_step|]]. cbn in Hd0.
  set (e1 := Ev (SettlementOf m _) _). set (settle := {| Dispatched := d; Settled := se; TimedOut := o |}).
  destruct (Complete settle && (0 <? Dispatched settle) && (Z.of_nat (length (RoundVoices sess)) <=? Dispatched settle)) eqn:Ecase.
  - apply andb_true_iff in Ecase as [[Hcomp Hpos%Z.ltb_lt]%andb_true_iff Hfull%Z.leb_le]. cbn in Hpos, Hfull. unfold RecordPaidRuns.
    destruct (Z.ltb_spec (Dispatched settle) 0) as [|_]; [cbn in *; lia|]. cbn [pbind call obeys]. split; [cbn; lia|].
    intros [[]|] _; cbn [pbind update_then_get obeys]; [|by split; [claims_step|]..].
    split; [exact I|]. intros [[s2|]|] Hid; cbn [pbind obeys]; [|by split; [claims_step|]..]. cbn in Hid.
    split; [claims_step|]. set (e2 := Ev (ChargeRuns _ _) _). set (e3 := Ev (GetSession _) _).
    assert (snapped (((h ++ [e1]) ++ [e2]) ++ [e3]) sess) as Hs' by (by repeat apply snapped_more).
    assert (snapped (((h ++ [e1]) ++ [e2]) ++ [e3]) s2) as Hs2 by (apply snapped_app; right; by apply list_elem_of_singleton).
    assert (not_begun (((h ++ [e1]) ++ [e2]) ++ [e3]) (ps_ID sess)) as Hb' by (by repeat (apply not_begun_more; [done|])).
    split; try done.
    + intros Hm2 Hlt _. left. eexists. split; [done|]. exists sess, s2. rewrite Em. split_and!; try done; cbn in Hlt; lia.
    + intros Hm2 Hle _. rewrite Em. split; [done|]. right. exists e2, d. split; [apply in_more, in_last|]. done.
  - split; [claims_step|].
    assert (snapped (h ++ [e1]) sess) as Hs' by (by apply snapped_more).
    assert (not_begun (h ++ [e1]) (ps_ID sess)) as Hb' by (by apply not_begun_more).
    split; try done; cbn.
    + intros _ Hlt Hle. destruct Hc as [Hc|Hc]; [left; by apply disagreed_more|right]. split; [done|]. exists m. split; [done|].
      split; [apply not_claimed_app; split; [by apply Hc|done]|]. exists e1. split; [apply in_last|]. unfold e1, settle_of.
      destruct (Z.leb_spec d (se + o)); [|lia]. f_equal. rewrite Hto. rewrite bool_decide_eq_false_2; [done|]. intros E. rewrite E in Hlt. cbn in Hlt. lia.
    + intros _ Hle Hcomp. rewrite Em. split; [done|]. left. split; [done|]. cbn in Ecase. rewrite Hcomp in Ecase. cbn in Ecase.
      apply andb_false_iff in Ecase as [Ec%Z.ltb_ge|Ec%Z.leb_gt]; [|lia]. destruct (RoundVoices sess); [done|cbn in Hle; lia].
Qed.

Context (SettleTO SeqSettleTO PostTO maxInFlight st : Z).
Hypothesis turn_timeout_is : turn_timeout = Z.max 0 (effectivePartySettleTimeout true (or_default SettleTO DefaultPartyVoiceSettleTimeout)
                                                       (or_default SeqSettleTO DefaultPartySequentialTurnSettleTimeout)).

Lemma session_adv h sess postTO :
  snapped h sess -> not_begun h (ps_ID sess) -> (disagreed h \/ forall m, CurrentRoundMessageID sess = Some m -> not_claimed h m) ->
  obeys adv_may adv_answers (fun h' _ => after sess h h') h
    (advanceSession Principal true maxInFlight st (or_default SettleTO DefaultPartyVoiceSettleTimeout)
       (or_default SeqSettleTO DefaultPartySequentialTurnSettleTimeout) postTO sess).
Proof.
  intros Hs Hb Hc. unfold advanceSession. apply obeys_bind. eapply obeys_weaken; [by apply read_adv|].
  intros h' [[s2 settle]|] Hp [Hk Hr]; cbn.
  2: { right. intros m _. by apply Hk. }
  split; [exact I|]. intros t _. eapply obeys_weaken; [apply (execute_adv _ sess s2 settle)|].
  - destruct Hr as [H1 H2 H3 H4 H5 H6]. split; try done; [by apply snapped_more..|by apply not_begun_more| |].
    + intros Hm Hlt Hle. destruct (H5 Hm Hlt Hle) as [Hd|(-> & m & Em & Hn & e & He & Hse)]; [left; by apply disagreed_more|right].
      split; [done|]. exists m. split; [done|]. split; [by apply not_claimed_app|]. exists e. split; [by apply in_more|done].
    + intros Hm Hle Hcomp. destruct (H6 Hm Hle Hcomp) as [Hm' [?|(e & n & He & ?)]]; (split; [done|]); [by left|right].
      exists e, n. split; [by apply in_more|done].
  - intros h2 [] ? [Hd|Hk2]; [by left|right]. intros m Hne Hn. apply Hk2; [done|]. apply not_claimed_app. split; [|done].
    by apply Hk.
Qed.

(** A session's pass begins no other session's round. *)
Definition begins_only (id : string) X (c : Call X) : Prop := match c with NextRound id' _ => id' = id | _ => True end.

Ltac begins_walk := repeat (cbn; first [done | split; [first [exact I|assumption|reflexivity]|intros ? ?] | case_match]).

Lemma execute_begins h id s2 plan :
  ps_ID s2 = id ->
  obeys (fun _ X c => begins_only id X c) adv_answers (fun _ _ => True) h (execute Principal true maxInFlight st s2 plan).
Proof.
  intros Hid. destruct plan as [|r|i|r reason|reason]; cbn [execute].
  - done.
  - unfold mintRound, MintRound, update_then_get, GetPartySession, create_item, resolve_refs, request. begins_walk.
  - unfold dispatchVoice, DispatchMention, claim_and_mint, mint, resolve_refs. begins_walk.
  - unfold mintTakeaways, MintRound, create_item, resolve_refs, request, close, CloseSession, update_then_get, GetPartySession. begins_walk.
  - unfold close, CloseSession, update_then_get, GetPartySession. begins_walk.
Qed.

Lemma session_begins h sess settleTO seqSettleTO postTO :
  obeys (fun _ X c => begins_only (ps_ID sess) X c) adv_answers (fun _ _ => True) h
    (advanceSession Principal true maxInFlight st settleTO seqSettleTO postTO sess).
Proof.
  unfold advanceSession. apply obeys_bind.
  eapply (obeys_weaken _ _ (fun _ r => match r with Some (s2, _) => ps_ID s2 = ps_ID sess | None => True end)).
  - unfold read_and_charge, RoundVoiceSettlement, RecordPaidRuns, update_then_get, GetPartySession. begins_walk.
  - intros h' [[s2 settle]|] ? Hid; cbn; [|done]. split; [exact I|]. intros t _. by apply execute_begins.
Qed.

(** The sessions a pass has still to do. *)
Definition todo (h : list (Event Call)) (l : list PartySession) : Prop :=
  (forall s, s ∈ l -> snapped h s /\ not_begun h (ps_ID s)) /\
  (disagreed h \/ forall s m, s ∈ l -> CurrentRoundMessageID s = Some m -> not_claimed h m).

Lemma all_adv h l postTO :
  NoDup (ps_ID <$> l) -> NoDup (omap CurrentRoundMessageID l) -> todo h l ->
  obeys adv_may adv_answers (fun _ _ => True) h
    (advance_all Principal true maxInFlight st (or_default SettleTO DefaultPartyVoiceSettleTimeout)
       (or_default SeqSettleTO DefaultPartySequentialTurnSettleTimeout) postTO l).
Proof.
  revert h. induction l as [|sess l IH]; intros h Hid Hmsg [Hsn Hcl]; cbn [advance_all]; [done|]. apply obeys_bind.
  destruct (Hsn sess) as [Hs Hb]; [by left|]. cbn in Hid. apply NoDup_cons in Hid as [Hni Hid].
  eapply obeys_weaken; [eapply obeys_both; [done|apply obeys_adds, (session_begins h sess)|apply session_adv; [done|done|]]|].
  - destruct Hcl as [?|Hcl]; [by left|right]. intros m Em. apply (Hcl sess); [by left|done].
  - intros h' [] Hp [(t & -> & Hbeg) Haft]. cbn in Hmsg. apply IH; [done| |split].
    + destruct (CurrentRoundMessageID sess); [by apply NoDup_cons in Hmsg as [_ ?]|done].
    + intros s Hin. destruct (Hsn s) as [(e & He & Hse) Hbs]; [by right|]. split; [exists e; split; [apply elem_of_app; by left|done]|].
      intros e0 [He0|He0]%elem_of_app; [by apply Hbs|]. destruct e0 as [X c x]. specialize (Hbeg _ _ _ He0). destruct c; try discriminate.
      cbn in *. intros [= E]. apply Hni. apply list_elem_of_fmap. exists s. split; [congruence|done].
    + destruct Haft as [?|Haft]; [by left|]. destruct Hcl as [(h1 & Hp1 & Hm1)|Hcl]; [left; exists h1; split; [by apply prefix_app_r|done]|right].
      intros s m Hin Em. apply Haft; [|apply (Hcl s); [by right|done]]. intros E. rewrite <- E in Hmsg. apply NoDup_cons in Hmsg as [Hn _].
      apply Hn. apply list_elem_of_omap. by exists s.
Qed.

Lemma tick_adv : obeys adv_may adv_answers (fun _ _ => True) [] (tick Principal SettleTO SeqSettleTO PostTO true maxInFlight st).
Proof.
  unfold tick. cbn [pbind call obeys app]. split; [exact I|]. intros [l|] Hl; [|done]. destruct Hl as [Hid Hmsg].
  apply all_adv; [done|done|]. split.
  - intros s Hin. split; [eexists; split; [by apply list_elem_of_singleton|done]|]. intros e ->%list_elem_of_singleton. done.
  - right. intros s m _ _ e ->%list_elem_of_singleton. done.
Qed.
End advancer.

(** * The whole system *)

(** No statement but [NextRound] moves a session's round. *)
Definition same_rounds (t t' : Tables) : Prop :=
  forall id cur, sessions t !! id = Some cur -> exists cur', sessions t' !! id = Some cur' /\ Round cur' = Round cur.

Lemma same_rounds_refl t t' : sessions t' = sessions t -> same_rounds t t'.
Proof. unfold same_rounds. intros -> id cur E. by exists cur. Qed.

Lemma same_rounds_update t id P f : (forall s, Round (f s) = Round s) -> same_rounds t (on_active id P f t).2.
Proof.
  intros Hf. destruct (on_active_cases id P f t) as [->|(s & E & _ & _ & ->)]; [by apply same_rounds_refl|].
  intros id0 cur E0. cbn. destruct (decide (id0 = id)) as [->|]; [|exists cur; by rewrite lookup_insert_ne].
  rewrite lookup_insert_eq. exists (f s). simplify_eq. auto.
Qed.

Lemma same_rounds_opens id th pr tm b tp bu t t' : opens_session id th pr tm b tp bu t t' -> same_rounds t t'.
Proof. intros (E & _ & _ & ->) id0 cur E0. exists cur. cbn. rewrite lookup_insert_ne by congruence. done. Qed.

Lemma post_rounds msg h X (c : Call X) t x t' : post_may msg h X c -> serves X c t x t' -> same_rounds t t'.
Proof.
  intros Hm Hx. destruct (is_quiet X c) eqn:Hq; [apply same_rounds_refl; by destruct (served_quiet _ _ _ _ _ Hq Hx)|].
  destruct (ledger_call X c) as [[m a]|] eqn:Hl; [apply same_rounds_refl; by destruct (served_ledger _ _ _ _ _ _ _ Hl Hx)|].
  destruct c; try discriminate Hq; try discriminate Hl; try (by destruct Hm); cbn in Hx.
  - apply exec_cases in Hx as [->| ->]; [by apply same_rounds_refl|]. unfold stamp_stmt.
    pose proof (same_rounds_update t id (fun s => (Round s =? forRound) && bool_decide (CurrentRoundMessageID s = None)) (stamped_row message voices)
      ltac:(done)) as H. by destruct (on_active id _ _ t) as [[] w].
  - destruct x as [[]|]; [|by apply same_rounds_refl; subst|].
    + destruct Hx as (id & tm & m & _ & _ & _ & Ho). by eapply same_rounds_opens.
    + destruct Hx as [->|(id & tm & Ho)]; [by apply same_rounds_refl|by eapply same_rounds_opens].
Qed.

Lemma apart_meanwhile ros t ros' t' :
  moves ros t ros' t' -> same_rounds t t' -> undisturbed t t' -> now t <= now t' -> (forall i, is_Some (settled t !! i) -> is_Some (settled t' !! i)) ->
  meanwhile None None ros t ros' t'.
Proof.
  intros Hm Hr [Hu1 Hu2] Hn Hs. split; [done|..].
  - intros id cur E _. by apply Hr.
  - intros k m a Hk _ r' Hr'. rewrite (Hu1 _ _ _ Hk) in Hr'. exists r'. split; [done|]. intros to. by apply turn_over_later.
  - apply Hu2.
Qed.

(** ** The other handlers *)

(** A step that touches no turn, round or roster. *)
Definition apart (ros : rosters) (t t' : Tables) : Prop :=
  sound ros t' /\ moves ros t ros t' /\ leaves None t t' /\ same_rounds t t' /\ undisturbed t t' /\ now t' = now t /\ settled t' = settled t.

Lemma row_moves_trans s s1 s2 : row_moves s s1 -> row_moves s1 s2 -> row_moves s s2.
Proof.
  intros (I1 & B1 & R1 & H1) (I2 & B2 & R2 & H2). split; [congruence|]. split; [congruence|]. split; [lia|]. intros E.
  destruct H1 as (A1 & U1 & L1); [lia|]. destruct H2 as (A2 & U2 & L2); [lia|]. rewrite B1 in L2. split_and!; [auto|lia|auto].
Qed.

Lemma apart_trans ros t t1 t2 : apart ros t t1 -> apart ros t1 t2 -> apart ros t t2.
Proof.
  intros (S1 & M1 & L1 & R1 & [U1 V1] & N1 & T1) (S2 & M2 & L2 & R2 & [U2 V2] & N2 & T2). split; [done|]. split; [|split; [|split; [|split]]].
  - split; [| |done|by intros; left|].
    + intros id s E. destruct (moves_rows _ _ _ _ M1 _ _ E) as (s1 & E1 & H1). destruct (moves_rows _ _ _ _ M2 _ _ E1) as (s2 & E2 & H2).
      exists s2. split; [done|by eapply row_moves_trans].
    + etrans; [apply M1|apply M2].
    + intros m H. by apply M2, M1.
  - intros m Hne H. destruct (L1 m Hne H) as [A1 B1]. destruct (L2 m Hne A1) as [A2 B2]. split; [done|]. intros a. by rewrite B2.
  - intros id cur E. destruct (R1 _ _ E) as (c1 & E1 & Q1). destruct (R2 _ _ E1) as (c2 & E2 & Q2). exists c2. split; [done|congruence].
  - split.
    + intros k m a Hk. rewrite (U2 k); [by apply (U1 k)|]. by eapply lookup_weaken; [|apply M1].
    + intros k m Hk. destruct (V2 _ _ Hk) as [Hk1|?]; [|by right]. destruct (V1 _ _ Hk1) as [?|Hno]; [by left|right]. intros a. by rewrite (U2 k).
  - split; congruence.
Qed.

Lemma apart_quiet ros t t' : sound ros t -> quiet t t' -> apart ros t t'.
Proof.
  intros Hs Hq. destruct (quiet_moves _ _ _ Hs Hq). split_and!; try done; [by apply quiet_leaves|..]; destruct Hq as (? & ? & ? & ? & ? & _); try done.
  - by apply same_rounds_refl.
  - by apply undisturbed_same.
Qed.

Lemma apart_opens ros t t' id th pr tm b tp bu : sound ros t -> opens_session id th pr tm b tp bu t t' -> apart ros t t'.
Proof.
  intros Hs Ho. destruct (open_sound _ _ _ _ _ _ _ _ _ _ Hs Ho). split; [done|]. split; [done|]. split; [by eapply open_leaves|].
  split; [by eapply same_rounds_opens|]. destruct Ho as (_ & _ & _ & ->). split; [by apply undisturbed_same|done].
Qed.

Lemma apart_close ros t th : sound ros t -> apart ros t (close_thread th t).
Proof.
  intros Hs. destruct (close_sound _ _ th Hs). split; [done|]. split; [done|]. split; [intros m _ H1; done|]. split; [|split; [by apply undisturbed_same|done]].
  intros id cur E. cbn. rewrite lookup_fmap, E. eexists. split; [done|]. by destruct (IsActive cur && _).
Qed.

Lemma aside_serves ros t X (c : Call X) x t' :
  sound ros t -> serves X c t x t' -> match c with StartSession _ _ _ _ | ResetRoom _ => True | _ => False end -> apart ros t t'.
Proof.
  intros Hs Hx Hc. pose proof (apart_quiet _ _ _ Hs (quiet_refl t)) as Hsame.
  assert (forall m id th pr tm b tp bu t1, opens_session id th pr tm b tp bu (add_message m t) t1 -> apart ros t t1) as Hopen.
  { intros m id th pr tm b tp bu t1 Ho. pose proof (apart_quiet _ _ _ Hs (quiet_message m t)) as H1. eapply apart_trans; [done|].
    eapply apart_opens; [apply H1|done]. }
  assert (forall m th, apart ros t (add_message m (close_thread th t))) as Hclose.
  { intros m th. pose proof (apart_close _ _ th Hs) as H1. eapply apart_trans; [done|]. apply apart_quiet; [apply H1|apply quiet_message]. }
  destruct c; try done; cbn in Hx.
  - destruct x as [[[m' s]|]|].
    + destruct Hx as (id & sid & _ & _ & Ho & _). by eapply Hopen.
    + by destruct Hx as [-> _].
    + destruct Hx as [->|(id & sid & _ & Ho)]; [done|by eapply Hopen].
  - destruct x as [[m' n]|]; [by destruct Hx as (id & _ & _ & ->)|]. by destruct Hx as [->|(id & _ & ->)].
Qed.

Section system.
Context (maxInFlight st cap : Z) (Principal : string) (SettleTO SeqSettleTO PostTO : Z).

Definition turn_timeout : Z :=
  Z.max 0 (effectivePartySettleTimeout true (or_default SettleTO DefaultPartyVoiceSettleTimeout) (or_default SeqSettleTO DefaultPartySequentialTurnSettleTimeout)).

Definition post_fine (ros : rosters) (t : Tables) (ip : string * Prog unit) : Prop :=
  exists h, post_told ros ip.1 h t /\ obeys (post_may ip.1) any_answer (fun _ _ => True) h ip.2.

Definition world_ok (h : list (Event Call)) (w : World) : Prop :=
  exists ros, sound ros (tables w) /\ adv_told None None ros h (tables w) /\ NoDup (posts w).*1 /\ forall ip, ip ∈ posts w -> post_fine ros (tables w) ip.

Lemma post_fine_moves ros t ros' t' ip m :
  sound ros t -> moves ros t ros' t' -> leaves m t t' -> Some ip.1 <> m -> post_fine ros t ip -> post_fine ros' t' ip.
Proof. intros Hs Hm Hl Hne (h & Ht & Ho). exists h. split; [by eapply post_told_moves|done]. Qed.

(** Something that touches no post. *)
Lemma world_apart h w t' ros ros' :
  sound ros (tables w) -> adv_told None None ros h (tables w) -> NoDup (posts w).*1 -> (forall ip, ip ∈ posts w -> post_fine ros (tables w) ip) ->
  sound ros' t' -> moves ros (tables w) ros' t' -> leaves None (tables w) t' -> same_rounds (tables w) t' -> undisturbed (tables w) t' ->
  now (tables w) <= now t' -> (forall i, is_Some (settled (tables w) !! i) -> is_Some (settled t' !! i)) ->
  world_ok h {| tables := t'; posts := posts w |}.
Proof.
  intros Hs Ht Hn Hp Hs' Hm Hl Hr Hu Hno Hse. exists ros'. split; [done|]. split; [|split; [done|]].
  - apply told_meanwhile with (ros := ros) (t := tables w); [done| |done]. by apply apart_meanwhile.
  - intros ip Hip. apply (post_fine_moves ros (tables w) ros' t' ip None); try done. by apply Hp.
Qed.

Lemma world_posts h w l1 id X (c : Call X) k l2 x t' :
  world_ok h w -> posts w = l1 ++ (id, Do c k) :: l2 -> serves X c (tables w) x t' -> world_ok h {| tables := t'; posts := l1 ++ (id, k x) :: l2 |}.
Proof.
  intros (ros & Hs & Ht & Hn & Hp) Ew Hx. rewrite Ew in Hn, Hp.
  destruct (Hp (id, Do c k)) as (h1 & Ht1 & [Hm Hk]); [apply elem_of_app; right; by left|]. cbn in Ht1, Hm, Hk.
  destruct (post_call _ _ _ _ _ _ _ _ Hs Ht1 Hm Hx) as (ros' & Hs' & Hmv & Hl & Hu & Ht1').
  destruct (served_clock _ _ _ _ _ Hx) as [Hnow Hset]. exists ros'. cbn. split; [done|]. split; [|split].
  - apply told_meanwhile with (ros := ros) (t := tables w); [done| |done]. apply apart_meanwhile; try done; [by eapply post_rounds|lia|by rewrite Hset].
  - rewrite fmap_app in *. done.
  - rewrite fmap_app in Hn. cbn in Hn. apply NoDup_app in Hn as (_ & Hn1 & [Hn2 _]%NoDup_cons).
    intros ip [Hin|[->|Hin]%elem_of_cons]%elem_of_app.
    + apply (post_fine_moves ros (tables w) ros' t' ip (Some id)); try done; [|apply Hp, elem_of_app; by left].
      intros [= E]. apply (Hn1 ip.1); [by apply list_elem_of_fmap_2|]. rewrite E. by left.
    + exists (h1 ++ [Ev c x]). split; [done|]. by apply Hk.
    + apply (post_fine_moves ros (tables w) ros' t' ip (Some id)); try done; [|apply Hp, elem_of_app; right; by right].
      intros [= E]. apply Hn2. rewrite <- E. by apply list_elem_of_fmap_2.
Qed.

Lemma world_elsewhere h w w' : world_ok h w -> elsewhere maxInFlight st cap w w' -> world_ok h w'.
Proof.
  intros Hw He. destruct He as [w t Ht|w item t|w run item _|w m edge project auth Hnew|w l1 id X c k l2 x t' Ew Hx|w m project team b x t' Hx|w m x t' Hx];
    [..|by eapply world_posts| |]; destruct Hw as (ros & Hs & Hto & Hn & Hp).
  - destruct (elsewhere_moved ros (tables w) (passes_time t (tables w))) as [Hs' Hm]; try done; [by left|].
    eapply world_apart; try done; [by apply same_rounds_refl|by apply undisturbed_same].
  - destruct (elsewhere_moved ros (tables w) (settles item t (tables w))) as [Hs' Hm]; try done; [by left|].
    eapply world_apart; try done; [by apply same_rounds_refl|by apply undisturbed_same|].
    intros i Hi. cbn. destruct (decide (i = item)) as [->|]; [rewrite lookup_insert_eq|rewrite lookup_insert_ne by done]; eauto.
  - destruct (elsewhere_moved ros (tables w) (run_claims run item (tables w))) as [Hs' Hm]; try done; [by left|].
    eapply world_apart; try done; [by apply same_rounds_refl|by apply undisturbed_same].
  - destruct (apart_quiet _ _ _ Hs (quiet_message m (tables w))) as (Hs' & Hm & Hl & Hr & Hu & Hno & Hse).
    destruct (world_apart h w _ ros ros Hs Hto Hn Hp Hs' Hm Hl Hr Hu) as (ros2 & Hs2 & Hto2 & Hn2 & Hp2); [lia|by rewrite Hse|].
    exists ros2. cbn in *. split; [done|]. split; [done|]. split.
    + rewrite fmap_app. cbn. apply NoDup_app. split; [done|]. split; [|apply NoDup_singleton]. intros id Hid ->%list_elem_of_singleton.
      apply list_elem_of_fmap in Hid as ([id0 p0] & E & Hin). destruct (Hp _ Hin) as (h0 & (Hmsg & _) & _). cbn in *. subst id0. rewrite Hnew in Hmsg. by destruct Hmsg.
    + intros ip [Hin| ->%list_elem_of_singleton]%elem_of_app; [by apply Hp2|]. exists []. split; [|apply post_obeys]. cbn. split_and!.
      * cbn. rewrite lookup_insert_eq. by eexists.
      * intros _ k E. cbn in E. destruct (sound_known_round _ _ Hs _ _ E) as [? E']. congruence.
      * intros _ a. cbn. apply eq_None_not_Some. intros Ha. destruct (sound_known_row _ _ Hs _ _ Ha) as [? E']. congruence.
      * by intros e s He%not_elem_of_nil.
  - destruct (aside_serves _ _ _ _ _ _ Hs Hx I) as (Hs' & Hm & Hl & Hr & Hu & Hno & Hse). eapply world_apart; try done; [lia|by rewrite Hse].
  - destruct (aside_serves _ _ _ _ _ _ Hs Hx I) as (Hs' & Hm & Hl & Hr & Hu & Hno & Hse). eapply world_apart; try done; [lia|by rewrite Hse].
Qed.

Lemma world_adv h w X (c : Call X) x w' :
  adv_may turn_timeout h X c -> world_ok h w -> served X c w x w' -> world_ok (h ++ [Ev c x]) w' /\ adv_answers X c x.
Proof.
  intros Hm (ros & Hs & Ht & Hn & Hp) [Hx Ep].
  destruct (adv_call turn_timeout ros (tables w) h Hs Ht X c x _ Hm Hx) as (Hs' & Hmv & Hl & Ht' & Ha). split; [|done].
  exists ros. split; [done|]. split; [done|]. rewrite Ep. split; [done|]. intros ip Hip.
  apply (post_fine_moves ros (tables w) ros _ ip None); try done. by apply Hp.
Qed.

Lemma told_nothing ros t : adv_told None None ros [] t.
Proof.
  split.
  - by intros s (e & He%not_elem_of_nil & _).
  - by intros s (e & He%not_elem_of_nil & _).
  - by intros e id n He%not_elem_of_nil.
  - intros h1 e h2 id s E. by destruct h1.
  - by intros e m to k He%not_elem_of_nil.
  - intros (h1 & Hp%prefix_nil_inv & (s & _ & (e & He & _) & _)). subst h1. by apply not_elem_of_nil in He.
Qed.

Lemma world_fresh w : fresh_room w -> world_ok [] w.
Proof.
  intros (E1 & E2 & E3 & _ & E4). exists ∅. split; [|split; [apply told_nothing|rewrite E4; split; [apply NoDup_nil_2|by intros ip H%not_elem_of_nil]]].
  split; rewrite ?E1, ?E2, ?E3; intros *; rewrite ?lookup_empty; try done; by intros [].
Qed.

Lemma debates_ok w0 s : fresh_room w0 -> debates maxInFlight st cap Principal SettleTO SeqSettleTO PostTO w0 s ->
  exists h, world_ok h s.1 /\ obeys (adv_may turn_timeout) adv_answers (fun _ _ => True) h s.2.
Proof.
  intros Hf Hr. eapply (sys_invariant served _ _ _ _ world_ok); [| | | |by apply world_fresh|exact Hr].
  - intros p ->. by apply tick_adv.
  - intros h w (ros & Hs & _ & Hrest). exists ros. split; [done|]. split; [apply told_nothing|done].
  - intros h X c w x w' Hm Hw Hx. by eapply world_adv.
  - intros h w w' Hw He. by eapply world_elsewhere.
Qed.
End system.
