(* ===== verification/Dispatched.v ===== *)
(** A dispatch whose caller was told keeps its row: over every interleaving of the
    advancer with the posts, no program gives up the claim of a turn it has a run for.
    Each program is followed by what it holds; two never hold the same turn. *)
From S2P Require Import Prelude GoStr Calls Room Party PartyProps.
Open Scope Z_scope.
Open Scope k8s_scope.

(** * What a program holds *)

Definition turn_of (d : MentionDispatch) : string * string := (d_MessageID d, d_AgentName d).

(** From the claim of a turn to its dispatch or its release: with the item made for
    it, and its row bound to the item. *)
Inductive Hold : Set :=
| Free
| Claimed (d : MentionDispatch)
| Created (d : MentionDispatch) (item : string)
| Bound (d : MentionDispatch) (item : string).

Definition held (s : Hold) : option MentionDispatch :=
  match s with Free => None | Claimed d | Created d _ | Bound d _ => Some d end.

Definition hold_step (s : Hold) (e : Event Call) : Hold :=
  match e with
  | @Ev _ X c x =>
      match c in Call X return X -> Hold with
      | Claim d => fun x => match x with Some true => Claimed d | _ => s end
      | CreateWorkItem _ => fun x => match s, x with Claimed d, Some item => Created d item | _, _ => s end
      | Bind _ _ _ => fun ok => match s with Created d item => if ok : bool then Bound d item else s | _ => s end
      | Release _ _ => fun _ => Free
      | RequestDispatch _ _ _ _ _ => fun told => match s with Bound _ _ => if told : bool then Free else s | _ => s end
      | _ => fun _ => s
      end x
  end.
Definition hold_of (h : list (Event Call)) : Hold := foldl hold_step Free h.

Lemma hold_snoc h e : hold_of (h ++ [e]) = hold_step (hold_of h) e.
Proof. unfold hold_of. by rewrite foldl_app. Qed.

(** An item created. *)
Definition creates (e : Event Call) : option (CreateWorkItemInput * string) :=
  match e with
  | @Ev _ X c x => match c in Call X return X -> _ with CreateWorkItem i => fun x => (fun item => (i, item)) <$> x | _ => fun _ => None end x
  end.

Definition is_mention (b : Directive) : bool := match b with MentionRun _ => true | _ => false end.

(** The item was made here, for no mention. *)
Definition made (h : list (Event Call)) (item : string) : Prop :=
  exists i, Ev (CreateWorkItem i) (Some item) ∈ h /\ is_mention (in_Body i) = false.

(** Claims one at a time, each with its own item, bound before it is dispatched; only
    what is held is released. *)
Definition hold_may (h : list (Event Call)) X (c : Call X) : Prop :=
  match c with
  | Claim _ => hold_of h = Free
  | CreateWorkItem i => hold_of h = match in_Body i with MentionRun d => Claimed d | _ => Free end
  | Bind m a item => exists d, hold_of h = Created d item /\ turn_of d = (m, a)
  | Release m a => exists d, held (hold_of h) = Some d /\ turn_of d = (m, a)
  | RequestDispatch item _ _ _ _ => (exists d, hold_of h = Bound d item) \/ hold_of h = Free /\ made h item
  | _ => True
  end.

(** * What the tables hold of it *)

Definition told (t : Tables) (item : string) : Prop := exists agent, (item, agent, true) ∈ requests t.
Definition mention (t : Tables) (item : string) (d : MentionDispatch) : Prop := exists i, items t !! item = Some i /\ in_Body i = MentionRun d.

Definition bound_to (t : Tables) (d : MentionDispatch) (item : string) : Prop :=
  exists r, ledger t !! turn_of d = Some r /\ md_Item r = Some item.

(** Every dispatch that was told keeps its row. *)
Definition kept (t : Tables) : Prop := forall item d, told t item -> mention t item d -> bound_to t d item.
Definition known (t : Tables) : Prop := forall item agent b, (item, agent, b) ∈ requests t -> is_Some (items t !! item).

Definition hold_ok (t : Tables) (s : Hold) : Prop :=
  match held s with
  | None => True
  | Some d =>
      is_Some (ledger t !! turn_of d) /\ (forall item d', told t item -> mention t item d' -> turn_of d' <> turn_of d) /\
      match s with
      | Created d item => mention t item d
      | Bound d item => mention t item d /\ bound_to t d item
      | _ => True
      end
  end.

Definition made_ok (t : Tables) (h : list (Event Call)) : Prop :=
  forall item, made h item -> exists i, items t !! item = Some i /\ is_mention (in_Body i) = false.

(** Each program by its history. *)
Definition holds_turn (hs : list (list (Event Call))) (i : nat) (k : string * string) : Prop :=
  exists h d, hs !! i = Some h /\ held (hold_of h) = Some d /\ turn_of d = k.

Record all_kept (t : Tables) (hs : list (list (Event Call))) : Prop := {
  ak_known : known t;
  ak_kept : kept t;
  ak_hold i h : hs !! i = Some h -> hold_ok t (hold_of h) /\ made_ok t h;
  ak_once i j k : holds_turn hs i k -> holds_turn hs j k -> i = j }.

(** Nothing changes but of the turn [ko]. *)
Record gentle (ko : option (string * string)) (t t' : Tables) : Prop := {
  ge_ledger k : Some k <> ko -> ledger t' !! k = ledger t !! k;
  ge_items : items t ⊆ items t';
  ge_told item d : told t' item -> mention t' item d -> Some (turn_of d) <> ko -> told t item /\ mention t item d }.

Lemma mention_later t t' item d : items t ⊆ items t' -> mention t item d -> mention t' item d.
Proof. intros Hs (i & E & Eb). exists i. split; [by eapply lookup_weaken|done]. Qed.

Lemma hold_gentle ko t t' s : gentle ko t t' -> (forall d, held s = Some d -> Some (turn_of d) <> ko) -> hold_ok t s -> hold_ok t' s.
Proof.
  intros [Hl Hi Ht] Hne. unfold hold_ok. destruct (held s) as [d|] eqn:E; [|done]. specialize (Hne d eq_refl). intros (Hr & Hno & Hs).
  rewrite Hl by done. split; [done|]. split.
  - intros item d' Hto Hm Eq. destruct (Ht item d' Hto Hm) as [Hto' Hm']; [by rewrite Eq|]. by apply (Hno item d').
  - destruct s; cbn in E; simplify_eq; try done; [by eapply mention_later|]. destruct Hs as [Hm (r & Hr' & Eb)].
    split; [by eapply mention_later|]. exists r. by rewrite Hl.
Qed.

Lemma made_gentle ko t t' h : gentle ko t t' -> made_ok t h -> made_ok t' h.
Proof. intros Hg Hm item H. destruct (Hm _ H) as (i & E & Eb). exists i. split; [eapply lookup_weaken; [done|apply Hg]|done]. Qed.

(** * What each call does *)

Section step.
Context (t t' : Tables) (hs : list (list (Event Call))) (i : nat) (h : list (Event Call)) (Hi : hs !! i = Some h).
Context (Hok : all_kept t hs).

Lemma frame e ko :
  gentle ko t t' -> known t' -> kept t' -> hold_ok t' (hold_of (h ++ [e])) -> made_ok t' (h ++ [e]) ->
  (forall j k, j <> i -> holds_turn hs j k -> Some k <> ko) ->
  (forall d, held (hold_of (h ++ [e])) = Some d -> held (hold_of h) = Some d \/ forall j, ~ holds_turn hs j (turn_of d)) ->
  all_kept t' (<[i := h ++ [e]]> hs).
Proof.
  intros Hg Hk Hkp Hh Hm Hko Hnew. assert (i < length hs)%nat as Hlt by (by eapply lookup_lt_Some).
  assert (forall j k, holds_turn (<[i := h ++ [e]]> hs) j k -> holds_turn hs j k \/ j = i /\ forall j', ~ holds_turn hs j' k) as Hcases.
  { intros j k (h' & d & E & Hd & Ek). apply list_lookup_insert_Some in E as [(<- & <- & _)|(Hne & E)]; [|left; by exists h', d].
    destruct (Hnew _ Hd) as [Hd'|Hno]; [left; by exists h, d|right]. subst k. done. }
  split; [done|done|..].
  - intros j hj E. apply list_lookup_insert_Some in E as [(<- & <- & _)|(Hne & E)]; [done|].
    destruct (ak_hold _ _ Hok _ _ E) as [H1 H2]. split; [|by eapply made_gentle]. eapply hold_gentle; [done| |done].
    intros d Hd. apply (Hko j); [done|]. by exists hj, d.
  - intros j j' k [H1|[-> Hn]]%Hcases [H2|[-> Hn']]%Hcases; [by eapply ak_once|by apply Hn' in H1|by apply Hn in H2|done].
Qed.

(** The turns of other programs are not this one's. *)
Lemma others_apart d j k : held (hold_of h) = Some d -> j <> i -> holds_turn hs j k -> Some k <> Some (turn_of d).
Proof. intros Hd Hne Hj E. assert (k = turn_of d) as -> by congruence. apply Hne. eapply ak_once; [done|exact Hj|]. by exists h, d. Qed.

Lemma holds_row j k : holds_turn hs j k -> is_Some (ledger t !! k).
Proof. intros (h' & d & E & Hd & <-). destruct (ak_hold _ _ Hok _ _ E) as [Ho _]. unfold hold_ok in Ho. rewrite Hd in Ho. tauto. Qed.

Lemma same_gentle : ledger t' = ledger t -> items t' = items t -> requests t' = requests t -> gentle None t t'.
Proof. intros E1 E2 E3. split; [by intros; rewrite E1|by rewrite E2|]. unfold told, mention. rewrite E2, E3. done. Qed.

Lemma my_hold : hold_ok t (hold_of h) /\ made_ok t h.
Proof. by eapply ak_hold. Qed.

(** A call that leaves the hold, the ledger, the items and the dispatches alone. *)
Lemma step_aside e :
  ledger t' = ledger t -> items t' = items t -> requests t' = requests t -> hold_of (h ++ [e]) = hold_of h ->
  (forall item, made (h ++ [e]) item -> made h item) -> all_kept t' (<[i := h ++ [e]]> hs).
Proof.
  intros E1 E2 E3 Eh Hm. pose proof (same_gentle E1 E2 E3) as Hg. destruct my_hold as [H1 H2]. apply (frame e None); try done.
  - intros item agent b. rewrite E2, E3. apply (ak_known _ _ Hok).
  - intros item d. unfold told, mention, bound_to. rewrite E1, E2, E3. apply (ak_kept _ _ Hok).
  - rewrite Eh. by eapply hold_gentle.
  - intros item H. eapply made_gentle; [done|done|]. by apply Hm.
  - rewrite Eh. auto.
Qed.

Lemma made_same e : creates e = None -> forall item, made (h ++ [e]) item -> made h item.
Proof. intros Hne item (j & [Hin|Hin%list_elem_of_singleton]%elem_of_app & Hb); [by exists j|]. by subst e. Qed.

(** The rows of a told dispatch, where only the row of a turn without one changes. *)
Lemma kept_off ko : gentle ko t t' -> (forall item d, told t' item -> mention t' item d -> Some (turn_of d) <> ko) -> kept t'.
Proof.
  intros Hg Hno item d Hto Hm. pose proof (Hno _ _ Hto Hm) as Hne. destruct (ge_told _ _ _ Hg _ _ Hto Hm Hne) as [Hto0 Hm0].
  destruct (ak_kept _ _ Hok _ _ Hto0 Hm0) as (r & Hr & Eb). exists r. by rewrite (ge_ledger _ _ _ Hg).
Qed.

(** A change of the ledger under one turn. *)
Lemma ledger_gentle k : (forall k', k' <> k -> ledger t' !! k' = ledger t !! k') -> items t' = items t -> requests t' = requests t -> gentle (Some k) t t'.
Proof. intros E1 E2 E3. split; [intros k' Hne; apply E1; congruence|by rewrite E2|]. unfold told, mention. rewrite E2, E3. done. Qed.
End step.

Lemma step_claim t t' hs i h d x :
  hs !! i = Some h -> all_kept t hs -> hold_of h = Free -> serves _ (Claim d) t x t' -> all_kept t' (<[i := h ++ [Ev (Claim d) x]]> hs).
Proof.
  intros Hi Hok Hf Hx. cbn in Hx.
  assert (hold_of (h ++ [Ev (Claim d) x]) = if x is Some true then Claimed d else Free) as Eh by (rewrite hold_snoc, Hf; by destruct x as [[]|]).
  assert (forall item, made (h ++ [Ev (Claim d) x]) item -> made h item) as Hmade by by apply made_same.
  assert (t' = t /\ x <> Some true \/ t' = (claim_row d t).2 /\ (claim_row d t).1 = true) as [[-> Hne]|[-> Hhit]].
  { destruct (int4 (d_HopDepth d)); [|by left; destruct Hx as [-> ->]]. destruct (claim_row d t) as [[] t1] eqn:Ec; cbn in *.
    - destruct Hx as [[-> ->]|[-> [->| ->]]]; auto.
    - assert (t1 = t) as -> by (unfold claim_row in Ec; destruct (ledger t !! _); by simplify_eq). left. by destruct Hx as [[-> ->]|[-> [->| ->]]]. }
  { apply (step_aside t t hs i h Hi Hok); try done. rewrite Eh, Hf. by destruct x as [[]|]. }
  unfold claim_row in *. destruct (ledger t !! (d_MessageID d, d_AgentName d)) as [r|] eqn:El; [done|]. cbn [snd] in *.
  assert (forall item d', told t item -> mention t item d' -> turn_of d' <> turn_of d) as Hno.
  { intros item d' Hto Hm E. destruct (ak_kept _ _ Hok _ _ Hto Hm) as (r & Hr & _). rewrite E in Hr. unfold turn_of in Hr. congruence. }
  match goal with |- all_kept ?t1 _ => assert (gentle (Some (turn_of d)) t t1) as Hg end.
  { apply ledger_gentle; try done. intros k Hne. cbn. by rewrite lookup_insert_ne. }
  apply (frame t _ hs i h Hi Hok _ (Some (turn_of d))); try done.
  - apply (ak_known _ _ Hok).
  - eapply kept_off; [done|done|]. intros item d' Hto Hm E. apply (Hno item d'); [done|done|congruence].
  - rewrite Eh. destruct x as [[]|]; [|done..]. cbn. split; [rewrite lookup_insert_eq; by eexists|done].
  - intros item H. destruct (my_hold t hs i h Hi Hok) as [_ Hm]. by apply Hm, Hmade.
  - intros j k _ Hj E. destruct (holds_row t hs Hok _ _ Hj) as [r Hr]. unfold turn_of in E. congruence.
  - rewrite Eh. intros d' Hd'. right. intros j Hj. destruct x as [[]|]; [|done..]. injection Hd' as <-. destruct (holds_row t hs Hok _ _ Hj) as [r Hr].
    unfold turn_of in Hr. congruence.
Qed.

Lemma step_bind t t' hs i h m a item x :
  hs !! i = Some h -> all_kept t hs -> hold_may h _ (Bind m a item) -> serves _ (Bind m a item) t x t' ->
  all_kept t' (<[i := h ++ [Ev (Bind m a item) x]]> hs).
Proof.
  intros Hi Hok (d & Hd & Ek) Hx. destruct (my_hold t hs i h Hi Hok) as [Ho Hm]. rewrite Hd in Ho. destruct Ho as (Hr & Hno & Hmen). cbn in Hr, Hno, Hmen.
  set (e := Ev (Bind m a item) x).
  assert (hold_of (h ++ [e]) = if x then Bound d item else Created d item) as Eh by (rewrite hold_snoc, Hd; by destruct x).
  assert (forall j, made (h ++ [e]) j -> made h j) as Hmade by by apply made_same.
  assert (t' = t /\ x = false \/ t' = bind_stmt m a item t) as [[-> ->]| ->] by (destruct Hx as [->|[-> ->]]; auto).
  { apply (step_aside t t hs i h Hi Hok); try done. by rewrite Eh, Hd. }
  assert (gentle (Some (turn_of d)) t (bind_stmt m a item t)) as Hg.
  { apply ledger_gentle; try done. intros k Hne. cbn. apply lookup_alter_ne. congruence. }
  assert (bound_to (bind_stmt m a item t) d item) as Hb.
  { destruct Hr as [r Hr]. exists (bind_row item r). cbn. rewrite <- Ek, lookup_alter_eq, Hr. done. }
  apply (frame t _ hs i h Hi Hok e (Some (turn_of d))); try done.
  - apply (ak_known _ _ Hok).
  - eapply kept_off; [done|done|]. intros it d' Hto Hm' E. apply (Hno it d'); [done|done|congruence].
  - assert (is_Some (ledger (bind_stmt m a item t) !! turn_of d)) as Hs by (destruct Hb as (r & -> & _); by eexists).
    rewrite Eh. destruct x; cbn; split_and!; try done.
  - intros j H. by apply Hm, Hmade.
  - intros j k Hne Hj. eapply others_apart; try done. by rewrite Hd.
  - rewrite Eh, Hd. intros d' Hd'. left. by destruct x.
Qed.

Lemma step_release t t' hs i h m a x :
  hs !! i = Some h -> all_kept t hs -> hold_may h _ (Release m a) -> serves _ (Release m a) t x t' ->
  all_kept t' (<[i := h ++ [Ev (Release m a) x]]> hs).
Proof.
  intros Hi Hok (d & Hd & Ek) Hx. destruct (my_hold t hs i h Hi Hok) as [Ho Hm]. unfold hold_ok in Ho. rewrite Hd in Ho. destruct Ho as (Hr & Hno & _).
  set (e := Ev (Release m a) x). assert (hold_of (h ++ [e]) = Free) as Eh by by rewrite hold_snoc.
  assert (forall j, made (h ++ [e]) j -> made h j) as Hmade by by apply made_same.
  assert (gentle (Some (turn_of d)) t t' /\ items t' = items t /\ requests t' = requests t) as (Hg & E1 & E2).
  { destruct Hx as [->| ->]; (split; [|done]); apply ledger_gentle; try done. intros k Hne. cbn. apply lookup_delete_ne. congruence. }
  apply (frame t _ hs i h Hi Hok e (Some (turn_of d))); try done.
  - intros it ag b. rewrite E1, E2. apply (ak_known _ _ Hok).
  - eapply kept_off; [done|done|]. intros it d' Hto Hm' E. apply (Hno it d'); [|by unfold mention in *; rewrite E1 in Hm'|congruence].
    unfold told in *. by rewrite E2 in Hto.
  - by rewrite Eh.
  - intros j H. destruct (Hm _ (Hmade _ H)) as (w & Ew & Eb). exists w. by rewrite E1.
  - intros j k Hne Hj. by eapply others_apart.
  - by rewrite Eh.
Qed.

Lemma step_create t t' hs i h w x :
  hs !! i = Some h -> all_kept t hs -> hold_may h _ (CreateWorkItem w) -> serves _ (CreateWorkItem w) t x t' ->
  all_kept t' (<[i := h ++ [Ev (CreateWorkItem w) x]]> hs).
Proof.
  intros Hi Hok Hmay Hx. destruct (my_hold t hs i h Hi Hok) as [Ho Hm]. set (e := Ev (CreateWorkItem w) x). cbn in Hmay.
  assert (hold_of (h ++ [e]) = match in_Body w, x with MentionRun d, Some item => Created d item | _, _ => hold_of h end) as Eh
    by (rewrite hold_snoc, Hmay; by destruct (in_Body w), x).
  assert (t' = t /\ x = None \/ exists item, items t !! item = None /\ t' = add_item item w t /\ (x = Some item \/ x = None)) as [[-> ->]|(item & En & -> & Hx')].
  { destruct x as [item|]; cbn in Hx; [right; exists item; tauto|]. destruct Hx as [->|(item & ? & ->)]; [by left|right; exists item; auto]. }
  { apply (step_aside t t hs i h Hi Hok); try done; [rewrite Eh; by destruct (in_Body w)|by apply made_same]. }
  assert (items t ⊆ items (add_item item w t)) as Hsub by by apply insert_subseteq.
  assert (gentle None t (add_item item w t)) as Hg.
  { split; [done|done|]. intros it d Hto (j & Ej & Eb) _. split; [done|]. exists j. split; [|done]. cbn in Ej. rewrite lookup_insert_ne in Ej; [done|].
    intros ->. destruct Hto as [ag Hto]. destruct (ak_known _ _ Hok _ _ _ Hto) as [? Hi']. congruence. }
  apply (frame t _ hs i h Hi Hok e None); try done.
  - intros it ag b Hin. destruct (ak_known _ _ Hok _ _ _ Hin) as [j Hj]. exists j. by eapply lookup_weaken.
  - by eapply kept_off.
  - pose proof (hold_gentle _ _ _ _ Hg (fun _ _ H => ltac:(discriminate H)) Ho) as Ho'. rewrite Eh. destruct (in_Body w) as [d| |] eqn:Eb, x as [it|]; try done.
    destruct Hx' as [[= ->]|]; [|done]. unfold hold_ok in Ho'. rewrite Hmay in Ho'. destruct Ho' as (? & ? & _). split_and!; [done..|].
    exists w. cbn. by rewrite lookup_insert_eq.
  - intros it (j & [Hin|Hin%list_elem_of_singleton]%elem_of_app & Eb); [eapply made_gentle; [done|done|by exists j]|].
    apply (f_equal creates) in Hin. destruct x as [it'|]; [|done]. cbn in Hin. injection Hin as <- ->.
    destruct Hx' as [[= ->]|]; [|done]. exists j. cbn. by rewrite lookup_insert_eq.
  - rewrite Eh. intros d Hd. left. rewrite <- Hd. destruct (in_Body w) eqn:Eb, x; try done. by rewrite Hmay.
Qed.

Lemma step_request t t' hs i h item agent team principal initiator x :
  hs !! i = Some h -> all_kept t hs -> hold_may h _ (RequestDispatch item agent team principal initiator) ->
  serves _ (RequestDispatch item agent team principal initiator) t x t' ->
  all_kept t' (<[i := h ++ [Ev (RequestDispatch item agent team principal initiator) x]]> hs).
Proof.
  intros Hi Hok Hmay Hx. destruct (my_hold t hs i h Hi Hok) as [Ho Hm]. set (e := Ev _ x). cbn in Hmay, Hx.
  assert (hold_of (h ++ [e]) = match hold_of h with Bound _ _ => if x then Free else hold_of h | s => s end) as Eh by (rewrite hold_snoc; by destruct (hold_of h)).
  assert (forall j, made (h ++ [e]) j -> made h j) as Hmade by by apply made_same.
  assert (t' = t /\ x = false \/ t' = add_request item agent x t) as [[-> ->]| ->] by tauto.
  { apply (step_aside t t hs i h Hi Hok); try done. rewrite Eh. by destruct (hold_of h). }
  assert (forall it, told (add_request item agent x t) it -> told t it \/ it = item /\ x = true) as Htold.
  { intros it [ag [Hin|Hin%list_elem_of_singleton]%elem_of_app]; [left; by exists ag|right]. injection Hin as -> _ <-. done. }
  assert (is_Some (items t !! item)) as Hitem.
  { destruct Hmay as [[d Hb]|[_ Hmd]]; [rewrite Hb in Ho; destruct Ho as (_ & _ & (w & E & _) & _); by exists w|]. destruct (Hm _ Hmd) as (w & E & _). by exists w. }
  assert (forall d, held (hold_of (h ++ [e])) = Some d -> held (hold_of h) = Some d) as Hsame.
  { rewrite Eh. intros d. by destruct (hold_of h), x. }
  assert (known (add_request item agent x t)) as Hk.
  { intros it ag b [Hin|Hin%list_elem_of_singleton]%elem_of_app; [by eapply (ak_known _ _ Hok)|]. injection Hin as -> _ _. done. }
  destruct Hmay as [[d Hb]|[Hf Hmd]].
  - rewrite Hb in Ho. destruct Ho as (Hr & Hno & Hmen & Hbound). cbn in Hr, Hno.
    assert (gentle (Some (turn_of d)) t (add_request item agent x t)) as Hg.
    { split; [done|done|]. intros it d' [Hto|[-> ->]]%Htold Hm' Hne; [done|]. destruct Hmen as (w & E & Eb), Hm' as (w' & E' & Eb'). cbn in E'. simplify_eq.
      rewrite Eb in Eb'. by simplify_eq. }
    apply (frame t _ hs i h Hi Hok e (Some (turn_of d))); try done.
    + intros it d' [Hto|[-> ->]]%Htold Hm'; [by apply (ak_kept _ _ Hok)|]. destruct Hmen as (w & E & Eb), Hm' as (w' & E' & Eb'). cbn in E'. simplify_eq.
      rewrite Eb in Eb'. by simplify_eq.
    + rewrite Eh, Hb. destruct x; [done|]. cbn. split_and!; try done. intros it d' [Hto|[_ ?]]%Htold Hm'; [by eapply Hno|done].
    + intros j H. by apply Hm, Hmade.
    + intros j k Hne Hj. eapply others_apart; try done. by rewrite Hb.
    + intros d' Hd'. left. by apply Hsame.
  - destruct (Hm _ Hmd) as (w & E & Eb).
    assert (gentle None t (add_request item agent x t)) as Hg.
    { split; [done|done|]. intros it d' [Hto|[-> ->]]%Htold Hm' Hne; [done|]. destruct Hm' as (w' & E' & Eb'). cbn in E'. simplify_eq. by rewrite Eb' in Eb. }
    apply (frame t _ hs i h Hi Hok e None); try done.
    + by eapply kept_off.
    + by rewrite Eh, Hf.
    + intros j H. by apply Hm, Hmade.
    + intros d' Hd'. left. by apply Hsame.
Qed.

(** The tables the turns are followed in. *)
Definition same_turns (t t' : Tables) : Prop := ledger t' = ledger t /\ items t' = items t /\ requests t' = requests t.

Lemma same_turns_refl t : same_turns t t.
Proof. done. Qed.

Lemma same_active id P f t : same_turns t (on_active id P f t).2.
Proof. by destruct (on_active_cases id P f t) as [->|(s & _ & _ & _ & ->)]. Qed.

Lemma same_exec id P f t x t' : exec (on_active id P f t) t x t' -> same_turns t t'.
Proof. intros [->| ->]%exec_cases; [done|apply same_active]. Qed.

Definition is_turn_call X (c : Call X) : bool :=
  match c with Claim _ | Bind _ _ _ | Release _ _ | CreateWorkItem _ | RequestDispatch _ _ _ _ _ => true | _ => false end.

Lemma served_aside X (c : Call X) t x t' : is_turn_call X c = false -> serves X c t x t' -> same_turns t t'.
Proof.
  intros Hq Hx.
  assert (forall t0 id th pr tm b tp bu, same_turns t t0 -> opens_session id th pr tm b tp bu t0 t' -> same_turns t t') as Hop
    by (intros ? ? ? ? ? ? ? ? (E1 & E2 & E3) (_ & _ & _ & ->); done).
  destruct c; try discriminate Hq; cbn in Hx; try (destruct Hx as [-> _]; done); try (destruct Hx as [_ ->]; done); try (by eapply same_exec).
  - destruct x as [[id0 t0]|]; [by destruct Hx as (_ & _ & ->)|]. by destruct Hx as [->|(? & _ & ->)].
  - apply exec_cases in Hx as [->| ->]; [done|]. unfold stamp_stmt.
    match goal with |- context [on_active ?i ?P ?f t] => pose proof (same_active i P f t) as Ha; by destruct (on_active i P f t) as [[] w] end.
  - destruct x as [[[m' s]|]|]; [|by destruct Hx as [-> _]|].
    + destruct Hx as (id & sid & _ & _ & Ho & _). by eapply Hop; [|exact Ho].
    + destruct Hx as [->|(id & sid & _ & Ho)]; [done|by eapply Hop; [|exact Ho]].
  - destruct x as [[]|]; [|by subst|].
    + destruct Hx as (id & tm & m & _ & _ & _ & Ho). by eapply Hop; [|exact Ho].
    + destruct Hx as [->|(id & tm & Ho)]; [done|by eapply Hop; [|exact Ho]].
  - destruct x as [[m' n]|]; [by destruct Hx as (id & _ & _ & ->)|]. by destruct Hx as [->|(id & _ & ->)].
Qed.

Lemma turn_step t t' hs i h X (c : Call X) x :
  hs !! i = Some h -> all_kept t hs -> hold_may h X c -> serves X c t x t' -> all_kept t' (<[i := h ++ [Ev c x]]> hs).
Proof.
  intros Hi Hok Hm Hx. destruct (is_turn_call X c) eqn:Hc.
  - destruct c; try discriminate Hc; [by eapply step_claim|by eapply step_bind|by eapply step_release|by eapply step_create|by eapply step_request].
  - destruct (served_aside _ _ _ _ _ Hc Hx) as (E1 & E2 & E3). apply (step_aside t t' hs i h Hi Hok); try done.
    + rewrite hold_snoc. by destruct c.
    + apply made_same. by destruct c.
Qed.

(** * The programs hold as they may *)

Notation holds_well := (obeys hold_may any_answer).

Ltac hold_eq := repeat (rewrite hold_snoc; cbn [hold_step]); first [assumption|reflexivity].
Ltac hold_walk := repeat (cbn [obeys pbind call]; first [split; [first [exact I|hold_eq]|intros ? _] | hold_eq | case_match; subst]).

Lemma mint_holds refs h d : hold_of h = Claimed d ->
  holds_well (fun h' (b : bool) => if b then hold_of h' = Free else held (hold_of h') = Some d) h (mint refs d).
Proof.
  intros Hh. unfold mint, resolve_refs.
  assert (forall h uid tm, hold_of h = Claimed d ->
    holds_well (fun h' (b : bool) => if b then hold_of h' = Free else held (hold_of h') = Some d) h
      (let* rec := call (CreateWorkItem {| in_ProjectID := uid; in_TeamID := tm; in_Title := mentionRunTitle d; in_Body := MentionRun d; in_Principal := dispatchPrincipal |}) in
       match rec with
       | None => ret false
       | Some item =>
           let* marked := call (MarkSource item) in
           if negb marked then ret false
           else
             let* bound := call (Bind (d_MessageID d) (d_AgentName d) item) in
             if negb bound then ret false
             else
               let initiator := if bool_decide (is_Some (d_TriggeredByAgentID d)) then "agent" else "human" in
               call (RequestDispatch item (d_AgentName d) tm dispatchPrincipal initiator)
       end)) as Hgo.
  { clear h Hh. intros h uid tm Hh. cbn [obeys pbind call]. split; [done|]. intros [item|] _; cbn [obeys pbind call]; [|rewrite hold_snoc, Hh; done].
    split; [exact I|]. intros marked _. destruct marked; cbn [obeys pbind call negb].
    2: { rewrite !hold_snoc, Hh. done. }
    split; [exists d; rewrite !hold_snoc, Hh; done|]. intros bound _. destruct bound; cbn [obeys pbind call negb].
    2: { rewrite !hold_snoc, Hh. done. }
    split; [left; exists d; rewrite !hold_snoc, Hh; done|]. intros told _. rewrite !hold_snoc, Hh. by destruct told. }
  destruct refs; cbn [negb pbind]; [|by apply Hgo]. cbn [obeys pbind call]. split; [exact I|]. intros [[uid tm]|] _; cbn [pbind].
  - apply Hgo. by rewrite hold_snoc.
  - cbn. by rewrite hold_snoc, Hh.
Qed.

Lemma dispatch_holds maxInFlight st refs h d : hold_of h = Free ->
  holds_well (fun h' _ => hold_of h' = Free) h (DispatchMention maxInFlight st refs d).
Proof.
  assert (forall h, hold_of h = Free -> holds_well (fun h' _ => hold_of h' = Free) h (claim_and_mint refs d)) as Hclaim.
  { clear h. intros h Hh. unfold claim_and_mint. cbn [obeys pbind call]. split; [done|]. intros [[]|] _; cbn [obeys pbind]; [|hold_eq..].
    apply obeys_bind. eapply obeys_weaken; [apply mint_holds; by rewrite hold_snoc|]. intros h' [] _ Hh'; [done|]. cbn [obeys pbind call].
    split; [by exists d|]. intros ? _. by rewrite hold_snoc. }
  intros Hh. unfold DispatchMention. case_bool_decide; [done|]. destruct ((0 <? maxInFlight) && _); [|by apply Hclaim]. cbn [obeys pbind call].
  split; [exact I|]. intros [n|] _; cbn [pbind obeys]; [|hold_eq]. destruct (maxInFlight <=? n); [cbn; hold_eq|]. apply Hclaim. hold_eq.
Qed.

Lemma dispatch_all_holds maxInFlight st refs l : forall h, hold_of h = Free ->
  holds_well (fun h' _ => hold_of h' = Free) h (dispatch_all maxInFlight st refs l).
Proof.
  induction l as [|d l IH]; intros h Hh; cbn [dispatch_all]; [done|]. apply obeys_bind. eapply obeys_weaken; [by apply dispatch_holds|].
  intros h' ? _ Hh'. by apply IH.
Qed.

Lemma hook_holds auth m roster coordinator h : hold_of h = Free ->
  holds_well (fun h' _ => hold_of h' = Free) h (DispatchPartyMentionsFrom true auth m roster coordinator).
Proof. intros Hh. unfold DispatchPartyMentionsFrom, SetRoundFacilitatorMessage, GetPartySession. hold_walk. Qed.

Lemma route_holds project auth m roster h : hold_of h = Free ->
  holds_well (fun h' _ => hold_of h' = Free) h (routeBarePartyToFacilitator project auth m roster).
Proof. intros Hh. unfold routeBarePartyToFacilitator, OpenPartySessionForMessage. hold_walk. Qed.

Lemma post_holds maxInFlight st cap edge project auth m :
  holds_well (fun _ _ => True) [] (dispatchMentions maxInFlight st true cap edge project auth m).
Proof.
  unfold dispatchMentions. cbn [obeys pbind call app]. split; [exact I|]. intros [roster|] _; [|done].
  apply obeys_bind. eapply obeys_weaken; [by apply hook_holds|]. intros h1 [] _ Hh1; [done|].
  apply obeys_bind. eapply (obeys_weaken _ _ (fun h' _ => hold_of h' = Free)); [destruct edge; [by apply route_holds|done]|].
  intros h2 [] _ Hh2; [done|]. unfold DispatchMentionsFrom. destruct (resolveMentionTargets cap m roster) as [[targets ?] []]; [done|].
  eapply obeys_weaken; [by apply dispatch_all_holds|done].
Qed.

(** ** The advancer *)

Section advancer.
Context (Principal : string).
Notation frees := (holds_well (fun h' _ => hold_of h' = Free)).

Lemma create_holds h i : hold_of h = Free -> is_mention (in_Body i) = false ->
  holds_well (fun h' (r : option string) => hold_of h' = Free /\ match r with Some item => made h' item | None => True end) h (create_item i).
Proof.
  intros Hh Hb. unfold create_item, resolve_refs. cbn [negb obeys pbind call]. split; [exact I|]. intros [[uid tm]|] _; cbn [pbind obeys call]; [|split; [hold_eq|done]].
  split; [cbn [hold_may in_Body]; rewrite hold_snoc; destruct (in_Body i); done|]. intros [item|] _; cbn [obeys pbind call]; [|split; [|done]].
  2: { rewrite !hold_snoc, Hh. done. }
  split; [exact I|]. intros marked _. split; [rewrite !hold_snoc, Hh; done|]. destruct marked; [|done].
  eexists. split; [apply elem_of_app; left; apply answered_last|done].
Qed.

Lemma close_holds h sess reason : hold_of h = Free -> frees h (close sess reason).
Proof. intros Hh. unfold close, CloseSession, update_then_get, GetPartySession. hold_walk. Qed.

Lemma MintRound_holds h id r : hold_of h = Free -> frees h (MintRound id r).
Proof. intros Hh. unfold MintRound, update_then_get, GetPartySession. hold_walk. Qed.

#[local] Arguments create_item : simpl never.
#[local] Arguments close : simpl never.
#[local] Arguments MintRound : simpl never.

Lemma request_holds h sess item coordinator : hold_of h = Free -> made h item -> frees h (request Principal sess item coordinator).
Proof. intros Hh Hm. unfold request. cbn [obeys call]. split; [by right|]. intros x _. by rewrite hold_snoc, Hh. Qed.

Lemma mintRound_holds h sess r : hold_of h = Free -> frees h (mintRound Principal sess r).
Proof.
  intros Hh. unfold mintRound. apply obeys_bind. eapply obeys_weaken; [by apply MintRound_holds|]. intros h1 [s|] _ H1; cbn [obeys pbind call]; [|done].
  split; [exact I|]. intros [[co|]|] _; cbn [obeys pbind]; [|hold_eq..]. apply obeys_bind.
  eapply obeys_weaken; [apply create_holds; [hold_eq|done]|]. intros h2 [item|] _ [H2 Hm]; [|done]. apply obeys_bind.
  eapply obeys_weaken; [by apply request_holds|]. by intros h3 b _ H3.
Qed.

Lemma mintTakeaways_holds h sess r reason : hold_of h = Free -> frees h (mintTakeaways Principal sess r reason).
Proof.
  intros Hh. unfold mintTakeaways. apply obeys_bind. eapply obeys_weaken; [by apply MintRound_holds|]. intros h1 [s|] _ H1; cbn [obeys pbind call]; [|done].
  split; [exact I|]. intros [[co|]|] _; [|apply close_holds; hold_eq..]. apply obeys_bind.
  eapply obeys_weaken; [apply create_holds; [hold_eq|done]|]. intros h2 [item|] _ [H2 Hm]; [|by apply close_holds]. apply obeys_bind.
  eapply obeys_weaken; [by apply request_holds|]. intros h3 b _ H3. by apply close_holds.
Qed.

Context (maxInFlight st : Z).

Lemma execute_holds h sess plan : hold_of h = Free -> frees h (execute Principal true maxInFlight st sess plan).
Proof.
  intros Hh. destruct plan as [|r|i|r reason|reason]; cbn [execute]; [done|by apply mintRound_holds| |by apply mintTakeaways_holds|by apply close_holds].
  unfold dispatchVoice. cbn [negb]. destruct (CurrentRoundMessageID sess); [|done]. destruct (i <? 0); [done|]. destruct (RoundVoices sess !! _); [|done].
  cbn [obeys pbind call]. split; [exact I|]. intros thread _. apply obeys_bind. eapply obeys_weaken; [apply dispatch_holds; hold_eq|]. by intros h1 b _ H1.
Qed.

Lemma session_holds h a b c sess : hold_of h = Free -> frees h (advanceSession Principal true maxInFlight st a b c sess).
Proof.
  intros Hh. unfold advanceSession. apply obeys_bind. eapply (obeys_weaken _ _ (fun h' _ => hold_of h' = Free)).
  - unfold read_and_charge, RoundVoiceSettlement, RecordPaidRuns, update_then_get, GetPartySession. hold_walk.
  - intros h1 [[s2 settle]|] _ H1; cbn [obeys pbind call]; [|done]. split; [exact I|]. intros t _. apply execute_holds. hold_eq.
Qed.

Lemma tick_holds SettleTO SeqSettleTO PostTO : holds_well (fun _ _ => True) [] (tick Principal SettleTO SeqSettleTO PostTO true maxInFlight st).
Proof.
  unfold tick. cbn [obeys pbind call app]. split; [exact I|]. intros [l|] _; [|done].
  assert (hold_of [Ev ActivePartySessions (Some l)] = Free) as Hh by done. revert Hh. generalize [Ev ActivePartySessions (Some l)].
  induction l as [|s l IH]; intros h Hh; cbn [advance_all]; [done|]. apply obeys_bind. eapply obeys_weaken; [by apply session_holds|].
  intros h1 [] _ H1. by apply IH.
Qed.
End advancer.

(** * The programs together *)

Lemma made_none t : made_ok t [].
Proof. intros item (w & Hin & _). by apply elem_of_nil in Hin. Qed.

Lemma cut_hist t h hs : all_kept t (h :: hs) -> all_kept t ([] :: hs).
Proof.
  intros [H1 H2 H3 H4].
  assert (forall i k, holds_turn ([] :: hs) i k -> holds_turn (h :: hs) i k) as Hh by (intros [|i] k (g & d & E & Hd & Hk); [injection E as <-; discriminate Hd|exists g, d; auto]).
  split; [done|done| |by intros i j k Hi%Hh Hj%Hh; eapply H4]. intros [|i] g E; [|by apply (H3 (S i))].
  simplify_eq/=. split; [done|apply made_none].
Qed.

Lemma more_hist t hs : all_kept t hs -> all_kept t (hs ++ [[]]).
Proof.
  intros [H1 H2 H3 H4].
  assert (forall i k, holds_turn (hs ++ [[]]) i k -> holds_turn hs i k) as Hh.
  { intros i k (g & d & [E|[_ E]]%lookup_app_Some & Hd & Hk); [exists g, d; auto|]. destruct (i - length hs)%nat; [injection E as <-|]; discriminate. }
  split; [done|done| |by intros i j k Hi%Hh Hj%Hh; eapply H4]. intros i g [E|[_ E]]%lookup_app_Some; [by eapply H3|].
  destruct (i - length hs)%nat; simplify_eq/=. split; [done|apply made_none].
Qed.

Lemma same_kept t t' hs : same_turns t t' -> all_kept t hs -> all_kept t' hs.
Proof.
  intros (E1 & E2 & E3) [H1 H2 H3 H4]. split; [| | |done].
  - intros item agent b. rewrite E2, E3. apply H1.
  - intros item d. unfold told, mention, bound_to. rewrite E1, E2, E3. apply H2.
  - intros i h Hi. destruct (H3 _ _ Hi) as [Ho Hm]. pose proof (same_gentle t t' E1 E2 E3) as Hg.
    split; [by eapply hold_gentle|by eapply made_gentle].
Qed.

Section system.
Context (maxInFlight st cap : Z) (Principal : string) (SettleTO SeqSettleTO PostTO : Z).

(** The advancer's history, and each post's. *)
Definition kept_ok (h : list (Event Call)) (w : World) : Prop :=
  exists hs, Forall2 (fun h p => holds_well (fun _ _ => True) h p.2) hs (posts w) /\ all_kept (tables w) (h :: hs).

Lemma kept_elsewhere h w w' : kept_ok h w -> elsewhere maxInFlight st cap w w' -> kept_ok h w'.
Proof.
  intros (hs & Hp & Hk) He.
  destruct He as [w t Ht|w item t|w run item Hn|w m edge project auth Hn|w l1 id X c k l2 x t' El Hx|w m project team b x t' Hx|w m x t' Hx];
    try (exists hs; split; [exact Hp|]; eapply same_kept; [|exact Hk]; done).
  - exists (hs ++ [[]]). split; [apply Forall2_app; [done|]; constructor; [apply post_holds|done]|].
    apply (more_hist _ (h :: hs)). eapply same_kept; [|exact Hk]. done.
  - rewrite El in Hp. apply Forall2_app_inv_r in Hp as (hs1 & hs' & H1 & H2 & ->). apply Forall2_cons_inv_r in H2 as (g & hs2 & [Hc Hnext] & H2 & ->).
    exists (hs1 ++ (g ++ [Ev c x]) :: hs2). split; [apply Forall2_app; [done|]; constructor; [by apply Hnext|done]|].
    assert ((h :: hs1 ++ g :: hs2) !! S (length hs1) = Some g) as Hg by (cbn; by apply list_lookup_middle).
    pose proof (turn_step _ _ _ _ _ _ _ _ Hg Hk Hc Hx) as Hk'. 
    change (all_kept t' (h :: <[length hs1 := g ++ [Ev c x]]> (hs1 ++ g :: hs2))) in Hk'.
    rewrite insert_app_r_alt, Nat.sub_diag in Hk' by done. exact Hk'.
  - exists hs. split; [exact Hp|]. eapply same_kept; [|exact Hk]. by apply (served_aside _ (StartSession m project team b) _ x).
  - exists hs. split; [exact Hp|]. eapply same_kept; [|exact Hk]. by apply (served_aside _ (ResetRoom m) _ x).
Qed.

Lemma debates_kept w0 s : fresh_room w0 -> debates maxInFlight st cap Principal SettleTO SeqSettleTO PostTO w0 s -> kept (tables s.1).
Proof.
  intros (_ & _ & _ & E & E') Hr.
  destruct (sys_invariant served (elsewhere maxInFlight st cap) (advancer_pass maxInFlight st Principal SettleTO SeqSettleTO PostTO)
              hold_may any_answer kept_ok w0 s) as (h & (hs & _ & Hk) & _); [| | | | |exact Hr|apply Hk].
  - intros p ->. apply tick_holds.
  - intros h w (hs & Hp & Hk). exists hs. split; [done|]. by eapply cut_hist.
  - intros h X c w x w' Hm (hs & Hp & Hk) [Hx Ep]. split; [|done]. exists hs. split; [by rewrite Ep|].
    by apply (turn_step (tables w) (tables w') (h :: hs) 0 h).
  - intros h w w' Hw He. by eapply kept_elsewhere.
  - exists []. rewrite E'. split; [constructor|]. split.
    + intros item agent b. rewrite E. by intros ?%elem_of_nil.
    + intros item d [ag Hin]. rewrite E in Hin. by apply elem_of_nil in Hin.
    + intros [|i] h Hi; simplify_eq/=. split; [done|apply made_none].
    + intros [|i] j k (h1 & d1 & E1 & Hd1 & _); [injection E1 as <-|]; discriminate.
Qed.
End system.
