(* ===== verification/DebateProps.v ===== *)
(** What the debate promises, drawn from the invariant of PartyProps: its budget, its
    turns one at a time, the plan that never succeeds, and the guardrails of a mention. *)
From S2P Require Import Prelude GoStr Calls Room Party PartyProps Dispatched.
Open Scope Z_scope.
Open Scope k8s_scope.

(** * Counting a session's voices *)

(** The keys the rows of a round's voices can have. *)
Definition turn_keys (ros : rosters) (rds : gmap (string * Z) string) (id : string) (r : Z) : list (string * string) :=
  (fun a => (default "" (rds !! (id, r)), a)) <$> turns ros id r.

Fixpoint keys_upto (ros : rosters) (rds : gmap (string * Z) string) (id : string) (n : nat) : list (string * string) :=
  match n with O => [] | S n => keys_upto ros rds id n ++ turn_keys ros rds id (Z.of_nat (S n)) end.

Lemma keys_spent ros rds id n : Z.of_nat (length (keys_upto ros rds id n)) = spent ros id (Z.of_nat n).
Proof.
  induction n as [|n IH]; [by rewrite spent_0|]. cbn [keys_upto]. rewrite length_app, Nat2Z.inj_add, IH.
  unfold turn_keys. rewrite length_fmap. replace (Z.of_nat (S n)) with (Z.of_nat n + 1) by lia. rewrite spent_next by lia. done.
Qed.

Lemma keys_in ros rds id n r k : 1 <= r <= Z.of_nat n -> k ∈ turn_keys ros rds id r -> k ∈ keys_upto ros rds id n.
Proof.
  intros Hr Hk. induction n as [|n IH]; [lia|]. cbn [keys_upto]. apply elem_of_app.
  destruct (Z.eq_dec r (Z.of_nat (S n))) as [->|]; [by right|left]. apply IH. lia.
Qed.

(** A map whose keys are in a list is no larger than the list. *)
Lemma size_by_keys `{Countable K} {A} (m : gmap K A) (l : list K) : (forall k, is_Some (m !! k) -> k ∈ l) -> Z.of_nat (size m) <= Z.of_nat (length l).
Proof.
  intros Hl. rewrite <- length_map_to_list, <- (length_fmap fst (map_to_list m)). apply inj_le, submseteq_length, NoDup_submseteq; [apply NoDup_fst_map_to_list|].
  intros k ([k' a] & -> & Hin%elem_of_map_to_list)%list_elem_of_fmap. apply Hl. cbn. by exists a.
Qed.

Lemma row_key ros t id r m a : sound ros t -> rounds t !! (id, r) = Some m -> is_Some (ledger t !! (m, a)) -> 1 <= r /\ (m, a) ∈ turn_keys ros (rounds t) id r.
Proof.
  intros Hs Hm Ha. destruct (sound_ledger _ _ Hs _ _ _ _ Hm Ha) as [Hr Hin]. split; [done|]. unfold turn_keys. rewrite Hm.
  apply list_elem_of_fmap. by exists a.
Qed.

Lemma spent_mono ros id n n' : n <= n' -> spent ros id n <= spent ros id n'.
Proof.
  intros Hn. unfold spent. replace (Z.to_nat n') with (Z.to_nat n + (Z.to_nat n' - Z.to_nat n))%nat by lia.
  rewrite seq_app, sum_list_with_app. lia.
Qed.

(** Each run that was told has a row of its own. *)
Definition told_runs (P : string -> bool) (t : Tables) : gmap string CreateWorkItemInput :=
  filter (fun ki => ~ negb (told_of t ki.1) = true) (voice_runs P t).

Lemma runs_split P t : size (voice_runs P t) = (size (lost_runs P t) + size (told_runs P t))%nat.
Proof.
  unfold lost_runs, told_runs. rewrite <- map_size_disj_union; [by rewrite map_filter_union_complement|]. apply map_disjoint_filter_complement.
Qed.

Definition turn_of_item (i : CreateWorkItemInput) : string * string := match in_Body i with MentionRun d => turn_of d | _ => ("", "") end.

Lemma told_run P t item i : kept t -> told_runs P t !! item = Some i ->
  exists d r, in_Body i = MentionRun d /\ P (d_MessageID d) = true /\ ledger t !! turn_of_item i = Some r /\ md_Item r = Some item.
Proof.
  intros Hk [[Hi [Hv _]%andb_true_iff]%map_lookup_filter_Some Ht]%map_lookup_filter_Some. cbn in *.
  unfold voice_for, turn_of_item in *. destruct (in_Body i) as [d| |] eqn:Eb; try done. apply not_true_iff_false, negb_false_iff in Ht.
  apply existsb_exists in Ht as ([[item' ag] tb] & Hin & [Ei Etb]%andb_true_iff). apply bool_decide_eq_true in Ei. cbn in Ei, Etb. subst item' tb.
  destruct (Hk item d) as (r & Hr & Er); [exists ag; by apply list_elem_of_In|by exists i|]. by exists d, r.
Qed.

Lemma told_by_keys P t l : kept t ->
  (forall d r, P (d_MessageID d) = true -> ledger t !! turn_of d = Some r -> turn_of d ∈ l) -> Z.of_nat (size (told_runs P t)) <= Z.of_nat (length l).
Proof.
  intros Hk Hl. rewrite <- length_map_to_list, <- (length_fmap (fun ki => turn_of_item ki.2)). apply inj_le, submseteq_length, NoDup_submseteq.
  - apply NoDup_fmap_2_strong; [|apply NoDup_map_to_list]. intros [k a] [k' a'] H1%elem_of_map_to_list H2%elem_of_map_to_list E. cbn in E.
    destruct (told_run _ _ _ _ Hk H1) as (d & r & _ & _ & Hr & Ei), (told_run _ _ _ _ Hk H2) as (d' & r' & _ & _ & Hr' & Ei').
    assert (k = k') as <- by congruence. f_equal. congruence.
  - intros k ([k' a] & -> & Hin%elem_of_map_to_list)%list_elem_of_fmap. cbn.
    destruct (told_run _ _ _ _ Hk Hin) as (d & r & Eb & HP & Hr & _). unfold turn_of_item in *. rewrite Eb in *. by eapply Hl.
Qed.

(** The told voices of all the rounds of a session, and those of one. *)
Lemma voices_spent ros t id s : sound ros t -> kept t -> sessions t !! id = Some s ->
  Z.of_nat (size (told_runs (round_message id t) t)) <= spent ros id (Round s).
Proof.
  intros Hs Hkp E. destruct (sound_rows _ _ Hs _ _ E) as (_ & _ & Hr & _).
  rewrite <- (Z2Nat.id (Round s)), <- (keys_spent ros (rounds t)) by lia. apply told_by_keys; [done|].
  intros d row ([id' r] & m' & Hm & <- & ->)%bool_decide_eq_true Hrow. cbn in *.
  destruct (sound_keys _ _ Hs _ _ _ Hm) as (s0 & E0 & Hle). simplify_eq.
  destruct (row_key _ _ _ _ _ (d_AgentName d) Hs Hm) as [H1 Hin]; [by eexists|]. eapply keys_in; [|exact Hin]. lia.
Qed.

Lemma round_spent ros t id r m s : sound ros t -> kept t -> rounds t !! (id, r) = Some m -> sessions t !! id = Some s ->
  Z.of_nat (size (told_runs (only m) t)) <= MaxVoicesPerRound (Budget s).
Proof.
  intros Hs Hkp Hm E. etrans; [apply (told_by_keys _ _ (turn_keys ros (rounds t) id r)); [done|]|].
  - intros d row <-%bool_decide_eq_true Hrow. eapply row_key; [done|done|]. by eexists.
  - unfold turn_keys, turns. rewrite length_fmap. destruct (ros !! (id, r)) as [l|] eqn:El; cbn.
    + destruct (sound_rosters _ _ Hs _ _ _ El) as (s' & E' & _ & Hl & _). by simplify_eq.
    + destruct (sound_rows _ _ Hs _ _ E) as (_ & Hb & _). unfold budget_ok, int4_positive in Hb. repeat (apply andb_true_iff in Hb as [Hb ?]).
      repeat match goal with H : _ && _ = true |- _ => apply andb_true_iff in H as [? ?] end. lia.
Qed.

(** A default debate that uses its three rounds of three voices ends on its ceiling. *)
Lemma full_debate_exhausted now s :
  Budget s = DefaultPartyBudget -> PaidRunsUsed s = 3 + 2 * 3 -> Phase (charged_row now 3 s) = PartyPhaseBudgetExhausted.
Proof. unfold charged_row. intros -> ->. done. Qed.

Section debate.
Context (maxInFlight st cap : Z) (Principal : string) (SettleTO SeqSettleTO PostTO : Z).
Notation debates := (debates maxInFlight st cap Principal SettleTO SeqSettleTO PostTO).
Notation turn_timeout := (turn_timeout SettleTO SeqSettleTO).

(** C29: A party debate keeps to the budget it was opened with, except for the runs whose
    dispatch was answered with an error although it had committed: whatever the posts,
    resets, concurrent sessions and advancer deaths, a session is never past its last
    round; its rounds and all the work items ever dispatched for its voices are together
    at most the paid-run budget and those lost dispatches; and no round has more of them
    than the voices one round may have and its lost ones. The turn of a lost dispatch is
    given up, so the voice is dispatched again and its budget is exceeded by as many. *)
Theorem debate_within_budget w0 s id row :
  fresh_room w0 -> debates w0 s -> sessions (tables s.1) !! id = Some row ->
  let runs P := Z.of_nat (size (voice_runs P (tables s.1))) in
  let lost P := Z.of_nat (size (lost_runs P (tables s.1))) in
  0 <= Round row <= MaxRounds (Budget row) /\
  Round row + runs (round_message id (tables s.1)) <= PaidRunBudget (Budget row) + lost (round_message id (tables s.1)) /\
  forall r m, rounds (tables s.1) !! (id, r) = Some m -> r <= Round row /\ runs (only m) <= MaxVoicesPerRound (Budget row) + lost (only m).
Proof.
  intros Hf Hr E runs lost. destruct (debates_ok _ _ _ _ _ _ _ _ _ Hf Hr) as (h & (ros & Hs & _) & _).
  pose proof (debates_kept _ _ _ _ _ _ _ _ _ Hf Hr) as Hk. subst runs lost. cbv beta.
  destruct (sound_rows _ _ Hs _ _ E) as (_ & _ & Hround & _ & _ & Hp). split; [done|]. split.
  - pose proof (voices_spent _ _ _ _ Hs Hk E). rewrite runs_split. lia.
  - intros r m Hm. destruct (sound_keys _ _ Hs _ _ _ Hm) as (s0 & E0 & Hle). simplify_eq. split; [done|]. rewrite runs_split.
    pose proof (round_spent _ _ _ _ _ _ Hs Hk Hm E). lia.
Qed.

(** C30: The voices of a debate speak one after another, except for a run whose dispatch
    was answered with an error although it had committed: whenever the advancer is about
    to claim a turn under a round's message, each turn the ledger has under it is over,
    and each work item ever dispatched for a voice under it, whose dispatcher was told
    so, has settled or its turn's time has run out. The turn of a dispatch that was not
    told is given up while its run may go on. *)
Theorem one_voice_at_a_time w0 w d k :
  fresh_room w0 -> debates w0 (w, Do (Claim d) k) ->
  (exists key, rounds (tables w) !! key = Some (d_MessageID d)) /\
  (forall a r, ledger (tables w) !! (d_MessageID d, a) = Some r -> turn_over turn_timeout (tables w) r) /\
  forall item i, voice_runs (only (d_MessageID d)) (tables w) !! item = Some i -> told_of (tables w) item = true ->
    is_Some (settled (tables w) !! item) \/
    exists r, ledger (tables w) !! turn_of_item i = Some r /\ md_Item r = Some item /\ timed_out turn_timeout (tables w) r = true.
Proof.
  intros Hf Hr. destruct (debates_ok _ _ _ _ _ _ _ _ _ Hf Hr) as (h & (ros & Hs & Ht & _) & [Hm _]). cbn in Hm.
  destruct Hm as [Hd|(s & Hsn & Em & _ & _ & Hn & e & He & Hse)]; [by destruct (told_agreed _ _ _ _ _ Ht)|].
  destruct (told_seen _ _ _ _ _ Ht _ Hsn) as (cur & _ & _ & _ & _ & Hk & _). destruct (Hk _ Em) as [Hk' _].
  assert (forall a r, ledger (tables w) !! (d_MessageID d, a) = Some r -> turn_over turn_timeout (tables w) r) as Hover
    by by eapply (told_turns _ _ _ _ _ Ht).
  split; [by eexists|]. split; [done|]. intros item i Hi Hto. assert (told_runs (only (d_MessageID d)) (tables w) !! item = Some i) as Hrun.
  { apply map_lookup_filter_Some. split; [done|]. cbn. by rewrite Hto. }
  destruct (told_run _ _ _ _ (debates_kept _ _ _ _ _ _ _ _ _ Hf Hr) Hrun) as (d' & r & Eb & HP%bool_decide_eq_true & Hrow & Ei).
  destruct (Hover (d_AgentName d') r) as [Hmark|Hout].
  - revert Hrow. unfold turn_of_item, turn_of. rewrite Eb. by rewrite HP.
  - left. unfold has_mark, mark_of in Hmark. rewrite Ei in Hmark. by apply bool_decide_eq_true in Hmark.
  - right. by exists r.
Qed.

(** The closing takeaways are planned with round 0 to begin from, and no session that
    has one to take away is there: no item for them is ever created. *)
Lemma takeaways_never_minted w0 w i k fr reason :
  fresh_room w0 -> debates w0 (w, Do (CreateWorkItem i) k) -> in_Body i <> TakeawaysDirective fr reason.
Proof.
  intros Hf Hr E. destruct (debates_ok _ _ _ _ _ _ _ _ _ Hf Hr) as (h & (ros & Hs & Ht & _) & [Hm _]). cbn in Hm. rewrite E in Hm.
  destruct Hm as (h1 & e & h2 & id & s & Eh & Hn & Hsn & Hid & H0). by apply H0, (told_first _ _ _ _ _ Ht h1 e h2 id).
Qed.
End debate.

Lemma takeaways_from_zero s settle t to r reason : PlanPartyTick s settle t to = PartyTickTakeaways r reason -> r = 0 /\ Round s <> 0.
Proof.
  unfold PlanPartyTick. intros H. repeat (case_match; try discriminate). simplify_eq. split; [done|]. by apply Z.eqb_neq.
Qed.

(** * Steps of a debate *)

Section steps.
Context (maxInFlight st cap : Z) (Principal : string) (SettleTO SeqSettleTO PostTO : Z) (w0 : World).
Notation debates := (debates maxInFlight st cap Principal SettleTO SeqSettleTO PostTO w0).

Lemma step_call w X (c : Call X) k x t' : debates (w, Do c k) -> serves X c (tables w) x t' -> debates ({| tables := t'; posts := posts w |}, k x).
Proof. intros Hr Hx. eapply rtc_r; [exact Hr|]. by apply sys_call. Qed.
Lemma step_pass w p : debates (w, p) -> debates (w, tick Principal SettleTO SeqSettleTO PostTO true maxInFlight st).
Proof. intros Hr. eapply rtc_r; [exact Hr|]. by apply sys_pass. Qed.
Lemma step_else w w' p : debates (w, p) -> elsewhere maxInFlight st cap w w' -> debates (w', p).
Proof. intros Hr Hx. eapply rtc_r; [exact Hr|]. by apply sys_elsewhere. Qed.

(** The advancer reads the one session that is active. *)
Lemma step_active w k l : active_rows (tables w) = l -> (length l <= 1)%nat ->
  debates (w, Do ActivePartySessions k) -> debates (w, k (Some l)).
Proof.
  intros E Hl Hr. destruct w as [t ps]. apply (step_call _ _ _ _ (Some l) t) in Hr; [done|]. split; [done|]. split; [by rewrite E|].
  destruct l as [|s [|s' l]]; cbn in *; [constructor|repeat constructor|lia].
Qed.
End steps.

(** * A debate begun *)

Module Begun.
Definition m0 : Message := new_message "th" None {| auth_Principal := "pat"; auth_TeamID := "tm"; auth_AgentID := None; auth_RunID := None; auth_IsAdmin := false |}
  "what now?" "party" "party_start" None.
Definition fac : Message := as_row (new_message "th" None {| auth_Principal := "lead"; auth_TeamID := "tm"; auth_AgentID := Some "lead"; auth_RunID := None; auth_IsAdmin := false |}
  "@ada then @bob" "party" "text" None) "m1" 0.
Definition fac_auth : AuthorContext :=
  {| auth_Principal := "lead"; auth_TeamID := "tm"; auth_AgentID := Some "lead"; auth_RunID := None; auth_IsAdmin := false |}.
Definition roster : list TeamAgent :=
  [{| ta_Name := "ada"; ta_Status := "idle"; ta_Coordinator := false |}; {| ta_Name := "bob"; ta_Status := "idle"; ta_Coordinator := false |}].

Definition t0 : Tables := {| now := 0; ledger := ∅; settled := ∅; sessions := ∅; rounds := ∅; messages := ∅; threads := {["th" := ("p", "tm")]};
  claims := ∅; items := ∅; requests := [] |}.
Definition budget : PartyBudget := {| MaxRounds := 1; MaxVoicesPerRound := 3; PaidRunBudget := 5 |}.
(** The session opens, its first round begins, the facilitator posts and its roster is
    recorded. *)
Definition t1 : Tables := set_sessions (<["s" := opened_row "s" "th" "p" "tm" "pat" "m0" budget 0]>) (add_message (as_row m0 "m0" 0) t0).
Definition t2 : Tables := (next_stmt "s" 0 t1).2.
Definition t3 : Tables := add_message fac t2.
Definition t4 : Tables := (stamp_stmt "s" 1 "m1" ["ada"; "bob"] t3).2.
Definition row4 : PartySession := default (opened_row "" "" "" "" "" "" budget 0) (sessions t4 !! "s").
Definition turn (voice : string) : MentionDispatch := dispatch_of "" row4 "m1" voice [].

Definition w0 : World := {| tables := t0; posts := [] |}.
Definition debates : World * Prog unit -> Prop := Party.debates 4 0 4 "" 0 0 0 w0.

Lemma fresh : fresh_room w0.
Proof. done. Qed.

Lemma opened : debates ({| tables := t1; posts := [] |}, Ret tt).
Proof.
  eapply step_else; [apply rtc_refl|]. apply (session_starts _ _ _ w0 m0 "p" "tm" budget
    (Some (Some (as_row m0 "m0" 0, opened_row "s" "th" "p" "tm" "pat" "m0" budget 0))) t1).
  exists "m0", "s". split_and!; try done. split_and!; try done. intros s (H & _). cbn in H. by rewrite lookup_empty in H.
Qed.

Lemma begun : exists p, debates ({| tables := t2; posts := [] |}, p).
Proof.
  pose proof (step_pass _ _ _ _ _ _ _ _ _ _ opened) as H.
  apply (step_active _ _ _ _ _ _ _ _ _ _ _ eq_refl) in H; [|vm_compute; lia].
  eapply (step_call _ _ _ _ _ _ _ _ _ _ _ _ 0 t1) in H; [|done].
  eapply (step_call _ _ _ _ _ _ _ _ _ _ _ _ (Some true) t2) in H; [|by left].
  eexists. exact H.
Qed.

Definition hook : Prog unit := dispatchMentions 4 0 true 4 (ToolEdge true) "p" fac_auth fac.

Lemma posted : exists p q, debates ({| tables := t4; posts := [("m1", q)] |}, p).
Proof.
  destruct begun as [p H]. exists p.
  eapply step_else in H; [|by apply (post_commits _ _ _ _ fac (ToolEdge true) "p" fac_auth)].
  eapply step_else in H; [|eapply (post_goes _ _ _ _ [] "m1" _ _ _ [] (Some roster) t3); [reflexivity|done]].
  eapply step_else in H; [|eapply (post_goes _ _ _ _ [] "m1" _ _ _ [] (Some (sessions t3 !! "s")) t3); [reflexivity|done]].
  eapply step_else in H; [|eapply (post_goes _ _ _ _ [] "m1" _ _ _ [] (Some true) t4); [reflexivity|by left]].
  eexists. exact H.
Qed.

(** The item of a turn, and what is left of a dispatch that commits, its dispatcher told
    so or not. *)
Definition input (voice : string) : CreateWorkItemInput :=
  {| in_ProjectID := "p"; in_TeamID := "tm"; in_Title := mentionRunTitle (turn voice); in_Body := MentionRun (turn voice); in_Principal := dispatchPrincipal |}.
Definition asked (voice item : string) (told : bool) (t : Tables) : Tables :=
  let t' := add_request item voice told (bind_stmt "m1" voice item (add_item item (input voice) (claim_row (turn voice) t).2)) in
  if told then t' else release_stmt "m1" voice t'.

(** The first turn is about to be claimed, and is dispatched. *)
Lemma first_turn t q p :
  debates ({| tables := t; posts := q |}, p) -> active_rows t = [row4] -> settlement "m1" (300 * 10 ^ 9) t = (0, 0, 0) ->
  count_in_flight "th" (staleness 0) t = 0 -> ledger t = ∅ ->
  exists k, debates ({| tables := t; posts := q |}, Do (Claim (turn "ada")) k) /\
    forall item told, items t !! item = None -> exists p', debates ({| tables := asked "ada" item told t; posts := q |}, p').
Proof.
  intros H Er Ese En El. apply step_pass in H. eexists.
  apply (step_active 4 0 4 "" 0 0 0 w0 {| tables := t; posts := q |} _ _ Er) in H; [|cbn; lia].
  eapply (step_call _ _ _ _ _ _ _ _ _ _ _ _ (Some (0, 0, 0)) t) in H; [|split; [done|exact (eq_sym Ese)]].
  eapply (step_call _ _ _ _ _ _ _ _ _ _ _ _ (now t) t) in H; [|done].
  eapply (step_call _ _ _ _ _ _ _ _ _ _ _ _ None t) in H; [|done].
  eapply (step_call _ _ _ _ _ _ _ _ _ _ _ _ (Some 0) t) in H; [|by split].
  split; [exact H|]. intros item told Hi. set (t1 := (claim_row (turn "ada") t).2).
  assert ((claim_row (turn "ada") t).1 = true /\ items t1 = items t) as [Hhit Ei] by (subst t1; unfold claim_row; by rewrite El, lookup_empty).
  eapply (step_call _ _ _ _ _ _ _ _ _ _ _ _ (Some true) t1) in H; [|left; split; [exact (f_equal Some (eq_sym Hhit))|done]].
  eapply (step_call _ _ _ _ _ _ _ _ _ _ _ _ (Some ("p", "tm")) t1) in H; [|done].
  eapply (step_call _ _ _ _ _ _ _ _ _ _ _ _ (Some item) (add_item item (input "ada") t1)) in H; [|split; [cbn; by rewrite Ei|done]].
  eapply (step_call _ _ _ _ _ _ _ _ _ _ _ _ true (add_item item (input "ada") t1)) in H; [|done].
  eapply (step_call _ _ _ _ _ _ _ _ _ _ _ _ true (bind_stmt "m1" "ada" item (add_item item (input "ada") t1))) in H; [|by left].
  eapply (step_call _ _ _ _ _ _ _ _ _ _ _ _ told (add_request item "ada" told (bind_stmt "m1" "ada" item (add_item item (input "ada") t1)))) in H; [|by left].
  destruct told; [eexists; exact H|].
  eapply (step_call _ _ _ _ _ _ _ _ _ _ _ _ tt (asked "ada" item false t)) in H; [|by right]. eexists. exact H.
Qed.
(** One dispatch is lost, the next is told; its time runs out and the second turn is
    claimed. *)
Definition t5 : Tables := asked "ada" "i1" false t4.
Definition t6 : Tables := passes_time (400 * 10 ^ 9) (asked "ada" "i2" true t5).

Lemma lost_turn : exists q k, debates ({| tables := t5; posts := q |}, Do (Claim (turn "ada")) k) /\
  forall item told, items t5 !! item = None -> exists p', debates ({| tables := asked "ada" item told t5; posts := q |}, p').
Proof.
  destruct posted as (p & q & H). destruct (first_turn t4 _ p H) as (k & _ & Hall); [vm_compute; reflexivity..|].
  destruct (Hall "i1" false) as [p1 H1]; [vm_compute; reflexivity|]. eexists. apply (first_turn t5 _ p1 H1); vm_compute; reflexivity.
Qed.

Lemma second_turn : exists q k, debates ({| tables := t6; posts := q |}, Do (Claim (turn "bob")) k).
Proof.
  destruct lost_turn as (q & _ & _ & Hall). destruct (Hall "i2" true) as [p H]; [vm_compute; reflexivity|]. eexists.
  eapply step_else in H; [|apply (time_passes _ _ _ _ (400 * 10 ^ 9)); vm_compute; discriminate].
  apply step_pass in H.
  apply (step_active _ _ _ _ _ _ _ _ _ _ _ eq_refl) in H; [|vm_compute; lia].
  eapply (step_call _ _ _ _ _ _ _ _ _ _ _ _ (Some (1, 0, 1)) t6) in H; [|split; [done|vm_compute; reflexivity]].
  eapply (step_call _ _ _ _ _ _ _ _ _ _ _ _ (400 * 10 ^ 9) t6) in H; [|done].
  eapply (step_call _ _ _ _ _ _ _ _ _ _ _ _ None t6) in H; [|done].
  eapply (step_call _ _ _ _ _ _ _ _ _ _ _ _ (Some 1) t6) in H; [|split; [done|vm_compute; reflexivity]].
  eexists. exact H.
Qed.

(** The run of the lost dispatch goes on, and its voice is about to be claimed again. *)
Lemma two_at_once : exists w k, debates (w, Do (Claim (turn "ada")) k) /\ dispatched (tables w) "i1" = true /\
  voice_runs (only "m1") (tables w) !! "i1" = Some (input "ada") /\ settled (tables w) !! "i1" = None /\ now (tables w) = 0.
Proof.
  destruct lost_turn as (q & k & H & _). eexists _, k. split; [exact H|]. repeat split; vm_compute; reflexivity.
Qed.

Ltac lose item :=
  match goal with H : debates ({| tables := ?t |}, ?p) |- _ =>
    let Hall := fresh in let p' := fresh in
    destruct (first_turn t _ p H) as (_ & _ & Hall); [vm_compute; reflexivity..|]; clear H;
    destruct (Hall item false) as [p' H]; [vm_compute; reflexivity|]; clear Hall
  end.

(** Five lost dispatches and the round itself are more than a budget of five. *)
Lemma lost_runs_overspend : exists s row, debates s /\ sessions (tables s.1) !! "s" = Some row /\
  PaidRunBudget (Budget row) < Round row + Z.of_nat (size (voice_runs (round_message "s" (tables s.1)) (tables s.1))).
Proof.
  destruct posted as (p & q & H). lose "i1". lose "i2". lose "i3". lose "i4". lose "i5".
  eexists _, row4. split; [exact H|]. split; vm_compute; reflexivity.
Qed.

(** Both turns have run out; the takeaways that are planned begin no round; each tick
    charges the two turns again. *)
Definition t7 : Tables := passes_time (800 * 10 ^ 9) (claim_row (turn "bob") t6).2.
Definition t8 : Tables := (charge_stmt "s" 2 t7).2.
Definition t9 : Tables := (charge_stmt "s" 2 t8).2.

(** One tick over the round whose turns have run out, from [t] to [t']. *)
Lemma idle_tick t t' q p r : debates ({| tables := t; posts := q |}, p) -> charge_stmt "s" 2 t = (true, t') ->
  active_rows t = [r] -> settlement "m1" (300 * 10 ^ 9) t = (2, 0, 2) ->
  ps_ID r = "s" -> CurrentRoundMessageID r = Some "m1" -> RoundVoices r = ["ada"; "bob"] ->
  exists p', debates ({| tables := t'; posts := q |}, p').
Proof.
  intros H Ec Er Ese Hid Hm Hv. apply step_pass in H.
  apply (step_active 4 0 4 "" 0 0 0 w0 {| tables := t; posts := q |} _ _ Er) in H; [|cbn; lia].
  destruct r as [rid rth rpr rtm rby rto rround rb rused rphase rop rcl rmsg rst rv]. cbn in Hid, Hm, Hv. subst rid rmsg rv.
  eapply (step_call _ _ _ _ _ _ _ _ _ _ _ _ (Some (2, 0, 2)) t) in H; [|split; [done|exact (eq_sym Ese)]].
  eapply (step_call _ _ _ _ _ _ _ _ _ _ _ _ (Some true) t') in H; [|left; change (Some true = Some (charge_stmt "s" 2 t).1 /\ t' = (charge_stmt "s" 2 t).2); by rewrite Ec].
  eexists. exact H.
Qed.

Lemma charged_again : exists s row, debates s /\ sessions (tables s.1) !! "s" = Some row /\ Round row = 1 /\ length (RoundVoices row) = 2%nat /\ PaidRunsUsed row = 5.
Proof.
  destruct second_turn as (q & k & H). eapply (step_call _ _ _ _ _ _ _ _ _ _ _ _ (Some true) (claim_row (turn "bob") t6).2) in H; [|by left].
  eapply step_else in H; [|apply (time_passes _ _ _ _ (800 * 10 ^ 9)); vm_compute; discriminate].
  destruct (idle_tick t7 t8 q _ row4 H) as [p1 H1]; [vm_compute; reflexivity..|].
  destruct (idle_tick t8 t9 q _ (charged_row (now t7) 2 row4) H1) as [p2 H2]; [vm_compute; reflexivity..|].
  eexists _, _. split; [exact H2|]. split; [vm_compute; reflexivity|]. vm_compute. done.
Qed.
End Begun.

Lemma debate_within_budget_witness :
  exists s : World * Prog unit,
    size (voice_runs (round_message "s" (tables s.1)) (tables s.1)) = 2%nat /\ size (lost_runs (round_message "s" (tables s.1)) (tables s.1)) = 1%nat /\
    0 <= 1 <= 1 /\
    1 + Z.of_nat (size (voice_runs (round_message "s" (tables s.1)) (tables s.1))) <= 5 + Z.of_nat (size (lost_runs (round_message "s" (tables s.1)) (tables s.1))).
Proof.
  destruct Begun.second_turn as (q & k & H). exists ({| tables := Begun.t6; posts := q |}, Do (Claim (Begun.turn "bob")) k).
  split; [vm_compute; reflexivity|]. split; [vm_compute; reflexivity|].
  destruct (debate_within_budget 4 0 4 "" 0 0 0 Begun.w0 _ "s" Begun.row4 Begun.fresh H) as (H1 & H2 & _); [vm_compute; reflexivity|].
  split; [exact H1|exact H2].
Defined.

Lemma one_voice_at_a_time_witness :
  is_Some (settled Begun.t6 !! "i2") \/
  exists r, ledger Begun.t6 !! ("m1", "ada") = Some r /\ md_Item r = Some "i2" /\ timed_out (PartyProps.turn_timeout 0 0) Begun.t6 r = true.
Proof.
  destruct Begun.second_turn as (q & k & H).
  destruct (one_voice_at_a_time 4 0 4 "" 0 0 0 Begun.w0 _ _ k Begun.fresh H) as (_ & _ & Hover).
  apply (Hover "i2" (Begun.input "ada")); vm_compute; reflexivity.
Defined.

(** * The bound on a room's runs *)

(** Two posts of one room, each with its mention. *)
Module Overrun.
Definition by_pat : AuthorContext := {| auth_Principal := "pat"; auth_TeamID := "tm"; auth_AgentID := None; auth_RunID := None; auth_IsAdmin := false |}.
Definition ask (id : string) : Message := as_row (new_message "th" None by_pat "@ada please" "party" "text" None) id 0.
Definition handler (id : string) : Prog unit := dispatchMentions 1 0 true 4 (ToolEdge false) "p" by_pat (ask id).
Definition mention (id : string) : MentionDispatch := addressed "p" by_pat (ask id) (target "ada" 1).
Definition t1 : Tables := add_message (ask "m2") (add_message (ask "m1") Begun.t0).
Definition t2 : Tables := (claim_row (mention "m1") t1).2.
Definition t3 : Tables := (claim_row (mention "m2") t2).2.

(** Both count the room's runs before either claims: the bound of one is passed. *)
Lemma cap_overrun : exists s, Party.debates 1 0 4 "" 0 0 0 Begun.w0 s /\ count_in_flight "th" (staleness 0) (tables s.1) = 2.
Proof.
  assert (Party.debates 1 0 4 "" 0 0 0 Begun.w0 (Begun.w0, Ret tt)) as H by apply rtc_refl.
  eapply step_else in H; [|by apply (post_commits _ _ _ _ (ask "m1") (ToolEdge false) "p" by_pat)].
  eapply step_else in H; [|by apply (post_commits _ _ _ _ (ask "m2") (ToolEdge false) "p" by_pat)].
  eapply step_else in H; [|eapply (post_goes _ _ _ _ [] "m1" _ _ _ _ (Some Begun.roster) t1); [reflexivity|done]].
  eapply step_else in H; [|eapply (post_goes _ _ _ _ [] "m1" _ _ _ _ (Some 0) t1); [reflexivity|by split]].
  eapply step_else in H; [|eapply (post_goes _ _ _ _ [_] "m2" _ _ _ [] (Some Begun.roster) t1); [reflexivity|done]].
  eapply step_else in H; [|eapply (post_goes _ _ _ _ [_] "m2" _ _ _ [] (Some 0) t1); [reflexivity|by split]].
  eapply step_else in H; [|eapply (post_goes _ _ _ _ [] "m1" _ _ _ _ (Some true) t2); [reflexivity|by left]].
  eapply step_else in H; [|eapply (post_goes _ _ _ _ [_] "m2" _ _ _ [] (Some true) t3); [reflexivity|by left]].
  eexists. split; [exact H|]. vm_compute. reflexivity.
Qed.
End Overrun.

(** * A chain of replies *)

Definition no_claim (_ : list (Event Call)) X (c : Call X) : Prop := match c with Claim _ => False | _ => True end.
(** The ledger knows the run and the hop it was dispatched at. *)
Definition hop_known (hop : Z) X (c : Call X) : X -> Prop :=
  match c in Call X return X -> Prop with HopForDispatchedRun _ => fun x => x = Some (Some hop) | _ => fun _ => True end.

(** No key of the payload but "_dispatch" itself is read as it. *)
Definition one_dispatch_key (payload : option json) : bool :=
  match payload with
  | Some (JObj m) => forallb (fun kv => negb (same_field dispatchPayloadKey kv.1) || bool_decide (kv.1 = dispatchPayloadKey)) m
  | _ => true
  end.

(** A document stamped with the hop, with no other key read as the stamp. *)
Definition carries (hop : Z) (payload : option json) : Prop :=
  exists M, payload = Some (object M) /\ sole_spelling dispatchPayloadKey M /\ M !! dispatchPayloadKey = Some (hop_meta hop).

Lemma members_sole m : one_dispatch_key (Some (JObj m)) = true -> sole_spelling dispatchPayloadKey (members m).
Proof.
  intros H k [v Hv] Hk. apply elem_of_list_to_map_2, elem_of_reverse, list_elem_of_In in Hv. rewrite ?reverse_involutive in Hv. pose proof (proj1 (forallb_forall _ _) H _ Hv) as Hkv.
  cbn in Hkv. rewrite Hk in Hkv. by apply bool_decide_eq_true in Hkv.
Qed.

Lemma stamp_carries payload hop p : one_dispatch_key payload = true -> StampDispatchHop payload hop = Some p -> carries hop (Some p).
Proof.
  assert (forall M, sole_spelling dispatchPayloadKey M -> carries hop (Some (object (<[dispatchPayloadKey := hop_meta hop]> M)))) as Hgo.
  { intros M HM. eexists. split; [done|]. split; [by apply sole_insert|apply lookup_insert_eq]. }
  assert (sole_spelling dispatchPayloadKey ∅) as He by (intros k [v Hv]; by rewrite lookup_empty in Hv).
  unfold StampDispatchHop. intros Ho. destruct payload as [[]|]; cbn [merge_key]; intros [= <-]; first [by apply (Hgo ∅)|by apply Hgo, members_sole].
Qed.

Lemma references_carry hop payload refs p : carries hop payload -> StampReferences payload refs = Some p -> carries hop p.
Proof.
  intros (M & -> & Hs & HM). unfold StampReferences. destruct refs as [|r refs]; [intros [= <-]; by exists M|]. rewrite merge_merge. intros [= <-].
  eexists. split; [done|]. split; [apply sole_insert; [done|by intros [=]%bool_decide_eq_true]|by rewrite lookup_insert_ne].
Qed.

Lemma carries_hop hop payload : 0 <= hop < 2 ^ 31 -> carries hop payload -> DispatchHopOf payload = hop.
Proof.
  intros Hh (M & -> & Hs & HM). unfold DispatchHopOf. cbn [mbind option_bind]. unfold decode_hop. rewrite (decode_sole _ _ _ M _ Hs HM).
  assert (decode_field "hopDepth" decode_int 0 (hop_meta hop) = Some hop) as ->.
  { unfold hop_meta, json_int. destruct (Z.ltb_spec hop 0); [lia|]. cbn. rewrite atoi_itoa by lia. done. }
  destruct (Z.ltb_spec hop 0); [lia|done].
Qed.

Lemma past_the_hops cap msg roster : is_Some (msg_AuthorAgentID msg) -> 2 <= DispatchHopOf (msg_Payload msg) < 2 ^ 31 ->
  resolveMentionTargets cap msg roster = ([], 0%nat, false).
Proof.
  intros [a Ha] Hh. unfold resolveMentionTargets, hop_of. rewrite Ha, wrap64_id by (unfold int64; lia).
  destruct (Z.ltb_spec maxMentionHopDepth (DispatchHopOf (msg_Payload msg) + 1)) as [_|H]; [done|]. unfold maxMentionHopDepth in H. lia.
Qed.

Lemma hook_claims_nothing hop h auth m roster coordinator :
  obeys no_claim (hop_known hop) (fun _ _ => True) h (DispatchPartyMentionsFrom true auth m roster coordinator).
Proof. unfold DispatchPartyMentionsFrom, SetRoundFacilitatorMessage, GetPartySession. free_walk. Qed.

Lemma route_claims_nothing hop h project auth m roster :
  obeys no_claim (hop_known hop) (fun _ _ => True) h (routeBarePartyToFacilitator project auth m roster).
Proof. unfold routeBarePartyToFacilitator, OpenPartySessionForMessage. free_walk. Qed.

Lemma refs_keep_hop hop h uuid_ok project auth refs p : carries hop p ->
  obeys no_claim (hop_known hop) (fun _ (r : result string (option json)) => match r with Ok p' => carries hop p' | Err _ => True end) h
    (StampTicketRefsFrom true uuid_ok project auth refs p).
Proof.
  intros Hp. unfold StampTicketRefsFrom. cbn [negb]. destruct (normalizeTicketRefs uuid_ok [] refs); [done|]. cbn. split; [done|].
  intros [l'|] _; cbn; [|done]. destruct (StampReferences p l') eqn:E; cbn; [by eapply references_carry|done].
Qed.

Lemma row_keeps_payload hop h project team thread auth body parent audience kind p :
  obeys no_claim (hop_known hop) (fun _ r => match r with Ok m => msg_Payload m = p /\ msg_AuthorAgentID m = auth_AgentID auth | Err _ => True end) h
    (PostMessage project team thread auth body parent audience kind p).
Proof. unfold PostMessage. free_walk; by simplify_eq. Qed.

(** C32: A chain of replies ends. Whatever an agent's run posts, by the discussion_post
    tool or over REST with a payload in which no other key than "_dispatch" folds to it
    in case, and whatever hop that payload claims, if the ledger knows the run as
    dispatched two hops from a human or more, then the post claims no turn: it
    dispatches nobody. A payload with another such key, as "_Dispatch", escapes the stamp. *)
Theorem reply_chain_ends maxInFlight st refs cap edge uuid_ok project team thread auth agent run body parent audience kind references payload hop :
  auth_AgentID auth = Some agent -> auth_RunID auth = Some run -> TrimSpace run <> "" -> 2 <= hop < 2 ^ 31 ->
  (edge = RestEdge -> one_dispatch_key payload = true) ->
  obeys no_claim (hop_known hop) (fun _ _ => True) []
    (post maxInFlight st refs cap edge uuid_ok project team thread auth body parent audience kind references payload).
Proof.
  intros Ha Hr Hne Hhop Hkey. unfold post.
  set (inputs := match edge with RestEdge => _ | ToolEdge _ => _ end).
  assert (one_dispatch_key inputs.2 = true) as Hin by (subst inputs; destruct edge; [|done]; specialize (Hkey eq_refl); by destruct payload as [[]|]).
  destruct inputs as [[audience' kind'] payload']. cbn in Hin. apply obeys_bind.
  apply (obeys_weaken _ _ (fun _ (r : result string (option json)) => match r with Ok p => carries hop p | Err _ => True end)).
  { unfold StampReplyHopFrom. rewrite Ha, Hr. rewrite bool_decide_eq_false_2 by done. cbn [obeys pbind call]. split; [done|]. intros x ->. cbn.
    destruct (StampDispatchHop payload' hop) eqn:E; [by eapply stamp_carries|done]. }
  intros h1 [p|e] _ Hp; [|done]. apply obeys_bind. eapply obeys_weaken; [by apply refs_keep_hop|]. intros h2 [p2|e] _ Hp2; [|done].
  apply obeys_bind. eapply obeys_weaken; [apply row_keeps_payload|]. intros h3 [m|e] _ Hm; [destruct Hm as [Em Eagent]|done]. lazy beta iota.
  apply obeys_bind. apply (obeys_weaken _ _ (fun _ _ => True)); [|done].
  unfold dispatchMentions. cbn [pbind call]. split; [done|]. intros [roster|] _; [|done]. lazy beta iota.
  apply obeys_bind. eapply obeys_weaken; [apply hook_claims_nothing|]. intros h4 [] _ _; [done|].
  apply obeys_bind. apply (obeys_weaken _ _ (fun _ _ => True)); [destruct edge; [apply route_claims_nothing|done]|]. intros h5 [] _ _; [done|].
  unfold DispatchMentionsFrom. rewrite past_the_hops; [done|by rewrite Eagent, Ha|]. rewrite Em, (carries_hop hop) by (done || lia). lia.
Qed.

(** A run of the agent ada. *)
Definition ada_auth : AuthorContext := {| auth_Principal := "ada"; auth_TeamID := "tm"; auth_AgentID := Some "ada"; auth_RunID := Some "r1"; auth_IsAdmin := false |}.
Definition ada_posts (payload : json) : Prog (result string Message) :=
  post 4 0 true 4 RestEdge (fun _ => true) "p" "tm" "th" ada_auth "@bob again" None None None [] (Some payload).

Lemma reply_chain_ends_witness :
  obeys no_claim (hop_known 2) (fun _ _ => True) [] (ada_posts (JObj [("_dispatch", hop_meta 0); ("note", JStr "again")])).
Proof. apply (reply_chain_ends 4 0 true 4 RestEdge _ "p" "tm" "th" ada_auth "ada" "r1"); [reflexivity|reflexivity|vm_compute; discriminate|lia|reflexivity]. Defined.

(** Whether a turn is claimed, each call answered by [oracle]. *)
Fixpoint claims_a_turn {A} (oracle : forall X, Call X -> X) (p : Prog A) : bool :=
  match p with
  | Ret _ => false
  | @Do _ _ X c k => match c with Claim _ => true | _ => claims_a_turn oracle (k (oracle X c)) end
  end.

Lemma no_claim_run {A} hop oracle (p : Prog A) : (forall X c, hop_known hop X c (oracle X c)) ->
  forall h, obeys no_claim (hop_known hop) (fun _ _ => True) h p -> claims_a_turn oracle p = false.
Proof.
  intros Ho. induction p as [a|X c k IH]; intros h H; [done|]. destruct H as [Hc Hk]. specialize (IH (oracle X c) _ (Hk _ (Ho X c))).
  cbn. by destruct c.
Qed.

(** The ledger's hop is 2, the room has bob, nothing is in flight. *)
Definition answers_of X (c : Call X) : X :=
  match c in Call X return X with
  | CountInFlight _ _ => Some 0
  | Claim _ => None
  | Bind _ _ _ => false
  | Release _ _ => tt
  | HopForDispatchedRun _ => Some (Some 2)
  | ResolveProject _ => None
  | CreateWorkItem _ => None
  | MarkSource _ => false
  | RequestDispatch _ _ _ _ _ => false
  | ThreadInScope _ _ _ => Ok tt
  | ThreadOfMessage _ => None
  | InsertMessage _ => Some ("m9", 0)
  | Roster _ _ => Some Begun.roster
  | ResolveTicketRefs _ _ _ => None
  | GetThread _ _ _ => None
  | ActiveSession _ => None
  | ActivePartySessions => None
  | GetSession _ => None
  | SettlementOf _ _ => None
  | ChargeRuns _ _ => None
  | NextRound _ _ => None
  | EndSession _ _ => None
  | StampRound _ _ _ _ => None
  | StartSession _ _ _ _ => None
  | OpenSession _ _ _ _ _ => None
  | ResetRoom _ => None
  | CoordinatorForTeam _ => None
  | Now => 0
  end.

(** The same post with the key spelled otherwise is stamped, read as 0 hops, and claims a
    turn. *)
Lemma alias_escapes_stamp : ~ obeys no_claim (hop_known 2) (fun _ _ => True) [] (ada_posts (JObj [("_Dispatch", JNum "0")])).
Proof. intros H. apply (no_claim_run 2 answers_of) in H; [vm_compute in H; discriminate H|]. by intros X []. Qed.
