(* ===== verification/Thread.v ===== *)
(** The thread of a discussion room: its messages nested under those they reply to
    (src/internal/discussion/store.go), and how the advancer flattens them again. *)
From S2P Require Import Prelude Room Party.

(** * The tree *)

Definition ids (all : list Message) : list string := msg_ID <$> all.
Definition byID (all : list Message) : gmap string Message := foldl (fun m x => <[msg_ID x := x]> m) ∅ all.

(** A root, or a reply whose parent is not among them. *)
Definition is_root (all : list Message) (m : Message) : bool :=
  match msg_ParentID m with Some p => negb (bool_decide (p ∈ ids all)) | None => true end.
Definition rootOrder (all : list Message) : list string := ids (filter (fun m => is_root all m = true) all).
Definition children (all : list Message) (id : string) : list string := ids (filter (fun m => msg_ParentID m = Some id) all).

(** What a map gives for a key it lacks; [build] is only asked for ids it has. *)
Definition zero_message : Message :=
  {| msg_ID := ""; msg_ThreadID := ""; msg_ParentID := None; msg_AuthorPrincipal := ""; msg_AuthorAgentID := None; msg_AuthorRunID := None;
     msg_Body := ""; msg_Audience := ""; msg_Kind := ""; msg_Payload := None; msg_CreatedAt := 0%Z; msg_InvalidatedAt := None |}.

(** [fuel] bounds the depth. *)
Fixpoint build (all : list Message) (fuel : nat) (id : string) : MessageTree :=
  Node (default zero_message (byID all !! id)) (match fuel with O => [] | S fuel => build all fuel <$> children all id end).

Definition buildThreadTree (all : list Message) : list MessageTree := build all (length all) <$> rootOrder all.

(** * It holds every message once *)

Fixpoint messages_of (t : MessageTree) : list Message := match t with Node m rs => m :: concat (messages_of <$> rs) end.

Lemma flatten_queue_all fuel : forall q, (list_sum (tree_size <$> q) <= fuel)%nat -> flatten_queue fuel q ≡ₚ concat (messages_of <$> q).
Proof.
  induction fuel as [|fuel IH]; intros [|[m rs] q] Hf; [done| |done|].
  - cbn in Hf. lia.
  - assert (list_sum (tree_size <$> q ++ rs) <= fuel)%nat as Hf' by (rewrite fmap_app, list_sum_app; cbn in Hf; unfold list_sum in *; lia).
    cbn [flatten_queue]. rewrite (IH _ Hf'), fmap_app, concat_app. cbn. constructor. by rewrite Permutation_app_comm.
Qed.

(** However deep the replies are, the flattened thread has them all. *)
Lemma flatten_all msgs : flattenMessages msgs ≡ₚ concat (messages_of <$> msgs).
Proof. by apply flatten_queue_all. Qed.

(** Each message after the one it replies to, as the rows are read. *)
Definition parents_first (all : list Message) : Prop :=
  forall l1 m l2 p, all = l1 ++ m :: l2 -> msg_ParentID m = Some p -> p ∈ ids all -> p ∈ ids l1.

Section tree.
Context (all : list Message) (Hids : NoDup (ids all)) (Hfirst : parents_first all).

Definition replies (y : Message) : list Message := filter (fun m => msg_ParentID m = Some (msg_ID y)) all.
Definition roots : list Message := filter (fun m => is_root all m = true) all.
Fixpoint level (k : nat) : list Message := match k with O => roots | S k => level k ≫= replies end.
Fixpoint levels (n : nat) (l : list Message) : list Message := match n with O => l | S n => l ++ levels n (l ≫= replies) end.

Lemma same_id x y : x ∈ all -> y ∈ all -> msg_ID x = msg_ID y -> x = y.
Proof.
  intros (i & Hi)%list_elem_of_lookup_1 (j & Hj)%list_elem_of_lookup_1 E.
  assert (i = j) as ->; [|congruence]. eapply (NoDup_lookup _ _ _ _ Hids); unfold ids; rewrite list_lookup_fmap; [by rewrite Hi|by rewrite Hj, E].
Qed.

Lemma byID_of x : x ∈ all -> byID all !! msg_ID x = Some x.
Proof.
  intros Hx. unfold byID.
  assert (forall l (m0 : gmap string Message), NoDup (ids l) -> x ∈ l \/ (m0 !! msg_ID x = Some x /\ msg_ID x ∉ ids l) ->
    foldl (fun m y => <[msg_ID y := y]> m) m0 l !! msg_ID x = Some x) as H; [|by apply H; [done|left]].
  induction l as [|y l IH]; intros m0 Hn H; cbn; [by destruct H as [H%not_elem_of_nil|[H _]]|].
  apply NoDup_cons in Hn as [Hy Hn]. apply IH; [done|]. destruct H as [[->|H]%elem_of_cons|[H1 H2]].
  - right. split; [apply lookup_insert_eq|done].
  - by left.
  - right. cbn in H2. apply not_elem_of_cons in H2 as [H2 H3]. split; [|done]. by rewrite lookup_insert_ne.
Qed.

Lemma replies_in y m : m ∈ replies y <-> m ∈ all /\ msg_ParentID m = Some (msg_ID y).
Proof. unfold replies. rewrite list_elem_of_filter. tauto. Qed.

(** The trees of some messages hold the levels under them. *)
Lemma trees_levels n : forall l, (forall m, m ∈ l -> m ∈ all) -> concat (messages_of <$> (build all n <$> ids l)) ≡ₚ levels n l.
Proof.
  induction n as [|n IH]; intros l Hl.
  - induction l as [|m l IHl]; [done|]. cbn. rewrite byID_of by (apply Hl; by left). cbn. constructor. apply IHl. intros x Hx. apply Hl. by right.
  - cbn [levels]. rewrite <- IH by (intros m (y & Hm%replies_in & _)%list_elem_of_bind; tauto).
    induction l as [|m l IHl]; [done|]. cbn. rewrite byID_of by (apply Hl; by left). cbn. constructor.
    rewrite IHl by (intros x Hx; apply Hl; by right). unfold ids. rewrite fmap_app, fmap_app, fmap_app, concat_app. fold (ids (replies m)).
    unfold children. by rewrite !app_assoc, (Permutation_app_comm l).
Qed.

Lemma level_in k m : m ∈ level k -> m ∈ all.
Proof. destruct k; cbn; [intros [_ H]%list_elem_of_filter; done|]. intros (y & H%replies_in & _)%list_elem_of_bind. tauto. Qed.

Lemma level_NoDup k : NoDup (level k).
Proof.
  assert (NoDup all) as Hall by by apply NoDup_fmap_1 in Hids.
  induction k as [|k IH]; cbn; [by apply NoDup_filter|]. apply NoDup_bind; [| |done].
  - intros y1 y2 m H1 H2 [_ E1]%replies_in [_ E2]%replies_in. apply same_id; [by eapply level_in|by eapply level_in|congruence].
  - intros y _. by apply NoDup_filter.
Qed.

(** A message is at one depth, and at no more than its position. *)
Lemma level_once j : forall k m, m ∈ level j -> m ∈ level k -> j = k.
Proof.
  assert (forall k m, m ∈ roots -> m ∈ level (S k) -> False) as Hroot.
  { intros k m [Hr _]%list_elem_of_filter (y & [_ E]%replies_in & Hy)%list_elem_of_bind. unfold is_root in Hr. rewrite E in Hr.
    apply negb_true_iff, bool_decide_eq_false in Hr. apply Hr. apply list_elem_of_fmap. exists y. split; [done|by eapply level_in]. }
  induction j as [|j IH]; intros [|k] m Hj Hk; [done|by destruct (Hroot k m)|by destruct (Hroot j m)|]. f_equal.
  cbn in Hj, Hk. apply list_elem_of_bind in Hj as (y1 & [_ E1]%replies_in & H1). apply list_elem_of_bind in Hk as (y2 & [_ E2]%replies_in & H2).
  apply (IH k y1); [done|]. rewrite (same_id y1 y2); [done|by eapply level_in|by eapply level_in|congruence].
Qed.

Lemma level_of i m : all !! i = Some m -> exists k, (k <= i)%nat /\ m ∈ level k.
Proof.
  revert m. induction (lt_wf i) as [i _ IH]. intros m Hi. destruct (is_root all m) eqn:Er.
  { exists O. split; [lia|]. apply list_elem_of_filter. split; [done|by eapply list_elem_of_lookup_2]. }
  unfold is_root in Er. destruct (msg_ParentID m) as [p|] eqn:Ep; [|done]. apply negb_false_iff, bool_decide_eq_true in Er.
  pose proof (take_drop_middle all i m Hi) as Es. symmetry in Es. pose proof (Hfirst _ _ _ _ Es Ep Er) as Hp.
  apply list_elem_of_fmap in Hp as (y & -> & (j & Hj)%list_elem_of_lookup_1). apply lookup_take_Some in Hj as [Hj Hlt].
  destruct (IH j Hlt y Hj) as (k & Hk & Hy). exists (S k). split; [lia|]. cbn. apply list_elem_of_bind. exists y. split; [|done].
  apply replies_in. split; [by eapply list_elem_of_lookup_2|done].
Qed.

Lemma levels_from j n : forall m, m ∈ levels n (level j) <-> exists k, (j <= k <= j + n)%nat /\ m ∈ level k.
Proof.
  revert j. induction n as [|n IH]; intros j m; cbn [levels].
  - split; [intros H; exists j; split; [lia|done]|]. intros (k & Hk & H). by replace j with k by lia.
  - rewrite elem_of_app. fold (level (S j)). rewrite (IH (S j)). split.
    + intros [H|(k & Hk & H)]; [exists j|exists k]; (split; [lia|done]).
    + intros (k & Hk & H). destruct (decide (k = j)) as [->|]; [by left|right; exists k; split; [lia|done]].
Qed.

Lemma levels_NoDup n : forall j, NoDup (levels n (level j)).
Proof.
  induction n as [|n IH]; intros j; cbn [levels]; [apply level_NoDup|]. apply NoDup_app. split; [apply level_NoDup|]. split; [|apply (IH (S j))].
  intros m Hm Hl. change (level j ≫= replies) with (level (S j)) in Hl. apply levels_from in Hl as (k & Hk & H). pose proof (level_once _ _ _ Hm H). lia.
Qed.

Lemma levels_all : levels (length all) roots ≡ₚ all.
Proof.
  apply NoDup_Permutation; [apply (levels_NoDup _ 0)|by apply NoDup_fmap_1 in Hids|]. intros m. rewrite (levels_from 0). split.
  - intros (k & _ & H). by eapply level_in.
  - intros (i & Hi)%list_elem_of_lookup_1. destruct (level_of i m Hi) as (k & Hk & H). exists k. split; [|done]. apply lookup_lt_Some in Hi. lia.
Qed.
End tree.

(** C33: A thread is read whole. Given rows with distinct ids, each after the row it
    replies to, the tree that a reader is given holds every message exactly once,
    replies to absent messages included, and flattening it gives them all back. *)
Theorem thread_whole all :
  NoDup (ids all) -> parents_first all -> flattenMessages (buildThreadTree all) ≡ₚ all.
Proof.
  intros Hids Hfirst. rewrite flatten_all. unfold buildThreadTree, rootOrder. rewrite trees_levels; [by apply levels_all|done|].
  by intros m [_ H]%list_elem_of_filter.
Qed.

(** A message, its reply, the reply's, and one whose parent was retracted. *)
Definition said (id : string) (parent : option string) : Message :=
  {| msg_ID := id; msg_ThreadID := "th"; msg_ParentID := parent; msg_AuthorPrincipal := "pat"; msg_AuthorAgentID := None; msg_AuthorRunID := None;
     msg_Body := "hi"; msg_Audience := "party"; msg_Kind := "text"; msg_Payload := None; msg_CreatedAt := 0%Z; msg_InvalidatedAt := None |}.

Lemma thread_whole_witness :
  let all := [said "a" None; said "b" (Some "a"); said "c" (Some "gone"); said "d" (Some "b")] in
  msg_ID <$> flattenMessages (buildThreadTree all) = ["a"; "c"; "b"; "d"] /\ flattenMessages (buildThreadTree all) ≡ₚ all.
Proof.
  intros all. split; [vm_compute; reflexivity|]. apply thread_whole; [apply (bool_decide_unpack _); vm_compute; exact I|].
  intros [|x1 [|x2 [|x3 [|x4 l1]]]] m l2 p E Hp Hin; cbn in E; simplify_eq; cbn in Hp; simplify_eq; try (by destruct l1);
    first [refine (bool_decide_eq_true_1 _ _); vm_compute; reflexivity | pose proof (bool_decide_eq_true_2 _ Hin) as Hb; vm_compute in Hb; discriminate].
Defined.
