(* ===== verification/Shim.v ===== *)
(** The shim's engine: the tasks of one agent runtime, the log of their events, who
    drives, cancels and reads them (src/pkg/shim/engine.go, task.go). The runtime
    adapter and the process runner are arguments; telemetry is left out but for the
    trace id a task carries. *)
From Stdlib Require Import Ascii.
From S2P Require Import Prelude GoStr Room Wire.
Open Scope Z_scope.
Open Scope k8s_scope.

(** * Payloads *)

Definition TaskSubmitted : string := "submitted".
Definition TaskWorking : string := "working".
Definition EventSkillLoad : string := "skill-load".
Definition EventAuthRequired : string := "auth-required".
Definition EventRateLimited : string := "rate-limited".
Definition MessageKindThinking : string := "thinking".

(** A payload the engine only hands on; a missing one is sent as its zero value. *)
Definition Opaque : Set := string.

Record Msg : Set := { m_Role : string; m_Text : string; m_Trust : string; m_Kind : string }.
Record ToolCall : Set := { tc_ArgsSHA256 : string; tc_Rest : Opaque }.
Record Usage : Set := { u_Model : string; u_Provider : string; u_ResponseModel : string; u_Rest : Opaque }.

Definition no_msg : Msg := {| m_Role := ""; m_Text := ""; m_Trust := ""; m_Kind := "" |}.
Definition no_tool : ToolCall := {| tc_ArgsSHA256 := ""; tc_Rest := "" |}.
Definition no_usage : Usage := {| u_Model := ""; u_Provider := ""; u_ResponseModel := ""; u_Rest := "" |}.

Record Progress : Set := {
  p_Kind : string; p_Message : option Msg; p_Tool : option ToolCall; p_Usage : option Usage; p_SkillLoad : option Opaque;
  p_Artifact : option Opaque; p_Auth : option Opaque; p_RateLimited : option Opaque; p_ToolArgs : string }.

Inductive Body : Set :=
| BStatus (state reason trace : string)
| BMessage (m : Msg)
| BTool (t : ToolCall)
| BUsage (u : Usage)
| BSkillLoad (o : Opaque) | BArtifact (o : Opaque) | BAuth (o : Opaque) | BRateLimited (o : Opaque).

(** An event of a task's log. *)
Record Ev : Set := { ev_Seq : Z; ev_Task : string; ev_TS : Z; ev_Type : string; ev_Body : Body }.

(** * A task *)

(** With its stream's log and done flag, and whether its context is canceled. *)
Record Task : Set := {
  tk_ID : string; tk_Model : string; tk_Provider : string;
  tk_State : string; tk_Reason : string; tk_LastSeq : Z; tk_Trace : string;
  tk_Log : list Ev; tk_Done : bool; tk_Canceled : bool }.

Record Status : Set := { s_State : string; s_Reason : string; s_LastSeq : Z; s_TraceID : string }.

Definition status (t : Task) : Status :=
  {| s_State := tk_State t; s_Reason := tk_Reason t; s_LastSeq := tk_LastSeq t; s_TraceID := tk_Trace t |}.

Definition setTraceID (id : string) (t : Task) : Task :=
  if bool_decide (id = "") then t
  else {| tk_ID := tk_ID t; tk_Model := tk_Model t; tk_Provider := tk_Provider t; tk_State := tk_State t; tk_Reason := tk_Reason t;
          tk_LastSeq := tk_LastSeq t; tk_Trace := id; tk_Log := tk_Log t; tk_Done := tk_Done t; tk_Canceled := tk_Canceled t |}.

(** The context's cancel function. *)
Definition cancel_ctx (t : Task) : Task :=
  {| tk_ID := tk_ID t; tk_Model := tk_Model t; tk_Provider := tk_Provider t; tk_State := tk_State t; tk_Reason := tk_Reason t;
     tk_LastSeq := tk_LastSeq t; tk_Trace := tk_Trace t; tk_Log := tk_Log t; tk_Done := tk_Done t; tk_Canceled := true |}.

(** A uint64 that counts up. *)
Definition next_seq (t : Task) : Z := (tk_LastSeq t + 1) mod 2 ^ 64.

(** nextEvent and its append. *)
Definition push (now : Z) (typ : string) (b : Body) (t : Task) : Task :=
  {| tk_ID := tk_ID t; tk_Model := tk_Model t; tk_Provider := tk_Provider t; tk_State := tk_State t; tk_Reason := tk_Reason t;
     tk_LastSeq := next_seq t; tk_Trace := tk_Trace t;
     tk_Log := tk_Log t ++ [{| ev_Seq := next_seq t; ev_Task := tk_ID t; ev_TS := now; ev_Type := typ; ev_Body := b |}];
     tk_Done := tk_Done t; tk_Canceled := tk_Canceled t |}.

Definition moved (state reason : string) (done : bool) (t : Task) : Task :=
  {| tk_ID := tk_ID t; tk_Model := tk_Model t; tk_Provider := tk_Provider t; tk_State := state; tk_Reason := reason;
     tk_LastSeq := tk_LastSeq t; tk_Trace := tk_Trace t; tk_Log := tk_Log t; tk_Done := done; tk_Canceled := tk_Canceled t |}.

Definition setState (now : Z) (state reason : string) (t : Task) : Task :=
  if TaskState_IsTerminal (tk_State t) then t
  else push now EventStatus (BStatus state reason (tk_Trace t)) (moved state reason (tk_Done t) t).

Definition terminate (now : Z) (state reason : string) (t : Task) : Task :=
  if TaskState_IsTerminal (tk_State t) then t
  else push now EventStatus (BStatus state reason (tk_Trace t)) (moved state reason true t).

(** The type and payload of a progress. *)
Definition payload_of (p : Progress) : string * Body :=
  if bool_decide (p_Kind p = EventMessage) then (EventMessage, BMessage (default no_msg (p_Message p)))
  else if bool_decide (p_Kind p = EventTool) then (EventTool, BTool (default no_tool (p_Tool p)))
  else if bool_decide (p_Kind p = EventSkillLoad) then (EventSkillLoad, BSkillLoad (default "" (p_SkillLoad p)))
  else if bool_decide (p_Kind p = EventUsage) then (EventUsage, BUsage (default no_usage (p_Usage p)))
  else if bool_decide (p_Kind p = EventArtifactRef) then (EventArtifactRef, BArtifact (default "" (p_Artifact p)))
  else if bool_decide (p_Kind p = EventAuthRequired) then (EventAuthRequired, BAuth (default "" (p_Auth p)))
  else if bool_decide (p_Kind p = EventRateLimited) then (EventRateLimited, BRateLimited (default "" (p_RateLimited p)))
  else (EventMessage, BMessage {| m_Role := "agent"; m_Text := ""; m_Trust := "untrusted"; m_Kind := "" |}).

Definition emitProgress (now : Z) (p : Progress) (t : Task) : Task :=
  if TaskState_IsTerminal (tk_State t) then t else push now (payload_of p).1 (payload_of p).2 t.

(** * What the funnel makes of a progress *)

Section funnel.
(** The hex SHA-256 of a string. *)
Context (sha256_hex : string -> string).

Definition hashToolArgs (p : Progress) : Progress :=
  match p_Tool p with
  | Some t =>
      if negb (bool_decide (tc_ArgsSHA256 t = "")) || bool_decide (p_ToolArgs p = "") then p
      else {| p_Kind := p_Kind p; p_Message := p_Message p; p_Tool := Some {| tc_ArgsSHA256 := sha256_hex (p_ToolArgs p); tc_Rest := tc_Rest t |};
              p_Usage := p_Usage p; p_SkillLoad := p_SkillLoad p; p_Artifact := p_Artifact p; p_Auth := p_Auth p;
              p_RateLimited := p_RateLimited p; p_ToolArgs := p_ToolArgs p |}
  | None => p
  end.

Record Funnel : Set := { sawDeliverable : bool; lastText : string }.
Definition fresh_funnel : Funnel := {| sawDeliverable := false; lastText := "" |}.

Definition with_message (m : Msg) (p : Progress) : Progress :=
  {| p_Kind := p_Kind p; p_Message := Some m; p_Tool := p_Tool p; p_Usage := p_Usage p; p_SkillLoad := p_SkillLoad p;
     p_Artifact := p_Artifact p; p_Auth := p_Auth p; p_RateLimited := p_RateLimited p; p_ToolArgs := p_ToolArgs p |}.
Definition with_usage (u : Usage) (p : Progress) : Progress :=
  {| p_Kind := p_Kind p; p_Message := p_Message p; p_Tool := p_Tool p; p_Usage := Some u; p_SkillLoad := p_SkillLoad p;
     p_Artifact := p_Artifact p; p_Auth := p_Auth p; p_RateLimited := p_RateLimited p; p_ToolArgs := p_ToolArgs p |}.

(** The one deliverable of a run. *)
Definition tier (f : Funnel) (p : Progress) : Funnel * Progress :=
  match p_Message p with
  | Some m =>
      if negb (bool_decide (p_Kind p = EventMessage)) then (f, p)
      else if bool_decide (m_Kind m = MessageKindDeliverable) then
        if sawDeliverable f then
          (f, with_message {| m_Role := m_Role m; m_Text := m_Text m; m_Trust := m_Trust m; m_Kind := MessageKindThinking |} p)
        else ({| sawDeliverable := true; lastText := lastText f |}, p)
      else if negb (bool_decide (m_Text m = "")) then ({| sawDeliverable := sawDeliverable f; lastText := m_Text m |}, p)
      else (f, p)
  | None => (f, p)
  end.

Definition or_else (v d : string) : string := if bool_decide (v = "") then d else v.

(** What a usage event leaves out. *)
Definition attribute (t : Task) (p : Progress) : Progress :=
  match p_Usage p with
  | Some u =>
      if negb (bool_decide (p_Kind p = EventUsage)) then p
      else with_usage {| u_Model := or_else (u_Model u) (tk_Model t); u_Provider := or_else (u_Provider u) (tk_Provider t);
                         u_ResponseModel := or_else (u_ResponseModel u) (tk_Model t); u_Rest := u_Rest u |} p
  | None => p
  end.

Definition funnel (t : Task) (f : Funnel) (p : Progress) : Funnel * Progress :=
  let '(f, p) := tier f (hashToolArgs p) in (f, attribute t p).
End funnel.

(** ** The end of a run *)

Record Outcome : Set := { o_State : string; o_Reason : string }.

(** The runner's answer, its error as text, with the context's. *)
Definition settlement_of (canceled : bool) (r : result string Outcome) : string * string :=
  if canceled then (TaskCanceled, "canceled")
  else match r with Err e => (TaskFailed, e) | Ok o => (o_State o, o_Reason o) end.

(** The message the run still owes. *)
Definition backstop (f : Funnel) (state reason : string) : option Progress :=
  if sawDeliverable f || bool_decide (state = TaskCanceled) then None
  else
    let text := if bool_decide (lastText f = "") && bool_decide (state = TaskFailed) && negb (bool_decide (reason = "")) then reason else lastText f in
    if bool_decide (text = "") then None
    else Some {| p_Kind := EventMessage;
                 p_Message := Some {| m_Role := "agent"; m_Text := text; m_Trust := "untrusted"; m_Kind := MessageKindDeliverable |};
                 p_Tool := None; p_Usage := None; p_SkillLoad := None; p_Artifact := None; p_Auth := None; p_RateLimited := None; p_ToolArgs := "" |}.

(** * The engine *)

Record Endpoint : Set := { ep_Name : string; ep_Transport : string; ep_Image : string; ep_EnvNames : list string }.
Record ModelRoute : Set := { mr_Model : string; mr_Endpoint : string; mr_Token : string }.

(** A submitted task; [t_Rest] is what only the adapter reads. *)
Record A2ATask : Set := {
  t_A2ATaskID : string; t_ModelRoute : ModelRoute; t_MCPEndpoints : list Endpoint; t_MCPTokenEnv : gmap string string; t_Rest : Opaque }.

Record Warmup : Set := { w_Endpoint : string; w_Model : string; w_Token : string }.
Record ExecSpec : Set := { sp_Env : list string; sp_Warmup : option Warmup; sp_Rest : Opaque }.

(** The adapter's part: its type, its default model and the command of a launch. *)
Record Runtime : Set := { rt_Type : string; rt_DefaultModel : string; rt_Command : A2ATask -> list Endpoint -> result string ExecSpec }.

(** Why a submission is refused; the texts that say so are left out. *)
Inductive SubmitError : Set :=
| NoTaskID
| NoCredential (endpoint env : string)
| NoCommand (runtime e : string).

Definition token_of (tokens : gmap string string) (name : string) : bool := bool_decide (is_Some (tokens !! name)).

Definition missing_env (tokens : gmap string string) (ep : Endpoint) : option string :=
  if bool_decide (ep_Transport ep = "stdio") && negb (bool_decide (ep_Image ep = "")) then None
  else head (filter (fun name => token_of tokens name = false) (ep_EnvNames ep)).

Fixpoint validateMCPEnvelope (endpoints : list Endpoint) (tokens : gmap string string) : result SubmitError unit :=
  match endpoints with
  | [] => Ok tt
  | ep :: endpoints =>
      match missing_env tokens ep with
      | Some name => Err (NoCredential (ep_Name ep) name)
      | None => validateMCPEnvelope endpoints tokens
      end
  end.

Definition name_le (a b : string) : Prop := String.leb a b = true.
#[export] Instance name_le_dec a b : Decision (name_le a b).
Proof. unfold name_le. apply _. Defined.

Definition mcpCredentialEnv (tokens : gmap string string) : list string :=
  (fun name => name +:+ "=" +:+ default "" (tokens !! name)) <$> merge_sort name_le (map_to_list tokens).*1.

(** strings.Contains *)
Definition Contains (s sub : string) : bool := bool_decide (is_Some (String.index 0 sub s)).

Definition providerFromModel (model : string) : string :=
  let lower := ToLower model in
  if Contains lower "claude" then "anthropic"
  else if Contains lower "gpt" || Contains lower "openai" then "openai"
  else if Contains lower "gemini" then "google" else "".

Definition OpenCodeBYOProviderID : string := "ksquad-byo".

Section engine.
(** url.Parse's host name and port. *)
Context (url_parse : string -> option (string * string)).

Definition ollamaEndpoint (endpoint : string) : bool :=
  match url_parse endpoint with
  | Some (host, port) => Contains (ToLower host) "ollama" || bool_decide (port = "11434")
  | None => Contains (ToLower endpoint) "ollama" || Contains (ToLower endpoint) ":11434"
  end.

Definition providerForRoute (route : ModelRoute) (model : string) : string :=
  if negb (bool_decide (mr_Endpoint route = "")) then if ollamaEndpoint (mr_Endpoint route) then "ollama" else OpenCodeBYOProviderID
  else providerFromModel model.

(** The engine's runtime, launch model and launch endpoints. *)
Context (rt : Runtime) (cfg_Model : string) (cfg_MCPEndpoints : list Endpoint).

Definition modelID : string := or_else cfg_Model (rt_DefaultModel rt).
Definition runModel (t : A2ATask) : string := or_else (mr_Model (t_ModelRoute t)) modelID.

Definition warmup_of (t : A2ATask) : option Warmup :=
  let ep := mr_Endpoint (t_ModelRoute t) in
  if negb (bool_decide (ep = "")) && negb (bool_decide (runModel t = "")) && ollamaEndpoint ep
  then Some {| w_Endpoint := ep; w_Model := runModel t; w_Token := mr_Token (t_ModelRoute t) |} else None.

Definition new_task (t : A2ATask) : Task :=
  {| tk_ID := t_A2ATaskID t; tk_Model := runModel t; tk_Provider := providerForRoute (t_ModelRoute t) (runModel t);
     tk_State := TaskSubmitted; tk_Reason := ""; tk_LastSeq := 0; tk_Trace := ""; tk_Log := []; tk_Done := false; tk_Canceled := false |}.

Inductive Submission : Set :=
| Known (t : Task)
| Refused (e : SubmitError)
| Registered (t : Task) (spec : ExecSpec).

(** SubmitTask's section under the engine's lock. *)
Definition submit (tasks : gmap string Task) (t : A2ATask) : Submission :=
  if bool_decide (t_A2ATaskID t = "") then Refused NoTaskID
  else match tasks !! t_A2ATaskID t with
       | Some existing => Known existing
       | None =>
           let endpoints := match t_MCPEndpoints t with [] => cfg_MCPEndpoints | l => l end in
           match validateMCPEnvelope (t_MCPEndpoints t) (t_MCPTokenEnv t) with
           | Err e => Refused e
           | Ok _ =>
               match rt_Command rt t endpoints with
               | Err e => Refused (NoCommand (rt_Type rt) e)
               | Ok spec =>
                   Registered (new_task t)
                     {| sp_Env := sp_Env spec ++ mcpCredentialEnv (t_MCPTokenEnv t);
                        sp_Warmup := match warmup_of t with Some w => Some w | None => sp_Warmup spec end; sp_Rest := sp_Rest spec |}
               end
           end
       end.

(** * The goroutines

    A submission after its registration, the drive of a task, and what the runner and
    a canceler do to it; each step is one section under the task's lock. *)

Inductive SubmitPC : Set := Seed (spec : ExecSpec) | Snapshot (spec : ExecSpec) | Launch (spec : ExecSpec) (s : Status).
Inductive DrivePC : Set :=
| Opening (spec : ExecSpec)
| Working (spec : ExecSpec)
| Running (spec : ExecSpec) (f : Funnel)
| Settled (f : Funnel) (state reason : string)
| Ending (state reason : string)
| Over.

(** A stream: where it started, its cursor, whether it waits on the condition, what it
    holds for its reader and what it sent, whether its context is canceled and its
    channel closed. *)
Record Sub : Set := {
  sb_Task : string; sb_From : Z; sb_At : nat; sb_Waits : bool; sb_Hold : option Ev; sb_Sent : list Ev; sb_Canceled : bool; sb_Closed : bool }.

Record World : Set := {
  tasks : gmap string Task; submits : gmap string SubmitPC; drives : gmap string DrivePC; cancels : list (string * string);
  subs : list Sub; answers : list (string * Status); launched : list string }.

Definition set_task (id : string) (f : Task -> Task) (w : World) : World :=
  {| tasks := alter f id (tasks w); submits := submits w; drives := drives w; cancels := cancels w; subs := subs w;
     answers := answers w; launched := launched w |}.
Definition set_submit (id : string) (pc : option SubmitPC) (w : World) : World :=
  {| tasks := tasks w; submits := match pc with Some pc => <[id := pc]> (submits w) | None => delete id (submits w) end; drives := drives w;
     cancels := cancels w; subs := subs w; answers := answers w; launched := launched w |}.
Definition set_drive (id : string) (pc : DrivePC) (w : World) : World :=
  {| tasks := tasks w; submits := submits w; drives := <[id := pc]> (drives w); cancels := cancels w; subs := subs w;
     answers := answers w; launched := launched w |}.
Definition set_cancels (l : list (string * string)) (w : World) : World :=
  {| tasks := tasks w; submits := submits w; drives := drives w; cancels := l; subs := subs w; answers := answers w; launched := launched w |}.
Definition set_subs (l : list Sub) (w : World) : World :=
  {| tasks := tasks w; submits := submits w; drives := drives w; cancels := cancels w; subs := l; answers := answers w; launched := launched w |}.
Definition answer (id : string) (s : Status) (w : World) : World :=
  {| tasks := tasks w; submits := submits w; drives := drives w; cancels := cancels w; subs := subs w;
     answers := answers w ++ [(id, s)]; launched := launched w |}.
Definition register (t : Task) (spec : ExecSpec) (w : World) : World :=
  {| tasks := <[tk_ID t := t]> (tasks w); submits := <[tk_ID t := Seed spec]> (submits w); drives := drives w; cancels := cancels w;
     subs := subs w; answers := answers w; launched := launched w |}.
Definition launch (id : string) (spec : ExecSpec) (w : World) : World :=
  {| tasks := tasks w; submits := delete id (submits w); drives := <[id := Opening spec]> (drives w); cancels := cancels w; subs := subs w;
     answers := answers w; launched := launched w ++ [id] |}.

(** The position of the next event after [from]. *)
Fixpoint skip (from : Z) (l : list Ev) : nat :=
  match l with e :: l => if ev_Seq e <=? from then S (skip from l) else O | [] => O end.

(** One stretch of a stream's loop under the stream's lock: what it holds next, that it
    ends, or that it waits. A stream that wakes up is past the skipping. *)
Definition sub_turn (log : list Ev) (done : bool) (s : Sub) : option Sub :=
  let at_ := if sb_Waits s then sb_At s else (sb_At s + skip (sb_From s) (drop (sb_At s) log))%nat in
  let out hold i waits closed :=
    Some {| sb_Task := sb_Task s; sb_From := sb_From s; sb_At := i; sb_Waits := waits; sb_Hold := hold; sb_Sent := sb_Sent s;
            sb_Canceled := sb_Canceled s; sb_Closed := closed |} in
  match log !! at_ with
  | Some e => if sb_Canceled s then out None at_ false true else out (Some e) (S at_) false false
  | None => if sb_Canceled s || done then out None at_ false true else if sb_Waits s then None else out None at_ true false
  end.

(** The reader takes what is held, or is gone. *)
Definition sub_send (e : Ev) (s : Sub) : Sub :=
  {| sb_Task := sb_Task s; sb_From := sb_From s; sb_At := sb_At s; sb_Waits := sb_Waits s; sb_Hold := None; sb_Sent := sb_Sent s ++ [e];
     sb_Canceled := sb_Canceled s; sb_Closed := sb_Closed s |}.
Definition sub_close (s : Sub) : Sub :=
  {| sb_Task := sb_Task s; sb_From := sb_From s; sb_At := sb_At s; sb_Waits := sb_Waits s; sb_Hold := None; sb_Sent := sb_Sent s;
     sb_Canceled := sb_Canceled s; sb_Closed := true |}.
Definition sub_cancel (s : Sub) : Sub :=
  {| sb_Task := sb_Task s; sb_From := sb_From s; sb_At := sb_At s; sb_Waits := sb_Waits s; sb_Hold := sb_Hold s; sb_Sent := sb_Sent s;
     sb_Canceled := true; sb_Closed := sb_Closed s |}.
Definition subscribe (id : string) (from : Z) : Sub :=
  {| sb_Task := id; sb_From := from; sb_At := 0; sb_Waits := false; sb_Hold := None; sb_Sent := []; sb_Canceled := false; sb_Closed := false |}.

Context (sha256_hex : string -> string).

(** What a runner returns: its contract says completed or failed. *)
Definition runner_answer (r : result string Outcome) : Prop :=
  match r with Ok o => o_State o = TaskCompleted \/ o_State o = TaskFailed | Err _ => True end.

Inductive step : World -> World -> Prop :=
(* SubmitTask. *)
| submit_known w t existing : submit (tasks w) t = Known existing -> step w (answer (t_A2ATaskID t) (status existing) w)
| submit_refused w t e : submit (tasks w) t = Refused e -> step w w
| submit_registers w t tk spec : submit (tasks w) t = Registered tk spec -> step w (register tk spec w)
| submit_seeds w id spec now :
    submits w !! id = Some (Seed spec) -> step w (set_submit id (Some (Snapshot spec)) (set_task id (setState now TaskSubmitted "") w))
| submit_reads w id spec tk :
    submits w !! id = Some (Snapshot spec) -> tasks w !! id = Some tk -> step w (set_submit id (Some (Launch spec (status tk))) w)
| submit_launches w id spec s : submits w !! id = Some (Launch spec s) -> step w (answer id s (launch id spec w))
(* GetStatus. *)
| status_read w id tk : tasks w !! id = Some tk -> step w (answer id (status tk) w)
(* drive. *)
| drive_traces w id spec trace :
    drives w !! id = Some (Opening spec) -> step w (set_drive id (Working spec) (set_task id (setTraceID trace) w))
| drive_works w id spec now :
    drives w !! id = Some (Working spec) -> step w (set_drive id (Running spec fresh_funnel) (set_task id (setState now TaskWorking "") w))
| runner_emits w id spec f tk p f' p' now :
    drives w !! id = Some (Running spec f) -> tasks w !! id = Some tk -> funnel sha256_hex tk f p = (f', p') ->
    step w (set_drive id (Running spec f') (set_task id (emitProgress now p') w))
| runner_returns w id spec f tk r state reason :
    drives w !! id = Some (Running spec f) -> tasks w !! id = Some tk -> runner_answer r -> settlement_of (tk_Canceled tk) r = (state, reason) ->
    step w (set_drive id (Settled f state reason) w)
| drive_owes w id f state reason now :
    drives w !! id = Some (Settled f state reason) ->
    step w (set_drive id (Ending state reason)
              (set_task id (match backstop f state reason with Some p => emitProgress now p | None => fun t => t end) w))
| drive_ends w id state reason now :
    drives w !! id = Some (Ending state reason) -> step w (set_drive id Over (set_task id (terminate now state reason) w))
(* CancelTask; an unknown task is no step. *)
| cancel_signals w id reason :
    is_Some (tasks w !! id) -> step w (set_cancels (cancels w ++ [(id, or_else reason "canceled")]) (set_task id cancel_ctx w))
| cancel_ends w l1 id reason l2 now :
    cancels w = l1 ++ (id, reason) :: l2 -> step w (set_cancels (l1 ++ l2) (set_task id (terminate now TaskCanceled reason) w))
(* StreamEvents. *)
| stream_opens w id from : is_Some (tasks w !! id) -> step w (set_subs (subs w ++ [subscribe id from]) w)
| stream_turns w l1 s l2 tk s' :
    subs w = l1 ++ s :: l2 -> sb_Closed s = false -> sb_Hold s = None -> tasks w !! sb_Task s = Some tk ->
    sub_turn (tk_Log tk) (tk_Done tk) s = Some s' -> step w (set_subs (l1 ++ s' :: l2) w)
| stream_sends w l1 s l2 e : subs w = l1 ++ s :: l2 -> sb_Hold s = Some e -> step w (set_subs (l1 ++ sub_send e s :: l2) w)
| stream_leaves w l1 s l2 e :
    subs w = l1 ++ s :: l2 -> sb_Hold s = Some e -> sb_Canceled s = true -> step w (set_subs (l1 ++ sub_close s :: l2) w)
| reader_leaves w l1 s l2 : subs w = l1 ++ s :: l2 -> step w (set_subs (l1 ++ sub_cancel s :: l2) w).

Definition idle : World :=
  {| tasks := ∅; submits := ∅; drives := ∅; cancels := []; subs := []; answers := []; launched := [] |}.

Definition reachable (w : World) : Prop := rtc step idle w.
End engine.
