(* ===== verification/ShimProps.v ===== *)
(** What the shim's engine promises of a task, in every interleaving of submissions,
    drives, runners, cancelers and readers: its log, its one answer, its one run, and
    what a stream delivers. *)
From S2P Require Import Prelude GoStr Room Wire Shim.
Open Scope Z_scope.
Open Scope k8s_scope.

(** * A task's log *)

Definition ends (e : Ev) : bool := match ev_Body e with BStatus s _ _ => TaskState_IsTerminal s | _ => false end.
Definition message_of (e : Ev) : option Msg := match ev_Body e with BMessage m => Some m | _ => None end.
Definition delivers (e : Ev) : Prop := exists m, message_of e = Some m /\ m_Kind m = MessageKindDeliverable.
#[export] Instance delivers_dec e : Decision (delivers e).
Proof.
  unfold delivers. destruct (message_of e) as [m|]; [|right; by intros (m & ? & _)].
  destruct (decide (m_Kind m = MessageKindDeliverable)) as [H|H]; [left; by exists m|right; by intros (m' & [= <-] & ?)].
Defined.
Definition deliveries (t : Task) : list Ev := filter delivers (tk_Log t).
(** Some message of the log says something. *)
Definition speaks (t : Task) : Prop := exists e m, e ∈ tk_Log t /\ message_of e = Some m /\ m_Text m <> "".

Definition closing (t : Task) : Prop :=
  if tk_Done t then exists l e trace, tk_Log t = l ++ [e] /\ ev_Body e = BStatus (tk_State t) (tk_Reason t) trace /\ forall x, x ∈ l -> ends x = false
  else forall x, x ∈ tk_Log t -> ends x = false.

Record log_ok (t : Task) : Prop := {
  log_seqs i e : tk_Log t !! i = Some e -> ev_Seq e = Z.of_nat (S i) mod 2 ^ 64 /\ ev_Task e = tk_ID t;
  log_last : tk_LastSeq t = Z.of_nat (length (tk_Log t)) mod 2 ^ 64;
  log_done : tk_Done t = TaskState_IsTerminal (tk_State t);
  log_closing : closing t }.

(** What a task keeps: its log grows, and nothing moves once it is done. *)
Definition grows (t t' : Task) : Prop :=
  tk_ID t' = tk_ID t /\ exists l, tk_Log t' = tk_Log t ++ l /\
    (tk_Done t = true -> l = [] /\ tk_Done t' = true /\ tk_State t' = tk_State t /\ tk_Reason t' = tk_Reason t /\ tk_LastSeq t' = tk_LastSeq t).

Lemma log_grows_refl t : grows t t.
Proof. split; [done|]. exists []. by rewrite app_nil_r. Qed.

Lemma log_ok_push now typ b t :
  log_ok t -> tk_Done t = false ->
  (match b with BStatus s _ _ => TaskState_IsTerminal s = false | _ => True end) -> log_ok (push now typ b t) /\ grows t (push now typ b t).
Proof.
  intros [H1 H2 H3 H4] Hd Hb. split; [|split; [done|]; eexists; split; [reflexivity|by rewrite Hd]]. split; cbn.
  - intros i e. rewrite lookup_app_Some. intros [H|[Hi He]]; [by apply H1|]. apply list_lookup_singleton_Some in He as [E <-]. cbn.
    unfold next_seq. rewrite H2. split; [|done]. rewrite Zplus_mod_idemp_l. f_equal. lia.
  - unfold next_seq. rewrite H2, length_app, Zplus_mod_idemp_l. cbn. f_equal. lia.
  - done.
  - unfold closing in *. cbn. rewrite Hd in *. intros x [Hx| ->%list_elem_of_singleton]%elem_of_app; [by apply H4|]. unfold ends. cbn. by destruct b.
Qed.

Lemma terminal_canceled : TaskState_IsTerminal TaskCanceled = true.
Proof. done. Qed.

Lemma log_ok_setState now s r t : TaskState_IsTerminal s = false -> log_ok t -> log_ok (setState now s r t) /\ grows t (setState now s r t).
Proof.
  intros Hs Hok. unfold setState. destruct (TaskState_IsTerminal (tk_State t)) eqn:Et; [split; [done|apply log_grows_refl]|].
  assert (tk_Done t = false) as Hd by (rewrite (log_done _ Hok); done).
  destruct (log_ok_push now EventStatus (BStatus s r (tk_Trace t)) (moved s r (tk_Done t) t)) as [H1 H2]; [|done|done|].
  - destruct Hok as [H1 H2 H3 H4]. split; cbn; [done|done|by rewrite Hd|]. unfold closing in *. cbn. by rewrite Hd in *.
  - split; [done|]. destruct H2 as (_ & l & El & _). split; [done|]. exists l. split; [done|by rewrite Hd].
Qed.

Lemma log_ok_terminate now s r t : TaskState_IsTerminal s = true -> log_ok t ->
  log_ok (terminate now s r t) /\ grows t (terminate now s r t) /\ tk_Done (terminate now s r t) = true.
Proof.
  intros Hs Hok. unfold terminate. destruct (TaskState_IsTerminal (tk_State t)) eqn:Et.
  { split; [done|]. split; [apply log_grows_refl|]. by rewrite (log_done _ Hok). }
  assert (tk_Done t = false) as Hd by (rewrite (log_done _ Hok); done). destruct Hok as [H1 H2 H3 H4].
  split; [|split; [split; [done|]; eexists; split; [reflexivity|by rewrite Hd]|done]]. split; cbn.
  - intros i e. rewrite lookup_app_Some. intros [H|[Hi He]]; [by apply H1|]. apply list_lookup_singleton_Some in He as [E <-]. cbn.
    unfold next_seq. cbn. rewrite H2. split; [|done]. rewrite Zplus_mod_idemp_l. f_equal. lia.
  - unfold next_seq. cbn. rewrite H2, length_app, Zplus_mod_idemp_l. cbn. f_equal. lia.
  - done.
  - unfold closing in *. cbn. rewrite Hd in H4. eexists _, _, _. split; [reflexivity|]. cbn. split; [reflexivity|done].
Qed.

Lemma log_ok_emit now p t : log_ok t -> log_ok (emitProgress now p t) /\ grows t (emitProgress now p t).
Proof.
  intros Hok. unfold emitProgress. destruct (TaskState_IsTerminal (tk_State t)) eqn:Et; [split; [done|apply log_grows_refl]|].
  apply log_ok_push; [done|by rewrite (log_done _ Hok)|]. unfold payload_of. by repeat case_bool_decide.
Qed.

Lemma log_ok_trace id t : log_ok t -> log_ok (setTraceID id t) /\ grows t (setTraceID id t).
Proof.
  intros [H1 H2 H3 H4]. unfold setTraceID. case_bool_decide; [split; [done|apply log_grows_refl]|]. split; [done|]. split; [done|].
  exists []. rewrite app_nil_r. done.
Qed.

Lemma log_ok_cancel t : log_ok t -> log_ok (cancel_ctx t) /\ grows t (cancel_ctx t).
Proof. intros [H1 H2 H3 H4]. split; [done|]. split; [done|]. exists []. rewrite app_nil_r. done. Qed.

Lemma new_task_ok url_parse rt model t : log_ok (new_task url_parse rt model t).
Proof. split; cbn; [by intros i e H|done|done|]. by intros x Hx%not_elem_of_nil. Qed.

(** * The one answer of a run *)

Definition silent (t : Task) : Prop := forall e, e ∈ tk_Log t -> message_of e = None.

Definition owed (f : Funnel) (t : Task) : Prop :=
  (length (deliveries t) <= 1)%nat /\ (sawDeliverable f = false -> deliveries t = []) /\
  (tk_Done t = false -> (sawDeliverable f = true -> length (deliveries t) = 1%nat) /\
                        (sawDeliverable f = false -> lastText f = "" -> ~ speaks t)).

Definition answered (state : string) (t : Task) : Prop :=
  (length (deliveries t) <= 1)%nat /\ (tk_Done t = false -> state <> TaskCanceled -> speaks t -> length (deliveries t) = 1%nat).

(** Where the drive of a task is, and what its log says of that. *)
Definition phase_ok (pc : option DrivePC) (t : Task) : Prop :=
  match pc with
  | None | Some (Opening _) | Some (Working _) => silent t
  | Some (Running _ f) => owed f t
  | Some (Settled f state _) => owed f t /\ TaskState_IsTerminal state = true
  | Some (Ending state _) => answered state t /\ TaskState_IsTerminal state = true
  | Some Over => tk_Done t = true /\ (length (deliveries t) <= 1)%nat /\ (tk_State t <> TaskCanceled -> speaks t -> length (deliveries t) = 1%nat)
  end /\ (tk_Done t = true -> pc <> Some Over -> tk_State t = TaskCanceled).

(** An operation that adds no message. *)
Definition wordless (t t' : Task) : Prop :=
  exists l, tk_Log t' = tk_Log t ++ l /\ forall e, e ∈ l -> message_of e = None.

Lemma delivers_message e : message_of e = None -> ~ delivers e.
Proof. intros E (m & Em & _). congruence. Qed.

Lemma no_deliveries l : (forall e, e ∈ l -> message_of e = None) -> filter delivers l = [].
Proof.
  intros H. induction l as [|e l IH]; [done|]. rewrite filter_cons_False by (apply delivers_message, H; by left). apply IH. intros x Hx. apply H. by right.
Qed.

Lemma wordless_deliveries t t' : wordless t t' -> deliveries t' = deliveries t.
Proof. intros (l & E & Hl). unfold deliveries. rewrite E, filter_app, (no_deliveries l) by done. by rewrite app_nil_r. Qed.

Lemma wordless_speaks t t' : wordless t t' -> speaks t' -> speaks t.
Proof.
  intros (l & E & Hl) (e & m & He & Em & Hm). rewrite E in He. apply elem_of_app in He as [He|He]; [by exists e, m|]. rewrite (Hl _ He) in Em. done.
Qed.

Lemma wordless_silent t t' : wordless t t' -> silent t -> silent t'.
Proof. intros (l & E & Hl) Hs e He. rewrite E in He. apply elem_of_app in He as [He|He]; auto. Qed.

Lemma wordless_owed f t t' : wordless t t' -> (tk_Done t' = false -> tk_Done t = false) -> owed f t -> owed f t'.
Proof.
  intros Hw Hd (H1 & H2 & H3). unfold owed. rewrite (wordless_deliveries _ _ Hw). split; [done|]. split; [done|]. intros Hd'.
  destruct (H3 (Hd Hd')) as [H4 H5]. split; [done|]. intros Hf Ht Hs. apply (H5 Hf Ht). by eapply wordless_speaks.
Qed.

Lemma wordless_answered s t t' : wordless t t' -> (tk_Done t' = false -> tk_Done t = false) -> answered s t -> answered s t'.
Proof.
  intros Hw Hd (H1 & H2). unfold answered. rewrite (wordless_deliveries _ _ Hw). split; [done|]. intros Hd' Hs Hsp. apply H2; [auto|done|]. by eapply wordless_speaks.
Qed.

(** Such an operation keeps the phase, while the task is as done as before. *)
Lemma wordless_phase pc t t' : wordless t t' -> tk_Done t' = tk_Done t -> (tk_Done t = true -> tk_State t' = tk_State t) -> phase_ok pc t -> phase_ok pc t'.
Proof.
  intros Hw Hd Hst [Hp Hc]. split; [|intros H1 H2; rewrite Hd in H1; rewrite Hst by done; auto].
  destruct pc as [[]|]; cbn in *; try (by eapply wordless_silent).
  - eapply wordless_owed; [done| |done]. by rewrite Hd.
  - destruct Hp. split; [|done]. eapply wordless_owed; [done| |done]. by rewrite Hd.
  - destruct Hp. split; [|done]. eapply wordless_answered; [done| |done]. by rewrite Hd.
  - destruct Hp as (H1 & H2 & H3). rewrite (wordless_deliveries _ _ Hw), Hd, (Hst H1). split; [done|]. split; [done|]. intros Hs Hsp. apply H3; [done|by eapply wordless_speaks].
Qed.

Lemma wordless_setState now s r t : wordless t (setState now s r t).
Proof.
  unfold setState. destruct (TaskState_IsTerminal (tk_State t)); [exists []; by rewrite app_nil_r; split; [|intros e He%not_elem_of_nil]|].
  eexists. split; [reflexivity|]. by intros e ->%list_elem_of_singleton.
Qed.

Lemma wordless_terminate now s r t : wordless t (terminate now s r t).
Proof.
  unfold terminate. destruct (TaskState_IsTerminal (tk_State t)); [exists []; by rewrite app_nil_r; split; [|intros e He%not_elem_of_nil]|].
  eexists. split; [reflexivity|]. by intros e ->%list_elem_of_singleton.
Qed.

Lemma wordless_same t t' : tk_Log t' = tk_Log t -> wordless t t'.
Proof. intros E. exists []. rewrite app_nil_r. split; [done|]. by intros e He%not_elem_of_nil. Qed.

Lemma setState_done now s r t : log_ok t -> tk_Done (setState now s r t) = tk_Done t /\ (tk_Done t = true -> tk_State (setState now s r t) = tk_State t).
Proof.
  intros Hok. unfold setState. destruct (TaskState_IsTerminal (tk_State t)) eqn:E; [done|]. cbn. split; [done|]. rewrite (log_done _ Hok), E. done.
Qed.

(** A canceler's end. *)
Lemma cancel_phase pc now r t : log_ok t -> phase_ok pc t -> phase_ok pc (terminate now TaskCanceled r t).
Proof.
  intros Hok Hp. unfold terminate. destruct (TaskState_IsTerminal (tk_State t)) eqn:E; [done|]. fold (terminate now TaskCanceled r t).
  assert (tk_Done t = false) as Hd by (by rewrite (log_done _ Hok)).
  set (t' := push _ _ _ _). assert (wordless t t') as Hw by (eexists; split; [reflexivity|]; by intros e ->%list_elem_of_singleton).
  destruct Hp as [Hp Hc]. split; [|done]. destruct pc as [[]|]; cbn in Hp |- *; try (by eapply wordless_silent).
  - by eapply wordless_owed.
  - destruct Hp. split; [|done]. by eapply wordless_owed.
  - destruct Hp. split; [|done]. by eapply wordless_answered.
  - destruct Hp as [Hp _]. congruence.
Qed.

Definition said_by (p : Progress) : option Msg := match (payload_of p).2 with BMessage m => Some m | _ => None end.

Lemma said_by_message p : said_by p = (if bool_decide (p_Kind p = EventMessage) then Some (default no_msg (p_Message p)) else said_by p).
Proof. unfold said_by, payload_of. by case_bool_decide. Qed.

(** Only a message says anything. *)
Lemma said_by_other p m : p_Kind p <> EventMessage -> said_by p = Some m -> m_Text m = "" /\ m_Kind m = "".
Proof. unfold said_by, payload_of. intros H. rewrite bool_decide_eq_false_2 by done. repeat case_bool_decide; by intros [= <-]. Qed.

Lemma hash_same sha p : p_Kind (hashToolArgs sha p) = p_Kind p /\ p_Message (hashToolArgs sha p) = p_Message p.
Proof. unfold hashToolArgs. destruct (p_Tool p); [|done]. by destruct (_ || _). Qed.

Lemma attribute_same t p : p_Kind (attribute t p) = p_Kind p /\ p_Message (attribute t p) = p_Message p.
Proof. unfold attribute. destruct (p_Usage p); [|done]. by destruct (negb _). Qed.

Record tiered (f : Funnel) (f' : Funnel) (said : option Msg) : Prop := {
  tiered_saw : sawDeliverable f = true -> sawDeliverable f' = true;
  tiered_first m : said = Some m -> m_Kind m = MessageKindDeliverable -> sawDeliverable f = false /\ sawDeliverable f' = true;
  tiered_saw' : sawDeliverable f' = true -> sawDeliverable f = true \/ exists m, said = Some m /\ m_Kind m = MessageKindDeliverable;
  tiered_text m : sawDeliverable f' = false -> lastText f' = "" -> lastText f = "" /\ (said = Some m -> m_Text m = "") }.

Lemma tier_spec f p f' p' : tier f p = (f', p') -> tiered f f' (said_by p').
Proof.
  unfold tier. destruct (p_Message p) as [m|] eqn:Em.
  2: { intros [= <- <-]. destruct (decide (p_Kind p = EventMessage)) as [Ek|Ek].
       - assert (said_by p = Some no_msg) as -> by (rewrite said_by_message, bool_decide_eq_true_2, Em by done; done).
         split; [done|by intros m' [= <-]|by left|]. intros m' _ Hl. split; [done|]. by intros [= <-].
       - split; [done| |by left|]; [intros m' Hm Hk|intros m' _ Hl; split; [done|]; intros Hm]; destruct (said_by_other _ _ Ek Hm) as [? Hk']; [|done].
         rewrite Hk' in Hk. done. }
  destruct (decide (p_Kind p = EventMessage)) as [Ek|Ek]; cycle 1.
  { rewrite bool_decide_eq_false_2 by done. intros [= <- <-]. split; [done| |by left|]; [intros m' Hm Hk|intros m' _ Hl; split; [done|]; intros Hm];
      destruct (said_by_other _ _ Ek Hm) as [? Hk']; [|done]. rewrite Hk' in Hk. done. }
  rewrite bool_decide_eq_true_2 by done. cbn [negb].
  assert (forall m0, said_by (with_message m0 p) = Some m0) as Hw by (intros m0; rewrite said_by_message; cbn; by rewrite bool_decide_eq_true_2).
  assert (said_by p = Some m) as Hs by (rewrite said_by_message, bool_decide_eq_true_2, Em by done; done).
  destruct (decide (m_Kind m = MessageKindDeliverable)) as [Ed|Ed]; [rewrite bool_decide_eq_true_2 by done|rewrite bool_decide_eq_false_2 by done].
  - destruct (sawDeliverable f) eqn:Ef; intros [= <- <-].
    + rewrite Hw. split; [done|by intros m' [= <-]|by left|]. intros m' Hf. congruence.
    + rewrite Hs. split; [done|intros m' _ _; done|intros _; right; by exists m|]. by intros m' Hf.
  - destruct (decide (m_Text m = "")) as [Et|Et]; [rewrite bool_decide_eq_true_2 by done|rewrite bool_decide_eq_false_2 by done]; cbn [negb]; intros [= <- <-]; rewrite Hs.
    + split; [done|intros m' [= <-] ?; done|by left|]. intros m' _ Hl. split; [done|]. by intros [= <-].
    + split; [done|intros m' [= <-] ?; done|by left|]. intros m' _ Hl. by cbn in Hl.
Qed.

Lemma funnel_spec sha t f p f' p' : funnel sha t f p = (f', p') -> tiered f f' (said_by p').
Proof.
  unfold funnel. destruct (tier f (hashToolArgs sha p)) as [f1 p1] eqn:E. intros [= <- <-]. apply tier_spec in E.
  assert (said_by (attribute t p1) = said_by p1) as ->; [|done]. destruct (attribute_same t p1) as [E1 E2].
  unfold said_by, payload_of. rewrite E1, E2. by repeat case_bool_decide.
Qed.

Lemma pushed_deliveries now typ b t :
  deliveries (push now typ b t) = deliveries t ++ filter delivers [{| ev_Seq := next_seq t; ev_Task := tk_ID t; ev_TS := now; ev_Type := typ; ev_Body := b |}].
Proof. unfold deliveries. cbn [push tk_Log]. by rewrite filter_app. Qed.

(** A progress of the runner. *)
Lemma emit_owed now f f' p t : log_ok t -> tiered f f' (said_by p) -> owed f t -> owed f' (emitProgress now p t).
Proof.
  intros Hok [T1 T2 T3 T4] (H1 & H2 & H3). unfold emitProgress. destruct (TaskState_IsTerminal (tk_State t)) eqn:Et.
  { assert (tk_Done t = true) as Hd by (by rewrite (log_done _ Hok)). split; [done|]. split; [|by rewrite Hd]. intros Hf. apply H2. by destruct (sawDeliverable f); [rewrite T1 in Hf|]. }
  assert (tk_Done t = false) as Hd by (by rewrite (log_done _ Hok)). destruct (H3 Hd) as [H4 H5].
  set (e := {| ev_Seq := next_seq t; ev_Task := tk_ID t; ev_TS := now; ev_Type := (payload_of p).1; ev_Body := (payload_of p).2 |}).
  assert (message_of e = said_by p) as Em by done.
  assert (tk_Log (push now (payload_of p).1 (payload_of p).2 t) = tk_Log t ++ [e]) as El by done.
  assert (forall m, speaks (push now (payload_of p).1 (payload_of p).2 t) -> (said_by p = Some m -> m_Text m = "") -> said_by p = Some m \/ said_by p = None -> speaks t) as Hsp.
  { intros m (e' & m' & He & Em' & Hm) Ht Hs. rewrite El in He. apply elem_of_app in He as [He| ->%list_elem_of_singleton]; [by exists e', m'|].
    exfalso. rewrite Em in Em'. destruct Hs as [Hs|Hs]; [|congruence]. rewrite Hs in Em'. injection Em' as <-. by apply Hm, Ht. }
  unfold owed. rewrite pushed_deliveries. fold e. destruct (decide (delivers e)) as [(m & Em1 & Hk)|Hn].
  - rewrite filter_cons_True by (by exists m). rewrite Em in Em1. destruct (T2 m Em1 Hk) as [Hf Hf']. rewrite (H2 Hf), Hf'. cbn. split; [lia|]. split; [done|]. done.
  - rewrite filter_cons_False, filter_nil, app_nil_r by done. split; [done|]. split; [intros Hf; apply H2; by destruct (sawDeliverable f); [rewrite T1 in Hf|]|].
    intros _. split.
    + intros Hf'. destruct (T3 Hf') as [Hf|(m & Em1 & Hk)]; [auto|]. destruct Hn. exists m. by rewrite Em.
    + intros Hf' Hl Hs. assert (sawDeliverable f = false) as Hf by (by destruct (sawDeliverable f); [rewrite T1 in Hf'|]).
      destruct (said_by p) as [m|] eqn:Es.
      * destruct (T4 m Hf' Hl) as [Hl0 Ht]. apply (H5 Hf Hl0). apply (Hsp m Hs Ht). by left.
      * destruct (T4 no_msg Hf' Hl) as [Hl0 _]. apply (H5 Hf Hl0). apply (Hsp no_msg Hs); [done|by right].
Qed.

(** What the run owes is paid before it ends. *)
Lemma backstop_answers now f state reason t : log_ok t -> owed f t ->
  answered state (match backstop f state reason with Some p => emitProgress now p t | None => t end).
Proof.
  intros Hok (H1 & H2 & H3). unfold backstop. destruct (sawDeliverable f) eqn:Ef; cbn [orb].
  { split; [done|]. intros Hd _ _. by apply H3. }
  case_bool_decide as Hc; [split; [done|]; by intros _ Hn|].
  set (text := if _ : bool then reason else lastText f). case_bool_decide as Ht.
  { split; [done|]. intros Hd _ Hsp. destruct (H3 Hd) as [_ H5]. destruct (H5 eq_refl); [|done]. unfold text in Ht.
    case_bool_decide as E1; [done|]. by cbn in Ht. }
  unfold emitProgress. destruct (TaskState_IsTerminal (tk_State t)) eqn:Et.
  { split; [done|]. intros Hd. rewrite (log_done _ Hok), Et in Hd. done. }
  unfold answered. rewrite pushed_deliveries, (H2 eq_refl). by cbn.
Qed.

(** * The whole shim *)

Section shim.
Context (url_parse : string -> option (string * string)) (rt : Runtime) (cfg_Model : string) (cfg_MCPEndpoints : list Endpoint) (sha : string -> string).
Notation step := (step url_parse rt cfg_Model cfg_MCPEndpoints sha).
Notation submit := (submit url_parse rt cfg_Model cfg_MCPEndpoints).

(** The events after the cursor of a stream. *)
Definition after (s : Sub) : list Ev -> list Ev := filter (fun e => sb_From s < ev_Seq e).
Definition read (s : Sub) : list Ev := sb_Sent s ++ option_list (sb_Hold s).

(** What a stream took, it took in order, and it passed over nothing. *)
Definition sub_ok (t : Task) (s : Sub) : Prop :=
  (sb_At s <= length (tk_Log t))%nat /\
  after s (read s) `prefix_of` after s (take (sb_At s) (tk_Log t)) /\
  (sb_Closed s = false \/ sb_Canceled s = false -> after s (read s) = after s (take (sb_At s) (tk_Log t))) /\
  (sb_Closed s = true -> sb_Hold s = None) /\
  (sb_Closed s = true -> sb_Canceled s = false -> tk_Done t = true /\ sb_At s = length (tk_Log t)).

Record world_ok (w : World) : Prop := {
  ok_id id t : tasks w !! id = Some t -> tk_ID t = id;
  ok_log id t : tasks w !! id = Some t -> log_ok t;
  ok_phase id t : tasks w !! id = Some t -> phase_ok (drives w !! id) t;
  ok_drive id : is_Some (drives w !! id) -> is_Some (tasks w !! id);
  ok_submit id : is_Some (submits w !! id) -> is_Some (tasks w !! id) /\ drives w !! id = None;
  ok_launched : NoDup (launched w) /\ forall id, id ∈ launched w <-> is_Some (drives w !! id);
  ok_sub s : s ∈ subs w -> exists t, tasks w !! sb_Task s = Some t /\ sub_ok t s }.

(** What a task does to its readers. *)
Lemma sub_grows t t' s : grows t t' -> sub_ok t s -> sub_ok t' s.
Proof.
  intros (_ & l & El & Hd) (H1 & H2 & H2' & H3 & H4). split; [rewrite El, length_app; lia|]. rewrite El, take_app_le by done. split; [done|]. split; [done|]. split; [done|].
  intros Hc Hn. destruct (H4 Hc Hn) as [Hdone Hat]. destruct (Hd Hdone) as (-> & ? & _). rewrite app_nil_r. done.
Qed.

(** A section of one task [id]: what may change of the rest. *)
Lemma world_alter w w' id f :
  world_ok w -> tasks w' = alter f id (tasks w) -> (forall i, i <> id -> drives w' !! i = drives w !! i) ->
  (forall t, tasks w !! id = Some t -> log_ok t -> phase_ok (drives w !! id) t -> log_ok (f t) /\ grows t (f t) /\ phase_ok (drives w' !! id) (f t)) ->
  (is_Some (drives w' !! id) -> is_Some (tasks w !! id)) ->
  (forall i, is_Some (submits w' !! i) -> is_Some (tasks w !! i) /\ drives w' !! i = None) ->
  (NoDup (launched w') /\ forall i, i ∈ launched w' <-> is_Some (drives w' !! i)) -> subs w' = subs w -> world_ok w'.
Proof.
  intros [H1 H2 H3 H4 H5 H6 H7] Et Ed Hf Hd Hs Hl Es.
  assert (forall i, is_Some (tasks w !! i) -> is_Some (tasks w' !! i)) as Hkeep by (intros i Hi; rewrite Et; by apply lookup_alter_is_Some).
  assert (forall i t', tasks w' !! i = Some t' -> exists t, tasks w !! i = Some t /\ (i <> id /\ t' = t \/ i = id /\ t' = f t)) as Hc.
  { intros i t'. rewrite Et. destruct (decide (i = id)) as [->|Hne]; [rewrite lookup_alter_eq, fmap_Some; intros (t & E & ->); exists t; split; [done|by right]|rewrite lookup_alter_ne by done; intros E; exists t'; split; [done|by left]]. }
  split; try done.
  - intros i t' E. destruct (Hc _ _ E) as (t & E0 & [[? ->]|[-> ->]]); [eauto|]. destruct (Hf t E0 (H2 _ _ E0) (H3 _ _ E0)) as (_ & [-> _] & _). eauto.
  - intros i t' E. destruct (Hc _ _ E) as (t & E0 & [[? ->]|[-> ->]]); [eauto|]. by destruct (Hf t E0 (H2 _ _ E0) (H3 _ _ E0)).
  - intros i t' E. destruct (Hc _ _ E) as (t & E0 & [[Hne ->]|[-> ->]]); [rewrite Ed by done; eauto|]. by destruct (Hf t E0 (H2 _ _ E0) (H3 _ _ E0)) as (_ & _ & ?).
  - intros i Hi. apply Hkeep. destruct (decide (i = id)) as [->|Hne]; [auto|]. rewrite Ed in Hi by done. auto.
  - intros i Hi. destruct (Hs _ Hi). auto.
  - intros s Hin. rewrite Es in Hin. destruct (H7 _ Hin) as (t & E & Hok). destruct (decide (sb_Task s = id)) as [E'|Hne].
    + rewrite E' in E |- *. exists (f t). rewrite Et, lookup_alter_eq, E. split; [done|]. destruct (Hf t E (H2 _ _ E) (H3 _ _ E)) as (_ & Hg & _). by eapply sub_grows.
    + exists t. by rewrite Et, lookup_alter_ne.
Qed.

(** Only the task changes. *)
Lemma world_task w id f :
  world_ok w -> (forall t, log_ok t -> phase_ok (drives w !! id) t -> log_ok (f t) /\ grows t (f t) /\ phase_ok (drives w !! id) (f t)) -> world_ok (set_task id f w).
Proof.
  intros Hw Hf. apply world_alter with (w := w) (id := id) (f := f); try done; [by intros t _; apply Hf|apply Hw|apply Hw|apply Hw].
Qed.

(** The drive of the task moves. *)
Lemma world_drive w id f pc pc' :
  world_ok w -> drives w !! id = Some pc ->
  (forall t, tasks w !! id = Some t -> log_ok t -> phase_ok (Some pc) t -> log_ok (f t) /\ grows t (f t) /\ phase_ok (Some pc') (f t)) ->
  world_ok (set_drive id pc' (set_task id f w)).
Proof.
  intros Hw E Hf. apply world_alter with (w := w) (id := id) (f := f); try done; cbn.
  - intros i Hne. by rewrite lookup_insert_ne.
  - rewrite E, lookup_insert_eq. done.
  - intros _. apply (ok_drive _ Hw). by exists pc.
  - intros i Hi. destruct (ok_submit _ Hw _ Hi) as [? Hno]. split; [done|]. rewrite lookup_insert_ne; [done|]. intros <-. congruence.
  - destruct (ok_launched _ Hw) as [H1 H2]. split; [done|]. intros i. rewrite H2. destruct (decide (i = id)) as [->|]; [rewrite E, lookup_insert_eq; done|by rewrite lookup_insert_ne].
Qed.

Lemma alter_id {A} (m : gmap string A) i : alter (fun x => x) i m = m.
Proof. apply map_eq. intros j. rewrite lookup_alter. case_decide; [|done]. subst. by destruct (m !! j). Qed.

Lemma set_task_id w id : set_task id (fun t => t) w = w.
Proof. unfold set_task. rewrite alter_id. by destruct w. Qed.

Lemma world_drive_only w id pc pc' :
  world_ok w -> drives w !! id = Some pc -> (forall t, tasks w !! id = Some t -> log_ok t -> phase_ok (Some pc) t -> phase_ok (Some pc') t) -> world_ok (set_drive id pc' w).
Proof.
  intros Hw E Hf. rewrite <- (set_task_id w id). eapply world_drive; [done|done|]. intros t Et Hl Hp. split; [done|]. split; [apply log_grows_refl|auto].
Qed.

(** Nothing of the tasks changes. *)
Lemma world_same w w' : world_ok w -> tasks w' = tasks w -> drives w' = drives w -> launched w' = launched w ->
  (forall id, is_Some (submits w' !! id) -> is_Some (submits w !! id)) ->
  (forall s, s ∈ subs w' -> s ∈ subs w \/ exists t, tasks w !! sb_Task s = Some t /\ sub_ok t s) -> world_ok w'.
Proof.
  intros [H1 H2 H3 H4 H5 H6 H7] Et Ed El Es Hs. split; rewrite ?Et, ?Ed, ?El; auto. intros s Hin. destruct (Hs s Hin); auto.
Qed.

Lemma owed_fresh t : silent t -> owed fresh_funnel t.
Proof.
  intros Hs. assert (deliveries t = []) as E by by apply no_deliveries. split; [by rewrite E; cbn; lia|]. split; [done|].
  intros _. split; [done|]. intros _ _ (e & m & He & Em & _). rewrite (Hs e He) in Em. done.
Qed.

(** ** The readers *)

Lemma skip_spec from l : (skip from l <= length l)%nat /\ filter (fun e => from < ev_Seq e) (take (skip from l) l) = [] /\
  forall e, l !! skip from l = Some e -> from < ev_Seq e.
Proof.
  induction l as [|e l (H1 & H2 & H3)]; [done|]. cbn [skip]. destruct (Z.leb_spec (ev_Seq e) from) as [H|H].
  - cbn [length take lookup list_lookup]. split; [lia|]. split; [|done]. rewrite filter_cons_False by lia. done.
  - split; [cbn; lia|]. split; [done|]. by intros e' [= <-].
Qed.

(** A stream whose cursor is at [i], and that misses nothing. *)
Lemma sub_exact t s : (sb_At s <= length (tk_Log t))%nat -> after s (read s) = after s (take (sb_At s) (tk_Log t)) ->
  (sb_Closed s = true -> sb_Hold s = None) -> (sb_Closed s = true -> sb_Canceled s = false -> tk_Done t = true /\ sb_At s = length (tk_Log t)) -> sub_ok t s.
Proof. intros H1 H2 H3 H4. split; [done|]. split; [by rewrite H2|]. done. Qed.

(** Where the skipping leaves the cursor. *)
Definition at_of (t : Task) (s : Sub) : nat := if sb_Waits s then sb_At s else (sb_At s + skip (sb_From s) (drop (sb_At s) (tk_Log t)))%nat.

Lemma at_of_spec t s : (sb_At s <= length (tk_Log t))%nat ->
  (at_of t s <= length (tk_Log t))%nat /\ after s (take (at_of t s) (tk_Log t)) = after s (take (sb_At s) (tk_Log t)) /\
  (sb_Waits s = false -> forall e, tk_Log t !! at_of t s = Some e -> sb_From s < ev_Seq e).
Proof.
  intros H. unfold at_of, after. destruct (sb_Waits s); [done|]. set (k := skip _ _).
  destruct (skip_spec (sb_From s) (drop (sb_At s) (tk_Log t))) as (K1 & K2 & K3). fold k in K1, K2, K3. rewrite length_drop in K1. split; [lia|]. split.
  - by rewrite <- take_take_drop, filter_app, K2, app_nil_r.
  - intros _ e He. apply K3. by rewrite lookup_drop.
Qed.

Lemma turn_ok t s s' : sub_turn (tk_Log t) (tk_Done t) s = Some s' -> sb_Hold s = None -> sb_Closed s = false -> sub_ok t s -> sub_ok t s' /\ sb_Task s' = sb_Task s.
Proof.
  unfold sub_turn. fold (at_of t s). intros H Hn Hcl (H1 & _ & H2 & _). specialize (H2 (or_introl Hcl)).
  destruct (at_of_spec t s H1) as (K1 & K2 & _). rewrite <- K2 in H2. unfold after, read in H2. rewrite Hn in H2. cbn [option_list] in H2. rewrite app_nil_r in H2.
  destruct (tk_Log t !! at_of t s) as [e|] eqn:E.
  - assert (length (tk_Log t) <> at_of t s) as Hlt by (apply lookup_lt_Some in E; lia).
    destruct (sb_Canceled s) eqn:Ec; simplify_eq; (split; [|done]); apply sub_exact; unfold after, read; cbn; rewrite ?app_nil_r; try done.
    + apply lookup_lt_Some in E. lia.
    + by rewrite (take_S_r _ _ _ E), !filter_app, H2.
  - apply lookup_ge_None in E. destruct (sb_Canceled s) eqn:Ec; cbn in H; [|destruct (tk_Done t) eqn:Ed; [|destruct (sb_Waits s); [done|]]]; simplify_eq;
      (split; [|done]); apply sub_exact; unfold after, read; cbn; rewrite ?app_nil_r; try done. intros _ _. split; [done|lia].
Qed.

Lemma send_ok t s e : sb_Hold s = Some e -> sub_ok t s -> sub_ok t (sub_send e s).
Proof.
  unfold sub_ok, after, read. intros He (H1 & H2 & H2' & H3 & H4). rewrite He in *. cbn. rewrite app_nil_r. split_and!; try done.
Qed.

Lemma leave_ok t s : sb_Canceled s = true -> sub_ok t s -> sub_ok t (sub_close s).
Proof.
  unfold sub_ok, after, read. intros Hc (H1 & H2 & H2' & H3 & H4). cbn. rewrite app_nil_r, Hc. rewrite filter_app in H2.
  split; [done|]. split; [by eapply prefix_app_l|]. split; [by intros [[=]|[=]]|]. split; [done|]. by intros _ [=].
Qed.

Lemma quit_ok t s : sub_ok t s -> sub_ok t (sub_cancel s).
Proof.
  intros (H1 & H2 & H2' & H3 & H4). split; [done|]. split; [done|]. cbn. split; [intros [?|[=]]; auto|]. split; [done|]. by intros _ [=].
Qed.

Lemma opened_ok t id from : sub_ok t (subscribe id from).
Proof. apply sub_exact; cbn; [lia|done|done|done]. Qed.

(** ** Every step *)

Lemma world_subs w l1 s l2 s' :
  world_ok w -> subs w = l1 ++ s :: l2 -> sb_Task s' = sb_Task s -> (forall t, tasks w !! sb_Task s = Some t -> sub_ok t s -> sub_ok t s') ->
  world_ok (set_subs (l1 ++ s' :: l2) w).
Proof.
  intros Hw E Et Hs. apply (world_same w); try done. intros s0 Hin. cbn in Hin. rewrite E.
  assert (exists t, tasks w !! sb_Task s = Some t /\ sub_ok t s) as (t & Et0 & Hok) by (apply (ok_sub _ Hw); rewrite E; apply elem_of_app; right; by left).
  apply elem_of_app in Hin as [Hin|[->|Hin]%elem_of_cons]; [left|right|left].
  - apply elem_of_app. by left.
  - exists t. rewrite Et. auto.
  - apply elem_of_app. right. by right.
Qed.

Lemma submit_registered tks t tk spec : submit tks t = Registered tk spec ->
  tks !! t_A2ATaskID t = None /\ tk = new_task url_parse rt cfg_Model t.
Proof.
  unfold Shim.submit. case_bool_decide; [done|]. destruct (tks !! t_A2ATaskID t); [done|].
  destruct (validateMCPEnvelope _ _); [|done]. destruct (rt_Command _ _ _); [|done]. by intros [= <- <-].
Qed.

Lemma world_register w t tk spec : world_ok w -> submit (tasks w) t = Registered tk spec -> world_ok (register tk spec w).
Proof.
  intros Hw (Hno & ->)%submit_registered. destruct Hw as [H1 H2 H3 H4 H5 H6 H7]. set (id := t_A2ATaskID t) in *.
  assert (drives w !! id = None) as Hd by (apply eq_None_not_Some; intros Hd; apply H4 in Hd as [? ?]; congruence).
  split; cbn; fold id.
  - intros i x. rewrite lookup_insert_Some. intros [[<- <-]|[_ E]]; [done|auto].
  - intros i x. rewrite lookup_insert_Some. intros [[<- <-]|[_ E]]; [apply new_task_ok|eauto].
  - intros i x. rewrite lookup_insert_Some. intros [[<- <-]|[_ E]]; [|auto]. rewrite Hd. split; [|done]. by intros e He%not_elem_of_nil.
  - intros i Hi. rewrite lookup_insert_is_Some'. auto.
  - intros i. rewrite !lookup_insert_is_Some'. intros [<-|Hi]; [auto|]. destruct (H5 _ Hi). auto.
  - done.
  - intros s Hin. destruct (H7 _ Hin) as (x & E & Hok). exists x. rewrite lookup_insert_ne; [done|]. intros Heq. rewrite <- Heq in E. congruence.
Qed.

Lemma world_submit w id pc pc' f :
  world_ok w -> submits w !! id = Some pc -> (forall t, log_ok t -> phase_ok None t -> log_ok (f t) /\ grows t (f t) /\ phase_ok None (f t)) ->
  world_ok (set_submit id (Some pc') (set_task id f w)).
Proof.
  intros Hw E Hf. destruct (ok_submit _ Hw id) as [Ht Hd]; [by eexists|].
  apply (world_same (set_task id f w)); try done; [apply world_task; [done|]; by rewrite Hd| |by intros s Hs; left].
  intros i. cbn. rewrite lookup_insert_is_Some'. intros [<-|Hi]; [by eexists|done].
Qed.

Lemma world_launch w id spec s : world_ok w -> submits w !! id = Some (Launch spec s) -> world_ok (launch id spec w).
Proof.
  intros Hw E. destruct (ok_submit _ Hw id) as [Ht Hd]; [by eexists|]. destruct Hw as [H1 H2 H3 H4 H5 [H6 H6'] H7]. split; cbn; try done.
  - intros i x Ex. destruct (decide (i = id)) as [->|Hne]; [|rewrite lookup_insert_ne by done; auto]. rewrite lookup_insert_eq.
    destruct (H3 _ _ Ex) as [Hp Hc]. rewrite Hd in Hp, Hc. split; [done|]. auto.
  - intros i. rewrite lookup_insert_is_Some'. intros [<-|Hi]; auto.
  - intros i. rewrite lookup_delete_is_Some. intros [Hne Hi]. destruct (H5 _ Hi). rewrite lookup_insert_ne by done. done.
  - split.
    + apply NoDup_app. split; [done|]. split; [|apply NoDup_singleton]. intros i Hi ->%list_elem_of_singleton. apply H6' in Hi. rewrite Hd in Hi. by destruct Hi.
    + intros i. rewrite elem_of_app, list_elem_of_singleton, H6', lookup_insert_is_Some'. naive_solver.
Qed.

Lemma phase_canceled pc t : log_ok t -> phase_ok pc t -> phase_ok pc (cancel_ctx t).
Proof. intros Hok Hp. by apply (wordless_phase pc t); [apply wordless_same| | |]. Qed.

Lemma world_step w w' : world_ok w -> step w w' -> world_ok w'.
Proof.
  intros Hw Hs. destruct Hs as [w t ex|w t e|w t tk spec E|w id spec now E|w id spec tk E Et|w id spec s E|w id tk E|w id spec trace E|w id spec now E|
    w id spec f tk p f' p' now E Et Hf|w id spec f tk r state reason E Et Hr Hst|w id f state reason now E|w id state reason now E|w id reason Hid|w l1 id reason l2 now E|
    w id from [t Et]|w l1 s l2 tk s' E Hcl Hh Et Ht|w l1 s l2 e E Hh|w l1 s l2 e E Hh Hc|w l1 s l2 E].
  - apply (world_same w); try done. by intros s Hs; left.
  - done.
  - by eapply world_register.
  - eapply world_submit; [done|done|]. intros t Hok Hp. destruct (log_ok_setState now TaskSubmitted "" t) as [? ?]; [done|done|].
    split; [done|]. split; [done|]. destruct (setState_done now TaskSubmitted "" t Hok). by apply (wordless_phase None t); [apply wordless_setState|..].
  - rewrite <- (set_task_id w id). eapply world_submit; [done|done|]. intros t Hok Hp. split; [done|]. split; [apply log_grows_refl|done].
  - apply (world_same (launch id spec w)); try done; [by eapply world_launch|]. by intros s0 Hs0; left.
  - apply (world_same w); try done. by intros s Hs; left.
  - eapply world_drive; [done|done|]. intros t _ Hok [Hp Hc]. destruct (log_ok_trace trace t Hok). split; [done|]. split; [done|].
    unfold setTraceID. case_bool_decide; split; try done; intros Hd _; by apply Hc.
  - eapply world_drive; [done|done|]. intros t _ Hok [Hp Hc]. destruct (log_ok_setState now TaskWorking "" t) as [? ?]; [done|done|]. split; [done|]. split; [done|].
    destruct (setState_done now TaskWorking "" t Hok) as [Ed Est]. split.
    + apply owed_fresh. eapply wordless_silent; [apply wordless_setState|done].
    + intros Hd _. rewrite Ed in Hd. rewrite Est by done. by apply Hc.
  - eapply world_drive; [done|done|]. intros t Et' Hok [Hp Hc]. destruct (log_ok_emit now p' t Hok). split; [done|]. split; [done|]. split.
    + eapply emit_owed; [done| |done]. by eapply funnel_spec.
    + unfold emitProgress. destruct (TaskState_IsTerminal (tk_State t)) eqn:Es; [intros Hd _; by apply Hc|]. cbn. rewrite (log_done _ Hok), Es. done.
  - eapply world_drive_only; [done|done|]. intros t _ Hok [Hp Hc]. split; [|intros Hd _; by apply Hc]. split; [done|].
    unfold settlement_of in Hst. destruct (tk_Canceled tk); simplify_eq; [done|]. destruct r as [o|e]; simplify_eq; [|done]. by destruct Hr as [-> | ->].
  - eapply world_drive; [done|done|]. intros t _ Hok [[Hp Hst] Hc]. pose proof (backstop_answers now f state reason t Hok Hp) as Ha.
    assert (forall o, (log_ok (match o with Some p => emitProgress now p t | None => t end) /\ grows t (match o with Some p => emitProgress now p t | None => t end)) /\
      (tk_Done (match o with Some p => emitProgress now p t | None => t end) = tk_Done t /\ tk_State (match o with Some p => emitProgress now p t | None => t end) = tk_State t)) as Hb.
    { intros [p|]; [|by split; [split; [|apply log_grows_refl]|]]. split; [by apply log_ok_emit|]. unfold emitProgress. by destruct (TaskState_IsTerminal (tk_State t)). }
    destruct (Hb (backstop f state reason)) as [[B1 B2] [B3 B4]]. destruct (backstop f state reason); (split; [done|]; split; [done|]; split; [done|]);
      intros Hd _; (transitivity (tk_State t); [exact B4|apply Hc; [congruence|done]]).
  - eapply world_drive; [done|done|]. intros t _ Hok [[Hp Hst] Hc]. destruct (log_ok_terminate now state reason t Hst Hok) as (? & ? & Hd). split; [done|]. split; [done|].
    split; [|done]. cbn. split; [done|]. rewrite (wordless_deliveries _ _ (wordless_terminate now state reason t)). destruct Hp as [H1 H2]. split; [done|].
    intros Hne Hsp. apply (wordless_speaks _ _ (wordless_terminate now state reason t)) in Hsp. unfold terminate in Hne.
    destruct (TaskState_IsTerminal (tk_State t)) eqn:Es; [|apply H2; [by rewrite (log_done _ Hok)|done|done]].
    destruct Hne. apply Hc; [by rewrite (log_done _ Hok)|done].
  - apply (world_same (set_task id cancel_ctx w)); try done; [|by intros s Hs; left]. apply world_task; [done|]. intros t Hok Hp.
    destruct (log_ok_cancel t Hok). split; [done|]. split; [done|]. by apply phase_canceled.
  - apply (world_same (set_task id (terminate now TaskCanceled reason) w)); try done; [|by intros s Hs; left]. apply world_task; [done|]. intros t Hok Hp.
    destruct (log_ok_terminate now TaskCanceled reason t) as (? & ? & _); [done|done|]. split; [done|]. split; [done|]. by apply cancel_phase.
  - apply (world_same w); try done. cbn. intros s [Hin| ->%list_elem_of_singleton]%elem_of_app; [by left|right]. exists t. split; [done|apply opened_ok].
  - destruct (ok_sub _ Hw s) as (t & Et0 & Hok); [rewrite E; apply elem_of_app; right; by left|]. simplify_eq.
    destruct (turn_ok _ _ _ Ht Hh Hcl Hok) as [Hok' Es]. eapply world_subs; [done|done|done|]. intros t0 Et1 _. by simplify_eq.
  - eapply world_subs; [done|done|done|]. intros t _ Hok. by apply send_ok.
  - eapply world_subs; [done|done|done|]. intros t _ Hok. by apply leave_ok.
  - eapply world_subs; [done|done|done|]. intros t _ Hok. by apply quit_ok.
Qed.

Notation reachable := (reachable url_parse rt cfg_Model cfg_MCPEndpoints sha).

Lemma world_idle : world_ok idle.
Proof.
  split; cbn; try by (intros *; rewrite ?lookup_empty; first [done|by intros []]).
  - split; [apply NoDup_nil_2|]. intros id. rewrite lookup_empty. split; [by intros ?%not_elem_of_nil|by intros []].
  - by intros s ?%not_elem_of_nil.
Qed.

Lemma steps_ok w w' : world_ok w -> rtc step w w' -> world_ok w'.
Proof. intros Hw Hr. induction Hr as [|w w1 w' Hs _ IH]; [done|]. apply IH. by eapply world_step. Qed.

Lemma reachable_ok w : reachable w -> world_ok w.
Proof. apply steps_ok, world_idle. Qed.

(** ** What a task keeps *)

Lemma terminate_grows now s r t : log_ok t -> grows t (terminate now s r t).
Proof.
  intros Hok. unfold terminate. destruct (TaskState_IsTerminal (tk_State t)) eqn:E; [apply log_grows_refl|]. split; [done|]. eexists. split; [reflexivity|].
  by rewrite (log_done _ Hok), E.
Qed.

Lemma alter_grows (m : gmap string Task) i f id t :
  (forall t, log_ok t -> grows t (f t)) -> (forall j x, m !! j = Some x -> log_ok x) -> m !! id = Some t -> exists t', alter f i m !! id = Some t' /\ grows t t'.
Proof.
  intros Hf Hok E. destruct (decide (i = id)) as [->|Hne]; [exists (f t); rewrite lookup_alter_eq, E|exists t; rewrite lookup_alter_ne by done; split; [done|apply log_grows_refl]].
  split; [done|]. eauto.
Qed.

Lemma step_grows w w' id t : world_ok w -> step w w' -> tasks w !! id = Some t -> exists t', tasks w' !! id = Some t' /\ grows t t'.
Proof.
  intros Hw Hs Et. pose proof (ok_log _ Hw) as Hl.
  assert (tasks w' = tasks w -> exists t', tasks w' !! id = Some t' /\ grows t t') as Hsame by (intros ->; exists t; split; [done|apply log_grows_refl]).
  destruct Hs; try (by apply Hsame); cbn; try (apply alter_grows; [|done|done]; intros t0 Hok).
  - destruct (submit_registered _ _ _ _ H) as [Hno ->]. exists t. split; [|apply log_grows_refl]. cbn. rewrite lookup_insert_ne; [done|]. intros E. rewrite E in Hno. congruence.
  - by apply log_ok_setState.
  - by apply log_ok_trace.
  - by apply log_ok_setState.
  - by apply log_ok_emit.
  - destruct (backstop f state reason); [by apply log_ok_emit|apply log_grows_refl].
  - by apply terminate_grows.
  - by apply log_ok_cancel.
  - by apply terminate_grows.
Qed.

Lemma log_grows_trans t t1 t2 : grows t t1 -> grows t1 t2 -> grows t t2.
Proof.
  intros (I1 & l1 & E1 & D1) (I2 & l2 & E2 & D2). split; [congruence|]. exists (l1 ++ l2). rewrite E2, E1, app_assoc. split; [done|]. intros Hd.
  destruct (D1 Hd) as (-> & Hd1 & ? & ? & ?). destruct (D2 Hd1) as (-> & ? & ? & ? & ?). split_and!; [done|congruence..].
Qed.

Lemma steps_grow w w' id t : world_ok w -> rtc step w w' -> tasks w !! id = Some t -> exists t', tasks w' !! id = Some t' /\ grows t t'.
Proof.
  intros Hw Hr. revert t. induction Hr as [w|w w1 w' Hs _ IH]; intros t Et; [exists t; split; [done|apply log_grows_refl]|].
  destruct (step_grows _ _ _ _ Hw Hs Et) as (t1 & E1 & G1). destruct (IH (world_step _ _ Hw Hs) t1 E1) as (t2 & E2 & G2). exists t2. split; [done|by eapply log_grows_trans].
Qed.

(** C23: A task runs once and ends once. Whatever is submitted, canceled, emitted and
    read in whatever order, no task id is ever driven twice; once a task has reached a
    terminal state its state, reason and log stay as they are for good, and submitting
    it again reports that end. *)
Theorem task_ends_once w w' id t :
  reachable w -> rtc step w w' -> tasks w !! id = Some t -> TaskState_IsTerminal (tk_State t) = true ->
  NoDup (launched w') /\
  exists t', tasks w' !! id = Some t' /\ tk_State t' = tk_State t /\ tk_Reason t' = tk_Reason t /\ tk_LastSeq t' = tk_LastSeq t /\ tk_Log t' = tk_Log t /\
    forall x, t_A2ATaskID x = id -> id <> "" -> submit (tasks w') x = Known t'.
Proof.
  intros Hr Hs E Ht. pose proof (reachable_ok _ Hr) as Hw. split; [apply (steps_ok _ _ Hw Hs)|].
  destruct (steps_grow _ _ _ _ Hw Hs E) as (t' & E' & _ & l & El & Hd). exists t'. split; [done|].
  destruct Hd as (-> & _ & ? & ? & ?); [by rewrite (log_done _ (ok_log _ Hw _ _ E))|]. split_and!; try done; [by rewrite El, app_nil_r|].
  intros x Hx Hne. unfold Shim.submit. rewrite Hx, bool_decide_eq_false_2, E' by done. done.
Qed.

(** C25: A task's log is what it went through. Its events are numbered from 1 with no
    gap, under its own id, and its status tells the last; the log of a task that has
    ended closes with the status event of that end, and no event before it, nor any
    event of a task that has not ended, is one of an end. *)
Theorem task_log_in_order w id t :
  reachable w -> tasks w !! id = Some t -> Z.of_nat (length (tk_Log t)) < 2 ^ 64 ->
  (forall i e, tk_Log t !! i = Some e -> ev_Seq e = Z.of_nat (S i) /\ ev_Task e = id) /\
  s_LastSeq (status t) = Z.of_nat (length (tk_Log t)) /\
  if TaskState_IsTerminal (tk_State t)
  then exists l e trace, tk_Log t = l ++ [e] /\ ev_Body e = BStatus (tk_State t) (tk_Reason t) trace /\ forall x, x ∈ l -> ends x = false
  else forall x, x ∈ tk_Log t -> ends x = false.
Proof.
  intros Hr E Hlen. pose proof (reachable_ok _ Hr) as Hw. destruct (ok_log _ Hw _ _ E) as [H1 H2 H3 H4]. split; [|split].
  - intros i e He. destruct (H1 _ _ He) as [-> ->]. split; [|by eapply ok_id]. apply lookup_lt_Some in He. rewrite Z.mod_small; lia.
  - cbn. rewrite H2, Z.mod_small; lia.
  - rewrite <- H3. exact H4.
Qed.

(** A run gives one answer. Its log never carries two deliverables, and the log of a
    run that ended on its own and said anything at all carries exactly one, whether its
    runtime marked it, marked several, or none. *)
Theorem one_deliverable w id t :
  reachable w -> tasks w !! id = Some t ->
  (length (deliveries t) <= 1)%nat /\
  (tk_State t = TaskCompleted \/ tk_State t = TaskFailed -> speaks t -> length (deliveries t) = 1%nat).
Proof.
  intros Hr E. pose proof (reachable_ok _ Hr) as Hw. destruct (ok_phase _ Hw _ _ E) as [Hp Hc]. pose proof (log_done _ (ok_log _ Hw _ _ E)) as Hd. split.
  - destruct (drives w !! id) as [[]|]; cbn in Hp; try (unfold deliveries; rewrite (no_deliveries (tk_Log t) Hp); cbn; lia); try apply Hp; by destruct Hp as (_ & ? & _).
  - intros Hst. assert (tk_Done t = true /\ tk_State t <> TaskCanceled) as [Hdone Hne] by (rewrite Hd; by destruct Hst as [-> | ->]).
    intros Hsp. destruct (drives w !! id) as [[]|]; try (destruct Hne; by apply Hc). by apply Hp.
Qed.

(** ** What a stream delivers *)

Lemma filter_seqs from l k : (forall i e, l !! i = Some e -> ev_Seq e = k + Z.of_nat (S i)) ->
  filter (fun e => from < ev_Seq e) l = drop (Z.to_nat (from - k)) l.
Proof.
  revert k. induction l as [|e l IH]; intros k Hk; [by rewrite drop_nil|].
  assert (ev_Seq e = k + 1) as He by (by rewrite (Hk 0%nat e eq_refl)).
  assert (forall i x, l !! i = Some x -> ev_Seq x = (k + 1) + Z.of_nat (S i)) as Hk' by (intros i x Hx; rewrite (Hk (S i) x Hx); lia).
  destruct (Z.lt_ge_cases from (k + 1)).
  - rewrite filter_cons_True, (IH _ Hk') by lia. replace (Z.to_nat (from - k)) with 0%nat by lia. replace (Z.to_nat (from - (k + 1))) with 0%nat by lia. done.
  - rewrite filter_cons_False, (IH _ Hk') by lia. replace (Z.to_nat (from - k)) with (S (Z.to_nat (from - (k + 1)))) by lia. done.
Qed.

(** A stream whose cursor the task had reached, and that took nothing before it. *)
Definition tidy (t : Task) (s : Sub) : Prop :=
  sb_From s <= Z.of_nat (length (tk_Log t)) /\ (sb_Waits s = true -> sb_From s <= Z.of_nat (sb_At s)) /\ after s (read s) = read s.

Lemma after_all (s : Sub) l : after s l = l <-> forall e, e ∈ l -> sb_From s < ev_Seq e.
Proof.
  unfold after. split.
  - intros E e He. rewrite <- E in He. by apply list_elem_of_filter in He as [? _].
  - induction l as [|e l IH]; intros H; [done|]. rewrite filter_cons_True by (apply H; by left). f_equal. apply IH. intros x Hx. apply H. by right.
Qed.

Lemma turn_tidy t s s' : log_ok t -> Z.of_nat (length (tk_Log t)) < 2 ^ 64 -> sub_ok t s -> sb_Hold s = None ->
  sub_turn (tk_Log t) (tk_Done t) s = Some s' -> tidy t s -> tidy t s' /\ sb_Task s' = sb_Task s /\ sb_From s' = sb_From s.
Proof.
  intros Hok Hlen (H1 & _) Hn H (T1 & T2 & T3). destruct (at_of_spec t s H1) as (K1 & _ & K3). unfold sub_turn in H. fold (at_of t s) in H.
  assert (sb_Sent s = read s) as Hr by (unfold read; by rewrite Hn, app_nil_r).
  destruct (tk_Log t !! at_of t s) as [e|] eqn:E.
  - destruct (sb_Canceled s); simplify_eq; (split; [|done]); (split; [done|]); (split; [done|]); rewrite !after_all in *; cbn in *; unfold read in *; cbn.
    + intros x Hx. apply T3. by rewrite app_nil_r, <- Hr in *.
    + intros x [Hx| ->%list_elem_of_singleton]%elem_of_app; [apply T3, elem_of_app; by left|].
      destruct (sb_Waits s) eqn:Ew; [|by apply (K3 eq_refl)]. unfold at_of in E. rewrite Ew in E. destruct (log_seqs _ Hok _ _ E) as [-> _].
      apply lookup_lt_Some in E. specialize (T2 eq_refl). rewrite Z.mod_small; lia.
  - apply lookup_ge_None in E. assert (read s' = read s /\ sb_From s' = sb_From s /\ sb_Task s' = sb_Task s /\ (sb_Waits s' = true -> sb_At s' = at_of t s)) as (E1 & E2 & E3 & E4).
    { unfold read. rewrite Hn. destruct (sb_Canceled s || tk_Done t); [|destruct (sb_Waits s); [done|]]; by simplify_eq. }
    split; [|done]. unfold tidy. rewrite E1, E2. split; [done|]. split; [intros Hw; rewrite (E4 Hw); lia|]. rewrite !after_all in *. by rewrite E2.
Qed.

(** What a step does of a stream. *)
Definition sub_moves (w : World) (s s' : Sub) : Prop :=
  s' = s \/ (exists tk, sb_Hold s = None /\ tasks w !! sb_Task s = Some tk /\ sub_turn (tk_Log tk) (tk_Done tk) s = Some s') \/
  (exists e, sb_Hold s = Some e /\ s' = sub_send e s) \/ s' = sub_close s \/ s' = sub_cancel s.

Lemma lookup_replaced {A} (l1 l2 : list A) x y z i : (l1 ++ x :: l2) !! i = Some y ->
  (l1 ++ z :: l2) !! i = Some y \/ y = x /\ (l1 ++ z :: l2) !! i = Some z.
Proof.
  intros H. destruct (decide (i = length l1)) as [->|Hne]; [rewrite list_lookup_middle in * by done; right; by injection H as <-|left].
  destruct (decide (i < length l1)%nat); [by rewrite lookup_app_l in * by done|]. rewrite lookup_app_r in * by lia.
  destruct (i - length l1)%nat eqn:E; [lia|done].
Qed.

Lemma step_sub w w' i s : step w w' -> subs w !! i = Some s -> exists s', subs w' !! i = Some s' /\ sub_moves w s s'.
Proof.
  intros Hs E. unfold sub_moves. destruct Hs as [| | | | | | | | | | | | | | |w id from Ht|w l1 s0 l2 tk s' E0 Hcl Hh Et Ht|w l1 s0 l2 e E0 Hh|w l1 s0 l2 e E0 Hh Hc|w l1 s0 l2 E0];
    try (exists s; by split; [|left]); cbn.
  - exists s. split; [by apply lookup_app_l_Some|by left].
  - rewrite E0 in E. destruct (lookup_replaced _ _ _ _ s' _ E) as [E1|[-> E1]]; eexists; (split; [exact E1|]); [by left|]. right. left. by exists tk.
  - rewrite E0 in E. destruct (lookup_replaced _ _ _ _ (sub_send e s0) _ E) as [E1|[-> E1]]; eexists; (split; [exact E1|]); [by left|]. right. right. left. by exists e.
  - rewrite E0 in E. destruct (lookup_replaced _ _ _ _ (sub_close s0) _ E) as [E1|[-> E1]]; eexists; (split; [exact E1|]); auto.
  - rewrite E0 in E. destruct (lookup_replaced _ _ _ _ (sub_cancel s0) _ E) as [E1|[-> E1]]; eexists; (split; [exact E1|]); auto 6.
Qed.

Lemma moves_tidy w s s' t : world_ok w -> sub_moves w s s' -> s ∈ subs w -> tasks w !! sb_Task s = Some t -> Z.of_nat (length (tk_Log t)) < 2 ^ 64 -> tidy t s ->
  tidy t s' /\ sb_Task s' = sb_Task s /\ sb_From s' = sb_From s.
Proof.
  intros Hw Hm Hin E Hlen Ht. destruct Hm as [->|[(tk & Hn & E' & Hturn)|[(e & He & ->)|[-> | ->]]]]; [done|simplify_eq|..].
  - destruct (ok_sub _ Hw _ Hin) as (t0 & E0 & Hok). simplify_eq. eapply turn_tidy; eauto using ok_log.
  - destruct Ht as (T1 & T2 & T3). split; [|done]. split; [done|]. split; [done|]. unfold read in *. rewrite He in T3. cbn. by rewrite app_nil_r.
  - destruct Ht as (T1 & T2 & T3). split; [|done]. split; [done|]. split; [done|]. rewrite after_all in *. unfold read in *. cbn. rewrite app_nil_r.
    intros x Hx. apply T3, elem_of_app. by left.
  - done.
Qed.

Lemma tidy_grows t t' s : grows t t' -> tidy t s -> tidy t' s.
Proof. intros (_ & l & El & _) (T1 & T2 & T3). split; [rewrite El, length_app; lia|done]. Qed.

Lemma grows_length t t' : grows t t' -> (length (tk_Log t) <= length (tk_Log t'))%nat.
Proof. intros (_ & l & -> & _). rewrite length_app. lia. Qed.

(** A stream opened at a cursor the task has reached stays tidy. *)
Lemma stays_tidy w w' i s t : world_ok w -> rtc step w w' -> subs w !! i = Some s -> tasks w !! sb_Task s = Some t -> tidy t s ->
  forall t', tasks w' !! sb_Task s = Some t' -> Z.of_nat (length (tk_Log t')) < 2 ^ 64 ->
  exists s', subs w' !! i = Some s' /\ sb_Task s' = sb_Task s /\ sb_From s' = sb_From s /\ tidy t' s'.
Proof.
  intros Hw Hr. revert s t. induction Hr as [w|w w1 w' Hs Hr IH]; intros s t Es Et Ht t' Et' Hlen; [simplify_eq; by exists s|].
  destruct (step_sub _ _ _ _ Hs Es) as (s1 & Es1 & Hm). pose proof (world_step _ _ Hw Hs) as Hw1.
  destruct (step_grows _ _ _ _ Hw Hs Et) as (t1 & Et1 & Hg). destruct (steps_grow _ _ _ _ Hw1 Hr Et1) as (t2 & Et2 & Hg2). simplify_eq.
  pose proof (grows_length _ _ Hg). pose proof (grows_length _ _ Hg2).
  destruct (moves_tidy _ _ _ _ Hw Hm (list_elem_of_lookup_2 _ _ _ Es) Et ltac:(lia) Ht) as (Ht1 & E1 & E2).
  rewrite <- E1 in Et1, Et'. destruct (IH Hw1 s1 t1 Es1 Et1 (tidy_grows _ _ _ Hg Ht1) t' Et' Hlen) as (s' & ? & ? & ? & ?). exists s'. split_and!; [done|congruence..|done].
Qed.

(** C24: A stream resumes without a gap. A reader that asks from an event the task has
    reached is sent the events after it, one by one, in order and without repetition,
    whether the task runs or is over; and a stream that closes on a reader who has not
    left has sent every event to the last, and its task has ended. *)
Theorem stream_gap_free w w' id from tk s t :
  reachable w -> tasks w !! id = Some tk -> from <= s_LastSeq (status tk) ->
  rtc step (set_subs (subs w ++ [subscribe id from]) w) w' -> subs w' !! length (subs w) = Some s ->
  tasks w' !! id = Some t -> Z.of_nat (length (tk_Log t)) < 2 ^ 64 ->
  sb_Sent s `prefix_of` drop (Z.to_nat from) (tk_Log t) /\
  (sb_Closed s = true -> sb_Canceled s = false -> TaskState_IsTerminal (tk_State t) = true /\ sb_Sent s = drop (Z.to_nat from) (tk_Log t)).
Proof.
  intros Hr Etk Hfrom Hsteps Es E Hlen. set (w0 := set_subs _ w) in *.
  assert (step w w0) as Hs0 by (constructor; by exists tk). pose proof (world_step _ _ (reachable_ok _ Hr) Hs0) as Hw0.
  destruct (steps_grow _ _ id tk Hw0 Hsteps Etk) as (t' & Et' & Hg). simplify_eq. pose proof (grows_length _ _ Hg) as Hgl.
  assert (tidy tk (subscribe id from)) as Ht0.
  { split; [|done]. cbn in Hfrom |- *. rewrite (log_last _ (ok_log _ Hw0 _ _ Etk)), Z.mod_small in Hfrom; lia. }
  destruct (stays_tidy w0 w' (length (subs w)) (subscribe id from) tk Hw0 Hsteps) with (t' := t) as (s' & Es' & Eid & Ef & _ & _ & Ha); try done.
  { cbn. rewrite lookup_app_r, Nat.sub_diag by done. done. }
  assert (s' = s) as -> by congruence. cbn in Eid, Ef. destruct (ok_sub _ (steps_ok _ _ Hw0 Hsteps) s) as (t0 & E0 & Hat & Hp & Heq & Hh & Hc); [by eapply list_elem_of_lookup_2|].
  assert (t0 = t) as -> by congruence. destruct (ok_log _ (steps_ok _ _ Hw0 Hsteps) _ _ E) as [Hseq _ Hd _].
  assert (forall i e, tk_Log t !! i = Some e -> ev_Seq e = 0 + Z.of_nat (S i)) as Hi.
  { intros i e He. destruct (Hseq _ _ He) as [-> _]. apply lookup_lt_Some in He. rewrite Z.mod_small; lia. }
  pose proof (filter_seqs (sb_From s) (tk_Log t) 0 Hi) as Hf. rewrite Z.sub_0_r in Hf. rewrite Ha in Hp, Heq. rewrite <- Ef, <- Hf. unfold read, after in *. split.
  - etrans; [by eapply prefix_app_l|]. rewrite <- (take_drop (sb_At s) (tk_Log t)) at 2. rewrite filter_app. by apply prefix_app_r.
  - intros Hcl Hn. destruct (Hc Hcl Hn) as [Hdone Ha']. split; [by rewrite <- Hd|]. rewrite (Hh Hcl), app_nil_r, Ha', firstn_all in Heq. auto.
Qed.
End shim.

(** * What a launch carries *)

Lemma missing_none tokens ep name : missing_env tokens ep = None -> ~ (ep_Transport ep = "stdio" /\ ep_Image ep <> "") -> name ∈ ep_EnvNames ep ->
  is_Some (tokens !! name).
Proof.
  unfold missing_env. intros H Hn Hin. destruct (bool_decide (ep_Transport ep = "stdio") && negb (bool_decide (ep_Image ep = ""))) eqn:E.
  { apply andb_true_iff in E as [E1%bool_decide_eq_true E2%negb_true_iff%bool_decide_eq_false]. by destruct Hn. }
  destruct (decide (is_Some (tokens !! name))) as [|Hno]; [done|]. exfalso.
  assert (name ∈ filter (fun name => token_of tokens name = false) (ep_EnvNames ep)) as Hf by (apply list_elem_of_filter; split; [by apply bool_decide_eq_false|done]).
  destruct (filter _ _); [by apply not_elem_of_nil in Hf|done].
Qed.

Lemma envelope_ok endpoints tokens : validateMCPEnvelope endpoints tokens = Ok tt -> forall ep, ep ∈ endpoints -> missing_env tokens ep = None.
Proof.
  induction endpoints as [|e l IH]; [by intros _ ep H%not_elem_of_nil|]. cbn. destruct (missing_env tokens e) eqn:E; [done|]. intros H ep [->|Hin]%elem_of_cons; auto.
Qed.

Lemma credential_env tokens name v : tokens !! name = Some v -> (name +:+ "=" +:+ v) ∈ mcpCredentialEnv tokens.
Proof.
  intros E. unfold mcpCredentialEnv. apply list_elem_of_fmap. exists name. rewrite E. split; [done|]. rewrite merge_sort_Permutation.
  apply list_elem_of_fmap. exists (name, v). split; [done|]. by apply elem_of_map_to_list.
Qed.

(** A task that is launched has the value of every credential its endpoints name, but
    for the staged ones, in the environment of its process; one that lacks any is
    refused, and nothing of it is kept. *)
Lemma launch_has_credentials url_parse rt model endpoints tks t tk spec ep name :
  submit url_parse rt model endpoints tks t = Registered tk spec -> ep ∈ t_MCPEndpoints t -> ~ (ep_Transport ep = "stdio" /\ ep_Image ep <> "") ->
  name ∈ ep_EnvNames ep -> exists v, t_MCPTokenEnv t !! name = Some v /\ (name +:+ "=" +:+ v) ∈ sp_Env spec.
Proof.
  unfold submit. intros H Hep Hn Hname. case_bool_decide; [done|]. destruct (tks !! t_A2ATaskID t); [done|].
  destruct (validateMCPEnvelope (t_MCPEndpoints t) (t_MCPTokenEnv t)) as [[]|] eqn:Ev; [|done]. destruct (rt_Command _ _ _); [|done]. simplify_eq.
  destruct (missing_none _ _ _ (envelope_ok _ _ Ev _ Hep) Hn Hname) as [v Ev']. exists v. split; [done|]. cbn. apply elem_of_app. right. by apply credential_env.
Qed.

(** * A run that speaks once *)

Module Demo.
Definition parse (_ : string) : option (string * string) := None.
Definition sha (_ : string) : string := "".
Definition spec : ExecSpec := {| sp_Env := []; sp_Warmup := None; sp_Rest := "" |}.
Definition rt : Runtime := {| rt_Type := "demo"; rt_DefaultModel := "claude"; rt_Command := fun _ _ => Ok spec |}.
Definition sub (id : string) : A2ATask :=
  {| t_A2ATaskID := id; t_ModelRoute := {| mr_Model := ""; mr_Endpoint := ""; mr_Token := "" |}; t_MCPEndpoints := []; t_MCPTokenEnv := ∅; t_Rest := "" |}.
Definition tk : Task := new_task parse rt "" (sub "r1").
Definition says (text : string) : Progress :=
  {| p_Kind := EventMessage; p_Message := Some {| m_Role := "agent"; m_Text := text; m_Trust := "untrusted"; m_Kind := MessageKindThinking |};
     p_Tool := None; p_Usage := None; p_SkillLoad := None; p_Artifact := None; p_Auth := None; p_RateLimited := None; p_ToolArgs := "" |}.
Definition spoke : Funnel := {| sawDeliverable := false; lastText := "42" |}.

Notation reachable := (reachable parse rt "" [] sha).
Notation step := (step parse rt "" [] sha).

Definition w1 : World := register tk spec idle.
Definition w2 : World := set_submit "r1" (Some (Snapshot spec)) (set_task "r1" (setState 1 TaskSubmitted "") w1).
Definition w3 : World := set_submit "r1" (Some (Launch spec (status (setState 1 TaskSubmitted "" tk)))) w2.
Definition w4 : World := answer "r1" (status (setState 1 TaskSubmitted "" tk)) (launch "r1" spec w3).
Definition w5 : World := set_drive "r1" (Working spec) (set_task "r1" (setTraceID "") w4).
Definition w6 : World := set_drive "r1" (Running spec fresh_funnel) (set_task "r1" (setState 2 TaskWorking "") w5).
Definition w7 : World := set_drive "r1" (Running spec spoke) (set_task "r1" (emitProgress 3 (says "42")) w6).
Definition w8 : World := set_drive "r1" (Settled spoke TaskCompleted "") w7.
Definition w9 : World := set_drive "r1" (Ending TaskCompleted "")
  (set_task "r1" (match backstop spoke TaskCompleted "" with Some p => emitProgress 4 p | None => fun t => t end) w8).
Definition w10 : World := set_drive "r1" Over (set_task "r1" (terminate 5 TaskCompleted "") w9).
Definition final : Task := Eval vm_compute in default tk (tasks w10 !! "r1").
Definition last_event : Ev := Eval vm_compute in default {| ev_Seq := 0; ev_Task := ""; ev_TS := 0; ev_Type := ""; ev_Body := BSkillLoad "" |} (last (tk_Log final)).
Definition w11 : World := set_subs [subscribe "r1" 4] w10.
Definition s1 : Sub := {| sb_Task := "r1"; sb_From := 4; sb_At := 5; sb_Waits := false; sb_Hold := Some last_event; sb_Sent := []; sb_Canceled := false; sb_Closed := false |}.
Definition s2 : Sub := sub_send last_event s1.
Definition s3 : Sub := {| sb_Task := "r1"; sb_From := 4; sb_At := 5; sb_Waits := false; sb_Hold := None; sb_Sent := [last_event]; sb_Canceled := false; sb_Closed := true |}.
Definition w12 : World := set_subs [s1] w11.
Definition w13 : World := set_subs [s2] w12.
Definition w14 : World := set_subs [s3] w13.

Lemma go w w' : reachable w -> step w w' -> reachable w'.
Proof. intros Hr Hs. by eapply rtc_r. Qed.

Lemma ran : reachable w10.
Proof.
  assert (reachable w4) as H.
  { eapply go; [eapply go; [eapply go; [eapply go; [apply rtc_refl|]|]|]|].
    - by apply (submit_registers _ _ _ _ _ idle (sub "r1")).
    - by apply (submit_seeds _ _ _ _ _ w1 "r1" spec 1).
    - by apply (submit_reads _ _ _ _ _ w2 "r1" spec).
    - by apply (submit_launches _ _ _ _ _ w3 "r1" spec). }
  eapply go; [eapply go; [eapply go; [eapply go; [eapply go; [eapply go; [exact H|]|]|]|]|]|].
  - by apply (drive_traces _ _ _ _ _ w4 "r1" spec "").
  - by apply (drive_works _ _ _ _ _ w5 "r1" spec 2).
  - by apply (runner_emits _ _ _ _ _ w6 "r1" spec fresh_funnel (default tk (tasks w6 !! "r1")) (says "42") spoke (says "42") 3).
  - apply (runner_returns _ _ _ _ _ w7 "r1" spec spoke (default tk (tasks w7 !! "r1")) (Ok {| o_State := TaskCompleted; o_Reason := "" |})); [done|done|by left|done].
  - by apply (drive_owes _ _ _ _ _ w8 "r1" spoke TaskCompleted "" 4).
  - by apply (drive_ends _ _ _ _ _ w9 "r1" TaskCompleted "" 5).
Qed.

Lemma at_end : tasks w10 !! "r1" = Some final.
Proof. vm_compute. reflexivity. Qed.

Lemma opens : step w10 w11.
Proof. apply (stream_opens _ _ _ _ _ w10 "r1" 4). exists final. exact at_end. Qed.

Lemma streams : rtc step w11 w14.
Proof.
  eapply rtc_l; [|eapply rtc_l; [|apply rtc_once]].
  - apply (stream_turns _ _ _ _ _ w11 [] (subscribe "r1" 4) [] final s1); [done|done|done|exact at_end|vm_compute; reflexivity].
  - by apply (stream_sends _ _ _ _ _ w12 [] s1 [] last_event).
  - apply (stream_turns _ _ _ _ _ w13 [] s2 [] final s3); [done|done|done|exact at_end|vm_compute; reflexivity].
Qed.

(** A cancellation that comes before the submission has logged its state. *)
Definition c1 : World := set_cancels [("r1", "canceled")] (set_task "r1" cancel_ctx w1).
Definition c2 : World := set_cancels [] (set_task "r1" (terminate 1 TaskCanceled "canceled") c1).
Definition c3 : World := set_submit "r1" (Some (Snapshot spec)) (set_task "r1" (setState 2 TaskSubmitted "") c2).
Definition ended : Task := terminate 1 TaskCanceled "canceled" (cancel_ctx tk).
Definition c4 : World := set_submit "r1" (Some (Launch spec (status ended))) c3.
Definition c5 : World := answer "r1" (status ended) (launch "r1" spec c4).

Lemma registered : reachable w1.
Proof. apply (go idle); [apply rtc_refl|]. by apply (submit_registers _ _ _ _ _ idle (sub "r1")). Qed.

(** Such a submission answers that it is canceled, its log has no submitted state, and
    its runtime is launched all the same. *)
Lemma canceled_before_submitted :
  reachable c5 /\ (fun x => s_State x.2) <$> last (answers c5) = Some TaskCanceled /\ launched c5 = ["r1"] /\
  ev_Body <$> tk_Log (default tk (tasks c5 !! "r1")) = [BStatus TaskCanceled "canceled" ""].
Proof.
  split; [|vm_compute; done]. eapply go; [eapply go; [eapply go; [eapply go; [eapply go; [exact registered|]|]|]|]|].
  - apply (cancel_signals _ _ _ _ _ w1 "r1" ""). exists tk. vm_compute. reflexivity.
  - by apply (cancel_ends _ _ _ _ _ c1 [] "r1" "canceled" [] 1).
  - apply (submit_seeds _ _ _ _ _ c2 "r1" spec 2). vm_compute. reflexivity.
  - apply (submit_reads _ _ _ _ _ c3 "r1" spec ended); vm_compute; reflexivity.
  - apply (submit_launches _ _ _ _ _ c4 "r1" spec). vm_compute. reflexivity.
Qed.

(** A stream opened past the last event of its task. *)
Definition p0 : Sub := subscribe "r1" 9.
Definition p1 : Sub := {| sb_Task := "r1"; sb_From := 9; sb_At := 0; sb_Waits := true; sb_Hold := None; sb_Sent := []; sb_Canceled := false; sb_Closed := false |}.
Definition first_event : Ev := {| ev_Seq := 1; ev_Task := "r1"; ev_TS := 1; ev_Type := EventStatus; ev_Body := BStatus TaskSubmitted "" "" |}.
Definition p2 : Sub := {| sb_Task := "r1"; sb_From := 9; sb_At := 1; sb_Waits := false; sb_Hold := Some first_event; sb_Sent := []; sb_Canceled := false; sb_Closed := false |}.
Definition d1 : World := set_subs [p0] w1.
Definition d2 : World := set_subs [p1] d1.
Definition d3 : World := set_submit "r1" (Some (Snapshot spec)) (set_task "r1" (setState 1 TaskSubmitted "") d2).
Definition d4 : World := set_subs [p2] d3.
Definition d5 : World := set_subs [sub_send first_event p2] d4.

(** It is sent an event that its cursor says it has. *)
Lemma stale_cursor_replays : reachable d5 /\ exists s e, s ∈ subs d5 /\ e ∈ sb_Sent s /\ ev_Seq e < sb_From s.
Proof.
  split; [|exists (sub_send first_event p2), first_event; split_and!; [by left|by left|done]].
  eapply go; [eapply go; [eapply go; [eapply go; [eapply go; [exact registered|]|]|]|]|].
  - apply (stream_opens _ _ _ _ _ w1 "r1" 9). exists tk. vm_compute. reflexivity.
  - apply (stream_turns _ _ _ _ _ d1 [] p0 [] tk p1); [done|done|done|vm_compute; reflexivity..].
  - apply (submit_seeds _ _ _ _ _ d2 "r1" spec 1). vm_compute. reflexivity.
  - apply (stream_turns _ _ _ _ _ d3 [] p1 [] (setState 1 TaskSubmitted "" tk) p2); [done|done|done|vm_compute; reflexivity..].
  - by apply (stream_sends _ _ _ _ _ d4 [] p2 [] first_event).
Qed.
End Demo.

Lemma task_ends_once_witness : tk_State Demo.final = TaskCompleted /\ NoDup (launched Demo.w14) /\ launched Demo.w14 = ["r1"].
Proof.
  split; [vm_compute; reflexivity|]. split; [|vm_compute; reflexivity].
  apply (task_ends_once Demo.parse Demo.rt "" [] Demo.sha Demo.w10 Demo.w14 "r1" Demo.final); [apply Demo.ran| |exact Demo.at_end|reflexivity].
  eapply rtc_l; [apply Demo.opens|apply Demo.streams].
Defined.

Lemma task_log_in_order_witness : length (tk_Log Demo.final) = 5%nat /\ s_LastSeq (status Demo.final) = 5.
Proof.
  split; [reflexivity|].
  destruct (task_log_in_order Demo.parse Demo.rt "" [] Demo.sha Demo.w10 "r1" Demo.final Demo.ran) as (_ & -> & _); [exact Demo.at_end|reflexivity..].
Defined.

Lemma one_deliverable_witness : speaks Demo.final /\ length (deliveries Demo.final) = 1%nat.
Proof.
  assert (speaks Demo.final) as Hs.
  { eexists _, _. split; [apply (list_elem_of_lookup_2 _ 2); reflexivity|]. split; [reflexivity|]. discriminate. }
  split; [exact Hs|]. apply (one_deliverable Demo.parse Demo.rt "" [] Demo.sha Demo.w10 "r1" Demo.final Demo.ran); [exact Demo.at_end|by left|exact Hs].
Defined.

Lemma stream_gap_free_witness : sb_Sent Demo.s3 = drop 4 (tk_Log Demo.final) /\ length (sb_Sent Demo.s3) = 1%nat.
Proof.
  split; [|reflexivity].
  destruct (stream_gap_free Demo.parse Demo.rt "" [] Demo.sha Demo.w10 Demo.w14 "r1" 4 Demo.final Demo.s3 Demo.final Demo.ran) as [_ H];
    [exact Demo.at_end|discriminate|exact Demo.streams|reflexivity|exact Demo.at_end|reflexivity|apply (H eq_refl eq_refl)].
Defined.
