(* ===== verification/Objects.v ===== *)
(** The objects a Run's capabilities are assembled from, as the fields the code reads
    of them (src/api/v1alpha1), the calls it makes of the API server and of the token
    minter, and how two programs over those calls are compared. *)
From S2P Require Import Prelude Calls.
Open Scope k8s_scope.

(** * Objects *)

Record ObjectRef : Set := { ref_ns : string; ref_name : string }.

#[export] Instance ObjectRef_eq_dec : EqDecision ObjectRef.
Proof. solve_decision. Defined.

(** rbac/v1 PolicyRule *)
Record PolicyRule : Set := {
  Verbs : list string; APIGroups : list string; Resources : list string; ResourceNames : list string; NonResourceURLs : list string }.

Record ToolchainVersion : Set := { tv_Version : string; tv_Image : string; tv_Provides : list string }.
Record ToolchainRBAC : Set := { rb_Scope : string; rb_Rules : list PolicyRule }.
Record Toolchain : Set := { tc_ns : string; tc_name : string; tc_Versions : list ToolchainVersion; tc_RBAC : option ToolchainRBAC }.

Record Team : Set := { tm_UID : string; tm_Grants : list (string * list string) }.
Record Agent : Set := { ag_ns : string; ag_SkillRefs : list ObjectRef; ag_RoleRef : ObjectRef }.
Record Role : Set := { rl_DefaultSkills : list ObjectRef; rl_Coordinator : bool; rl_CoordinatorMode : string }.

(** A git source; only its presence and text are handed on. *)
Definition GitSource : Set := string.
Record Skill : Set := {
  sk_ns : string; sk_SourceType : string; sk_Inline : string; sk_Git : option GitSource; sk_Permissions : list string;
  sk_CredentialType : string; sk_McpToolRefs : list ObjectRef; sk_Toolchains : list string; sk_Sidecars : list string }.

Record SecretRef : Set := { sr_name : string; sr_key : string }.
Record ToolFilter : Set := { tf_Allow : list string; tf_Deny : list string }.
Record Condition : Set := { cd_Type : string; cd_Status : string; cd_Message : string }.
Record MCPServer : Set := {
  ms_ns : string; ms_name : string; ms_Transport : string; ms_Endpoint : string; ms_Command : string; ms_Args : list string; ms_Image : string;
  ms_Headers : gmap string string; ms_CredentialSecretRef : option SecretRef; ms_ToolFilter : option ToolFilter; ms_EgressRef : option ObjectRef;
  ms_ObservedTools : list string; ms_Conditions : list Condition }.

(** The normalized server a Run is wired to. *)
Record Endpoint : Set := {
  ep_Name : string; ep_Transport : string; ep_URL : string; ep_Command : string; ep_Args : list string; ep_Image : string;
  ep_EnvNames : list string; ep_Headers : gmap string string; ep_AllowTools : list string; ep_DenyTools : list string;
  ep_CredentialSecretRef : option SecretRef; ep_EgressPolicyRef : option ObjectRef }.

Record GrantedSkill : Set := {
  gs_ns : string; gs_name : string; gs_SourceType : string; gs_Inline : string; gs_Git : option GitSource; gs_Permissions : list string;
  gs_CredentialType : string }.

Record ResolvedToolchainRef : Set := {
  rt_Name : string; rt_Version : string; rt_Image : string; rt_SourceNamespace : string; rt_Provides : list string }.
Record ResolvedMCPEndpoint : Set := {
  re_Name : string; re_Transport : string; re_URL : string; re_Headers : gmap string string; re_Command : string; re_Args : list string;
  re_Image : string; re_Sidecar : bool; re_AllowTools : list string; re_DenyTools : list string;
  re_CredentialSecretRef : option SecretRef; re_EgressPolicyRef : option ObjectRef }.
Record CapabilityManifest : Set := {
  mf_Toolchains : list ResolvedToolchainRef; mf_MCPEndpoints : list ResolvedMCPEndpoint; mf_Skills : list GrantedSkill;
  mf_CapabilityHash : string }.

Record Run : Set := {
  rn_ns : string; rn_name : string; rn_UID : string; rn_OwnedBy : string; rn_TeamRef : ObjectRef; rn_Agents : list ObjectRef;
  rn_Labels : gmap string string; rn_Manifest : option CapabilityManifest }.

Definition or_ns (ns fallback : string) : string := if bool_decide (ns = "") then fallback else ns.

(** * Calls *)

Inductive Read (A : Type) : Type := Found (a : A) | NotFound | ReadError.
Arguments Found {A} a.
Arguments NotFound {A}.
Arguments ReadError {A}.

Record Claims : Set := { cl_TeamID : string; cl_Principal : string; cl_AgentID : string; cl_RunID : string; cl_Capabilities : list string }.

(** What a ConfigMap carries; its JSON is left out. *)
Inductive Document : Set :=
| MCPDocument (endpoints : list Endpoint)
| SkillDocument (body : string) (permissions : list string).

Inductive CreateAnswer : Set := Created | AlreadyExists | CreateError.

Inductive Call : Type -> Type :=
| GetTeam (ns name : string) : Call (Read Team)
| GetAgent (ns name : string) : Call (Read Agent)
| GetRole (ns name : string) : Call (Read Role)
| GetSkill (ns name : string) : Call (Read Skill)
| GetToolchain (ns name : string) : Call (Read Toolchain)
| GetMCPServer (ns name : string) : Call (Read MCPServer)
| GetEgressPolicy (ns name : string) : Call (Read unit)
| GetSecret (ns name : string) : Call (Read unit)
| GetConfigMap (ns name : string) : Call (Read unit)
| ListSkillConfigMaps (ns run : string) : Call (option (list string))
(* Create-or-update of the per-Run RBAC objects, which carry their owner. *)
| PutRole (ns name : string) (owner : ObjectRef) (rules : list PolicyRule) : Call bool
| PutRoleBinding (ns name : string) (owner subject : ObjectRef) (role : string) : Call bool
| PutClusterRole (name : string) (owner : ObjectRef) (rules : list PolicyRule) : Call bool
| PutClusterRoleBinding (name : string) (owner subject : ObjectRef) (role : string) : Call bool
(* Deletions; an object that is not there counts as deleted. *)
| DeleteRole (ns name : string) : Call bool
| DeleteRoleBinding (ns name : string) : Call bool
| DeleteClusterRole (name : string) : Call bool
| DeleteClusterRoleBinding (name : string) : Call bool
| DeleteConfigMap (ns name : string) : Call bool
| CreateConfigMap (ns name : string) (doc : Document) : Call bool
| UpdateConfigMap (ns name : string) (doc : Document) : Call bool
| CreateSecret (ns name token : string) : Call CreateAnswer
| Mint (c : Claims) : Call (option string).

Notation Prog := (Calls.Prog Call).
Notation ret := Ret.

(** Programs that may fail. *)
Definition xbind {E A B} (p : Prog (result E A)) (k : A -> Prog (result E B)) : Prog (result E B) :=
  let* r := p in match r with Ok a => k a | Err e => ret (Err e) end.
Notation "'let!' x ':=' m 'in' k" := (xbind m (fun x => k)) (at level 10, x pattern, m at level 100, k at level 200) : k8s_scope.
Definition fail {E A} (e : E) : Prog (result E A) := ret (Err e).
Definition done_ {E A} (a : A) : Prog (result E A) := ret (Ok a).

(** * A cluster that answers the same *)

Fixpoint exec {A} (ask : forall X, Call X -> X) (p : Prog A) : A :=
  match p with Ret a => a | Do c k => exec ask (k (ask _ c)) end.

Lemma exec_bind {A B} ask (p : Prog A) (k : A -> Prog B) : exec ask (pbind p k) = exec ask (k (exec ask p)).
Proof. induction p as [|X c f IH]; cbn; [done|]. apply IH. Qed.

Lemma exec_xbind {E A B} ask (p : Prog (result E A)) (k : A -> Prog (result E B)) :
  exec ask (xbind p k) = match exec ask p with Ok a => exec ask (k a) | Err e => Err e end.
Proof. unfold xbind. rewrite exec_bind. by destruct (exec ask p). Qed.

(** * Programs that make the same calls *)

Inductive same_calls {A B} (R : A -> B -> Prop) : Prog A -> Prog B -> Prop :=
| same_ret a b : R a b -> same_calls R (Ret a) (Ret b)
| same_do X (c : Call X) k k' : (forall x, same_calls R (k x) (k' x)) -> same_calls R (Do c k) (Do c k').

Lemma same_bind {A B A' B'} (R : A -> B -> Prop) (R' : A' -> B' -> Prop) p q k k' :
  same_calls R p q -> (forall a b, R a b -> same_calls R' (k a) (k' b)) -> same_calls R' (pbind p k) (pbind q k').
Proof. intros H Hk. induction H as [a b H|X c f f' _ IH]; cbn; [by apply Hk|]. constructor. intros x. apply IH. Qed.

(** Each execution of the one is one of the other, call for call. *)
Lemma same_runs {A B W} (R : A -> B -> Prop) (h : forall X, Call X -> W -> X -> W -> Prop) p q w t a w' :
  same_calls R p q -> runs h p w t a w' -> exists b, runs h q w t b w' /\ R a b.
Proof.
  intros H. revert w t. induction H as [a0 b H|X c k k' _ IH]; intros w t Hr; apply runs_inv in Hr.
  - destruct Hr as (-> & -> & ->). exists b. split; [constructor|done].
  - destruct Hr as (x & w1 & t' & -> & Hh & Hr). destruct (IH _ _ _ Hr) as (b & Hb & HR). exists b. split; [by econstructor|done].
Qed.

Lemma same_flip {A B} (R : A -> B -> Prop) p q : same_calls R p q -> same_calls (flip R) q p.
Proof. induction 1; by constructor. Qed.

Definition same_result {E A B} (R : A -> B -> Prop) (x : result E A) (y : result E B) : Prop :=
  match x, y with Ok a, Ok b => R a b | Err e, Err e' => e = e' | _, _ => False end.

Lemma same_xbind {E A B A' B'} (R : A -> B -> Prop) (R' : A' -> B' -> Prop) (p : Prog (result E A)) (q : Prog (result E B)) k k' :
  same_calls (same_result R) p q -> (forall a b, R a b -> same_calls (same_result R') (k a) (k' b)) ->
  same_calls (same_result R') (xbind p k) (xbind q k').
Proof. intros H Hk. eapply same_bind; [done|]. intros [a|e] [b|e'] HR; cbn in HR; try done; [by apply Hk|subst; by constructor]. Qed.

Lemma same_self {A} (p : Prog A) : same_calls eq p p.
Proof. induction p; by constructor. Qed.

(** The execution against such a cluster. *)
Fixpoint trace {A} (ask : forall X, Call X -> X) (p : Prog A) : list (Event Call) :=
  match p with Ret _ => [] | Do c k => Ev c (ask _ c) :: trace ask (k (ask _ c)) end.

Definition asked (ask : forall X, Call X -> X) X (c : Call X) (w : unit) (x : X) (w' : unit) : Prop := x = ask X c.

Lemma runs_exec {A} ask (p : Prog A) : runs (asked ask) p tt (trace ask p) (exec ask p) tt.
Proof. induction p as [a|X c k IH]; cbn; [constructor|]. by econstructor. Qed.

Lemma xbind_ret {E A B} (r : result E A) (k : A -> Prog (result E B)) : xbind (ret r) k = match r with Ok a => k a | Err e => ret (Err e) end.
Proof. done. Qed.

(** Every answer of the execution is the cluster's. *)
Definition agrees (ask : forall X, Call X -> X) (e : Event Call) : Prop := match e with Ev c x => x = ask _ c end.

Lemma trace_agrees {A} ask (p : Prog A) : Forall (agrees ask) (trace ask p).
Proof. induction p as [a|X c k IH]; cbn; constructor; [done|apply IH]. Qed.

Lemma trace_answers {A X} ask (p : Prog A) l (c : Call X) x : l `prefix_of` trace ask p -> answered l c x -> x = ask _ c.
Proof.
  intros [l' E] H. assert (Ev c x ∈ trace ask p) as Hin by (rewrite E; apply elem_of_app; by left).
  exact (proj1 (Forall_forall _ _) (trace_agrees ask p) _ Hin).
Qed.
