(* ===== verification/Board.v ===== *)
(** The board's tables as the writers of work items see them (src/db/migrations): the
    items, their claims, the audit trail and the comments, and the SQL statements those
    writers make, one call each. A transaction's writes are seen by itself at once and
    by others when it commits (READ COMMITTED); it holds the rows it locked until then.
    Uuid text is cast by the database ([canon]); ids it gives back are canonical. *)
From S2P Require Import Prelude GoStr CoordDb Calls.
Open Scope Z_scope.
Open Scope k8s_scope.

(** * Tables *)

Record Row : Set := {
  wi_project : string; wi_team : option string; wi_parent : option string; wi_title : string; wi_body : option string;
  wi_state : string; wi_created_by : string; wi_created_at : Z; wi_updated_at : Z; wi_priority : option string;
  wi_work_mode : option string; wi_labels : list string; wi_requested : option string }.

Record CommentRef : Set := { cref_WorkItemID : string; cref_Title : string }.
Record Remark : Set := { rk_item : string; rk_author : string; rk_body : string; rk_refs : list CommentRef; rk_at : Z }.

Record Tables : Set := { rows : gmap string Row; holders : gmap string ClaimRow; trail : list AuditRow; remarks : list Remark }.

(** What one statement changes. *)
Inductive Write : Set :=
| WInsert (id : string) (r : Row)
| WEdit (id title : string) (body parent : option string) (now : Z)
| WAdvance (id : string) (agent : option string) (now : Z)
| WAudit (a : AuditRow)
| WRemark (r : Remark).

Definition with_rows (m : gmap string Row) (b : Tables) : Tables :=
  {| rows := m; holders := holders b; trail := trail b; remarks := remarks b |}.

(** work_item_enforce_parent_tenancy: a child takes its parent's team. *)
Definition inherited (b : Tables) (parent team : option string) : option string :=
  match parent with
  | Some p => match rows b !! p with Some r => wi_team r | None => team end
  | None => team
  end.

Definition edited (b : Tables) (title : string) (body parent : option string) (now : Z) (r : Row) : Row :=
  {| wi_project := wi_project r; wi_team := inherited b parent (wi_team r); wi_parent := parent; wi_title := title; wi_body := body;
     wi_state := wi_state r; wi_created_by := wi_created_by r; wi_created_at := wi_created_at r; wi_updated_at := now;
     wi_priority := wi_priority r; wi_work_mode := wi_work_mode r; wi_labels := wi_labels r; wi_requested := wi_requested r |}.

(** state = 'todo', and requested_agent where one is given. *)
Definition advanced (agent : option string) (now : Z) (r : Row) : Row :=
  {| wi_project := wi_project r; wi_team := wi_team r; wi_parent := wi_parent r; wi_title := wi_title r; wi_body := wi_body r;
     wi_state := "todo"; wi_created_by := wi_created_by r; wi_created_at := wi_created_at r; wi_updated_at := now;
     wi_priority := wi_priority r; wi_work_mode := wi_work_mode r; wi_labels := wi_labels r;
     wi_requested := match agent with Some a => Some a | None => wi_requested r end |}.

(** An insert also provisions the item's unheld claim. *)
Definition apply (b : Tables) (w : Write) : Tables :=
  match w with
  | WInsert id r => {| rows := <[id := r]> (rows b); holders := <[id := unheld]> (holders b); trail := trail b; remarks := remarks b |}
  | WEdit id title body parent now => with_rows (alter (edited b title body parent now) id (rows b)) b
  | WAdvance id agent now => with_rows (alter (advanced agent now) id (rows b)) b
  | WAudit a => {| rows := rows b; holders := holders b; trail := trail b ++ [a]; remarks := remarks b |}
  | WRemark r => {| rows := rows b; holders := holders b; trail := trail b; remarks := remarks b ++ [r] |}
  end.

(** One transaction over the committed tables: what it wrote so far, its now(), and the
    items and claims whose rows it locked. *)
Record World : Set := { committed : Tables; delta : list Write; txnow : Z; locked : gset string; claim_locked : gset string }.

Definition view (w : World) : Tables := foldl apply (committed w) (delta w).

Definition wrote (x : Write) (w : World) : World :=
  {| committed := committed w; delta := delta w ++ [x]; txnow := txnow w; locked := locked w; claim_locked := claim_locked w |}.
Definition locks (id : string) (w : World) : World :=
  {| committed := committed w; delta := delta w; txnow := txnow w; locked := {[id]} ∪ locked w; claim_locked := claim_locked w |}.
Definition locks_claim (id : string) (w : World) : World :=
  {| committed := committed w; delta := delta w; txnow := txnow w; locked := locked w; claim_locked := {[id]} ∪ claim_locked w |}.
Definition idle (b : Tables) : World := {| committed := b; delta := []; txnow := 0; locked := ∅; claim_locked := ∅ |}.

(** * Statements *)

Record ClaimSeen : Set := { seen_holder : option string; seen_assignee : option string; seen_live : option bool }.

Record NewItem : Set := {
  ni_project : string; ni_team : option string; ni_parent : option string; ni_title : string; ni_body : string;
  ni_principal : string; ni_priority : string; ni_work_mode : string; ni_labels : list string }.

Inductive Sql : Type -> Type :=
| Begin : Sql unit
| LockItem (id : string) : Sql (option (string * Row))
| LockItemHolder (id : string) : Sql (option (Row * option string))
| ParentOf (id : string) : Sql (option (option string))
| ClaimOf (id : string) : Sql (option ClaimSeen)
| LockHolder (id : string) : Sql (option (option string))
| CountCreated (run : string) : Sql nat
| SubtreeHeight (id : string) (cap : nat) : Sql nat
| InsertItem (n : NewItem) : Sql (string * Row)
| EditItem (id title : string) (body parent : option string) (at_ : Z) : Sql nat
| ReadBack (id : string) (pq_array : bool) : Sql Row
| Advance (id : string) (agent : option string) (from : string) (unheld_only : bool) : Sql nat
| RefTitle (id project team : string) : Sql (option string)
| InsertComment (id author body : string) (refs : list CommentRef) : Sql Z
| InsertAudit (a : AuditRow) : Sql unit
| AdvisoryLock (project label : string) : Sql unit
| FindByLabel (project label : string) : Sql (option (string * Row))
| HeldByRun (run : string) : Sql (option string)
| TeamAgents (uid : string) : Sql (list string) (* the Team's composition, not SQL *)
| Commit : Sql unit.

(** Every statement may fail. *)
Inductive Stmt : Type -> Type :=
| St {X : Type} (s : Sql X) : Stmt (option X).

Section database.
Context (canon : string -> option string).

(** Rows of one level below some items. *)
Definition children (b : Tables) (l : list string) : list string :=
  omap (fun '(i, r) => match wi_parent r with Some p => if bool_decide (p ∈ l) then Some i else None | None => None end)
    (map_to_list (rows b)).

Fixpoint levels (cap : nat) (b : Tables) (l : list string) : nat :=
  match cap, l with
  | O, _ | _, [] => O
  | S cap, _ => S (levels cap b (children b l))
  end.

(** COALESCE(MAX(depth), 1) over the recursive walk. *)
Definition height (cap : nat) (b : Tables) (id : string) : nat :=
  match rows b !! id with Some _ => levels cap b [id] | None => 1 end.

Definition created_by_run (run : string) (a : AuditRow) : bool :=
  bool_decide (au_run a = Some run) && bool_decide (au_event a = "work_item_created").
Definition authored (b : Tables) (run : string) : nat := length (filter (fun a => created_by_run run a = true) (trail b)).

Definition lease_live (now : Z) (c : ClaimRow) : option bool := (fun t => bool_decide (now < t)) <$> lease_expires_at c.

Definition no_holder (b : Tables) (id : string) : bool :=
  match holders b !! id with Some c => bool_decide (holder_principal c = None) | None => true end.

(** x before y in DESC NULLS LAST *)
Definition later (x y : option Z) : comparison :=
  match x, y with
  | Some a, Some b => b ?= a
  | Some _, None => Lt
  | None, Some _ => Gt
  | None, None => Eq
  end.
Definition sooner (x y : string * ClaimRow) : bool :=
  match later (renewed_at x.2) (renewed_at y.2) with
  | Lt => true
  | Gt => false
  | Eq => match later (acquired_at x.2) (acquired_at y.2) with Gt => false | _ => true end
  end.
Definition first_by {A} (before : A -> A -> bool) (l : list A) : option A :=
  foldl (fun best x => match best with Some y => if before y x then best else Some x | None => Some x end) None l.

Definition canonical_parent (p : option string) : option (option string) :=
  match p with None => Some None | Some p => Some <$> canon p end.

Definition new_row (b : Tables) (now : Z) (project : string) (team parent : option string) (n : NewItem) : Row :=
  {| wi_project := project; wi_team := inherited b parent team; wi_parent := parent; wi_title := ni_title n; wi_body := nullif (ni_body n);
     wi_state := "backlog"; wi_created_by := ni_principal n; wi_created_at := now; wi_updated_at := now;
     wi_priority := nullif (ni_priority n); wi_work_mode := nullif (ni_work_mode n); wi_labels := ni_labels n; wi_requested := None |}.

(** The foreign key and the tenancy trigger: the parent is there, in the project. *)
Definition parent_ok (b : Tables) (project : string) (parent : option string) : bool :=
  match parent with
  | None => true
  | Some p => match rows b !! p with Some r => bool_decide (wi_project r = project) | None => false end
  end.

(** What a statement that succeeds answers, and does. [fresh] is the id an insert
    mints and [clock] the time a transaction begins at. *)
Definition reply (fresh : string) (clock : Z) {X} (s : Sql X) (w : World) : option X * World :=
  match s in Sql X return option X * World with
  | Begin => (Some tt, {| committed := committed w; delta := []; txnow := clock; locked := ∅; claim_locked := ∅ |})
  | LockItem id =>
      match canon id with None => (None, w) | Some i => (Some ((fun r => (i, r)) <$> rows (view w) !! i), locks i w) end
  | LockItemHolder id =>
      match canon id with
      | None => (None, w)
      | Some i => (Some ((fun r => (r, holders (view w) !! i ≫= holder_principal)) <$> rows (view w) !! i), locks i w)
      end
  | ParentOf id => match canon id with None => (None, w) | Some i => (Some (wi_parent <$> rows (view w) !! i), w) end
  | ClaimOf id =>
      match canon id with
      | None => (None, w)
      | Some i =>
          (Some ((fun c => {| seen_holder := holder_principal c; seen_assignee := assignee_agent c; seen_live := lease_live (txnow w) c |})
                   <$> holders (view w) !! i), w)
      end
  | LockHolder id => match canon id with None => (None, w) | Some i => (Some (holder_principal <$> holders (view w) !! i), locks_claim i w) end
  | CountCreated run => match canon run with None => (None, w) | Some r => (Some (authored (view w) r), w) end
  | SubtreeHeight id cap => match canon id with None => (None, w) | Some i => (Some (height cap (view w) i), w) end
  | InsertItem n =>
      match canon (ni_project n), canonical_parent (ni_parent n) with
      | Some project, Some parent =>
          let r := new_row (view w) (txnow w) project (ni_team n) parent n in
          if parent_ok (view w) project parent && bool_decide (rows (view w) !! fresh = None) && bool_decide (canon fresh = Some fresh)
          then (Some (fresh, r), locks fresh (wrote (WInsert fresh r) w))
          else (None, w)
      | _, _ => (None, w)
      end
  | EditItem id title body parent at_ =>
      match canon id, canonical_parent parent with
      | Some i, Some p =>
          match rows (view w) !! i with
          | Some r =>
              if negb (bool_decide (wi_updated_at r = at_)) then (Some O, w)
              else if parent_ok (view w) (wi_project r) p && negb (bool_decide (p = Some i))
              then (Some 1%nat, locks i (wrote (WEdit i title body p (txnow w)) w))
              else (None, w)
          | None => (Some O, w)
          end
      | _, _ => (None, w)
      end
  | ReadBack id _ => match canon id with None => (None, w) | Some i => (rows (view w) !! i, w) end
  | Advance id agent from unheld_only =>
      match canon id with
      | None => (None, w)
      | Some i =>
          match rows (view w) !! i with
          | Some r =>
              if bool_decide (wi_state r = from) && (negb unheld_only || no_holder (view w) i)
              then (Some 1%nat, locks i (wrote (WAdvance i agent (txnow w)) w))
              else (Some O, w)
          | None => (Some O, w)
          end
      end
  | RefTitle id project team =>
      match canon id, canon project with
      | Some i, Some p =>
          (Some (match rows (view w) !! i with
                 | Some r =>
                     if bool_decide (wi_project r = p) && (bool_decide (team = "") || bool_decide (wi_team r = Some team))
                     then Some (wi_title r) else None
                 | None => None
                 end), w)
      | _, _ => (None, w)
      end
  | InsertComment id author body refs =>
      match canon id with
      | None => (None, w)
      | Some i => (Some (txnow w), wrote (WRemark {| rk_item := i; rk_author := author; rk_body := body; rk_refs := refs; rk_at := txnow w |}) w)
      end
  | InsertAudit a =>
      match canon (au_item a), canonical_parent (au_run a) with
      | Some i, Some r =>
          (Some tt, wrote (WAudit {| au_item := i; au_run := r; au_event := au_event a; au_principal := au_principal a;
                                     au_initiator := au_initiator a; au_fence := au_fence a; au_from := au_from a; au_to := au_to a;
                                     au_payload := au_payload a |}) w)
      | _, _ => (None, w)
      end
  | AdvisoryLock _ _ => (Some tt, w)
  | FindByLabel project label =>
      match canon project with
      | None => (None, w)
      | Some p =>
          (Some (first_by (fun x y => bool_decide (wi_created_at x.2 <= wi_created_at y.2))
                   (filter (fun x => wi_project x.2 = p /\ label ∈ wi_labels x.2) (map_to_list (rows (view w))))), w)
      end
  | HeldByRun run =>
      match canon run with
      | None => (None, w)
      | Some r =>
          (Some (fst <$> first_by sooner
                   (filter (fun x => run_id x.2 = Some r /\ holder_principal x.2 <> None /\ lease_live clock x.2 = Some true)
                      (map_to_list (holders (view w))))), w)
      end
  | TeamAgents _ => (None, w)
  | Commit => (Some tt, idle (view w))
  end.

(** Whether it fails instead is the world's choice, and so is the Team's composition. A
    commit that reports a failure may have landed. *)
Inductive says : forall X, Stmt X -> World -> X -> World -> Prop :=
| says_reply fresh clock X (s : Sql X) w : says _ (St s) w (reply fresh clock s w).1 (reply fresh clock s w).2
| says_fails X (s : Sql X) w : says _ (St s) w None w
| says_landed w : says _ (St Commit) w None (idle (view w))
| says_agents uid names w : says _ (St (TeamAgents uid)) w (Some names) w.

(** ** What others do meanwhile

    Between two statements of a transaction others may commit anything but a change of
    the rows it locked. *)
Definition meanwhile (w w' : World) : Prop :=
  delta w' = delta w /\ txnow w' = txnow w /\ locked w' = locked w /\ claim_locked w' = claim_locked w
  /\ (forall i, i ∈ locked w -> rows (committed w') !! i = rows (committed w) !! i)
  /\ (forall i, i ∈ claim_locked w -> holders (committed w') !! i = holders (committed w) !! i).

Definition among X (c : Stmt X) (w : World) (x : X) (w' : World) : Prop := exists w0, meanwhile w w0 /\ says X c w0 x w'.

(** ** A run without failures

    The id that an insert would mint, the time and the Teams' compositions given. *)
Section interpreter.
Context (fresh : string) (clock : Z) (team : string -> list string).

Definition ask {X} (c : Stmt X) (w : World) : X * World :=
  match c in Stmt X return X * World with
  | St s => match s in Sql X return option X * World with TeamAgents uid => (Some (team uid), w) | s => reply fresh clock s w end
  end.

Lemma ask_says {X} (c : Stmt X) w : says X c w (ask c w).1 (ask c w).2.
Proof. destruct c as [X s]. destruct s; try apply (says_reply fresh clock). apply says_agents. Qed.

Fixpoint play_out {A} (p : Calls.Prog Stmt A) (w : World) : list (Event Stmt) * A * World :=
  match p with
  | Ret a => ([], a, w)
  | Do c k => let '(x, w1) := ask c w in let '(t, a, w2) := play_out (k x) w1 in (Ev c x :: t, a, w2)
  end.

Lemma play_out_runs {A} (p : Calls.Prog Stmt A) w : runs says p w (play_out p w).1.1 (play_out p w).1.2 (play_out p w).2.
Proof.
  revert w. induction p as [a|X c k IH]; intros w; cbn; [constructor|]. pose proof (ask_says c w) as Hs. destruct (ask c w) as [x w1].
  specialize (IH x w1). destruct (play_out (k x) w1) as [[t a] w2]. by econstructor.
Qed.

(** The same, where others commit [b] just before the [n]-th statement. *)
Definition recommitted (b : Tables) (w : World) : World :=
  {| committed := b; delta := delta w; txnow := txnow w; locked := locked w; claim_locked := claim_locked w |}.

Fixpoint play_among {A} (n : nat) (b : Tables) (p : Calls.Prog Stmt A) (w : World) : A * World :=
  match p with
  | Ret a => (a, w)
  | Do c k =>
      let w0 := match n with O => recommitted b w | S _ => w end in
      let '(x, w1) := ask c w0 in
      match n with O => let '(_, a, w2) := play_out (k x) w1 in (a, w2) | S n => play_among n b (k x) w1 end
  end.

(** The world at the [n]-th statement. *)
Fixpoint world_at {A} (n : nat) (p : Calls.Prog Stmt A) (w : World) : World :=
  match n, p with
  | S n, Do c k => let '(x, w1) := ask c w in world_at n (k x) w1
  | _, _ => w
  end.

Lemma meanwhile_refl w : meanwhile w w.
Proof. by repeat split. Qed.

Lemma runs_says_among {A} (p : Calls.Prog Stmt A) w t a w' : runs says p w t a w' -> runs among p w t a w'.
Proof. induction 1; econstructor; [|done]. exists w. split; [apply meanwhile_refl|done]. Qed.

Lemma play_among_runs {A} n b (p : Calls.Prog Stmt A) w :
  meanwhile (world_at n p w) (recommitted b (world_at n p w)) -> exists t, runs among p w t (play_among n b p w).1 (play_among n b p w).2.
Proof.
  revert p w. induction n as [|n IH]; intros [a|X c k] w Hm; cbn in *; try (eexists; constructor).
  - pose proof (ask_says c (recommitted b w)) as Hs. destruct (ask c (recommitted b w)) as [x w1]. pose proof (play_out_runs (k x) w1) as Hr.
    destruct (play_out (k x) w1) as [[t a] w2]. cbn in *. exists (Ev c x :: t). econstructor; [by exists (recommitted b w)|by apply runs_says_among].
  - pose proof (ask_says c w) as Hs. destruct (ask c w) as [x w1]. destruct (IH (k x) w1 Hm) as [t Ht]. exists (Ev c x :: t).
    econstructor; [|done]. exists w. split; [apply meanwhile_refl|done].
Qed.
End interpreter.
End database.
