(* ===== verification/Authoring.v ===== *)
(** The writers of work items (src/pkg/coord): creation and edits by a person
    (workitemwrite.go) and by an agent (workitemauthor.go), the one item of a review or
    of a failing check (reviewitem.go, cifailureitem.go), dispatch by either
    (workitemdispatch.go, agentdispatch.go) and comments (workitemcomment.go), as
    programs of statements of [Board.v]; and the tools an agent reaches them by
    (src/internal/memory/agentauthor.go). *)
From Stdlib Require Import Ascii.
From S2P Require Import Prelude GoStr CoordDb Calls Board.
Open Scope k8s_scope.

(** * Errors *)

Inductive DispatchConflictReason : Set := ConflictReasonLiveRun | ConflictReasonConcurrentChange | ConflictReasonNotDispatchable.

Inductive WErr : Set :=
| ErrInvalidWorkItem (what : string)
| ErrWorkItemNotFound
| ErrStateConflict (what : string)
| ErrAgentAuthorRootDenied
| ErrAgentAuthorNotInCustody
| ErrAgentAuthorDepthExceeded (depth : nat)
| ErrAgentAuthorRunBudgetExceeded (authored : nat)
| ErrAgentNotInTeam
| DispatchConflictError (reason : DispatchConflictReason) (lane : string)
| Failed (statement : string).

(** errors.Is(err, ErrStateConflict) *)
Definition is_state_conflict (e : WErr) : bool :=
  match e with ErrStateConflict _ | DispatchConflictError _ _ => true | _ => false end.

Definition DispatchConflict (e : WErr) : option DispatchConflictReason :=
  match e with DispatchConflictError r _ => Some r | _ => None end.

(** * Programs of statements *)

Notation Tx A := (Calls.Prog Stmt (result WErr A)).
Definition refuse {A} (e : WErr) : Tx A := Ret (Err e).
Definition answer {A} (a : A) : Tx A := Ret (Ok a).
Definition sbind {A B} (m : Tx A) (k : A -> Tx B) : Tx B := pbind m (fun r => match r with Ok a => k a | Err e => refuse e end).
Notation "'let~' x ':=' m 'in' k" := (sbind m (fun x => k)) (at level 10, x pattern, m at level 100, k at level 200) : k8s_scope.
Notation "'when' b 'refuse_with' e 'else' k" := (if b then refuse e else k) (at level 10, b at level 100, e at level 100, k at level 200) : k8s_scope.

Definition sql {X} (label : string) (s : Sql X) : Tx X :=
  Do (St s) (fun x => match x with Some v => answer v | None => refuse (Failed label) end).

(** A row that must be there. *)
Definition found {X} (missing : WErr) (label : string) (s : Sql (option X)) : Tx X :=
  Do (St s) (fun x => match x with Some (Some v) => answer v | Some None => refuse missing | None => refuse (Failed label) end).

Definition empty (s : string) : bool := bool_decide (s = "").

(** * workitemwrite.go *)

Definition validPriorities : list string := ["low"; "medium"; "high"; "urgent"].
Definition validWorkModes : list string := ["standard"; "planning"].
Definition maxLabels : nat := 20.
Definition maxLabelLen : nat := 64.

Fixpoint normalize_labels (out labels : list string) : result WErr (list string) :=
  match labels with
  | [] => Ok out
  | l :: rest =>
      let l := TrimSpace l in
      if empty l || bool_decide (l ∈ out) then normalize_labels out rest
      else if bool_decide (maxLabelLen < String.length l)%nat then Err (ErrInvalidWorkItem "label too long")
      else if bool_decide (maxLabels < length (out ++ [l]))%nat then Err (ErrInvalidWorkItem "too many labels")
      else normalize_labels (out ++ [l]) rest
  end.

Definition normalizeCreateFields (priority workMode : string) (labels : list string) : result WErr (string * string * list string) :=
  if negb (empty priority) && negb (bool_decide (priority ∈ validPriorities)) then Err (ErrInvalidWorkItem "priority")
  else if negb (empty workMode) && negb (bool_decide (workMode ∈ validWorkModes)) then Err (ErrInvalidWorkItem "workMode")
  else match normalize_labels [] labels with Ok out => Ok (priority, workMode, out) | Err e => Err e end.

Record WorkItemRecord : Set := {
  rec_ID : string; rec_ProjectID : string; rec_TeamID : option string; rec_ParentID : option string; rec_Title : string;
  rec_Body : string; rec_State : string; rec_Priority : option string; rec_WorkMode : option string; rec_Labels : list string;
  rec_CreatedBy : string; rec_CreatedAt : Z; rec_UpdatedAt : Z }.

Definition nullToPtr (n : option string) : option string := match n with Some s => if empty s then None else Some s | None => None end.

Definition record_of (x : string * Row) : WorkItemRecord :=
  let '(id, r) := x in
  {| rec_ID := id; rec_ProjectID := wi_project r; rec_TeamID := nullToPtr (wi_team r); rec_ParentID := nullToPtr (wi_parent r);
     rec_Title := wi_title r; rec_Body := default "" (wi_body r); rec_State := wi_state r; rec_Priority := nullToPtr (wi_priority r);
     rec_WorkMode := nullToPtr (wi_work_mode r); rec_Labels := wi_labels r; rec_CreatedBy := wi_created_by r;
     rec_CreatedAt := wi_created_at r; rec_UpdatedAt := wi_updated_at r |}.

(** The record of an edit: [old] was read at the start, [new] read back. *)
Definition re_record (id : string) (old new : Row) : WorkItemRecord :=
  {| rec_ID := id; rec_ProjectID := wi_project old; rec_TeamID := nullToPtr (wi_team old); rec_ParentID := nullToPtr (wi_parent new);
     rec_Title := wi_title new; rec_Body := default "" (wi_body new); rec_State := wi_state old; rec_Priority := nullToPtr (wi_priority new);
     rec_WorkMode := nullToPtr (wi_work_mode new); rec_Labels := wi_labels new; rec_CreatedBy := wi_created_by old;
     rec_CreatedAt := wi_created_at old; rec_UpdatedAt := wi_updated_at new |}.

(** §6.5 provenance, without a fence. *)
Definition audit (item : string) (run : option string) (event principal initiator : string) (payload : list (string * Field)) : AuditRow :=
  {| au_item := item; au_run := run; au_event := event; au_principal := principal; au_initiator := nullif initiator; au_fence := None;
     au_from := None; au_to := None; au_payload := Fields payload |}.

Definition writeAudit (item event principal initiator : string) (payload : list (string * Field)) : Tx unit :=
  sql "audit" (InsertAudit (audit item None event principal initiator payload)).
Definition writeAgentAudit (item event principal run : string) (payload : list (string * Field)) : Tx unit :=
  sql "audit" (InsertAudit (audit item (Some run) event principal "" payload)).

(** The Team of a row is not the caller's. *)
Definition outside (teamID : string) (team : option string) : bool := negb (empty teamID) && negb (bool_decide (team = Some teamID)).

Record CreateWorkItemInput : Set := {
  cw_ProjectID : string; cw_TeamID : string; cw_ParentID : string; cw_Title : string; cw_Body : string; cw_Priority : string;
  cw_WorkMode : string; cw_Labels : list string; cw_Principal : string; cw_InitiatedByUserID : string }.

(** The Team and the parent the new row is given. *)
Definition create_parent (inp : CreateWorkItemInput) : Tx (option string * option string) :=
  if empty (cw_ParentID inp) then answer (nullif (cw_TeamID inp), None)
  else
    let~ p := found ErrWorkItemNotFound "read parent" (LockItem (cw_ParentID inp)) in
    when outside (cw_TeamID inp) (wi_team p.2) refuse_with ErrWorkItemNotFound else
    when negb (bool_decide (wi_project p.2 = cw_ProjectID inp)) refuse_with ErrWorkItemNotFound else
    answer (wi_team p.2, Some (cw_ParentID inp)).

Definition CreateWorkItem (inp : CreateWorkItemInput) : Tx WorkItemRecord :=
  when empty (cw_ProjectID inp) || empty (cw_Title inp) || empty (cw_Principal inp)
    refuse_with ErrInvalidWorkItem "projectID, title and principal are required" else
  match normalizeCreateFields (cw_Priority inp) (cw_WorkMode inp) (cw_Labels inp) with
  | Err e => refuse e
  | Ok (priority, workMode, labels) =>
      let~ _ := sql "begin" Begin in
      let~ (team, parent) := create_parent inp in
      let~ row := sql "insert" (InsertItem
        {| ni_project := cw_ProjectID inp; ni_team := team; ni_parent := parent; ni_title := cw_Title inp; ni_body := cw_Body inp;
           ni_principal := cw_Principal inp; ni_priority := priority; ni_work_mode := workMode; ni_labels := labels |}) in
      let~ _ := writeAudit row.1 "work_item_created" (cw_Principal inp) (cw_InitiatedByUserID inp)
        [("title", FStr (wi_title row.2)); ("parent_id", FStr (default "" (wi_parent row.2))); ("priority", FStr priority);
         ("work_mode", FStr workMode); ("labels", FList labels)] in
      let~ _ := sql "commit" Commit in
      answer (record_of row)
  end.

Definition depthCap : nat := 256.

(** Up from [cur]; a row that vanished ends the walk as a root does. *)
Fixpoint ancestorIncludes_from (fuel : nat) (cur target : string) : Tx bool :=
  match fuel with
  | O => refuse (Failed "ancestor walk exceeded depth")
  | S fuel =>
      if bool_decide (cur = target) then answer true
      else
        let~ parent := sql "ancestor walk" (ParentOf cur) in
        match parent ≫= nullToPtr with
        | None => answer false
        | Some p => ancestorIncludes_from fuel p target
        end
  end.
Definition ancestorIncludes (start target : string) : Tx bool := ancestorIncludes_from depthCap start target.

Definition edited_fields (title body parent : option string) : list string :=
  (if title then ["title"] else []) ++ (if body then ["body"] else []) ++ (if parent then ["parent_id"] else []).

Definition no_field (title body parent : option string) : bool := match title, body, parent with None, None, None => true | _, _, _ => false end.

Section authoring.
Context (parse_time : string -> option Z) (uuid_ok : string -> bool).

(** expectedUpdatedAt against the row that was read *)
Definition check_expected (expected : string) (r : Row) : Tx unit :=
  if empty expected then answer tt
  else match parse_time expected with
       | None => refuse (ErrInvalidWorkItem "expectedUpdatedAt not RFC3339")
       | Some want => if bool_decide (wi_updated_at r = want) then answer tt else refuse (ErrStateConflict "item changed")
       end.

(** The conditional UPDATE with what is asked for or was read, and the row after it. *)
Definition new_body (r : Row) (body : option string) : option string := match body with Some b => nullif b | None => wi_body r end.
Definition new_parent (r : Row) (parent : option string) : option string := match parent with Some p => nullif p | None => wi_parent r end.
Definition edit_row (id : string) (r : Row) (title body parent : option string) (pq_array : bool) : Tx Row :=
  let~ n := sql "update" (EditItem id (default (wi_title r) title) (new_body r body) (new_parent r parent) (wi_updated_at r)) in
  when bool_decide (n = O) refuse_with ErrStateConflict "concurrent edit" else
  sql "read back" (ReadBack id pq_array).

Record UpdateWorkItemInput : Set := {
  uw_Title : option string; uw_Body : option string; uw_ParentID : option string; uw_ExpectedUpdatedAt : string;
  uw_TeamID : string; uw_Principal : string; uw_InitiatedByUserID : string }.

(** Where an item may be moved to by a person. *)
Definition check_reparent (id project teamID : string) (parent : option string) : Tx unit :=
  match parent ≫= nullif with
  | None => answer tt
  | Some p =>
      when bool_decide (p = id) refuse_with ErrInvalidWorkItem "an item cannot be its own parent" else
      let~ np := found ErrWorkItemNotFound "read new parent" (LockItem p) in
      when outside teamID (wi_team np.2) refuse_with ErrWorkItemNotFound else
      when negb (bool_decide (wi_project np.2 = project)) refuse_with ErrWorkItemNotFound else
      let~ cyclic := ancestorIncludes p id in
      when cyclic refuse_with ErrInvalidWorkItem "reparent would form a cycle" else
      answer tt
  end.

Definition UpdateWorkItem (id : string) (inp : UpdateWorkItemInput) : Tx WorkItemRecord :=
  when empty id || empty (uw_Principal inp) refuse_with ErrInvalidWorkItem "workItemID and principal are required" else
  when no_field (uw_Title inp) (uw_Body inp) (uw_ParentID inp) refuse_with ErrInvalidWorkItem "no editable field supplied" else
  when bool_decide (uw_Title inp = Some "") refuse_with ErrInvalidWorkItem "title may not be blank" else
  let~ _ := sql "begin" Begin in
  let~ (rid, r) := found ErrWorkItemNotFound "read current" (LockItem id) in
  when outside (uw_TeamID inp) (wi_team r) refuse_with ErrWorkItemNotFound else
  let~ _ := check_expected (uw_ExpectedUpdatedAt inp) r in
  let~ _ := check_reparent id (wi_project r) (uw_TeamID inp) (uw_ParentID inp) in
  let~ after := edit_row id r (uw_Title inp) (uw_Body inp) (uw_ParentID inp) false in
  let~ _ := writeAudit id "work_item_edited" (uw_Principal inp) (uw_InitiatedByUserID inp)
    [("fields", FList (edited_fields (uw_Title inp) (uw_Body inp) (uw_ParentID inp)))] in
  let~ _ := sql "commit" Commit in
  answer (re_record rid r after).

(** * workitemauthor.go *)

Definition AgentAuthorMaxDepth : nat := 4.
Definition AgentAuthorRunBudget : nat := 50.

(** What a claim says of the agent. *)
Definition holds_claim (principal agentName : string) (c : option ClaimSeen) : bool :=
  match c with
  | None => false
  | Some c =>
      (negb (empty (default "" (seen_assignee c))) && bool_decide (seen_assignee c = Some agentName))
      || (negb (empty (default "" (seen_holder c))) && bool_decide (seen_holder c = Some principal)
          && bool_decide (seen_live c = Some true))
  end.

Definition agentHoldsClaim (id principal agentName : string) : Tx bool :=
  let~ c := sql "read claim" (ClaimOf id) in answer (holds_claim principal agentName c).

Fixpoint custody_from (fuel : nat) (cur principal agentName : string) : Tx bool :=
  match fuel with
  | O => refuse (Failed "custody-scope walk exceeded depth")
  | S fuel =>
      let~ held := agentHoldsClaim cur principal agentName in
      if held : bool then answer true
      else
        let~ parent := sql "custody-scope walk" (ParentOf cur) in
        match parent ≫= nullToPtr with
        | None => answer false
        | Some p => custody_from fuel p principal agentName
        end
  end.
Definition agentHoldsCustodyScope (id principal agentName : string) : Tx bool := custody_from depthCap id principal agentName.

Fixpoint chainDepth_from (fuel depth : nat) (cur : string) : Tx nat :=
  match fuel with
  | O => refuse (Failed "depth walk exceeded")
  | S fuel =>
      let~ parent := sql "depth walk" (ParentOf cur) in
      match parent ≫= nullToPtr with
      | None => answer depth
      | Some p => chainDepth_from fuel (S depth) p
      end
  end.
Definition chainDepth (id : string) : Tx nat := chainDepth_from depthCap 1 id.
Definition subtreeHeight (id : string) : Tx nat := sql "subtree-height walk" (SubtreeHeight id depthCap).

Record AgentCreateWorkItemInput : Set := {
  ac_ParentID : string; ac_Title : string; ac_Body : string; ac_Priority : string; ac_WorkMode : string; ac_Labels : list string;
  ac_Principal : string; ac_AgentName : string; ac_RunID : string }.

Definition AgentCreateWorkItem (inp : AgentCreateWorkItemInput) : Tx WorkItemRecord :=
  when empty (ac_ParentID inp) refuse_with ErrAgentAuthorRootDenied else
  when empty (ac_Title inp) || empty (ac_Principal inp) || empty (ac_AgentName inp) || empty (ac_RunID inp)
    refuse_with ErrInvalidWorkItem "title, principal, agentName and runID are required" else
  match normalizeCreateFields (ac_Priority inp) (ac_WorkMode inp) (ac_Labels inp) with
  | Err e => refuse e
  | Ok (priority, workMode, labels) =>
      let~ _ := sql "begin" Begin in
      let~ p := found ErrAgentAuthorNotInCustody "read parent" (LockItem (ac_ParentID inp)) in
      let~ held := agentHoldsClaim (ac_ParentID inp) (ac_Principal inp) (ac_AgentName inp) in
      when negb held refuse_with ErrAgentAuthorNotInCustody else
      let~ parentDepth := chainDepth (ac_ParentID inp) in
      when bool_decide (AgentAuthorMaxDepth < parentDepth + 1)%nat refuse_with ErrAgentAuthorDepthExceeded (parentDepth + 1) else
      let~ authored := sql "run budget count" (CountCreated (ac_RunID inp)) in
      when bool_decide (AgentAuthorRunBudget <= authored)%nat refuse_with ErrAgentAuthorRunBudgetExceeded authored else
      let~ row := sql "insert" (InsertItem
        {| ni_project := wi_project p.2; ni_team := wi_team p.2; ni_parent := Some (ac_ParentID inp); ni_title := ac_Title inp;
           ni_body := ac_Body inp; ni_principal := ac_Principal inp; ni_priority := priority; ni_work_mode := workMode; ni_labels := labels |}) in
      let~ _ := writeAgentAudit row.1 "work_item_created" (ac_Principal inp) (ac_RunID inp)
        [("title", FStr (wi_title row.2)); ("parent_id", FStr (default "" (wi_parent row.2))); ("priority", FStr priority);
         ("work_mode", FStr workMode); ("labels", FList labels); ("agent", FStr (ac_AgentName inp)); ("agent_write", FBool true)] in
      let~ _ := sql "commit" Commit in
      answer (record_of row)
  end.

Definition RunHeldWorkItem (run : string) : Tx string :=
  if empty run then answer "" else let~ held := sql "read claim" (HeldByRun run) in answer (default "" held).

Record AgentUpdateWorkItemInput : Set := {
  au_Title : option string; au_Body : option string; au_ParentID : option string; au_ExpectedUpdatedAt : string;
  au_Principal : string; au_AgentName : string; au_RunID : string }.

(** Where an agent may move an item: never to the root, under work it has custody of,
    with the whole moved tree within the cap. *)
Definition check_agent_reparent (id project principal agentName : string) (parent : option string) : Tx unit :=
  match parent with
  | None => answer tt
  | Some p =>
      when empty p refuse_with ErrAgentAuthorRootDenied else
      when bool_decide (p = id) refuse_with ErrInvalidWorkItem "an item cannot be its own parent" else
      let~ np := found ErrAgentAuthorNotInCustody "read new parent" (LockItem p) in
      when negb (bool_decide (wi_project np.2 = project)) refuse_with ErrAgentAuthorNotInCustody else
      let~ newHeld := agentHoldsCustodyScope p principal agentName in
      when negb newHeld refuse_with ErrAgentAuthorNotInCustody else
      let~ cyclic := ancestorIncludes p id in
      when cyclic refuse_with ErrInvalidWorkItem "reparent would form a cycle" else
      let~ newParentDepth := chainDepth p in
      let~ subHeight := subtreeHeight id in
      when bool_decide (AgentAuthorMaxDepth < newParentDepth + subHeight)%nat
        refuse_with ErrAgentAuthorDepthExceeded (newParentDepth + subHeight) else
      answer tt
  end.

Definition AgentUpdateWorkItem (id : string) (inp : AgentUpdateWorkItemInput) : Tx WorkItemRecord :=
  when empty id || empty (au_Principal inp) || empty (au_AgentName inp) || empty (au_RunID inp)
    refuse_with ErrInvalidWorkItem "workItemID, principal, agentName and runID are required" else
  when no_field (au_Title inp) (au_Body inp) (au_ParentID inp) refuse_with ErrInvalidWorkItem "no editable field supplied" else
  when bool_decide (au_Title inp = Some "") refuse_with ErrInvalidWorkItem "title may not be blank" else
  let~ _ := sql "begin" Begin in
  let~ (rid, r) := found ErrAgentAuthorNotInCustody "read current" (LockItem id) in
  let~ held := agentHoldsCustodyScope id (au_Principal inp) (au_AgentName inp) in
  when negb held refuse_with ErrAgentAuthorNotInCustody else
  let~ _ := check_expected (au_ExpectedUpdatedAt inp) r in
  let~ _ := check_agent_reparent id (wi_project r) (au_Principal inp) (au_AgentName inp) (au_ParentID inp) in
  let~ after := edit_row id r (au_Title inp) (au_Body inp) (au_ParentID inp) true in
  let~ _ := writeAgentAudit id "work_item_edited" (au_Principal inp) (au_RunID inp)
    [("fields", FList (edited_fields (au_Title inp) (au_Body inp) (au_ParentID inp))); ("agent", FStr (au_AgentName inp));
     ("agent_write", FBool true)] in
  let~ _ := sql "commit" Commit in
  answer (re_record rid r after).

(** * reviewitem.go, cifailureitem.go *)

Record EnsureInput : Set := {
  en_ProjectID : string; en_TeamID : string; en_Title : string; en_Body : string; en_DedupLabel : string;
  en_ExtraLabels : list string; en_Principal : string; en_InitiatedByUserID : string }.

(** Both ensure the one item of a label, and name themselves in the trail. *)
Definition EnsureWorkItem (source : string) (inp : EnsureInput) : Tx (WorkItemRecord * bool) :=
  when empty (en_ProjectID inp) || empty (en_Title inp) || empty (en_Principal inp) || empty (en_DedupLabel inp)
    refuse_with ErrInvalidWorkItem "projectID, title, principal and dedupLabel are required" else
  match normalizeCreateFields "" "" (en_DedupLabel inp :: en_ExtraLabels inp) with
  | Err e => refuse e
  | Ok (_, _, labels) =>
      when negb (bool_decide (en_DedupLabel inp ∈ labels)) refuse_with ErrInvalidWorkItem "dedup label dropped by normalization" else
      let~ _ := sql "begin" Begin in
      let~ _ := sql "lock" (AdvisoryLock (en_ProjectID inp) (en_DedupLabel inp)) in
      let~ existing := sql "lookup" (FindByLabel (en_ProjectID inp) (en_DedupLabel inp)) in
      match existing with
      | Some x => let~ _ := sql "commit" Commit in answer (record_of x, false)
      | None =>
          let~ row := sql "insert" (InsertItem
            {| ni_project := en_ProjectID inp; ni_team := nullif (en_TeamID inp); ni_parent := None; ni_title := en_Title inp;
               ni_body := en_Body inp; ni_principal := en_Principal inp; ni_priority := ""; ni_work_mode := ""; ni_labels := labels |}) in
          let~ _ := writeAudit row.1 "work_item_created" (en_Principal inp) (en_InitiatedByUserID inp)
            [("title", FStr (wi_title row.2)); ("labels", FList labels); ("source", FStr source)] in
          let~ _ := sql "commit" Commit in
          answer (record_of row, true)
      end
  end.
Definition EnsureReviewWorkItem : EnsureInput -> Tx (WorkItemRecord * bool) := EnsureWorkItem "review-automation".
Definition EnsureCIFailureWorkItem : EnsureInput -> Tx (WorkItemRecord * bool) := EnsureWorkItem "ci-failure".

(** * workitemcomment.go *)

Definition commentReTriggerLanes : list string :=
  ["design"; "planning"; "implementation"; "code_review"; "testing"; "documentation"; "in_progress"; "in_review"].

Fixpoint resolve_refs (projectID teamID : string) (seen : list string) (refs : list CommentRef) : Tx (list CommentRef) :=
  match refs with
  | [] => answer []
  | r :: rest =>
      let id := cref_WorkItemID r in
      if empty id || negb (uuid_ok id) || bool_decide (id ∈ seen) then resolve_refs projectID teamID seen rest
      else
        let~ title := sql "resolve refs" (RefTitle id projectID teamID) in
        let~ out := resolve_refs projectID teamID (id :: seen) rest in
        answer (match title with Some t => {| cref_WorkItemID := id; cref_Title := t |} :: out | None => out end)
  end.
Definition resolveCommentRefs (projectID teamID : string) (refs : list CommentRef) : Tx (list CommentRef) :=
  if empty projectID then answer [] else resolve_refs projectID teamID [] refs.

Record HumanCommentOutcome : Set := {
  hc_Author : string; hc_Body : string; hc_CreatedAt : Z; hc_References : list CommentRef;
  hc_ReTriggered : bool; hc_FromState : string; hc_ToState : string }.

(** The lane moves on by the comment, unless it or the holder changed meanwhile. *)
Definition comment_nudge (id principal : string) (lane : string) (holder : option string) : Tx bool :=
  if bool_decide (lane ∈ commentReTriggerLanes) && bool_decide (holder = None) then
    let~ n := sql "re-dispatch" (Advance id None lane true) in
    if bool_decide (n = 1%nat) then
      let~ _ := sql "re-dispatch audit" (InsertAudit
        {| au_item := id; au_run := None; au_event := "state_transition"; au_principal := principal; au_initiator := None; au_fence := None;
           au_from := Some lane; au_to := Some "todo";
           au_payload := Fields [("initiator", FStr "human"); ("from_state", FStr lane); ("to_state", FStr "todo"); ("via", FStr "comment")] |}) in
      answer true
    else answer false
  else answer false.

Definition AppendHumanComment (id teamID principal body : string) (refs : list CommentRef) : Tx HumanCommentOutcome :=
  when empty id || empty principal refuse_with ErrInvalidWorkItem "workItemID and principal are required" else
  when empty body refuse_with ErrInvalidWorkItem "comment body may not be empty" else
  let~ _ := sql "begin" Begin in
  let~ (r, holder) := found ErrWorkItemNotFound "read item" (LockItemHolder id) in
  when outside teamID (wi_team r) refuse_with ErrWorkItemNotFound else
  let~ resolved := resolveCommentRefs (wi_project r) teamID refs in
  let~ created := sql "insert" (InsertComment id principal body resolved) in
  let~ _ := writeAudit id "work_item_commented" principal "" [] in
  let~ moved := comment_nudge id principal (wi_state r) holder in
  let~ _ := sql "commit" Commit in
  answer {| hc_Author := principal; hc_Body := body; hc_CreatedAt := created; hc_References := resolved; hc_ReTriggered := moved;
            hc_FromState := if moved : bool then wi_state r else ""; hc_ToState := if moved : bool then "todo" else "" |}.

(** * workitemdispatch.go, agentdispatch.go *)

Record RequestDispatchInput : Set := {
  rd_WorkItemID : string; rd_AgentID : string; rd_TeamID : string; rd_Principal : string; rd_InitiatedByUserID : string;
  rd_Initiator : string }.
Record WorkItemDispatchResult : Set := { dr_WorkItemID : string; dr_FromState : string; dr_ToState : string; dr_RequestedAgent : string }.

Definition containsString (set : list string) (want : string) : bool := bool_decide (want ∈ set).

(** The event a dispatch from a lane books, and whether a live run forbids it; [None]
    for a lane it does not dispatch from. *)
Definition dispatch_branch (lane : string) : option (string * bool) :=
  if bool_decide (lane = "backlog") then Some ("work_item_dispatch_requested", false)
  else if bool_decide (lane = "todo") then Some ("work_item_reassign_requested", true)
  else if bool_decide (lane ∈ commentReTriggerLanes) || bool_decide (lane = "done") || bool_decide (lane = "cancelled")
  then Some ("work_item_rerun_requested", true)
  else None.

(** The claim row, locked: no live run holds it. A missing row holds none. *)
Definition check_unheld (id lane : string) : Tx unit :=
  let~ h := sql "read claim holder" (LockHolder id) in
  match h with Some (Some _) => refuse (DispatchConflictError ConflictReasonLiveRun lane) | _ => answer tt end.

(** The member's check, the move of the lane and its provenance. *)
Definition dispatch_as (inp : RequestDispatchInput) (r : Row) (team event : string) (guarded : bool) : Tx WorkItemDispatchResult :=
  let id := rd_WorkItemID inp in
  let~ names := sql "resolve team agents" (TeamAgents team) in
  when negb (containsString names (rd_AgentID inp)) refuse_with ErrAgentNotInTeam else
  let~ n := sql "update" (Advance id (Some (rd_AgentID inp)) (wi_state r) guarded) in
  when bool_decide (n = O) refuse_with DispatchConflictError ConflictReasonConcurrentChange "" else
  let~ _ := sql "audit" (InsertAudit
    {| au_item := id; au_run := None; au_event := event; au_principal := rd_Principal inp; au_initiator := nullif (rd_InitiatedByUserID inp);
       au_fence := None; au_from := Some (wi_state r); au_to := Some "todo";
       au_payload := Fields [("initiator", FStr (if empty (rd_Initiator inp) then "human" else rd_Initiator inp));
                             ("requested_agent", FStr (rd_AgentID inp))] |}) in
  let~ _ := sql "commit" Commit in
  answer {| dr_WorkItemID := id; dr_FromState := wi_state r; dr_ToState := "todo"; dr_RequestedAgent := rd_AgentID inp |}.

Definition RequestDispatch (inp : RequestDispatchInput) : Tx WorkItemDispatchResult :=
  let id := rd_WorkItemID inp in
  when empty id || empty (rd_AgentID inp) || empty (rd_Principal inp)
    refuse_with ErrInvalidWorkItem "workItemID, agentId and principal are required" else
  let~ _ := sql "begin" Begin in
  let~ (_, r) := found ErrWorkItemNotFound "read current" (LockItem id) in
  when outside (rd_TeamID inp) (wi_team r) refuse_with ErrWorkItemNotFound else
  match nullToPtr (wi_team r) with
  | None => refuse (ErrInvalidWorkItem "work item has no owning team to dispatch to")
  | Some team =>
      match dispatch_branch (wi_state r) with
      | None => refuse (DispatchConflictError ConflictReasonNotDispatchable (wi_state r))
      | Some (event, guarded) =>
          let~ _ := (if guarded : bool then check_unheld id (wi_state r) else answer tt) in
          dispatch_as inp r team event guarded
      end
  end.

Record AgentRequestDispatchInput : Set := {
  ad_WorkItemID : string; ad_AssigneeAgentID : string; ad_Principal : string; ad_AgentName : string; ad_RunID : string; ad_TeamID : string }.

(** Custody is read in a transaction of its own. *)
Definition AgentRequestDispatch (inp : AgentRequestDispatchInput) : Tx WorkItemDispatchResult :=
  when empty (ad_Principal inp) || empty (ad_AgentName inp) || empty (ad_RunID inp)
    refuse_with ErrInvalidWorkItem "principal, agentName and runId are required for agent dispatch" else
  when empty (ad_WorkItemID inp) || empty (ad_AssigneeAgentID inp)
    refuse_with ErrInvalidWorkItem "workItemId and assigneeAgentId are required" else
  let~ _ := sql "begin" Begin in
  let~ held := agentHoldsCustodyScope (ad_WorkItemID inp) (ad_Principal inp) (ad_AgentName inp) in
  when negb held refuse_with ErrAgentAuthorNotInCustody else
  RequestDispatch {| rd_WorkItemID := ad_WorkItemID inp; rd_AgentID := ad_AssigneeAgentID inp; rd_TeamID := ad_TeamID inp;
                     rd_Principal := ad_Principal inp; rd_InitiatedByUserID := ""; rd_Initiator := "agent" |}.
End authoring.

(** * internal/memory/agentauthor.go *)

(** strings.FieldsFunc on the separators of the capabilities header *)
Definition is_sep (c : ascii) : bool := bool_decide (c ∈ [","; " "; "009"]%char).
Fixpoint fields_func (cur : string) (s : string) : list string :=
  match s with
  | EmptyString => if empty cur then [] else [cur]
  | String c s =>
      if is_sep c then (if empty cur then fields_func "" s else cur :: fields_func "" s)
      else fields_func (cur +:+ String c "") s
  end.
Definition parseCapabilities (header : string) : list string :=
  if empty (TrimSpace header) then []
  else filter (fun f => f <> "") (TrimSpace <$> fields_func "" header).

Record AgentSession : Set := {
  as_TeamID : string; as_Principal : string; as_AgentID : string; as_RunID : string; as_Capabilities : list string; as_ViaToken : bool }.
Record mcpSession : Set := {
  ms_team : string; ms_principal : string; ms_agentID : option string; ms_runID : option string; ms_capabilities : list string; ms_viaToken : bool }.

Definition WorkItemAuthorCapability : string := "work_item.author".
Definition CoordinatorProposeCapability : string := "coordinator.propose".

(** The grant of a session, or why it cannot be told. *)
Definition CapabilityResolver : Type := AgentSession -> result string bool.
Definition HeaderCapabilityResolver : CapabilityResolver := fun s => Ok (bool_decide (WorkItemAuthorCapability ∈ as_Capabilities s)).
Definition TokenCapabilityResolver : CapabilityResolver :=
  fun s => if as_ViaToken s then Ok (bool_decide (WorkItemAuthorCapability ∈ as_Capabilities s)) else Ok false.

Record authorIdentity : Set := { ai_principal : string; ai_agentName : string; ai_runID : string; ai_teamID : string }.

Record workItemCreateArgs : Set := {
  wc_ParentID : string; wc_Title : string; wc_Body : string; wc_Priority : string; wc_WorkMode : string; wc_Labels : list string;
  wc_AssigneeAgentID : string }.
Record workItemUpdateArgs : Set := {
  wu_ID : string; wu_Title : option string; wu_Body : option string; wu_ParentID : option string; wu_ExpectedUpdatedAt : string }.
Record workItemAssignArgs : Set := { wa_ID : string; wa_AssigneeAgentID : string }.

(** What a tool does: the statements of the store, or a proposal for a person. *)
Inductive ToolCall : Type -> Type :=
| OfStore {X : Type} (c : Stmt X) : ToolCall X
| ProposeCreate (id : authorIdentity) (a : workItemCreateArgs) : ToolCall bool
| ProposeAssign (id : authorIdentity) (a : workItemAssignArgs) : ToolCall bool.

Inductive AssignOutcome : Set := NotAsked | AssignUnavailable | AssignError (e : WErr) | Assigned (d : WorkItemDispatchResult).
Inductive ToolReply : Set :=
| Denied (why : string)
| ToolError (why : string)
| StoreError (e : WErr)
| Proposed (sent : bool)
| ItemCreated (r : WorkItemRecord) (assign : AssignOutcome)
| ItemUpdated (r : WorkItemRecord)
| ItemAssigned (d : WorkItemDispatchResult).

Notation Tool := (Calls.Prog ToolCall ToolReply).
Definition store {A} (p : Tx A) : Calls.Prog ToolCall (result WErr A) := embed (fun X => @OfStore X) p.

Section tools.
Context (parse_time : string -> option Z) (caps tokenCaps : option CapabilityResolver) (proposer dispatcher : bool).

Definition requireAuthor (sess : mcpSession) : result string authorIdentity :=
  let agentID := default "" (ms_agentID sess) in
  let runID := default "" (ms_runID sess) in
  if empty (ms_principal sess) then Err "X-Principal-Id required"
  else if empty agentID || empty runID then Err "work_item authoring requires a server-authenticated agent run"
  else if empty (ms_team sess) then Err "work_item authoring requires a server-authenticated team scope"
  else match (if ms_viaToken sess then tokenCaps else caps) with
       | None => Err "capability denied: no capability resolver configured"
       | Some resolver =>
           match resolver {| as_TeamID := ms_team sess; as_Principal := ms_principal sess; as_AgentID := agentID; as_RunID := runID;
                             as_Capabilities := ms_capabilities sess; as_ViaToken := ms_viaToken sess |} with
           | Err e => Err ("capability check unavailable: " +:+ e)
           | Ok false => Err "capability denied: this agent does not hold the capability"
           | Ok true => Ok {| ai_principal := ms_principal sess; ai_agentName := agentID; ai_runID := runID; ai_teamID := ms_team sess |}
           end
       end.

Definition sessionIsProposeCoordinator (sess : mcpSession) : bool := bool_decide (CoordinatorProposeCapability ∈ ms_capabilities sess).

Definition assign_to (id : authorIdentity) (item assignee : string) : Tx WorkItemDispatchResult :=
  AgentRequestDispatch {| ad_WorkItemID := item; ad_AssigneeAgentID := assignee; ad_Principal := ai_principal id;
                          ad_AgentName := ai_agentName id; ad_RunID := ai_runID id; ad_TeamID := ai_teamID id |}.

(** An omitted parent is the item the run holds. *)
Definition create_under (id : authorIdentity) (a : workItemCreateArgs) (parent : string) : Tool :=
  let* made := store (AgentCreateWorkItem
    {| ac_ParentID := parent; ac_Title := wc_Title a; ac_Body := wc_Body a; ac_Priority := wc_Priority a; ac_WorkMode := wc_WorkMode a;
       ac_Labels := wc_Labels a; ac_Principal := ai_principal id; ac_AgentName := ai_agentName id; ac_RunID := ai_runID id |}) in
  match made with
  | Err e => Ret (StoreError e)
  | Ok rec =>
      if empty (wc_AssigneeAgentID a) then Ret (ItemCreated rec NotAsked)
      else if negb dispatcher then Ret (ItemCreated rec AssignUnavailable)
      else
        let* given := store (assign_to id (rec_ID rec) (wc_AssigneeAgentID a)) in
        Ret (ItemCreated rec (match given with Ok d => Assigned d | Err e => AssignError e end))
  end.

(** [raw] is the arguments, where they parse. *)
Definition callWorkItemCreate (sess : mcpSession) (raw : option workItemCreateArgs) : Tool :=
  match requireAuthor sess with
  | Err why => Ret (Denied why)
  | Ok id =>
      match raw with
      | None => Ret (ToolError "invalid arguments")
      | Some a =>
          if sessionIsProposeCoordinator sess then
            if proposer then let* sent := call (ProposeCreate id a) in Ret (Proposed sent)
            else Ret (ToolError "no proposal channel is wired")
          else if empty (wc_ParentID a) then
            let* held := store (RunHeldWorkItem (ai_runID id)) in
            match held with
            | Err e => Ret (StoreError e)
            | Ok p => if empty p then Ret (ToolError "this run holds no work item") else create_under id a p
            end
          else create_under id a (wc_ParentID a)
      end
  end.

Definition callWorkItemUpdate (sess : mcpSession) (raw : option workItemUpdateArgs) : Tool :=
  match requireAuthor sess with
  | Err why => Ret (Denied why)
  | Ok id =>
      match raw with
      | None => Ret (ToolError "invalid arguments")
      | Some a =>
          if empty (wu_ID a) then Ret (ToolError "id required")
          else
            let* saved := store (AgentUpdateWorkItem parse_time (wu_ID a)
              {| au_Title := wu_Title a; au_Body := wu_Body a; au_ParentID := wu_ParentID a; au_ExpectedUpdatedAt := wu_ExpectedUpdatedAt a;
                 au_Principal := ai_principal id; au_AgentName := ai_agentName id; au_RunID := ai_runID id |}) in
            Ret (match saved with Ok rec => ItemUpdated rec | Err e => StoreError e end)
      end
  end.

Definition callWorkItemAssign (sess : mcpSession) (raw : option workItemAssignArgs) : Tool :=
  match requireAuthor sess with
  | Err why => Ret (Denied why)
  | Ok id =>
      match raw with
      | None => Ret (ToolError "invalid arguments")
      | Some a =>
          if sessionIsProposeCoordinator sess then
            if proposer then let* sent := call (ProposeAssign id a) in Ret (Proposed sent)
            else Ret (ToolError "no proposal channel is wired")
          else if empty (wa_ID a) || empty (wa_AssigneeAgentID a) then Ret (ToolError "id and assignee_agent_id required")
          else if negb dispatcher then Ret (ToolError "work_item_assign is unavailable in this deployment")
          else
            let* given := store (assign_to id (wa_ID a) (wa_AssigneeAgentID a)) in
            Ret (match given with Ok d => ItemAssigned d | Err e => StoreError e end)
      end
  end.
End tools.
