(* ===== verification/AuthoringProps.v ===== *)
(** What the writers of work items do whatever the database answers: an agent writes
    only where it was read to have custody and within its bounds, names itself in the
    trail, and gets there only with the capability; nobody moves an item under itself as
    far as the rows it read go. *)
From S2P Require Import Prelude GoStr CoordDb Calls Board Authoring.
Open Scope k8s_scope.

#[local] Arguments sbind : simpl never.
#[local] Arguments sql : simpl never.
#[local] Arguments found : simpl never.
#[local] Arguments chainDepth : simpl never.
#[local] Arguments ancestorIncludes : simpl never.
#[local] Arguments agentHoldsCustodyScope : simpl never.

Lemma empty_false s : empty s = false -> s <> "".
Proof. unfold empty. by case_bool_decide. Qed.

(** What the guards that were passed say. *)
Ltac passed := repeat case_bool_decide; cbn in *; first [done|lia].

(** * Facts of a history *)

Notation got hist s x := (answered hist (St s) (Some x)).

Definition writes_board {X} (s : Sql X) : bool :=
  match s with
  | InsertItem _ | EditItem _ _ _ _ _ | Advance _ _ _ _ | InsertComment _ _ _ _ | InsertAudit _ => true
  | _ => false
  end.
Definition write_event (e : Event Stmt) : bool := match e with Ev c _ => match c with St s => writes_board s end end.

(** Nothing was written yet. *)
Definition untouched (hist : list (Event Stmt)) : Prop := Forall (fun e => write_event e = false) hist.

Lemma untouched_snoc hist {X} (s : Sql X) x : writes_board s = false -> untouched hist -> untouched (hist ++ [Ev (St s) x]).
Proof. intros Hs H. apply Forall_app. split; [done|]. by constructor. Qed.

Section facts.
Context (hist : list (Event Stmt)).

(** Custody of an item: its claim, or that of an item above it. *)
Inductive custody (principal agentName : string) : string -> Prop :=
| custody_held id c : got hist (ClaimOf id) c -> holds_claim principal agentName c = true -> custody principal agentName id
| custody_up id p q : got hist (ParentOf id) p -> p ≫= nullToPtr = Some q -> custody principal agentName q -> custody principal agentName id.

(** From an item to a root without meeting [target]. *)
Inductive apart (target : string) : string -> Prop :=
| apart_root id p : id <> target -> got hist (ParentOf id) p -> p ≫= nullToPtr = None -> apart target id
| apart_up id p q : id <> target -> got hist (ParentOf id) p -> p ≫= nullToPtr = Some q -> apart target q -> apart target id.

(** How many items from one to its root. *)
Inductive deep : string -> nat -> Prop :=
| deep_root id p : got hist (ParentOf id) p -> p ≫= nullToPtr = None -> deep id 1
| deep_up id p q n : got hist (ParentOf id) p -> p ≫= nullToPtr = Some q -> deep q n -> deep id (S n).
End facts.

Lemma custody_later hist h a b id : hist `prefix_of` h -> custody hist a b id -> custody h a b id.
Proof.
  intros Hp H. induction H; [eapply custody_held|eapply custody_up]; try done; by eapply answered_prefix.
Qed.
Lemma apart_prefix hist h t id : hist `prefix_of` h -> apart hist t id -> apart h t id.
Proof. intros Hp H. induction H; [eapply apart_root|eapply apart_up]; try done; by eapply answered_prefix. Qed.
Lemma deep_prefix hist h id n : hist `prefix_of` h -> deep hist id n -> deep h id n.
Proof. intros Hp H. induction H; [eapply deep_root|eapply deep_up]; try done; by eapply answered_prefix. Qed.

(** * The calculus of transactions *)

Section rules.
Context (may : list (Event Stmt) -> forall X, Stmt X -> Prop) (answers : forall X, Stmt X -> X -> Prop).
Notation does := (obeys may answers).

Lemma does_sbind {A B} post hist (m : Tx A) (k : A -> Tx B) :
  does (fun h r => match r with Ok a => does post h (k a) | Err e => post h (Err e) end) hist m -> does post hist (sbind m k).
Proof. intros H. apply obeys_bind. eapply obeys_weaken; [done|]. by intros h [a|e] _ Ha. Qed.

Lemma does_sql {X} post hist label (s : Sql X) :
  may hist _ (St s) -> (forall v, post (hist ++ [Ev (St s) (Some v)]) (Ok v)) -> (forall e, post (hist ++ [Ev (St s) None]) (Err e)) ->
  does post hist (sql label s).
Proof. intros Hm Hv He. split; [done|]. intros [v|] _; cbn; auto. Qed.

Lemma does_found {X} post hist missing label (s : Sql (option X)) :
  may hist _ (St s) -> (forall v, post (hist ++ [Ev (St s) (Some (Some v))]) (Ok v)) -> (forall h e, post h (Err e)) ->
  does post hist (found missing label s).
Proof. intros Hm Hv He. split; [done|]. intros [[v|]|] _; cbn; auto. Qed.

Lemma obeys_allows {C : Type -> Type} {A} (may1 may2 : list (Event C) -> forall X, C X -> Prop) ans post hist (p : Calls.Prog C A) :
  (forall h X (c : C X), may1 h X c -> may2 h X c) -> obeys may1 ans post hist p -> obeys may2 ans post hist p.
Proof.
  intros Hm. revert hist. induction p as [a|X c k IH]; intros hist; cbn; [done|]. intros [Hc Hk]. split; [auto|]. intros x Hx. apply IH. auto.
Qed.

(** Where every read is allowed, and refusals are free. *)
Context (reads : forall hist X (s : Sql X), writes_board s = false -> may hist _ (St s)).

Section after_reads.
Context {A : Type} (post : list (Event Stmt) -> result WErr A -> Prop) (refusals : forall h e, post h (Err e)).

Lemma does_read {X} hist label (s : Sql X) (k : X -> Tx A) :
  writes_board s = false -> (forall v, does post (hist ++ [Ev (St s) (Some v)]) (k v)) -> does post hist (sbind (sql label s) k).
Proof. intros Hs Hk. apply does_sbind, does_sql; [by apply reads|done|auto]. Qed.

Lemma does_read_found {X} hist missing label (s : Sql (option X)) (k : X -> Tx A) :
  writes_board s = false -> (forall v, does post (hist ++ [Ev (St s) (Some (Some v))]) (k v)) -> does post hist (sbind (found missing label s) k).
Proof. intros Hs Hk. apply does_sbind, does_found; [by apply reads|done|auto]. Qed.
End after_reads.

Ltac on_read := eapply does_read; [by auto|done|]; intros ?.

(** The walks, and what they read. *)
Lemma does_custody principal agentName fuel : forall cur post hist,
  (forall h e, post h (Err e)) -> untouched hist ->
  (forall h b, hist `prefix_of` h -> untouched h -> (b = true -> custody h principal agentName cur) -> post h (Ok b)) ->
  does post hist (custody_from fuel cur principal agentName).
Proof.
  induction fuel as [|fuel IH]; intros cur post hist Hr Hu Hk; [apply Hr|]. cbn [custody_from].
  unfold agentHoldsClaim. apply does_sbind. on_read. cbn. set (h1 := hist ++ _).
  assert (untouched h1) as Hu1 by by apply untouched_snoc. assert (hist `prefix_of` h1) as Hp1 by by eexists.
  destruct (holds_claim _ _ v) eqn:E.
  { apply Hk; [done..|]. intros _. eapply custody_held; [apply answered_last|done]. }
  on_read. set (h2 := h1 ++ _). assert (untouched h2) as Hu2 by by apply untouched_snoc.
  assert (hist `prefix_of` h2) as Hp2 by (etrans; [done|by eexists]).
  destruct (v0 ≫= nullToPtr) as [q|] eqn:Eq; [|by apply Hk].
  apply IH; [done..|]. intros h b Hp Huh Hc. apply Hk; [by etrans|done|]. intros Hb. eapply custody_up; [|done|by apply Hc].
  eapply answered_prefix; [exact Hp|apply answered_last].
Qed.

Lemma does_ancestor target fuel : forall cur post hist,
  (forall h e, post h (Err e)) -> untouched hist ->
  (forall h b, hist `prefix_of` h -> untouched h -> (b = false -> apart h target cur) -> post h (Ok b)) ->
  does post hist (ancestorIncludes_from fuel cur target).
Proof.
  induction fuel as [|fuel IH]; intros cur post hist Hr Hu Hk; [apply Hr|]. cbn [ancestorIncludes_from].
  destruct (bool_decide_reflect (cur = target)) as [->|Hne]; [by apply Hk|]. on_read. set (h1 := hist ++ _).
  assert (untouched h1) as Hu1 by by apply untouched_snoc. assert (hist `prefix_of` h1) as Hp1 by by eexists.
  destruct (v ≫= nullToPtr) as [q|] eqn:Eq.
  - apply IH; [done..|]. intros h b Hp Huh Hc. apply Hk; [by etrans|done|]. intros Hb. eapply apart_up; [done| |done|by apply Hc].
    eapply answered_prefix; [exact Hp|apply answered_last].
  - apply Hk; [done..|]. intros _. eapply apart_root; [done| |done]. apply answered_last.
Qed.

Lemma does_depth fuel : forall cur depth post hist,
  (forall h e, post h (Err e)) -> untouched hist ->
  (forall h n, hist `prefix_of` h -> untouched h -> deep h cur (S n) -> post h (Ok (depth + n)%nat)) ->
  does post hist (chainDepth_from fuel depth cur).
Proof.
  induction fuel as [|fuel IH]; intros cur depth post hist Hr Hu Hk; [apply Hr|]. cbn [chainDepth_from]. on_read. set (h1 := hist ++ _).
  assert (untouched h1) as Hu1 by by apply untouched_snoc. assert (hist `prefix_of` h1) as Hp1 by by eexists.
  destruct (v ≫= nullToPtr) as [q|] eqn:Eq.
  - apply IH; [done..|]. intros h n Hp Huh Hd. replace (S depth + n)%nat with (depth + S n)%nat by lia. apply Hk; [by etrans|done|].
    eapply deep_up; [|done..]. eapply answered_prefix; [exact Hp|apply answered_last].
  - replace depth with (depth + 0)%nat by lia. apply Hk; [done..|]. eapply deep_root; [|done]. apply answered_last.
Qed.
End rules.

(** * What each writer may do *)

Definition at_read (hist : list (Event Stmt)) (id : string) (r : Row) : Prop := exists rid, got hist (LockItem id) (Some (rid, r)).

Definition audit_event (e : Event Stmt) : bool := match e with Ev c _ => match c with St (InsertAudit _) => true | _ => false end end.

(** Anyone: an item stays where it is, becomes a root, or goes under one it was not
    found above; [item] is the one the operation names. *)
Definition shape_may (item : string) (hist : list (Event Stmt)) X (c : Stmt X) : Prop :=
  match c with St s =>
    match s with
    | EditItem id _ _ parent _ =>
        id = item /\ untouched hist /\ exists r, at_read hist id r /\ (parent = wi_parent r \/ parent = None \/ exists p, parent = Some p /\ apart hist id p)
    | _ => True
    end
  end.

Section agent.
Context (principal agentName run item : string).

Definition claimed (hist : list (Event Stmt)) (id : string) : Prop := exists c, got hist (ClaimOf id) c /\ holds_claim principal agentName c = true.
Definition in_budget (hist : list (Event Stmt)) : Prop := exists k, got hist (CountCreated run) k /\ (k < AgentAuthorRunBudget)%nat.

(** An agent: under its claim, within its custody, within the bounds, in its own name. *)
Definition agent_may (hist : list (Event Stmt)) X (c : Stmt X) : Prop :=
  match c with St s =>
    match s with
    | InsertItem n =>
        untouched hist /\ ni_principal n = principal /\ in_budget hist
        /\ exists p, ni_parent n = Some p /\ p <> "" /\ claimed hist p /\ exists d, deep hist p d /\ (d < AgentAuthorMaxDepth)%nat
    | EditItem id _ _ parent _ =>
        id = item /\ untouched hist /\ custody hist principal agentName id /\ exists r, at_read hist id r
        /\ (parent = wi_parent r
            \/ exists p, parent = Some p /\ p <> "" /\ custody hist principal agentName p /\ apart hist id p
               /\ exists d k, deep hist p d /\ got hist (SubtreeHeight id depthCap) k /\ (d + k <= AgentAuthorMaxDepth)%nat)
    | Advance id agent from _ =>
        untouched hist /\ custody hist principal agentName id
        /\ exists r a team names, at_read hist id r /\ from = wi_state r /\ agent = Some a /\ wi_team r = Some team
           /\ got hist (TeamAgents team) names /\ a ∈ names
    | InsertComment _ _ _ _ => False
    | InsertAudit a =>
        au_principal a = principal /\ au_initiator a = None
        /\ (au_run a = None \/ au_run a = Some run)
        /\ (au_run a = Some run -> au_event a = "work_item_created" -> in_budget hist /\ Forall (fun e => audit_event e = false) hist)
    | _ => True
    end
  end.

Lemma agent_shape hist X (c : Stmt X) : agent_may hist X c -> shape_may item hist X c.
Proof.
  destruct c as [Y s]. destruct s; try done. cbn. intros (Hi & Hu & _ & r & Hr & H). do 2 (split; [done|]). exists r. split; [done|].
  destruct H as [H|(p & -> & _ & _ & Ha & _)]; [by left|right; right]. by exists p.
Qed.

Lemma agent_reads hist X (s : Sql X) : writes_board s = false -> agent_may hist _ (St s).
Proof. by destruct s. Qed.
End agent.

Lemma shape_reads item hist X (s : Sql X) : writes_board s = false -> shape_may item hist _ (St s).
Proof. by destruct s. Qed.

Notation free := (fun (_ : list (Event Stmt)) _ => True).

Lemma untouched_no_audit hist : untouched hist -> Forall (fun e => audit_event e = false) hist.
Proof. intros H. eapply Forall_impl; [exact H|]. intros [X [Y s] x] Hw. by destruct s. Qed.

Lemma no_audit_snoc hist {X} (s : Sql X) x :
  audit_event (Ev (St s) x) = false -> Forall (fun e => audit_event e = false) hist -> Forall (fun e => audit_event e = false) (hist ++ [Ev (St s) x]).
Proof. intros Hs H. apply Forall_app. split; [done|]. by constructor. Qed.

#[export] Hint Resolve untouched_snoc untouched_no_audit no_audit_snoc : k8s.

(** Refusals of what is asked for, before or after the reads. *)
Ltac guards := repeat match goal with |- obeys _ _ _ _ (if ?b then refuse _ else _) => destruct b eqn:?; [done|] end.
Ltac read_agent := eapply does_read; [apply agent_reads|done|done|]; intros ?.
Ltac read_found_agent := eapply does_read_found; [apply agent_reads|done|done|]; intros ?.
Ltac same_facts := repeat match goal with
  | H : untouched ?h |- untouched (?h ++ [_]) => apply untouched_snoc; [done|exact H]
  end.

(** A fact of what was read stays one. *)
Ltac earlier := eapply answered_prefix; [eassumption|].

Lemma claimed_prefix hist h a b id : hist `prefix_of` h -> claimed a b hist id -> claimed a b h id.
Proof. intros Hp (c & Hc & Hh). exists c. split; [by earlier|done]. Qed.
Lemma at_read_prefix hist h id r : hist `prefix_of` h -> at_read hist id r -> at_read h id r.
Proof. intros Hp (rid & H). exists rid. by earlier. Qed.
Lemma in_budget_prefix run hist h : hist `prefix_of` h -> in_budget run hist -> in_budget run h.
Proof. intros Hp (k & Hk & Hl). exists k. split; [by earlier|done]. Qed.

Lemma history_snoc {A} (l : list A) x : l `prefix_of` l ++ [x].
Proof. by eexists. Qed.
#[export] Hint Resolve history_snoc custody_later apart_prefix deep_prefix claimed_prefix at_read_prefix in_budget_prefix : k8s.

Lemma agent_create_may item inp hist :
  untouched hist -> obeys (agent_may (ac_Principal inp) (ac_AgentName inp) (ac_RunID inp) item) any_answer free hist (AgentCreateWorkItem inp).
Proof.
  intros Hu. unfold AgentCreateWorkItem. destruct (empty (ac_ParentID inp)) eqn:Ep; [done|]. guards.
  destruct (normalizeCreateFields _ _ _) as [[[priority workMode] labels]|]; [|done].
  read_agent. read_found_agent. unfold agentHoldsClaim. apply does_sbind. read_agent. cbn. set (h3 := _ ++ [_]).
  assert (untouched h3) as Hu3 by (do 3 (apply untouched_snoc; [done|]); done). guards.
  assert (claimed (ac_Principal inp) (ac_AgentName inp) h3 (ac_ParentID inp)) as Hc.
  { exists v1. split; [apply answered_last|]. by destruct (holds_claim _ _ v1). }
  apply does_sbind. unfold chainDepth. eapply does_depth; [apply agent_reads|done|done|]. intros h4 n Hp4 Hu4 Hd. guards.
  read_agent. guards. set (h5 := h4 ++ _). assert (untouched h5) as Hu5 by by apply untouched_snoc.
  assert (in_budget (ac_RunID inp) h5) as Hb.
  { exists v2. split; [apply answered_last|]. passed. }
  apply does_sbind, does_sql; [| |done].
  { cbn. split; [done|]. split; [done|]. split; [done|]. exists (ac_ParentID inp). split; [done|]. split.
    { by apply empty_false. }
    split; [eapply claimed_prefix; [|exact Hc]; by eapply prefix_app_r|]. exists (S n). split; [eapply deep_prefix; [|exact Hd]; apply history_snoc|].
    unfold AgentAuthorMaxDepth in *. passed. }
  intros row. unfold writeAgentAudit. apply does_sbind, does_sql; [| |done].
  { cbn. split; [done|]. split; [done|]. split; [by right|]. intros _ _. split; [eapply in_budget_prefix; [apply history_snoc|exact Hb]|].
    apply no_audit_snoc; [done|]. by apply untouched_no_audit. }
  intros []. by eapply does_read; [apply agent_reads|..].
Qed.

Lemma wrap_agent_custody p a r i cur post hist :
  (forall h e, post h (Err e)) -> untouched hist ->
  (forall h b, hist `prefix_of` h -> untouched h -> (b = true -> custody h p a cur) -> post h (Ok b)) ->
  obeys (agent_may p a r i) any_answer post hist (agentHoldsCustodyScope cur p a).
Proof. apply does_custody, agent_reads. Qed.

Lemma not_negb b : negb b = false -> b = true.
Proof. by destruct b. Qed.

(** The row an edit gives its item, once the checks passed. *)
Definition edit_target (hist : list (Event Stmt)) (principal agentName id : string) (parent : option string) : Prop :=
  match parent with
  | None => True
  | Some p =>
      p <> "" /\ custody hist principal agentName p /\ apart hist id p
      /\ exists d k, deep hist p d /\ got hist (SubtreeHeight id depthCap) k /\ (d + k <= AgentAuthorMaxDepth)%nat
  end.

Lemma agent_reparent_may principal agentName run id project parent post hist :
  (forall h e, post h (Err e)) -> untouched hist ->
  (forall h, hist `prefix_of` h -> untouched h -> edit_target h principal agentName id parent -> post h (Ok tt)) ->
  obeys (agent_may principal agentName run id) any_answer post hist (check_agent_reparent id project principal agentName parent).
Proof.
  intros Hr Hu Hk. destruct parent as [p|]; [|by apply Hk]. unfold check_agent_reparent.
  destruct (empty p) eqn:Ep; [apply Hr|]. destruct (bool_decide (p = id)); [apply Hr|].
  read_found_agent. destruct (negb _); [apply Hr|]. set (h1 := hist ++ _). assert (untouched h1) as Hu1 by by apply untouched_snoc.
  assert (hist `prefix_of` h1) as Hp1 by apply history_snoc.
  apply does_sbind, wrap_agent_custody; [done..|]. intros h2 b Hp2 Hu2 Hc. destruct b; [|apply Hr]. specialize (Hc eq_refl). cbn.
  apply does_sbind. unfold ancestorIncludes. eapply does_ancestor; [apply agent_reads|done|done|]. intros h3 b Hp3 Hu3 Ha.
  destruct b; [apply Hr|]. specialize (Ha eq_refl).
  apply does_sbind. unfold chainDepth. eapply does_depth; [apply agent_reads|done|done|]. intros h4 n Hp4 Hu4 Hd.
  unfold subtreeHeight. read_agent. destruct (bool_decide_reflect (AgentAuthorMaxDepth < 1 + n + v0)%nat) as [|Hle]; [apply Hr|].
  assert (h4 `prefix_of` h4 ++ [Ev (St (SubtreeHeight id depthCap)) (Some v0)]) as Hp5 by apply history_snoc.
  apply Hk; [by repeat (etrans; [eassumption|])|by apply untouched_snoc|]. cbn.
  split; [by apply empty_false|]. split; [eapply custody_later; [|exact Hc]; by repeat (etrans; [eassumption|])|].
  split; [eapply apart_prefix; [|exact Ha]; by repeat (etrans; [eassumption|])|].
  exists (S n), v0. split; [by eapply deep_prefix|]. split; [apply answered_last|lia].
Qed.

(** The edit itself, and its provenance. *)
Lemma edit_row_agent {A} principal agentName run id r title body parent (k : Row -> Tx A) hist :
  untouched hist -> at_read hist id r -> custody hist principal agentName id -> edit_target hist principal agentName id parent ->
  (forall h v, obeys (agent_may principal agentName run id) any_answer free h (k v)) ->
  obeys (agent_may principal agentName run id) any_answer free hist (sbind (edit_row id r title body parent true) k).
Proof.
  intros Hu Hat Hc He Hk. unfold edit_row. apply does_sbind. apply does_sbind, does_sql; [| |done].
  - cbn. do 3 (split; [done|]). exists r. split; [done|]. unfold new_parent. destruct parent as [p|]; [|by left]. right. exists p.
    destruct He as (Hne & He). split; [unfold nullif; by case_bool_decide|]. done.
  - intros n. guards. by apply does_sql; [by apply agent_reads|auto..].
Qed.

Lemma check_expected_does (may : list (Event Stmt) -> forall X, Stmt X -> Prop) pt expected r post hist :
  (forall h e, post h (Err e)) -> post hist (Ok tt) -> obeys may any_answer post hist (check_expected pt expected r).
Proof. intros Hr Hk. unfold check_expected. repeat case_match; first [apply Hk|apply Hr]. Qed.

Lemma agent_update_may pt id inp hist :
  untouched hist -> obeys (agent_may (au_Principal inp) (au_AgentName inp) (au_RunID inp) id) any_answer free hist (AgentUpdateWorkItem pt id inp).
Proof.
  intros Hu. unfold AgentUpdateWorkItem. guards. read_agent. read_found_agent. destruct v0 as [rid r]. set (h1 := _ ++ [Ev (St (LockItem id)) _]).
  assert (untouched h1) as Hu1 by (do 2 (apply untouched_snoc; [done|]); done). assert (at_read h1 id r) as Hat by (exists rid; apply answered_last).
  apply does_sbind, wrap_agent_custody; [done..|]. intros h2 b Hp2 Hu2 Hc. destruct b; [|done]. specialize (Hc eq_refl). cbn.
  apply does_sbind, check_expected_does; [done|]. apply does_sbind, agent_reparent_may; [done..|]. intros h3 Hp3 Hu3 He.
  apply edit_row_agent; [done| | |done|].
  { eapply at_read_prefix; [|exact Hat]. by etrans. } { by eapply custody_later. }
  intros h v0. unfold writeAgentAudit. apply does_sbind, does_sql; [| |done].
  { cbn. split; [done|]. split; [done|]. split; [by right|]. intros _ ?. done. }
  intros []. by read_agent.
Qed.

(** A dispatch, by whoever may make it. *)
Section dispatch.
Context (may : list (Event Stmt) -> forall X, Stmt X -> Prop) (reads : forall hist X (s : Sql X), writes_board s = false -> may hist _ (St s)).
Context (inp : RequestDispatchInput).

(** What is known when the lane moves. *)
Definition dispatch_known (hist : list (Event Stmt)) (a : option string) (from : string) : Prop :=
  exists r team names, at_read hist (rd_WorkItemID inp) r /\ from = wi_state r /\ a = Some (rd_AgentID inp) /\ wi_team r = Some team
    /\ got hist (TeamAgents team) names /\ rd_AgentID inp ∈ names.

Lemma dispatch_may hist :
  untouched hist ->
  (forall h a from b, hist `prefix_of` h -> untouched h -> dispatch_known h a from -> may h _ (St (Advance (rd_WorkItemID inp) a from b))) ->
  (forall h a, au_principal a = rd_Principal inp -> au_initiator a = nullif (rd_InitiatedByUserID inp) -> au_run a = None -> may h _ (St (InsertAudit a))) ->
  obeys may any_answer free hist (RequestDispatch inp).
Proof.
  intros Hu Ha Hw. unfold RequestDispatch. guards. eapply does_read; [exact reads|done|done|]. intros ?.
  eapply does_read_found; [exact reads|done|done|]. intros [rid r]. set (h1 := _ ++ [Ev (St (LockItem _)) _]).
  assert (untouched h1) as Hu1 by (do 2 (apply untouched_snoc; [done|]); done).
  assert (hist `prefix_of` h1) as Hp1 by (unfold h1; rewrite <- app_assoc; by eexists).
  guards. destruct (nullToPtr (wi_team r)) as [team|] eqn:Et; [|done]. destruct (dispatch_branch (wi_state r)) as [[event guarded]|]; [|done].
  assert (wi_team r = Some team) as Hteam by (destruct (wi_team r); cbn in Et; by repeat case_match; simplify_eq).
  assert (forall h, h1 `prefix_of` h -> untouched h -> obeys may any_answer free h (dispatch_as inp r team event guarded)) as Hgo.
  { intros h Hp Huh. unfold dispatch_as. eapply does_read; [exact reads|done|done|]. intros names. destruct (containsString names _) eqn:Ec; [|done]. cbn.
    assert (h `prefix_of` h ++ [Ev (St (TeamAgents team)) (Some names)]) as Hp2 by apply history_snoc.
    apply does_sbind, does_sql; [|intros n|done].
    - apply Ha; [by repeat (etrans; [eassumption|])|by apply untouched_snoc|]. exists r, team, names.
      split; [eapply at_read_prefix; [|exists rid; apply answered_last]; by etrans|]. do 3 (split; [done|]). split; [apply answered_last|].
      unfold containsString in Ec. by case_bool_decide.
    - guards. apply does_sbind, does_sql; [by apply Hw|intros []|done]. by eapply does_read; [exact reads|done..|]. }
  destruct guarded; cbn [sbind]; [|by apply Hgo]. unfold check_unheld. apply does_sbind. eapply does_read; [exact reads|done|done|]. intros hol.
  destruct hol as [[]|]; [done| |]; (apply Hgo; [apply history_snoc|by apply untouched_snoc]).
Qed.
End dispatch.

Lemma agent_dispatch_may item inp hist :
  untouched hist -> obeys (agent_may (ad_Principal inp) (ad_AgentName inp) (ad_RunID inp) item) any_answer free hist (AgentRequestDispatch inp).
Proof.
  intros Hu. unfold AgentRequestDispatch. guards. read_agent. apply does_sbind, wrap_agent_custody; [done|by apply untouched_snoc|].
  intros h b Hp Huh Hc. destruct b; [|done]. specialize (Hc eq_refl). cbn [negb].
  apply dispatch_may; [apply agent_reads|done| |].
  - intros h' a from g Hp' Hu' (r & team & names & Hat & -> & -> & Ht & Hn & Hin). cbn. split; [done|]. split; [by eapply custody_later|].
    by exists r, (ad_AssigneeAgentID inp), team, names.
  - intros h' a Hpr Hi Hrun. cbn. split; [done|]. split; [by rewrite Hi|]. split; [by left|]. rewrite Hrun. done.
Qed.

(** * Labels *)

(** What is kept of the labels asked for: trimmed, distinct, within both bounds. *)
Lemma normalize_labels_ok labels : forall out out',
  normalize_labels out labels = Ok out' ->
  NoDup out -> Forall (fun l => l <> "" /\ (String.length l <= maxLabelLen)%nat) out -> (length out <= maxLabels)%nat ->
  NoDup out' /\ Forall (fun l => l <> "" /\ (String.length l <= maxLabelLen)%nat) out' /\ (length out' <= maxLabels)%nat.
Proof.
  induction labels as [|l labels IH]; intros out out'; cbn [normalize_labels]; [by intros [= ->]|].
  destruct (empty (TrimSpace l) || bool_decide (TrimSpace l ∈ out)) eqn:E; [by apply IH|]. apply orb_false_iff in E as [E1 E2].
  apply empty_false in E1. apply bool_decide_eq_false in E2. destruct (bool_decide_reflect (maxLabelLen < String.length (TrimSpace l))%nat) as [|Hlen]; [done|].
  destruct (bool_decide_reflect (maxLabels < length (out ++ [TrimSpace l]))%nat) as [|Hnum]; [done|]. intros H Hd Hf _. eapply IH; [exact H| | |lia].
  - apply NoDup_app. split; [done|]. split; [|apply NoDup_singleton]. intros x Hx Hs. apply list_elem_of_singleton in Hs. by subst.
  - apply Forall_app. split; [done|]. constructor; [split; [done|lia]|constructor].
Qed.

(** * People *)

Ltac read_any := eapply does_read; [apply shape_reads|done|done|]; intros ?.
Ltac read_found_any := eapply does_read_found; [apply shape_reads|done|done|]; intros ?.
Ltac write_any := apply does_sbind, does_sql; [done|intros ?|done].

Lemma reparent_shape id project teamID parent post hist :
  (forall h e, post h (Err e)) -> untouched hist ->
  (forall h, hist `prefix_of` h -> untouched h -> (forall p, parent ≫= nullif = Some p -> apart h id p) -> post h (Ok tt)) ->
  obeys (shape_may id) any_answer post hist (check_reparent id project teamID parent).
Proof.
  intros Hr Hu Hk. unfold check_reparent. destruct (parent ≫= nullif) as [p|] eqn:Ep; [|by apply Hk].
  destruct (bool_decide (p = id)); [apply Hr|]. read_found_any. destruct (outside _ _); [apply Hr|]. destruct (negb _); [apply Hr|].
  set (h1 := hist ++ _). assert (untouched h1) as Hu1 by by apply untouched_snoc. assert (hist `prefix_of` h1) as Hp1 by apply history_snoc.
  apply does_sbind. unfold ancestorIncludes. eapply does_ancestor; [apply shape_reads|done|done|]. intros h3 b Hp3 Hu3 Ha.
  destruct b; [apply Hr|]. apply Hk; [by etrans|done|]. intros q [= <-]. by apply Ha.
Qed.

Lemma update_shape pt id inp hist : untouched hist -> obeys (shape_may id) any_answer free hist (UpdateWorkItem pt id inp).
Proof.
  intros Hu. unfold UpdateWorkItem. guards. read_any. read_found_any. destruct v0 as [rid r]. set (h1 := _ ++ [Ev (St (LockItem id)) _]).
  assert (untouched h1) as Hu1 by (do 2 (apply untouched_snoc; [done|]); done). assert (at_read h1 id r) as Hat by (exists rid; apply answered_last).
  guards. apply does_sbind, check_expected_does; [done|]. apply does_sbind, reparent_shape; [done..|]. intros h2 Hp2 Hu2 Ha.
  unfold edit_row. apply does_sbind. apply does_sbind, does_sql; [| |done].
  - cbn. do 2 (split; [done|]). exists r. split; [by eapply at_read_prefix|]. unfold new_parent. destruct (uw_ParentID inp) as [p|]; [|by left].
    right. cbn in Ha. destruct (nullif p) as [q|]; [|by left]. right. exists q. split; [done|by apply Ha].
  - intros n. destruct (bool_decide (n = O)); [done|]. apply does_sql; [done|intros r'|done]. unfold writeAudit. write_any. by read_any.
Qed.

Lemma create_shape inp hist : obeys (shape_may "") any_answer free hist (CreateWorkItem inp).
Proof.
  unfold CreateWorkItem. guards. destruct (normalizeCreateFields _ _ _) as [[[priority workMode] labels]|]; [|done]. read_any.
  assert (forall h tp, obeys (shape_may "") any_answer free h (let~ row := sql "insert" (InsertItem
        {| ni_project := cw_ProjectID inp; ni_team := tp.1; ni_parent := tp.2; ni_title := cw_Title inp; ni_body := cw_Body inp;
           ni_principal := cw_Principal inp; ni_priority := priority; ni_work_mode := workMode; ni_labels := labels |}) in
      let~ _ := writeAudit row.1 "work_item_created" (cw_Principal inp) (cw_InitiatedByUserID inp)
        [("title", FStr (wi_title row.2)); ("parent_id", FStr (default "" (wi_parent row.2))); ("priority", FStr priority);
         ("work_mode", FStr workMode); ("labels", FList labels)] in
      let~ _ := sql "commit" Commit in
      answer (record_of row))) as Hgo.
  { intros h tp. write_any. unfold writeAudit. write_any. by read_any. }
  apply does_sbind. unfold create_parent. destruct (empty (cw_ParentID inp)); [apply (Hgo _ (_, _))|]. read_found_any. guards. apply (Hgo _ (_, _)).
Qed.

Lemma ensure_shape source inp hist : obeys (shape_may "") any_answer free hist (EnsureWorkItem source inp).
Proof.
  unfold EnsureWorkItem. guards. destruct (normalizeCreateFields _ _ _) as [[[? ?] labels]|]; [|done]. guards.
  read_any. read_any. read_any. destruct v1 as [x|]; [by read_any|]. write_any. unfold writeAudit. write_any. by read_any.
Qed.

Lemma refs_shape uuid_ok project team refs : forall seen post hist,
  (forall h e, post h (Err e)) -> (forall h out, post h (Ok out)) -> obeys (shape_may "") any_answer post hist (resolve_refs uuid_ok project team seen refs).
Proof.
  induction refs as [|r refs IH]; intros seen post hist Hr Hk; cbn [resolve_refs]; [apply Hk|].
  destruct (_ || _); [by apply IH|]. read_any. apply does_sbind, IH; [done|]. intros h out. by apply Hk.
Qed.

Lemma comment_shape uuid_ok id teamID principal body refs hist : obeys (shape_may "") any_answer free hist (AppendHumanComment uuid_ok id teamID principal body refs).
Proof.
  unfold AppendHumanComment. guards. read_any. read_found_any. destruct v0 as [r holder]. guards.
  apply does_sbind. unfold resolveCommentRefs.
  assert (forall h resolved, obeys (shape_may "") any_answer free h
    (let~ created := sql "insert" (InsertComment id principal body resolved) in
     let~ _ := writeAudit id "work_item_commented" principal "" [] in
     let~ moved := comment_nudge id principal (wi_state r) holder in
     let~ _ := sql "commit" Commit in
     answer {| hc_Author := principal; hc_Body := body; hc_CreatedAt := created; hc_References := resolved; hc_ReTriggered := moved;
            hc_FromState := if moved : bool then wi_state r else ""; hc_ToState := if moved : bool then "todo" else "" |})) as Hgo.
  { intros h resolved. write_any. unfold writeAudit. write_any. apply does_sbind. unfold comment_nudge.
    destruct (_ && _); [|by read_any]. write_any. destruct (bool_decide _); [write_any|]; by read_any. }
  destruct (empty (wi_project r)); [apply Hgo|]. apply refs_shape; [done|]. intros h out. apply Hgo.
Qed.

Lemma dispatch_shape inp hist : untouched hist -> obeys (shape_may "") any_answer free hist (RequestDispatch inp).
Proof. intros Hu. by apply dispatch_may; [apply shape_reads|..]. Qed.

(** * An agent's writes *)

(** The operations an agent makes, in the name of one run. *)
Inductive AgentOp : Set :=
| OpCreate (inp : AgentCreateWorkItemInput)
| OpUpdate (id : string) (inp : AgentUpdateWorkItemInput)
| OpDispatch (inp : AgentRequestDispatchInput).

Definition op_identity (o : AgentOp) : string * string * string :=
  match o with
  | OpCreate i => (ac_Principal i, ac_AgentName i, ac_RunID i)
  | OpUpdate _ i => (au_Principal i, au_AgentName i, au_RunID i)
  | OpDispatch i => (ad_Principal i, ad_AgentName i, ad_RunID i)
  end.

Definition op_item (o : AgentOp) : string := match o with OpUpdate id _ => id | _ => "" end.

Definition forget {A} (p : Tx A) : Calls.Prog Stmt (option WErr) := pbind p (fun r => Ret (match r with Ok _ => None | Err e => Some e end)).
Definition run_agent (pt : string -> option Z) (o : AgentOp) : Calls.Prog Stmt (option WErr) :=
  match o with
  | OpCreate i => forget (AgentCreateWorkItem i)
  | OpUpdate id i => forget (AgentUpdateWorkItem pt id i)
  | OpDispatch i => forget (AgentRequestDispatch i)
  end.

Lemma obeys_forget {A} may hist (p : Tx A) : obeys may any_answer free hist p -> obeys may any_answer free hist (forget p).
Proof. intros H. apply obeys_bind. eapply obeys_weaken; [exact H|]. by intros h [a|e]. Qed.

Lemma run_agent_may pt o :
  obeys (agent_may (op_identity o).1.1 (op_identity o).1.2 (op_identity o).2 (op_item o)) any_answer free [] (run_agent pt o).
Proof.
  destruct o; apply obeys_forget; [apply agent_create_may|apply agent_update_may|apply agent_dispatch_may]; constructor.
Qed.

(** C14: An agent writes only where it has custody. Whatever the database answers, an
    agent's operation inserts an item only under one whose claim it read to be its own,
    edits or dispatches one only when it, or an item on the way up from it, was read to be
    claimed by the agent, and dispatches it only to a member read of the item's Team; and
    the provenance names the agent and no person. *)
Theorem agent_stays_in_custody {W} (h : forall X, Stmt X -> W -> X -> W -> Prop) pt o w t a w' t1 X (s : Sql X) x t2 :
  runs h (run_agent pt o) w t a w' -> t = t1 ++ Ev (St s) x :: t2 ->
  let '(principal, agentName, run) := op_identity o in
  match s with
  | InsertItem n => exists p, ni_parent n = Some p /\ p <> "" /\ claimed principal agentName t1 p /\ ni_principal n = principal
  | EditItem id _ _ parent _ =>
      custody t1 principal agentName id
      /\ exists r, at_read t1 id r /\ (parent <> wi_parent r -> exists p, parent = Some p /\ custody t1 principal agentName p)
  | Advance id agent _ _ =>
      custody t1 principal agentName id
      /\ exists r m team names, at_read t1 id r /\ agent = Some m /\ wi_team r = Some team /\ got t1 (TeamAgents team) names /\ m ∈ names
  | InsertAudit au => au_principal au = principal /\ au_initiator au = None
  | InsertComment _ _ _ _ => False
  | _ => True
  end.
Proof.
  intros Hr ->. eapply (obeys_any _ h) in Hr; [|apply run_agent_may]. apply trace_ok_at in Hr as [Hm _].
  destruct (op_identity o) as [[principal agentName] run]. cbn in Hm |- *. destruct s; try done; cbn in Hm.
  - destruct Hm as (_ & Hn & _ & p & Hp & Hne & Hc & _). by exists p.
  - destruct Hm as (_ & _ & Hc & r & Hat & H). split; [done|]. exists r. split; [done|]. intros Hne.
    destruct H as [->|(p & -> & _ & Hcp & _)]; [done|]. by exists p.
  - destruct Hm as (_ & Hc & r & m & team & names & Hat & _ & -> & Ht & Hn & Hin). split; [done|]. by exists r, m, team, names.
  - by destruct Hm as (? & ? & _).
Qed.

(** * The tools *)

Inductive ToolUse : Set :=
| UseCreate (a : option workItemCreateArgs)
| UseUpdate (a : option workItemUpdateArgs)
| UseAssign (a : option workItemAssignArgs).

(** As the service wires them: a session by token is judged by its verified claims. *)
Definition use_tool (pt : string -> option Z) (proposer dispatcher : bool) (sess : mcpSession) (u : ToolUse) : Tool :=
  let caps := Some HeaderCapabilityResolver in
  let tokenCaps := Some TokenCapabilityResolver in
  match u with
  | UseCreate a => callWorkItemCreate caps tokenCaps proposer dispatcher sess a
  | UseUpdate a => callWorkItemUpdate pt caps tokenCaps sess a
  | UseAssign a => callWorkItemAssign caps tokenCaps proposer dispatcher sess a
  end.

Lemma requireAuthor_grants sess id :
  requireAuthor (Some HeaderCapabilityResolver) (Some TokenCapabilityResolver) sess = Ok id ->
  ms_principal sess = ai_principal id /\ ms_agentID sess = Some (ai_agentName id) /\ ms_runID sess = Some (ai_runID id)
  /\ ms_team sess = ai_teamID id /\ WorkItemAuthorCapability ∈ ms_capabilities sess
  /\ ai_principal id <> "" /\ ai_agentName id <> "" /\ ai_runID id <> "" /\ ai_teamID id <> "".
Proof.
  unfold requireAuthor. destruct (empty (ms_principal sess)) eqn:E1; [done|]. destruct (_ || _) eqn:E2; [done|]. destruct (empty (ms_team sess)) eqn:E3; [done|].
  apply orb_false_iff in E2 as [E2 E4]. apply empty_false in E1, E2, E3, E4. intros H.
  assert (WorkItemAuthorCapability ∈ ms_capabilities sess /\
    id = {| ai_principal := ms_principal sess; ai_agentName := default "" (ms_agentID sess); ai_runID := default "" (ms_runID sess); ai_teamID := ms_team sess |}) as [Hin ->].
  { destruct (ms_viaToken sess); cbn in H; case_bool_decide; by simplify_eq. }
  cbn. repeat split; try done; [by destruct (ms_agentID sess)|by destruct (ms_runID sess)].
Qed.

(** C15: The authoring tools serve only sessions that hold the grant. A call that reaches
    the store, or raises a proposal, came from a session with a principal, an agent, a run
    and a Team, among whose capabilities is the authoring one; and under the propose grant
    a creation or an assignment does nothing but raise one proposal. *)
Theorem tools_need_the_grant {W} (h : forall X, ToolCall X -> W -> X -> W -> Prop) pt proposer dispatcher sess u w t r w' :
  runs h (use_tool pt proposer dispatcher sess u) w t r w' -> t <> [] ->
  (exists id, requireAuthor (Some HeaderCapabilityResolver) (Some TokenCapabilityResolver) sess = Ok id
     /\ ms_principal sess = ai_principal id /\ ms_agentID sess = Some (ai_agentName id) /\ ms_runID sess = Some (ai_runID id)
     /\ ms_team sess = ai_teamID id /\ ai_principal id <> "" /\ ai_agentName id <> "" /\ ai_runID id <> "" /\ ai_teamID id <> "")
  /\ WorkItemAuthorCapability ∈ ms_capabilities sess
  /\ (CoordinatorProposeCapability ∈ ms_capabilities sess ->
      match u with
      | UseCreate a => exists id args sent, a = Some args /\ t = [Ev (ProposeCreate id args) sent] /\ r = Proposed sent
      | UseAssign a => exists id args sent, a = Some args /\ t = [Ev (ProposeAssign id args) sent] /\ r = Proposed sent
      | UseUpdate _ => True
      end).
Proof.
  intros Hr Ht.
  destruct (requireAuthor (Some HeaderCapabilityResolver) (Some TokenCapabilityResolver) sess) as [id|why] eqn:E.
  2: { exfalso. destruct u; cbn in Hr; unfold callWorkItemCreate, callWorkItemUpdate, callWorkItemAssign in Hr; rewrite E in Hr;
       by apply runs_inv in Hr as (-> & _). }
  pose proof (requireAuthor_grants _ _ E) as (H1 & H2 & H3 & H4 & Hc & H5 & H6 & H7 & H8).
  split; [exists id; by repeat split|]. split; [done|]. intros Hp.
  assert (sessionIsProposeCoordinator sess = true) as Hs by by apply bool_decide_eq_true.
  destruct u as [[a|]|a|[a|]]; [| | |..]; cbn in Hr |- *; try done; unfold callWorkItemCreate, callWorkItemAssign in Hr; rewrite E in Hr.
  all: try (by apply runs_inv in Hr as (-> & _)).
  all: rewrite Hs in Hr; destruct proposer; [|by apply runs_inv in Hr as (-> & _)].
  all: apply runs_inv in Hr as (sent & w1 & t' & -> & _ & Hr); apply runs_inv in Hr as (-> & -> & _); by exists id, a, sent.
Qed.

(** * A small board *)

Module Demo.
(** "A" stands for an id that is not in canonical form. *)
Definition canon (s : string) : option string := if bool_decide (s = "") then None else if bool_decide (s = "A") then Some "a" else Some s.

Lemma canon_canonical s i : canon s = Some i -> canon i = Some i.
Proof. unfold canon. repeat case_bool_decide; intros; by simplify_eq. Qed.

Definition row (parent : option string) (state : string) : Row :=
  {| wi_project := "p"; wi_team := Some "team"; wi_parent := parent; wi_title := "t"; wi_body := None; wi_state := state;
     wi_created_by := "human"; wi_created_at := 0; wi_updated_at := 0; wi_priority := None; wi_work_mode := None; wi_labels := [];
     wi_requested := None |}.

Definition assigned (agent : string) : ClaimRow :=
  {| holder_principal := None; run_id := None; fence_token := 0; lease_expires_at := None; acquired_at := None; renewed_at := None;
     initiated_by := None; assignee_agent := Some agent; reconcile_step := Machine.StepPending; reclaim_fenced_at := None |}.

Definition board (l : list (string * option string)) : Tables :=
  {| rows := list_to_map ((fun '(i, p) => (i, row p "backlog")) <$> l);
     holders := list_to_map ((fun '(i, _) => (i, assigned "pm")) <$> l); trail := []; remarks := [] |}.

Definition team (uid : string) : list string := if bool_decide (uid = "team") then ["pm"; "dev"] else [].
Definition pt (s : string) : option Z := None.

Definition create_under (parent : string) : AgentCreateWorkItemInput :=
  {| ac_ParentID := parent; ac_Title := "child"; ac_Body := ""; ac_Priority := "high"; ac_WorkMode := ""; ac_Labels := [" x "; "x"];
     ac_Principal := "agent:pm"; ac_AgentName := "pm"; ac_RunID := "r" |}.
Definition move_under (parent : string) : AgentUpdateWorkItemInput :=
  {| au_Title := None; au_Body := None; au_ParentID := Some parent; au_ExpectedUpdatedAt := ""; au_Principal := "agent:pm"; au_AgentName := "pm";
     au_RunID := "r" |}.

Definition played (o : AgentOp) (b : Tables) : list (Event Stmt) * option WErr * World := play_out canon "n" 7 team (run_agent pt o) (idle b).

(** A session of the coordinator. *)
Definition session (caps : list string) : mcpSession :=
  {| ms_team := "team"; ms_principal := "agent:pm"; ms_agentID := Some "pm"; ms_runID := Some "r"; ms_capabilities := caps; ms_viaToken := true |}.
Definition ask_create : workItemCreateArgs :=
  {| wc_ParentID := "a"; wc_Title := "child"; wc_Body := ""; wc_Priority := ""; wc_WorkMode := ""; wc_Labels := []; wc_AssigneeAgentID := "" |}.
Definition ask_update : workItemUpdateArgs :=
  {| wu_ID := "b"; wu_Title := Some "new"; wu_Body := None; wu_ParentID := None; wu_ExpectedUpdatedAt := "" |}.
End Demo.

Lemma agent_stays_in_custody_witness :
  let t := (Demo.played (OpCreate (Demo.create_under "a")) (Demo.board [("a", None)])).1.1 in
  exists n x t2, t = take 5 t ++ Ev (St (InsertItem n)) x :: t2
    /\ exists p, ni_parent n = Some p /\ p <> "" /\ claimed "agent:pm" "pm" (take 5 t) p /\ ni_principal n = "agent:pm".
Proof.
  cbv zeta. set (o := OpCreate (Demo.create_under "a")). set (b := Demo.board [("a", None)]).
  assert (exists n x t2, (Demo.played o b).1.1 = take 5 (Demo.played o b).1.1 ++ Ev (St (InsertItem n)) x :: t2) as (n & x & t2 & E)
    by (eexists _, _, _; vm_compute; reflexivity).
  exists n, x, t2. split; [exact E|].
  exact (agent_stays_in_custody (says Demo.canon) Demo.pt o (idle b) (Demo.played o b).1.1 (Demo.played o b).1.2 (Demo.played o b).2
    (take 5 (Demo.played o b).1.1) _ (InsertItem n) x t2 (play_out_runs Demo.canon "n" 7 Demo.team _ _) E).
Defined.

(** A proposal is raised, and nothing else. *)
Lemma tools_need_the_grant_witness :
  let sess := Demo.session [WorkItemAuthorCapability; CoordinatorProposeCapability] in
  WorkItemAuthorCapability ∈ ms_capabilities sess
  /\ exists id args sent, Some Demo.ask_create = Some args
     /\ [Ev (ProposeCreate {| ai_principal := "agent:pm"; ai_agentName := "pm"; ai_runID := "r"; ai_teamID := "team" |} Demo.ask_create) true]
        = [Ev (ProposeCreate id args) sent] /\ Proposed true = Proposed sent.
Proof.
  cbv zeta. set (sess := Demo.session [WorkItemAuthorCapability; CoordinatorProposeCapability]).
  set (id := {| ai_principal := "agent:pm"; ai_agentName := "pm"; ai_runID := "r"; ai_teamID := "team" |}).
  set (t := [Ev (ProposeCreate id Demo.ask_create) true]).
  assert (runs (@scripted ToolCall) (use_tool Demo.pt true true sess (UseCreate (Some Demo.ask_create))) t t (Proposed true) []) as Hr
    by (unfold t; step_call; eapply runs_do; [reflexivity|cbv beta; step_call; apply runs_ret]).
  destruct (tools_need_the_grant (@scripted ToolCall) Demo.pt true true sess (UseCreate (Some Demo.ask_create)) t t (Proposed true) [] Hr)
    as (_ & Hc & Hp); [done|]. split; [exact Hc|]. apply Hp. vm_compute. right. left.
Defined.

(** The propose grant does not hold back an edit: the store is asked at once. *)
Lemma propose_grant_edits_directly :
  let sess := Demo.session [WorkItemAuthorCapability; CoordinatorProposeCapability] in
  exists k, use_tool Demo.pt true true sess (UseUpdate (Some Demo.ask_update)) = Do (OfStore (St Begin)) k.
Proof. eexists. reflexivity. Qed.
