(* ===== verification/BoardProps.v ===== *)
(** The board under its writers, one whole operation after another: the items stay a
    forest, what an agent makes stays within its depth and its budget, and what goes
    wrong when an id is not in canonical form or two operations overlap. *)
From S2P Require Import Prelude GoStr CoordDb Calls Board Authoring AuthoringProps.
Open Scope k8s_scope.

(** * Trees *)

Definition par (b : Tables) (i : string) : option (option string) := wi_parent <$> rows b !! i.

(** From an item up to its root, [n] items in all. *)
Inductive chain (b : Tables) : string -> nat -> Prop :=
| chain_root i : par b i = Some None -> chain b i 1
| chain_up i p n : par b i = Some (Some p) -> chain b p n -> chain b i (S n).

Lemma chain_det b i n m : chain b i n -> chain b i m -> n = m.
Proof. intros H. revert m. induction H as [i H|i p n H _ IH]; intros m Hm; inversion Hm; simplify_eq; [done|]. f_equal. auto. Qed.

(** The same, never at [t]. *)
Inductive avoiding (b : Tables) (t : string) : string -> nat -> Prop :=
| avoiding_root i : i <> t -> par b i = Some None -> avoiding b t i 1
| avoiding_up i p n : i <> t -> par b i = Some (Some p) -> avoiding b t p n -> avoiding b t i (S n).

(** [k] is [d] steps below [i]. *)
Inductive under (b : Tables) (i : string) : string -> nat -> Prop :=
| under_here : under b i i 0
| under_up k p d : par b k = Some (Some p) -> under b i p d -> under b i k (S d).

(** Each child of an item that is there is found. *)
Lemma children_spec b l k p : par b k = Some (Some p) -> p ∈ l -> k ∈ children b l.
Proof.
  unfold par. intros H Hp. destruct (rows b !! k) as [r|] eqn:E; [|done]. cbn in H. injection H as H. unfold children.
  apply list_elem_of_omap. exists (k, r). split; [by apply elem_of_map_to_list|]. cbn. rewrite H. by rewrite bool_decide_true.
Qed.

Lemma children_nil b : children b [] = [].
Proof.
  unfold children. generalize (map_to_list (rows b)). intros l. induction l as [|[i r] l IH]; [done|]. cbn. destruct (wi_parent r); [|done].
  rewrite bool_decide_false; [done|]. apply not_elem_of_nil.
Qed.

Lemma under_iter b i k d l : under b i k d -> i ∈ l -> k ∈ Nat.iter d (children b) l.
Proof. intros H Hl. induction H as [|k p d H _ IH]; [done|]. rewrite Nat.iter_succ. by eapply children_spec. Qed.

Lemma iter_nil b d : Nat.iter d (children b) [] = [].
Proof. induction d as [|d IH]; [done|]. by rewrite Nat.iter_succ, IH, children_nil. Qed.

(** The walk down goes as deep as there are items, up to its cap. *)
Lemma levels_deep b d : forall cap l k, k ∈ Nat.iter d (children b) l -> (S d `min` cap <= levels cap b l)%nat.
Proof.
  induction d as [|d IH]; intros cap l k Hk; (destruct cap as [|cap]; [cbn; lia|]).
  - destruct l; [by apply not_elem_of_nil in Hk|]. cbn. lia.
  - rewrite Nat.iter_succ_r in Hk. destruct l as [|x l].
    { rewrite children_nil, iter_nil in Hk. by apply not_elem_of_nil in Hk. }
    specialize (IH cap (children b (x :: l)) k Hk). cbn [levels]. lia.
Qed.

Lemma under_height b cap i k d p : par b i = Some p -> under b i k d -> (S d `min` cap <= height cap b i)%nat.
Proof.
  intros Hi Hu. unfold height, par in *. destruct (rows b !! i); [|done]. eapply levels_deep. eapply under_iter; [exact Hu|]. by left.
Qed.

(** * One parent changes *)

Definition moved (b b' : Tables) (id : string) (q : option string) : Prop :=
  is_Some (par b id) /\ par b' id = Some q /\ forall k, k <> id -> par b' k = par b k.

(** A place for [id] that is not below it, [n] items deep. *)
Definition place (b : Tables) (id : string) (q : option string) (n : nat) : Prop :=
  match q with None => n = O | Some j => avoiding b id j n end.

Lemma avoiding_moved b b' id q j n : moved b b' id q -> avoiding b id j n -> chain b' j n.
Proof.
  intros (_ & _ & Ho) H. induction H as [i Hne H|i p n Hne H _ IH]; [apply chain_root; by rewrite Ho|eapply chain_up; [by rewrite Ho|done]].
Qed.

Lemma moved_here b b' id q n : moved b b' id q -> place b id q n -> chain b' id (S n).
Proof.
  intros Hm Hp. pose proof Hm as (_ & Hq & _). destruct q as [j|]; cbn in Hp.
  - eapply chain_up; [done|]. by eapply avoiding_moved.
  - subst. by apply chain_root.
Qed.

Lemma moved_chain b b' id q n k m : moved b b' id q -> place b id q n -> chain b k m -> exists m', chain b' k m'.
Proof.
  intros Hm Hp H. pose proof Hm as (_ & _ & Ho). induction H as [i H|i p m H _ [m' IH]].
  - destruct (decide (i = id)) as [->|Hne]; [by eexists; eapply moved_here|]. exists 1%nat. apply chain_root. by rewrite Ho.
  - destruct (decide (i = id)) as [->|Hne]; [by eexists; eapply moved_here|]. exists (S m'). eapply chain_up; [by rewrite Ho|done].
Qed.

(** Afterwards an item is as deep as before, or below the one that moved. *)
Lemma moved_depth b b' id q n k m :
  moved b b' id q -> place b id q n -> chain b' k m -> chain b k m \/ exists d, under b id k d /\ m = (d + S n)%nat.
Proof.
  intros Hm Hp H. pose proof Hm as (_ & Hq & Ho). induction H as [i H|i p m H Hc IH].
  - destruct (decide (i = id)) as [->|Hne].
    + right. exists O. split; [constructor|]. rewrite Hq in H. injection H as ->. cbn in Hp. by subst.
    + left. apply chain_root. by rewrite <- Ho.
  - destruct (decide (i = id)) as [->|Hne].
    + right. exists O. split; [constructor|]. rewrite Hq in H. injection H as ->. cbn in Hp. cbn.
      f_equal. eapply chain_det; [exact Hc|]. by eapply avoiding_moved.
    + rewrite Ho in H by done. destruct IH as [IH|(d & Hd & ->)]; [left; by eapply chain_up|]. right. exists (S d).
      split; [by eapply under_up|done].
Qed.

Section board.
Context (canon : string -> option string).
Context (canon_empty : canon "" = None).

(** Every item has a root above it, and its id is in canonical form. *)
Definition forest (b : Tables) : Prop := forall i p, par b i = Some p -> canon i = Some i /\ exists n, chain b i n.

Lemma forest_parent b i p : forest b -> par b i = Some (Some p) -> is_Some (par b p) /\ canon p = Some p.
Proof.
  intros Hf H. destruct (Hf _ _ H) as (_ & n & Hc). inversion Hc; simplify_eq.
  assert (is_Some (par b p)) as [q Hq] by by inversion H1; eexists. split; [done|]. by apply (Hf _ _ Hq).
Qed.

Definition same_tree (b b' : Tables) : Prop := forall i, par b' i = par b i.

Lemma chain_same b b' i n : same_tree b b' -> chain b i n -> chain b' i n.
Proof. intros Hs H. induction H; [apply chain_root; by rewrite Hs|eapply chain_up; [by rewrite Hs|done]]. Qed.
Lemma same_tree_sym b b' : same_tree b b' -> same_tree b' b.
Proof. intros H i. by rewrite H. Qed.
Lemma forest_same b b' : same_tree b b' -> forest b -> forest b'.
Proof.
  intros Hs Hf i p H. rewrite Hs in H. destruct (Hf _ _ H) as (Hc & n & Hn). split; [done|]. exists n. by eapply chain_same.
Qed.

Lemma forest_moved b b' id q n : moved b b' id q -> place b id q n -> forest b -> forest b'.
Proof.
  intros Hm Hp Hf i p H. assert (exists p0, par b i = Some p0) as [p0 H0].
  { destruct Hm as ([x Hx] & _ & Ho). destruct (decide (i = id)) as [->|Hne]; [by exists x|]. rewrite Ho in H by done. by exists p. }
  destruct (Hf _ _ H0) as (Hc & m & Hn). split; [done|]. by eapply moved_chain.
Qed.

(** A new item, under one that is there. *)
Definition grown (b b' : Tables) (id : string) (q : option string) : Prop :=
  par b id = None /\ par b' id = Some q /\ (forall k, k <> id -> par b' k = par b k) /\ (forall j, q = Some j -> is_Some (par b j)).

Lemma grown_chain b b' id q k n : grown b b' id q -> chain b k n -> chain b' k n.
Proof.
  intros (Hn & _ & Ho & _) H.
  induction H as [i H|i p n H _ IH]; (assert (i <> id) by (intros ->; congruence)); [apply chain_root; by rewrite Ho|eapply chain_up; [by rewrite Ho|done]].
Qed.

Lemma grown_depth b b' id q k m : forest b -> grown b b' id q -> chain b' k m -> chain b k m \/ k = id.
Proof.
  intros Hf Hg H. pose proof Hg as (Hn & Hq & Ho & Hj). destruct (decide (k = id)) as [->|Hne]; [by right|]. left.
  assert (exists p, par b' k = Some p) as [p Hp] by (inversion H; by eexists). rewrite Ho in Hp by done.
  destruct (Hf _ _ Hp) as (_ & m' & Hm'). by rewrite <- (chain_det _ _ _ _ (grown_chain _ _ _ _ _ _ Hg Hm') H).
Qed.

Lemma forest_grown b b' id q : canon id = Some id -> grown b b' id q -> forest b -> forest b'.
Proof.
  intros Hid Hg Hf i p H. pose proof Hg as (Hn & Hq & Ho & Hj). destruct (decide (i = id)) as [->|Hne].
  - split; [done|]. destruct q as [j|]; [|exists 1%nat; by apply chain_root]. destruct (Hj j eq_refl) as [x Hx].
    destruct (Hf _ _ Hx) as (_ & m & Hm). exists (S m). eapply chain_up; [done|]. by eapply grown_chain.
  - rewrite Ho in H by done. destruct (Hf _ _ H) as (Hc & m & Hm). split; [done|]. exists m. by eapply grown_chain.
Qed.

(** * What was read is so *)

Definition truthful (b : Tables) {X} (s : Sql X) : X -> Prop :=
  match s in Sql X return X -> Prop with
  | ParentOf id => fun x => forall i, canon id = Some i -> x = par b i
  | LockItem id => fun x => forall i, canon id = Some i -> x = (fun r => (i, r)) <$> rows b !! i
  | SubtreeHeight id cap => fun x => forall i, canon id = Some i -> x = height cap b i
  | CountCreated run => fun x => forall r, canon run = Some r -> x = authored b r
  | _ => fun _ => True
  end.

Definition ev_true (b : Tables) (e : Event Stmt) : Prop :=
  match e with Ev c x => match c in Stmt X return X -> Prop with St s => fun o => match o with Some v => truthful b s v | None => True end end x end.

Lemma truth_of b hist {X} (s : Sql X) x : Forall (ev_true b) hist -> got hist s x -> truthful b s x.
Proof. intros H Hg. exact (proj1 (Forall_forall _ _) H _ Hg). Qed.

Lemma up_of b hist id i p : forest b -> Forall (ev_true b) hist -> canon id = Some i -> is_Some (par b i) -> got hist (ParentOf id) p ->
  match p ≫= nullToPtr with Some q => par b i = Some (Some q) /\ canon q = Some q /\ is_Some (par b q) | None => par b i = Some None end.
Proof.
  intros Hf Ht Hi [x Hx] Hg. pose proof (truth_of _ _ _ _ Ht Hg i Hi) as ->. rewrite Hx. cbn. destruct x as [q|]; [|done]. cbn.
  destruct (forest_parent _ _ _ Hf Hx) as [Hp Hc]. destruct (empty q) eqn:E; [|done]. exfalso. unfold empty in E. case_bool_decide; [|done]. congruence.
Qed.

Lemma deep_chain b hist id i n :
  forest b -> Forall (ev_true b) hist -> deep hist id n -> canon id = Some i -> is_Some (par b i) -> chain b i n.
Proof.
  intros Hf Ht H. revert i. induction H as [id p Hg Hn|id p q n Hg Hn _ IH]; intros i Hi Hs; pose proof (up_of _ _ _ _ _ Hf Ht Hi Hs Hg) as Hu; rewrite Hn in Hu.
  - by apply chain_root.
  - destruct Hu as (Hu & Hq & Hs'). eapply chain_up; [done|by apply IH].
Qed.

Lemma apart_avoiding b hist t id i :
  forest b -> Forall (ev_true b) hist -> apart hist t id -> canon id = Some i -> i <> t -> is_Some (par b i) -> exists n, avoiding b t i n.
Proof.
  intros Hf Ht H. revert i. induction H as [id p Hne Hg Hn|id p q Hne Hg Hn Hq IH]; intros i Hi Hit Hs;
    pose proof (up_of _ _ _ _ _ Hf Ht Hi Hs Hg) as Hu; rewrite Hn in Hu.
  - exists 1%nat. by apply avoiding_root.
  - destruct Hu as (Hu & Hcq & Hs'). destruct (IH q Hcq) as [n Hav]; [|done|exists (S n); by eapply avoiding_up].
    inversion Hq; simplify_eq; done.
Qed.

(** * What a write does to the trees *)

Lemma view_wrote x w : view (wrote x w) = apply (view w) x.
Proof. unfold view. cbn. by rewrite foldl_app. Qed.

Lemma view_locks i w : view (locks i w) = view w.
Proof. done. Qed.

Lemma par_alter (f : Row -> Row) b id k :
  par (with_rows (alter f id (rows b)) b) k = if bool_decide (k = id) then (fun r => wi_parent (f r)) <$> rows b !! k else par b k.
Proof.
  unfold par. cbn. case_bool_decide as E; [subst; rewrite lookup_alter_eq; by destruct (rows b !! id)|]. by rewrite lookup_alter_ne by congruence.
Qed.

Lemma edit_moved b id title body p now : is_Some (par b id) -> moved b (apply b (WEdit id title body p now)) id p.
Proof.
  intros Hs. split; [done|]. split.
  - cbn. rewrite par_alter, bool_decide_true by done. unfold par in Hs. destruct (rows b !! id); [done|]. by destruct Hs.
  - intros k Hk. cbn. by rewrite par_alter, bool_decide_false.
Qed.

Lemma edit_same b id title body p now : par b id = Some p -> same_tree b (apply b (WEdit id title body p now)).
Proof.
  intros Hp k. cbn. rewrite par_alter. case_bool_decide as E; [|done]. subst k. unfold par in *. by destruct (rows b !! id).
Qed.

Lemma advance_same b id a now : same_tree b (apply b (WAdvance id a now)).
Proof. intros k. cbn. rewrite par_alter. case_bool_decide; [|done]. unfold par. by destruct (rows b !! k). Qed.

Lemma insert_grown b id r : rows b !! id = None -> parent_ok b (wi_project r) (wi_parent r) = true -> grown b (apply b (WInsert id r)) id (wi_parent r).
Proof.
  intros Hn Hp. unfold grown, par. cbn. split; [by rewrite Hn|]. split; [by rewrite lookup_insert_eq|]. split.
  - intros k Hk. by rewrite lookup_insert_ne by congruence.
  - intros j Hj. unfold parent_ok in Hp. rewrite Hj in Hp. by destruct (rows b !! j).
Qed.

(** * One statement *)

(** An id as the database writes it. *)
Definition names (id : string) : Prop := id = "" \/ canon id = Some id.

(** The tables [b] may become when what was read before holds of [b]: an edit that
    [may] be made changes one parent to a place that is not below. *)
Lemma edit_reply b0 w hist item id title body parent at_ fresh clock :
  names item -> forest b0 -> view w = b0 -> Forall (ev_true b0) hist -> shape_may item hist _ (St (EditItem id title body parent at_)) ->
  let w' := (reply canon fresh clock (EditItem id title body parent at_) w).2 in
  w' = w \/ exists q, view w' = apply b0 (WEdit item title body q (txnow w)) /\ committed w' = committed w
    /\ canonical_parent canon parent = Some q
    /\ is_Some (par b0 item) /\ (forall r, at_read hist item r -> parent = wi_parent r -> par b0 item = Some q)
    /\ (par b0 item = Some q \/ exists n, place b0 item q n).
Proof.
  intros Hi Hf Hv Ht (-> & _ & r & [rid Hr] & Hpar). destruct Hi as [->|Hi]; [left; cbn; by rewrite canon_empty|]. cbn. rewrite Hi, Hv.
  destruct (canonical_parent canon parent) as [q|] eqn:Eq; [|by left].
  destruct (rows b0 !! item) as [r0|] eqn:E0; [|by left]. destruct (negb (bool_decide (wi_updated_at r0 = at_))); [by left|].
  destruct (parent_ok b0 (wi_project r0) q && negb (bool_decide (q = Some item))) eqn:Eg; [|by left].
  apply andb_true_iff in Eg as [Hok Hself]. assert (q <> Some item) as Hne by (intros ->; by rewrite bool_decide_true in Hself).
  right. exists q. split; [cbn [snd]; by rewrite view_locks, view_wrote, Hv|]. split; [done|]. split; [done|].
  assert (par b0 item = Some (wi_parent r0)) as Hp0 by (unfold par; by rewrite E0). split; [by eexists|].
  assert (forall r, at_read hist item r -> parent = wi_parent r -> par b0 item = Some q) as Hsame.
  { intros r1 [rid1 Hr1] ->. pose proof (truth_of _ _ _ _ Ht Hr1 item Hi) as Hrow. rewrite E0 in Hrow. cbn in Hrow. injection Hrow as -> ->.
    rewrite Hp0. f_equal. destruct (wi_parent r0) as [p|]; cbn in Eq; [|by simplify_eq].
    destruct (forest_parent _ _ _ Hf Hp0) as [_ Hc]. rewrite Hc in Eq. by injection Eq. }
  split; [done|]. destruct Hpar as [Hpar|[->|(p & -> & Ha)]].
  - left. apply (Hsame r); [by exists rid|done].
  - right. cbn in Eq. injection Eq as <-. by exists O.
  - right. cbn in Eq. destruct (canon p) as [j|] eqn:Ec; [|done]. cbn in Eq. injection Eq as <-.
    assert (is_Some (par b0 j)) as Hs. { unfold par. cbn in Hok. by destruct (rows b0 !! j). }
    destruct (apart_avoiding b0 hist item p j Hf Ht Ha Ec) as [n Hn]; [congruence|done|]. by exists n.
Qed.


Definition inserted_parent {X} (s : Sql X) : option (option string) := match s with InsertItem n => canonical_parent canon (ni_parent n) | _ => None end.
Definition plain {X} (s : Sql X) : bool := match s with EditItem _ _ _ _ _ | Commit | Begin => false | _ => true end.

(** An insert adds a leaf; no other statement but an edit changes a parent. *)
Lemma plain_reply fresh clock w {X} (s : Sql X) :
  plain s = true ->
  let w' := (reply canon fresh clock s w).2 in
  committed w' = committed w
  /\ (same_tree (view w) (view w')
      \/ exists id p, grown (view w) (view w') id p /\ canon id = Some id /\ inserted_parent s = Some p).
Proof.
  intros Hs. destruct s; try done; cbn -[apply view];
    repeat match goal with |- context [match ?x with _ => _ end] => destruct x eqn:? end; cbn [snd committed];
    rewrite ?view_locks, ?view_wrote; try (split; [done|by left]).
  - split; [done|]. right. match goal with H : _ && _ && _ = true |- _ => apply andb_true_iff in H as [[Hp Hn]%andb_true_iff Hc] end.
    apply bool_decide_eq_true in Hn, Hc. eexists _, _. split; [by apply insert_grown|]. split; [done|]. cbn. by f_equal.
  - split; [done|]. left. apply advance_same.
Qed.

(** A read changes nothing and is true of what it reads. *)
Lemma read_reply fresh clock w {X} (s : Sql X) :
  plain s = true -> writes_board s = false ->
  let r := reply canon fresh clock s w in
  committed r.2 = committed w /\ delta r.2 = delta w /\ forall v, r.1 = Some v -> truthful (view w) s v.
Proof.
  intros Hs Hw. destruct s; try done; cbn -[view authored height];
    repeat match goal with |- context [match ?x with _ => _ end] => destruct x eqn:? end; cbn -[view authored height];
    (split; [done|]; split; [done|]; intros; by simplify_eq).
Qed.

(** * One operation after another *)

(** As long as nothing was written, everything read is so. *)
Definition steady (c0 : Tables) (hist : list (Event Stmt)) (w : World) : Prop :=
  forest (committed w) /\ forest (view w) /\ (untouched hist -> committed w = c0 /\ delta w = [] /\ Forall (ev_true c0) hist).

Lemma view_clean w c0 : committed w = c0 -> delta w = [] -> view w = c0.
Proof. unfold view. by intros -> ->. Qed.

Lemma untouched_inv hist e : untouched (hist ++ [e]) -> untouched hist /\ write_event e = false.
Proof. intros [H1 H2]%Forall_app. split; [done|]. by inversion H2. Qed.

Lemma steady_reply c0 item hist fresh clock w {X} (s : Sql X) :
  names item -> shape_may item hist _ (St s) -> steady c0 hist w ->
  steady c0 (hist ++ [Ev (St s) (reply canon fresh clock s w).1]) (reply canon fresh clock s w).2.
Proof.
  intros Hi Hm (Hfc & Hfv & Hu). destruct (plain s) eqn:Hpl.
  - pose proof (plain_reply fresh clock w s Hpl) as [Hc Hv]. split; [by rewrite Hc|]. split.
    + destruct Hv as [Hv|(id & p & Hg & Hid & _)]; [by eapply forest_same|by eapply forest_grown].
    + intros [Hu0 Hw]%untouched_inv. destruct (Hu Hu0) as (E0 & Ed & Ht). pose proof (read_reply fresh clock w s Hpl Hw) as Hr.
      destruct Hr as (Ec & Ed' & Hx). split; [by rewrite Ec|]. split; [by rewrite Ed'|].
      apply Forall_app. split; [done|]. constructor; [|constructor]. cbn. rewrite (view_clean _ _ E0 Ed) in Hx.
      destruct (reply canon fresh clock s w).1 as [v|]; [by apply Hx|done].
  - destruct s; try done.
    + cbn -[view]. split; [done|]. split; [done|]. intros [Hu0 _]%untouched_inv. destruct (Hu Hu0) as (E0 & Ed & Ht). split; [done|]. split; [done|].
      apply Forall_app. split; [done|]. by constructor.
    + assert (untouched hist) as Hu0 by apply Hm. destruct (Hu Hu0) as (E0 & Ed & Ht). pose proof (view_clean _ _ E0 Ed) as Ev0.
      rewrite Ev0 in Hfv. destruct (edit_reply c0 w hist item id title body parent at_ fresh clock Hi Hfv Ev0 Ht Hm) as [E|(q & Ev1 & Ec & _ & Hs & _ & Hp)].
      * split; [by rewrite E|]. split; [rewrite E; by rewrite Ev0|]. intros [_ Hw]%untouched_inv. done.
      * split; [by rewrite Ec, E0|]. split; [|intros [_ Hw]%untouched_inv; done]. rewrite Ev1.
        destruct Hp as [Hp|(n & Hp)]; [eapply forest_same; [by apply edit_same|done]|eapply forest_moved; [by apply edit_moved|done|done]].
    + cbn -[view]. split; [done|]. split; [done|]. intros [Hu0 _]%untouched_inv. destruct (Hu Hu0) as (E0 & Ed & Ht).
      split; [by apply view_clean|]. split; [done|]. apply Forall_app. split; [done|]. by constructor.
Qed.

Lemma steady_step c0 item hist X (c : Stmt X) w x w' :
  names item -> shape_may item hist X c -> steady c0 hist w -> says canon X c w x w' ->
  steady c0 (hist ++ [Ev c x]) w' /\ any_answer X c x.
Proof.
  intros Hi Hm HI Hs. split; [|done]. destruct Hs as [fresh clock X s w|X s w|w|uid names w].
  - by apply (steady_reply c0 item).
  - destruct HI as (Hfc & Hfv & Hu). split; [done|]. split; [done|]. intros [Hu0 _]%untouched_inv. destruct (Hu Hu0) as (? & ? & Ht).
    split; [done|]. split; [done|]. apply Forall_app. split; [done|]. by constructor.
  - destruct HI as (Hfc & Hfv & Hu). split; [done|]. split; [done|]. intros [Hu0 _]%untouched_inv. destruct (Hu Hu0) as (? & ? & Ht).
    split; [by apply view_clean|]. split; [done|]. apply Forall_app. split; [done|]. by constructor.
  - destruct HI as (Hfc & Hfv & Hu). split; [done|]. split; [done|]. intros [Hu0 _]%untouched_inv. destruct (Hu Hu0) as (? & ? & Ht).
    split; [done|]. split; [done|]. apply Forall_app. split; [done|]. by constructor.
Qed.

Lemma steady_run c0 item {A} (p : Calls.Prog Stmt A) t a w' :
  names item -> obeys (shape_may item) any_answer (fun _ _ => True) [] p -> forest c0 -> runs (says canon) p (idle c0) t a w' ->
  forest (committed w').
Proof.
  intros Hi Ho Hf Hr. eapply (obeys_runs (shape_may item) any_answer (says canon) (steady c0)) in Hr as (HI & _); [apply HI| |exact Ho|].
  - intros hist X c u x u' Hm HI Hs. by apply (steady_step c0 item hist X c u x u' Hi Hm HI).
  - by split; [|split].
Qed.

(** ** Any writer *)

Inductive BoardOp : Set :=
| ByAgent (o : AgentOp)
| PersonCreates (inp : CreateWorkItemInput)
| PersonEdits (id : string) (inp : UpdateWorkItemInput)
| PersonComments (id teamID principal body : string) (refs : list CommentRef)
| Dispatches (inp : RequestDispatchInput)
| Ensures (source : string) (inp : EnsureInput).

Context (parse_time : string -> option Z) (uuid_ok : string -> bool).

Definition run_op (o : BoardOp) : Calls.Prog Stmt (option WErr) :=
  match o with
  | ByAgent o => run_agent parse_time o
  | PersonCreates i => forget (CreateWorkItem i)
  | PersonEdits id i => forget (UpdateWorkItem parse_time id i)
  | PersonComments id team principal body refs => forget (AppendHumanComment uuid_ok id team principal body refs)
  | Dispatches i => forget (RequestDispatch i)
  | Ensures source i => forget (EnsureWorkItem source i)
  end.

Definition board_item (o : BoardOp) : string := match o with ByAgent o => op_item o | PersonEdits id _ => id | _ => "" end.

Lemma run_op_shape o : obeys (shape_may (board_item o)) any_answer (fun _ _ => True) [] (run_op o).
Proof.
  destruct o as [o|i|id i|id team principal body refs|i|source i]; cbn [run_op board_item]; try apply obeys_forget.
  - eapply obeys_allows; [|apply run_agent_may]. intros h X c. apply agent_shape.
  - apply create_shape.
  - apply update_shape. constructor.
  - apply comment_shape.
  - apply dispatch_shape. constructor.
  - apply ensure_shape.
Qed.

(** The writers take turns: a whole operation, with any statement failing and any
    outcome of its commit, or something else that moves no item. *)
Inductive board_step : Tables -> Tables -> Prop :=
| board_op o t a b w' : names (board_item o) -> runs (says canon) (run_op o) (idle b) t a w' -> board_step b (committed w')
| board_elsewhere b b' : same_tree b b' -> board_step b b'.

(** C12: The board stays a forest. However people, agents and automation create, edit,
    reparent, comment and dispatch, one whole operation after another, with statements and
    commits failing at will: every item keeps a root above it, so no walk up the board
    runs round, provided the operations name items as the database writes their ids. *)
Theorem board_stays_forest b b' : rtc board_step b b' -> forest b -> forest b'.
Proof.
  intros H. induction H as [b|b b1 b' Hs _ IH]; [done|]. intros Hf. apply IH. destruct Hs as [o t a b w' Hn Hr|b b1 Hs].
  - eapply steady_run; [exact Hn|apply run_op_shape|exact Hf|exact Hr].
  - by eapply forest_same.
Qed.

(** ** An agent's bounds *)

(** No deeper than the cap, or than before; no more than the budget, or than before. *)
Definition within (c0 b : Tables) : Prop :=
  (forall k m, chain b k m -> (m <= AgentAuthorMaxDepth)%nat \/ chain c0 k m)
  /\ forall r, (authored b r <= AgentAuthorRunBudget `max` authored c0 r)%nat.

Lemma within_refl b : within b b.
Proof. split; [by right|]. intros r. lia. Qed.

Lemma within_trans a b c : within a b -> within b c -> within a c.
Proof.
  intros [Hd1 Hb1] [Hd2 Hb2]. split; [intros k m [H|H]%Hd2; [by left|by apply Hd1]|]. intros r. specialize (Hb1 r). specialize (Hb2 r). lia.
Qed.

Lemma within_same c0 b b' : same_tree b b' -> trail b' = trail b -> within c0 b -> within c0 b'.
Proof.
  intros Hs Ht [Hd Hb]. split; [intros k m Hc; apply Hd; exact (chain_same _ _ _ _ (same_tree_sym _ _ Hs) Hc)|].
  intros r. unfold authored. rewrite Ht. apply Hb.
Qed.

(** What the trail says of the runs is what was counted. *)
Definition counted (c0 : Tables) (e : Event Stmt) : Prop :=
  match e with Ev c x => match c in Stmt X return X -> Prop with St s =>
    match s in Sql X return option X -> Prop with
    | CountCreated run => fun o => forall v r, o = Some v -> canon run = Some r -> v = authored c0 r
    | _ => fun _ => True
    end end x end.

Definition no_audit (hist : list (Event Stmt)) : Prop := Forall (fun e => audit_event e = false) hist.

Definition bounded (c0 : Tables) (hist : list (Event Stmt)) (w : World) : Prop :=
  steady c0 hist w /\ within c0 (committed w) /\ within c0 (view w)
  /\ (no_audit hist -> trail (committed w) = trail c0 /\ trail (view w) = trail c0 /\ Forall (counted c0) hist).

Lemma counted_of c0 hist run k r : Forall (counted c0) hist -> got hist (CountCreated run) k -> canon run = Some r -> k = authored c0 r.
Proof. intros H Hg Hr. exact (proj1 (Forall_forall _ _) H _ Hg k r eq_refl Hr). Qed.

Lemma trail_wrote x w : trail (view (wrote x w)) = match x with WAudit a => trail (view w) ++ [a] | _ => trail (view w) end.
Proof. rewrite view_wrote. by destruct x. Qed.

(** What a statement does to the trail. *)
Lemma reply_trail fresh clock w {X} (s : Sql X) :
  plain s = true -> audit_event (Ev (St s) None) = false -> trail (view (reply canon fresh clock s w).2) = trail (view w).
Proof.
  intros Hp Ha. destruct s; try done; cbn -[view];
    repeat match goal with |- context [match ?x with _ => _ end] => destruct x eqn:? end; cbn [snd]; rewrite ?view_locks, ?trail_wrote; done.
Qed.

Section agent_bounds.
Context (c0 : Tables) (principal agentName run item : string) (Hitem : names item) (hist : list (Event Stmt)) (w : World).
Context (Hb : bounded c0 hist w).

Lemma clean_facts : untouched hist -> view w = c0 /\ forest c0 /\ Forall (ev_true c0) hist.
Proof.
  intros Hu. destruct Hb as ((Hfc & _ & Hcl) & _). destruct (Hcl Hu) as (E0 & Ed & Ht). split; [by apply view_clean|]. by rewrite E0 in Hfc.
Qed.

(** A new leaf is within the cap. *)
Lemma insert_within n b' id p :
  agent_may principal agentName run item hist _ (St (InsertItem n)) -> trail b' = trail (view w) ->
  grown (view w) b' id p -> canonical_parent canon (ni_parent n) = Some p -> within c0 b'.
Proof.
  intros (Hu & _ & _ & q & Hq & _ & _ & d & Hd & Hlt) Htr Hg Hp. destruct (clean_facts Hu) as (Ev0 & Hf & Ht). rewrite Ev0 in *.
  rewrite Hq in Hp. cbn in Hp. destruct (canon q) as [j|] eqn:Ec; [|done]. cbn in Hp. injection Hp as <-.
  pose proof Hg as (_ & Hn & _ & Hj). pose proof (deep_chain _ _ _ _ _ Hf Ht Hd Ec (Hj j eq_refl)) as Hc. split.
  - intros k m Hk. destruct (grown_depth _ _ _ _ _ _ Hf Hg Hk) as [H|Hk0]; [by right|subst k]. left.
    inversion Hk; simplify_eq. rewrite (chain_det _ _ _ _ H0 (grown_chain _ _ _ _ _ _ Hg Hc)). lia.
  - intros r. unfold authored. rewrite Htr. lia.
Qed.

(** So is all that moves with an item. *)
Lemma edit_within id title body parent at_ fresh clock :
  agent_may principal agentName run item hist _ (St (EditItem id title body parent at_)) ->
  within c0 (view (reply canon fresh clock (EditItem id title body parent at_) w).2).
Proof.
  intros Hm. pose proof Hm as (-> & Hu & _ & r & Hr & Hpar). destruct (clean_facts Hu) as (Ev0 & Hf & Ht).
  destruct (edit_reply c0 w hist item item title body parent at_ fresh clock Hitem Hf Ev0 Ht) as [->|(q & Ev1 & _ & Hq & Hs & Hsame & Hpl)].
  { by eapply agent_shape. } { rewrite Ev0. apply within_refl. }
  rewrite Ev1. assert (par c0 item = Some q -> within c0 (apply c0 (WEdit item title body q (txnow w)))) as Hstay.
  { intros Hp. eapply within_same; [by apply edit_same|done|apply within_refl]. }
  destruct Hpar as [Hpar|(p & -> & _ & _ & _ & d & k & Hd & Hk & Hle)]; [by apply Hstay, (Hsame r)|].
  destruct Hpl as [Hp|(n & Hpl)]; [by apply Hstay|]. cbn in Hq. destruct (canon p) as [j|] eqn:Ec; [|done]. cbn in Hq. injection Hq as <-.
  pose proof (edit_moved c0 item title body (Some j) (txnow w) Hs) as Hmv. split; [|intros a; unfold authored; cbn; lia].
  intros i m Hc. destruct (moved_depth _ _ _ _ _ _ _ Hmv Hpl Hc) as [H|(dd & Hun & ->)]; [by right|]. left.
  assert (chain c0 j n) as Hcn. { cbn in Hpl. clear -Hpl. induction Hpl; [by apply chain_root|by eapply chain_up]. }
  assert (is_Some (par c0 j)) as Hj by (inversion Hcn; by eexists).
  pose proof (chain_det _ _ _ _ Hcn (deep_chain _ _ _ _ _ Hf Ht Hd Ec Hj)) as ->. destruct Hs as [x Hx].
  destruct Hitem as [->|Hci]; [destruct (Hf _ _ Hx); congruence|].
  pose proof (truth_of _ _ _ _ Ht Hk item Hci) as Hh. cbn in Hh.
  pose proof (under_height _ depthCap _ _ _ _ Hx Hun) as Hun'. rewrite <- Hh in Hun'. unfold depthCap, AgentAuthorMaxDepth in *. lia.
Qed.

(** An entry of the trail counts once against its run. *)
Lemma authored_snoc b a r :
  authored (apply b (WAudit a)) r = (authored b r + if created_by_run r a then 1 else 0)%nat.
Proof.
  unfold authored. cbn. rewrite filter_app, length_app. f_equal. destruct (created_by_run r a) eqn:E.
  - rewrite filter_cons_True by done. done.
  - rewrite filter_cons_False by (by rewrite E). done.
Qed.

Lemma audit_within a fresh clock :
  agent_may principal agentName run item hist _ (St (InsertAudit a)) -> within c0 (view (reply canon fresh clock (InsertAudit a) w).2).
Proof.
  intros (_ & _ & Hrun & Hin). destruct Hb as (_ & _ & Hv & Hcl). cbn -[view]. destruct (canon (au_item a)) as [i|]; [|done].
  destruct (canonical_parent canon (au_run a)) as [o|] eqn:Eo; [|done]. cbn [snd]. rewrite view_wrote. set (a' := {| au_item := i |}).
  destruct Hv as [Hd Hbd]. split; [intros k m Hc; apply Hd; eapply chain_same; [|exact Hc]; done|]. intros r. rewrite authored_snoc.
  specialize (Hbd r). destruct (created_by_run r a') eqn:Ec; [|lia]. unfold created_by_run in Ec. apply andb_true_iff in Ec as [E1 E2].
  apply bool_decide_eq_true in E1, E2. cbn in E1, E2. subst o. destruct Hrun as [Hr|Hr]; rewrite Hr in Eo; [done|]. cbn in Eo.
  destruct (canon run) as [r'|] eqn:Ecr; [|done]. cbn in Eo. injection Eo as ->. destruct (Hin Hr E2) as [(k & Hk & Hlt) Hna].
  destruct (Hcl Hna) as (_ & Htr & Hcnt). pose proof (counted_of _ _ _ _ _ Hcnt Hk Ecr) as ->. unfold authored in *. rewrite Htr. lia.
Qed.

Lemma plain_within fresh clock {X} (s : Sql X) :
  plain s = true -> agent_may principal agentName run item hist _ (St s) -> audit_event (Ev (St s) None) = false ->
  within c0 (view (reply canon fresh clock s w).2).
Proof.
  intros Hp Hm Ha. pose proof (reply_trail fresh clock w s Hp Ha) as Htr. pose proof (plain_reply fresh clock w s Hp) as (_ & [Hs|(id & p & Hg & _ & Hi)]).
  - eapply within_same; [exact Hs|done|apply Hb].
  - destruct s; try done. by eapply insert_within.
Qed.
End agent_bounds.

Lemma edit_trail fresh clock w id title body parent at_ :
  let w' := (reply canon fresh clock (EditItem id title body parent at_) w).2 in committed w' = committed w /\ trail (view w') = trail (view w).
Proof.
  cbn -[view]. repeat match goal with |- context [match ?x with _ => _ end] => destruct x eqn:? end; cbn [snd]; rewrite ?view_locks, ?trail_wrote; done.
Qed.

Lemma count_reply fresh clock w c0 {X} (s : Sql X) : trail (view w) = trail c0 -> counted c0 (Ev (St s) (reply canon fresh clock s w).1).
Proof. intros Ht. destruct s; try done. cbn -[view]. intros v r Hv Hr. rewrite Hr in Hv. injection Hv as <-. unfold authored. by rewrite Ht. Qed.

Lemma counted_none c0 {X} (s : Sql X) : counted c0 (Ev (St s) None).
Proof. by destruct s. Qed.

Lemma no_audit_inv hist e : no_audit (hist ++ [e]) -> no_audit hist /\ audit_event e = false.
Proof. intros [H1 H2]%Forall_app. split; [done|]. by inversion H2. Qed.

Lemma bounded_reply c0 principal agentName run item hist fresh clock w {X} (s : Sql X) :
  names item -> agent_may principal agentName run item hist _ (St s) -> bounded c0 hist w ->
  bounded c0 (hist ++ [Ev (St s) (reply canon fresh clock s w).1]) (reply canon fresh clock s w).2.
Proof.
  intros Hi Hm Hb. pose proof Hb as (Hst & Hc & Hv & Hcl).
  split; [eapply steady_reply; [done|by eapply agent_shape|done]|].
  assert (within c0 (committed (reply canon fresh clock s w).2) /\ within c0 (view (reply canon fresh clock s w).2)
    /\ (audit_event (Ev (St s) None) = false -> trail (committed w) = trail c0 -> trail (view w) = trail c0 ->
        trail (committed (reply canon fresh clock s w).2) = trail c0 /\ trail (view (reply canon fresh clock s w).2) = trail c0)) as (H1 & H2 & H3).
  { destruct (plain s) eqn:Hp.
    - pose proof (plain_reply fresh clock w s Hp) as [-> _]. split; [done|]. destruct (audit_event (Ev (St s) None)) eqn:Ha.
      + destruct s; try done. split; [by eapply audit_within|done].
      + split; [by eapply plain_within|]. intros _ ? ?. by rewrite (reply_trail fresh clock w s Hp Ha).
    - destruct s; try done.
      destruct (edit_trail fresh clock w id title body parent at_) as [-> Ht]. split; [done|]. split; [by eapply edit_within|]. intros _ ? ?.
      by rewrite Ht. }
  split; [done|]. split; [done|]. intros [Hn Ha]%no_audit_inv. destruct (Hcl Hn) as (T1 & T2 & Hcnt).
  assert (audit_event (Ev (St s) None) = false) as Ha' by by destruct s. destruct (H3 Ha' T1 T2) as [T3 T4].
  split; [done|]. split; [done|]. apply Forall_app. split; [done|]. constructor; [by apply count_reply|constructor].
Qed.

Lemma bounded_step c0 principal agentName run item hist X (c : Stmt X) w x w' :
  names item -> agent_may principal agentName run item hist X c -> bounded c0 hist w -> says canon X c w x w' ->
  bounded c0 (hist ++ [Ev c x]) w' /\ any_answer X c x.
Proof.
  intros Hi Hm Hb Hs. split; [|done]. pose proof Hb as (Hst & Hc & Hv & Hcl).
  pose proof (steady_step _ _ _ _ _ _ _ _ Hi (agent_shape _ _ _ _ _ _ _ Hm) Hst Hs) as [Hst' _]. destruct Hs as [fresh clock X s w|X s w|w|uid names' w].
  - by eapply bounded_reply.
  - split; [done|]. split; [done|]. split; [done|]. intros [Hn _]%no_audit_inv. destruct (Hcl Hn) as (? & ? & Hcnt).
    split; [done|]. split; [done|]. apply Forall_app. split; [done|]. constructor; [apply counted_none|constructor].
  - split; [done|]. split; [done|]. split; [done|]. intros [Hn _]%no_audit_inv. destruct (Hcl Hn) as (? & ? & Hcnt).
    split; [done|]. split; [done|]. apply Forall_app. split; [done|]. by constructor.
  - split; [done|]. split; [done|]. split; [done|]. intros [Hn _]%no_audit_inv. destruct (Hcl Hn) as (? & ? & Hcnt).
    split; [done|]. split; [done|]. apply Forall_app. split; [done|]. by constructor.
Qed.

(** Agents take turns. *)
Inductive agent_step : Tables -> Tables -> Prop :=
| agent_op o t a b w' : names (op_item o) -> runs (says canon) (run_agent parse_time o) (idle b) t a w' -> agent_step b (committed w').

Lemma agent_step_within b b' : agent_step b b' -> forest b -> within b b' /\ forest b'.
Proof.
  intros [o t a b0 w' Hn Hr] Hf. split.
  - eapply (obeys_runs (agent_may (op_identity o).1.1 (op_identity o).1.2 (op_identity o).2 (op_item o)) any_answer (says canon) (bounded b0)) in Hr
      as ((_ & Hw & _) & _); [exact Hw| |apply run_agent_may|].
    + intros hist X c u x u' Hm HI Hs. by eapply bounded_step.
    + split; [by split; [|split]|]. split; [apply within_refl|]. split; [apply within_refl|]. intros _. split; [done|]. split; [done|]. constructor.
  - eapply (steady_run _ (op_item o)); [exact Hn| |exact Hf|exact Hr].
    eapply obeys_allows; [|apply run_agent_may]. intros h X c. apply agent_shape.
Qed.

(** C13: An agent's fan-out is bounded. Through any sequence of agents' operations, one
    whole operation after another, whatever fails: no item comes to lie deeper than the
    cap unless it lay that deep before, whole moved trees included, and no run comes to
    have created more items than its budget, by the trail. *)
Theorem agent_fan_out_bounded b b' :
  rtc agent_step b b' -> forest b ->
  (forall i n, chain b' i n -> (n <= AgentAuthorMaxDepth)%nat \/ chain b i n)
  /\ (forall run, (authored b' run <= AgentAuthorRunBudget `max` authored b run)%nat).
Proof.
  intros H Hf. change (within b b'). revert Hf. induction H as [b|b b1 b' Hs _ IH]; intros Hf; [apply within_refl|].
  destruct (agent_step_within _ _ Hs Hf) as [Hw Hf1]. eapply within_trans; [exact Hw|by apply IH].
Qed.
End board.

(** * On a small board *)

Fixpoint chain_len (fuel : nat) (b : Tables) (i : string) : option nat :=
  match fuel, par b i with
  | S fuel, Some None => Some 1%nat
  | S fuel, Some (Some p) => S <$> chain_len fuel b p
  | _, _ => None
  end.

Lemma chain_len_sound b fuel : forall i n, chain_len fuel b i = Some n -> chain b i n.
Proof.
  induction fuel as [|fuel IH]; intros i n; cbn; [done|]. destruct (par b i) as [[p|]|] eqn:E; [| |done].
  - destruct (chain_len fuel b p) as [m|] eqn:Em; [|done]. intros [= <-]. eapply chain_up; [done|by apply IH].
  - intros [= <-]. by apply chain_root.
Qed.

Definition forestb (canon : string -> option string) (fuel : nat) (b : Tables) : bool :=
  forallb (fun '(i, _) => bool_decide (canon i = Some i) && bool_decide (is_Some (chain_len fuel b i))) (map_to_list (rows b)).

Lemma forestb_sound canon fuel b : forestb canon fuel b = true -> forest canon b.
Proof.
  intros H i p Hp. unfold par in Hp. destruct (rows b !! i) as [r|] eqn:E; [|done]. unfold forestb in H. rewrite forallb_forall in H.
  specialize (H (i, r)). cbn in H. apply elem_of_map_to_list, list_elem_of_In in E. apply H in E. apply andb_true_iff in E as [H1 H2].
  apply bool_decide_eq_true in H1. apply bool_decide_eq_true in H2 as [n Hn]. split; [done|]. exists n. by eapply chain_len_sound.
Qed.

(** Items that are each under another of them have no root above. *)
Lemma ring_no_chain b (l : list string) : (forall i, i ∈ l -> exists p, par b i = Some (Some p) /\ p ∈ l) -> forall i n, i ∈ l -> ~ chain b i n.
Proof. intros H i n Hi Hc. induction Hc as [i Hr|i p n Hr _ IH]; destruct (H i Hi) as (q & Hq & Hl); simplify_eq. by apply IH. Qed.

Lemma ring_no_forest canon b (l : list string) i : (forall i, i ∈ l -> exists p, par b i = Some (Some p) /\ p ∈ l) -> i ∈ l -> ~ forest canon b.
Proof. intros H Hi Hf. destruct (H i Hi) as (p & Hp & _). destruct (Hf _ _ Hp) as (_ & n & Hn). by eapply ring_no_chain. Qed.


Module Boards.
Import Demo.
(** An epic with a story, and another epic with one. *)
Definition two_epics : Tables := board [("a", None); ("b", Some "a"); ("x", None); ("y", Some "x")].
Definition after (o : AgentOp) (b : Tables) : Tables := committed (played o b).2.

Lemma two_epics_forest : forest canon two_epics.
Proof. apply (forestb_sound canon 5). vm_compute. reflexivity. Qed.

Lemma played_steps o b : names canon (op_item o) -> agent_step canon pt b (after o b).
Proof. intros Hn. eapply agent_op; [exact Hn|]. apply play_out_runs. Qed.
End Boards.

Lemma board_stays_forest_witness :
  let b := Boards.after (OpUpdate "x" (Demo.move_under "b")) Boards.two_epics in
  par b "x" = Some (Some "b") /\ forest Demo.canon b.
Proof.
  cbv zeta. split; [vm_compute; reflexivity|].
  apply (board_stays_forest Demo.canon (eq_refl : Demo.canon "" = None) Demo.pt (fun _ => true) Boards.two_epics); [|exact Boards.two_epics_forest].
  apply rtc_once. eapply (board_op Demo.canon Demo.pt (fun _ => true) (ByAgent (OpUpdate "x" (Demo.move_under "b")))); [right; reflexivity|].
  apply play_out_runs.
Defined.

Lemma agent_fan_out_bounded_witness :
  let b := Boards.after (OpCreate (Demo.create_under "y")) (Boards.after (OpUpdate "x" (Demo.move_under "b")) Boards.two_epics) in
  chain_len 9 b "y" = Some 4%nat /\ par b "n" = None
  /\ (forall i n, chain b i n -> (n <= AgentAuthorMaxDepth)%nat \/ chain Boards.two_epics i n).
Proof.
  cbv zeta. split; [vm_compute; reflexivity|]. split; [vm_compute; reflexivity|].
  eapply (agent_fan_out_bounded Demo.canon (eq_refl : Demo.canon "" = None) Demo.pt Boards.two_epics); [|exact Boards.two_epics_forest].
  eapply rtc_l; [apply (Boards.played_steps (OpUpdate "x" (Demo.move_under "b"))); right; reflexivity|].
  apply rtc_once, (Boards.played_steps (OpCreate (Demo.create_under "y"))). by left.
Defined.

(** ** Where it fails *)

(** An id that is not in canonical form passes the cycle guard, which compares the text
    it was given with ids as the database writes them. *)
Lemma other_form_makes_a_ring :
  forest Demo.canon Boards.two_epics
  /\ exists t w', runs (says Demo.canon) (run_agent Demo.pt (OpUpdate "A" (Demo.move_under "b"))) (idle Boards.two_epics) t None w'
       /\ ~ forest Demo.canon (committed w').
Proof.
  split; [exact Boards.two_epics_forest|]. set (o := OpUpdate "A" (Demo.move_under "b")).
  exists (Demo.played o Boards.two_epics).1.1, (Demo.played o Boards.two_epics).2. split.
  - assert ((Demo.played o Boards.two_epics).1.2 = None) as <- by (vm_compute; reflexivity). apply play_out_runs.
  - apply (ring_no_forest _ _ ["a"; "b"] "a"); [|left]. intros i Hin.
    repeat (apply elem_of_cons in Hin as [->|Hin]; [eexists; split; [vm_compute; reflexivity|set_solver]|]). by apply not_elem_of_nil in Hin.
Qed.
