(* ===== verification/BoardTxn.v ===== *)
(** Transactions of the board's writers: what is refused leaves no trace, what a dispatch
    does among other transactions, and what two that overlap can do to the board. *)
From S2P Require Import Prelude GoStr Machine CoordDb Calls Board Authoring AuthoringProps BoardProps.
Open Scope k8s_scope.

(** * Refusals *)

Section refusals.
Context (canon : string -> option string) (pt : string -> option Z) (uuid_ok : string -> bool).

(** It commits nothing. *)
Definition quiet {A} (p : Calls.Prog Stmt A) : Prop := forall w t r w', runs (says canon) p w t r w' -> committed w' = committed w.

Definition is_failure (e : WErr) : bool := match e with Failed _ => true | _ => false end.

(** If it refuses, it committed nothing. *)
Definition ends {A} (p : Tx A) : Prop :=
  forall w t e w', runs (says canon) p w t (Err e) w' -> is_failure e = false -> committed w' = committed w.

Definition commits {X} (c : Stmt X) : bool := match c with St s => match s with Commit => true | _ => false end end.

Lemma reply_quiet fresh clock w {X} (s : Sql X) : commits (St s) = false -> committed (reply canon fresh clock s w).2 = committed w.
Proof.
  intros Hs. destruct (plain s) eqn:Hp; [by apply (plain_reply canon fresh clock w s)|].
  destruct s; try done. apply (edit_trail canon fresh clock w).
Qed.

Lemma says_quiet X (c : Stmt X) w x w' : says canon X c w x w' -> commits c = false -> committed w' = committed w.
Proof. intros [fresh clock Y s u|Y s u|u|uid names u] Hc; [by apply reply_quiet|done|done|done]. Qed.

Lemma quiet_ret {A} (a : A) : quiet (Ret a).
Proof. by intros w t r w' (_ & _ & ->)%runs_inv. Qed.
Lemma quiet_do {X A} (s : Sql X) (k : option X -> Calls.Prog Stmt A) : commits (St s) = false -> (forall x, quiet (k x)) -> quiet (Do (St s) k).
Proof.
  intros Hs Hk w t r w' (x & w1 & t' & -> & Hc & Hr)%runs_inv. rewrite (Hk _ _ _ _ _ Hr). by eapply says_quiet.
Qed.
Lemma quiet_sql {X} label (s : Sql X) : commits (St s) = false -> quiet (sql label s).
Proof. intros Hs. apply quiet_do; [done|]. intros [v|]; apply quiet_ret. Qed.
Lemma quiet_found {X} missing label (s : Sql (option X)) : commits (St s) = false -> quiet (found missing label s).
Proof. intros Hs. apply quiet_do; [done|]. intros [[v|]|]; apply quiet_ret. Qed.
Lemma quiet_sbind {A B} (m : Tx A) (k : A -> Tx B) : quiet m -> (forall a, quiet (k a)) -> quiet (sbind m k).
Proof.
  intros Hm Hk w t r w' (t1 & [a|e] & w1 & t2 & -> & H1 & H2)%runs_bind; rewrite <- (Hm _ _ _ _ H1); [by eapply Hk|].
  by apply runs_inv in H2 as (_ & _ & ->).
Qed.

Lemma ends_quiet {A} (p : Tx A) : quiet p -> ends p.
Proof. intros H w t e w' Hr _. by eapply H. Qed.
Lemma ends_refuse {A} e : ends (refuse (A := A) e).
Proof. apply ends_quiet, quiet_ret. Qed.
Lemma ends_sbind {A B} (m : Tx A) (k : A -> Tx B) : quiet m -> (forall a, ends (k a)) -> ends (sbind m k).
Proof.
  intros Hm Hk w t e w' (t1 & [a|e'] & w1 & t2 & -> & H1 & H2)%runs_bind He; rewrite <- (Hm _ _ _ _ H1); [by eapply Hk|].
  by apply runs_inv in H2 as (_ & _ & ->).
Qed.
(** The commit is the last thing, and only fails. *)
Lemma ends_commit {A} (a : A) : ends (sbind (sql "commit" Commit) (fun _ => answer a)).
Proof.
  intros w t e w' (t1 & [[]|e'] & w1 & t2 & -> & H1 & H2)%runs_bind He; [by apply runs_inv in H2 as (_ & ? & _)|].
  apply runs_inv in H1 as (x & w2 & t' & -> & _ & H1). apply runs_inv in H2 as (_ & [= ->] & _).
  destruct x; apply runs_inv in H1 as (_ & E & _); [done|]. by injection E as ->.
Qed.

Lemma quiet_custody fuel principal agentName : forall cur, quiet (custody_from fuel cur principal agentName).
Proof.
  induction fuel as [|fuel IH]; intros cur; [apply quiet_ret|]. cbn [custody_from]. apply quiet_sbind.
  { apply quiet_sbind; [by apply quiet_sql|intros c; apply quiet_ret]. }
  intros [|]; [apply quiet_ret|]. apply quiet_sbind; [by apply quiet_sql|]. intros p. destruct (p ≫= nullToPtr); [apply IH|apply quiet_ret].
Qed.
Lemma quiet_ancestor fuel target : forall cur, quiet (ancestorIncludes_from fuel cur target).
Proof.
  induction fuel as [|fuel IH]; intros cur; [apply quiet_ret|]. cbn [ancestorIncludes_from]. destruct (bool_decide _); [apply quiet_ret|].
  apply quiet_sbind; [by apply quiet_sql|]. intros p. destruct (p ≫= nullToPtr); [apply IH|apply quiet_ret].
Qed.
Lemma quiet_depth fuel : forall depth cur, quiet (chainDepth_from fuel depth cur).
Proof.
  induction fuel as [|fuel IH]; intros depth cur; [apply quiet_ret|]. cbn [chainDepth_from].
  apply quiet_sbind; [by apply quiet_sql|]. intros p. destruct (p ≫= nullToPtr); [apply IH|apply quiet_ret].
Qed.
Lemma quiet_refs project team refs : forall seen, quiet (resolve_refs uuid_ok project team seen refs).
Proof.
  induction refs as [|r refs IH]; intros seen; cbn [resolve_refs]; [apply quiet_ret|]. destruct (_ || _); [apply IH|].
  apply quiet_sbind; [by apply quiet_sql|]. intros title. apply quiet_sbind; [apply IH|]. intros out. apply quiet_ret.
Qed.

Lemma quiet_refuse {A} e : quiet (refuse (A := A) e).
Proof. apply quiet_ret. Qed.
Lemma quiet_answer {A} (a : A) : quiet (answer a).
Proof. apply quiet_ret. Qed.

#[local] Hint Resolve quiet_refuse quiet_answer quiet_custody quiet_ancestor quiet_depth quiet_refs quiet_ret ends_refuse : core.

(** Through a program, statement by statement. *)
Ltac unfold_parts := unfold create_parent, writeAudit, writeAgentAudit, check_expected, check_reparent, check_agent_reparent, edit_row,
  agentHoldsCustodyScope, ancestorIncludes, chainDepth, subtreeHeight, agentHoldsClaim, resolveCommentRefs, comment_nudge, check_unheld.
Ltac quietly := unfold_parts; repeat first
  [ solve [auto] | apply quiet_sql; reflexivity | apply quiet_found; reflexivity | apply quiet_sbind; [|intros ?] | case_match ].
Ltac to_end := repeat first
  [ solve [auto] | apply ends_commit | apply ends_sbind; [solve [quietly]|intros ?] | case_match ].

Lemma ends_forget {A} (p : Tx A) w t e w' : ends p -> runs (says canon) (forget p) w t (Some e) w' -> is_failure e = false -> committed w' = committed w.
Proof.
  intros Hp (t1 & [a|e'] & w1 & t2 & -> & H1 & H2)%runs_bind He; apply runs_inv in H2 as (_ & E & <-); [done|]. injection E as ->. by eapply Hp.
Qed.

Lemma ends_dispatch inp : ends (RequestDispatch inp).
Proof. unfold RequestDispatch. to_end. Qed.

Lemma run_op_ends o w t e w' : runs (says canon) (run_op pt uuid_ok o) w t (Some e) w' -> is_failure e = false -> committed w' = committed w.
Proof.
  destruct o as [[i|id i|i]|i|id i|id team principal body refs|i|source i]; cbn [run_op run_agent]; apply ends_forget.
  - unfold AgentCreateWorkItem. to_end.
  - unfold AgentUpdateWorkItem. to_end.
  - unfold AgentRequestDispatch. to_end. apply ends_dispatch.
  - unfold CreateWorkItem. to_end.
  - unfold UpdateWorkItem. to_end.
  - unfold AppendHumanComment. to_end.
  - apply ends_dispatch.
  - unfold EnsureWorkItem. to_end.
Qed.

(** C17: A refusal leaves no trace. Whichever operation on the board answers an error that
    is not a failing statement (a malformed request, an item outside the caller's Team or
    custody, a bound, a conflict), nothing of it was committed. *)
Theorem refusal_leaves_no_trace o b t e w' :
  runs (says canon) (run_op pt uuid_ok o) (idle b) t (Some e) w' -> is_failure e = false -> committed w' = b.
Proof. intros Hr He. exact (run_op_ends o _ _ _ _ Hr He). Qed.

End refusals.

(** * A dispatch among others *)

Section dispatches.
Context (canon : string -> option string).

Lemma says_inv X (c : Stmt X) w x w' :
  says canon X c w x w' ->
  match c in Stmt X return X -> Prop with
  | St s => fun x => (exists fresh clock, reply canon fresh clock s w = (x, w')) \/ x = None \/ (w' = w /\ match s with TeamAgents _ => True | _ => False end)
  end x.
Proof.
  intros [fresh clock Y s u|Y s u|u|uid names u]; [left|by right; left|by right; left|by right; right].
  exists fresh, clock. by destruct (reply canon fresh clock s u).
Qed.

(** A statement that was answered, among others. *)
Lemma among_inv {X} (s : Sql X) w v w1 :
  among canon _ (St s) w (Some v) w1 -> match s with TeamAgents _ => False | _ => True end ->
  exists w0 fresh clock, meanwhile w w0 /\ reply canon fresh clock s w0 = (Some v, w1).
Proof.
  intros (w0 & Hm & Hs) Hn. apply says_inv in Hs as [(fresh & clock & H)|[H|[_ H]]]; [by exists w0, fresh, clock|done|by destruct s].
Qed.

Lemma runs_sql_ok {X A} (h : forall X, Stmt X -> World -> X -> World -> Prop) label (s : Sql X) (k : X -> Tx A) w t a w' :
  runs h (sbind (sql label s) k) w t (Ok a) w' ->
  exists v w1 t', t = Ev (St s) (Some v) :: t' /\ h _ (St s) w (Some v) w1 /\ runs h (k v) w1 t' (Ok a) w'.
Proof.
  intros (x & w1 & t' & -> & Hc & Hr)%runs_inv. destruct x as [v|]; [by exists v, w1, t'|]. by apply runs_inv in Hr as (_ & ? & _).
Qed.
Lemma runs_found_ok {X A} (h : forall X, Stmt X -> World -> X -> World -> Prop) missing label (s : Sql (option X)) (k : X -> Tx A) w t a w' :
  runs h (sbind (found missing label s) k) w t (Ok a) w' ->
  exists v w1 t', t = Ev (St s) (Some (Some v)) :: t' /\ h _ (St s) w (Some (Some v)) w1 /\ runs h (k v) w1 t' (Ok a) w'.
Proof.
  intros (x & w1 & t' & -> & Hc & Hr)%runs_inv. destruct x as [[v|]|]; [by exists v, w1, t'|..]; by apply runs_inv in Hr as (_ & ? & _).
Qed.

(** The item is locked as read, and so is its claim where that was read unheld. *)
Definition fixed (writes : list Write) (i : string) (r : Row) (guarded : bool) (w : World) : Prop :=
  delta w = writes /\ i ∈ locked w /\ rows (committed w) !! i = Some r
  /\ (guarded = true -> i ∈ claim_locked w /\ no_holder (committed w) i = true).

Lemma fixed_meanwhile l i r g w w0 : fixed l i r g w -> meanwhile w w0 -> fixed l i r g w0.
Proof.
  intros (Hd & Hl & Hr & Hg) (Ed & _ & El & Ec & Hrows & Hclaims). rewrite <- Ed in Hd. split; [done|]. split; [by rewrite El|].
  split; [by rewrite Hrows|]. intros Hgt. destruct (Hg Hgt) as [Hc Hn]. split; [by rewrite Ec|]. unfold no_holder in *. by rewrite Hclaims.
Qed.

(** What the lock of a row finds. *)
Lemma lock_fixed id w rid r w1 :
  delta w = [] -> among canon _ (St (LockItem id)) w (Some (Some (rid, r))) w1 -> canon id = Some rid /\ fixed [] rid r false w1.
Proof.
  intros Hd H. apply among_inv in H as (w0 & fresh & clock & (Ed & _) & Hr); [|done]. rewrite <- Ed in Hd. cbn -[view] in Hr.
  destruct (canon id) as [i|]; [|done]. assert (view w0 = committed w0) as Ev by (unfold view; by rewrite Hd). rewrite Ev in Hr.
  destruct (rows (committed w0) !! i) as [r0|] eqn:Er; cbn in Hr; [|done]. injection Hr as -> -> <-. split; [done|].
  split; [done|]. split; [cbn; set_solver|]. by split.
Qed.

(** A dispatch that may go on past a live run's guard. *)
Lemma check_fixed id i r lane w t {A} (k : Tx A) a w' :
  canon id = Some i -> fixed [] i r false w -> runs (among canon) (sbind (check_unheld id lane) (fun _ => k)) w t (Ok a) w' ->
  exists w2 t', fixed [] i r true w2 /\ runs (among canon) k w2 t' (Ok a) w' /\ exists e, t = e :: t'.
Proof.
  intros Hi Hf Hr. unfold check_unheld in Hr.
  apply runs_bind in Hr as (t1 & [[]|e] & w2 & t2 & -> & H1 & H2); [|by apply runs_inv in H2 as (_ & ? & _)].
  apply runs_sql_ok in H1 as (hol & w3 & t3 & -> & Hc & H1). apply among_inv in Hc as (w0 & fresh & clock & Hm & Hrep); [|done].
  pose proof (fixed_meanwhile _ _ _ _ _ _ Hf Hm) as (Hd & Hl & Hrow & _). cbn -[view] in Hrep. rewrite Hi in Hrep.
  assert (view w0 = committed w0) as Ev by (unfold view; by rewrite Hd). rewrite Ev in Hrep. injection Hrep as <- <-.
  assert (no_holder (committed w0) i = true /\ t3 = [] /\ w2 = locks_claim i w0) as (Hn & -> & ->).
  { unfold no_holder. destruct (holders (committed w0) !! i) as [c|]; cbn in H1.
    - destruct (holder_principal c); apply runs_inv in H1 as (-> & ? & <-); [done|]. by rewrite bool_decide_true.
    - by apply runs_inv in H1 as (-> & _ & <-). }
  exists (locks_claim i w0), t2. split; [|split; [done|by eexists]].
  split; [done|]. split; [done|]. split; [done|]. intros _. split; [cbn; set_solver|done].
Qed.

(** What a dispatch from the lane of [r] has committed. *)
Definition dispatched (i : string) (r : Row) (guarded : bool) (inp : RequestDispatchInput) (b b' : Tables) : Prop :=
  rows b !! i = Some r /\ (guarded = true -> no_holder b i = true)
  /\ exists now au, b' = apply (apply b (WAdvance i (Some (rd_AgentID inp)) now)) (WAudit au)
    /\ au_item au = i /\ au_principal au = rd_Principal inp /\ au_from au = Some (wi_state r) /\ au_to au = Some "todo".

(** The move of the lane ... *)
Lemma advance_fixed id i r g agent w n w1 :
  canon id = Some i -> fixed [] i r g w -> n <> O -> among canon _ (St (Advance id (Some agent) (wi_state r) g)) w (Some n) w1 ->
  exists now, fixed [WAdvance i (Some agent) now] i r g w1.
Proof.
  intros Hi Hf Hn Hc. apply among_inv in Hc as (w0 & fresh & clock & Hm & Hrep); [|done].
  destruct (fixed_meanwhile _ _ _ _ _ _ Hf Hm) as (Hd & Hl & Hrow & Hg). cbn -[view] in Hrep. rewrite Hi in Hrep.
  assert (view w0 = committed w0) as Ev by (unfold view; by rewrite Hd). rewrite Ev, Hrow in Hrep.
  destruct (bool_decide (wi_state r = wi_state r) && _); [|injection Hrep; intros; by subst]. injection Hrep as <- <-. exists (txnow w0).
  split; [cbn; by rewrite Hd|]. split; [cbn; set_solver|]. split; [done|]. intros Hgt. by destruct (Hg Hgt).
Qed.

(** ... its provenance ... *)
Lemma audit_fixed l i r g au w x w1 :
  fixed l i r g w -> among canon _ (St (InsertAudit au)) w (Some x) w1 ->
  exists au', fixed (l ++ [WAudit au']) i r g w1 /\ canon (au_item au) = Some (au_item au') /\ au_principal au' = au_principal au
    /\ au_from au' = au_from au /\ au_to au' = au_to au.
Proof.
  intros Hf Hc. apply among_inv in Hc as (w3 & fresh & clock & Hm & Hrep); [|done].
  destruct (fixed_meanwhile _ _ _ _ _ _ Hf Hm) as (Hd & Hrest). cbn in Hrep. destruct (canon (au_item au)) as [j|]; [|done].
  destruct (canonical_parent canon (au_run au)) as [o|]; [|done]. injection Hrep as _ <-. eexists.
  split; [split; [cbn; by rewrite Hd|exact Hrest]|]. by repeat split.
Qed.

(** ... and the commit. *)
Lemma commit_fixed l i r g w x w1 :
  fixed l i r g w -> among canon _ (St Commit) w (Some x) w1 ->
  exists b, rows b !! i = Some r /\ (g = true -> no_holder b i = true) /\ committed w1 = foldl apply b l.
Proof.
  intros Hf Hc. apply among_inv in Hc as (w6 & fresh & clock & Hm & Hrep); [|done].
  destruct (fixed_meanwhile _ _ _ _ _ _ Hf Hm) as (Hd & _ & Hrow & Hg). cbn -[view] in Hrep. injection Hrep as _ <-.
  exists (committed w6). split; [done|]. split; [intros Hgt; by apply Hg|]. cbn [idle committed]. unfold view. by rewrite Hd.
Qed.

Lemma dispatch_lands inp i r team event g w t d w' :
  canon (rd_WorkItemID inp) = Some i -> fixed [] i r g w -> runs (among canon) (dispatch_as inp r team event g) w t (Ok d) w' ->
  dr_FromState d = wi_state r /\ (exists names, got t (TeamAgents team) names /\ rd_AgentID inp ∈ names)
  /\ exists b, dispatched i r g inp b (committed w').
Proof.
  intros Hi Hf Hr. unfold dispatch_as in Hr. apply runs_sql_ok in Hr as (names & w1 & t1 & -> & Hc & Hr).
  assert (fixed [] i r g w1) as Hf1.
  { destruct Hc as (w5 & Hm & Hs). apply (fixed_meanwhile _ _ _ _ _ _ Hf) in Hm. apply says_inv in Hs as [(f & c & Hx)|[?|[-> _]]]; [by injection Hx|done|done]. }
  destruct (containsString names (rd_AgentID inp)) eqn:En; [|by apply runs_inv in Hr as (_ & ? & _)].
  apply runs_sql_ok in Hr as (n & w2 & t2 & -> & Hc2 & Hr). destruct (bool_decide_reflect (n = O)) as [|Hn]; [by apply runs_inv in Hr as (_ & ? & _)|].
  destruct (advance_fixed _ _ _ _ _ _ _ _ Hi Hf1 Hn Hc2) as [now Hf2].
  apply runs_sql_ok in Hr as (u & w3 & t3 & -> & Hc3 & Hr). destruct (audit_fixed _ _ _ _ _ _ _ _ Hf2 Hc3) as (au & Hf3 & Hai & Hap & Haf & Hat).
  apply runs_sql_ok in Hr as (u' & w4 & t4 & -> & Hc4 & Hr). apply runs_inv in Hr as (_ & E & <-). injection E as ->.
  destruct (commit_fixed _ _ _ _ _ _ _ Hf3 Hc4) as (b & Hrow & Hg & Hco). split; [done|]. split.
  { exists names. split; [left|]. unfold containsString in En. by case_bool_decide. }
  exists b. split; [done|]. split; [done|]. exists now, au. split; [done|]. cbn in Hai. rewrite Hi in Hai. by injection Hai as <-.
Qed.

(** C16: A dispatch is what it reports, against the board it commits to. Though other
    transactions commit between its statements, when it succeeds: the item is in the lane
    it left, of the caller's Team, the agent is a member read of that Team, and past the
    backlog no run holds it; and what is committed is that board with the lane moved to
    todo, the agent requested, and one entry of provenance. *)
Theorem dispatch_exact inp w t d w' :
  runs (among canon) (RequestDispatch inp) w t (Ok d) w' ->
  exists i r team names b,
    canon (rd_WorkItemID inp) = Some i /\ dr_FromState d = wi_state r
    /\ wi_team r = Some team /\ (rd_TeamID inp = "" \/ rd_TeamID inp = team)
    /\ got t (TeamAgents team) names /\ rd_AgentID inp ∈ names
    /\ dispatched i r (negb (bool_decide (wi_state r = "backlog"))) inp b (committed w').
Proof.
  intros Hr. unfold RequestDispatch in Hr. destruct (_ || _ || _) in Hr; [by apply runs_inv in Hr as (_ & ? & _)|].
  apply runs_sql_ok in Hr as ([] & w1 & t1 & -> & Hc & Hr). apply among_inv in Hc as (w0 & fresh & clock & Hm & Hrep); [|done]. injection Hrep as <-.
  apply runs_found_ok in Hr as ([i r] & w2 & t2 & -> & Hc & Hr). apply lock_fixed in Hc as [Hi Hf]; [|done].
  destruct (outside (rd_TeamID inp) (wi_team r)) eqn:Eo; [by apply runs_inv in Hr as (_ & ? & _)|].
  destruct (nullToPtr (wi_team r)) as [team|] eqn:Et; [|by apply runs_inv in Hr as (_ & ? & _)].
  assert (wi_team r = Some team) as Hteam by (destruct (wi_team r); cbn in Et; by repeat case_match; simplify_eq).
  destruct (dispatch_branch (wi_state r)) as [[event guarded]|] eqn:Eb; [|by apply runs_inv in Hr as (_ & ? & _)].
  assert (guarded = negb (bool_decide (wi_state r = "backlog"))) as Hgd.
  { unfold dispatch_branch in Eb. destruct (bool_decide (wi_state r = "backlog")); [by simplify_eq|]. by repeat case_match; simplify_eq. }
  assert (exists w3 t3, fixed [] i r guarded w3 /\ runs (among canon) (dispatch_as inp r team event guarded) w3 t3 (Ok d) w'
    /\ forall e, e ∈ t3 -> e ∈ t2) as (w3 & t3 & Hf3 & Hr3 & Hin).
  { destruct guarded; [|by exists w2, t2].
    eapply check_fixed in Hr as (w3 & t3 & H3 & Hr3 & e & ->); [|done..]. exists w3, t3. split; [done|]. split; [done|]. intros e' He. by right. }
  destruct (dispatch_lands _ _ _ _ _ _ _ _ _ _ Hi Hf3 Hr3) as (Hd & (names & Hn & Hm') & b & Hb).
  exists i, r, team, names, b. split; [done|]. split; [done|]. split; [done|]. split.
  { unfold outside in Eo. rewrite Hteam in Eo. apply andb_false_iff in Eo as [Eo|Eo]; apply negb_false_iff in Eo.
    - left. by apply bool_decide_eq_true in Eo.
    - right. apply bool_decide_eq_true in Eo. congruence. }
  split; [do 2 right; apply Hin, Hn|]. split; [done|]. by rewrite <- Hgd.
Qed.
End dispatches.

(** * On a small board *)

#[export] Instance ClaimRow_eq_dec : EqDecision ClaimRow.
Proof. solve_decision. Defined.
#[export] Instance Row_eq_dec : EqDecision Row.
Proof. solve_decision. Defined.

Lemma refusal_leaves_no_trace_witness :
  let x := Demo.played (OpCreate (Demo.create_under "zz")) Boards.two_epics in
  x.1.2 = Some ErrAgentAuthorNotInCustody /\ committed x.2 = Boards.two_epics.
Proof.
  cbv zeta. set (o := OpCreate (Demo.create_under "zz")).
  assert ((Demo.played o Boards.two_epics).1.2 = Some ErrAgentAuthorNotInCustody) as E by (vm_compute; reflexivity). split; [exact E|].
  pose proof (play_out_runs Demo.canon "n" 7 Demo.team (run_agent Demo.pt o) (idle Boards.two_epics)) as Hr.
  change (play_out _ _ _ _ _ _) with (Demo.played o Boards.two_epics) in Hr. rewrite E in Hr.
  exact (refusal_leaves_no_trace Demo.canon Demo.pt (fun _ => true) (ByAgent o) Boards.two_epics _ ErrAgentAuthorNotInCustody _ Hr eq_refl).
Defined.

Module Parked.
(** An item in review that no run holds. *)
Definition board : Tables := {| rows := {["a" := Demo.row None "in_review"]}; holders := {["a" := unheld]}; trail := []; remarks := [] |}.
Definition request : RequestDispatchInput :=
  {| rd_WorkItemID := "a"; rd_AgentID := "dev"; rd_TeamID := "team"; rd_Principal := "alice"; rd_InitiatedByUserID := ""; rd_Initiator := "" |}.
Definition played : list (Event Stmt) * result WErr WorkItemDispatchResult * World :=
  play_out Demo.canon "n" 7 Demo.team (RequestDispatch request) (idle board).
Definition answer : WorkItemDispatchResult := {| dr_WorkItemID := "a"; dr_FromState := "in_review"; dr_ToState := "todo"; dr_RequestedAgent := "dev" |}.
End Parked.

Lemma dispatch_exact_witness :
  Parked.played.1.2 = Ok Parked.answer
  /\ exists i r team names b, Demo.canon "a" = Some i /\ dr_FromState Parked.answer = wi_state r /\ wi_team r = Some team
    /\ ("team" = "" \/ "team" = team) /\ got Parked.played.1.1 (TeamAgents team) names /\ "dev" ∈ names
    /\ dispatched i r (negb (bool_decide (wi_state r = "backlog"))) Parked.request b (committed Parked.played.2).
Proof.
  assert (Parked.played.1.2 = Ok Parked.answer) as E by (vm_compute; reflexivity). split; [exact E|].
  pose proof (play_out_runs Demo.canon "n" 7 Demo.team (RequestDispatch Parked.request) (idle Parked.board)) as Hr.
  change (play_out _ _ _ _ _ _) with Parked.played in Hr. rewrite E in Hr.
  exact (dispatch_exact Demo.canon Parked.request _ _ Parked.answer _ (runs_says_among Demo.canon _ _ _ _ _ Hr)).
Defined.

(** ** Transactions that overlap *)

Module Overlap.
Import Demo Boards.
Definition op (o : AgentOp) : Calls.Prog Stmt (option WErr) := run_agent pt o.

(** Just before the [n]-th statement of the one, the other has run and committed; the
    rows the two lock are not the same. *)
Definition both (n m : nat) (o1 o2 : AgentOp) (fresh : string) (b : Tables) : option WErr * World :=
  play_among canon "n" 7 team n (committed (play_out canon fresh 7 team (op o2) (idle b)).2) (op o1) (idle b).
Definition lockers (n m : nat) (o1 o2 : AgentOp) (fresh : string) (b : Tables) : gset string * gset string :=
  (locked (world_at canon "n" 7 team n (op o1) (idle b)), locked (world_at canon fresh 7 team m (op o2) (idle b))).

Definition keeps_locks (w w' : World) : bool :=
  bool_decide (set_Forall (fun i => rows (committed w') !! i = rows (committed w) !! i) (locked w))
  && bool_decide (set_Forall (fun i => holders (committed w') !! i = holders (committed w) !! i) (claim_locked w)).

Lemma keeps_meanwhile w b : keeps_locks w (recommitted b w) = true -> meanwhile w (recommitted b w).
Proof. intros [H1 H2]%andb_true_iff. apply bool_decide_eq_true in H1, H2. by repeat split. Qed.

Lemma both_runs n m o1 o2 fresh b :
  (let w := world_at canon "n" 7 team n (op o1) (idle b) in
   keeps_locks w (recommitted (committed (play_out canon fresh 7 team (op o2) (idle b)).2) w)) = true ->
  exists t, runs (among canon) (op o1) (idle b) t (both n m o1 o2 fresh b).1 (both n m o1 o2 fresh b).2.
Proof. intros H. apply play_among_runs. by apply keeps_meanwhile. Qed.
End Overlap.

(** What an overlap shows: both succeed, over rows that are not the same, and one commits
    while the other is under way. *)
Definition overlap (o1 o2 : AgentOp) (b : Tables) (x : option WErr * World) : Prop :=
  exists b2 t1 t2, runs (says Demo.canon) (Overlap.op o2) (idle b) t2 None (idle b2)
    /\ runs (among Demo.canon) (Overlap.op o1) (idle b) t1 None x.2 /\ x.1 = None.

Lemma both_overlap n m o1 o2 fresh b :
  let w := world_at Demo.canon "n" 7 Demo.team n (Overlap.op o1) (idle b) in
  let x2 := play_out Demo.canon fresh 7 Demo.team (Overlap.op o2) (idle b) in
  Overlap.keeps_locks w (recommitted (committed x2.2) w) = true -> (Overlap.both n m o1 o2 fresh b).1 = None -> x2.1.2 = None -> delta x2.2 = [] ->
  (txnow x2.2, locked x2.2, claim_locked x2.2) = (0%Z, ∅, ∅) -> overlap o1 o2 b (Overlap.both n m o1 o2 fresh b).
Proof.
  cbv zeta. set (w := world_at _ _ _ _ _ _ _). set (x2 := play_out _ _ _ _ _ _). intros Hk H1 H2 Hd Hl.
  destruct (Overlap.both_runs n m o1 o2 fresh b Hk) as [t1 Ht]. rewrite H1 in Ht.
  exists (committed x2.2), t1, x2.1.1. split; [|by split].
  pose proof (play_out_runs Demo.canon fresh 7 Demo.team (Overlap.op o2) (idle b)) as Hr. change (play_out _ _ _ _ _ _) with x2 in Hr.
  rewrite H2 in Hr. destruct x2.2 as [c dl now l cl]. cbn in *. by simplify_eq.
Qed.

(** Each move is checked against the board the other has not changed yet, and together
    they close a ring. *)
Lemma two_moves_make_a_ring :
  exists x, overlap (OpUpdate "a" (Demo.move_under "y")) (OpUpdate "x" (Demo.move_under "b")) Boards.two_epics x
    /\ ~ forest Demo.canon (committed x.2).
Proof.
  exists (Overlap.both 10 13 (OpUpdate "a" (Demo.move_under "y")) (OpUpdate "x" (Demo.move_under "b")) "m" Boards.two_epics).
  split; [by apply both_overlap; vm_compute|].
  apply (ring_no_forest _ _ ["a"; "b"; "x"; "y"] "a"); [|left]. intros i Hin.
  repeat (apply elem_of_cons in Hin as [->|Hin]; [eexists; split; [vm_compute; reflexivity|set_solver]|]). by apply not_elem_of_nil in Hin.
Qed.

(** A child is created under an item whose epic moves down meanwhile. *)
Lemma a_move_takes_a_child_below_the_cap :
  exists x, overlap (OpCreate (Demo.create_under "b")) (OpUpdate "a" (Demo.move_under "y")) Boards.two_epics x
    /\ chain (committed x.2) "n" (S AgentAuthorMaxDepth).
Proof.
  exists (Overlap.both 6 13 (OpCreate (Demo.create_under "b")) (OpUpdate "a" (Demo.move_under "y")) "m" Boards.two_epics).
  split; [by apply both_overlap; vm_compute|]. apply (chain_len_sound _ 9). by vm_compute.
Qed.

(** Two creations of one run each count the same trail. *)
Definition spent_board : Tables :=
  {| rows := rows Boards.two_epics; holders := holders Boards.two_epics;
     trail := repeat (audit "b" (Some "r") "work_item_created" "agent:pm" "" []) 49; remarks := [] |}.

Lemma two_creations_pass_the_budget :
  exists x, overlap (OpCreate (Demo.create_under "a")) (OpCreate (Demo.create_under "x")) spent_board x
    /\ authored (committed x.2) "r" = S AgentAuthorRunBudget.
Proof.
  exists (Overlap.both 5 13 (OpCreate (Demo.create_under "a")) (OpCreate (Demo.create_under "x")) "m" spent_board).
  split; [by apply both_overlap; vm_compute|]. by vm_compute.
Qed.

(** * What a person's edit reads back *)

(** A driver that does not give text[] to a plain slice. *)
Definition unscanned X (c : Stmt X) : X -> Prop :=
  match c in Stmt X return X -> Prop with
  | St s => match s in Sql X return option X -> Prop with ReadBack _ false => fun o => o = None | _ => fun _ => True end
  end.

Section unscanned.
Context (canon : string -> option string).
Notation world := (fun X c w x w' => says canon X c w x w' /\ unscanned X c x).

Lemma runs_says {A} (p : Calls.Prog Stmt A) w t a w' : runs world p w t a w' -> runs (says canon) p w t a w'.
Proof. induction 1 as [|X c k x w w1 t a w2 [Hs _] _ IH]; [constructor|by econstructor]. Qed.

Definition never_saves {A} (p : Tx A) : Prop := forall w t r w', runs world p w t r w' -> committed w' = committed w /\ exists e, r = Err e.

Lemma never_refuse {A} e : never_saves (refuse (A := A) e).
Proof. intros w t r w' (_ & -> & ->)%runs_inv. split; [done|by eexists]. Qed.

Lemma never_sbind {A B} (m : Tx A) (k : A -> Tx B) : quiet canon m -> (forall a, never_saves (k a)) -> never_saves (sbind m k).
Proof.
  intros Hm Hk w t r w' (t1 & x & w1 & t2 & -> & H1 & H2)%runs_bind. pose proof (Hm _ _ _ _ (runs_says _ _ _ _ _ H1)) as E. rewrite <- E.
  destruct x as [a|e]; [by eapply Hk|]. apply runs_inv in H2 as (_ & -> & ->). split; [done|by eexists].
Qed.

Lemma never_read_back {A} label id (k : Row -> Tx A) : never_saves (sbind (sql label (ReadBack id false)) k).
Proof.
  intros w t r w' (x & w1 & t' & -> & [Hs Hx] & Hr)%runs_inv. cbn in Hx. subst x. apply runs_inv in Hr as (_ & -> & <-).
  split; [|by eexists]. by eapply says_quiet.
Qed.

Lemma never_edit {A} id r title body parent (k : Row -> Tx A) : never_saves (sbind (edit_row id r title body parent false) k).
Proof.
  unfold edit_row. intros w t x w' Hr. apply runs_bind in Hr as (t1 & y & w1 & t2 & -> & H1 & H2).
  assert (never_saves (let~ n := sql "update" (EditItem id (default (wi_title r) title) (new_body r body) (new_parent r parent) (wi_updated_at r)) in
    when bool_decide (n = O) refuse_with ErrStateConflict "concurrent edit" else sql "read back" (ReadBack id false))) as Hn.
  { apply never_sbind; [by apply quiet_sql|]. intros n. destruct (bool_decide (n = O)); [apply never_refuse|].
    intros u t0 q u' (o & w2 & t' & -> & [Hs Ho] & Hq)%runs_inv. cbn in Ho. subst o. apply runs_inv in Hq as (_ & -> & <-).
    split; [by eapply says_quiet|by eexists]. }
  destruct (Hn _ _ _ _ H1) as [E [e ->]]. apply runs_inv in H2 as (_ & -> & <-). split; [done|by eexists].
Qed.

(** With it no edit by a person is ever saved, where an agent's is. *)
Lemma edits_are_never_saved pt id inp : never_saves (UpdateWorkItem pt id inp).
Proof.
  unfold UpdateWorkItem. repeat (case_match; [apply never_refuse|]). apply never_sbind; [by apply quiet_sql|intros _].
  apply never_sbind; [by apply quiet_found|]. intros [rid r]. case_match; [apply never_refuse|].
  apply never_sbind; [unfold check_expected; repeat case_match; apply quiet_ret|intros _].
  apply never_sbind; [|intros _; apply never_edit]. unfold check_reparent. destruct (uw_ParentID inp ≫= nullif); [|apply quiet_ret].
  repeat first [apply quiet_ret | apply quiet_ancestor | apply quiet_found; reflexivity | apply quiet_sbind; [|intros ?] | case_match].
Qed.
End unscanned.

(** ** The Team an edit reports

    Moved under an item of another Team, an item takes that Team, and its children keep
    theirs; the record that is returned names the Team it had. *)
Module Teams.
Definition of_team (team : string) (parent : option string) : Row :=
  let r := Demo.row parent "backlog" in
  {| wi_project := wi_project r; wi_team := Some team; wi_parent := parent; wi_title := "t"; wi_body := None; wi_state := "backlog"; wi_created_by := "human";
     wi_created_at := 0; wi_updated_at := 0; wi_priority := None; wi_work_mode := None; wi_labels := []; wi_requested := None |}.
Definition board : Tables :=
  {| rows := {["a" := of_team "red" None; "b" := of_team "red" (Some "a"); "x" := of_team "blue" None]}; holders := ∅; trail := []; remarks := [] |}.
Definition move : UpdateWorkItemInput :=
  {| uw_Title := None; uw_Body := None; uw_ParentID := Some "x"; uw_ExpectedUpdatedAt := ""; uw_TeamID := ""; uw_Principal := "admin"; uw_InitiatedByUserID := "" |}.
Definition played := play_out Demo.canon "n" 7 Demo.team (UpdateWorkItem Demo.pt "a" move) (idle board).
Definition team_of (b : Tables) (i : string) : option string := rows b !! i ≫= wi_team.
End Teams.

Lemma an_edit_reports_the_old_team :
  (exists rec, Teams.played.1.2 = Ok rec /\ rec_TeamID rec = Some "red")
  /\ Teams.team_of (committed Teams.played.2) "a" = Some "blue" /\ Teams.team_of (committed Teams.played.2) "b" = Some "red".
Proof. split; [eexists; split; [vm_compute; reflexivity|reflexivity]|]. split; vm_compute; reflexivity. Qed.
