(* ===== verification/Toolchain.v ===== *)
(** The toolchains of a Run (src/pkg/toolchain): the demand of its skills, the
    resolution of a name@version against the cluster catalog and a team's override,
    which may only narrow, and the per-Run RBAC objects rendered from what resolved
    (src/pkg/controller/run/rbac.go). Error texts are left out. *)
From Stdlib Require Import Ascii.
From S2P Require Import Prelude GoStr Calls Objects.
Open Scope k8s_scope.

(** * Errors *)

Inductive RefDefect : Set := MissingVersion | ManySeparators | EmptySide.
Inductive TrustReason : Set :=
| NoCatalogEntry
| VersionNotInCatalog (version : string)
| ImageSubstituted (version image want : string)
| CatalogGrantsNone
| ClusterScope
| RuleNotCovered (rule : PolicyRule).

Inductive MCPReason : Set :=
| NoServer | NoBuiltIn | NothingObserved | NoCommand | NoEndpoint | BadTransport (transport : string) | NothingAllowed.

Inductive Error : Set :=
| ReadFailed (kind ns name : string)
| MalformedRef (ref : string) (d : RefDefect)
| ConflictError (name have want : string)
| UnknownError (ref : string) (looked : list string)
| TrustError (override : string) (r : TrustReason)
| VersionError (ref : string) (available : list string) (override : bool)
| ClusterScopeOff (name version : string)
| MCPError (server skill : string) (r : MCPReason)
| EgressMissing (server policy : string)
| EgressDenied (server policy message : string)
| WriteFailed (kind name : string)
| NoTeamUID (team : string)
| MintFailed
| SkillTooLarge (name : string)
| NameTooLong (name : string).

(** * References *)

Definition RefSeparator : ascii := "@".

(** strings.Cut at one byte. *)
Fixpoint Cut (sep : ascii) (s : string) : option (string * string) :=
  match s with
  | "" => None
  | String c s => if Ascii.eqb c sep then Some ("", s) else match Cut sep s with Some (a, b) => Some (String c a, b) | None => None end
  end.

Definition ParseRef (ref : string) : result Error (string * string) :=
  match Cut RefSeparator ref with
  | None => Err (MalformedRef ref MissingVersion)
  | Some (name, version) =>
      if bool_decide (is_Some (Cut RefSeparator version)) then Err (MalformedRef ref ManySeparators)
      else if bool_decide (TrimSpace name = "") || bool_decide (TrimSpace version = "") then Err (MalformedRef ref EmptySide)
      else Ok (name, version)
  end.

(** * The platform *)

Record PlatformConfig : Set := { ClusterCatalogNamespace : string; AllowClusterScope : bool }.
Definition DefaultClusterCatalogNamespace : string := "ksquad-system".

Definition WithDefaults (p : PlatformConfig) : PlatformConfig :=
  if bool_decide (TrimSpace (ClusterCatalogNamespace p) = "")
  then {| ClusterCatalogNamespace := DefaultClusterCatalogNamespace; AllowClusterScope := AllowClusterScope p |} else p.

Definition IsClusterCatalog (p : PlatformConfig) (ns : string) : bool := bool_decide (ns = ClusterCatalogNamespace (WithDefaults p)).

(** * Rules *)

Definition subsetStrings (sub sup : list string) : bool :=
  match sub with [] => bool_decide (sup = []) | _ => forallb (fun s => bool_decide (s ∈ sup)) sub end.

Definition rule_covered (candidate b : PolicyRule) : bool :=
  subsetStrings (Verbs candidate) (Verbs b) && subsetStrings (APIGroups candidate) (APIGroups b) &&
  subsetStrings (Resources candidate) (Resources b) && subsetStrings (ResourceNames candidate) (ResourceNames b) &&
  subsetStrings (NonResourceURLs candidate) (NonResourceURLs b).

Definition RuleCoveredBy (candidate : PolicyRule) (base : list PolicyRule) : bool := existsb (rule_covered candidate) base.

Definition key_part (xs : list string) : string :=
  match xs with [] => "*" | _ => String.concat "," (merge_sort String.le xs) end.

Definition RuleKey (r : PolicyRule) : string :=
  String.concat "|" [key_part (APIGroups r); key_part (Resources r); key_part (Verbs r); key_part (ResourceNames r); key_part (NonResourceURLs r)].

Fixpoint union_rules (seen : gset string) (rs : list PolicyRule) : list PolicyRule :=
  match rs with
  | [] => []
  | r :: rs => if bool_decide (RuleKey r ∈ seen) then union_rules seen rs else r :: union_rules ({[RuleKey r]} ∪ seen) rs
  end.
Definition UnionRules (sets : list (list PolicyRule)) : list PolicyRule := union_rules ∅ (concat sets).

(** * Narrowing *)

Definition ToolchainRBACScopeNamespace : string := "namespace".
Definition ToolchainRBACScopeCluster : string := "cluster".

(** The map of the catalog's images; a repeated version keeps its last. *)
Definition catalogVersions (catalog : Toolchain) : gmap string string :=
  foldl (fun m v => <[tv_Version v := tv_Image v]> m) ∅ (tc_Versions catalog).

Fixpoint narrow_versions (offered : gmap string string) (vs : list ToolchainVersion) : option TrustReason :=
  match vs with
  | [] => None
  | v :: vs =>
      match offered !! tv_Version v with
      | None => Some (VersionNotInCatalog (tv_Version v))
      | Some want => if bool_decide (want = tv_Image v) then narrow_versions offered vs else Some (ImageSubstituted (tv_Version v) (tv_Image v) want)
      end
  end.

Fixpoint narrow_rules (base rs : list PolicyRule) : option TrustReason :=
  match rs with [] => None | r :: rs => if RuleCoveredBy r base then narrow_rules base rs else Some (RuleNotCovered r) end.

Definition narrow_rbac (override catalog : Toolchain) : option TrustReason :=
  match tc_RBAC override with
  | None => None
  | Some o =>
      match tc_RBAC catalog with
      | None => Some CatalogGrantsNone
      | Some c =>
          if bool_decide (rb_Rules c = []) then Some CatalogGrantsNone
          else if bool_decide (rb_Scope o = ToolchainRBACScopeCluster) then Some ClusterScope
          else narrow_rules (rb_Rules c) (rb_Rules o)
      end
  end.

Definition ValidateNarrowing (override catalog : Toolchain) : option Error :=
  match match narrow_versions (catalogVersions catalog) (tc_Versions override) with Some r => Some r | None => narrow_rbac override catalog end with
  | Some r => Some (TrustError (tc_ns override +:+ "/" +:+ tc_name override) r)
  | None => None
  end.

(** * Resolution *)

Record Resolved : Set := {
  rs_Name : string; rs_Version : string; rs_Image : string; rs_Provides : list string; rs_SourceNamespace : string;
  rs_RBAC : option ToolchainRBAC }.

Definition pickSource (override : option Toolchain) (catalog : Toolchain) : Toolchain := default catalog override.
Definition findVersion (tc : Toolchain) (version : string) : option ToolchainVersion :=
  list_find (fun v => tv_Version v = version) (tc_Versions tc) ≫= fun iv => Some iv.2.
Definition versionStrings (tc : Toolchain) : list string := tv_Version <$> tc_Versions tc.

Definition effectiveRBAC (override : option Toolchain) (catalog : Toolchain) : option ToolchainRBAC :=
  match override ≫= tc_RBAC with
  | None => tc_RBAC catalog
  | Some o =>
      let inherited := if bool_decide (rb_Scope o = "") then match tc_RBAC catalog with Some base => rb_Scope base | None => "" end else rb_Scope o in
      Some {| rb_Scope := if bool_decide (inherited = "") then ToolchainRBACScopeNamespace else inherited; rb_Rules := rb_Rules o |}
  end.

(** A read that may find nothing. *)
Definition optional {A} (kind ns name : string) (r : Read A) : result Error (option A) :=
  match r with Found a => Ok (Some a) | NotFound => Ok None | ReadError => Err (ReadFailed kind ns name) end.

Section resolver.
(** sort.Slice by a string field. *)
Context (sort_slice : forall A, (A -> string) -> list A -> list A) (Platform : PlatformConfig).

Definition read_override (teamNamespace name : string) : Prog (result Error (option Toolchain)) :=
  if negb (bool_decide (teamNamespace = "")) && negb (IsClusterCatalog (WithDefaults Platform) teamNamespace)
  then let* r := call (GetToolchain teamNamespace name) in ret (optional "Toolchain" teamNamespace name r)
  else done_ None.

(** What the two entries resolve to. *)
Definition pin (teamNamespace name version : string) (override : option Toolchain) (catalog : option Toolchain) : result Error Resolved :=
  let catalogNS := ClusterCatalogNamespace (WithDefaults Platform) in
  match catalog with
  | None =>
      match override with
      | None => Err (UnknownError (name +:+ "@" +:+ version) [teamNamespace; catalogNS])
      | Some _ => Err (TrustError (teamNamespace +:+ "/" +:+ name) NoCatalogEntry)
      end
  | Some catalog =>
      match match override with Some o => ValidateNarrowing o catalog | None => None end with
      | Some e => Err e
      | None =>
          let source := pickSource override catalog in
          match findVersion source version with
          | None => Err (VersionError (name +:+ "@" +:+ version) (versionStrings source) (bool_decide (is_Some override)))
          | Some entry =>
              Ok {| rs_Name := name; rs_Version := tv_Version entry; rs_Image := tv_Image entry; rs_Provides := tv_Provides entry;
                    rs_SourceNamespace := tc_ns source; rs_RBAC := effectiveRBAC override catalog |}
          end
      end
  end.

Definition resolveOne (teamNamespace name version : string) : Prog (result Error Resolved) :=
  let! override := read_override teamNamespace name in
  let catalogNS := ClusterCatalogNamespace (WithDefaults Platform) in
  let* r := call (GetToolchain catalogNS name) in
  let! catalog := ret (optional "Toolchain" catalogNS name r) in
  ret (pin teamNamespace name version override catalog).

(** The pins of the references, in the order their names first appear. *)
Fixpoint pins_of (refs : list string) (pins : gmap string string) : result Error (list (string * string)) :=
  match refs with
  | [] => Ok []
  | ref :: refs =>
      match ParseRef ref with
      | Err e => Err e
      | Ok (name, version) =>
          match pins !! name with
          | Some first => if bool_decide (first = version) then pins_of refs pins else Err (ConflictError name first version)
          | None => match pins_of refs (<[name := version]> pins) with Ok rest => Ok ((name, version) :: rest) | Err e => Err e end
          end
      end
  end.

Fixpoint resolve_all (teamNamespace : string) (pins : list (string * string)) : Prog (result Error (list Resolved)) :=
  match pins with
  | [] => done_ []
  | (name, version) :: pins =>
      let! res := resolveOne teamNamespace name version in
      let! rest := resolve_all teamNamespace pins in
      done_ (res :: rest)
  end.

Definition ResolveRefs (teamNamespace : string) (refs : list string) : Prog (result Error (list Resolved)) :=
  match pins_of refs ∅ with
  | Err e => fail e
  | Ok pins => let! resolved := resolve_all teamNamespace pins in done_ (sort_slice Resolved rs_Name resolved)
  end.

(** * The demand of a Run *)

Record RunRequirements : Set := { Refs : list string; Sources : gmap string string }.
Definition no_requirements : RunRequirements := {| Refs := []; Sources := ∅ |}.

(** The agent's skills with those of its role. *)
Definition agent_skills (agent : Agent) : Prog (result Error (list ObjectRef)) :=
  if bool_decide (ref_name (ag_RoleRef agent) = "") then done_ (ag_SkillRefs agent)
  else
    let ns := or_ns (ref_ns (ag_RoleRef agent)) (ag_ns agent) in
    let* r := call (GetRole ns (ref_name (ag_RoleRef agent))) in
    let! role := ret (optional "Role" ns (ref_name (ag_RoleRef agent)) r) in
    done_ (ag_SkillRefs agent ++ match role with Some role => rl_DefaultSkills role | None => [] end).

Definition demand (skillKey : string) (reqs : RunRequirements) (ref : string) : RunRequirements :=
  match Sources reqs !! ref with
  | Some _ => reqs
  | None => {| Refs := Refs reqs ++ [ref]; Sources := <[ref := skillKey]> (Sources reqs) |}
  end.

Fixpoint skills_demand (agentNS : string) (skillRefs : list ObjectRef) (seen : gset string) (reqs : RunRequirements)
    : Prog (result Error (gset string * RunRequirements)) :=
  match skillRefs with
  | [] => done_ (seen, reqs)
  | skillRef :: skillRefs =>
      let skillNS := or_ns (ref_ns skillRef) agentNS in
      let skillKey := skillNS +:+ "/" +:+ ref_name skillRef in
      if bool_decide (skillKey ∈ seen) then skills_demand agentNS skillRefs seen reqs
      else
        let* r := call (GetSkill skillNS (ref_name skillRef)) in
        let! skill := ret (optional "Skill" skillNS (ref_name skillRef) r) in
        match skill with
        | None => skills_demand agentNS skillRefs seen reqs
        | Some skill => skills_demand agentNS skillRefs ({[skillKey]} ∪ seen) (foldl (demand skillKey) reqs (sk_Toolchains skill))
        end
  end.

Fixpoint agents_demand (runNS : string) (agents : list ObjectRef) (seen : gset string) (reqs : RunRequirements) : Prog (result Error RunRequirements) :=
  match agents with
  | [] => done_ reqs
  | agentRef :: agents =>
      let ns := or_ns (ref_ns agentRef) runNS in
      let* r := call (GetAgent ns (ref_name agentRef)) in
      let! agent := ret (optional "Agent" ns (ref_name agentRef) r) in
      match agent with
      | None => agents_demand runNS agents seen reqs
      | Some agent =>
          let! skillRefs := agent_skills agent in
          let! (seen, reqs) := skills_demand (ag_ns agent) skillRefs seen reqs in
          agents_demand runNS agents seen reqs
      end
  end.

Definition RefsForRun (run : Run) : Prog (result Error RunRequirements) := agents_demand (rn_ns run) (rn_Agents run) ∅ no_requirements.

(** * The rendered RBAC *)

Definition RunRBACNamePrefix : string := "ksquad-run-".
Definition AgentServiceAccount : string := "ksquad-agent".

Definition runClusterObjectName (run : Run) : string :=
  let name := RunRBACNamePrefix +:+ rn_ns run +:+ "-" +:+ rn_name run in
  if (253 <? String.length name)%nat then String.substring 0 253 name else name.

Record ToolchainRBACGrant : Set := {
  gr_Toolchains : list ResolvedToolchainRef; gr_RoleRef : option ObjectRef; gr_ClusterRoleRef : option ObjectRef; gr_Rules : list PolicyRule }.

Definition owner_of (run : Run) : ObjectRef := {| ref_ns := rn_ns run; ref_name := rn_name run |}.
Definition subject_of (run : Run) : ObjectRef := {| ref_ns := rn_ns run; ref_name := AgentServiceAccount |}.

Definition wrote (kind name : string) (ok : bool) : result Error unit := if ok then Ok tt else Err (WriteFailed kind name).

Definition ensureNamespaced (run : Run) (rules : list PolicyRule) : Prog (result Error ObjectRef) :=
  let name := RunRBACNamePrefix +:+ rn_name run in
  let* ok := call (PutRole (rn_ns run) name (owner_of run) rules) in
  let! _ := ret (wrote "Role" name ok) in
  let* ok := call (PutRoleBinding (rn_ns run) name (owner_of run) (subject_of run) name) in
  let! _ := ret (wrote "RoleBinding" name ok) in
  done_ {| ref_ns := rn_ns run; ref_name := name |}.

Definition ensureClusterScoped (run : Run) (rules : list PolicyRule) : Prog (result Error ObjectRef) :=
  let name := runClusterObjectName run in
  let* ok := call (PutClusterRole name (owner_of run) rules) in
  let! _ := ret (wrote "ClusterRole" name ok) in
  let* ok := call (PutClusterRoleBinding name (owner_of run) (subject_of run) name) in
  let! _ := ret (wrote "ClusterRoleBinding" name ok) in
  done_ {| ref_ns := ""; ref_name := name |}.

(** The rule sets by scope; a cluster scope needs the opt-in. *)
Fixpoint rule_sets (resolved : list Resolved) : result Error (list (list PolicyRule) * list (list PolicyRule)) :=
  match resolved with
  | [] => Ok ([], [])
  | res :: resolved =>
      match rs_RBAC res with
      | None => rule_sets resolved
      | Some rb =>
          if bool_decide (rb_Rules rb = []) then rule_sets resolved
          else if bool_decide (rb_Scope rb = ToolchainRBACScopeCluster) then
            if negb (AllowClusterScope (WithDefaults Platform)) then Err (ClusterScopeOff (rs_Name res) (rs_Version res))
            else let? (nss, css) := rule_sets resolved in Ok (nss, rb_Rules rb :: css)
          else let? (nss, css) := rule_sets resolved in Ok (rb_Rules rb :: nss, css)
      end
  end.

Definition granted_ref (res : Resolved) : ResolvedToolchainRef :=
  {| rt_Name := rs_Name res; rt_Version := rs_Version res; rt_Image := rs_Image res; rt_SourceNamespace := rs_SourceNamespace res; rt_Provides := [] |}.

(** Nothing is written for no rules. *)
Definition when_rules {A} (rules : list PolicyRule) (p : Prog (result Error A)) : Prog (result Error (option A)) :=
  match rules with [] => done_ None | _ => let! a := p in done_ (Some a) end.

Definition Ensure (run : Run) : Prog (result Error (option ToolchainRBACGrant)) :=
  let! reqs := RefsForRun run in
  if bool_decide (Refs reqs = []) then done_ None
  else
    let! resolved := ResolveRefs (rn_ns run) (Refs reqs) in
    let! (namespaceSets, clusterSets) := ret (rule_sets resolved) in
    let rules := UnionRules namespaceSets in
    let clusterRules := UnionRules clusterSets in
    let! roleRef := when_rules rules (ensureNamespaced run rules) in
    let! clusterRoleRef := when_rules clusterRules (ensureClusterScoped run clusterRules) in
    done_ (Some {| gr_Toolchains := granted_ref <$> resolved; gr_RoleRef := roleRef; gr_ClusterRoleRef := clusterRoleRef; gr_Rules := rules ++ clusterRules |}).

Definition Release (run : Run) : Prog (result Error unit) :=
  let name := RunRBACNamePrefix +:+ rn_name run in
  let* ok := call (DeleteRole (rn_ns run) name) in
  let! _ := ret (wrote "Role" name ok) in
  let* ok := call (DeleteRoleBinding (rn_ns run) name) in
  let! _ := ret (wrote "RoleBinding" name ok) in
  let clusterName := runClusterObjectName run in
  let* ok := call (DeleteClusterRole clusterName) in
  let! _ := ret (wrote "ClusterRole" clusterName ok) in
  let* ok := call (DeleteClusterRoleBinding clusterName) in
  ret (wrote "ClusterRoleBinding" clusterName ok).
End resolver.
