(* ===== verification/ToolchainProps.v ===== *)
(** What the rendered RBAC of a Run may be: nothing beyond the cluster catalog, no
    matter what the API server answers, and what the union of rules loses. *)
From S2P Require Import Prelude GoStr Calls Objects Toolchain.
Open Scope k8s_scope.

Lemma obeys_xbind {E A B} (may : list (Event Call) -> forall X, Call X -> Prop) answers post hist (p : Prog (result E A)) (k : A -> Prog (result E B)) :
  obeys may answers (fun h r => match r with Ok a => obeys may answers post h (k a) | Err e => post h (Err e) end) hist p ->
  obeys may answers post hist (xbind p k).
Proof.
  intros H. apply obeys_bind. eapply obeys_weaken; [done|]. by intros h [a|e] _ Ha.
Qed.

(** * What a rule grants *)

(** A dimension of a rule: what its entries match, and what an empty one grants. *)
Record Meaning : Set := { entry : string -> string -> bool; empty_grants : bool }.
Definition dim (m : Meaning) (l : list string) (x : string) : bool :=
  match l with [] => empty_grants m | _ => existsb (fun e => entry m e x) l end.

(** The meanings of the five dimensions, and a request for a resource or for a URL. *)
Record Meanings : Set := { m_verb : Meaning; m_group : Meaning; m_resource : Meaning; m_name : Meaning; m_url : Meaning }.
Inductive Request : Set := OfResource (verb group resource name : string) | OfURL (verb url : string).

Definition allows (m : Meanings) (r : PolicyRule) (q : Request) : bool :=
  match q with
  | OfResource v g rs n => dim (m_verb m) (Verbs r) v && dim (m_group m) (APIGroups r) g && dim (m_resource m) (Resources r) rs && dim (m_name m) (ResourceNames r) n
  | OfURL v u => dim (m_verb m) (Verbs r) v && dim (m_url m) (NonResourceURLs r) u
  end.

Lemma subset_dim m sub sup x : subsetStrings sub sup = true -> dim m sub x = true -> dim m sup x = true.
Proof.
  destruct sub as [|s sub]; cbn; [intros ->%bool_decide_eq_true; done|]. intros H Hd.
  assert (existsb (fun e => entry m e x) sup = true) as He.
  { apply (existsb_exists (fun e => entry m e x) (s :: sub)) in Hd as (e & Hin & Hx). apply existsb_exists. exists e. split; [|done].
    pose proof (proj1 (forallb_forall _ (s :: sub)) H e Hin) as Hs. apply bool_decide_eq_true in Hs. by apply list_elem_of_In. }
  by destruct sup.
Qed.

Lemma covered_allows m r b q : rule_covered r b = true -> allows m r q = true -> allows m b q = true.
Proof.
  unfold rule_covered. intros ((((H1 & H2)%andb_true_iff & H3)%andb_true_iff & H4)%andb_true_iff & H5)%andb_true_iff. destruct q; cbn.
  - intros (((A1 & A2)%andb_true_iff & A3)%andb_true_iff & A4)%andb_true_iff. repeat (apply andb_true_iff; split); by eapply subset_dim.
  - intros (A1 & A2)%andb_true_iff. apply andb_true_iff. split; by eapply subset_dim.
Qed.

Lemma subset_refl l : subsetStrings l l = true.
Proof. destruct l as [|x l]; [done|]. apply forallb_forall. intros y Hy. by apply bool_decide_eq_true, list_elem_of_In. Qed.

Lemma covered_refl r : rule_covered r r = true.
Proof. unfold rule_covered. by rewrite !subset_refl. Qed.

(** * What resolves *)

Definition rule_within (rules : list PolicyRule) (r : PolicyRule) : Prop := exists b, b ∈ rules /\ rule_covered r b = true.

Lemma covered_within r rules : RuleCoveredBy r rules = true -> rule_within rules r.
Proof. intros (b & Hb & H)%existsb_exists. exists b. split; [by apply list_elem_of_In|done]. Qed.

Lemma narrow_rules_ok base rs : narrow_rules base rs = None -> forall r, r ∈ rs -> rule_within base r.
Proof.
  induction rs as [|r0 rs IH]; [by intros _ r H%not_elem_of_nil|]. cbn. destruct (RuleCoveredBy r0 base) eqn:E; [|done].
  intros H r [->|Hr]%elem_of_cons; [by apply covered_within|auto].
Qed.

Lemma catalog_image vs (m : gmap string string) version image :
  foldl (fun m v => <[tv_Version v := tv_Image v]> m) m vs !! version = Some image ->
  m !! version = Some image \/ exists v, v ∈ vs /\ tv_Version v = version /\ tv_Image v = image.
Proof.
  revert m. induction vs as [|v vs IH]; intros m; [by left|]. cbn. intros [H|(v' & Hv & E)]%IH; [|right; exists v'; split; [by right|done]].
  apply lookup_insert_Some in H as [[<- <-]|[_ H]]; [right; exists v; split; [by left|done]|by left].
Qed.

Lemma narrow_versions_ok catalog vs : narrow_versions (catalogVersions catalog) vs = None ->
  forall v, v ∈ vs -> exists v', v' ∈ tc_Versions catalog /\ tv_Version v' = tv_Version v /\ tv_Image v' = tv_Image v.
Proof.
  induction vs as [|v0 vs IH]; [by intros _ v H%not_elem_of_nil|]. cbn. destruct (catalogVersions catalog !! tv_Version v0) as [want|] eqn:E; [|done].
  case_bool_decide as Ew; [subst|done]. intros H v [->|Hv]%elem_of_cons; [|auto].
  apply catalog_image in E as [E|Hv]; [by rewrite lookup_empty in E|done].
Qed.

Lemma found_version tc version v : findVersion tc version = Some v -> v ∈ tc_Versions tc /\ tv_Version v = version.
Proof.
  unfold findVersion. destruct (list_find _ _) as [[i x]|] eqn:E; [|done]. intros [= <-]. apply list_find_Some in E as (E & ? & _).
  split; [by eapply list_elem_of_lookup_2|done].
Qed.

(** The entry of the catalog a resolution stays within. *)
Definition within_entry (c : Toolchain) (res : Resolved) : Prop :=
  (exists v, v ∈ tc_Versions c /\ tv_Version v = rs_Version res /\ tv_Image v = rs_Image res) /\
  (forall rb, rs_RBAC res = Some rb -> exists base, tc_RBAC c = Some base /\ (forall r, r ∈ rb_Rules rb -> rule_within (rb_Rules base) r) /\
     (rb_Scope rb = ToolchainRBACScopeCluster -> rb_Scope base = ToolchainRBACScopeCluster)).

Lemma pin_within P ns name version override catalog res :
  pin P ns name version override catalog = Ok res -> rs_Name res = name /\ rs_Version res = version /\ exists c, catalog = Some c /\ within_entry c res.
Proof.
  unfold pin. destruct catalog as [c|]; [|by destruct override]. destruct override as [o|]; unfold pickSource; cbn [default from_option id].
  - destruct (ValidateNarrowing o c) as [|] eqn:En; [done|]. destruct (findVersion o version) as [v|] eqn:Ev; [|done]. intros [= <-]. cbn.
    apply found_version in Ev as [Hv Hver]. split; [done|]. split; [done|]. exists c. split; [done|]. unfold ValidateNarrowing in En.
    destruct (narrow_versions _ _) eqn:Env; [done|]. destruct (narrow_rbac o c) eqn:Enr; [done|]. split; cbn.
    + destruct (narrow_versions_ok _ _ Env v Hv) as (v' & ? & ? & ?). exists v'. split; [done|]. split; congruence.
    + intros rb. unfold narrow_rbac in Enr. unfold effectiveRBAC. cbn. destruct (tc_RBAC o) as [ro|]; cbn.
      * destruct (tc_RBAC c) as [base|]; [|done]. case_bool_decide; [done|]. case_bool_decide as Hs; [done|]. intros [= <-]. exists base. split; [done|]. cbn.
        split; [by apply narrow_rules_ok|]. destruct (bool_decide (rb_Scope ro = "")); by case_bool_decide.
      * intros Hb. exists rb. split; [done|]. split; [|done]. intros r Hr. exists r. split; [done|apply covered_refl].
  - destruct (findVersion c version) as [v|] eqn:Ev; [|done]. intros [= <-]. apply found_version in Ev as [Hv Hver]. split; [done|]. split; [done|].
    exists c. split; [done|]. split; cbn; [by exists v|]. intros rb Hb. exists rb. split; [done|]. split; [|done]. intros r Hr. exists r. split; [done|apply covered_refl].
Qed.

(** * The union *)

Lemma union_in seen rs r : r ∈ union_rules seen rs -> r ∈ rs.
Proof.
  revert seen. induction rs as [|r0 rs IH]; intros seen; [done|]. cbn [union_rules]. case_bool_decide; [intros H0; right; by eapply IH|].
  intros [->|H0]%elem_of_cons; [by left|right; by eapply IH].
Qed.

Lemma union_all seen rs r : r ∈ rs -> RuleKey r ∈ seen \/ exists r', r' ∈ union_rules seen rs /\ RuleKey r' = RuleKey r.
Proof.
  revert seen. induction rs as [|r0 rs IH]; intros seen; [by intros ?%not_elem_of_nil|]. cbn [union_rules]. intros [->|Hr]%elem_of_cons.
  - case_bool_decide; [by left|right]. exists r0. split; [by left|done].
  - case_bool_decide; [by apply IH|]. destruct (IH ({[RuleKey r0]} ∪ seen) Hr) as [[E%elem_of_singleton|?]%elem_of_union|(r' & ? & ?)]; [right|by left|right].
    + exists r0. split; [by left|by rewrite E].
    + exists r'. split; [by right|done].
Qed.

Lemma union_keys seen rs : NoDup (RuleKey <$> union_rules seen rs) /\ forall r, r ∈ union_rules seen rs -> RuleKey r ∉ seen.
Proof.
  revert seen. induction rs as [|r rs IH]; intros seen; cbn [union_rules]; [split; [apply NoDup_nil_2|by intros r H%not_elem_of_nil]|]. case_bool_decide as Hin; [apply IH|].
  destruct (IH ({[RuleKey r]} ∪ seen)) as [H1 H2]. split.
  - apply NoDup_cons. split; [|done]. intros (r' & E & Hr')%list_elem_of_fmap. apply (H2 r' Hr'), elem_of_union_l, elem_of_singleton. done.
  - intros r' [->|Hr']%elem_of_cons; [done|]. intros Hs. apply (H2 r' Hr'). by apply elem_of_union_r.
Qed.

(** The union grants each key once and drops no key of any set. *)
Lemma union_rules_spec sets :
  NoDup (RuleKey <$> UnionRules sets) /\ (forall r, r ∈ UnionRules sets -> exists s, s ∈ sets /\ r ∈ s) /\
  forall s r, s ∈ sets -> r ∈ s -> exists r', r' ∈ UnionRules sets /\ RuleKey r' = RuleKey r.
Proof.
  unfold UnionRules. split; [apply union_keys|]. split.
  - intros r Hr%union_in. apply list_elem_of_In, in_concat in Hr as (s & Hs & Hr). exists s. by rewrite !list_elem_of_In.
  - intros s r Hs Hr. destruct (union_all ∅ (concat sets) r) as [H|H]; [|by apply not_elem_of_empty in H|done].
    apply list_elem_of_In, in_concat. exists s. by rewrite <- !list_elem_of_In.
Qed.

(** * What is rendered *)

Section rendered.
Context (sort_slice : forall A, (A -> string) -> list A -> list A) (P : PlatformConfig).
Context (sort_perm : forall A (key : A -> string) l, sort_slice A key l ≡ₚ l).

Definition catalogNS : string := ClusterCatalogNamespace (WithDefaults P).

(** An entry of the cluster catalog, as it was read. *)
Definition in_catalog (hist : list (Event Call)) (name : string) (c : Toolchain) : Prop := answered hist (GetToolchain catalogNS name) (Found c).

(** A rule that grants nothing its catalog does not. *)
Definition from_catalog (hist : list (Event Call)) (cluster : bool) (r : PolicyRule) : Prop :=
  exists name c base b, in_catalog hist name c /\ tc_RBAC c = Some base /\ b ∈ rb_Rules base /\
    (cluster = true -> rb_Scope base = ToolchainRBACScopeCluster) /\ forall m q, allows m r q = true -> allows m b q = true.

(** What a rendering may do: read, and write the two objects of the Run, in its own
    namespace or, with the opt-in, for the cluster. *)
Definition may_render (run : Run) (hist : list (Event Call)) X (c : Call X) : Prop :=
  match c with
  | GetAgent _ _ | GetRole _ _ | GetSkill _ _ | GetToolchain _ _ => True
  | PutRole ns name owner rules =>
      ns = rn_ns run /\ name = RunRBACNamePrefix +:+ rn_name run /\ owner = owner_of run /\ forall r, r ∈ rules -> from_catalog hist false r
  | PutRoleBinding ns name owner subject role =>
      ns = rn_ns run /\ owner = owner_of run /\ subject = subject_of run /\ role = name
  | PutClusterRole name owner rules =>
      AllowClusterScope P = true /\ owner = owner_of run /\ forall r, r ∈ rules -> from_catalog hist true r
  | PutClusterRoleBinding name owner subject role =>
      AllowClusterScope P = true /\ owner = owner_of run /\ subject = subject_of run /\ role = name
  | _ => False
  end.

Notation obeys := (obeys (may_render _) any_answer).

Lemma agent_skills_reads run hist agent : Calls.obeys (may_render run) any_answer (fun _ _ => True) hist (agent_skills agent).
Proof. unfold agent_skills. case_bool_decide; [done|]. cbn. split; [done|]. by intros []. Qed.

Lemma skills_reads run hist ns refs seen reqs : Calls.obeys (may_render run) any_answer (fun _ _ => True) hist (skills_demand ns refs seen reqs).
Proof.
  revert hist seen reqs. induction refs as [|ref refs IH]; intros hist seen reqs; [done|]. cbn. case_bool_decide; [apply IH|].
  split; [done|]. intros [] _; cbn; auto.
Qed.

Lemma agents_reads run hist ns agents seen reqs : Calls.obeys (may_render run) any_answer (fun _ _ => True) hist (agents_demand ns agents seen reqs).
Proof.
  revert hist seen reqs. induction agents as [|ref agents IH]; intros hist seen reqs; [done|]. cbn. split; [done|]. intros [agent| |] _; cbn; [|apply IH|done].
  apply obeys_xbind. eapply obeys_weaken; [apply agent_skills_reads|]. intros h [refs|] _ _; [|done].
  apply obeys_xbind. eapply obeys_weaken; [apply skills_reads|]. intros h' [[seen' reqs']|] _ _; [apply IH|done].
Qed.

(** What a resolution was read from. *)
Definition resolved_from (hist : list (Event Call)) (res : Resolved) : Prop := exists c, in_catalog hist (rs_Name res) c /\ within_entry c res.

Lemma resolved_prefix hist h res : hist `prefix_of` h -> resolved_from hist res -> resolved_from h res.
Proof. intros Hp (c & Hc & Hw). exists c. split; [by eapply answered_prefix|done]. Qed.

Lemma resolveOne_ok run hist ns name version :
  Calls.obeys (may_render run) any_answer (fun h r => match r with Ok res => resolved_from h res | Err _ => True end) hist (resolveOne P ns name version).
Proof.
  unfold resolveOne. apply obeys_xbind.
  assert (forall h (o : option Toolchain), Calls.obeys (may_render run) any_answer (fun h r => match r with Ok res => resolved_from h res | Err _ => True end) h
    (let* r := call (GetToolchain catalogNS name) in let! catalog := ret (optional "Toolchain" catalogNS name r) in ret (pin P ns name version o catalog))) as Hread.
  { intros h o. cbn -[pin]. split; [done|]. intros r _. destruct r as [c| |]; cbn [optional]; unfold xbind; cbn -[pin]; [| |done].
    - destruct (pin P ns name version o (Some c)) as [res|] eqn:E; [|done]. apply pin_within in E as (<- & _ & c' & [= <-] & Hw).
      exists c. split; [apply answered_last|done].
    - destruct (pin P ns name version o None) as [res|] eqn:E; [|done]. by apply pin_within in E as (_ & _ & c' & ? & _). }
  unfold read_override. destruct (_ && _); [|apply Hread]. cbn -[WithDefaults pin]. split; [done|]. intros [] _; cbn [optional]; [apply Hread|apply Hread|done].
Qed.

Lemma resolve_all_ok run hist ns pins :
  Calls.obeys (may_render run) any_answer (fun h r => match r with Ok l => Forall (resolved_from h) l | Err _ => True end) hist (resolve_all P ns pins).
Proof.
  revert hist. induction pins as [|[name version] pins IH]; intros hist; cbn [resolve_all]; [constructor|].
  apply obeys_xbind. eapply obeys_weaken; [apply resolveOne_ok|]. intros h [res|] _ Hres; [|done].
  apply obeys_xbind. eapply obeys_weaken; [apply IH|]. intros h' [l|] Hp Hl; [|done]. constructor; [|done]. by eapply resolved_prefix.
Qed.

Lemma ResolveRefs_ok run hist ns refs :
  Calls.obeys (may_render run) any_answer (fun h r => match r with Ok l => Forall (resolved_from h) l | Err _ => True end) hist (ResolveRefs sort_slice P ns refs).
Proof.
  unfold ResolveRefs. destruct (pins_of refs ∅) as [pins|]; [|done]. apply obeys_xbind. eapply obeys_weaken; [apply resolve_all_ok|].
  intros h [l|] _ Hl; [|done]. cbn. by rewrite sort_perm.
Qed.

Lemma rule_sets_ok hist resolved nss css : Forall (resolved_from hist) resolved -> rule_sets P resolved = Ok (nss, css) ->
  (forall s r, s ∈ nss -> r ∈ s -> from_catalog hist false r) /\ (forall s r, s ∈ css -> r ∈ s -> AllowClusterScope P = true /\ from_catalog hist true r).
Proof.
  revert nss css. induction resolved as [|res l IH]; intros nss css Hf; cbn.
  { intros [= <- <-]. split; by intros s r ?%not_elem_of_nil. }
  apply Forall_cons in Hf as [(c & Hc & _ & Hb) Hf]. destruct (rs_RBAC res) as [rb|]; [|by apply IH]. destruct (Hb rb eq_refl) as (base & Ebase & Hin & Hsc).
  assert (forall cluster r, r ∈ rb_Rules rb -> (cluster = true -> rb_Scope rb = ToolchainRBACScopeCluster) -> from_catalog hist cluster r) as Hr.
  { intros cluster r Hrin Hs. destruct (Hin r Hrin) as (b & Hbin & Hcov). exists (rs_Name res), c, base, b. split_and!; [done..|auto|].
    intros m q. by apply covered_allows. }
  case_bool_decide; [by apply IH|]. case_bool_decide as Hscope.
  - destruct (AllowClusterScope (WithDefaults P)) eqn:Ea; [|done]. cbn. destruct (rule_sets P l) as [[nss' css']|]; [|done]. intros [= <- <-].
    destruct (IH nss' css' Hf eq_refl) as [H1 H2]. split; [done|]. intros s r [->|Hs]%elem_of_cons Hrs; [|by eapply H2].
    split; [|by apply Hr]. unfold WithDefaults in Ea. by case_bool_decide.
  - destruct (rule_sets P l) as [[nss' css']|]; [|done]. intros [= <- <-].
    destruct (IH nss' css' Hf eq_refl) as [H1 H2]. split; [|done]. intros s r [->|Hs]%elem_of_cons Hrs; [by apply Hr|by eapply H1].
Qed.

(** The grant that is recorded names what was pinned. *)
Definition recorded (hist : list (Event Call)) (g : ToolchainRBACGrant) : Prop :=
  forall x, x ∈ gr_Toolchains g -> exists c v, in_catalog hist (rt_Name x) c /\ v ∈ tc_Versions c /\ tv_Version v = rt_Version x /\ tv_Image v = rt_Image x.

Lemma Ensure_ok run : Calls.obeys (may_render run) any_answer
  (fun h r => match r with Ok (Some g) => recorded h g | _ => True end) [] (Ensure sort_slice P run).
Proof.
  unfold Ensure, RefsForRun. apply obeys_xbind. eapply obeys_weaken; [apply agents_reads|]. intros h [reqs|] _ _; [|done].
  case_bool_decide; [done|]. apply obeys_xbind. eapply obeys_weaken; [apply ResolveRefs_ok|]. intros h1 [l|] _ Hl; [|done].
  destruct (rule_sets P l) as [[nss css]|] eqn:Es; [|done]. cbn. destruct (rule_sets_ok _ _ _ _ Hl Es) as [Hn Hc].
  destruct (union_rules_spec nss) as (_ & Un & _). destruct (union_rules_spec css) as (_ & Uc & _).
  assert (forall h2, h1 `prefix_of` h2 -> forall a b c, recorded h2 {| gr_Toolchains := granted_ref <$> l; gr_RoleRef := a; gr_ClusterRoleRef := b; gr_Rules := c |}) as Hrec.
  { intros h2 Hp a b c x (res & -> & Hres)%list_elem_of_fmap. rewrite Forall_forall in Hl. destruct (Hl res Hres) as (c' & Hin & (v & ? & ? & ?) & _).
    exists c', v. split; [by eapply answered_prefix|done]. }
  assert (forall h2 a, h1 `prefix_of` h2 -> Calls.obeys (may_render run) any_answer (fun h r => match r with Ok (Some g) => recorded h g | _ => True end) h2
    (let! clusterRoleRef := when_rules (UnionRules css) (ensureClusterScoped run (UnionRules css)) in
     done_ (Some {| gr_Toolchains := granted_ref <$> l; gr_RoleRef := a; gr_ClusterRoleRef := clusterRoleRef; gr_Rules := UnionRules nss ++ UnionRules css |}))) as Hcl.
  { intros h2 a Hp. destruct (UnionRules css) as [|r0 rs] eqn:Eu; cbn; [by apply Hrec|].
    assert (AllowClusterScope P = true) as Ha by (destruct (Uc r0) as (s & Hs & Hr); [by left|by eapply (Hc s r0)]).
    split; [split_and!; [done|done|]|].
    - intros r Hr. destruct (Uc r Hr) as (s & Hs & Hrs). destruct (Hc s r Hs Hrs) as [_ (n & c & base & b & Hi & Hrest)].
      exists n, c, base, b. split; [by eapply answered_prefix|done].
    - intros [] _; cbn; [|done]. split; [done|]. intros [] _; cbn; [|done]. apply Hrec. etrans; [exact Hp|]. by do 2 eapply prefix_app_r. }
  apply obeys_xbind. destruct (UnionRules nss) as [|r0 rs] eqn:Eu; [by apply Hcl|].
  cbn -[UnionRules]. split; [split_and!; [done..|]|].
  - intros r Hr. destruct (Un r Hr) as (s & Hs & Hrs). by eapply Hn.
  - intros [] _; cbn -[UnionRules]; [|done]. split; [done|]. intros [] _; cbn -[UnionRules]; [|done]. apply Hcl. by do 2 eapply prefix_app_r.
Qed.

Lemma rendered_ok {W} (h : forall X, Call X -> W -> X -> W -> Prop) run w t a w' :
  runs h (Ensure sort_slice P run) w t a w' ->
  trace_ok (may_render run) any_answer [] t /\ match a with Ok (Some g) => recorded t g | _ => True end.
Proof.
  intros Hr. eapply (obeys_runs (may_render run) any_answer h (fun _ _ => True)) in Hr as (_ & Ht & Hp); [exact (conj Ht Hp)|done|apply Ensure_ok|done].
Qed.

Lemma rendered_at {W} (h : forall X, Call X -> W -> X -> W -> Prop) run w t1 X (c : Call X) x t2 a w' :
  runs h (Ensure sort_slice P run) w (t1 ++ Ev c x :: t2) a w' -> may_render run t1 X c.
Proof. intros [Ht _]%rendered_ok. by apply trace_ok_at in Ht as [? _]. Qed.

(** C18: A Run's agents get no permission its cluster catalog does not give. Whatever
    the API server answers, every rule of the Role that is written comes from a rule of
    a catalog entry, under every reading of rules it allows no request that one does
    not, and the Role is the Run's, in its namespace, bound to its service account; a
    ClusterRole needs the opt-in of the platform and a catalog entry of cluster scope;
    and the grant on record pins the images of the catalog. *)
Theorem rbac_within_catalog {W} (h : forall X, Call X -> W -> X -> W -> Prop) run w t a w' :
  runs h (Ensure sort_slice P run) w t a w' ->
  (forall t1 ns name owner rules ok t2, t = t1 ++ Ev (PutRole ns name owner rules) ok :: t2 ->
     ns = rn_ns run /\ owner = owner_of run /\ forall r, r ∈ rules -> from_catalog t1 false r) /\
  (forall t1 name owner rules ok t2, t = t1 ++ Ev (PutClusterRole name owner rules) ok :: t2 ->
     AllowClusterScope P = true /\ owner = owner_of run /\ forall r, r ∈ rules -> from_catalog t1 true r) /\
  (forall t1 ns name owner subject role ok t2, t = t1 ++ Ev (PutRoleBinding ns name owner subject role) ok :: t2 ->
     ns = rn_ns run /\ subject = subject_of run /\ role = name) /\
  (forall g, a = Ok (Some g) -> recorded t g).
Proof.
  intros Hr. split_and!.
  - intros t1 ns name owner rules ok t2 ->. by destruct (rendered_at _ _ _ _ _ _ _ _ _ _ Hr) as (? & _ & ? & ?).
  - intros t1 name owner rules ok t2 ->. exact (rendered_at _ _ _ _ _ _ _ _ _ _ Hr).
  - intros t1 ns name owner subject role ok t2 ->. by destruct (rendered_at _ _ _ _ _ _ _ _ _ _ Hr) as (? & _ & ? & ?).
  - intros g ->. by apply rendered_ok in Hr as [_ ?].
Qed.

(** A rendering withdraws nothing: a Role whose rules are no longer demanded stays. *)
Lemma never_withdraws {W} (h : forall X, Call X -> W -> X -> W -> Prop) run w t a w' :
  runs h (Ensure sort_slice P run) w t a w' ->
  forall ns name ok, Ev (DeleteRole ns name) ok ∉ t /\ Ev (DeleteRoleBinding ns name) ok ∉ t.
Proof.
  intros Hr ns name ok. split; intros (t1 & t2 & ->)%list_elem_of_split; exact (rendered_at _ _ _ _ _ _ _ _ _ _ Hr).
Qed.
End rendered.

(** * What the code does otherwise than it says *)

Definition rule (verbs groups resources names urls : list string) : PolicyRule :=
  {| Verbs := verbs; APIGroups := groups; Resources := resources; ResourceNames := names; NonResourceURLs := urls |}.

(** Names are matched as they are, and no names are all names. *)
Definition by_name (empty : bool) : Meaning := {| entry := String.eqb; empty_grants := empty |}.
Definition plain : Meanings :=
  {| m_verb := by_name false; m_group := by_name false; m_resource := by_name false; m_name := by_name true; m_url := by_name false |}.

(** The keys of a rule for all names and of one for the name [*] are the same: the union
    drops the second, though it grants more. *)
Lemma union_drops_the_broader :
  let narrow := rule ["get"] [""] ["secrets"] ["*"] [] in
  let broad := rule ["get"] [""] ["secrets"] [] [] in
  let q := OfResource "get" "" "secrets" "db" in
  UnionRules [[narrow]; [broad]] = [narrow] /\ allows plain broad q = true /\ allows plain narrow q = false.
Proof. vm_compute. done. Qed.

(** A rule for one name is not covered by the same rule for all names. *)
Lemma universe_covers_nothing : RuleCoveredBy (rule ["get"] [""] ["secrets"] ["db"] []) [rule ["get"] [""] ["secrets"] [] []] = false.
Proof. vm_compute. done. Qed.

Definition run_of (ns name : string) : Run :=
  {| rn_ns := ns; rn_name := name; rn_UID := "u"; rn_OwnedBy := ""; rn_TeamRef := {| ref_ns := ""; ref_name := "team" |};
     rn_Agents := [{| ref_ns := ""; ref_name := "dev" |}]; rn_Labels := ∅; rn_Manifest := None |}.

(** Two Runs of two namespaces share one ClusterRole. *)
Lemma cluster_names_collide : runClusterObjectName (run_of "a" "b-c") = runClusterObjectName (run_of "a-b" "c").
Proof. vm_compute. done. Qed.

(** * A narrowed tool *)

Module Kubectl.
Definition image : ToolchainVersion := {| tv_Version := "1.31"; tv_Image := "kubectl:1.31"; tv_Provides := ["kubectl"] |}.
Definition read_pods : PolicyRule := rule ["get"] [""] ["pods"] [] [].
Definition write_pods : PolicyRule := rule ["get"; "delete"] [""] ["pods"] [] [].
Definition entry_of (ns : string) (r : PolicyRule) : Toolchain :=
  {| tc_ns := ns; tc_name := "kubectl"; tc_Versions := [image]; tc_RBAC := Some {| rb_Scope := ""; rb_Rules := [r] |} |}.
Definition skill : Skill :=
  {| sk_ns := "squad"; sk_SourceType := "inline"; sk_Inline := "body"; sk_Git := None; sk_Permissions := []; sk_CredentialType := "";
     sk_McpToolRefs := []; sk_Toolchains := ["kubectl@1.31"]; sk_Sidecars := [] |}.
Definition ask X (c : Call X) : X :=
  match c in Call X return X with
  | GetTeam _ _ => NotFound
  | GetAgent _ _ => Found {| ag_ns := "squad"; ag_SkillRefs := [{| ref_ns := ""; ref_name := "ops" |}]; ag_RoleRef := {| ref_ns := ""; ref_name := "" |} |}
  | GetRole _ _ => NotFound
  | GetSkill _ _ => Found skill
  | GetToolchain ns _ => Found (if bool_decide (ns = "squad") then entry_of ns read_pods else entry_of ns write_pods)
  | GetMCPServer _ _ => NotFound | GetEgressPolicy _ _ => NotFound | GetSecret _ _ => NotFound | GetConfigMap _ _ => NotFound
  | ListSkillConfigMaps _ _ => Some []
  | PutRole _ _ _ _ => true | PutRoleBinding _ _ _ _ _ => true | PutClusterRole _ _ _ => true | PutClusterRoleBinding _ _ _ _ => true
  | DeleteRole _ _ => true | DeleteRoleBinding _ _ => true | DeleteClusterRole _ => true | DeleteClusterRoleBinding _ => true
  | DeleteConfigMap _ _ => true | CreateConfigMap _ _ _ => true | UpdateConfigMap _ _ _ => true
  | CreateSecret _ _ _ => Created | Mint _ => None
  end.
Definition sorted A (key : A -> string) (l : list A) : list A := merge_sort (fun a b => String.le (key a) (key b)) l.
Definition platform : PlatformConfig := {| ClusterCatalogNamespace := ""; AllowClusterScope := false |}.
Definition run : Run := run_of "squad" "r1".
Definition t : list (Event Call) := trace ask (Ensure sorted platform run).

Lemma sorted_perm A (key : A -> string) l : sorted A key l ≡ₚ l.
Proof. apply merge_sort_Permutation. Qed.
End Kubectl.

Lemma rbac_within_catalog_witness :
  Kubectl.t !! 4%nat = Some (Ev (PutRole "squad" "ksquad-run-r1" (owner_of Kubectl.run) [Kubectl.read_pods]) true) /\
  from_catalog Kubectl.platform (take 4 Kubectl.t) false Kubectl.read_pods.
Proof.
  split; [vm_compute; reflexivity|].
  destruct (rbac_within_catalog Kubectl.sorted Kubectl.platform Kubectl.sorted_perm (asked Kubectl.ask) Kubectl.run tt Kubectl.t _ tt (runs_exec Kubectl.ask _)) as (H & _).
  destruct (H (take 4 Kubectl.t) "squad" "ksquad-run-r1" (owner_of Kubectl.run) [Kubectl.read_pods] true (drop 5 Kubectl.t)) as (_ & _ & Hr); [vm_compute; reflexivity|].
  apply Hr. by left.
Defined.
