(* ===== verification/Capability.v ===== *)
(** The capability envelope of a Run: what its agents' skills demand
    (src/pkg/capability/requirements.go), which capabilities they are granted
    (grant.go), the MCP servers they are wired to (mcp.go, egress.go), the manifest that
    records it (manifest.go), the documents projected for it (render.go), and the
    assembler that puts these together and mints the tokens of the built-in servers
    (src/pkg/controller/run/assembly.go). *)
From Stdlib Require Import Ascii.
From S2P Require Import Prelude GoStr Calls Objects Toolchain.
Open Scope k8s_scope.

Definition CapabilityWorkItemAuthor : string := "work_item.author".
Definition CapabilityCoordinatorPropose : string := "coordinator.propose".
Definition CapabilityDiscussion : string := "discussion".
Definition CapabilityCoordinator : string := "coordinator".
Definition CapabilitySearch : string := "work_item.search".
Definition CoordinatorModePropose : string := "propose".
Definition authoringMCPServerName : string := "ksquad-memory-authoring".
Definition discussionMCPServerName : string := "ksquad-memory-discussion".
Definition searchMCPServerName : string := "ksquad-memory-search".
Definition LabelWorkItemSource : string := "ksquad.io/work-item-source".
Definition MCPTransportStdio : string := "stdio".
Definition MCPTransportStreamableHTTP : string := "streamable-http".
Definition MCPServerConditionEgressAllowed : string := "EgressAllowed".
Definition ConditionFalse : string := "False".
Definition SkillSourceInline : string := "inline".

(** * The demand *)

Record Requirements : Set := {
  ToolchainRefs : list string; ToolchainSources : gmap string string; MCPRefs : list ObjectRef; MCPSources : gmap string string;
  Sidecars : list string; Skills : list GrantedSkill }.
Definition no_demand : Requirements :=
  {| ToolchainRefs := []; ToolchainSources := ∅; MCPRefs := []; MCPSources := ∅; Sidecars := []; Skills := [] |}.

Definition grant_skill (ns name : string) (skill : Skill) (r : Requirements) : Requirements :=
  {| ToolchainRefs := ToolchainRefs r; ToolchainSources := ToolchainSources r; MCPRefs := MCPRefs r; MCPSources := MCPSources r; Sidecars := Sidecars r;
     Skills := Skills r ++ [{| gs_ns := ns; gs_name := name; gs_SourceType := sk_SourceType skill; gs_Inline := sk_Inline skill; gs_Git := sk_Git skill;
                               gs_Permissions := sk_Permissions skill; gs_CredentialType := sk_CredentialType skill |}] |}.

Definition add_toolchain (skillKey : string) (r : Requirements) (ref : string) : Requirements :=
  match ToolchainSources r !! ref with
  | Some _ => r
  | None => {| ToolchainRefs := ToolchainRefs r ++ [ref]; ToolchainSources := <[ref := skillKey]> (ToolchainSources r); MCPRefs := MCPRefs r;
               MCPSources := MCPSources r; Sidecars := Sidecars r; Skills := Skills r |}
  end.

Definition mcpKey (ref : ObjectRef) (defaultNS : string) : string := or_ns (ref_ns ref) defaultNS +:+ "/" +:+ ref_name ref.

Definition add_mcp (skillKey skillNS : string) (r : Requirements) (ref : ObjectRef) : Requirements :=
  match MCPSources r !! mcpKey ref skillNS with
  | Some _ => r
  | None => {| ToolchainRefs := ToolchainRefs r; ToolchainSources := ToolchainSources r; MCPRefs := MCPRefs r ++ [ref];
               MCPSources := <[mcpKey ref skillNS := skillKey]> (MCPSources r); Sidecars := Sidecars r; Skills := Skills r |}
  end.

Definition add_sidecar (r : Requirements) (s : string) : Requirements :=
  if bool_decide (s ∈ Sidecars r) then r
  else {| ToolchainRefs := ToolchainRefs r; ToolchainSources := ToolchainSources r; MCPRefs := MCPRefs r; MCPSources := MCPSources r;
          Sidecars := Sidecars r ++ [s]; Skills := Skills r |}.

(** What one skill adds. *)
Definition add_skill (ns name : string) (skill : Skill) (r : Requirements) : Requirements :=
  let key := ns +:+ "/" +:+ name in
  foldl add_sidecar (foldl (add_mcp key (sk_ns skill)) (foldl (add_toolchain key) (grant_skill ns name skill r) (sk_Toolchains skill)) (sk_McpToolRefs skill))
    (sk_Sidecars skill).

Fixpoint collect_skills (agentNS : string) (skillRefs : list ObjectRef) (seen : gset string) (reqs : Requirements)
    : Prog (result Error (gset string * Requirements)) :=
  match skillRefs with
  | [] => done_ (seen, reqs)
  | skillRef :: skillRefs =>
      let skillNS := or_ns (ref_ns skillRef) agentNS in
      let skillKey := skillNS +:+ "/" +:+ ref_name skillRef in
      if bool_decide (skillKey ∈ seen) then collect_skills agentNS skillRefs seen reqs
      else
        let* r := call (GetSkill skillNS (ref_name skillRef)) in
        let! skill := ret (optional "Skill" skillNS (ref_name skillRef) r) in
        match skill with
        | None => collect_skills agentNS skillRefs seen reqs
        | Some skill => collect_skills agentNS skillRefs ({[skillKey]} ∪ seen) (add_skill skillNS (ref_name skillRef) skill reqs)
        end
  end.

Fixpoint collect_agents (runNS : string) (agents : list ObjectRef) (seen : gset string) (reqs : Requirements) : Prog (result Error Requirements) :=
  match agents with
  | [] => done_ reqs
  | agentRef :: agents =>
      let ns := or_ns (ref_ns agentRef) runNS in
      let* r := call (GetAgent ns (ref_name agentRef)) in
      let! agent := ret (optional "Agent" ns (ref_name agentRef) r) in
      match agent with
      | None => collect_agents runNS agents seen reqs
      | Some agent =>
          let! skillRefs := agent_skills agent in
          let! (seen, reqs) := collect_skills (ag_ns agent) skillRefs seen reqs in
          collect_agents runNS agents seen reqs
      end
  end.

Definition Collect (run : Run) : Prog (result Error Requirements) := collect_agents (rn_ns run) (rn_Agents run) ∅ no_demand.

(** * The grant *)

Notation GrantSet := (gset string).
Definition Has (g : GrantSet) (capability : string) : bool := bool_decide (capability ∈ g).
Definition List (g : GrantSet) : list string := merge_sort String.le (elements g).

Definition coordinatorRole (agent : Agent) : Prog (result Error (bool * string)) :=
  if bool_decide (ref_name (ag_RoleRef agent) = "") then done_ (false, "")
  else
    let ns := or_ns (ref_ns (ag_RoleRef agent)) (ag_ns agent) in
    let* r := call (GetRole ns (ref_name (ag_RoleRef agent))) in
    ret (match r with
         | Found role => Ok (rl_Coordinator role, rl_CoordinatorMode role)
         | NotFound => Ok (false, "")
         | ReadError => Err (ReadFailed "Role" ns (ref_name (ag_RoleRef agent)))
         end).

(** The Team's grants by role; a repeated role keeps its last. *)
Definition byRole (grants : list (string * list string)) : gmap string (list string) :=
  foldl (fun m g => if bool_decide (g.1 = "") then m else <[g.1 := g.2]> m) ∅ grants.

Definition team_caps (m : gmap string (list string)) (role : string) : gset string :=
  list_to_set (filter (fun c => c <> "") (default [] (m !! role))).

Definition coordinator_caps (coordinator : bool) (mode : string) : gset string :=
  if coordinator then {[CapabilityWorkItemAuthor]} ∪ (if bool_decide (mode = CoordinatorModePropose) then {[CapabilityCoordinatorPropose]} else ∅) else ∅.

Fixpoint grant_agents (runNS : string) (m : gmap string (list string)) (agents : list ObjectRef) (caps : gset string) : Prog (result Error GrantSet) :=
  match agents with
  | [] => done_ caps
  | agentRef :: agents =>
      let ns := or_ns (ref_ns agentRef) runNS in
      let* r := call (GetAgent ns (ref_name agentRef)) in
      let! agent := ret (optional "Agent" ns (ref_name agentRef) r) in
      match agent with
      | None => grant_agents runNS m agents caps
      | Some agent =>
          if bool_decide (ref_name (ag_RoleRef agent) = "") then grant_agents runNS m agents caps
          else
            let! (coordinator, mode) := coordinatorRole agent in
            grant_agents runNS m agents (caps ∪ team_caps m (ref_name (ag_RoleRef agent)) ∪ coordinator_caps coordinator mode)
      end
  end.

Definition ResolveGrant (run : Run) : Prog (result Error GrantSet) :=
  let teamNS := or_ns (ref_ns (rn_TeamRef run)) (rn_ns run) in
  let* r := call (GetTeam teamNS (ref_name (rn_TeamRef run))) in
  let! team := ret (optional "Team" teamNS (ref_name (rn_TeamRef run)) r) in
  grant_agents (rn_ns run) (match team with Some team => byRole (tm_Grants team) | None => ∅ end) (rn_Agents run) ∅.

Fixpoint any_coordinator (runNS : string) (agents : list ObjectRef) : Prog (result Error bool) :=
  match agents with
  | [] => done_ false
  | agentRef :: agents =>
      let ns := or_ns (ref_ns agentRef) runNS in
      let* r := call (GetAgent ns (ref_name agentRef)) in
      let! agent := ret (optional "Agent" ns (ref_name agentRef) r) in
      match agent with
      | None => any_coordinator runNS agents
      | Some agent =>
          let! (coordinator, _) := coordinatorRole agent in
          if coordinator : bool then done_ true else any_coordinator runNS agents
      end
  end.
Definition RunHasCoordinatorAgent (run : Run) : Prog (result Error bool) := any_coordinator (rn_ns run) (rn_Agents run).

(** * MCP servers *)

(** The replaced bytes, and the upper case of a name of ASCII. *)
Definition env_char (c : ascii) : ascii :=
  if Ascii.eqb c "-" || Ascii.eqb c "." || Ascii.eqb c "/" then "_"%char
  else let n := nat_of_ascii c in if ((97 <=? n) && (n <=? 122))%nat then ascii_of_nat (n - 32) else c.
Definition CredentialEnvName (serverName : string) : string :=
  "KSQUAD_MCP_" +:+ String.string_of_list_ascii (env_char <$> String.list_ascii_of_string serverName) +:+ "_TOKEN".

Section capability.
(** path.Match, [None] for a malformed pattern; sort.Slice; the hash of a manifest and
    the permissions document of a skill; and whether there is a minter. *)
Context (path_Match : string -> string -> option bool) (sort_slice : forall A, (A -> string) -> list A -> list A).
Context (sha256_json : CapabilityManifest -> string) (permissions_json : list string -> string).
Context (Platform : PlatformConfig) (Minter : bool).

Definition ContainsAny (s : string) (chars : list ascii) : bool := existsb (fun c => bool_decide (c ∈ chars)) (String.list_ascii_of_string s).

Definition globMatch (glob tool : string) : bool :=
  if bool_decide (glob = "*") then true
  else if negb (ContainsAny glob ["*"; "?"; "["]%char) then bool_decide (glob = tool)
  else default false (path_Match glob tool).

Definition allowGlobs (f : option ToolFilter) : list string := match f with Some f => tf_Allow f | None => [] end.
Definition denyGlobs (f : option ToolFilter) : list string := match f with Some f => tf_Deny f | None => [] end.

Definition allowSet (f : option ToolFilter) (observed : list string) : list string :=
  match allowGlobs f with
  | [] => observed
  | globs => filter (fun tool => existsb (fun glob => globMatch glob tool) globs = true) observed
  end.
Definition subtractGlobs (tools deny : list string) : list string :=
  filter (fun tool => existsb (fun glob => globMatch glob tool) deny = false) tools.

Definition endpointFor (server : MCPServer) : result MCPReason Endpoint :=
  if bool_decide (ms_ObservedTools server = []) then Err NothingObserved
  else
    let checked :=
      if bool_decide (ms_Transport server = MCPTransportStdio) then if bool_decide (ms_Command server = "") then Err NoCommand else Ok tt
      else if bool_decide (ms_Transport server = MCPTransportStreamableHTTP) then if bool_decide (ms_Endpoint server = "") then Err NoEndpoint else Ok tt
      else Err (BadTransport (ms_Transport server)) in
    let? _ := checked in
    let deny := denyGlobs (ms_ToolFilter server) in
    let allowed := subtractGlobs (allowSet (ms_ToolFilter server) (ms_ObservedTools server)) deny in
    if bool_decide (allowed = []) then Err NothingAllowed
    else Ok {| ep_Name := ms_name server; ep_Transport := ms_Transport server; ep_URL := ms_Endpoint server; ep_Command := ms_Command server;
               ep_Args := ms_Args server; ep_Image := ms_Image server;
               ep_EnvNames := match ms_CredentialSecretRef server with
                              | Some ref => if bool_decide (sr_name ref = "") then [] else [CredentialEnvName (ms_name server)]
                              | None => [] end;
               ep_Headers := ms_Headers server; ep_AllowTools := allowed; ep_DenyTools := deny;
               ep_CredentialSecretRef := ms_CredentialSecretRef server; ep_EgressPolicyRef := ms_EgressRef server |}.

Notation Wired := (list (Endpoint * MCPServer)).

Definition sourced (reqs : Requirements) (key : string) (server : MCPServer) : result Error (Endpoint * MCPServer) :=
  match endpointFor server with
  | Ok ep => Ok (ep, server)
  | Err r => Err (MCPError key (default "" (MCPSources reqs !! key)) r)
  end.

Fixpoint resolve_refs (runNS : string) (reqs : Requirements) (refs : list ObjectRef) : Prog (result Error Wired) :=
  match refs with
  | [] => done_ []
  | ref :: refs =>
      let ns := or_ns (ref_ns ref) runNS in
      let key := ns +:+ "/" +:+ ref_name ref in
      let* r := call (GetMCPServer ns (ref_name ref)) in
      let! server := ret (match r with
                          | Found server => Ok server
                          | NotFound => Err (MCPError key (default "" (MCPSources reqs !! key)) NoServer)
                          | ReadError => Err (ReadFailed "MCPServer" ns (ref_name ref)) end) in
      let! w := ret (sourced reqs key server) in
      let! rest := resolve_refs runNS reqs refs in
      done_ (w :: rest)
  end.

(** A built-in server, unless one of its name is wired; [closed] is whether its absence
    refuses the Run. *)
Definition injectBuiltIn (closed : bool) (name : string) (run : Run) (reqs : Requirements) (wired : Wired) : Prog (result Error Wired) :=
  if existsb (fun w => bool_decide (ep_Name w.1 = name)) wired then done_ wired
  else
    let key := rn_ns run +:+ "/" +:+ name in
    let* r := call (GetMCPServer (rn_ns run) name) in
    ret (match r with
         | ReadError => Err (ReadFailed "MCPServer" (rn_ns run) name)
         | NotFound => if closed then Err (MCPError key "" NoBuiltIn) else Ok wired
         | Found server =>
             match sourced reqs key server with
             | Ok w => Ok (wired ++ [w])
             | Err e => if closed then Err e else Ok wired
             end
         end).
Definition injectAuthoringEndpoint := injectBuiltIn true authoringMCPServerName.
Definition injectDiscussionEndpoint := injectBuiltIn true discussionMCPServerName.
Definition injectSearchEndpoint := injectBuiltIn false searchMCPServerName.

Definition isDiscussionRun (run : Run) : bool := bool_decide (rn_Labels run !! LabelWorkItemSource = Some "discussion").

Definition ResolveMCP (run : Run) (reqs : Requirements) (grants : GrantSet) : Prog (result Error (list Endpoint * list MCPServer)) :=
  let! wired := resolve_refs (rn_ns run) reqs (MCPRefs reqs) in
  let! wired := if Has grants CapabilityWorkItemAuthor then injectAuthoringEndpoint run reqs wired else done_ wired in
  let! wired := if isDiscussionRun run then injectDiscussionEndpoint run reqs wired else done_ wired in
  let! wired := injectSearchEndpoint run reqs wired in
  done_ (sort_slice Endpoint ep_Name wired.*1, sort_slice MCPServer ms_name wired.*2).

(** ** Egress *)

Definition CheckEgress (server : MCPServer) : Prog (result Error unit) :=
  if bool_decide (ms_Transport server = MCPTransportStdio) then done_ tt
  else match ms_EgressRef server with
       | None => done_ tt
       | Some ref =>
           if bool_decide (ref_name ref = "") then done_ tt
           else
             let ns := or_ns (ref_ns ref) (ms_ns server) in
             let server_key := ms_ns server +:+ "/" +:+ ms_name server in
             let policy := ns +:+ "/" +:+ ref_name ref in
             let* r := call (GetEgressPolicy ns (ref_name ref)) in
             ret (match r with
                  | NotFound => Err (EgressMissing server_key policy)
                  | ReadError => Err (ReadFailed "EgressPolicy" ns (ref_name ref))
                  | Found _ =>
                      match list_find (fun c => cd_Type c = MCPServerConditionEgressAllowed) (ms_Conditions server) with
                      | Some (_, c) => if bool_decide (cd_Status c = ConditionFalse) then Err (EgressDenied server_key policy (cd_Message c)) else Ok tt
                      | None => Ok tt
                      end
                  end)
       end.

Fixpoint CheckEgressAll (servers : list MCPServer) : Prog (result Error unit) :=
  match servers with [] => done_ tt | s :: servers => let! _ := CheckEgress s in CheckEgressAll servers end.

(** * The manifest *)

Definition manifest_toolchain (res : Resolved) : ResolvedToolchainRef :=
  {| rt_Name := rs_Name res; rt_Version := rs_Version res; rt_Image := rs_Image res; rt_SourceNamespace := rs_SourceNamespace res; rt_Provides := rs_Provides res |}.
Definition manifest_endpoint (ep : Endpoint) : ResolvedMCPEndpoint :=
  {| re_Name := ep_Name ep; re_Transport := ep_Transport ep; re_URL := ep_URL ep; re_Headers := ep_Headers ep; re_Command := ep_Command ep; re_Args := ep_Args ep;
     re_Image := ep_Image ep; re_Sidecar := bool_decide (ep_Transport ep = MCPTransportStdio) && negb (bool_decide (ep_Image ep = ""));
     re_AllowTools := ep_AllowTools ep; re_DenyTools := ep_DenyTools ep; re_CredentialSecretRef := ep_CredentialSecretRef ep;
     re_EgressPolicyRef := ep_EgressPolicyRef ep |}.

(** The hash of the manifest with its own elided. *)
Definition HashManifest (m : CapabilityManifest) : string :=
  sha256_json {| mf_Toolchains := mf_Toolchains m; mf_MCPEndpoints := mf_MCPEndpoints m; mf_Skills := mf_Skills m; mf_CapabilityHash := "" |}.

Definition BuildManifest (resolved : list Resolved) (endpoints : list Endpoint) (skills : list GrantedSkill) : CapabilityManifest :=
  let m := {| mf_Toolchains := manifest_toolchain <$> resolved; mf_MCPEndpoints := manifest_endpoint <$> endpoints; mf_Skills := skills; mf_CapabilityHash := "" |} in
  {| mf_Toolchains := mf_Toolchains m; mf_MCPEndpoints := mf_MCPEndpoints m; mf_Skills := mf_Skills m; mf_CapabilityHash := HashManifest m |}.

Definition envNamesFor (ep : ResolvedMCPEndpoint) : list string :=
  match re_CredentialSecretRef ep with None => [] | Some _ => [CredentialEnvName (re_Name ep)] end.
Definition manifest_ir (ep : ResolvedMCPEndpoint) : Endpoint :=
  {| ep_Name := re_Name ep; ep_Transport := re_Transport ep; ep_URL := re_URL ep; ep_Command := re_Command ep; ep_Args := re_Args ep; ep_Image := re_Image ep;
     ep_EnvNames := envNamesFor ep; ep_Headers := re_Headers ep; ep_AllowTools := re_AllowTools ep; ep_DenyTools := re_DenyTools ep;
     ep_CredentialSecretRef := re_CredentialSecretRef ep; ep_EgressPolicyRef := re_EgressPolicyRef ep |}.
Definition EndpointsFromManifest (m : option CapabilityManifest) : list Endpoint :=
  match m with None => [] | Some m => manifest_ir <$> mf_MCPEndpoints m end.
Definition ToolchainsFromManifest (m : option CapabilityManifest) : list Resolved :=
  match m with
  | None => []
  | Some m => (fun tc => {| rs_Name := rt_Name tc; rs_Version := rt_Version tc; rs_Image := rt_Image tc; rs_Provides := rt_Provides tc;
                            rs_SourceNamespace := rt_SourceNamespace tc; rs_RBAC := None |}) <$> mf_Toolchains m
  end.
Definition IsBareEnvelope (m : option CapabilityManifest) : bool :=
  match m with
  | None => true
  | Some m => bool_decide (mf_Toolchains m = []) && bool_decide (mf_MCPEndpoints m = []) && bool_decide (mf_Skills m = [])
  end.

(** * Projected documents *)

Definition MCPConfigMapName (run : Run) : string := "ksquad-run-" +:+ rn_name run +:+ "-mcp".
Definition SkillsConfigMapName (run : Run) (skill : string) : string := "ksquad-run-" +:+ rn_name run +:+ "-skill-" +:+ skill.
Definition maxSkillConfigMapBytes : nat := 1024 * 1024.

(** Create or update. *)
Definition put_document (ns name : string) (doc : Document) : Prog (result Error unit) :=
  let* r := call (GetConfigMap ns name) in
  match r with
  | ReadError => fail (ReadFailed "ConfigMap" ns name)
  | NotFound => let* ok := call (CreateConfigMap ns name doc) in ret (wrote "ConfigMap" name ok)
  | Found _ => let* ok := call (UpdateConfigMap ns name doc) in ret (wrote "ConfigMap" name ok)
  end.

Definition EnsureMCPConfigMap (run : Run) (endpoints : list Endpoint) : Prog (result Error unit) :=
  match endpoints with
  | [] => let* ok := call (DeleteConfigMap (rn_ns run) (MCPConfigMapName run)) in ret (wrote "ConfigMap" (MCPConfigMapName run) ok)
  | _ => put_document (rn_ns run) (MCPConfigMapName run) (MCPDocument endpoints)
  end.

Definition InlineSkills (skills : list GrantedSkill) : list GrantedSkill := filter (fun s => gs_SourceType s = SkillSourceInline) skills.

Definition SkillConfigMapFor (run : Run) (skill : GrantedSkill) : result Error (string * Document) :=
  let name := SkillsConfigMapName run (gs_name skill) in
  if (253 <? String.length name)%nat then Err (NameTooLong name)
  else if (maxSkillConfigMapBytes <? String.length (gs_Inline skill) + String.length (permissions_json (gs_Permissions skill)))%nat
  then Err (SkillTooLarge (gs_name skill))
  else Ok (name, SkillDocument (gs_Inline skill) (gs_Permissions skill)).

Fixpoint put_skills (run : Run) (skills : list GrantedSkill) : Prog (result Error (list string)) :=
  match skills with
  | [] => done_ []
  | skill :: skills =>
      let! (name, doc) := ret (SkillConfigMapFor run skill) in
      let! _ := put_document (rn_ns run) name doc in
      let! names := put_skills run skills in
      done_ (name :: names)
  end.

Fixpoint sweep_documents (ns : string) (desired live : list string) : Prog (result Error unit) :=
  match live with
  | [] => done_ tt
  | name :: live =>
      if bool_decide (name ∈ desired) then sweep_documents ns desired live
      else
        let* ok := call (DeleteConfigMap ns name) in
        let! _ := ret (wrote "ConfigMap" name ok) in
        sweep_documents ns desired live
  end.

Definition EnsureSkillConfigMaps (run : Run) (skills : list GrantedSkill) : Prog (result Error unit) :=
  let! desired := put_skills run (InlineSkills skills) in
  let* r := call (ListSkillConfigMaps (rn_ns run) (rn_name run)) in
  match r with
  | None => fail (ReadFailed "ConfigMap" (rn_ns run) "")
  | Some live => sweep_documents (rn_ns run) desired live
  end.

(** * The assembler *)

Record ResolvedEnvelope : Set := {
  en_Requirements : Requirements; en_Toolchains : list Resolved; en_Endpoints : list Endpoint; en_Servers : list MCPServer;
  en_Manifest : CapabilityManifest; en_Grants : GrantSet }.

Definition authoringTokenSecretName (run : Run) : string := rn_name run +:+ "-authoring-token".
Definition discussionTokenSecretName (run : Run) : string := rn_name run +:+ "-discussion-token".
Definition searchTokenSecretName (run : Run) : string := rn_name run +:+ "-search-token".

(** The first endpoint of a name. *)
Definition endpoint_named (name : string) (eps : list Endpoint) : option Endpoint :=
  list_find (fun ep => ep_Name ep = name) eps ≫= fun ie => Some ie.2.

Definition bound (secret : string) (ep : Endpoint) : Endpoint :=
  {| ep_Name := ep_Name ep; ep_Transport := ep_Transport ep; ep_URL := ep_URL ep; ep_Command := ep_Command ep; ep_Args := ep_Args ep; ep_Image := ep_Image ep;
     ep_EnvNames := [CredentialEnvName (ep_Name ep)]; ep_Headers := ep_Headers ep; ep_AllowTools := ep_AllowTools ep; ep_DenyTools := ep_DenyTools ep;
     ep_CredentialSecretRef := Some {| sr_name := secret; sr_key := "" |}; ep_EgressPolicyRef := ep_EgressPolicyRef ep |}.

Fixpoint bind_first (name secret : string) (eps : list Endpoint) : list Endpoint :=
  match eps with
  | [] => []
  | ep :: eps => if bool_decide (ep_Name ep = name) then bound secret ep :: eps else ep :: bind_first name secret eps
  end.

(** A token goes to a dispatched agent. *)
Definition mints (run : Run) : bool := Minter && negb (bool_decide (rn_Agents run = [])).

Definition bindCredential (name secret : string) (run : Run) (eps : list Endpoint) : list Endpoint :=
  if mints run then bind_first name secret eps else eps.
Definition bindAuthoringCredential (run : Run) : list Endpoint -> list Endpoint := bindCredential authoringMCPServerName (authoringTokenSecretName run) run.
Definition bindDiscussionCredential (run : Run) : list Endpoint -> list Endpoint := bindCredential discussionMCPServerName (discussionTokenSecretName run) run.
Definition bindSearchCredential (run : Run) : list Endpoint -> list Endpoint := bindCredential searchMCPServerName (searchTokenSecretName run) run.

Definition Resolve (run : Run) : Prog (result Error ResolvedEnvelope) :=
  let! reqs := Collect run in
  let! resolved := ResolveRefs sort_slice (WithDefaults Platform) (rn_ns run) (ToolchainRefs reqs) in
  let! grants := ResolveGrant run in
  let! (endpoints, servers) := ResolveMCP run reqs grants in
  let! _ := CheckEgressAll servers in
  let endpoints := bindSearchCredential run (bindDiscussionCredential run (bindAuthoringCredential run endpoints)) in
  done_ {| en_Requirements := reqs; en_Toolchains := resolved; en_Endpoints := endpoints; en_Servers := servers;
           en_Manifest := BuildManifest resolved endpoints (Skills reqs); en_Grants := grants |}.

Definition teamTenancyUID (run : Run) : Prog (result Error string) :=
  let ns := or_ns (ref_ns (rn_TeamRef run)) (rn_ns run) in
  let* r := call (GetTeam ns (ref_name (rn_TeamRef run))) in
  ret (match r with
       | Found team => if bool_decide (tm_UID team = "") then Err (NoTeamUID (ref_name (rn_TeamRef run))) else Ok (tm_UID team)
       | _ => Err (ReadFailed "Team" ns (ref_name (rn_TeamRef run)))
       end).

(** The token of an endpoint's Secret, unless the Secret is there; [caps] reads what it
    may do. *)
Definition ensureToken (server : string) (caps : Prog (result Error (list string))) (run : Run) (eps : list Endpoint) : Prog (result Error unit) :=
  if negb (mints run) then done_ tt
  else match endpoint_named server eps ≫= ep_CredentialSecretRef with
       | None => done_ tt
       | Some ref =>
           if bool_decide (sr_name ref = "") then done_ tt
           else
             let* r := call (GetSecret (rn_ns run) (sr_name ref)) in
             match r with
             | Found _ => done_ tt
             | ReadError => fail (ReadFailed "Secret" (rn_ns run) (sr_name ref))
             | NotFound =>
                 let! teamUID := teamTenancyUID run in
                 let! caps := caps in
                 let* token := call (Mint {| cl_TeamID := teamUID; cl_Principal := rn_OwnedBy run;
                                             cl_AgentID := match rn_Agents run with a :: _ => ref_name a | [] => "" end;
                                             cl_RunID := rn_UID run; cl_Capabilities := caps |}) in
                 match token with
                 | None => fail MintFailed
                 | Some token =>
                     let* c := call (CreateSecret (rn_ns run) (sr_name ref) token) in
                     match c with CreateError => fail (WriteFailed "Secret" (sr_name ref)) | _ => done_ tt end
                 end
             end
       end.

Definition authoring_caps (run : Run) : Prog (result Error (list string)) :=
  let! grants := ResolveGrant run in
  done_ (CapabilityWorkItemAuthor :: if Has grants CapabilityCoordinatorPropose then [CapabilityCoordinatorPropose] else []).
Definition discussion_caps (run : Run) : Prog (result Error (list string)) :=
  let! coordinator := RunHasCoordinatorAgent run in
  done_ (CapabilityDiscussion :: if coordinator : bool then [CapabilityCoordinator] else []).

Definition ensureAuthoringToken (run : Run) : list Endpoint -> Prog (result Error unit) := ensureToken authoringMCPServerName (authoring_caps run) run.
Definition ensureDiscussionToken (run : Run) : list Endpoint -> Prog (result Error unit) := ensureToken discussionMCPServerName (discussion_caps run) run.
Definition ensureSearchToken (run : Run) : list Endpoint -> Prog (result Error unit) := ensureToken searchMCPServerName (done_ [CapabilitySearch]) run.

Definition inlineSkillsFromManifest (m : CapabilityManifest) : list GrantedSkill :=
  (fun s => {| gs_ns := gs_ns s; gs_name := gs_name s; gs_SourceType := gs_SourceType s; gs_Inline := gs_Inline s; gs_Git := None;
               gs_Permissions := gs_Permissions s; gs_CredentialType := "" |}) <$> InlineSkills (mf_Skills m).

(** What is converged to a manifest. *)
Definition project (run : Run) (endpoints : list Endpoint) (m : CapabilityManifest) : Prog (result Error CapabilityManifest) :=
  let! _ := EnsureMCPConfigMap run endpoints in
  let! _ := EnsureSkillConfigMaps run (inlineSkillsFromManifest m) in
  let! _ := ensureAuthoringToken run endpoints in
  let! _ := ensureDiscussionToken run endpoints in
  let! _ := ensureSearchToken run endpoints in
  done_ m.

Definition EnsureManifest (run : Run) : Prog (result Error CapabilityManifest) :=
  match rn_Manifest run with
  | Some m => project run (EndpointsFromManifest (Some m)) m
  | None => let! env := Resolve run in project run (en_Endpoints env) (en_Manifest env)
  end.

Definition ReleaseConfig (run : Run) : Prog (result Error unit) :=
  let! _ := EnsureMCPConfigMap run [] in EnsureSkillConfigMaps run [].
End capability.
