(* ===== verification/CapabilityProps.v ===== *)
(** What the capability envelope of a Run rests on: one demand for admission, RBAC and
    manifest; the grant exactly as the Team and its roles give it; tools within the
    filter of their server; and the authoring token only with the grant, short of a
    skill that names the built-in server. *)
From S2P Require Import Prelude GoStr Calls Objects Toolchain ToolchainProps Capability.
Open Scope k8s_scope.

(** * One demand *)

Definition same_demand (c : Requirements) (r : RunRequirements) : Prop := ToolchainRefs c = Refs r /\ ToolchainSources c = Sources r.

Lemma demand_step key c r ref : same_demand c r -> same_demand (add_toolchain key c ref) (demand key r ref).
Proof. intros [H1 H2]. unfold add_toolchain, demand. rewrite <- H2. destruct (ToolchainSources c !! ref); [done|]. split; cbn; congruence. Qed.

Lemma demand_fold key refs c r : same_demand c r -> same_demand (foldl (add_toolchain key) c refs) (foldl (demand key) r refs).
Proof. revert c r. induction refs as [|ref refs IH]; intros c r H; [done|]. by apply IH, demand_step. Qed.

(** Neither the servers nor the sidecars of a skill touch its toolchains. *)
Lemma foldl_keeps {A B C} (f : A -> B -> A) (g : A -> C) l a : (forall a b, g (f a b) = g a) -> g (foldl f a l) = g a.
Proof. intros H. revert a. induction l as [|b l IH]; intros a; [done|]. cbn. by rewrite IH, H. Qed.

Lemma add_mcp_toolchains key ns c ref : ToolchainRefs (add_mcp key ns c ref) = ToolchainRefs c /\ ToolchainSources (add_mcp key ns c ref) = ToolchainSources c.
Proof. unfold add_mcp. by destruct (MCPSources c !! _). Qed.

Lemma add_sidecar_toolchains c s : ToolchainRefs (add_sidecar c s) = ToolchainRefs c /\ ToolchainSources (add_sidecar c s) = ToolchainSources c.
Proof. unfold add_sidecar. by case_bool_decide. Qed.

Lemma demand_skill ns name skill c r : same_demand c r ->
  same_demand (add_skill ns name skill c) (foldl (demand (ns +:+ "/" +:+ name)) r (sk_Toolchains skill)).
Proof.
  intros H. unfold add_skill, same_demand.
  rewrite !(foldl_keeps add_sidecar) by apply add_sidecar_toolchains.
  rewrite (foldl_keeps (add_mcp _ _) ToolchainRefs) by apply add_mcp_toolchains. rewrite (foldl_keeps (add_mcp _ _) ToolchainSources) by apply add_mcp_toolchains.
  by apply demand_fold.
Qed.

Definition same_walk (x : gset string * Requirements) (y : gset string * RunRequirements) : Prop := x.1 = y.1 /\ same_demand x.2 y.2.

Lemma same_skills ns refs seen c r : same_demand c r ->
  same_calls (same_result same_walk) (collect_skills ns refs seen c) (skills_demand ns refs seen r).
Proof.
  revert seen c r. induction refs as [|ref refs IH]; intros seen c r H; [by constructor|]. cbn [collect_skills skills_demand]. case_bool_decide; [by apply IH|].
  apply same_do. intros [skill| |]; cbn [optional pbind]; rewrite !xbind_ret; [|by apply IH|by constructor]. by apply IH, demand_skill.
Qed.

Lemma same_agents ns agents seen c r : same_demand c r -> same_calls (same_result same_demand) (collect_agents ns agents seen c) (agents_demand ns agents seen r).
Proof.
  revert seen c r. induction agents as [|a agents IH]; intros seen c r H; [by constructor|]. cbn [collect_agents agents_demand].
  apply same_do. intros [agent| |]; cbn [optional pbind]; rewrite !xbind_ret; [|by apply IH|by constructor].
  apply (same_xbind eq).
  - assert (forall p : Prog (result Error (list ObjectRef)), same_calls (same_result eq) p p) as Hself by (induction p as [[]|]; by constructor). apply Hself.
  - intros refs ? <-. apply (same_xbind same_walk); [by apply same_skills|]. intros [seen1 c1] [seen2 r1] [E H1]. cbn in E. subst. by apply IH.
Qed.

Lemma same_run run : same_calls (same_result same_demand) (Collect run) (RefsForRun run).
Proof. by apply same_agents. Qed.

(** C21: Admission, the RBAC renderer and the manifest see one demand. The walk of the
    assembler and that of the toolchain resolver are two copies; whatever they are
    answered they make the same reads in the same order, fail on the same one, and end
    with the same toolchain references from the same skills. *)
Theorem one_demand {W} (h : forall X, Call X -> W -> X -> W -> Prop) run w t w' :
  (forall a, runs h (Collect run) w t a w' -> exists b, runs h (RefsForRun run) w t b w' /\ same_result same_demand a b) /\
  (forall b, runs h (RefsForRun run) w t b w' -> exists a, runs h (Collect run) w t a w' /\ same_result same_demand a b).
Proof.
  split; intros x Hr.
  - by eapply same_runs; [apply same_run|].
  - destruct (same_runs _ h _ _ w t x w' (same_flip _ _ _ (same_run run)) Hr) as (a & Ha & HR). by exists a.
Qed.

(** * The grant *)

Lemma byRole_app l g : byRole (l ++ [g]) = if bool_decide (g.1 = "") then byRole l else <[g.1 := g.2]> (byRole l).
Proof. unfold byRole. by rewrite foldl_app. Qed.

(** A role has the capabilities of its last grant. *)
Lemma byRole_spec grants role caps :
  byRole grants !! role = Some caps <-> role <> "" /\ exists l1 l2, grants = l1 ++ (role, caps) :: l2 /\ role ∉ l2.*1.
Proof.
  induction grants as [|[r cs] grants IH] using rev_ind.
  { change (byRole []) with (∅ : gmap string (list string)). split; [by rewrite lookup_empty|]. by intros (_ & [|] & ? & ? & _). }
  rewrite byRole_app. cbn.
  assert (forall l2, role ∉ (l2 ++ [(r, cs)]).*1 <-> role ∉ l2.*1 /\ role <> r) as Hl.
  { intros l2. rewrite fmap_app, elem_of_app. cbn. rewrite list_elem_of_singleton. naive_solver. }
  assert ((exists l1 l2, grants ++ [(r, cs)] = l1 ++ (role, caps) :: l2 /\ role ∉ l2.*1) <->
          (role = r /\ caps = cs) \/ role <> r /\ exists l1 l2, grants = l1 ++ (role, caps) :: l2 /\ role ∉ l2.*1) as ->.
  { split.
    - intros (l1 & l2 & E & Hn). destruct l2 as [|x l2 _] using rev_ind; [apply app_inj_tail in E as [_ [= <- <-]]; by left|].
      rewrite app_comm_cons, app_assoc in E. apply app_inj_tail in E as [-> <-]. apply Hl in Hn as [? ?]. right. split; [done|]. by exists l1, l2.
    - intros [[-> ->]|(Hne & l1 & l2 & -> & Hn)]; [exists grants, []; split; [done|apply not_elem_of_nil]|].
      exists l1, (l2 ++ [(r, cs)]). split; [by rewrite <- app_assoc|]. by apply Hl. }
  case_bool_decide as Er; [subst; rewrite IH; naive_solver|]. rewrite lookup_insert_Some, IH. naive_solver.
Qed.

(** What the Team or the role of an agent gives it. *)
Definition gives (ask : forall X, Call X -> X) (run : Run) (agent : Agent) (c : string) : Prop :=
  let role := ref_name (ag_RoleRef agent) in
  role <> "" /\
  ((exists team caps l1 l2, ask _ (GetTeam (or_ns (ref_ns (rn_TeamRef run)) (rn_ns run)) (ref_name (rn_TeamRef run))) = Found team /\
      tm_Grants team = l1 ++ (role, caps) :: l2 /\ role ∉ l2.*1 /\ c ∈ caps /\ c <> "") \/
   (exists r, ask _ (GetRole (or_ns (ref_ns (ag_RoleRef agent)) (ag_ns agent)) role) = Found r /\ rl_Coordinator r = true /\
      (c = CapabilityWorkItemAuthor \/ c = CapabilityCoordinatorPropose /\ rl_CoordinatorMode r = CoordinatorModePropose))).

Definition dispatched (ask : forall X, Call X -> X) (run : Run) (agents : list ObjectRef) (agent : Agent) : Prop :=
  exists ref, ref ∈ agents /\ ask _ (GetAgent (or_ns (ref_ns ref) (rn_ns run)) (ref_name ref)) = Found agent.

Lemma coordinator_exec ask agent :
  ref_name (ag_RoleRef agent) <> "" ->
  exec ask (coordinatorRole agent) =
    let ns := or_ns (ref_ns (ag_RoleRef agent)) (ag_ns agent) in
    match ask _ (GetRole ns (ref_name (ag_RoleRef agent))) with
    | Found role => Ok (rl_Coordinator role, rl_CoordinatorMode role)
    | NotFound => Ok (false, "")
    | ReadError => Err (ReadFailed "Role" ns (ref_name (ag_RoleRef agent)))
    end.
Proof. intros H. unfold coordinatorRole. by rewrite bool_decide_eq_false_2. Qed.

Lemma coordinator_caps_spec b mode c :
  c ∈ coordinator_caps b mode <-> b = true /\ (c = CapabilityWorkItemAuthor \/ c = CapabilityCoordinatorPropose /\ mode = CoordinatorModePropose).
Proof. unfold coordinator_caps. destruct b; [|set_solver]. case_bool_decide; set_solver. Qed.

Lemma team_caps_spec m role c : c ∈ team_caps m role <-> exists caps, m !! role = Some caps /\ c ∈ caps /\ c <> "".
Proof.
  unfold team_caps. rewrite elem_of_list_to_set, list_elem_of_filter. destruct (m !! role) as [caps|]; cbn; [naive_solver|].
  split; [intros [_ ?%not_elem_of_nil]; done|naive_solver].
Qed.

Section granting.
Context (ask : forall X, Call X -> X) (run : Run).

(** The Team as read, and its grants. *)
Definition team_map (r : Read Team) : gmap string (list string) := match r with Found team => byRole (tm_Grants team) | _ => ∅ end.
Notation team_read := (ask _ (GetTeam (or_ns (ref_ns (rn_TeamRef run)) (rn_ns run)) (ref_name (rn_TeamRef run)))).

Lemma gives_team agent c : team_read <> ReadError -> ref_name (ag_RoleRef agent) <> "" ->
  (exists team caps l1 l2, team_read = Found team /\ tm_Grants team = l1 ++ (ref_name (ag_RoleRef agent), caps) :: l2 /\ ref_name (ag_RoleRef agent) ∉ l2.*1 /\ c ∈ caps /\ c <> "") <->
  c ∈ team_caps (team_map team_read) (ref_name (ag_RoleRef agent)).
Proof.
  intros Ht Hr. rewrite team_caps_spec. destruct team_read as [team| |] eqn:E; cbn; [|split; [by intros (? & ? & ? & ? & ? & _)|intros (caps & H & _); by rewrite lookup_empty in H]|done].
  split.
  - intros (team' & caps & l1 & l2 & [= <-] & Eg & Hn & Hc). exists caps. rewrite byRole_spec. split; [|done]. split; [done|]. by exists l1, l2.
  - intros (caps & Hm & Hc). apply byRole_spec in Hm as (_ & l1 & l2 & Eg & Hn). by exists team, caps, l1, l2.
Qed.

Lemma grant_exec agents caps : team_read <> ReadError ->
  match exec ask (grant_agents (rn_ns run) (team_map team_read) agents caps) with
  | Ok g => forall c, c ∈ g <-> c ∈ caps \/ exists agent, dispatched ask run agents agent /\ gives ask run agent c
  | Err e => exists kind ns name, e = ReadFailed kind ns name
  end.
Proof.
  intros Ht. revert caps. induction agents as [|ref agents IH]; intros caps; cbn [grant_agents].
  { cbn. intros c. split; [by left|]. intros [?|(agent & (ref & Hin & _) & _)]; [done|by apply not_elem_of_nil in Hin]. }
  rewrite exec_bind. cbn [call exec]. rewrite exec_xbind. cbn [exec].
  destruct (ask _ (GetAgent (or_ns (ref_ns ref) (rn_ns run)) (ref_name ref))) as [agent| |] eqn:Ea; cbn [optional]; [| |by eexists _, _, _].
  - assert (forall x, dispatched ask run (ref :: agents) x <-> x = agent \/ dispatched ask run agents x) as Hd.
    { intros x. unfold dispatched. split.
      - intros (ref' & [->|Hin]%elem_of_cons & E); [left; congruence|right; by exists ref'].
      - intros [->|(ref' & Hin & E)]; [exists ref; split; [by left|done]|exists ref'; split; [by right|done]]. }
    case_bool_decide as Er.
    + specialize (IH caps). destruct (exec _ _) as [g|]; [|done]. intros c. rewrite IH. apply or_iff_compat_l. split.
      * intros (x & Hx & Hg). exists x. rewrite Hd. auto.
      * intros (x & [->|Hx]%Hd & Hg); [by destruct Hg|by exists x].
    + rewrite exec_xbind, coordinator_exec by done. cbn zeta.
      set (role_read := ask _ (GetRole _ _)).
      assert (forall b mode, (forall c, c ∈ coordinator_caps b mode <-> exists r, role_read = Found r /\ rl_Coordinator r = true /\
          (c = CapabilityWorkItemAuthor \/ c = CapabilityCoordinatorPropose /\ rl_CoordinatorMode r = CoordinatorModePropose)) ->
        match exec ask (grant_agents (rn_ns run) (team_map team_read) agents (caps ∪ team_caps (team_map team_read) (ref_name (ag_RoleRef agent)) ∪ coordinator_caps b mode)) with
        | Ok g => forall c, c ∈ g <-> c ∈ caps \/ exists agent, dispatched ask run (ref :: agents) agent /\ gives ask run agent c
        | Err e => exists kind ns name, e = ReadFailed kind ns name
        end) as Hgo.
      { intros b mode Hb. specialize (IH (caps ∪ team_caps (team_map team_read) (ref_name (ag_RoleRef agent)) ∪ coordinator_caps b mode)).
        destruct (exec _ _) as [g|]; [|done]. intros c. rewrite IH, !elem_of_union, Hb.
        assert (gives ask run agent c <-> c ∈ team_caps (team_map team_read) (ref_name (ag_RoleRef agent)) \/ exists r, role_read = Found r /\ rl_Coordinator r = true /\
          (c = CapabilityWorkItemAuthor \/ c = CapabilityCoordinatorPropose /\ rl_CoordinatorMode r = CoordinatorModePropose)) as Hg.
        { unfold gives. cbn zeta. rewrite (gives_team agent c Ht Er). fold role_read. tauto. }
        split.
        - intros [[[?|?]|?]|(x & Hx & Hgx)]; [by left|right; exists agent; rewrite Hd, Hg; auto..|]. right. exists x. rewrite Hd. auto.
        - intros [?|(x & [->|Hx]%Hd & Hgx)]; [by do 3 left|apply Hg in Hgx as [?|?]; [left; left; by right|left; by right]|right; by exists x]. }
      destruct role_read as [role| |] eqn:Erole; [| |by eexists _, _, _]; apply Hgo; intros c; rewrite coordinator_caps_spec.
      * split; [intros [? ?]; by exists role|]. by intros (r & [= <-] & ?).
      * split; [by intros [? _]|]. by intros (r & ? & _).
  - specialize (IH caps). destruct (exec _ _) as [g|]; [|done]. intros c. rewrite IH. apply or_iff_compat_l. split.
    + intros (x & (ref' & Hin & E) & Hg). exists x. split; [exists ref'; split; [by right|done]|done].
    + intros (x & (ref' & [->|Hin]%elem_of_cons & E) & Hg); [congruence|]. exists x. split; [by exists ref'|done].
Qed.

(** C22: A Run is granted what its Team and its roles give, no more and no less. Against
    a cluster that answers, the grant holds a capability exactly when the role of one of
    the Run's agents is given it by its last grant of the Team, or is a coordinator's and
    the capability is authoring, or proposing for one that proposes; a read that fails
    grants nothing. *)
Theorem grant_exact :
  match exec ask (ResolveGrant run) with
  | Ok g => forall c, c ∈ g <-> exists agent, dispatched ask run (rn_Agents run) agent /\ gives ask run agent c
  | Err e => exists kind ns name, e = ReadFailed kind ns name
  end.
Proof.
  unfold ResolveGrant. rewrite exec_bind. cbn [call exec]. rewrite exec_xbind. cbn [exec].
  pose proof (grant_exec (rn_Agents run) ∅) as H. destruct team_read as [team| |] eqn:Et; cbn [optional team_map] in *; [| |by eexists _, _, _];
    specialize (H ltac:(done)); (destruct (exec _ _) as [g|]; [|done]); intros c; rewrite H; set_solver.
Qed.
End granting.

(** * Weakening what is said of a program *)

Lemma obeys_mono {A} (may may' : list (Event Call) -> forall X, Call X -> Prop) (ans ans' : forall X, Call X -> X -> Prop) post hist (p : Prog A) :
  obeys may ans post hist p -> (forall h X (c : Call X), may h X c -> may' h X c) -> (forall X (c : Call X) x, ans' X c x -> ans X c x) -> obeys may' ans' post hist p.
Proof.
  intros Ho Hm Ha. revert hist Ho. induction p as [a|X c k IH]; intros hist; cbn; [done|]. intros [H1 H2]. split; [by apply Hm|]. intros x Hx. apply IH, H2, Ha, Hx.
Qed.

(** The events of an execution are among its events. *)
Lemma runs_among {A W} (h : forall X, Call X -> W -> X -> W -> Prop) (p : Prog A) w t a w' (T : list (Event Call)) :
  runs h p w t a w' -> (forall e, e ∈ t -> e ∈ T) -> runs (fun X c w x w' => h X c w x w' /\ Ev c x ∈ T) p w t a w'.
Proof.
  intros Hr. induction Hr as [a w|X c k x w w1 t a w2 Hc Hr IH]; intros HT; [constructor|]. econstructor; [split; [exact Hc|]|].
  - apply HT. by left.
  - apply IH. intros e He. apply HT. by right.
Qed.

(** * The wiring *)

Section wired.
Context (path_Match : string -> string -> option bool) (sort_slice : forall A, (A -> string) -> list A -> list A).
Context (sort_perm : forall A (key : A -> string) l, sort_slice A key l ≡ₚ l).
Notation globMatch := (globMatch path_Match).
Notation endpointFor := (endpointFor path_Match).

(** A tool its server shows, its envelope allows and does not deny. *)
Definition offered (server : MCPServer) (tool : string) : Prop :=
  tool ∈ ms_ObservedTools server /\
  (allowGlobs (ms_ToolFilter server) = [] \/ exists g, g ∈ allowGlobs (ms_ToolFilter server) /\ globMatch g tool = true) /\
  forall g, g ∈ denyGlobs (ms_ToolFilter server) -> globMatch g tool = false.

Lemma matches_some globs tool : existsb (fun glob => globMatch glob tool) globs = true <-> exists g, g ∈ globs /\ globMatch g tool = true.
Proof. rewrite existsb_exists. split; intros (g & Hg & E); exists g; [by rewrite list_elem_of_In|by rewrite <- list_elem_of_In]. Qed.

Lemma matches_none globs tool : existsb (fun glob => globMatch glob tool) globs = false <-> forall g, g ∈ globs -> globMatch g tool = false.
Proof.
  rewrite <- not_true_iff_false, matches_some. split.
  - intros Hn g Hg. apply not_true_iff_false. intros E. apply Hn. by exists g.
  - intros H (g & Hg & E). by rewrite H in E.
Qed.

Lemma allow_spec server tool : tool ∈ subtractGlobs path_Match (allowSet path_Match (ms_ToolFilter server) (ms_ObservedTools server)) (denyGlobs (ms_ToolFilter server)) <-> offered server tool.
Proof.
  unfold subtractGlobs, offered. rewrite list_elem_of_filter, matches_none. unfold allowSet. destruct (allowGlobs _) as [|g gs]; [naive_solver|].
  rewrite list_elem_of_filter, matches_some. naive_solver.
Qed.

Lemma endpointFor_ok server ep : endpointFor server = Ok ep ->
  ep_Name ep = ms_name server /\ ep_AllowTools ep <> [] /\ (forall tool, tool ∈ ep_AllowTools ep <-> offered server tool) /\
  ep_CredentialSecretRef ep = ms_CredentialSecretRef server /\
  ep_EnvNames ep = match ms_CredentialSecretRef server with Some ref => if bool_decide (sr_name ref = "") then [] else [CredentialEnvName (ms_name server)] | None => [] end.
Proof.
  unfold endpointFor. case_bool_decide; [done|]. destruct (if bool_decide (ms_Transport server = MCPTransportStdio) then _ else _) as [[]|]; [|done]. cbn -[allowSet subtractGlobs].
  case_bool_decide as Hn; [done|]. intros [= <-]. cbn -[allowSet subtractGlobs]. split_and!; try done. apply allow_spec.
Qed.

(** Whom a wired server was wanted by. *)
Definition wanted (run : Run) (refs : list ObjectRef) (grants : gset string) (ns name : string) : Prop :=
  (exists ref, ref ∈ refs /\ ns = or_ns (ref_ns ref) (rn_ns run) /\ name = ref_name ref) \/
  (ns = rn_ns run /\ (name = authoringMCPServerName /\ CapabilityWorkItemAuthor ∈ grants \/ name = discussionMCPServerName /\ isDiscussionRun run = true \/
     name = searchMCPServerName)).

Definition serves (hist : list (Event Call)) (run : Run) (refs : list ObjectRef) (grants : gset string) (w : Endpoint * MCPServer) : Prop :=
  endpointFor w.2 = Ok w.1 /\ exists ns name, answered hist (GetMCPServer ns name) (Found w.2) /\ wanted run refs grants ns name.

Lemma server_prefix hist h run refs grants w : hist `prefix_of` h -> serves hist run refs grants w -> serves h run refs grants w.
Proof. intros Hp (He & ns & name & Ha & Hw). split; [done|]. exists ns, name. split; [by eapply answered_prefix|done]. Qed.

Lemma sourced_ok reqs key server w : sourced path_Match reqs key server = Ok w -> endpointFor w.2 = Ok w.1 /\ w.2 = server.
Proof. unfold sourced. destruct (endpointFor server) as [ep|] eqn:E; [|done]. by intros [= <-]. Qed.

(** Reading servers is all it does. *)
Definition reads_servers (hist : list (Event Call)) X (c : Call X) : Prop := match c with GetMCPServer _ _ => True | _ => False end.
Definition all_serve (run : Run) (refs : list ObjectRef) (grants : gset string) (h : list (Event Call)) (r : result Error (list (Endpoint * MCPServer))) : Prop :=
  match r with Ok ws => Forall (serves h run refs grants) ws | Err _ => True end.

Lemma refs_serve hist run reqs refs all grants : (forall ref, ref ∈ refs -> ref ∈ all) ->
  obeys reads_servers any_answer (all_serve run all grants) hist (resolve_refs path_Match (rn_ns run) reqs refs).
Proof.
  revert hist. induction refs as [|ref refs IH]; intros hist Hall; cbn [resolve_refs]; [by constructor|]. cbn [pbind call]. split; [done|].
  intros [server| |] _; cbn [pbind]; rewrite ?xbind_ret; [|done|done].
  destruct (sourced _ _ _ server) as [w|] eqn:E; [|done]. apply obeys_xbind.
  eapply obeys_weaken; [apply IH; intros x Hx; apply Hall; by right|]. intros h [ws|] Hp Hws; [|done]. constructor; [|done].
  apply sourced_ok in E as [He Es]. split; [done|]. rewrite Es. exists (or_ns (ref_ns ref) (rn_ns run)), (ref_name ref). split.
  - eapply answered_prefix; [exact Hp|apply answered_last].
  - left. exists ref. split; [apply Hall; by left|done].
Qed.

Lemma inject_serves hist run reqs refs grants closed name ws : Forall (serves hist run refs grants) ws -> wanted run refs grants (rn_ns run) name ->
  obeys reads_servers any_answer (all_serve run refs grants) hist (injectBuiltIn path_Match closed name run reqs ws).
Proof.
  intros Hws Hwant. unfold injectBuiltIn. destruct (existsb _ ws); [done|]. cbn. split; [done|]. intros r _.
  assert (Forall (serves (hist ++ [Ev (GetMCPServer (rn_ns run) name) r]) run refs grants) ws) as Hws'.
  { eapply Forall_impl; [exact Hws|]. intros w Hw. eapply server_prefix; [|exact Hw]. by eexists. }
  destruct r as [server| |]; [|by destruct closed|done]. destruct (sourced _ _ _ server) as [w|] eqn:E; [|by destruct closed].
  apply sourced_ok in E as [He Es]. cbn. apply Forall_app. split; [done|]. apply Forall_singleton. split; [done|].
  rewrite Es. exists (rn_ns run), name. split; [apply answered_last|done].
Qed.

(** What the resolution ends with. *)
Definition wired_ok (run : Run) (refs : list ObjectRef) (grants : gset string) (h : list (Event Call)) (r : result Error (list Endpoint * list MCPServer)) : Prop :=
  match r with
  | Ok (eps, servers) => exists ws, Forall (serves h run refs grants) ws /\ eps ≡ₚ ws.*1 /\ servers ≡ₚ ws.*2
  | Err _ => True
  end.

Lemma ResolveMCP_ok hist run reqs grants : obeys reads_servers any_answer (wired_ok run (MCPRefs reqs) grants) hist (ResolveMCP path_Match sort_slice run reqs grants).
Proof.
  unfold ResolveMCP. apply obeys_xbind. eapply obeys_weaken; [by apply refs_serve|]. intros h1 [ws1|] _ H1; [|done]. cbn in H1. apply obeys_xbind.
  eapply (obeys_weaken _ _ (all_serve run (MCPRefs reqs) grants)).
  { unfold Has. case_bool_decide as Hg; [|exact H1]. apply inject_serves; [done|]. right. split; [done|]. by left. }
  intros h2 [ws2|] _ H2; [|done]. cbn in H2. apply obeys_xbind.
  eapply (obeys_weaken _ _ (all_serve run (MCPRefs reqs) grants)).
  { destruct (isDiscussionRun run) eqn:Hd; [|exact H2]. apply inject_serves; [done|]. right. split; [done|]. right. by left. }
  intros h3 [ws3|] _ H3; [|done]. cbn in H3. apply obeys_xbind.
  eapply (obeys_weaken _ _ (all_serve run (MCPRefs reqs) grants)).
  { apply inject_serves; [done|]. right. split; [done|]. by right; right. }
  intros h4 [ws4|] _ H4; [|done]. cbn. exists ws4. split; [done|]. by rewrite !sort_perm.
Qed.

(** C20: An agent is offered no tool its servers do not give it. Whatever the API server
    answers, every endpoint a Run is wired to is that of a server that was read, wanted
    by a skill of the Run, by its authoring grant, by its discussion or as the search
    every run has; and its tools, at least one, are exactly those the server was
    observed to have, its envelope allows, and it does not deny. *)
Theorem tools_within_filter {W} (h : forall X, Call X -> W -> X -> W -> Prop) run reqs grants w t eps servers w' :
  runs h (ResolveMCP path_Match sort_slice run reqs grants) w t (Ok (eps, servers)) w' ->
  forall ep, ep ∈ eps ->
    ep_AllowTools ep <> [] /\
    exists ns name server, answered t (GetMCPServer ns name) (Found server) /\ server ∈ servers /\ wanted run (MCPRefs reqs) grants ns name /\
      ep_Name ep = ms_name server /\ forall tool, tool ∈ ep_AllowTools ep <-> offered server tool.
Proof.
  intros Hr ep Hep.
  eapply (obeys_runs reads_servers any_answer h (fun _ _ => True)) in Hr as (_ & _ & Hp); [|done|apply (ResolveMCP_ok [])|done].
  cbn in Hp. destruct Hp as (ws & Hws & Ee & Es).
  rewrite Ee in Hep. apply list_elem_of_fmap in Hep as (x & -> & Hx). rewrite Forall_forall in Hws. destruct (Hws x Hx) as (He & ns & name & Ha & Hwant).
  destruct (endpointFor_ok _ _ He) as (Hn & Hne & Ht & _). split; [done|]. exists ns, name, x.2. split_and!; try done. rewrite Es. by apply list_elem_of_fmap_2.
Qed.
End wired.

(** * The authoring token *)

Section minting.
Context (path_Match : string -> string -> option bool) (sort_slice : forall A, (A -> string) -> list A -> list A).
Context (sort_perm : forall A (key : A -> string) l, sort_slice A key l ≡ₚ l).
Context (sha256_json : CapabilityManifest -> string) (permissions_json : list string -> string) (P : PlatformConfig) (Minter : bool).

(** What was read that gives a capability to a dispatched agent. *)
Definition granted_by (hist : list (Event Call)) (run : Run) (c : string) : Prop :=
  exists ref agent, ref ∈ rn_Agents run /\ answered hist (GetAgent (or_ns (ref_ns ref) (rn_ns run)) (ref_name ref)) (Found agent) /\
    let role := ref_name (ag_RoleRef agent) in
    role <> "" /\
    ((exists team caps, answered hist (GetTeam (or_ns (ref_ns (rn_TeamRef run)) (rn_ns run)) (ref_name (rn_TeamRef run))) (Found team) /\
        (role, caps) ∈ tm_Grants team /\ c ∈ caps) \/
     (exists r, answered hist (GetRole (or_ns (ref_ns (ag_RoleRef agent)) (ag_ns agent)) role) (Found r) /\ rl_Coordinator r = true)).

Lemma granted_prefix hist h run c : hist `prefix_of` h -> granted_by hist run c -> granted_by h run c.
Proof.
  intros Hp (ref & agent & Hin & Ha & Hr & Hg). exists ref, agent. split; [done|]. split; [by eapply answered_prefix|]. split; [done|].
  destruct Hg as [(team & caps & Ht & Hc)|(r & Hrole & Hc)]; [left|right].
  - exists team, caps. split; [by eapply answered_prefix|done].
  - exists r. split; [by eapply answered_prefix|done].
Qed.

(** No skill that was read names the built-in server, and a server answers to its name. *)
Definition plain_skills (hist : list (Event Call)) : Prop :=
  forall ns name skill ref, answered hist (GetSkill ns name) (Found skill) -> ref ∈ sk_McpToolRefs skill -> ref_name ref <> authoringMCPServerName.
Definition own_names (hist : list (Event Call)) : Prop :=
  forall ns name server, answered hist (GetMCPServer ns name) (Found server) -> ms_name server = name.

Lemma plain_prefix hist h : hist `prefix_of` h -> plain_skills h -> plain_skills hist.
Proof. intros Hp H ns name skill ref Ha. eapply H, answered_prefix; [exact Hp|exact Ha]. Qed.
Lemma own_prefix hist h : hist `prefix_of` h -> own_names h -> own_names hist.
Proof. intros Hp H ns name server Ha. eapply H, answered_prefix; [exact Hp|exact Ha]. Qed.

Definition quiet (hist : list (Event Call)) X (c : Call X) : Prop := match c with Mint _ => False | _ => True end.

(** Reads of the Team, the agents and their roles; and the documents of a Run. *)
Definition looks (hist : list (Event Call)) X (c : Call X) : Prop := match c with GetTeam _ _ | GetAgent _ _ | GetRole _ _ => True | _ => False end.
Definition doc_ok (eps : list Endpoint) (doc : Document) : Prop := match doc with MCPDocument eps' => eps' = eps | SkillDocument _ _ => True end.
Definition docs (eps : list Endpoint) (hist : list (Event Call)) X (c : Call X) : Prop :=
  match c with
  | CreateConfigMap _ _ doc | UpdateConfigMap _ _ doc => doc_ok eps doc
  | GetConfigMap _ _ | DeleteConfigMap _ _ | ListSkillConfigMaps _ _ => True
  | _ => False
  end.

(** A token that may author is minted on a grant. *)
Definition may_mint (run : Run) (hist : list (Event Call)) X (c : Call X) : Prop :=
  match c with
  | Mint cl => CapabilityWorkItemAuthor ∈ cl_Capabilities cl -> own_names hist -> plain_skills hist -> granted_by hist run CapabilityWorkItemAuthor
  | _ => True
  end.

Lemma looks_quiet {A} post hist (p : Prog A) : obeys looks any_answer post hist p -> obeys quiet any_answer post hist p.
Proof. intros H. eapply obeys_mono; [exact H| |done]. by intros h X []. Qed.
Lemma docs_quiet {A} eps post hist (p : Prog A) : obeys (docs eps) any_answer post hist p -> obeys quiet any_answer post hist p.
Proof. intros H. eapply obeys_mono; [exact H| |done]. by intros h X []. Qed.

Lemma quiet_mint {A} run post hist (p : Prog A) : obeys quiet any_answer post hist p -> obeys (may_mint run) any_answer post hist p.
Proof. intros H. eapply obeys_mono; [exact H| |done]. by intros h X []. Qed.

(** ** What is read for the grant *)

Lemma coordinator_looks hist agent :
  obeys looks any_answer (fun h r => match r with
    | Ok (true, _) => ref_name (ag_RoleRef agent) <> "" /\ exists role, answered h (GetRole (or_ns (ref_ns (ag_RoleRef agent)) (ag_ns agent)) (ref_name (ag_RoleRef agent))) (Found role) /\ rl_Coordinator role = true
    | _ => True end) hist (coordinatorRole agent).
Proof.
  unfold coordinatorRole. case_bool_decide; [done|]. cbn. split; [done|]. intros [role| |] _; [|done|done].
  destruct (rl_Coordinator role) eqn:E; [|done]. split; [done|]. exists role. split; [apply answered_last|done].
Qed.

Lemma grant_agents_looks run hist m agents caps :
  (forall ref, ref ∈ agents -> ref ∈ rn_Agents run) -> (forall c, c ∈ caps -> granted_by hist run c) ->
  (forall role cs, m !! role = Some cs -> exists team, answered hist (GetTeam (or_ns (ref_ns (rn_TeamRef run)) (rn_ns run)) (ref_name (rn_TeamRef run))) (Found team) /\ (role, cs) ∈ tm_Grants team) ->
  obeys looks any_answer (fun h r => match r with Ok g => forall c, c ∈ g -> granted_by h run c | Err _ => True end) hist (grant_agents (rn_ns run) m agents caps).
Proof.
  clear sort_slice sort_perm.
  revert hist caps. induction agents as [|ref agents IH]; intros hist caps Hin Hcaps Hm; [done|]. cbn [grant_agents pbind call]. split; [done|]. intros r _.
  set (h1 := hist ++ _). assert (hist `prefix_of` h1) as Hp by (by eexists).
  assert (forall h, hist `prefix_of` h -> forall role cs, m !! role = Some cs -> exists team, answered h (GetTeam (or_ns (ref_ns (rn_TeamRef run)) (rn_ns run)) (ref_name (rn_TeamRef run))) (Found team) /\ (role, cs) ∈ tm_Grants team) as Hm'.
  { intros h Hh role cs E. destruct (Hm role cs E) as (team & Ha & Hg). exists team. split; [by eapply answered_prefix|done]. }
  assert (forall h, hist `prefix_of` h -> forall c, c ∈ caps -> granted_by h run c) as Hcaps' by (intros h Hh c Hc; eapply granted_prefix; [exact Hh|auto]).
  assert (forall ref', ref' ∈ agents -> ref' ∈ rn_Agents run) as Hin' by (intros ref' Hr; apply Hin; by right).
  destruct r as [agent| |]; rewrite ?xbind_ret; cbn [optional]; [|by apply IH; auto|done].
  case_bool_decide as Er; [by apply IH; auto|]. apply obeys_xbind. eapply obeys_weaken; [apply coordinator_looks|]. intros h [[b mode]|] Hp1 Hb; [|done].
  assert (hist `prefix_of` h) as Hph by (by etrans). apply IH; auto. intros c [[Hc|Hc]%elem_of_union|Hc]%elem_of_union; [by apply (Hcaps' h)|..].
  - apply team_caps_spec in Hc as (cs & E & Hc & _). destruct (Hm' h Hph _ _ E) as (team & Ha & Hg). exists ref, agent. split; [apply Hin; by left|].
    split; [eapply answered_prefix; [exact Hp1|apply answered_last]|]. split; [done|]. left. by exists team, cs.
  - apply coordinator_caps_spec in Hc as [-> _]. destruct Hb as [_ (role & Ha & Hco)]. exists ref, agent. split; [apply Hin; by left|].
    split; [eapply answered_prefix; [exact Hp1|apply answered_last]|]. split; [done|]. right. by exists role.
Qed.

Lemma ResolveGrant_looks run hist :
  obeys looks any_answer (fun h r => match r with Ok g => forall c, c ∈ g -> granted_by h run c | Err _ => True end) hist (ResolveGrant run).
Proof.
  clear sort_slice sort_perm.
  unfold ResolveGrant. cbn [pbind call]. split; [done|]. intros [team| |] _; rewrite ?xbind_ret; cbn [optional]; [| |done].
  - apply grant_agents_looks; [done|set_solver|]. intros role cs (_ & l1 & l2 & E & _)%byRole_spec. exists team. split; [apply answered_last|].
    rewrite E. apply elem_of_app. right. by left.
  - apply grant_agents_looks; [done|set_solver|]. intros role cs E. by rewrite lookup_empty in E.
Qed.

Lemma coordinators_looks hist ns agents : obeys looks any_answer (fun _ _ => True) hist (any_coordinator ns agents).
Proof.
  clear sort_slice sort_perm.
  revert hist. induction agents as [|ref agents IH]; intros hist; [done|]. cbn [any_coordinator pbind call]. split; [done|].
  intros [agent| |] _; rewrite ?xbind_ret; cbn [optional]; [|by apply IH|done].
  apply obeys_xbind. eapply obeys_weaken; [apply coordinator_looks|]. by intros h [[[] mode]|] _ _; [|apply IH|].
Qed.

Lemma ResolveGrant_quiet run hist :
  obeys quiet any_answer (fun h r => match r with Ok g => forall c, c ∈ g -> granted_by h run c | Err _ => True end) hist (ResolveGrant run).
Proof. apply looks_quiet, ResolveGrant_looks. Qed.

(** ** What is demanded *)

Definition unnamed (reqs : Requirements) : Prop := forall ref, ref ∈ MCPRefs reqs -> ref_name ref <> authoringMCPServerName.

Lemma add_mcp_refs key ns reqs refs ref : ref ∈ MCPRefs (foldl (add_mcp key ns) reqs refs) -> ref ∈ MCPRefs reqs \/ ref ∈ refs.
Proof.
  revert reqs. induction refs as [|r refs IH]; intros reqs; [by left|]. cbn. intros [H|H]%IH; [|right; by right].
  unfold add_mcp in H. destruct (MCPSources reqs !! _); [by left|]. cbn in H. apply elem_of_app in H as [H|H%list_elem_of_singleton]; [by left|subst; right; by left].
Qed.

Lemma add_skill_refs ns name skill reqs ref : ref ∈ MCPRefs (add_skill ns name skill reqs) -> ref ∈ MCPRefs reqs \/ ref ∈ sk_McpToolRefs skill.
Proof.
  unfold add_skill. rewrite (foldl_keeps add_sidecar MCPRefs) by (intros a b; unfold add_sidecar; by case_bool_decide).
  intros [H|H]%add_mcp_refs; [left|by right].
  by rewrite (foldl_keeps (add_toolchain _) MCPRefs) in H by (intros a b; unfold add_toolchain; by destruct (ToolchainSources a !! b)).
Qed.

Definition unnamed_if (h : list (Event Call)) (reqs : Requirements) : Prop := plain_skills h -> unnamed reqs.

Lemma unnamed_prefix hist h reqs : hist `prefix_of` h -> unnamed_if hist reqs -> unnamed_if h reqs.
Proof. intros Hp H Hpl. apply H. by eapply plain_prefix. Qed.

Lemma collect_skills_quiet hist ns refs seen reqs : unnamed_if hist reqs ->
  obeys quiet any_answer (fun h r => match r with Ok (_, reqs) => unnamed_if h reqs | Err _ => True end) hist (collect_skills ns refs seen reqs).
Proof.
  revert hist seen reqs. induction refs as [|ref refs IH]; intros hist seen reqs H; [done|]. cbn [collect_skills]. case_bool_decide; [by apply IH|].
  cbn [pbind call]. split; [done|]. intros r _. set (h1 := hist ++ _). assert (hist `prefix_of` h1) as Hp by (by eexists).
  destruct r as [skill| |]; rewrite ?xbind_ret; cbn [optional]; [|apply IH; by eapply unnamed_prefix|done].
  apply IH. intros Hpl x [Hx|Hx]%add_skill_refs; [by apply (unnamed_prefix _ _ _ Hp H Hpl)|]. eapply Hpl; [apply answered_last|done].
Qed.

Lemma agent_skills_quiet hist agent : obeys quiet any_answer (fun _ _ => True) hist (agent_skills agent).
Proof. unfold agent_skills. case_bool_decide; [done|]. cbn. split; [done|]. by intros []. Qed.

Lemma collect_agents_quiet hist ns agents seen reqs : unnamed_if hist reqs ->
  obeys quiet any_answer (fun h r => match r with Ok reqs => unnamed_if h reqs | Err _ => True end) hist (collect_agents ns agents seen reqs).
Proof.
  revert hist seen reqs. induction agents as [|ref agents IH]; intros hist seen reqs H; [done|]. cbn [collect_agents pbind call]. split; [done|]. intros r _.
  set (h1 := hist ++ _). assert (hist `prefix_of` h1) as Hp by (by eexists). pose proof (unnamed_prefix _ _ _ Hp H) as H1.
  destruct r as [agent| |]; rewrite ?xbind_ret; cbn [optional]; [|by apply IH|done].
  apply obeys_xbind. eapply obeys_weaken; [apply agent_skills_quiet|]. intros h [refs|] Hp2 _; [|done].
  apply obeys_xbind. eapply obeys_weaken; [apply collect_skills_quiet; by eapply unnamed_prefix|]. intros h' [[seen' reqs']|] _ Hr; [|done]. by apply IH.
Qed.

(** ** The envelope *)

Lemma CheckEgressAll_quiet hist servers : obeys quiet any_answer (fun _ _ => True) hist (CheckEgressAll servers).
Proof.
  revert hist. induction servers as [|s servers IH]; intros hist; [done|]. cbn [CheckEgressAll]. apply obeys_xbind.
  eapply (obeys_weaken _ _ (fun _ _ => True)); [|by intros h [[]|] _ _; [apply IH|]].
  unfold CheckEgress. case_bool_decide; [done|]. destruct (ms_EgressRef s) as [ref|]; [|done]. case_bool_decide; [done|]. cbn. done.
Qed.

Lemma bind_names name secret eps : ep_Name <$> bind_first name secret eps = ep_Name <$> eps.
Proof. induction eps as [|ep eps IH]; [done|]. cbn. case_bool_decide; cbn; [done|]. by rewrite IH. Qed.

Lemma bindCredential_names name secret run eps : ep_Name <$> bindCredential Minter name secret run eps = ep_Name <$> eps.
Proof. unfold bindCredential. destruct (mints Minter run); [apply bind_names|done]. Qed.

(** An authoring endpoint stands for the grant. *)
Definition earned (h : list (Event Call)) (run : Run) (eps : list Endpoint) : Prop :=
  authoringMCPServerName ∈ (ep_Name <$> eps) -> own_names h -> plain_skills h -> granted_by h run CapabilityWorkItemAuthor.

Lemma earned_prefix hist h run eps : hist `prefix_of` h -> earned hist run eps -> earned h run eps.
Proof. intros Hp H Hin Ho Hpl. eapply granted_prefix; [exact Hp|]. apply H; [done|by eapply own_prefix|by eapply plain_prefix]. Qed.

Lemma Resolve_quiet run hist :
  obeys quiet any_answer (fun h r => match r with Ok env => earned h run (en_Endpoints env) | Err _ => True end) hist
    (Resolve path_Match sort_slice sha256_json P Minter run).
Proof.
  unfold Resolve, Collect. apply obeys_xbind. eapply obeys_weaken; [apply collect_agents_quiet; by intros _ ref ?%not_elem_of_nil|]. intros h1 [reqs|] _ Hreqs; [|done].
  apply obeys_xbind. eapply (obeys_weaken _ _ (fun _ _ => True)).
  { eapply obeys_mono; [eapply obeys_weaken; [apply (ResolveRefs_ok sort_slice (WithDefaults P) sort_perm run)|done]| |done]. by intros h X []. }
  intros h2 [resolved|] Hp2 _; [|done]. apply obeys_xbind. eapply obeys_weaken; [apply ResolveGrant_quiet|]. intros h3 [grants|] Hp3 Hg; [|done].
  apply obeys_xbind. eapply obeys_weaken; [eapply obeys_mono; [apply (ResolveMCP_ok path_Match sort_slice sort_perm)| |done]; by intros h X []|].
  intros h4 [[eps servers]|] Hp4 Hmcp; [|done]. cbn in Hmcp. destruct Hmcp as (ws & Hws & Ee & _). apply obeys_xbind. eapply obeys_weaken; [apply CheckEgressAll_quiet|]. intros h5 [[]|] Hp5 _; [|done].
  apply (earned_prefix h4); [done|]. intros Hin Ho Hpl. cbn [en_Endpoints] in Hin.
  unfold bindSearchCredential, bindDiscussionCredential, bindAuthoringCredential in Hin. rewrite !bindCredential_names in Hin.
  apply list_elem_of_fmap in Hin as (ep & En & Hep). rewrite Ee in Hep. apply list_elem_of_fmap in Hep as (w & -> & Hw).
  rewrite Forall_forall in Hws. destruct (Hws w Hw) as (He & ns & name & Ha & Hwant). destruct (endpointFor_ok _ _ _ He) as (Hn & _).
  assert (name = authoringMCPServerName) as -> by (rewrite <- (Ho _ _ _ Ha); congruence).
  destruct Hwant as [(ref & Href & _ & Er)|(_ & [[_ Hgr]|[[Hd _]|Hs]])]; [|by eapply granted_prefix, Hg|done|done].
  exfalso. eapply Hreqs; [|exact Href|done]. eapply plain_prefix; [|exact Hpl]. by etrans; [exact Hp2|etrans].
Qed.

(** ** What is projected *)

Lemma put_document_docs eps hist ns name doc : doc_ok eps doc -> obeys (docs eps) any_answer (fun _ _ => True) hist (put_document ns name doc).
Proof. intros Hd. unfold put_document. cbn. split; [done|]. by intros [] _; cbn. Qed.

Lemma EnsureMCPConfigMap_docs hist run eps : obeys (docs eps) any_answer (fun _ _ => True) hist (EnsureMCPConfigMap run eps).
Proof. destruct eps; [done|by apply put_document_docs]. Qed.

Lemma put_skills_docs eps hist run skills : obeys (docs eps) any_answer (fun _ _ => True) hist (put_skills permissions_json run skills).
Proof.
  revert hist. induction skills as [|s skills IH]; intros hist; [done|]. cbn [put_skills]. rewrite xbind_ret. unfold SkillConfigMapFor. destruct (_ <? _)%nat; [done|].
  destruct (_ <? _)%nat; [done|]. apply obeys_xbind. eapply obeys_weaken; [by apply put_document_docs|]. intros h [[]|] _ _; [|done].
  apply obeys_xbind. eapply obeys_weaken; [apply IH|]. by intros h' [] _ _.
Qed.

Lemma sweep_docs eps hist ns desired live : obeys (docs eps) any_answer (fun _ _ => True) hist (sweep_documents ns desired live).
Proof.
  revert hist. induction live as [|name live IH]; intros hist; [done|]. cbn [sweep_documents]. case_bool_decide; [apply IH|]. cbn. split; [done|]. by intros [] _; [apply IH|].
Qed.

Lemma EnsureSkillConfigMaps_docs eps hist run skills : obeys (docs eps) any_answer (fun _ _ => True) hist (EnsureSkillConfigMaps permissions_json run skills).
Proof.
  unfold EnsureSkillConfigMaps. apply obeys_xbind. eapply obeys_weaken; [apply put_skills_docs|]. intros h [desired|] _ _; [|done]. cbn. split; [done|].
  intros [live|] _; [apply sweep_docs|done].
Qed.

Lemma endpoint_named_in name eps ep : endpoint_named name eps = Some ep -> ep ∈ eps /\ ep_Name ep = name.
Proof.
  unfold endpoint_named. destruct (list_find _ eps) as [[i x]|] eqn:E; [|done]. intros [= <-]. apply list_find_Some in E as (E & ? & _).
  split; [by eapply list_elem_of_lookup_2|done].
Qed.

Lemma ensureToken_mints run hist server caps eps :
  (forall h, hist `prefix_of` h -> obeys quiet any_answer (fun h' r => match r with
     | Ok cs => CapabilityWorkItemAuthor ∈ cs -> server ∈ (ep_Name <$> eps) -> own_names h' -> plain_skills h' -> granted_by h' run CapabilityWorkItemAuthor
     | Err _ => True end) h caps) ->
  obeys (may_mint run) any_answer (fun _ _ => True) hist (ensureToken Minter server caps run eps).
Proof.
  intros Hcaps. unfold ensureToken. destruct (negb _); [done|]. destruct (endpoint_named server eps) as [ep|] eqn:Ef; [|done]. apply endpoint_named_in in Ef as [Hep En].
  cbn [mbind option_bind]. destruct (ep_CredentialSecretRef ep) as [ref|]; [|done]. case_bool_decide; [done|]. cbn [pbind call]. split; [done|]. intros [[]| |] _; [done| |done].
  apply obeys_xbind. eapply (obeys_weaken _ _ (fun _ _ => True)); [unfold teamTenancyUID; cbn; done|]. intros h1 [uid|] Hp1 _; [|done].
  apply obeys_xbind. eapply obeys_weaken; [apply quiet_mint, Hcaps; etrans; [|exact Hp1]; by eexists|]. intros h2 [cs|] _ Hcs; [|done].
  cbn [pbind call]. split.
  - intros Hin Ho Hpl. apply Hcs; [exact Hin| |exact Ho|exact Hpl]. rewrite <- En. by apply list_elem_of_fmap_2.
  - intros [token|] _; [|done]. cbn. split; [done|]. by intros [] _.
Qed.

Lemma project_mints run hist eps m : earned hist run eps -> obeys (may_mint run) any_answer (fun _ _ => True) hist (project permissions_json Minter run eps m).
Proof.
  intros He. unfold project. apply obeys_xbind. eapply obeys_weaken; [eapply quiet_mint, docs_quiet, EnsureMCPConfigMap_docs|]. intros h1 [[]|] Hp1 _; [|done].
  apply obeys_xbind. eapply obeys_weaken; [eapply quiet_mint, (docs_quiet eps), EnsureSkillConfigMaps_docs|]. intros h2 [[]|] Hp2 _; [|done].
  apply obeys_xbind. eapply obeys_weaken.
  { apply ensureToken_mints. intros h Hp. unfold authoring_caps. apply obeys_xbind. eapply obeys_weaken; [apply ResolveGrant_quiet|]. intros h' [g|] Hp' _; [|done].
    cbn. intros _. apply (earned_prefix hist); [|done]. by repeat (etrans; [eassumption|]). }
  intros h3 [[]|] _ _; [|done]. apply obeys_xbind. eapply obeys_weaken.
  { apply ensureToken_mints. intros h _. unfold discussion_caps. apply obeys_xbind. eapply obeys_weaken; [apply looks_quiet, coordinators_looks|]. intros h' [[]|] _ _; [..|done]; cbn;
      intros Hin; exfalso; repeat apply elem_of_cons in Hin as [Hin|Hin]; try done; by apply not_elem_of_nil in Hin. }
  intros h4 [[]|] _ _; [|done]. apply obeys_xbind. eapply obeys_weaken.
  { apply ensureToken_mints. intros h _. cbn. intros Hin. exfalso. apply elem_of_cons in Hin as [Hin|Hin]; [done|by apply not_elem_of_nil in Hin]. }
  by intros h5 [[]|] _ _.
Qed.

Notation EnsureManifest := (EnsureManifest path_Match sort_slice sha256_json permissions_json P Minter).

Lemma EnsureManifest_mints run : rn_Manifest run = None -> obeys (may_mint run) any_answer (fun _ _ => True) [] (EnsureManifest run).
Proof.
  intros E. unfold Capability.EnsureManifest. rewrite E. apply obeys_xbind. eapply obeys_weaken; [apply quiet_mint, Resolve_quiet|].
  intros h [env|] _ He; [by apply project_mints|done].
Qed.

(** C19: An agent may author work items only by a grant. When a Run's envelope is made
    and no skill of its agents names the built-in authoring server, a token that may
    author is minted only after the Team, or a coordinator's role, was read to give one
    of the dispatched agents the capability, whatever else the API server answers. *)
Theorem authoring_needs_grant {W} (h : forall X, Call X -> W -> X -> W -> Prop) run w t1 cl tok t2 a w' :
  rn_Manifest run = None -> runs h (EnsureManifest run) w (t1 ++ Ev (Mint cl) tok :: t2) a w' ->
  CapabilityWorkItemAuthor ∈ cl_Capabilities cl -> own_names t1 -> plain_skills t1 -> granted_by t1 run CapabilityWorkItemAuthor.
Proof.
  intros E Hr. eapply (obeys_runs (may_mint run) any_answer h (fun _ _ => True)) in Hr as (_ & Ht & _); [|done|by apply EnsureManifest_mints|done].
  by apply trace_ok_at in Ht as [Hm _].
Qed.

(** * The record *)

(** What converging to a recorded manifest may do: it reads no skill, server, policy or
    toolchain again, and the endpoints it writes are the recorded ones. *)
Definition settles (eps : list Endpoint) (hist : list (Event Call)) X (c : Call X) : Prop :=
  match c with
  | GetSkill _ _ | GetToolchain _ _ | GetMCPServer _ _ | GetEgressPolicy _ _ => False
  | CreateConfigMap _ _ doc | UpdateConfigMap _ _ doc => doc_ok eps doc
  | _ => True
  end.

Lemma looks_settles {A} eps post hist (p : Prog A) : obeys looks any_answer post hist p -> obeys (settles eps) any_answer post hist p.
Proof. intros H. eapply obeys_mono; [exact H| |done]. by intros h X []. Qed.
Lemma docs_settles {A} eps post hist (p : Prog A) : obeys (docs eps) any_answer post hist p -> obeys (settles eps) any_answer post hist p.
Proof. intros H. eapply obeys_mono; [exact H| |done]. by intros h X []. Qed.

Lemma ensureToken_settles eps0 run hist server caps eps :
  (forall h, obeys looks any_answer (fun _ _ => True) h caps) -> obeys (settles eps0) any_answer (fun _ _ => True) hist (ensureToken Minter server caps run eps).
Proof.
  intros Hcaps. unfold ensureToken. destruct (negb _); [done|]. destruct (endpoint_named server eps) as [ep|]; [|done]. cbn [mbind option_bind].
  destruct (ep_CredentialSecretRef ep) as [ref|]; [|done]. case_bool_decide; [done|]. cbn [pbind call]. split; [done|]. intros [[]| |] _; [done| |done].
  apply obeys_xbind. eapply (obeys_weaken _ _ (fun _ _ => True)); [unfold teamTenancyUID; cbn; done|]. intros h1 [uid|] _ _; [|done].
  apply obeys_xbind. eapply obeys_weaken; [apply looks_settles, Hcaps|]. intros h2 [cs|] _ _; [|done]. cbn. split; [done|]. intros [token|] _; [|done]. cbn. split; [done|]. by intros [] _.
Qed.

Lemma project_settles run hist eps m :
  obeys (settles eps) any_answer (fun _ r => match r with Ok m' => m' = m | Err _ => True end) hist (project permissions_json Minter run eps m).
Proof.
  unfold project. apply obeys_xbind. eapply obeys_weaken; [apply docs_settles, EnsureMCPConfigMap_docs|]. intros h1 [[]|] _ _; [|done].
  apply obeys_xbind. eapply obeys_weaken; [apply docs_settles, EnsureSkillConfigMaps_docs|]. intros h2 [[]|] _ _; [|done].
  apply obeys_xbind. eapply obeys_weaken.
  { apply ensureToken_settles. intros h. unfold authoring_caps. apply obeys_xbind. eapply obeys_weaken; [apply ResolveGrant_looks|]. by intros h' [] _ _. }
  intros h3 [[]|] _ _; [|done]. apply obeys_xbind. eapply obeys_weaken.
  { apply ensureToken_settles. intros h. unfold discussion_caps. apply obeys_xbind. eapply obeys_weaken; [apply coordinators_looks|]. by intros h' [[]|] _ _. }
  intros h4 [[]|] _ _; [|done]. apply obeys_xbind. eapply obeys_weaken; [by apply ensureToken_settles|]. by intros h5 [[]|] _ _.
Qed.

(** A recorded manifest is not made again. Reconciling a Run that has one returns it
    as it is, reads no skill, toolchain, server or egress policy, and writes no other
    endpoints for the sandbox than those on record. *)
Theorem manifest_immutable {W} (h : forall X, Call X -> W -> X -> W -> Prop) run m w t a w' :
  rn_Manifest run = Some m -> runs h (EnsureManifest run) w t a w' ->
  (forall m', a = Ok m' -> m' = m) /\
  (forall ns name x, Ev (GetSkill ns name) x ∉ t) /\ (forall ns name x, Ev (GetToolchain ns name) x ∉ t) /\
  (forall ns name x, Ev (GetMCPServer ns name) x ∉ t) /\ (forall ns name x, Ev (GetEgressPolicy ns name) x ∉ t) /\
  (forall ns name eps ok, Ev (CreateConfigMap ns name (MCPDocument eps)) ok ∈ t \/ Ev (UpdateConfigMap ns name (MCPDocument eps)) ok ∈ t ->
     eps = EndpointsFromManifest (Some m)).
Proof.
  intros E Hr. unfold Capability.EnsureManifest in Hr. rewrite E in Hr.
  eapply (obeys_runs (settles (EndpointsFromManifest (Some m))) any_answer h (fun _ _ => True)) in Hr as (_ & Ht & Hp); [|done|apply (project_settles run [])|done].
  assert (forall X (c : Call X) x, Ev c x ∈ t -> settles (EndpointsFromManifest (Some m)) t X c) as Hall.
  { intros X c x (t1 & t2 & ->)%list_elem_of_split. apply trace_ok_at in Ht as [Hs _]. by destruct c. }
  split; [by intros m' ->|]. repeat (split; [intros ns name x Hin; exact (Hall _ _ _ Hin)|]). intros ns name eps ok [Hin|Hin]; exact (Hall _ _ _ Hin).
Qed.

(** What the record rebuilds. *)
Lemma manifest_roundtrip resolved eps skills :
  Forall (fun ep => ep_EnvNames ep = match ep_CredentialSecretRef ep with None => [] | Some _ => [CredentialEnvName (ep_Name ep)] end) eps ->
  EndpointsFromManifest (Some (BuildManifest sha256_json resolved eps skills)) = eps.
Proof.
  intros H. cbn. rewrite <- list_fmap_compose. induction H as [|ep eps He _ IH]; [done|]. cbn. f_equal; [|exact IH].
  destruct ep. cbn in *. unfold manifest_ir, manifest_endpoint, envNamesFor. cbn. by rewrite He.
Qed.
End minting.

(** * A squad *)

Module Squad.
Definition by_equality (glob tool : string) : option bool := Some (bool_decide (glob = tool)).
Definition sorted := Kubectl.sorted.
Definition sorted_perm := Kubectl.sorted_perm.
Definition hash (_ : CapabilityManifest) : string := "sha".
Definition json (_ : list string) : string := "[]".
Definition platform : PlatformConfig := Kubectl.platform.
Definition at_ (ns name : string) : ObjectRef := {| ref_ns := ns; ref_name := name |}.
Definition run_with (m : option CapabilityManifest) : Run :=
  {| rn_ns := "squad"; rn_name := "r1"; rn_UID := "u1"; rn_OwnedBy := "ann"; rn_TeamRef := at_ "" "team"; rn_Agents := [at_ "" "dev"]; rn_Labels := ∅; rn_Manifest := m |}.
Definition run : Run := run_with None.

Definition server (ns name url : string) : MCPServer :=
  {| ms_ns := ns; ms_name := name; ms_Transport := MCPTransportStreamableHTTP; ms_Endpoint := url; ms_Command := ""; ms_Args := []; ms_Image := "";
     ms_Headers := ∅; ms_CredentialSecretRef := None; ms_ToolFilter := Some {| tf_Allow := []; tf_Deny := ["drop"] |}; ms_EgressRef := None;
     ms_ObservedTools := ["create"; "drop"]; ms_Conditions := [] |}.
Definition skill (refs : list ObjectRef) : Skill :=
  {| sk_ns := "squad"; sk_SourceType := SkillSourceInline; sk_Inline := "body"; sk_Git := None; sk_Permissions := []; sk_CredentialType := "";
     sk_McpToolRefs := refs; sk_Toolchains := []; sk_Sidecars := [] |}.

(** An agent of a role, whose skill names [refs]; the Team grants nothing. *)
Definition ask (coordinator : bool) (refs : list ObjectRef) X (c : Call X) : X :=
  match c in Call X return X with
  | GetTeam _ _ => Found {| tm_UID := "t1"; tm_Grants := [] |}
  | GetAgent ns _ => Found {| ag_ns := ns; ag_SkillRefs := [at_ "" "ops"]; ag_RoleRef := at_ "" "lead" |}
  | GetRole _ _ => Found {| rl_DefaultSkills := []; rl_Coordinator := coordinator; rl_CoordinatorMode := "" |}
  | GetSkill _ _ => Found (skill refs)
  | GetToolchain _ _ => NotFound
  | GetMCPServer ns name => Found (server ns name ("http://" +:+ ns))
  | GetEgressPolicy _ _ => NotFound | GetSecret _ _ => NotFound | GetConfigMap _ _ => NotFound
  | ListSkillConfigMaps _ _ => Some []
  | PutRole _ _ _ _ => true | PutRoleBinding _ _ _ _ _ => true | PutClusterRole _ _ _ => true | PutClusterRoleBinding _ _ _ _ => true
  | DeleteRole _ _ => true | DeleteRoleBinding _ _ => true | DeleteClusterRole _ => true | DeleteClusterRoleBinding _ => true
  | DeleteConfigMap _ _ => true | CreateConfigMap _ _ _ => true | UpdateConfigMap _ _ _ => true
  | CreateSecret _ _ _ => Created | Mint _ => Some "jwt"
  end.
Notation Ensure r := (EnsureManifest by_equality sorted hash json platform true r).
Definition minted (l : list (Event Call)) : list (list string) :=
  omap (fun e => match e with @Ev _ X c x => match c with Mint cl => Some (cl_Capabilities cl) | _ => None end end) l.
Definition wired (l : list (Event Call)) : list (string * string * option string) :=
  l ≫= (fun e => match e with @Ev _ X c x => match c with
                 | CreateConfigMap _ _ (MCPDocument eps) => (fun ep => (ep_Name ep, ep_URL ep, sr_name <$> ep_CredentialSecretRef ep)) <$> eps | _ => [] end end).

Definition claims : Claims :=
  {| cl_TeamID := "t1"; cl_Principal := "ann"; cl_AgentID := "dev"; cl_RunID := "u1"; cl_Capabilities := [CapabilityWorkItemAuthor] |}.
Definition led : list (Event Call) := trace (ask true []) (Ensure run).
Definition before : nat := 18.

(** An agent whose Team grants it nothing and whose role coordinates nothing, with a
    skill that names a server of another namespace by the built-in's name: it is minted
    a token that may author, and that server is the one it is handed to. *)
Lemma ungranted_author :
  let cluster := ask false [at_ "evil" authoringMCPServerName] in
  exec cluster (ResolveGrant run) = Ok ∅ /\
  CapabilityWorkItemAuthor ∈ concat (minted (trace cluster (Ensure run))) /\
  (authoringMCPServerName, "http://evil", Some "r1-authoring-token") ∈ wired (trace cluster (Ensure run)).
Proof. split_and!; [vm_compute; reflexivity|apply (bool_decide_unpack _); vm_compute; exact I..]. Qed.

(** Two skills of two namespaces that name a server without one each demand it, and
    both demands are resolved in the Run's namespace: one server is wired twice. *)
Lemma wired_twice :
  let reqs := foldl (fun r ns => add_skill ns "s" {| sk_ns := ns; sk_SourceType := ""; sk_Inline := ""; sk_Git := None; sk_Permissions := []; sk_CredentialType := "";
                                                     sk_McpToolRefs := [at_ "" "gh"]; sk_Toolchains := []; sk_Sidecars := [] |} r) no_demand ["a"; "b"] in
  MCPRefs reqs = [at_ "" "gh"; at_ "" "gh"] /\
  match exec (ask false []) (ResolveMCP by_equality sorted run reqs ∅) with
  | Ok (eps, _) => ep_Name <$> eps = ["gh"; "gh"; searchMCPServerName] /\ ep_URL <$> eps = ["http://squad"; "http://squad"; "http://squad"]
  | Err _ => False
  end.
Proof. vm_compute. done. Qed.

(** Two granted skills of one name and two namespaces are projected into one ConfigMap. *)
Lemma skills_share_a_document :
  let granted ns body := {| gs_ns := ns; gs_name := "lint"; gs_SourceType := SkillSourceInline; gs_Inline := body; gs_Git := None; gs_Permissions := [ns]; gs_CredentialType := "" |} in
  SkillConfigMapFor json run (granted "a" "one") = Ok ("ksquad-run-r1-skill-lint", SkillDocument "one" ["a"]) /\
  SkillConfigMapFor json run (granted "b" "two") = Ok ("ksquad-run-r1-skill-lint", SkillDocument "two" ["b"]).
Proof. vm_compute. done. Qed.

(** An endpoint whose credential names no Secret is rebuilt with a variable it had not. *)
Lemma nameless_credential :
  let s := {| ms_ns := "squad"; ms_name := "gh"; ms_Transport := MCPTransportStdio; ms_Endpoint := ""; ms_Command := "gh"; ms_Args := []; ms_Image := ""; ms_Headers := ∅;
              ms_CredentialSecretRef := Some {| sr_name := ""; sr_key := "" |}; ms_ToolFilter := None; ms_EgressRef := None; ms_ObservedTools := ["x"]; ms_Conditions := [] |} in
  match endpointFor by_equality s with
  | Ok ep => ep_EnvNames ep = [] /\ ep_EnvNames <$> EndpointsFromManifest (Some (BuildManifest hash [] [ep] [])) = [["KSQUAD_MCP_GH_TOKEN"]]
  | Err _ => False
  end.
Proof. vm_compute. done. Qed.

(** The RBAC of a Run whose manifest is recorded follows a catalog that widens. *)
Definition widened X (c : Call X) : X :=
  match c in Call X return X with
  | GetToolchain ns name => if bool_decide (ns = "squad") then NotFound else Found (Kubectl.entry_of ns Kubectl.write_pods)
  | c => Kubectl.ask _ c
  end.
Definition rules_of (ask : forall X, Call X -> X) (r : Run) : list PolicyRule :=
  match exec ask (Toolchain.Ensure sorted platform r) with Ok (Some g) => gr_Rules g | _ => [] end.
Lemma rbac_follows_the_catalog :
  let r := run_with (Some (BuildManifest hash [] [] [])) in
  rules_of Kubectl.ask r = [Kubectl.read_pods] /\ rules_of widened r = [Kubectl.write_pods].
Proof. vm_compute. done. Qed.
End Squad.

Lemma authoring_needs_grant_witness :
  nth_error Squad.led Squad.before = Some (Ev (Mint Squad.claims) (Some "jwt")) /\ granted_by (take Squad.before Squad.led) Squad.run CapabilityWorkItemAuthor.
Proof.
  split; [vm_compute; reflexivity|].
  assert (take Squad.before Squad.led `prefix_of` Squad.led) as Hp by (exists (drop Squad.before Squad.led); by rewrite take_drop).
  apply (authoring_needs_grant Squad.by_equality Squad.sorted Squad.sorted_perm Squad.hash Squad.json Squad.platform true (asked (Squad.ask true [])) Squad.run tt
           (take Squad.before Squad.led) Squad.claims (Some "jwt") (drop (S Squad.before) Squad.led)
           (exec (Squad.ask true []) (EnsureManifest Squad.by_equality Squad.sorted Squad.hash Squad.json Squad.platform true Squad.run)) tt).
  - reflexivity.
  - assert (take Squad.before Squad.led ++ Ev (Mint Squad.claims) (Some "jwt") :: drop (S Squad.before) Squad.led = Squad.led) as -> by (vm_compute; reflexivity).
    apply runs_exec.
  - left.
  - intros ns name server Ha. apply (trace_answers _ _ _ _ _ Hp) in Ha. by injection Ha as ->.
  - intros ns name skill ref Ha. apply (trace_answers _ _ _ _ _ Hp) in Ha. injection Ha as ->. by intros ?%not_elem_of_nil.
Defined.

Lemma tools_within_filter_witness :
  exists eps servers, exec (Squad.ask false []) (ResolveMCP Squad.by_equality Squad.sorted Squad.run no_demand ∅) = Ok (eps, servers) /\
    ep_AllowTools <$> eps = [["create"]] /\ forall ep, ep ∈ eps -> ep_AllowTools ep <> [].
Proof.
  eexists _, _. split; [vm_compute; reflexivity|]. split; [reflexivity|]. intros ep Hep.
  refine (proj1 (tools_within_filter Squad.by_equality Squad.sorted Squad.sorted_perm (asked (Squad.ask false [])) Squad.run no_demand ∅ tt
    (trace (Squad.ask false []) (ResolveMCP Squad.by_equality Squad.sorted Squad.run no_demand ∅)) _ [Squad.server "squad" searchMCPServerName "http://squad"] tt _ ep Hep)).
  exact (runs_exec (Squad.ask false []) (ResolveMCP Squad.by_equality Squad.sorted Squad.run no_demand ∅)).
Defined.

Lemma manifest_immutable_witness :
  let m := BuildManifest Squad.hash [] [] [] in
  exec (Squad.ask false []) (EnsureManifest Squad.by_equality Squad.sorted Squad.hash Squad.json Squad.platform true (Squad.run_with (Some m))) = Ok m /\
  forall ns name x, Ev (GetSkill ns name) x ∉ trace (Squad.ask false []) (EnsureManifest Squad.by_equality Squad.sorted Squad.hash Squad.json Squad.platform true (Squad.run_with (Some m))).
Proof.
  cbn zeta. split; [vm_compute; reflexivity|].
  apply (manifest_immutable Squad.by_equality Squad.sorted Squad.hash Squad.json Squad.platform true (asked (Squad.ask false []))
    (Squad.run_with (Some (BuildManifest Squad.hash [] [] []))) (BuildManifest Squad.hash [] [] []) tt _
    (exec (Squad.ask false []) (EnsureManifest Squad.by_equality Squad.sorted Squad.hash Squad.json Squad.platform true (Squad.run_with (Some (BuildManifest Squad.hash [] [] []))))) tt eq_refl).
  apply runs_exec.
Defined.
