(* ===== verification/ToolGateProps.v ===== *)
(** The go-live gate fails closed, and its report is what to fix; the names of the
    materialized Secrets. *)
From S2P Require Import Prelude ToolGate.
Open Scope k8s_scope.

(** * Sorted reports *)

Lemma dedupe_elem x l : x ∈ dedupeSorted l <-> x ∈ l.
Proof.
  induction l as [|y l IH]; cbn; [done|].
  destruct (dedupeSorted l) as [|z zs] eqn:E; [|case_bool_decide]; subst; rewrite ?elem_of_cons, <- IH, ?elem_of_cons; naive_solver.
Qed.

Lemma dedupe_head l : head (dedupeSorted l) = head l.
Proof.
  destruct l as [|x l]; [done|]. cbn. destruct (dedupeSorted l) as [|y ys]; [done|]. by case_bool_decide; subst.
Qed.

Lemma dedupe_sorted (R : relation string) l : StronglySorted R l -> StronglySorted R (dedupeSorted l).
Proof.
  induction 1 as [|x l Hl IH Hx]; cbn; [constructor|].
  assert (Forall (R x) (dedupeSorted l)) as Hd.
  { rewrite Forall_forall in *. intros z Hz. apply Hx. by apply dedupe_elem. }
  destruct (dedupeSorted l) as [|y ys]; [by repeat constructor|]. case_bool_decide; [done|]. by constructor.
Qed.

Lemma dedupe_NoDup (R : relation string) `{!AntiSymm eq R} l : StronglySorted R l -> NoDup (dedupeSorted l).
Proof.
  induction 1 as [|x l Hl IH Hx]; cbn; [constructor|].
  destruct (dedupeSorted l) as [|y ys] eqn:E; [apply NoDup_singleton|]. case_bool_decide as Hne; [done|].
  constructor; [|done]. intros Hin. apply Hne.
  assert (R x y) as Hxy.
  { rewrite Forall_forall in Hx. apply Hx. apply dedupe_elem. rewrite E. by left. }
  apply (anti_symm R); [done|]. pose proof (dedupe_sorted R l Hl) as Hs. rewrite E in Hs.
  apply elem_of_cons in Hin as [->|Hin]; [done|]. apply StronglySorted_inv in Hs as [_ Hs].
  rewrite Forall_forall in Hs. by apply Hs.
Qed.

Definition report (l : list string) : Prop := NoDup l /\ StronglySorted String.le l.

Lemma report_sorted l : report (dedupeSorted (merge_sort String.le l)).
Proof.
  assert (StronglySorted String.le (merge_sort String.le l)) by apply (StronglySorted_merge_sort _).
  split; [by apply (dedupe_NoDup String.le)|by apply dedupe_sorted].
Qed.

Lemma sorted_report_elem x l : x ∈ dedupeSorted (merge_sort String.le l) <-> x ∈ l.
Proof. rewrite dedupe_elem. by rewrite merge_sort_Permutation. Qed.

(** * The verdict *)

Definition satisfies (sat : gset string) (t : string) : Prop := IsKnownType t = true /\ t ∈ sat.

(** A skill that declares nothing that gates, or one type of which is satisfied. *)
Definition admissible (sat : gset string) (annotation : string) : Prop :=
  (forall t, t ∈ SplitCredentialTypes annotation -> gating t = false) \/
  exists t, t ∈ SplitCredentialTypes annotation /\ gating t = true /\ satisfies sat t.

#[export] Instance satisfies_dec sat t : Decision (satisfies sat t).
Proof. unfold satisfies. apply _. Defined.

Lemma met_satisfies sat t : IsKnownType t && bool_decide (t ∈ sat) = bool_decide (satisfies sat t).
Proof.
  destruct (bool_decide (satisfies sat t)) eqn:Hs; reflect_bools.
  - destruct Hs as [-> ?]. by apply bool_decide_eq_true_2.
  - apply andb_false_iff. destruct (IsKnownType t) eqn:Hk; [right|by left]. by apply bool_decide_eq_false_2; intros ?; apply Hs.
Qed.

Lemma needs_elem annotation t :
  t ∈ filter (fun t => gating t = true) (SplitCredentialTypes annotation) <->
  t ∈ SplitCredentialTypes annotation /\ gating t = true.
Proof. rewrite list_elem_of_filter. tauto. Qed.

Lemma skill_admitted_iff annotation sat :
  SkillAdmitted (EvaluateSkillGate annotation sat) = true <-> admissible sat annotation.
Proof.
  unfold EvaluateSkillGate, admissible. case_bool_decide as Hn; cbn.
  - split; [|done]. intros _. left. intros t Ht. destruct (gating t) eqn:Hg; [|done].
    assert (t ∈ @nil string) as []%elem_of_nil by (rewrite <- Hn; by apply needs_elem).
  - rewrite existsb_exists. split.
    + intros (t & Ht%list_elem_of_In%needs_elem & Hm). right. exists t. rewrite met_satisfies in Hm. reflect_bools. tauto.
    + intros [Hnone|(t & ? & ? & ?)].
      * exfalso. apply Hn. apply elem_of_nil_inv. intros t [Ht Hg]%needs_elem. apply Hnone in Ht. congruence.
      * exists t. rewrite met_satisfies, bool_decide_eq_true_2 by done. split; [|done].
        by apply list_elem_of_In, needs_elem.
Qed.

Lemma skill_missing annotation sat t :
  t ∈ Missing (EvaluateSkillGate annotation sat) <->
  ~ admissible sat annotation /\ t ∈ SplitCredentialTypes annotation /\ gating t = true.
Proof.
  rewrite <- skill_admitted_iff. unfold EvaluateSkillGate. case_bool_decide as Hn; cbn.
  { rewrite elem_of_nil. tauto. }
  destruct (existsb _ _) eqn:Hm; [rewrite elem_of_nil; naive_solver|].
  rewrite sorted_report_elem, list_elem_of_filter, needs_elem, met_satisfies.
  split; [naive_solver|]. intros (_ & Hd & Hg). split; [|done].
  destruct (bool_decide (satisfies sat t)) eqn:Hs; [|done].
  assert (existsb (fun t => IsKnownType t && bool_decide (t ∈ sat))
    (filter (fun t => gating t = true) (SplitCredentialTypes annotation)) = true) as Hm'.
  { apply existsb_exists. exists t. rewrite met_satisfies. split; [|done]. by apply list_elem_of_In, needs_elem. }
  congruence.
Qed.

Lemma admissible_mono sat sat' annotation : sat ⊆ sat' -> admissible sat annotation -> admissible sat' annotation.
Proof. unfold admissible, satisfies. intros Hs [?|(t & ? & ? & ? & ?)]; [by left|right]. exists t. set_solver. Qed.

Lemma run_admitted_iff skills sat :
  Admitted_ (EvaluateRunGate skills sat) = true <-> forall s, s ∈ skills -> admissible sat (Annotation s).
Proof.
  unfold EvaluateRunGate; cbn. rewrite bool_decide_eq_true. split.
  - intros Hn s Hs. apply skill_admitted_iff. destruct (SkillAdmitted _) eqn:E; [done|].
    assert (s ∈ @nil GatedSkill) as []%elem_of_nil.
    rewrite <- Hn. apply list_elem_of_filter. split; [|done]. unfold withheld. by rewrite E.
  - intros Ha. apply elem_of_nil_inv. intros s [Hw Hs]%list_elem_of_filter. unfold withheld in Hw.
    by rewrite (proj2 (skill_admitted_iff _ _) (Ha s Hs)) in Hw.
Qed.

Lemma run_missing skills sat t :
  t ∈ MissingTypes (EvaluateRunGate skills sat) <->
  exists s, s ∈ skills /\ t ∈ Missing (EvaluateSkillGate (Annotation s) sat).
Proof.
  unfold EvaluateRunGate; cbn. case_bool_decide as Hn.
  - rewrite elem_of_nil. split; [done|]. intros (s & Hs & (Hna & _)%skill_missing). apply Hna.
    apply (run_admitted_iff skills); [|done]. cbn. by apply bool_decide_eq_true_2.
  - rewrite sorted_report_elem, list_elem_of_In, in_flat_map. setoid_rewrite <- list_elem_of_In. split.
    + intros (s & [_ Hs]%list_elem_of_filter & Ht). by exists s.
    + intros (s & Hs & Ht). exists s. split; [|done]. apply list_elem_of_filter. split; [|done].
      unfold withheld. pose proof (proj1 (skill_missing _ _ _) Ht) as [Hna _].
      destruct (SkillAdmitted _) eqn:E; [|done]. by apply skill_admitted_iff in E.
Qed.

(** The go-live gate fails closed and reports what to fix. A Run is admitted
    exactly when each of its gated skills declares no type that gates or has one
    declared type that gates, is in the registry and is satisfied; more credentials
    never withhold a Run. A withheld Run reports, sorted and once each, exactly the
    gating types of its withheld skills, at least one; and once all of these are
    satisfied, if each withheld skill declares one the registry knows, the Run is
    admitted. *)
Theorem gate_fail_closed skills sat :
  let d := EvaluateRunGate skills sat in
  (Admitted_ d = true <-> forall s, s ∈ skills -> admissible sat (Annotation s)) /\
  (forall sat', sat ⊆ sat' -> Admitted_ d = true -> Admitted_ (EvaluateRunGate skills sat') = true) /\
  report (MissingTypes d) /\
  (forall t, t ∈ MissingTypes d <-> exists s, s ∈ skills /\ ~ admissible sat (Annotation s) /\
     t ∈ SplitCredentialTypes (Annotation s) /\ gating t = true) /\
  (Admitted_ d = false -> MissingTypes d <> []) /\
  ((forall s, s ∈ skills -> ~ admissible sat (Annotation s) ->
      exists t, t ∈ SplitCredentialTypes (Annotation s) /\ gating t = true /\ IsKnownType t = true) ->
   Admitted_ (EvaluateRunGate skills (sat ∪ list_to_set (MissingTypes d))) = true).
Proof.
  intros d. subst d. split; [apply run_admitted_iff|]. split.
  { intros sat' Hs. rewrite !run_admitted_iff. eauto using admissible_mono. }
  split; [unfold EvaluateRunGate; cbn; case_bool_decide; [by split; constructor|apply report_sorted]|].
  assert (forall t, t ∈ MissingTypes (EvaluateRunGate skills sat) <-> exists s, s ∈ skills /\
     ~ admissible sat (Annotation s) /\ t ∈ SplitCredentialTypes (Annotation s) /\ gating t = true) as Hmiss.
  { intros t. rewrite run_missing. setoid_rewrite skill_missing. tauto. }
  split; [done|]. split.
  - intros Hf Hn. apply not_true_iff_false in Hf. apply Hf, run_admitted_iff. intros s Hs.
    destruct (decide (SkillAdmitted (EvaluateSkillGate (Annotation s) sat) = true)) as [Ha|Ha];
      rewrite skill_admitted_iff in Ha; [done|].
    exfalso. apply Ha. left. intros t Ht. destruct (gating t) eqn:Hg; [|done].
    assert (t ∈ @nil string) as []%elem_of_nil. rewrite <- Hn. apply Hmiss. by exists s.
  - intros Hknown. apply run_admitted_iff. intros s Hs.
    destruct (decide (SkillAdmitted (EvaluateSkillGate (Annotation s) sat) = true)) as [Ha|Ha];
      rewrite skill_admitted_iff in Ha; [eapply admissible_mono; [|exact Ha]; set_solver|].
    destruct (Hknown s Hs Ha) as (t & Ht & Hg & Hk). right. exists t. split_and!; [done..|]. split; [done|].
    apply elem_of_union_r, elem_of_list_to_set, Hmiss. by exists s.
Qed.

Lemma gate_fail_closed_witness :
  let skills := [{| SourceName := "ns/deploy"; Annotation := "github, dynatrace" |};
                 {| SourceName := "ns/post"; Annotation := "x-publish" |}] in
  MissingTypes (EvaluateRunGate skills {[ "github" ]}) = ["x-publish"] /\
  Admitted_ (EvaluateRunGate skills ({[ "github" ]} ∪ list_to_set (MissingTypes (EvaluateRunGate skills {[ "github" ]})))) = true.
Proof.
  intros skills. split; [vm_compute; reflexivity|].
  destruct (gate_fail_closed skills {[ "github" ]}) as (_ & _ & _ & _ & _ & Hfix). apply Hfix.
  intros s [->|[->|[]%elem_of_nil]%elem_of_cons]%elem_of_cons _; [exists "github"|exists "x-publish"];
    (split; [apply (bool_decide_unpack _); vm_compute; exact I|split; vm_compute; reflexivity]).
Defined.

(** * Secret names *)

(** Two projects can share a materialized Secret. *)
Lemma projects_share_a_secret :
  MaterializedSecretName "a.b" "github" = MaterializedSecretName "a-b" "github" /\
  MaterializedSecretName "A" "github" = MaterializedSecretName "a" "github".
Proof. split; vm_compute; reflexivity. Qed.

Lemma registry_valid : ValidateBindings = [].
Proof. vm_compute. reflexivity. Qed.
