(* ===== verification/ModelEndpointProps.v ===== *)
(** The model endpoint seam: a pair of endpoints comes from one tier and from its
    Secrets only, a failure has its cause, the Retry-After parse is exact up to the
    overflow of its product, and provenance segments are only opened and closed. *)
From Stdlib Require Import Ascii.
From S2P Require Import Prelude GoStr Calls ModelEndpoint.
Open Scope Z_scope.
Open Scope k8s_scope.

Section resolution.
Context (url_parse : string -> option (string * string * string)) (SystemNamespace : string).
Context (agent : option Agent) (role : option Role).
Implicit Types (h hist : list (Event Call)).

(** * What a resolution may read *)

(** Neither the agent nor the role names a model. *)
Definition unset : Prop :=
  (forall a, agent = Some a -> ag_model a = "") /\ (forall r, role = Some r -> rl_model r = "").

(** The highest tier with a model. *)
Inductive wins h : tierInput -> Prop :=
| wins_agent a : agent = Some a -> ag_model a <> "" -> wins h (agentTier a)
| wins_role r : (forall a, agent = Some a -> ag_model a = "") -> role = Some r -> rl_model r <> "" -> wins h (roleTier r)
| wins_default mc : unset -> answered h (GetModelConfig (systemNamespace SystemNamespace) DefaultModelConfigName) (Found mc) ->
    mc_model mc <> "" -> wins h (defaultTier mc).

Definition secret_names (t : tierInput) : list string :=
  sr_name <$> (option_list (ti_endpoint t) ++ option_list (ti_credential t) ++
               option_list (ti_fallback t ≫= fb_ref)).

Definition reads h X (c : Call X) : Prop :=
  match c with
  | GetModelConfig ns name => ns = systemNamespace SystemNamespace /\ name = DefaultModelConfigName /\ unset
  | GetSecret ns name => exists t, wins h t /\ ns = ti_namespace t /\ name ∈ secret_names t
  | IncFallbackActivation _ => False
  end.

Notation ok := (obeys reads any_answer).

Lemma wins_prefix h h' t : h `prefix_of` h' -> wins h t -> wins h' t.
Proof. intros Hp []; [by apply wins_agent|by apply wins_role|]. apply wins_default; eauto using answered_prefix. Qed.

(** What an endpoint takes from its Secret, but the token. *)
Record serves h (t : tierInput) (ref : SecretRef) (model : string) (s : Secret) (ep : Endpoint) : Prop := {
  sv_read : answered h (GetSecret (ti_namespace t) (sr_name ref)) (Some s);
  sv_model : Model ep = model;
  sv_name : SecretName ep = sr_name ref;
  sv_url : exists scheme host text, scheme ∈ ["http"; "https"] /\ host <> "" /\
    url_parse (TrimSpace (secretKey s (if bool_decide (sr_key ref = "") then KeyEndpointURL else sr_key ref) aliasURL))
      = Some (scheme, host, text) /\ BaseURL ep = trim_slashes text;
  sv_window : 0 <= ContextWindow ep;
  sv_slots : 0 <= MaxConcurrent ep;
}.

(** An endpoint that rides a Secret of the tier; [own]: its Secret's token wins over
    the credential of the tier. *)
Definition rides h (t : tierInput) (ref : SecretRef) (model : string) (own : bool) (ep : Endpoint) : Prop :=
  exists s, serves h t ref model s ep /\
    (Token ep = secretKey s KeyAPIToken aliasToken \/
     Token ep <> "" /\ (own = true -> secretKey s KeyAPIToken aliasToken = "") /\
     exists cr sc, ti_credential t = Some cr /\ answered h (GetSecret (ti_namespace t) (sr_name cr)) (Some sc) /\
       Token ep = credential_token cr sc).

Definition endpoint_of h (t : tierInput) (ref : option SecretRef) (model : string) (own : bool) (ep : Endpoint) : Prop :=
  match ref with
  | None => ep = provider_default model
  | Some r => rides h t r model own ep
  end.

Definition fallback_of h (t : tierInput) (f : option Endpoint) : Prop :=
  match ti_fallback t, f with
  | None, None => True
  | Some fb, Some ep =>
      endpoint_of h t (match fb_ref fb with Some r => Some r | None => ti_endpoint t end) (fb_model fb)
        (bool_decide (is_Some (fb_ref fb))) ep
  | _, _ => False
  end.

(** A failure with its cause. *)
Definition cause h (e : ErrUnresolved) : Prop :=
  match e with
  | ErrNoModel => unset /\
      (answered h (GetModelConfig (systemNamespace SystemNamespace) DefaultModelConfigName) NotFound \/
       exists mc, answered h (GetModelConfig (systemNamespace SystemNamespace) DefaultModelConfigName) (Found mc) /\ mc_model mc = "")
  | ConfigUnread _ _ => unset /\ answered h (GetModelConfig (systemNamespace SystemNamespace) DefaultModelConfigName) ReadError
  | SecretUnread ns name => answered h (GetSecret ns name) None
  | MissingKey ns name key => exists s, answered h (GetSecret ns name) (Some s) /\ secretKey s key aliasURL = ""
  | BadURL ns name raw => exists s key, answered h (GetSecret ns name) (Some s) /\ secretKey s key aliasURL = raw /\
      match url_parse (TrimSpace raw) with
      | Some (scheme, host, _) => host = "" \/ scheme ∉ ["http"; "https"]
      | None => True
      end
  end.

Lemma serves_prefix h h' t ref model s ep : h `prefix_of` h' -> serves h t ref model s ep -> serves h' t ref model s ep.
Proof. intros Hp []. split; eauto using answered_prefix. Qed.

Lemma rides_prefix h h' t ref model own ep : h `prefix_of` h' -> rides h t ref model own ep -> rides h' t ref model own ep.
Proof.
  intros Hp (s & Hs & Ht). exists s. split; [by eapply serves_prefix|].
  destruct Ht as [|(? & ? & cr & sc & ? & ? & ?)]; [by left|right]. split_and!; [done..|]. exists cr, sc. eauto using answered_prefix.
Qed.

Lemma endpoint_prefix h h' t ref model own ep :
  h `prefix_of` h' -> endpoint_of h t ref model own ep -> endpoint_of h' t ref model own ep.
Proof. destruct ref; cbn; [apply rides_prefix|done]. Qed.

Lemma cause_prefix h h' e : h `prefix_of` h' -> cause h e -> cause h' e.
Proof. intros Hp. destruct e; cbn; naive_solver eauto using answered_prefix. Qed.

(** * One endpoint *)

Lemma positive_parse raw : 0 <= match atoi raw with Some n => if n <=? 0 then 0 else n | None => 0 end.
Proof. repeat case_match; reflect_bools; lia. Qed.

Lemma ok_ref t ref model hist :
  wins hist t -> sr_name ref ∈ secret_names t ->
  ok (fun h r => match r with
                 | Ok ep => exists s, serves h t ref model s ep /\ Token ep = secretKey s KeyAPIToken aliasToken
                 | Err e => cause h e
                 end) hist (ResolveRef url_parse (ti_namespace t) ref model).
Proof.
  intros Hw Hn. unfold ResolveRef. cbn [obeys pbind call]. split; [by exists t|]. intros [s|] _; [|apply answered_last].
  set (h := hist ++ _). assert (answered h (GetSecret (ti_namespace t) (sr_name ref)) (Some s)) as Hs by apply answered_last.
  case_bool_decide as Hraw; [by exists s|].
  destruct (url_parse _) as [[[scheme host] text]|] eqn:Hu.
  2: { exists s. eexists. split; [exact Hs|]. split; [reflexivity|]. by rewrite Hu. }
  destruct (bool_decide (host = "") || _) eqn:Hv.
  { exists s. eexists. split; [exact Hs|]. split; [reflexivity|]. rewrite Hu. apply orb_true_iff in Hv as [Hv|Hv].
    - left. by apply bool_decide_eq_true in Hv.
    - right. by apply negb_true_iff, bool_decide_eq_false in Hv. }
  apply orb_false_iff in Hv as [Hh Hsc]. apply bool_decide_eq_false in Hh. apply negb_false_iff, bool_decide_eq_true in Hsc.
  exists s. split; [|done]. split; [done|done|done| |apply positive_parse|apply positive_parse].
  by exists scheme, host, text.
Qed.

(** Applying the credential of the tier. *)
Lemma ok_credential t ref model (own : bool) s ep hist :
  wins hist t -> serves hist t ref model s ep -> Token ep = secretKey s KeyAPIToken aliasToken ->
  (own = true -> Token ep = "") ->
  ok (fun h ep => rides h t ref model own ep) hist (applyCredentialToken (ti_namespace t) (ti_credential t) ep).
Proof.
  intros Hw Hs Htok Hown. assert (forall h, hist `prefix_of` h -> rides h t ref model own ep) as Hr.
  { intros h Hp. exists s. split; [by eapply serves_prefix|by left]. }
  unfold applyCredentialToken. destruct (ti_credential t) as [cr|] eqn:Hcr; [|by apply Hr].
  case_bool_decide; [by apply Hr|]. cbn [obeys pbind call]. split.
  { exists t. split; [done|]. split; [done|]. unfold secret_names. rewrite Hcr. apply list_elem_of_fmap. exists cr.
    split; [done|]. rewrite !elem_of_app. right. left. by left. }
  intros [sc|] _; [|apply Hr; by eexists]. case_bool_decide as Ht; [apply Hr; by eexists|].
  exists s. destruct (serves_prefix hist (hist ++ [Ev (GetSecret (ti_namespace t) (sr_name cr)) (Some sc)]) t ref model s ep)
    as [? ? ? ? ? ?]; [by eexists|done|]. split; [by split|]. right.
  split; [done|]. split; [intros E; rewrite <- Htok; auto|]. exists cr, sc. split; [done|]. split; [apply answered_last|done].
Qed.

Lemma ok_primary t hist :
  wins hist t ->
  ok (fun h r => match r with Ok ep => endpoint_of h t (ti_endpoint t) (ti_model t) false ep | Err e => cause h e end) hist
     (resolvePrimary url_parse t).
Proof.
  intros Hw. unfold resolvePrimary, endpoint_of. destruct (ti_endpoint t) as [ref|] eqn:He; [|done].
  apply obeys_bind. eapply obeys_weaken; [apply ok_ref; [done|]|].
  { unfold secret_names. rewrite He. by left. }
  intros h [ep|e] Hp Hr; [|exact Hr]. destruct Hr as (s & Hs & Htok). apply obeys_bind.
  eapply obeys_weaken; [apply (ok_credential t ref (ti_model t) false s); [by eapply wins_prefix|done..]|].
  by intros h' ep' _ Hr'.
Qed.

Lemma ok_fallback t hist :
  wins hist t ->
  ok (fun h r => match r with Ok f => fallback_of h t f | Err e => cause h e end) hist (resolveFallback url_parse t).
Proof.
  intros Hw. unfold resolveFallback, fallback_of. destruct (ti_fallback t) as [fb|] eqn:Hf; [|done].
  destruct (match fb_ref fb with Some r => Some r | None => ti_endpoint t end) as [ref|] eqn:Href; [|done].
  apply obeys_bind. eapply obeys_weaken; [apply ok_ref; [done|]|].
  { unfold secret_names. rewrite Hf. apply list_elem_of_fmap. exists ref. split; [done|]. rewrite !elem_of_app. cbn.
    destruct (fb_ref fb); [right; right|left]; [injection Href as ->; by left|rewrite Href; by left]. }
  intros h [ep|e] Hp Hr; [|exact Hr]. destruct Hr as (s & Hs & Htok). destruct (_ && _) eqn:Hown.
  - exists s. split; [done|by left].
  - apply obeys_bind. eapply obeys_weaken; [apply (ok_credential t ref (fb_model fb) (bool_decide (is_Some (fb_ref fb))) s)|].
    + by eapply wins_prefix.
    + done.
    + done.
    + intros E. rewrite E in Hown. by apply negb_false_iff, bool_decide_eq_true in Hown.
    + by intros h' ep' _ Hr'.
Qed.

Lemma ok_winning hist :
  ok (fun h r => match r with Ok t => wins h t | Err e => cause h e end) hist (winningTier SystemNamespace agent role).
Proof.
  unfold winningTier.
  destruct (match agent with Some a => _ | None => None end) as [a|] eqn:Ha.
  { destruct agent as [a'|] eqn:E; [|done]. case_bool_decide; [done|]. simplify_eq. by apply wins_agent. }
  assert (forall a, agent = Some a -> ag_model a = "") as Hna.
  { intros a E. rewrite E in Ha. by case_bool_decide. }
  destruct (role_supplies role) as [r|] eqn:Hr.
  { unfold role_supplies in Hr. destruct role as [r'|] eqn:E; [|done]. case_bool_decide; [done|]. simplify_eq. by apply wins_role. }
  assert (unset) as Hun.
  { split; [done|]. intros r E. unfold role_supplies in Hr. rewrite E in Hr. by case_bool_decide. }
  cbn [obeys pbind call defaultModelConfig]. split; [done|]. intros [mc| |] _.
  - case_bool_decide as Hm; cbn.
    + split; [done|]. right. exists mc. split; [apply answered_last|done].
    + apply wins_default; [done|apply answered_last|done].
  - split; [done|]. left. apply answered_last.
  - split; [done|]. apply answered_last.
Qed.

Lemma ok_effective :
  ok (fun h '(tier, r) => match r with
        | Ok (p, f) => exists t, wins h t /\ tier = Some (ti_tier t) /\ ti_model t <> "" /\
            endpoint_of h t (ti_endpoint t) (ti_model t) false p /\ fallback_of h t f
        | Err e => cause h e
        end) [] (ResolveEffective url_parse SystemNamespace agent role).
Proof.
  unfold ResolveEffective. apply obeys_bind. eapply obeys_weaken; [apply ok_winning|]. intros h [t|e] _ Hw; [|exact Hw].
  apply obeys_bind. eapply obeys_weaken; [by apply ok_primary|]. intros h' [p|e] Hp Hprim; [|exact Hprim].
  apply obeys_bind. eapply obeys_weaken; [apply ok_fallback; by eapply wins_prefix|].
  intros h'' [f|e] Hp' Hf; [|exact Hf]. cbn. exists t. split; [eapply wins_prefix; [|exact Hw]; by etrans|].
  split; [done|]. split; [by destruct Hw|]. split; [by eapply endpoint_prefix|done].
Qed.
End resolution.

(** The model of a Run comes from one tier. Whatever the cluster answers, a
    resolution takes the agent, else its role, else the system default: the first
    that names a model, which is then not empty; it reads the default only when the
    others name none, and of Secrets only those the winning tier names, in that
    tier's namespace. On success primary and fallback are that tier's own: each is
    the provider default where no Secret is named, and otherwise has a valid http
    or https URL from its Secret, and a token from it or from the tier's credential
    Secret, which never replaces the token of a fallback with a Secret of its own.
    A failure has its cause: no model anywhere, or an answer that was an error, a
    missing key or a bad URL. *)
Theorem effective_is_a_unit url_parse SystemNamespace agent role {W} (h : forall X, Call X -> W -> X -> W -> Prop)
    (w : W) t tier r w' :
  runs h (ResolveEffective url_parse SystemNamespace agent role) w t (tier, r) w' ->
  (forall ns name x t1 t2, t = t1 ++ Ev (GetSecret ns name) x :: t2 ->
     exists win, wins SystemNamespace agent role t1 win /\ ns = ti_namespace win /\ name ∈ secret_names win) /\
  (forall ns name x, answered t (GetModelConfig ns name) x ->
     ns = systemNamespace SystemNamespace /\ name = "default"%string /\ unset agent role) /\
  match r with
  | Ok (p, f) => exists win, wins SystemNamespace agent role t win /\ tier = Some (ti_tier win) /\
      Model p = ti_model win /\ Model p <> "" /\ endpoint_of url_parse t win (ti_endpoint win) (ti_model win) false p /\
      fallback_of url_parse t win f
  | Err e => cause url_parse SystemNamespace agent role t e
  end.
Proof.
  intros Hr. eapply (obeys_runs (reads SystemNamespace agent role) any_answer h (fun _ _ => True)) in Hr as (_ & Ht & Hpost);
    [|by intros|apply (ok_effective url_parse)|done]. split_and!.
  - intros ns name x t1 t2 ->. apply trace_ok_at in Ht as [Hd _]. exact Hd.
  - intros ns name x (t1 & t2 & ->)%list_elem_of_split. apply trace_ok_at in Ht as [Hd _]. exact Hd.
  - destruct r as [[p f]|e]; [|exact Hpost]. destruct Hpost as (win & Hw & Htier & Hne & Hp & Hf). exists win.
    assert (Model p = ti_model win) as Hm.
    { unfold endpoint_of in Hp. destruct (ti_endpoint win) as [ref|]; [|by subst p]. by destruct Hp as (s & [] & _). }
    split_and!; try done. by rewrite Hm.
Qed.

(** * Retry-After *)

Lemma time_sub_range t u : int64 (time_sub t u).
Proof. unfold time_sub, int64. lia. Qed.

(** The Retry-After parse and its bounds. The window is an int64 of nanoseconds.
    A decimal number of seconds that is not negative gives exactly that many up to
    9223372036, and beyond it the product wraps; a date gives the time left, none
    if it has passed, and at most the largest duration; anything else, a negative
    number and the empty value give no window. A negative window comes of the wrap
    and of nothing else. *)
Theorem retry_after_bounds ParseTime value now :
  let d := (ParseRetryAfter ParseTime value now).1 in
  let ok := (ParseRetryAfter ParseTime value now).2 in
  int64 d /\
  (d < 0 -> exists secs, atoi (TrimSpace value) = Some secs /\ 9223372036 < secs) /\
  match atoi (TrimSpace value), ParseTime (TrimSpace value) with
  | Some secs, _ =>
      (secs < 0 -> ok = false /\ d = 0) /\ (0 <= secs <= 9223372036 -> ok = true /\ d = secs * 1000000000) /\
      (9223372036 < secs -> ok = true /\ exists k, d = secs * 1000000000 - k * 2 ^ 64)
  | None, Some t => TrimSpace value <> ""%string ->
      ok = true /\ 0 <= d /\ (t <= now -> d = 0) /\ (now <= t <= now + (2 ^ 63 - 1) -> d = t - now)
  | None, None => ok = false /\ d = 0
  end.
Proof.
  unfold ParseRetryAfter. cbv zeta. destruct (bool_decide (TrimSpace value = ""%string)) eqn:He.
  { apply bool_decide_eq_true in He. rewrite He. cbn. split; [unfold int64; lia|]. split; [lia|].
    destruct (ParseTime _); [by intros []|done]. }
  apply bool_decide_eq_false in He. destruct (atoi (TrimSpace value)) as [secs|] eqn:Ha.
  - destruct (secs <? 0) eqn:Hs; reflect_bools; cbn [fst snd].
    { split; [unfold int64; lia|]. split; [lia|]. split_and!; [done|lia|lia]. }
    split; [apply wrap64_range|]. unfold second. assert (secs <= 9223372036 -> wrap64 (secs * 1000000000) = secs * 1000000000) as Hw.
    { intros. apply wrap64_id. unfold int64. lia. }
    split.
    { intros Hneg. exists secs. split; [done|]. destruct (Z.le_gt_cases secs 9223372036); [|lia]. rewrite Hw in Hneg; lia. }
    split_and!; [lia|auto with lia|]. intros _. split; [done|]. unfold wrap64.
    exists ((secs * 1000000000 + 2 ^ 63) / 2 ^ 64).
    pose proof (Z.div_mod (secs * 1000000000 + 2 ^ 63) (2 ^ 64) ltac:(lia)). lia.
  - destruct (ParseTime (TrimSpace value)) as [t|]; [|cbn; split_and!; [unfold int64; lia|lia|done|done]].
    destruct (time_sub t now <? 0) eqn:Hd; reflect_bools; cbn [fst snd]; unfold time_sub in *.
    + split; [unfold int64; lia|]. split; [lia|]. intros _. split_and!; [done|lia|lia|lia].
    + split; [unfold int64; lia|]. split; [lia|]. intros _. split_and!; [done|lia|lia|lia].
Qed.

(** A window above 292 years is taken for a past one, or for any other. *)
Lemma retry_after_wraps ParseTime now :
  ParseRetryAfter ParseTime "9223372037" now = (- 9223372036709551616, true) /\
  ParseRetryAfter ParseTime "18446744074" now = (290448384, true).
Proof. split; vm_compute; reflexivity. Qed.

(** * Segments *)

#[export] Instance open_on_dec model s : Decision (open_on model s).
Proof. apply _. Defined.

Lemma close_last_spec segments model at_ reason :
  match close_last segments model at_ reason with
  | Some l' => exists l1 s l2, segments = l1 ++ s :: l2 /\ open_on model s /\ (forall x, x ∈ l2 -> ~ open_on model x) /\
      l' = l1 ++ end_segment at_ reason s :: l2
  | None => forall x, x ∈ segments -> ~ open_on model x
  end.
Proof.
  induction segments as [|s rest IH]; cbn; [by intros x ?%elem_of_nil|].
  destruct (close_last rest model at_ reason) as [rest'|].
  - destruct IH as (l1 & s' & l2 & -> & ? & ? & ->). exists (s :: l1), s', l2. by split_and!.
  - case_decide as Hd.
    + exists [], s, rest. by split_and!.
    + intros x [->|Hx]%elem_of_cons; [done|by apply IH].
Qed.

(** A segment may end, once; nothing else of it changes. *)
Definition touched (s s' : ModelSegment) : Prop :=
  s' = s \/ sg_ended s = None /\ exists at_ reason, s' = end_segment at_ reason s.

#[export] Instance touched_refl : Reflexive touched.
Proof. by left. Qed.

#[export] Instance touched_trans : Transitive touched.
Proof.
  intros s1 s2 s3 [->|(H1 & at1 & r1 & ->)] [->|(H2 & at2 & r2 & ->)]; [by left|right; eauto|right; eauto|].
  by cbn in H2.
Qed.

Lemma CloseSegment_touched segments model at_ reason : Forall2 touched segments (CloseSegment segments model at_ reason).
Proof.
  unfold CloseSegment. pose proof (close_last_spec segments model at_ reason) as H. destruct (close_last _ _ _ _) as [l'|]; cbn.
  - destruct H as (l1 & s & l2 & -> & [_ Hs] & _ & ->). apply Forall2_app; [by apply Forall_Forall2_diag, Forall_true|].
    constructor; [right; eauto|by apply Forall_Forall2_diag, Forall_true].
  - by apply Forall_Forall2_diag, Forall_true.
Qed.

(** Closing a segment is exact. It ends the last open segment of the model, with
    the instant and the reason, and touches no other; without one it changes
    nothing; and it undoes an opening up to the record of it. *)
Theorem segments_exact segments model at_ reason :
  (forall l1 s l2, segments = l1 ++ s :: l2 -> sg_model s = model -> sg_ended s = None ->
     (forall x, x ∈ l2 -> ~ (sg_model x = model /\ sg_ended x = None)) ->
     CloseSegment segments model at_ reason = l1 ++ end_segment at_ reason s :: l2) /\
  ((forall x, x ∈ segments -> ~ (sg_model x = model /\ sg_ended x = None)) ->
     CloseSegment segments model at_ reason = segments) /\
  (forall ep tier started, Model ep = model ->
     exists s, CloseSegment (OpenSegment segments ep tier started) model at_ reason = segments ++ [s] /\
       sg_model s = model /\ sg_started s = started /\ sg_ended s = Some at_ /\ sg_reason s = reason /\
       sg_secret s = SecretName ep /\ sg_tier s = tier_string tier).
Proof.
  assert (forall segments l1 s l2, segments = l1 ++ s :: l2 -> open_on model s -> (forall x, x ∈ l2 -> ~ open_on model x) ->
    close_last segments model at_ reason = Some (l1 ++ end_segment at_ reason s :: l2)) as Hlast.
  { intros l l1 s l2 -> Hs Hl2. induction l1 as [|y l1 IH]; cbn; [|by rewrite IH].
    pose proof (close_last_spec l2 model at_ reason) as H. destruct (close_last l2 _ _ _) as [l'|].
    - destruct H as (l3 & x & l4 & -> & Hx & _). destruct (Hl2 x); [set_solver|done].
    - by rewrite decide_True. }
  unfold CloseSegment. split_and!.
  - intros l1 s l2 E Hm He Hl2. by rewrite (Hlast _ l1 s l2).
  - intros Hn. pose proof (close_last_spec segments model at_ reason) as H. destruct (close_last _ _ _ _) as [l'|]; [|done].
    destruct H as (l1 & s & l2 & -> & Hs & _). destruct (Hn s); [set_solver|done].
  - intros ep tier started Hm. unfold OpenSegment. eexists. split.
    + erewrite Hlast; [reflexivity|reflexivity|by split|]. by intros x ?%elem_of_nil.
    + cbn. by split_and!.
Qed.

(** ** An agent with a fallback at another provider *)

Definition zai_agent : Agent :=
  {| ag_name := "coder"; ag_namespace := "squad"; ag_model := "glm";
     ag_fallback := Some {| fb_model := "deepseek"; fb_ref := Some {| sr_name := "ds"; sr_key := "" |} |};
     ag_endpoint := Some {| sr_name := "zai"; sr_key := "" |}; ag_credential := {| sr_name := "cred"; sr_key := "" |};
     ag_role_ns := ""; ag_role := "" |}.

Definition plain_url (s : string) : option (string * string * string) := Some ("https", "host", s)%string.

Definition zai_reads : list (Event Call) :=
  [Ev (GetSecret "squad" "zai") (Some {[ "endpointURL"%string := "https://zai/"%string ]});
   Ev (GetSecret "squad" "cred") (Some {[ "apiToken"%string := " sk-zai "%string ]});
   Ev (GetSecret "squad" "ds") (Some {[ "endpointURL"%string := "https://ds"%string; "apiToken"%string := "sk-ds"%string ]})].

Definition on_zai : Endpoint :=
  {| Model := "glm"; BaseURL := "https://zai"; Token := "sk-zai"; SecretName := "zai"; ContextWindow := 0; MaxConcurrent := 0 |}.
Definition on_ds : Endpoint :=
  {| Model := "deepseek"; BaseURL := "https://ds"; Token := "sk-ds"; SecretName := "ds"; ContextWindow := 0; MaxConcurrent := 0 |}.

Lemma zai_resolves :
  runs scripted (ResolveEffective plain_url "" (Some zai_agent) None) zai_reads zai_reads
    (Some TierAgent, Ok (on_zai, Some on_ds)) [].
Proof.
  unfold zai_reads.
  repeat (match goal with |- runs _ _ _ (_ :: _) _ _ => step_call end; eapply runs_do; [reflexivity|cbv beta]).
  match goal with |- runs _ ?p _ _ ?a _ => let q := eval vm_compute in p in replace p with q by (vm_compute; reflexivity) end.
  apply runs_ret.
Qed.

Lemma effective_is_a_unit_witness :
  exists win, wins "" (Some zai_agent) None zai_reads win /\ Model on_zai = ti_model win /\ Model on_zai <> ""%string.
Proof.
  destruct (effective_is_a_unit plain_url "" (Some zai_agent) None scripted zai_reads zai_reads (Some TierAgent)
    (Ok (on_zai, Some on_ds)) [] zai_resolves) as (_ & _ & win & Hw & _ & Hm & Hne & _).
  exists win. split; [exact Hw|]. split; [exact Hm|exact Hne].
Defined.
