(* ===== verification/RateLimitProps.v ===== *)
(** What the operator makes of a rate limit: the route of a dispatch, what the
    signal's consumer may do, how the switch marker lasts, and where the switch
    misses. *)
From Stdlib Require Import Ascii.
From S2P Require Import Prelude GoStr Calls ModelEndpoint ModelEndpointProps RateLimit.
Open Scope Z_scope.
Open Scope k8s_scope.

(** * The marker *)

(** A portion that goes on has no reason yet. *)
Definition segments_wf (l : list ModelSegment) : Prop := forall s, s ∈ l -> sg_ended s = None -> sg_reason s = ""%string.

(** What the two writers of a Run's segments write. *)
Inductive seg_step : list ModelSegment -> list ModelSegment -> Prop :=
| seg_open ep tier at_ l : seg_step l (OpenSegment l ep tier at_)
| seg_close model at_ reason l : seg_step l (CloseSegment l model at_ reason).

Definition grown (l l' : list ModelSegment) : Prop :=
  exists m n, l' = m ++ n /\ Forall2 touched l m.

#[export] Instance grown_preorder : PreOrder grown.
Proof.
  split.
  - intros l. exists l, []. split; [by rewrite app_nil_r|]. by apply Forall_Forall2_diag, Forall_true.
  - intros l1 l2 l3 (m1 & n1 & -> & H1) (m2 & n2 & -> & H2).
    apply Forall2_app_inv_l in H2 as (m & n & Hm & Hn & ->). exists m, (n ++ n2).
    split; [by rewrite (assoc_L (++))|]. by etrans.
Qed.

Lemma seg_step_grown l l' : seg_step l l' -> grown l l'.
Proof.
  intros [ep tier at_ l0|model at_ reason l0].
  - eexists l0, _. split; [reflexivity|]. by apply Forall_Forall2_diag, Forall_true.
  - exists (CloseSegment l0 model at_ reason), []. split; [by rewrite app_nil_r|]. apply CloseSegment_touched.
Qed.

Lemma seg_step_wf l l' : seg_step l l' -> segments_wf l -> segments_wf l'.
Proof.
  intros [ep tier at_ l0|model at_ reason l0] Hwf s.
  - unfold OpenSegment. rewrite elem_of_app, list_elem_of_singleton. intros [Hs| ->] He; [auto|done].
  - intros Hs He. pose proof (CloseSegment_touched l0 model at_ reason) as Ht.
    apply list_elem_of_lookup_1 in Hs as [i Hi]. destruct (Forall2_lookup_r _ _ _ _ _ Ht Hi) as (s0 & Hs0 & [->|(_ & ? & ? & ->)]); [|done].
    apply Hwf; [by eapply list_elem_of_lookup_2|done].
Qed.

(** The switch marker lasts. Whatever sequence of openings and closings the
    dispatch and the rate-limit consumer write to a Run's segments, a closed portion
    keeps its model, its times, its reason and its place, an open one is only ever
    closed, new ones are only appended, and a Run that was switched to its fallback
    stays switched. *)
Theorem switch_marker_lasts run run' :
  rtc seg_step (ModelSegments run) (ModelSegments run') -> segments_wf (ModelSegments run) ->
  segments_wf (ModelSegments run') /\
  (forall i s, ModelSegments run !! i = Some s -> exists s', ModelSegments run' !! i = Some s' /\ touched s s') /\
  (forall i s, ModelSegments run !! i = Some s -> sg_ended s <> None -> ModelSegments run' !! i = Some s) /\
  (fallbackActive run = true -> fallbackActive run' = true).
Proof.
  intros Hr Hwf.
  assert (grown (ModelSegments run) (ModelSegments run') /\ segments_wf (ModelSegments run')) as [(m & n & Hm & Ht) Hwf'].
  { induction Hr as [l|l l1 l2 Hs _ IH]; [done|]. destruct IH as [Hg Hw]; [by eapply seg_step_wf|].
    split; [|done]. etrans; [by apply seg_step_grown|done]. }
  assert (forall i s, ModelSegments run !! i = Some s -> exists s', ModelSegments run' !! i = Some s' /\ touched s s') as Hall.
  { intros i s Hi. destruct (Forall2_lookup_l _ _ _ _ _ Ht Hi) as (s' & Hs' & Hto). exists s'. split; [|done].
    rewrite Hm. by apply lookup_app_l_Some. }
  assert (forall i s, ModelSegments run !! i = Some s -> sg_ended s <> None -> ModelSegments run' !! i = Some s) as Hclosed.
  { intros i s Hi He. destruct (Hall i s Hi) as (s' & Hs' & [->|(H & _)]); [done|by destruct He]. }
  split_and!; [done..|]. unfold fallbackActive. rewrite !existsb_exists. intros (s & Hin & Hre).
  apply bool_decide_eq_true in Hre. apply list_elem_of_In, list_elem_of_lookup_1 in Hin as [i Hi].
  exists s. split; [|by apply bool_decide_eq_true]. apply list_elem_of_In. eapply list_elem_of_lookup_2, Hclosed; [exact Hi|].
  intros He. assert (sg_reason s = ""%string) as E by (apply Hwf; [by eapply list_elem_of_lookup_2|done]).
  rewrite E in Hre. discriminate Hre.
Qed.

(** * The route of a dispatch *)

Section route.
Context {MCP : Type} (url_parse : string -> option (string * string * string)).
Notation Call := (Call MCP).
Context {W : Type} (h : forall X, Call X -> W -> X -> W -> Prop).

Definition up {X} (c : ModelEndpoint.Call X) : Call X := Resolver c.
Definition ups (t : list (Calls.Event ModelEndpoint.Call)) : list (Calls.Event Call) := embed_event (fun X c => Resolver c) <$> t.

(** The endpoint of a dispatch: the fallback of the winning tier once the marker is
    on the Run, if the tier has one, and its primary otherwise. *)
Definition effective (t : list (Calls.Event Call)) (run : Run) (ref : ObjectRef) (tier : string) (ep : Endpoint) : Prop :=
  exists agent role t0 t1 t2 win p f,
    answered t (GetAgent (agent_namespace run ref) (Name ref)) (Found agent) /\ t = t1 ++ ups t0 ++ t2 /\
    wins "" (Some agent) role t0 win /\ tier = tier_string (Some (ti_tier win)) /\
    endpoint_of url_parse t0 win (ti_endpoint win) (ti_model win) false p /\ fallback_of url_parse t0 win f /\
    ep = match f with Some f => if fallbackActive run then f else p | None => p end.

Lemma effective_prefix t t' run ref tier ep : t `prefix_of` t' -> effective t run ref tier ep -> effective t' run ref tier ep.
Proof.
  intros Hp (agent & role & t0 & t1 & t2 & win & p & f & ? & -> & ?). destruct Hp as [tl ->].
  exists agent, role, t0, t1, (t2 ++ tl), win, p, f. split; [by apply answered_app|].
  split; [by rewrite <- !app_assoc|done].
Qed.

Lemma effective_suffix t t' run ref tier ep : effective t run ref tier ep -> effective (t' ++ t) run ref tier ep.
Proof.
  intros (agent & role & t0 & t1 & t2 & win & p & f & ? & -> & ?).
  exists agent, role, t0, (t' ++ t1), t2, win, p, f. split; [apply elem_of_app; by right|].
  split; [by rewrite <- !app_assoc|done].
Qed.

Lemma resolve_runs run ref w t p f tier w' :
  runs h (resolveEffectiveEndpoint url_parse run ref) w t (Ok (p, f, tier)) w' ->
  exists agent role t0 t1 win, t = t1 ++ ups t0 /\
    answered t (GetAgent (agent_namespace run ref) (Name ref)) (Found agent) /\
    wins "" (Some agent) role t0 win /\ tier = Some (ti_tier win) /\
    endpoint_of url_parse t0 win (ti_endpoint win) (ti_model win) false p /\ fallback_of url_parse t0 win f.
Proof.
  unfold resolveEffectiveEndpoint. intros Hr. apply runs_inv in Hr. cbn [pbind call] in Hr.
  destruct Hr as ([agent| |] & w1 & t' & -> & _ & Hr); [|by apply runs_inv in Hr as (_ & ? & _)..].
  apply runs_bind in Hr as (t1 & [role|e] & w2 & t2 & -> & _ & Hr); [|by apply runs_inv in Hr as (_ & ? & _)].
  apply runs_bind in Hr as (t3 & [tier' r] & w3 & t4 & -> & Hres & Hr).
  apply runs_inv in Hr as (-> & Heq & _). destruct r as [[p' f']|e]; [|done]. injection Heq as <- <- <-.
  apply runs_embed in Hres as (t0 & -> & Hres).
  eapply (obeys_runs (reads "" (Some agent) role) any_answer _ (fun _ _ => True)) in Hres as (_ & _ & Hpost);
    [|by intros|apply (ok_effective url_parse)|done]. cbn in Hpost.
  destruct Hpost as (win & Hw & -> & _ & Hp & Hf).
  exists agent, role, t0, (Ev (GetAgent (agent_namespace run ref) (Name ref)) (Found agent) :: t1), win.
  split; [by rewrite app_nil_r|]. split; [by left|]. done.
Qed.

Definition route_of (ep : Endpoint) : ModelRoute :=
  if bool_decide (BaseURL ep = ""%string) then no_route
  else {| mr_endpoint := BaseURL ep; mr_model := Model ep; mr_token := Token ep |}.

Lemma route_runs cfg run runID ref w t mr tier w' :
  runs h (route url_parse cfg run runID ref) w t (Ok (mr, tier)) w' ->
  exists ep, effective t run ref tier ep /\ mr = route_of ep /\
    (BaseURL ep <> ""%string -> EndpointGate cfg = true -> answered t (AcquireSlot (BaseURL ep) runID (MaxConcurrent ep)) None).
Proof.
  unfold route. intros Hr. apply runs_bind in Hr as (t1 & [[[p f] tr]|e] & w1 & t2 & -> & Hres & Hr);
    [|by apply runs_inv in Hr as (_ & ? & _)].
  apply resolve_runs in Hres as (agent & role & t0 & t3 & win & -> & Hag & Hw & -> & Hp & Hf).
  set (ep := match f with Some f => if fallbackActive run then f else p | None => p end) in *.
  assert (effective ((t3 ++ ups t0) ++ t2) run ref (tier_string (Some (ti_tier win))) ep) as He.
  { exists agent, role, t0, t3, t2, win, p, f. split; [by apply answered_app|]. by rewrite <- app_assoc. }
  assert (forall r w2 t4, runs h (let* _ := recordModelProvenance run ep (Some (ti_tier win)) in
    Ret (Ok (r, tier_string (Some (ti_tier win)))) : Calls.Prog Call (result DispatchErr (ModelRoute * string))) w2 t4 (Ok (mr, tier)) w' ->
    mr = r /\ tier = tier_string (Some (ti_tier win))) as Hfin.
  { intros r w2 t4 (t5 & [] & w3 & t6 & -> & _ & Hr')%runs_bind. apply runs_inv in Hr' as (_ & E & _). injection E as -> ->. done. }
  cbv zeta in Hr. unfold route_of. exists ep. destruct (bool_decide (BaseURL ep = ""%string)) eqn:Hb.
  - apply Hfin in Hr as [-> ->]. split; [done|]. split; [done|]. by apply bool_decide_eq_true in Hb.
  - destruct (EndpointGate cfg).
    + apply runs_inv in Hr. cbn [pbind call] in Hr. destruct Hr as ([hd|] & w2 & t4 & -> & _ & Hr);
        [by apply runs_inv in Hr as (_ & ? & _)|].
      apply Hfin in Hr as [-> ->]. split; [done|]. split; [done|]. intros _ _. apply elem_of_app. right. by left.
    + apply Hfin in Hr as [-> ->]. by split_and!.
Qed.
End route.

(** A dispatch takes the route of its Run. A task is built only of a listed Run
    of that UID with a work item, at the fence read for the item, with the item's
    body, or its title where the body is empty, and with the assembled context
    whenever the assembler is there. A Run without agents gets no route. Otherwise
    the route is the effective endpoint of the first agent: the fallback of the
    winning tier when the Run carries the switch marker and the tier has one, its
    primary in every other case, with the model, URL and token resolved in this
    dispatch; and a route to an endpoint of its own is given only after the gate
    granted the Run a slot on it. *)
Theorem dispatch_takes_its_route {MCP : Type} url_parse cfg taskID runID {W}
    (h : forall X, Call MCP X -> W -> X -> W -> Prop) (w : W) t task w' :
  runs h (buildTask url_parse cfg taskID runID) w t (Ok task) w' ->
  exists rs run, answered t ListRuns (Ok rs) /\ run ∈ rs /\ UID run = runID /\
    A2ATaskID task = taskID /\ WorkItemID task = WorkItemRef run /\ WorkItemRef run <> ""%string /\
    answered t (FenceToken (WorkItemRef run)) (Some (tk_fence task)) /\
    (exists title body, answered t (WorkItem (WorkItemRef run)) (Some (title, body)) /\
       Input task = if bool_decide (body = ""%string) then title else body) /\
    (ContextAssemblers cfg = true -> answered t (AssembleSystemContext (UID run)) (Some (SystemContext task))) /\
    match Agents run with
    | [] => tk_route task = no_route /\ ModelTier task = ""%string
    | ref :: _ => exists ep, effective url_parse t run ref (ModelTier task) ep /\ tk_route task = route_of ep /\
        (BaseURL ep <> ""%string -> EndpointGate cfg = true ->
           answered t (AcquireSlot (BaseURL ep) runID (MaxConcurrent ep)) None)
    end.
Proof.
  unfold buildTask. intros Hr. apply runs_bind in Hr as (t1 & r & w1 & t2 & -> & Hrun & Hr).
  unfold runByUID in Hrun. apply runs_inv in Hrun. cbn [pbind call] in Hrun.
  destruct Hrun as (rs & w0 & t0 & -> & _ & (-> & -> & ->)%runs_inv).
  destruct rs as [rs|nf]; [|by apply runs_inv in Hr as (_ & ? & _)].
  destruct (head (filter _ rs)) as [run|] eqn:Hhd; [|by apply runs_inv in Hr as (_ & ? & _)].
  apply head_Some_elem_of, list_elem_of_filter in Hhd as [Hu Hin].
  case_bool_decide as Hitem; [by apply runs_inv in Hr as (_ & ? & _)|].
  apply runs_inv in Hr. cbn [pbind call] in Hr. destruct Hr as (wi & w2 & t3 & -> & _ & Hr).
  destruct wi as [[title body]|]; [|by apply runs_inv in Hr as (_ & ? & _)].
  apply runs_inv in Hr. cbn [pbind call] in Hr. destruct Hr as (fence & w3 & t4 & -> & _ & Hr).
  destruct fence as [fence|]; [|by apply runs_inv in Hr as (_ & ? & _)].
  apply runs_bind in Hr as (t5 & ctx & w4 & t6 & -> & Hctx & Hr).
  assert (ContextAssemblers cfg = true -> answered t5 (AssembleSystemContext (UID run)) ctx) as Hc.
  { intros E. rewrite E in Hctx. apply runs_inv in Hctx. cbn [call] in Hctx.
    destruct Hctx as (x & ? & ? & -> & _ & (-> & -> & _)%runs_inv). by left. }
  destruct ctx as [ctx|]; [|by apply runs_inv in Hr as (_ & ? & _)].
  apply runs_bind in Hr as (t7 & routed & w5 & t8 & -> & Hroute & Hr).
  destruct routed as [[mr tier]|e]; [|by apply runs_inv in Hr as (_ & ? & _)].
  apply runs_inv in Hr. cbn [pbind call] in Hr. destruct Hr as (mcp & w6 & t9 & -> & _ & Hr).
  destruct mcp as [mcp|]; [|by apply runs_inv in Hr as (_ & ? & _)].
  apply runs_inv in Hr. cbn [pbind call] in Hr. destruct Hr as (tkey & w7 & t10 & -> & _ & Hr).
  apply runs_inv in Hr as (-> & E & _). injection E as ->. cbn [A2ATaskID WorkItemID tk_fence Input SystemContext tk_route ModelTier].
  exists rs, run. split_and!; try done.
  - by left.
  - right. right. by left.
  - exists title, body. split; [right; by left|done].
  - intros E. do 3 right. apply elem_of_app. left. by apply Hc.
  - destruct (Agents run) as [|ref refs].
    { by apply runs_inv in Hroute as (_ & [= -> ->] & _). }
    apply route_runs in Hroute as (ep & He & Hm & Hs). exists ep. split; [|split; [done|]].
    + match goal with |- effective _ ?tt _ _ _ _ => replace tt with
        (([Ev ListRuns (Ok rs)] ++ [Ev (WorkItem (WorkItemRef run)) (Some (title, body)); Ev (FenceToken (WorkItemRef run)) (Some fence)]
          ++ t5) ++ t7 ++ [Ev (McpEnvelope (UID run)) (Some mcp); Ev (TicketKey (WorkItemRef run)) tkey]) by (by rewrite <- !app_assoc) end.
      apply effective_suffix. eapply effective_prefix; [by eexists|exact He].
    + intros Hb Hg. do 3 right. apply elem_of_app. right. apply elem_of_app. left. by apply Hs.
Qed.

(** * The signal *)

Section signal.
Context {MCP : Type} (url_parse : string -> option (string * string * string)) (ParseTime : string -> option Z) (wired : bool).
Context (runID : string).
Notation Call := (Call MCP).
Implicit Types (h hist : list (Calls.Event Call)).

(** The Run of the bridge, as it was last listed. *)
Definition listed h (run : Run) : Prop := exists rs, answered h ListRuns (Ok rs) /\ run ∈ rs /\ UID run = runID.

(** Its first agent, as it was read. *)
Definition agent_of h (a : Agent) : Prop :=
  exists run ref rest, listed h run /\ Agents run = ref :: rest /\
    answered h (GetAgent (agent_namespace run ref) (Name ref)) (Found a).

Definition signalled h X (c : Call X) : Prop :=
  match c with
  | ListRuns | GetAgent _ _ | Now => True
  | Resolver (GetSecret _ _) => True
  | PatchSegments u segments =>
      u = runID /\ exists a fb run now, agent_of h a /\ ag_fallback a = Some fb /\ listed h run /\ answered h Now now /\
        last_open (ModelSegments run) <> ""%string /\
        (forall s, s ∈ ModelSegments run -> sg_ended s = None -> sg_model s <> fb_model fb) /\
        segments = CloseSegment (ModelSegments run) (last_open (ModelSegments run)) now "rate_limited"
  | PauseRateLimited item =>
      wired = true /\ (exists a, agent_of h a /\ ag_fallback a = None) /\ exists run, listed h run /\ WorkItemRef run = item
  | RecordPause item u window =>
      u = runID /\ answered h (PauseRateLimited item) true /\ match window with Some d => 0 < d /\ int64 d | None => True end
  | _ => False
  end.

Notation ok := (obeys signalled any_answer).

Lemma listed_prefix h h' run : h `prefix_of` h' -> listed h run -> listed h' run.
Proof. intros Hp (rs & ? & ?). exists rs. eauto using answered_prefix. Qed.

Lemma agent_of_prefix h h' a : h `prefix_of` h' -> agent_of h a -> agent_of h' a.
Proof.
  intros Hp (run & ref & rest & ? & ? & ?). exists run, ref, rest. eauto using answered_prefix, listed_prefix.
Qed.

Lemma ok_runByUID hist :
  ok (fun h r => match r with Ok run => listed h run | Err _ => True end) hist (runByUID runID).
Proof.
  unfold runByUID. cbn [obeys pbind call]. split; [done|]. intros [rs|nf] _; [|done].
  destruct (head (filter _ rs)) as [run|] eqn:E; [|done]. apply head_Some_elem_of, list_elem_of_filter in E as [Hu Hin].
  exists rs. split; [apply answered_last|done].
Qed.

Lemma ok_runResolver hist :
  ok (fun h r => match r with Ok (Some rc) => rc_run rc = runID /\ agent_of h (rc_agent rc) | _ => True end) hist (runResolver runID).
Proof.
  unfold runResolver. apply obeys_bind. eapply obeys_weaken; [apply ok_runByUID|]. intros h [run|e] Hp Hr; [|by destruct e as [[]|]].
  destruct (Agents run) as [|ref rest] eqn:Ha; [done|]. cbn [obeys pbind call]. split; [done|].
  intros [a| |] _; [|done..]. split; [done|]. exists run, ref, rest.
  split; [eapply listed_prefix; [by eexists|exact Hr]|]. split; [done|apply answered_last].
Qed.

Notation secrets_only := (fun _ X (c : ModelEndpoint.Call X) => match c with GetSecret _ _ => True | _ => False end).
Notation quiet := (obeys secrets_only any_answer).

Lemma quiet_ref ns ref model (t0 : list (Calls.Event ModelEndpoint.Call)) :
  quiet (fun _ r => match r with Ok ep => Model ep = model | Err _ => True end) t0 (ResolveRef url_parse ns ref model).
Proof. unfold ResolveRef. cbn [obeys pbind call]. split; [done|]. intros s _. repeat (case_match; simplify_eq/=; try done). Qed.

Lemma quiet_credential ns cr ep (t0 : list (Calls.Event ModelEndpoint.Call)) :
  quiet (fun _ ep' => Model ep' = Model ep) t0 (applyCredentialToken ns cr ep).
Proof.
  unfold applyCredentialToken. destruct cr as [ref|]; [|done]. case_bool_decide; [done|]. cbn [obeys pbind call].
  split; [done|]. intros [s|] _; [|done]. by case_bool_decide.
Qed.

(** The verdict follows the agent's own fallback, and nothing else. *)
Lemma verdict a sig (t0 : list (Calls.Event ModelEndpoint.Call)) :
  quiet (fun _ r => match r with
      | Ok plan => match ag_fallback a with
                   | Some fb => Action plan = ActionSwitchModel /\ Model <$> To plan = Some (fb_model fb)
                   | None => Action plan = ActionPauseRun
                   end
      | Err _ => is_Some (ag_fallback a)
      end) t0 (OnRateLimited url_parse false a sig).
Proof.
  unfold OnRateLimited, ResolveFallback, resolveFallback. cbn [ti_fallback agentTier]. destruct (ag_fallback a) as [fb|]; [|done].
  destruct (match fb_ref fb with Some r => Some r | None => _ end) as [ref|]; [|done].
  apply obeys_bind, obeys_bind. eapply obeys_weaken; [apply quiet_ref|]. intros h [ep|e] _ Hm; [|by eexists].
  destruct (_ && _); [cbn; by rewrite Hm|]. apply obeys_bind. eapply obeys_weaken; [apply quiet_credential|].
  intros h' ep' _ Hm'. cbn. by rewrite Hm', Hm.
Qed.

Lemma ok_resolve {A} (post : A -> Prop) (p : Calls.Prog ModelEndpoint.Call A) hist (t0 : list (Calls.Event ModelEndpoint.Call)) :
  quiet (fun _ a => post a) t0 p ->
  ok (fun _ a => post a) hist (resolve p).
Proof.
  revert hist t0. induction p as [a|X c k IH]; intros hist t0; cbn; [done|]. intros [Hc Hk]. split.
  - by destruct c.
  - intros x Hx. eapply IH. by apply Hk.
Qed.

Lemma ok_parker retryAfter a hist :
  agent_of hist a -> ag_fallback a = None -> match retryAfter with Some d => 0 < d /\ int64 d | None => True end ->
  ok (fun _ _ => True) hist (parker wired runID retryAfter).
Proof.
  intros Ha Hf Hd. unfold parker. destruct wired eqn:Hw; [|done]. cbn [negb]. apply obeys_bind.
  eapply obeys_weaken; [apply ok_runByUID|]. intros h [run|e] Hp Hr; [|by destruct e as [[]|]].
  cbn [obeys pbind call]. split.
  { split; [done|]. split; [exists a; split; [by eapply agent_of_prefix|done]|by exists run]. }
  intros [] _; [|done]. cbn [negb obeys pbind call]. split; [|by intros []].
  split; [done|]. split; [apply answered_last|done].
Qed.

Lemma ok_switch a fb hist :
  agent_of hist a -> ag_fallback a = Some fb -> ok (fun _ _ => True) hist (switchExecutor runID (fb_model fb)).
Proof.
  intros Ha Hf. unfold switchExecutor. apply obeys_bind. eapply obeys_weaken; [apply ok_runByUID|].
  intros h [run|e] Hp Hr; [|by destruct e as [[]|]]. destruct (existsb _ _) eqn:He; [done|].
  case_bool_decide as Ho; [done|]. cbn [obeys pbind call]. split; [done|]. intros now _. split; [|done].
  destruct Hr as (rs & Hrs & Hin & Hu). split; [done|]. exists a, fb, run, now.
  split; [eapply agent_of_prefix; [|exact Ha]; by eapply prefix_app_r|]. split; [done|].
  split; [exists rs; split; [by apply answered_app|done]|]. split; [apply answered_last|]. split; [done|]. split; [|done].
  intros s Hs Hn Hm. apply not_true_iff_false in He. apply He, existsb_exists. exists s. split; [by apply list_elem_of_In|].
  by rewrite Hn, Hm, !bool_decide_eq_true_2.
Qed.

Lemma parse_range value now : int64 (ParseRetryAfter ParseTime value now).1.
Proof.
  unfold ParseRetryAfter. cbv zeta. assert (int64 0) by (unfold int64; lia).
  repeat case_match; cbn [fst]; try done; [apply wrap64_range|unfold time_sub, int64; lia].
Qed.

Lemma ok_handle ev : ok (fun _ _ => True) [] (Handle url_parse ParseTime wired runID ev).
Proof.
  unfold Handle. destruct (rate_limited ev); [|done]. cbn [negb]. destruct (rateLimitedPayload _) as [pay|]; [|done].
  apply obeys_bind. eapply obeys_weaken; [apply ok_runResolver|]. intros h [[rc|]|e] _ Hrc; [|done..]. destruct Hrc as [Hid Ha].
  apply obeys_bind. assert (ok (fun h' _ => h `prefix_of` h') h (match TS ev with Some _ => Ret 0 | None => call Now end)) as Hnow.
  { case_match; [cbn; reflexivity|]. cbn. split; [done|]. intros now _. by eexists. }
  eapply obeys_weaken; [exact Hnow|]. intros h1 now _ Hp1. cbn in Hp1. cbn [StatusCode NormalizeRateLimited].
  unfold NormalizeRateLimited. cbn [StatusCode]. rewrite Z.eqb_refl. cbn [negb].
  set (sig := {| FromModel := _ |}). apply obeys_bind.
  eapply obeys_weaken; [eapply ok_resolve, (verdict (rc_agent rc) sig [])|]. intros h2 [plan|e] Hp2 Hv; [|done].
  assert (agent_of h2 (rc_agent rc)) as Ha2 by (eapply agent_of_prefix; [|exact Ha]; by etrans).
  destruct (ag_fallback (rc_agent rc)) as [fb|] eqn:Hf.
  - destruct Hv as [-> Hto]. apply obeys_bind. rewrite Hid, Hto. cbn [default].
    eapply obeys_weaken; [by apply (ok_switch (rc_agent rc) fb)|]. done.
  - rewrite Hv. apply obeys_bind. eapply obeys_weaken; [apply (ok_parker _ (rc_agent rc)); [done|done|]|done].
    destruct (0 <? _) eqn:Hpos; [|done]. reflect_bools. split; [done|]. apply parse_range.
Qed.
End signal.

(** A rate limit is met once and by the book. Whatever is answered, the consumer
    of a signal touches the Run's segments only for an agent with a fallback whose
    model no open portion serves, and then only to close the last open one as
    rate_limited; it parks the item only for an agent without a fallback, after it
    read that agent off the listed Run, and records a wake only once the park went
    through, with a window only if it is positive. It writes nothing else, and an
    event that is not a rate limit, or whose payload does not decode, reads nothing. *)
Theorem rate_limit_by_the_book {MCP : Type} url_parse ParseTime wired runID ev {W}
    (h : forall X, Call MCP X -> W -> X -> W -> Prop) (w : W) t r w' :
  runs h (Handle url_parse ParseTime wired runID ev) w t r w' ->
  (forall t1 X (c : Call MCP X) x t2, t = t1 ++ Ev c x :: t2 -> signalled wired runID t1 X c) /\
  ((rate_limited ev = false \/ rateLimitedPayload (ev_payload ev) = None) -> t = []).
Proof.
  intros Hr. split.
  - pose proof (obeys_any (signalled wired runID) h _ _ _ _ _ Hr (ok_handle url_parse ParseTime wired runID ev)) as Ht.
    intros t1 X c x t2 ->. by apply trace_ok_at in Ht as [Hd _].
  - unfold Handle in Hr. intros [E|E]; rewrite E in Hr; [|destruct (rate_limited ev)]; by apply runs_inv in Hr as (-> & _).
Qed.

(** ** A Run that is throttled, switched and dispatched again *)

Definition first_segment : ModelSegment :=
  {| sg_model := "glm"; sg_started := 10; sg_ended := None; sg_reason := ""; sg_secret := "zai"; sg_tier := "agent" |}.
Definition run_of (agent : string) (segments : list ModelSegment) : Run :=
  {| UID := "u1"; rn_name := "r"; rn_namespace := "squad"; WorkItemRef := "i1"; TeamRef := "t"; ProjectRef := "p";
     Agents := [{| Name := agent; Namespace := "" |}]; ModelSegments := segments |}.
Definition throttled : Event := {| rate_limited := true; TS := Some 100; ev_payload := Typed {| pl_model := ""; pl_RetryAfter := "30" |} |}.

Notation SCall := (Call unit).

Definition ds_secret : gmap string string := {[ "endpointURL" := "https://ds"; "apiToken" := "sk-ds" ]}%string.

(** The signal closes the open portion of glm. *)
Definition switch_trace : list (Calls.Event SCall) :=
  [Ev ListRuns (Ok [run_of "coder" [first_segment]]); Ev (GetAgent "squad" "coder") (Found zai_agent);
   Ev (Resolver (GetSecret "squad" "ds")) (Some ds_secret);
   Ev ListRuns (Ok [run_of "coder" [first_segment]]); Ev Now 100;
   Ev (PatchSegments "u1" [end_segment 100 "rate_limited" first_segment]) true].

Definition no_dates : string -> option Z := fun _ => None.

Ltac follow := repeat (match goal with |- runs _ _ _ (_ :: _) _ _ => step_call end; eapply runs_do; [reflexivity|cbv beta]).
Ltac settle := match goal with |- runs _ ?p _ _ _ _ =>
  let q := eval vm_compute in p in replace p with q by (vm_compute; reflexivity) end.
Ltac arrive := settle; apply runs_ret.

Lemma switch_runs : runs scripted (Handle plain_url no_dates true "u1" throttled) switch_trace switch_trace (Ok tt) [].
Proof. unfold switch_trace. follow. arrive. Qed.

Lemma rate_limit_by_the_book_witness :
  signalled (MCP := unit) true "u1" (take 5 switch_trace) _ (PatchSegments "u1" [end_segment 100 "rate_limited" first_segment]).
Proof.
  destruct (rate_limit_by_the_book plain_url no_dates true "u1" throttled scripted switch_trace switch_trace (Ok tt) [] switch_runs)
    as [H _].
  exact (H (take 5 switch_trace) _ _ true [] eq_refl).
Defined.

Definition marked_run : Run := run_of "coder" [end_segment 100 "rate_limited" first_segment].

Lemma switch_marker_lasts_witness :
  let run' := run_of "coder" (OpenSegment (ModelSegments marked_run) on_ds (Some TierAgent) 200) in
  fallbackActive run' = true /\ ModelSegments run' !! 0%nat = Some (end_segment 100 "rate_limited" first_segment).
Proof.
  destruct (switch_marker_lasts marked_run (run_of "coder" (OpenSegment (ModelSegments marked_run) on_ds (Some TierAgent) 200)))
    as (_ & _ & Hc & Ha).
  - apply rtc_once, seg_open.
  - intros s Hs%list_elem_of_singleton He. subst s. discriminate He.
  - split; [apply Ha; reflexivity|apply Hc; [reflexivity|discriminate]].
Defined.

(** The next dispatch goes to deepseek. *)
Definition redispatch_trace : list (Calls.Event SCall) :=
  [Ev ListRuns (Ok [marked_run]); Ev (WorkItem "i1") (Some ("title"%string, ""%string)); Ev (FenceToken "i1") (Some 3);
   Ev (GetAgent "squad" "coder") (Found zai_agent);
   Ev (Resolver (GetSecret "squad" "zai")) (Some {[ "endpointURL"%string := "https://zai/"%string ]});
   Ev (Resolver (GetSecret "squad" "cred")) (Some {[ "apiToken"%string := "sk-zai"%string ]});
   Ev (Resolver (GetSecret "squad" "ds")) (Some ds_secret);
   Ev (AcquireSlot "https://ds" "u1" 0) None; Ev Now 200;
   Ev (PatchSegments "u1" (OpenSegment (ModelSegments marked_run) on_ds (Some TierAgent) 200)) true;
   Ev (McpEnvelope "u1") (Some tt); Ev (TicketKey "i1") None].

Definition ds_task : Task unit :=
  {| A2ATaskID := "u1#lap2"; WorkItemID := "i1"; tk_fence := 3; Input := "title"; SystemContext := "";
     Metadata := [("work_item.title", "title"); ("work_item.id", "i1"); ("team", "t"); ("project", "p");
                  ("run.namespace", "squad"); ("run.name", "r")]%string;
     id_name := "coder"; id_squad := "t"; id_project := "p"; tk_mcp := tt;
     tk_route := {| mr_endpoint := "https://ds"; mr_model := "deepseek"; mr_token := "sk-ds" |};
     ModelTier := "agent"; tk_key := "" |}.

Definition gated : DispatchConfig := {| ContextAssemblers := false; EndpointGate := true |}.

Lemma redispatch_runs :
  runs scripted (buildTask plain_url gated "u1#lap2" "u1") redispatch_trace redispatch_trace (Ok ds_task) [].
Proof.
  unfold redispatch_trace. do 7 (step_call; eapply runs_do; [reflexivity|cbv beta]). settle.
  do 5 (eapply runs_do; [reflexivity|cbv beta]; settle). apply runs_ret.
Qed.

Lemma dispatch_takes_its_route_witness :
  exists ep, effective plain_url redispatch_trace marked_run {| Name := "coder"; Namespace := "" |} "agent" ep /\
    tk_route ds_task = route_of ep.
Proof.
  destruct (dispatch_takes_its_route plain_url gated "u1#lap2" "u1" scripted redispatch_trace redispatch_trace ds_task []
    redispatch_runs) as (rs & run & Hrs & Hin & _ & _ & _ & _ & _ & _ & _ & Hag).
  assert (run = marked_run) as ->.
  { unfold redispatch_trace, answered in Hrs. rewrite !elem_of_cons, elem_of_nil in Hrs.
    repeat (destruct Hrs as [Hrs|Hrs]; [try discriminate Hrs|]); [|destruct Hrs].
    assert (rs = [marked_run]) as ->.
    { apply (f_equal (fun e : Calls.Event SCall => match e with
        | @Ev _ X c x => match c in Call _ X return X -> list Run with
                         | ListRuns => fun x => match x with Ok l => l | Err _ => [] end
                         | _ => fun _ => []
                         end x end)) in Hrs. exact Hrs. }
    by apply list_elem_of_singleton in Hin. }
  destruct Hag as (ep & He & Hr & _). exists ep. split; [exact He|exact Hr].
Defined.

(** ** Where the switch misses *)

(** A Run deleted during the stream: the list succeeds without it, and the answer is
    no not-found error, so the event is not dropped but fails the follow. *)
Lemma deleted_run_aborts :
  runs scripted (Handle (MCP := unit) plain_url no_dates true "u1" throttled) [Ev ListRuns (Ok [])] [Ev ListRuns (Ok [])]
    (Err (ResolveFailed (RunUnresolved (NoRun "u1")))) [].
Proof. play. Qed.

(** A fallback that is the same model at another provider is told to switch to, and
    never switched to: the portion stays open. *)
Definition same_model_agent : Agent :=
  {| ag_name := "coder"; ag_namespace := "squad"; ag_model := "glm";
     ag_fallback := Some {| fb_model := "glm"; fb_ref := Some {| sr_name := "ds"; sr_key := "" |} |};
     ag_endpoint := Some {| sr_name := "zai"; sr_key := "" |}; ag_credential := {| sr_name := "cred"; sr_key := "" |};
     ag_role_ns := ""; ag_role := "" |}.

Lemma same_model_never_switches :
  let t := [Ev ListRuns (Ok [run_of "coder" [first_segment]]); Ev (GetAgent "squad" "coder") (Found same_model_agent);
            Ev (Resolver (GetSecret "squad" "ds")) (Some ds_secret); Ev ListRuns (Ok [run_of "coder" [first_segment]])] in
  runs scripted (Handle (MCP := unit) plain_url no_dates true "u1" throttled) t t (Ok tt) [] /\
  ShouldSkipSwitch {| Action := ActionSwitchModel; From := "glm"; To := Some on_ds; KeepClaim := true |} on_zai = false.
Proof. cbv zeta. split; [follow; arrive|reflexivity]. Qed.

(** The model comes from the role: its fallback is not asked for, the Run is parked. *)
Definition role_agent (fb : option FallbackModel) : Agent :=
  {| ag_name := "coder"; ag_namespace := "squad"; ag_model := ""; ag_fallback := fb; ag_endpoint := None;
     ag_credential := {| sr_name := "cred"; sr_key := "" |}; ag_role_ns := ""; ag_role := "dev" |}.
Definition dev_role (fb : option FallbackModel) : Role := {| rl_namespace := "squad"; rl_model := "glm"; rl_fallback := fb |}.

Lemma role_fallback_ignored :
  let run := run_of "coder" [first_segment] in
  let t := [Ev ListRuns (Ok [run]); Ev (GetAgent "squad" "coder") (Found (role_agent None)); Ev ListRuns (Ok [run]);
            Ev (PauseRateLimited "i1") true; Ev (RecordPause "i1" "u1" (Some 30000000000)) true] in
  runs scripted (Handle (MCP := unit) plain_url no_dates true "u1" throttled) t t (Ok tt) [] /\
  let t := [Ev (GetAgent "squad" "coder") (Found (role_agent None));
            Ev (GetRole "squad" "dev") (Found (dev_role (Some {| fb_model := "deepseek"; fb_ref := None |})))] in
  runs scripted (resolveEffectiveEndpoint (MCP := unit) plain_url run {| Name := "coder"; Namespace := "" |}) t t
    (Ok (provider_default "glm", Some (provider_default "deepseek"), Some TierRole)) [].
Proof. cbv zeta. split; follow; arrive. Qed.

(** A fallback on an agent whose model comes from a role without one: the signal
    switches, and the next dispatch is on the throttled primary again. *)
Lemma switch_to_nothing :
  let fb := Some {| fb_model := "deepseek"; fb_ref := None |} in
  let run := run_of "coder" [first_segment] in
  let t := [Ev ListRuns (Ok [run]); Ev (GetAgent "squad" "coder") (Found (role_agent fb)); Ev ListRuns (Ok [run]); Ev Now 100;
            Ev (PatchSegments "u1" [end_segment 100 "rate_limited" first_segment]) true] in
  runs scripted (Handle (MCP := unit) plain_url no_dates true "u1" throttled) t t (Ok tt) [] /\
  let t := [Ev (GetAgent "squad" "coder") (Found (role_agent fb)); Ev (GetRole "squad" "dev") (Found (dev_role None))] in
  runs scripted (resolveEffectiveEndpoint (MCP := unit) plain_url marked_run {| Name := "coder"; Namespace := "" |}) t t
    (Ok (provider_default "glm", None, Some TierRole)) [].
Proof. cbv zeta. split; follow; arrive. Qed.
