(* ===== verification/Driver.v ===== *)
(** The drive loop of the Run driver (src/pkg/controller/rundrive/driver.go):
    one level-triggered pass over a Run, the wakes, and the kill sweep's tick
    (cancel.go).

    The driver works through interfaces (Claims, Pauses, Runner, the Kubernetes
    client and the optional seams), so a pass is a program over their calls:
    every answer is possible in the program, and who answers is the business of an
    interpretation (Calls.v). An error is the sentinels it wraps, which errors.Is asks for. Spans
    and logs are left out. *)
From S2P Require Import Prelude Calls Machine ToolGate.
From S2P Require DriverClaims Resume.
Open Scope Z_scope.
Open Scope k8s_scope.

(** * Errors *)

Inductive Sentinel : Set := errSandboxPending | errEndpointSlotBusy | FailClosedDispatch.

#[export] Instance Sentinel_eq_dec : EqDecision Sentinel.
Proof. solve_decision. Defined.

Record GoErr : Set := { wraps : list Sentinel; text : string }.

Definition Is (s : Sentinel) (e : GoErr) : bool := bool_decide (s ∈ wraps e).

(** fmt.Errorf with the %w verb. *)
Definition wrapf (prefix : string) (e : GoErr) : GoErr := {| wraps := wraps e; text := prefix +:+ text e |}.

(** errors.Join *)
Definition Join (a b : option GoErr) : option GoErr :=
  match a, b with
  | Some x, Some y => Some {| wraps := wraps x ++ wraps y; text := text x +:+ "; " +:+ text y |}
  | Some x, None => Some x
  | None, o => o
  end.

(** A Kubernetes client error: apierrors.IsNotFound, or another. *)
Inductive ApiErr : Set := NotFound | ApiFailed (e : GoErr).

(** * The Run and the calls of a pass *)

(** A message as the pieces fmt.Sprintf joins; how its %q verb quotes is left out. *)
Inductive Piece : Set := Lit (s : string) | Quoted (s : string).

Record Condition : Set := { Type_ : string; Reason : string; Message : list Piece; ObservedGeneration : Z }.

Section driver.
(** The condition list and its helpers (k8s.io/apimachinery/pkg/api/meta). *)
Context {Conditions : Set} (SetStatusCondition : Conditions -> Condition -> Conditions * bool).
Context (HasStatusCondition : Conditions -> string -> bool).
Context (RemoveStatusCondition : Conditions -> string -> Conditions * bool).
Context (is_uuid : string -> bool).

(** The fields of a Run that the driver reads. *)
Record Run : Set := {
  UID : string; Name : string; Namespace : string; Generation : Z; Deleting : bool;
  WorkItemRef : string; Agents : list string; ProjectRef : string;
  MaxRetries : option Z; BackoffSeconds : option Z;
  SandboxRef : option (string * string); (* namespace, name *)
  CapabilityManifest : option (list ManifestSkill);
  Conditions_ : Conditions }.

Inductive Call : Type -> Type :=
(* the Kubernetes client *)
| GetRun (ns name : string) : Call (result ApiErr Run)
| GetPod (ns name : string) : Call (result ApiErr unit)
| GetSecretLabel (ns name : string) : Call (result ApiErr string)
| PatchConditions (run : Run) (c : Conditions) : Call (result ApiErr unit)
| PatchNoSandboxRef (run : Run) : Call (result ApiErr unit)
| ListRuns (item : string) : Call (result ApiErr (list Run))
(* Claims *)
| State (item : string) : Call (result GoErr (option DriverClaims.ClaimState))
| LapsUsed (run : string) : Call (result GoErr Z)
| Acquire (item run agent : string) : Call (result GoErr (option Z))
| Renew (item run : string) (fence : Z) : Call (result GoErr bool)
| RetryEnter (item run : string) (fence : Z) : Call (result GoErr (option Z))
| FailEnter (item run : string) (fence : Z) : Call (result GoErr bool)
| FailClosedPark (item run : string) (fence : Z) (reason : string) : Call (result GoErr bool)
| CancelFinish (item run : string) (fence : Z) : Call (result GoErr bool)
| CancelDue : Call (result GoErr (list string))
| RequeuePaused (item : string) : Call (result GoErr bool)
| GateHold (item : string) (missingTypes : list string) : Call (result GoErr bool)
| GateResume (item : string) : Call (result GoErr bool)
(* Pauses *)
| Pending (item : string) : Call (result GoErr bool)
| RecordPause (item run : string) (retryAfter : option Z) : Call (result GoErr unit)
(* Runner: the machine's store and effects of the Run *)
| NewStore (run : Run) : Call (result GoErr unit)
| NewEffects (run : Run) : Call (result GoErr unit)
| StoreFence : Call Z
| StoreStep : Call Step
| StoreErr : Call (option GoErr)
| EffectsErr : Call (option GoErr)
| Drive (o : Options) : Call (option GoErr) (* reconcile.Reconcile(effects, store, o) *)
(* the optional seams *)
| SandboxRelease (run : string) : Call unit
| RunFollowOutcome (run : string) : Call (result GoErr (bool * bool * string))
| ClearSandboxBind (run : string) : Call (result GoErr unit)
| ReleaseByRun (run : string) : Call unit
| Notify : Call unit
| NotifyPhase (run : Run) : Call unit
| Kick (run : Run) : Call unit (* a send on resumeCh that a full channel drops *)
| Now : Call Z
| Rand : Call Z.

Notation Prog := (Calls.Prog Call).
Notation ret := Ret.

(** [Driver]: which optional seams are wired, and the bound of one drive. *)
Record Driver : Set := {
  Sandbox : bool; BindClear : bool; EndpointGate : bool; Settle : bool;
  HasNotify : bool; HasNotifyPhase : bool; HasRand : bool; MaxPasses_ : Z }.

Definition DefaultMaxPasses : Z := 64.
Definition second : Z := 1000000000.
Definition continueDelay : Z := 2 * second.
Definition endpointSlotWaitDelay : Z := 10 * second.
Definition defaultBackoffBase : Z := second.
Definition backoffCap : Z := 300 * second.

Record Result : Set := { RequeueAfter : Z; error : option GoErr }.
Definition absorb : Result := {| RequeueAfter := 0; error := None |}.
Definition requeue (after : Z) : Result := {| RequeueAfter := after; error := None |}.
Definition fail (e : GoErr) : Result := {| RequeueAfter := 0; error := Some e |}.

Context (r : Driver).

Definition when (b : bool) (c : Call unit) : Prog unit := if b then call c else ret tt.

Definition maxPasses : Z := if 0 <? MaxPasses_ r then MaxPasses_ r else DefaultMaxPasses.

Definition isPaused (s : Step) : bool := bool_decide (s ∈ [StepPaused; StepPausedRateLimited]).

Definition inFlightStep (s : Step) : bool := bool_decide (s ∈ [StepDispatching; StepRunning; StepCollecting]).

Definition firstAgentName (run : Run) : string := default "" (head (Agents run)).

Definition maxRetries (run : Run) : Z := default 0 (MaxRetries run).

(** The draw of rand.Float64 as k of k / 2^53; 1/2 when no source is set. *)
Definition draw : Prog Z := if HasRand r then call Rand else ret (2 ^ 52).

Definition BackoffFor (run : Run) (attempt : Z) : Prog Z :=
  let base := match BackoffSeconds run with
              | Some n => if 1 <=? n then n * second else defaultBackoffBase
              | None => defaultBackoffBase
              end in
  let* k := draw in ret (Resume.EqualJitter base backoffCap attempt k).

(** The request's name, as the errors show it. *)
Definition key (run : Run) : string := Namespace run +:+ "/" +:+ Name run.

(** ** Status conditions *)

Definition ConditionInvalidWorkItemRef : string := "InvalidWorkItemRef".
Definition ConditionEndpointSlotWait : string := "WaitingForEndpointSlot".

Definition abandonInvalidRef (run : Run) : Prog Result :=
  let '(cs, changed) := SetStatusCondition (Conditions_ run)
    {| Type_ := ConditionInvalidWorkItemRef; Reason := "UnparseableWorkItemRef";
       Message := [Lit "spec.workItemRef "; Quoted (WorkItemRef run);
                   Lit (" is not a work-item UUID; no coordination row can exist for it. " +:+
                        "run-drive abandons this Run — fix the ref to a coord work-item UUID or delete the Run.")];
       ObservedGeneration := Generation run |} in
  if negb changed then ret absorb
  else
    let* p := call (PatchConditions run cs) in
    ret (match p with
         | Ok _ | Err NotFound => absorb
         | Err (ApiFailed e) => fail (wrapf ("rundrive: surface invalid workItemRef for " +:+ key run +:+ ": ") e)
         end).

(** Best effort: the wait does not depend on the condition. *)
Definition waitEndpointSlot (run : Run) (busy : GoErr) : Prog Result :=
  let '(cs, changed) := SetStatusCondition (Conditions_ run)
    {| Type_ := ConditionEndpointSlotWait; Reason := "EndpointBusy";
       Message := [Lit "Waiting for a slot on the BYO model endpoint: "; Lit (text busy);
                   Lit (". " +:+ "The run is queued and dispatches when the holding run releases the endpoint.")];
       ObservedGeneration := Generation run |} in
  let* _ := (if changed : bool then call (PatchConditions run cs) else ret (Ok tt)) in
  ret (requeue endpointSlotWaitDelay).

Definition clearEndpointSlotWait (run : Run) : Prog unit :=
  if negb (HasStatusCondition (Conditions_ run) ConditionEndpointSlotWait) then ret tt
  else
    let '(cs, removed) := RemoveStatusCondition (Conditions_ run) ConditionEndpointSlotWait in
    if removed : bool then let* _ := call (PatchConditions run cs) in ret tt else ret tt.

(** ** Pause, kill, death *)

Definition park (run : Run) : Prog Result :=
  let* pending := call (Pending (WorkItemRef run)) in
  match pending with
  | Err e => ret (fail (wrapf ("rundrive: pause lookup " +:+ WorkItemRef run +:+ ": ") e))
  | Ok true => ret absorb
  | Ok false =>
      let* rec := call (RecordPause (WorkItemRef run) (UID run) None) in
      match rec with
      | Err e => ret (fail (wrapf ("rundrive: record pause " +:+ WorkItemRef run +:+ ": ") e))
      | Ok _ => let* _ := when (HasNotify r) Notify in ret absorb
      end
  end.

Definition cancelFinish (run : Run) (cs : DriverClaims.ClaimState) : Prog Result :=
  let* _ := when (Sandbox r) (SandboxRelease (UID run)) in
  let* ok := call (CancelFinish (WorkItemRef run) (UID run) (DriverClaims.cs_fence cs)) in
  match ok with
  | Err e => ret (fail (wrapf ("rundrive: cancel-finish " +:+ WorkItemRef run +:+ ": ") e))
  | Ok false => ret (requeue continueDelay)
  | Ok true => let* _ := when (EndpointGate r) (ReleaseByRun (UID run)) in ret absorb
  end.

(** Held, with an expired lease, in flight. *)
Definition dead (cs : DriverClaims.ClaimState) : Prog bool :=
  match DriverClaims.cs_lease cs with
  | None => ret false
  | Some lease =>
      if bool_decide (DriverClaims.cs_holder cs = "") || negb (inFlightStep (DriverClaims.cs_step cs)) then ret false
      else let* now := call Now in ret (lease <? now)
  end.

Definition leaseExpired (cs : DriverClaims.ClaimState) : Prog bool :=
  match DriverClaims.cs_lease cs with
  | None => ret true
  | Some lease => let* now := call Now in ret (lease <? now)
  end.

Definition retryOrFail (run : Run) (cs : DriverClaims.ClaimState) : Prog Result :=
  let* _ := when (Sandbox r) (SandboxRelease (UID run)) in
  let* laps := call (LapsUsed (UID run)) in
  match laps with
  | Err e => ret (fail (wrapf ("rundrive: count laps for " +:+ UID run +:+ ": ") e))
  | Ok laps =>
      if laps <? maxRetries run then
        let* entered := call (RetryEnter (WorkItemRef run) (UID run) (DriverClaims.cs_fence cs)) in
        match entered with
        | Err e => ret (fail (wrapf ("rundrive: retry-enter " +:+ WorkItemRef run +:+ ": ") e))
        | Ok None => ret (requeue continueDelay)
        | Ok (Some _) => let* delay := BackoffFor run (laps + 1) in ret (requeue delay)
        end
      else
        let* failed := call (FailEnter (WorkItemRef run) (UID run) (DriverClaims.cs_fence cs)) in
        match failed with
        | Err e => ret (fail (wrapf ("rundrive: fail-enter " +:+ WorkItemRef run +:+ ": ") e))
        | Ok _ => let* _ := when (EndpointGate r) (ReleaseByRun (UID run)) in ret absorb
        end
  end.

Definition failClosedPark (run : Run) (fence : Z) : Prog Result :=
  let* ok := call (FailClosedPark (WorkItemRef run) (UID run) fence "context_window_exceeded") in
  ret (match ok with
       | Err e => fail (wrapf ("rundrive: park fail-closed run " +:+ UID run +:+ ": ") e)
       | Ok _ => absorb
       end).

(** [Ok true]: the sandbox of the Run is gone, and its bind and its reference are
    cleared. *)
Definition reapGoneSandbox (run : Run) (cs : DriverClaims.ClaimState) : Prog (result GoErr bool) :=
  if negb (bool_decide (DriverClaims.cs_run cs = UID run)) || negb (inFlightStep (DriverClaims.cs_step cs))
  then ret (Ok false)
  else
    match SandboxRef run with
    | None => ret (Ok false)
    | Some (ns, name) =>
        if bool_decide (name = "") then ret (Ok false)
        else
          let ns := if bool_decide (ns = "") then Namespace run else ns in
          let* pod := call (GetPod ns name) in
          match pod with
          | Ok _ => ret (Ok false)
          | Err (ApiFailed e) => ret (Err (wrapf ("rundrive: probe sandbox pod " +:+ ns +:+ "/" +:+ name +:+ " for gone-sandbox check: ") e))
          | Err NotFound =>
              let* cleared := (if BindClear r then call (ClearSandboxBind (UID run)) else ret (Ok tt)) in
              match cleared with
              | Err e => ret (Err (wrapf ("rundrive: clear sandbox bind for gone pod " +:+ name +:+ ": ") e))
              | Ok _ =>
                  let* patched := call (PatchNoSandboxRef run) in
                  match patched with
                  | Ok _ => ret (Ok true)
                  | Err NotFound => ret (Err {| wraps := []; text := "rundrive: clear status.sandboxRef for gone pod " +:+ name +:+ ": not found" |})
                  | Err (ApiFailed e) => ret (Err (wrapf ("rundrive: clear status.sandboxRef for gone pod " +:+ name +:+ ": ") e))
                  end
              end
          end
    end.

Definition followSucceeded (run : string) : Prog (result GoErr bool) :=
  if negb (Settle r) then ret (Ok false)
  else
    let* o := call (RunFollowOutcome run) in
    ret (match o with
         | Err e => Err e
         | Ok (_, settled, outcome) => Ok (settled && bool_decide (outcome = "succeeded"))
         end).

(** ** Custody and the gate *)

(** The state of custody a pass ends with: driven on, or what the pass returns. *)
Definition takeCustody (run : Run) (cs : DriverClaims.ClaimState) : Prog (option Result) :=
  let* held := (if bool_decide (DriverClaims.cs_run cs = UID run)
                then let* expired := leaseExpired cs in ret (negb expired) else ret false) in
  if held : bool then
    let* ok := call (Renew (WorkItemRef run) (UID run) (DriverClaims.cs_fence cs)) in
    ret (match ok with
         | Err e => Some (fail (wrapf ("rundrive: renew claim for " +:+ key run +:+ ": ") e))
         | Ok false => Some (requeue continueDelay)
         | Ok true => None
         end)
  else if bool_decide (DriverClaims.cs_lane cs ∈ ["todo"; "in_progress"]) then
    let* fence := call (Acquire (WorkItemRef run) (UID run) (firstAgentName run)) in
    ret (match fence with
         | Err e => Some (fail (wrapf ("rundrive: acquire claim for " +:+ key run +:+ ": ") e))
         | Ok None => Some (requeue continueDelay)
         | Ok (Some _) => None
         end)
  else ret (Some absorb).

(** The candidate types whose Secret is present and managed; a read error counts
    as absent. *)
Fixpoint satisfiedTypes (project ns : string) (candidates : list string) : Prog (gset string) :=
  match candidates with
  | [] => ret ∅
  | t :: rest =>
      match MaterializedSecretName project t with
      | None => satisfiedTypes project ns rest
      | Some name =>
          let* label := call (GetSecretLabel ns name) in
          let* others := satisfiedTypes project ns rest in
          ret (match label with
               | Ok l => if bool_decide (l = "") then others else {[t]} ∪ others
               | Err _ => others
               end)
      end
  end.

Definition evaluateGoLiveGate (run : Run) : Prog RunGateDecision :=
  let gated := GatedSkillsFromManifest (CapabilityManifest run) in
  if bool_decide (gated = []) then ret {| Admitted_ := true; WithheldSkills := []; MissingTypes := [] |}
  else
    let* satisfied := satisfiedTypes (ProjectRef run) (Namespace run) (CandidateCredentialTypes gated) in
    ret (EvaluateRunGate gated satisfied).

(** The gate at the edge before dispatch; [None] lets the pass go on. *)
Definition goLiveGate (run : Run) (cs : DriverClaims.ClaimState) : Prog (option Result) :=
  let step := DriverClaims.cs_step cs in
  if negb (bool_decide (step ∈ [StepClaimingSandbox; StepPausedCredentialRequired])) then ret None
  else
    let* decision := evaluateGoLiveGate run in
    if negb (Admitted_ decision) then
      let* held := call (GateHold (WorkItemRef run) (MissingTypes decision)) in
      match held with
      | Err e => ret (Some (fail (wrapf ("rundrive: gate hold for " +:+ key run +:+ ": ") e)))
      | Ok _ =>
          let* _ := when (bool_decide (step = StepClaimingSandbox) && HasNotifyPhase r) (NotifyPhase run) in
          ret (Some (requeue continueDelay))
      end
    else if bool_decide (step = StepPausedCredentialRequired) then
      let* resumed := call (GateResume (WorkItemRef run)) in
      match resumed with
      | Err e => ret (Some (fail (wrapf ("rundrive: gate resume for " +:+ key run +:+ ": ") e)))
      | Ok _ => let* _ := when (HasNotifyPhase r) (NotifyPhase run) in ret None
      end
    else ret None.

(** ** The drive *)

(** What a pass does with a drive's error. *)
Definition driveError (run : Run) (prefix : string) (e : GoErr) : Prog Result :=
  if Is errSandboxPending e then ret (requeue continueDelay)
  else if Is errEndpointSlotBusy e then waitEndpointSlot run e
  else if Is FailClosedDispatch e then let* fence := call StoreFence in failClosedPark run fence
  else ret (fail (wrapf prefix e)).

Definition driveOptions (fence : Z) (laps : Z) : Options :=
  {| Durable := true; Fence := fence; CrashBefore := StepNone; CrashAfterEffect := StepNone;
     Lap := if 0 <? laps then Some (laps + 1) else None; FailAt := StepNone; MaxPasses := maxPasses |}.

(** After the machine: what its error, or the step it left, makes of the pass. *)
Definition settleDrive (run : Run) (step : Step) (failed : option GoErr) : Prog Result :=
  match failed with
  | Some e => driveError run ("rundrive: drive " +:+ key run +:+ ": ") e
  | None =>
      let* serr := call StoreErr in
      let* eerr := call EffectsErr in
      match Join serr eerr with
      | Some e => driveError run ("rundrive: effects for " +:+ key run +:+ ": ") e
      | None =>
          let* _ := clearEndpointSlotWait run in
          let* after := call StoreStep in
          let* _ := when (negb (bool_decide (after = step)) && HasNotifyPhase r) (NotifyPhase run) in
          let* after := call StoreStep in
          ret (if IsTerminal after then absorb else requeue continueDelay)
      end
  end.

Definition drive (run : Run) (cs : DriverClaims.ClaimState) : Prog Result :=
  let* store := call (NewStore run) in
  match store with
  | Err e => ret (fail e)
  | Ok _ =>
      let* effects := call (NewEffects run) in
      match effects with
      | Err e => ret (fail e)
      | Ok _ =>
          let* laps := call (LapsUsed (UID run)) in
          match laps with
          | Err e => ret (fail (wrapf ("rundrive: count laps for " +:+ key run +:+ ": ") e))
          | Ok laps =>
              let* fence := call StoreFence in
              let* failed := call (Drive (driveOptions fence laps)) in
              settleDrive run (DriverClaims.cs_step cs) failed
          end
      end
  end.

(** Custody, then the gate, then the machine. *)
Definition advance (run : Run) (cs : DriverClaims.ClaimState) : Prog Result :=
  let* stop := takeCustody run cs in
  match stop with
  | Some res => ret res
  | None =>
      let* stop := goLiveGate run cs in
      match stop with
      | Some res => ret res
      | None => drive run cs
      end
  end.

(** Death, unless the agent's turn is known to have succeeded. *)
Definition deathOr (run : Run) (cs : DriverClaims.ClaimState) (settledOK : bool) : Prog Result :=
  if settledOK then advance run cs
  else
    let* d := dead cs in
    if d : bool then retryOrFail run cs
    else
      let* gone := reapGoneSandbox run cs in
      match gone with
      | Err e => ret (fail e)
      | Ok true => retryOrFail run cs
      | Ok false => advance run cs
      end.

Definition pass (run : Run) : Prog Result :=
  let* st := call (State (WorkItemRef run)) in
  match st with
  | Err e => ret (fail (wrapf ("rundrive: read claim for " +:+ key run +:+ ": ") e))
  | Ok None => ret absorb
  | Ok (Some cs) =>
      let step := DriverClaims.cs_step cs in
      if IsTerminal step then ret absorb
      else if isPaused step then park run
      else if bool_decide (step = StepCancelling) then cancelFinish run cs
      else if inFlightStep step then
        let* ok := followSucceeded (UID run) in
        match ok with
        | Err e => ret (fail (wrapf ("rundrive: read follow settlement for " +:+ key run +:+ ": ") e))
        | Ok settledOK => deathOr run cs settledOK
        end
      else deathOr run cs false
  end.

Definition Reconcile (ns name : string) : Prog Result :=
  let* got := call (GetRun ns name) in
  match got with
  | Err NotFound => ret absorb
  | Err (ApiFailed e) => ret (fail e)
  | Ok run =>
      if Deleting run || bool_decide (WorkItemRef run = "") then ret absorb
      else if negb (is_uuid (WorkItemRef run)) then abandonInvalidRef run
      else pass run
  end.

(** * The wakes *)

Fixpoint kickAll (runs : list Run) : Prog unit :=
  match runs with
  | [] => ret tt
  | run :: rest => let* _ := call (Kick run) in kickAll rest
  end.

Definition kickWorkItem (item : string) : Prog unit :=
  let* runs := call (ListRuns item) in
  match runs with
  | Err _ => ret tt
  | Ok runs => kickAll runs
  end.

Fixpoint OnCancelDue (due : list string) : Prog unit :=
  match due with
  | [] => ret tt
  | item :: rest => let* _ := kickWorkItem item in OnCancelDue rest
  end.

(** Only an item that was re-entered is kicked. *)
Fixpoint OnResumeDue (due : list string) : Prog unit :=
  match due with
  | [] => ret tt
  | item :: rest =>
      let* ok := call (RequeuePaused item) in
      let* _ := (match ok with Ok true => kickWorkItem item | _ => ret tt end) in
      OnResumeDue rest
  end.

(** One tick of CancelSweeper. *)
Definition cancelSweep : Prog unit :=
  let* due := call CancelDue in
  match due with
  | Ok (d :: ds) => OnCancelDue (d :: ds)
  | _ => ret tt
  end.

End driver.
