(* ===== verification/CoordTx.v ===== *)
(** Reasoning about the transactions of [CoordDb]: partial-correctness triples
    for their statements and the invariants they keep, the tactic that walks a
    transaction with them, and the tables each setter leaves alone. *)
From S2P Require Import Prelude Machine CoordDb.
Open Scope Z_scope.
Open Scope k8s_scope.

(** Started where [P] holds, a transaction that goes on does so where [Q] holds. *)
Definition tx_spec {B A} (P : Db -> Prop) (m : Tx B A) (Q : Db -> A -> Prop) : Prop :=
  forall env d d' a, P d -> m env d = inl (d', a) -> Q d' a.

Definition keeps {B A} (P : Db -> Prop) (m : Tx B A) : Prop := tx_spec P m (fun d _ => P d).

Section rules.
Context {B : Type}.
Implicit Types (P : Db -> Prop).

Lemma spec_bind {A C} P (m : Tx B A) (k : A -> Tx B C) Q R :
  tx_spec P m Q -> (forall a, tx_spec (fun d => Q d a) (k a) R) -> tx_spec P (tbind m k) R.
Proof.
  intros Hm Hk env d d' c HP. unfold tbind.
  destruct (m env d) as [[d1 a]|r] eqn:E; [|done].
  intros Hc. exact (Hk a env d1 d' c (Hm _ _ _ _ HP E) Hc).
Qed.

Lemma spec_weaken {A} P P' (m : Tx B A) (Q Q' : Db -> A -> Prop) :
  tx_spec P m Q -> (forall d, P' d -> P d) -> (forall d a, Q d a -> Q' d a) -> tx_spec P' m Q'.
Proof. intros Hm HP HQ env d d' a Hd E. apply HQ. exact (Hm _ _ _ _ (HP _ Hd) E). Qed.

Lemma spec_stmt {A} P label (f : TxEnv -> Db -> Db * A) Q :
  (forall env d, P d -> Q (f env d).1 (f env d).2) -> tx_spec P (stmt (B := B) label f) Q.
Proof.
  intros Hf env d d' a Hd. unfold stmt. case_match; [done|].
  intros [= E]. specialize (Hf env d Hd). by rewrite E in Hf.
Qed.

Lemma spec_pure {A} P (phi : Prop) (m : Tx B A) Q :
  (phi -> tx_spec P m Q) -> tx_spec (fun d => P d /\ phi) m Q.
Proof. intros Hm env d d' a [Hd Hphi]. by apply Hm. Qed.

Lemma keeps_ret {A} P (a : A) : keeps P (tret (B := B) a).
Proof. intros env d d' a' Hd [= <- <-]. done. Qed.

Lemma keeps_leave_with {A} P r : keeps P (leave_with (B := B) (A := A) r).
Proof. intros env d d' a Hd. done. Qed.

Lemma keeps_leave {A} P r : keeps P (leave (B := B) (A := A) r).
Proof. apply keeps_leave_with. Qed.

Lemma keeps_peek {A} P (f : Db -> A) : keeps P (peek (B := B) f).
Proof. intros env d d' a Hd [= <- <-]. done. Qed.

Lemma keeps_query {A} P label (f : TxEnv -> Db -> A) : keeps P (query (B := B) label f).
Proof. by apply spec_stmt. Qed.

Lemma keeps_exec P label f :
  (forall env d, P d -> P (f env d)) -> keeps P (exec (B := B) label f).
Proof. intros Hf. apply spec_stmt. intros env d Hd. by apply Hf. Qed.

Lemma keeps_stmt {A} P label (f : TxEnv -> Db -> Db * A) :
  (forall env d, P d -> P (f env d).1) -> keeps P (stmt (B := B) label f).
Proof. intros Hf. by apply spec_stmt. Qed.

Lemma keeps_bind {A C} P (m : Tx B A) (k : A -> Tx B C) :
  keeps P m -> (forall a, keeps P (k a)) -> keeps P (tbind m k).
Proof. intros Hm Hk. eapply spec_bind; [exact Hm|]. intros a. apply Hk. Qed.

(** A whole transaction: committed, rolled back, or failed on the way out. *)
Lemma keeps_runTx P (t : Tx B B) env d : keeps P t -> P d -> P (runTx env t d).1.
Proof.
  intros Ht Hd. unfold runTx. case_match; [done|].
  destruct (t env d) as [[d' b]|r] eqn:E; [|done].
  pose proof (Ht _ _ _ _ Hd E). case_match; [|done]. by case_match.
Qed.

Lemma keeps_autocommit {A} P env label (f : TxEnv -> Db -> Db * A) d :
  (forall env d, P d -> P (f env d).1) -> P d -> P (autocommit env label f d).1.
Proof.
  intros Hf Hd. unfold autocommit. specialize (Hf env d Hd).
  case_match; [by case_match|]. by destruct (f env d).
Qed.
End rules.

(** Walk a transaction, leaving one goal for each statement that writes. *)
Ltac tx_walk :=
  repeat first
    [ apply keeps_bind; [|intros ?]
    | apply keeps_ret | apply keeps_leave_with | apply keeps_leave | apply keeps_peek | apply keeps_query
    | apply keeps_exec; intros ?env ?d ?Hd
    | apply keeps_stmt; intros ?env ?d ?Hd
    | match goal with |- keeps _ (match ?x with _ => _ end) => destruct x eqn:? end
    | match goal with |- keeps _ (let x := _ in _) => intros ?; cbv zeta end ].

(** The transaction of a result that a fault cannot explain. *)
Lemma runTx_ok {B} env (t : Tx B B) d d' b :
  runTx env t d = (d', Ok b) ->
  (t env d = inl (d', b)) \/ (t env d = inr (Ok b) /\ d' = d).
Proof.
  unfold runTx. case_match; [done|]. destruct (t env d) as [[d1 b1]|r].
  - case_match; [done|]. intros [= -> ->]. by left.
  - intros [= -> ->]. by right.
Qed.

(** Nothing of a transaction that did not commit is seen. *)
Lemma runTx_failed {B} env (t : Tx B B) d d' err :
  runTx env t d = (d', Err err) -> landed env = false -> d' = d.
Proof.
  unfold runTx. intros H Hl. rewrite Hl in H. repeat case_match; by simplify_eq.
Qed.

Lemma runTx_run {B} env (t : Tx B B) d d' b :
  t env d = inl (d', b) -> faulty env "begin" = false -> faulty env "commit" = false ->
  runTx env t d = (d', Ok b).
Proof. intros Ht Hb Hc. unfold runTx. by rewrite Hb, Ht, Hc. Qed.

Lemma runTx_left {B} env (t : Tx B B) d r :
  t env d = inr r -> faulty env "begin" = false -> runTx env t d = (d, r).
Proof. intros Ht Hb. unfold runTx. by rewrite Hb, Ht. Qed.

(** A transaction whose statements do not fail, one statement at a time. *)
Definition no_fault (env : TxEnv) : Prop := forall label, faulty env label = false.

Section no_fault.
Context {B : Type} (env : TxEnv) (Hf : no_fault env).

Lemma run_stmt {A C} label (f : TxEnv -> Db -> Db * A) (k : A -> Tx B C) d :
  tbind (stmt label f) k env d = k (f env d).2 env (f env d).1.
Proof. unfold tbind, stmt. rewrite Hf. by destruct (f env d). Qed.

Lemma run_exec {C} label f (k : unit -> Tx B C) d : tbind (exec label f) k env d = k tt env (f env d).
Proof. apply run_stmt. Qed.

Lemma run_last label f d : exec (B := B) label f env d = inl (f env d, tt).
Proof. unfold exec, stmt. by rewrite Hf. Qed.

Lemma run_tx (t : Tx B B) d :
  runTx env t d = match t env d with inl (d', b) => (d', Ok b) | inr r => (d, r) end.
Proof. unfold runTx. rewrite !Hf. by destruct (t env d) as [[]|]. Qed.
End no_fault.
