(* ===== verification/Custody.v ===== *)
(** The writers of a claim as one system: [writes] has a rule for each operation of
    [ProdClaim], [Settle], [DriverClaims], [ProdEffects] and [Handoff] and for the
    machine's step advance, with any arguments, clock and faults. Proved of it: what
    none of them ever undoes ([lawful]) and the invariant of the schema ([wf]). The
    sweeps' writers are not among them and keep less: the heartbeat's release and the
    intake's re-arm are in [Sweeps]. Nor are the credential signals of [Resume], the
    board's authoring of [Board], and the store's Reclaim and SetStep, which only tests
    call. *)
From S2P Require Import Prelude Machine CoordDb CoordTx.
From S2P Require ProdClaim Settle DriverClaims ProdEffects Handoff.
Open Scope Z_scope.
Open Scope k8s_scope.

(** * The system *)

Section system.
Context (interval : string -> Z) (is_uuid : string -> bool) (sha256 : string -> string).
Context (marshal : Handoff.HandoffDoc -> string) (jsonb : string -> string).

(** The board lanes of the default configuration, whatever the lease. *)
Definition board_claimer (p : ProdClaim.ProdClaimer) : Prop :=
  ProdClaim.ClaimableState (ProdClaim.pc_cfg p) = "todo" /\
  ProdClaim.ClaimedState (ProdClaim.pc_cfg p) = "in_progress".

(** Every writer but the re-route. A pick may be stale by the time of the acquire,
    so a claim may meet any item. *)
Inductive other_writes : Db -> Db -> Prop :=
| w_claim env p cred principal run initiator agent item d : board_claimer p ->
    other_writes d (runTx env (ProdClaim.claimTail interval p cred principal run initiator agent item) d).1
| w_renew lease env item principal run fence d :
    other_writes d (ProdClaim.Renew lease env item principal run fence d).1
| w_kill env item run principal by_ fence d :
    other_writes d (Settle.CancelEnter env item run principal by_ fence d).1
| w_killed env item run principal fence d :
    other_writes d (Settle.CancelFinish env item run principal fence d).1
| w_retry principal env item run fence d :
    other_writes d (DriverClaims.RetryEnter principal env item run fence d).1
| w_fail principal env item run fence d :
    other_writes d (DriverClaims.FailEnter principal env item run fence d).1
| w_park principal env item run fence reason d :
    other_writes d (DriverClaims.FailClosedPark principal env item run fence reason d).1
| w_cancel principal env item run fence d :
    other_writes d (DriverClaims.CancelEnter principal env item run fence d).1
| w_clear principal env run d :
    other_writes d (DriverClaims.ClearSandboxBind principal env run d).1
| w_requeue principal env item d :
    other_writes d (DriverClaims.RequeuePaused principal env item d).1
| w_pause principal env item d :
    other_writes d (DriverClaims.PauseRateLimited principal env item d).1
| w_hold principal env item missing d :
    other_writes d (DriverClaims.GateHold principal env item missing d).1
| w_resume principal env item d :
    other_writes d (DriverClaims.GateResume principal env item d).1
| w_advance s expected next o gate env fence d : phaseNext expected o = Some next ->
    other_writes d (DriverClaims.Advance s expected next gate env fence d).1
| w_bind e env ref x :
    other_writes (ProdEffects.fx_db x) (ProdEffects.fx_db (ProdEffects.bindMarker e env id ref x))
| w_dispatch e env task x :
    other_writes (ProdEffects.fx_db x) (ProdEffects.fx_db (ProdEffects.dispatchMarker e env id task x))
| w_collect e ports env key content x :
    other_writes (ProdEffects.fx_db x) (ProdEffects.fx_db (ProdEffects.Collect sha256 e ports env key content true x))
| w_terminal e env s x :
    other_writes (ProdEffects.fx_db x) (ProdEffects.fx_db (ProdEffects.Terminal e env s x))
| w_handoff env item principal run by_ fence doc d :
    other_writes d (Handoff.WriteHandoff marshal jsonb sha256 env item principal run by_ fence doc d).1
| w_next env fresh dec d :
    other_writes d (Handoff.DispatchNextOfRecord env fresh dec d).1.

(** A re-route may have missed a prior release. *)
Inductive writes : Db -> Db -> Prop :=
| w_other d d' : other_writes d d' -> writes d d'
| w_reroute env capture item holder run cred att resumeAt coord d :
    writes d (runTx env (ProdClaim.releaseLocked capture item holder run cred att resumeAt coord) d).1.

End system.

(** An invariant of every step is one of every execution. *)
Lemma rtc_keeps {A} (R : relation A) (P : A -> Prop) :
  (forall d d', R d d' -> P d -> P d') -> forall d d', rtc R d d' -> P d -> P d'.
Proof. intros HP d d' H. induction H; eauto. Qed.

(** * What no writer undoes *)

(** A fence names one custody; a terminal step is final. *)
Definition claim_le (c c' : ClaimRow) : Prop :=
  fence_token c <= fence_token c' /\
  (fence_token c' = fence_token c ->
     holder_principal c' = holder_principal c /\ run_id c' = run_id c /\
     acquired_at c' = acquired_at c /\ initiated_by c' = initiated_by c) /\
  (Settle.terminal_step (reconcile_step c) = true -> reconcile_step c' = reconcile_step c).

Definition engine_lanes : list string := ["todo"; "in_progress"].

(** Authorship is kept, the lane moves between the engine's lanes or to cancelled,
    and a block stays as it was set. *)
Definition item_le (w w' : ItemRow) : Prop :=
  it_project w' = it_project w /\ it_team w' = it_team w /\ it_parent w' = it_parent w /\
  it_title w' = it_title w /\ it_body w' = it_body w /\ it_source w' = it_source w /\
  it_created_by w' = it_created_by w /\ it_created_at w' = it_created_at w /\ it_requested w' = it_requested w /\
  (it_state w' = it_state w \/ it_state w ∈ engine_lanes /\ it_state w' ∈ "cancelled" :: engine_lanes) /\
  (is_Some (it_blocked w) -> it_blocked w' = it_blocked w).

Record lawful (d d' : Db) : Prop := {
  lw_claims : forall i c, claims d !! i = Some c -> exists c', claims d' !! i = Some c' /\ claim_le c c';
  lw_items : forall i w, items d !! i = Some w -> exists w', items d' !! i = Some w' /\ item_le w w';
  lw_audits : audits d `prefix_of` audits d';
  lw_outbox : outbox d `prefix_of` outbox d';
  lw_comments : comments d `prefix_of` comments d';
  lw_dispatches : dispatches d ⊆ dispatches d';
  lw_a2a : a2a_dispatch d ⊆ a2a_dispatch d';
}.

#[export] Instance claim_le_preorder : PreOrder claim_le.
Proof.
  split.
  - intros c. unfold claim_le. split_and!; auto with lia.
  - intros c1 c2 c3 (? & H1 & Ht1) (? & H2 & Ht2). unfold claim_le. split_and!; [lia| |].
    + intros He. destruct H1 as (?&?&?&?); [lia|]. destruct H2 as (?&?&?&?); [lia|].
      split_and!; congruence.
    + intros Ht. specialize (Ht1 Ht). rewrite Ht2; congruence.
Qed.

#[export] Instance item_le_preorder : PreOrder item_le.
Proof.
  split.
  - intros w. unfold item_le. split_and!; auto.
  - intros w1 w2 w3 (?&?&?&?&?&?&?&?&?&L1&B1) (?&?&?&?&?&?&?&?&?&L2&B2). unfold item_le.
    split_and!; try congruence.
    + destruct L1 as [E1|[? ?]], L2 as [E2|[? ?]]; try rewrite E2; auto. rewrite E1 in *. auto.
    + intros Hb. pose proof (B1 Hb) as E. rewrite <- E. apply B2. by rewrite E.
Qed.

#[export] Instance lawful_preorder : PreOrder lawful.
Proof.
  split.
  - intros d. split; eauto.
    + intros i c Hc. exists c. by split.
    + intros i w Hw. exists w. by split.
  - intros d1 d2 d3 H1 H2. split; try (etrans; [apply H1|apply H2]).
    + intros i c Hc. destruct (lw_claims _ _ H1 i c Hc) as (c2 & Hc2 & ?).
      destruct (lw_claims _ _ H2 i c2 Hc2) as (c3 & ? & ?). exists c3. split; [done|]. by etrans.
    + intros i w Hw. destruct (lw_items _ _ H1 i w Hw) as (w2 & Hw2 & ?).
      destruct (lw_items _ _ H2 i w2 Hw2) as (w3 & ? & ?). exists w3. split; [done|]. by etrans.
Qed.

(** ** The setters *)

Section setters.
Implicit Types (d : Db).

Lemma lawful_put_claim i c c' d :
  claims d !! i = Some c -> claim_le c c' -> lawful d (put_claim i c' d).
Proof.
  intros Hc Hle. split; cbn; try reflexivity.
  - intros j cj Hj. destruct (decide (i = j)) as [<-|Hne].
    + rewrite lookup_insert_eq. exists c'. split; [done|]. by simplify_eq.
    + rewrite lookup_insert_ne by done. exists cj. by split.
  - intros j w Hj. exists w. by split.
Qed.

Lemma lawful_item i w w' d :
  items d !! i = Some w -> item_le w w' -> lawful d (set_items (<[i := w']> (items d)) d).
Proof.
  intros Hw Hle. split; cbn; try reflexivity.
  - intros j c Hj. exists c. by split.
  - intros j wj Hj. destruct (decide (i = j)) as [<-|Hne].
    + rewrite lookup_insert_eq. exists w'. split; [done|]. by simplify_eq.
    + rewrite lookup_insert_ne by done. exists wj. by split.
Qed.

Lemma lawful_put_lane now i lane w d :
  items d !! i = Some w ->
  (it_state w ∈ engine_lanes /\ lane ∈ "cancelled" :: engine_lanes) ->
  lawful d (put_lane now i lane w d).
Proof.
  intros Hw Hl. apply (lawful_item _ w); [done|]. unfold item_le; cbn. split_and!; auto.
Qed.

Lemma lawful_put_blocked now i reason w d :
  items d !! i = Some w -> it_blocked w = None -> lawful d (put_blocked now i reason w d).
Proof.
  intros Hw Hb. apply (lawful_item _ w); [done|]. unfold item_le; cbn. split_and!; auto.
  rewrite Hb. by intros [? ?].
Qed.

Ltac lawful_frame :=
  split; cbn; try reflexivity; try (intros j c Hj; exists c; by split); try by eexists.

Lemma lawful_add_audit r d : lawful d (add_audit r d).
Proof. lawful_frame. Qed.
Lemma lawful_add_outbox rs d : lawful d (add_outbox rs d).
Proof. lawful_frame. Qed.
Lemma lawful_add_comment r d : lawful d (add_comment r d).
Proof. lawful_frame. Qed.
Lemma lawful_set_artifacts l d : lawful d (set_artifacts l d).
Proof. lawful_frame. Qed.
Lemma lawful_set_holds m d : lawful d (set_holds m d).
Proof. lawful_frame. Qed.
Lemma lawful_set_bind m d : lawful d (set_bind m d).
Proof. lawful_frame. Qed.

Lemma lawful_add_dispatch k m d :
  dispatches d !! k = None -> lawful d (set_dispatches (<[k := m]> (dispatches d)) d).
Proof.
  intros Hk. split; cbn; try reflexivity.
  - intros j c Hj. exists c. by split.
  - intros j w Hj. exists w. by split.
  - by apply insert_subseteq.
Qed.

Lemma lawful_add_a2a k m d :
  a2a_dispatch d !! k = None -> lawful d (set_a2a (<[k := m]> (a2a_dispatch d)) d).
Proof.
  intros Hk. split; cbn; try reflexivity.
  - intros j c Hj. exists c. by split.
  - intros j w Hj. exists w. by split.
  - by apply insert_subseteq.
Qed.

Lemma lawful_insert_item i w d :
  items d !! i = None -> claims d !! i = None -> lawful d (insert_item i w d).
Proof.
  intros Hi Hc. split; cbn; try reflexivity.
  - intros j c Hj. exists c. split; [|done]. rewrite lookup_insert_ne; [done|]. by intros ->; simplify_eq.
  - intros j wj Hj. exists wj. split; [|done]. rewrite lookup_insert_ne; [done|]. by intros ->; simplify_eq.
Qed.
End setters.

#[export] Hint Resolve lawful_add_audit lawful_add_outbox lawful_add_comment lawful_set_artifacts
  lawful_set_holds lawful_set_bind lawful_add_dispatch lawful_add_a2a lawful_insert_item
  lawful_put_claim lawful_put_blocked : k8s.

(** * Row changes and stable invariants *)

(** Every change a writer makes to a claim row. *)
Inductive claim_change (c : ClaimRow) : ClaimRow -> Prop :=
| ch_acquired interval p principal run initiator now :
    claim_change c (ProdClaim.acquired interval p c principal run initiator now)
| ch_assignee agent : claim_change c (ProdClaim.set_assignee agent c)
| ch_renewed lease now : is_Some (holder_principal c) ->
    claim_change c (ProdClaim.renewed c lease now)
| ch_rerouted : claim_change c (ProdClaim.reroute_freed c)
| ch_fenced release step now :
    Settle.terminal_step (reconcile_step c) = false -> Classify step <> ClassUnknown ->
    claim_change c (Settle.fenced c release step now)
| ch_step step :
    Settle.terminal_step (reconcile_step c) = false -> Classify step <> ClassUnknown ->
    claim_change c (DriverClaims.set_step step c)
| ch_terminal : claim_change c (ProdEffects.terminal_freed c).

Definition artifact_key (a : ArtifactRow) : string * string * string := (ar_item a, ar_run a, ar_kind a).

(** What an invariant must survive to be one of every writer. *)
Record stable (P : Db -> Prop) : Prop := {
  st_claim : forall i c c' d, claims d !! i = Some c -> claim_change c c' -> P d -> P (put_claim i c' d);
  st_lane : forall now i lane w d, items d !! i = Some w -> it_state w ∈ engine_lanes ->
    lane ∈ "cancelled" :: engine_lanes -> P d -> P (put_lane now i lane w d);
  st_blocked : forall now i reason w d, items d !! i = Some w -> it_blocked w = None ->
    P d -> P (put_blocked now i reason w d);
  st_audit : forall r d, P d -> P (add_audit r d);
  st_outbox : forall rs d, P d -> P (add_outbox rs d);
  st_comment : forall r d, P d -> P (add_comment r d);
  st_publish : forall a d, artifact_key a ∉ (artifact_key <$> artifacts d) ->
    P d -> P (set_artifacts (artifacts d ++ [a]) d);
  st_republish : forall l d, artifact_key <$> l = artifact_key <$> artifacts d -> P d -> P (set_artifacts l d);
  st_bind : forall m d, P d -> P (set_bind m d);
  st_dispatch : forall k m d, dispatches d !! k = None -> is_Some (items d !! created_item m) ->
    P d -> P (set_dispatches (<[k := m]> (dispatches d)) d);
  st_insert : forall i w d, items d !! i = None -> claims d !! i = None -> it_state w = "todo" ->
    P d -> P (insert_item i w d);
}.

(** To survive a dispatch marker. *)
Definition marker_stable (P : Db -> Prop) : Prop :=
  forall k m d, a2a_dispatch d !! k = None -> P d -> P (set_a2a (<[k := m]> (a2a_dispatch d)) d).

(** And to survive a re-route's hold. *)
Definition hold_stable (P : Db -> Prop) : Prop :=
  forall i h c d, claims d !! i = Some c -> released_fence h <= fence_token c ->
    P d -> P (set_holds (<[i := h]> (holds d)) d).

Lemma claim_change_le c c' : claim_change c c' -> claim_le c c'.
Proof.
  intros []; split_and!; cbn; try done; try lia; intros; try congruence; auto.
Qed.

Lemma lawful_stable d0 : stable (lawful d0).
Proof.
  split; intros; (etrans; [eassumption|]); auto with k8s.
  - apply (lawful_put_claim _ c); [done|]. by apply claim_change_le.
  - by apply lawful_put_lane.
Qed.

Lemma lawful_marker_stable d0 : marker_stable (lawful d0).
Proof. intros k m d Hk Hd. etrans; [eassumption|]. auto with k8s. Qed.

Lemma lawful_hold_stable d0 : hold_stable (lawful d0).
Proof. intros i h c d _ _ Hd. etrans; [eassumption|]. auto with k8s. Qed.

(** * Every writer keeps a stable invariant *)

Section stable_writers.
Context (P : Db -> Prop) (HP : stable P).

Ltac stable_step :=
  unfold id in *; repeat case_match; simplify_eq/=; reflect_bools;
  first [ done | by apply (st_audit _ HP) | by apply (st_outbox _ HP) | by apply (st_comment _ HP)
        | by apply (st_bind _ HP)
        | by eapply (st_claim _ HP); [eassumption| constructor |]
        | by eapply (st_lane _ HP); [eassumption|..]; unfold engine_lanes in *; set_solver
        | by eapply (st_blocked _ HP); [eassumption| |] | idtac ].

Lemma keeps_claimTail interval p cred principal run initiator agent item :
  board_claimer p -> keeps P (ProdClaim.claimTail interval p cred principal run initiator agent item).
Proof.
  intros [Hc Hm]. unfold ProdClaim.claimTail, ProdClaim.acquire, ProdClaim.stampAssignee, ProdClaim.mark,
    ProdClaim.auditClaim, ProdClaim.captureClaim, ProdClaim.CaptureForWorkItem. rewrite Hc, Hm.
  tx_walk; stable_step.
Qed.

Lemma keeps_leave_in_progress {B} label item lane :
  lane ∈ "cancelled" :: engine_lanes -> keeps (B := B) P (Settle.leave_in_progress label item lane).
Proof. intros Hl. unfold Settle.leave_in_progress. tx_walk. stable_step. Qed.

Lemma spec_settleLane {B} item step :
  tx_spec (B := B) P (Settle.settleLane item step)
    (fun d lane => P d /\ (lane = "" \/ lane ∈ "cancelled" :: engine_lanes)).
Proof.
  unfold Settle.settleLane, Settle.SettleLaneOf, engine_lanes, tbind, query, stmt, tret.
  intros env d d' lane Hd E. repeat case_match; simplify_eq/=; (split; [done|set_solver]).
Qed.

Lemma keeps_settleMove {B} item run principal step lane :
  lane = "" \/ lane ∈ "cancelled" :: engine_lanes ->
  keeps (B := B) P (Settle.settleMove item run principal step lane).
Proof.
  intros Hl. unfold Settle.settleMove. case_bool_decide; [tx_walk|].
  apply keeps_bind; [apply keeps_leave_in_progress; tauto|]. intros []; tx_walk; stable_step.
Qed.

Lemma keeps_settle {B} item run principal step :
  keeps (B := B) P (Settle.SettleTerminalLane item run principal step).
Proof.
  unfold Settle.SettleTerminalLane. case_bool_decide; [apply keeps_leave|].
  case_match; [apply keeps_ret|]. apply keeps_bind; [tx_walk|]. intros agent.
  eapply spec_bind; [apply spec_settleLane|]. intros lane. apply spec_pure. intros Hl.
  apply keeps_bind; [by apply keeps_settleMove|]. intros moved. unfold Settle.settleComment.
  tx_walk; stable_step.
Qed.

Lemma keeps_fenceTo {B} label item fence release step :
  Classify step <> ClassUnknown -> keeps (B := B) P (Settle.fenceTo label item fence release step).
Proof. intros Hs. unfold Settle.fenceTo. tx_walk. stable_step. Qed.

Lemma keeps_cancelTx item run principal by_ event step fence release :
  Classify step <> ClassUnknown ->
  keeps P (Settle.cancelTx item run principal by_ event step fence release).
Proof.
  intros Hs. unfold Settle.cancelTx, Settle.run_event. apply keeps_bind; [by apply keeps_fenceTo|]. intros got.
  tx_walk; stable_step.
Qed.

Lemma keeps_enterTx principal item run event fence step reason :
  Classify step <> ClassUnknown ->
  keeps P (DriverClaims.enterTx principal item run event fence step reason).
Proof.
  intros Hs. unfold DriverClaims.enterTx, DriverClaims.park, DriverClaims.auditReleased, Settle.run_event.
  apply keeps_bind; [tx_walk|].
  intros [wasHeld|]; [|tx_walk]. apply keeps_bind; [by apply keeps_fenceTo|]. intros [f|]; [|tx_walk].
  repeat (apply keeps_bind; [first [apply keeps_settle | tx_walk; stable_step]|intros ?]). tx_walk.
Qed.

Lemma keeps_stepMove principal item froms from to audit event payload :
  Forall (fun s => Settle.terminal_step s = false) froms -> Classify to <> ClassUnknown ->
  keeps P (DriverClaims.stepMove principal item froms from to audit event payload).
Proof.
  intros Hf Hto. unfold DriverClaims.stepMove, Settle.run_event. tx_walk; stable_step.
  rewrite Forall_forall in Hf. eapply (st_claim _ HP); [eassumption| |done]. constructor; auto.
Qed.

Lemma keeps_lifecycle {B} s expected next fence evs : keeps (B := B) P (DriverClaims.lifecycle s expected next fence evs).
Proof. induction evs as [|ev evs IH]; cbn [DriverClaims.lifecycle]; [apply keeps_ret|]. apply keeps_bind; [tx_walk; stable_step|done]. Qed.

(** The machine advances a step that is not terminal, to one the schema knows. *)
Lemma keeps_Advance s expected next o gate env fence d :
  phaseNext expected o = Some next -> P d -> P (DriverClaims.Advance s expected next gate env fence d).1.
Proof.
  intros Hn Hd. assert (Settle.terminal_step expected = false /\ Classify next <> ClassUnknown) as [Hexp Hnext].
  { destruct expected; try discriminate Hn; cbn in Hn; injection Hn as <-; (split; [done|]); by case_bool_decide. }
  assert (P (runTx env (DriverClaims.advanceTx s expected next fence) d).1) as Hrun.
  { apply (keeps_runTx P); [|done]. unfold DriverClaims.advanceTx. apply keeps_bind; [tx_walk; stable_step|].
    1,2: eapply (st_claim _ HP); [eassumption| |done]; apply ch_step; [by simplify_eq|done].
    intros [f|]; [|tx_walk]. repeat (apply keeps_bind; [first [apply keeps_lifecycle | tx_walk; stable_step]|intros ?]). tx_walk. }
  unfold DriverClaims.Advance. case_match; [|done]. by destruct gate as [[]|].
Qed.

Lemma keeps_terminalTx e s : keeps P (ProdEffects.terminalTx e s).
Proof.
  unfold ProdEffects.terminalTx.
  repeat (apply keeps_bind; [first [apply keeps_settle | tx_walk; stable_step]|intros ?]). tx_walk.
Qed.

Lemma keeps_fx_exec {A} env label (f : TxEnv -> Db -> Db * A) x :
  (forall env d, P d -> P (f env d).1) -> P (ProdEffects.fx_db x) ->
  P (ProdEffects.fx_db (ProdEffects.fx_exec env label f x).1).
Proof.
  intros Hf Hx. unfold ProdEffects.fx_exec.
  pose proof (keeps_autocommit P env label f _ Hf Hx). destruct (autocommit _ _ _ _) as [d []]; done.
Qed.

Lemma keeps_effect_audit e env event to x :
  P (ProdEffects.fx_db x) -> P (ProdEffects.fx_db (ProdEffects.audit e env event to x)).
Proof. intros Hx. apply keeps_fx_exec; [|done]. intros. by apply (st_audit _ HP). Qed.

Lemma has_artifact_key e kind d :
  ProdEffects.has_artifact e kind d = true <->
  (ProdEffects.pe_item e, ProdEffects.pe_run e, kind) ∈ (artifact_key <$> artifacts d).
Proof.
  unfold ProdEffects.has_artifact. rewrite existsb_exists. setoid_rewrite <- list_elem_of_In.
  rewrite list_elem_of_fmap. unfold artifact_key.
  split; intros (a & H1 & H2); exists a; [split; [|done]|split; [done|]]; reflect_bools.
  - destruct_and?. reflect_bools. congruence.
  - simplify_eq. rewrite !bool_decide_eq_true_2; done.
Qed.

Lemma keeps_publish e env label kind uri sha meta x :
  P (ProdEffects.fx_db x) ->
  P (ProdEffects.fx_db (ProdEffects.publish e env label
       (ProdEffects.artifact_row e env kind uri sha meta) x).1).
Proof.
  intros Hx. apply keeps_fx_exec; [|done]. intros env' d Hd. cbn. case_match eqn:Hk; [done|].
  apply (st_publish _ HP); [|done]. intros Hin.
  apply (has_artifact_key e kind d) in Hin. exact (eq_true_false_abs _ Hin Hk).
Qed.

Lemma keeps_bindMarker e env ref x :
  P (ProdEffects.fx_db x) -> P (ProdEffects.fx_db (ProdEffects.bindMarker e env id ref x)).
Proof.
  intros Hx. unfold ProdEffects.bindMarker, id. destruct (ProdEffects.fx_exec _ _ _ _) as [x' done'] eqn:E.
  assert (P (ProdEffects.fx_db x')) as Hx'.
  { replace x' with (x', done').1 by done. rewrite <- E. apply keeps_fx_exec; [|done].
    intros ? d Hd. cbn. case_match; [done|]. by apply (st_bind _ HP). }
  case_match; [by apply keeps_effect_audit|done].
Qed.

Lemma keeps_dispatchMarker (HM : marker_stable P) e env task x :
  P (ProdEffects.fx_db x) -> P (ProdEffects.fx_db (ProdEffects.dispatchMarker e env id task x)).
Proof.
  intros Hx. unfold ProdEffects.dispatchMarker, id. destruct (ProdEffects.fx_exec _ _ _ _) as [x' n] eqn:E.
  assert (P (ProdEffects.fx_db x')) as Hx'.
  { replace x' with (x', n).1 by done. rewrite <- E. apply keeps_fx_exec; [|done].
    intros ? d Hd. case_match; [done|]. by apply HM. }
  destruct n as [[]|]; [by apply keeps_effect_audit|done..].
Qed.

Lemma keeps_snapshot e ports env x :
  P (ProdEffects.fx_db x) -> P (ProdEffects.fx_db (ProdEffects.collectBuildSnapshot e ports env x)).
Proof.
  intros Hx. unfold ProdEffects.collectBuildSnapshot.
  repeat match goal with |- context [match ?y with _ => _ end] => is_var y; destruct y
                       | |- context [match ProdEffects.fx_err ?y with _ => _ end] => destruct (ProdEffects.fx_err y)
                       | |- context [match ProdEffects.snapshotter ?y with _ => _ end] => destruct (ProdEffects.snapshotter y) as [[snap|]|]
                       end; try done; [|by apply keeps_effect_audit].
  case_match; [|done].
  match goal with |- context [ProdEffects.publish ?e ?env ?l (ProdEffects.artifact_row _ _ ?k ?u ?s ?m) ?x] =>
    pose proof (keeps_publish e env l k u s m x) as Hp;
    destruct (ProdEffects.publish e env l (ProdEffects.artifact_row e env k u s m) x) as [x' [[]|]] end;
  try apply keeps_effect_audit; by apply Hp.
Qed.

Lemma keeps_Collect sha256 e ports env key content x :
  P (ProdEffects.fx_db x) ->
  P (ProdEffects.fx_db (ProdEffects.Collect sha256 e ports env key content true x)).
Proof.
  intros Hx. unfold ProdEffects.Collect. case_match; [done|]. cbn [negb].
  match goal with |- context [ProdEffects.publish ?e ?env ?l (ProdEffects.artifact_row _ _ ?k ?u ?s ?m) ?x] =>
    pose proof (keeps_publish e env l k u s m x Hx) as Hp;
    destruct (ProdEffects.publish e env l (ProdEffects.artifact_row e env k u s m) x) as [x' [n|]] end; [|done].
  apply keeps_snapshot. destruct n; [by apply keeps_effect_audit|done].
Qed.

Lemma keeps_Terminal e env s x :
  P (ProdEffects.fx_db x) -> P (ProdEffects.fx_db (ProdEffects.Terminal e env s x)).
Proof.
  intros Hx. unfold ProdEffects.Terminal. case_match; [done|].
  pose proof (keeps_runTx P _ env _ (keeps_terminalTx e s) Hx).
  destruct (runTx _ _ _) as [d []]; done.
Qed.

Lemma upsert_artifact_key a l :
  existsb (Handoff.same_key (ar_item a) (ar_run a) (ar_kind a)) l = false ->
  artifact_key a ∉ (artifact_key <$> l).
Proof.
  intros Hn Hin. apply not_true_iff_false in Hn. apply Hn, existsb_exists.
  apply list_elem_of_fmap in Hin as (b & Hb & Hin). exists b. split; [by apply list_elem_of_In|].
  unfold artifact_key in Hb. unfold Handoff.same_key.
  rewrite !bool_decide_eq_true_2; [done|congruence..].
Qed.

Lemma keeps_writeTx marshal jsonb sha256 item principal run by_ fence doc :
  keeps P (Handoff.writeTx marshal jsonb sha256 item principal run by_ fence doc).
Proof.
  unfold Handoff.writeTx. tx_walk; stable_step.
  unfold Handoff.upsert_artifact. case_match eqn:Hk.
  - apply (st_republish _ HP); [|done]. rewrite <- list_fmap_compose. apply list_fmap_ext.
    intros _ b _. cbn. by case_match.
  - apply (st_publish _ HP); [|done]. by apply upsert_artifact_key.
Qed.

Lemma spec_released item holder run :
  tx_spec (B := ProdClaim.RerouteReleaseResult) P
    (stmt "release" (fun _ d =>
       match claims d !! item with
       | Some c => if sql_eqb (holder_principal c) holder && sql_eqb (run_id c) run
                   then (put_claim item (ProdClaim.reroute_freed c) d, Some (fence_token c + 1))
                   else (d, None)
       | None => (d, None)
       end))
    (fun d f => P d /\ (forall fence, f = Some fence ->
       exists c, claims d !! item = Some c /\ fence <= fence_token c)).
Proof.
  apply spec_stmt. intros env d Hd.
  case_match eqn:Hc; [case_match|]; cbn; (split; [|intros f [= <-]] || idtac); try done.
  - eapply (st_claim _ HP); [done|constructor|done].
  - eexists. rewrite lookup_insert_eq. split; [done|]. cbn. lia.
Qed.

(** The released claim and its fence stay in place up to the hold. *)
Lemma stable_with_fence item fence :
  stable P -> forall now lane w d, items d !! item = Some w -> it_state w ∈ engine_lanes ->
  lane ∈ "cancelled" :: engine_lanes ->
  P d /\ (exists c, claims d !! item = Some c /\ fence <= fence_token c) ->
  P (put_lane now item lane w d) /\ (exists c, claims (put_lane now item lane w d) !! item = Some c /\ fence <= fence_token c).
Proof. intros _ now lane w d Hw Hl Hl' [Hd Hc]. split; [by apply (st_lane _ HP)|done]. Qed.

Lemma keeps_releaseLocked (HH : hold_stable P) capture item holder run cred att resumeAt coord :
  keeps P (ProdClaim.releaseLocked capture item holder run cred att resumeAt coord).
Proof.
  unfold ProdClaim.releaseLocked, ProdClaim.CaptureForWorkItem.
  apply keeps_bind; [tx_walk|]. intros [[[[h|] [r|]] st]|]; try solve [tx_walk].
  do 2 (case_match; [apply keeps_leave|]).
  eapply spec_bind; [apply spec_released|]. intros [fence|].
  2:{ eapply spec_weaken; [apply (keeps_leave P)|by intros ? [? ?]|done]. }
  eapply (spec_weaken (fun d => P d /\ exists c, claims d !! item = Some c /\ fence <= fence_token c));
    [|intros d [Hd Hc]; split; [done|by apply Hc]|intros ? ?; exact id].
  eapply (spec_bind _ _ _ (fun d _ => P d /\ exists c, claims d !! item = Some c /\ fence <= fence_token c)).
  { apply spec_stmt. intros env d Hd. repeat case_match; try done. reflect_bools.
    apply stable_with_fence; try done; unfold engine_lanes; set_solver. }
  intros moved. case_match; [by intros ? ? ? ? ?|].
  eapply (spec_bind _ _ _ (fun d _ => P d)).
  { apply spec_stmt. intros env d [Hd (c & Hc & Hf)]. cbn. by apply (HH _ _ c). }
  intros []. fold (keeps (B := ProdClaim.RerouteReleaseResult) (A := ProdClaim.RerouteReleaseResult) P).
  tx_walk; stable_step.
Qed.

Lemma keeps_dispatchTx fresh dec : keeps P (Handoff.dispatchTx fresh dec).
Proof.
  unfold Handoff.dispatchTx. apply keeps_bind; [tx_walk|]. intros [[w [run|]]|]; try solve [tx_walk].
  do 2 (case_match; [apply keeps_leave|]).
  eapply (spec_bind _ _ _ (fun d b => P d /\ (b = true -> is_Some (items d !! fresh)))).
  { apply spec_stmt. intros env d Hd. repeat case_match; cbn; (split; [|try discriminate]); try done;
      first [by apply (st_insert _ HP) | intros _; rewrite lookup_insert_eq; by eexists]. }
  intros [].
  2:{ intros ? ? ? ? [? _]. done. }
  cbn [negb]. eapply (spec_bind _ _ _ (fun d _ => P d)).
  { apply spec_stmt. intros env d [Hd Hf]. case_match; cbn; [done|]. apply (st_dispatch _ HP); auto. }
  intros [existing|]; tx_walk; stable_step.
Qed.
Lemma keeps_Renew lease env item principal run fence d :
  P d -> P (ProdClaim.Renew lease env item principal run fence d).1.
Proof.
  intros Hd. apply (keeps_autocommit P); [|done]. intros env' d1 Hd1. cbv zeta.
  destruct (claims d1 !! item) as [c|] eqn:Hc; [|done].
  destruct (_ && _) eqn:Hb; [|done]. cbn.
  eapply (st_claim _ HP); [done| |done]. constructor.
  apply andb_true_iff in Hb as [Hb _]. unfold ProdClaim.live_custody, sql_eqb in Hb.
  repeat match goal with H : _ && _ = true |- _ => apply andb_true_iff in H as [? ?] end. reflect_bools.
  by eexists.
Qed.

Lemma keeps_ClearSandboxBind principal env run d :
  P d -> P (DriverClaims.ClearSandboxBind principal env run d).1.
Proof.
  intros Hd. unfold DriverClaims.ClearSandboxBind. case_bool_decide; [done|].
  apply (keeps_runTx P); [|done].
  tx_walk; repeat case_match; simplify_eq/=; by first [apply (st_bind _ HP)|apply (st_audit _ HP)|done].
Qed.
End stable_writers.

Lemma other_writes_stable interval sha256 marshal jsonb P : stable P -> marker_stable P ->
  forall d d', other_writes interval sha256 marshal jsonb d d' -> P d -> P d'.
Proof.
  intros HP HM d d' []; intros Hd;
    unfold Settle.CancelEnter, Settle.CancelFinish, DriverClaims.RetryEnter, DriverClaims.FailEnter,
      DriverClaims.FailClosedPark, DriverClaims.CancelEnter,
      DriverClaims.RequeuePaused, DriverClaims.PauseRateLimited, DriverClaims.GateHold,
      DriverClaims.GateResume, DriverClaims.enter, Handoff.WriteHandoff, Handoff.DispatchNextOfRecord;
    cbn [fst DriverClaims.entered Settle.cancelResult];
    first [by apply keeps_Renew | by apply keeps_ClearSandboxBind | by eapply keeps_Advance | idtac];
    try (case_bool_decide; [done|]);
    try (apply (keeps_runTx P); [|done]);
    try solve
      [ by apply keeps_claimTail | by apply keeps_cancelTx
      | by apply keeps_enterTx | apply keeps_stepMove; [done|by repeat constructor|done]
      | by apply keeps_writeTx | by apply keeps_dispatchTx | by apply keeps_bindMarker
      | by apply keeps_dispatchMarker | by apply keeps_Collect | by apply keeps_Terminal ].
Qed.

Lemma writes_stable interval sha256 marshal jsonb P : stable P -> marker_stable P -> hold_stable P ->
  forall d d', writes interval sha256 marshal jsonb d d' -> P d -> P d'.
Proof.
  intros HP HM HH d d' []; intros Hd; [by eapply other_writes_stable|].
  apply (keeps_runTx P); [|done]. by apply keeps_releaseLocked.
Qed.

(** * The invariant of the schema *)

(** A claim is held under a lease, by a run, since an instant, at a positive
    fence, or it is free; its step is one the schema knows. *)
Definition claim_ok (c : ClaimRow) : Prop :=
  0 <= fence_token c /\
  (is_Some (holder_principal c) <-> is_Some (lease_expires_at c)) /\
  (is_Some (holder_principal c) -> is_Some (run_id c) /\ is_Some (acquired_at c) /\ 0 < fence_token c) /\
  Classify (reconcile_step c) <> ClassUnknown.

Definition lane_ok (s : string) : Prop :=
  s ∈ ["backlog"; "todo"; "design"; "planning"; "implementation"; "code_review"; "testing";
       "documentation"; "done"; "cancelled"; "in_progress"; "in_review"].

Record wf (d : Db) : Prop := {
  wf_paired : forall i, is_Some (items d !! i) <-> is_Some (claims d !! i);
  wf_claims : forall i c, claims d !! i = Some c -> claim_ok c;
  wf_lanes : forall i w, items d !! i = Some w -> lane_ok (it_state w);
  wf_artifacts : NoDup (artifact_key <$> artifacts d);
  wf_holds : forall i h, holds d !! i = Some h ->
    exists c, claims d !! i = Some c /\ released_fence h <= fence_token c;
  wf_dispatches : forall k m, dispatches d !! k = Some m -> is_Some (items d !! created_item m);
}.

Lemma claim_change_ok c c' : claim_change c c' -> claim_ok c -> claim_ok c'.
Proof.
  intros Hch (Hf & Hl & Hh & Hs). destruct Hch; unfold claim_ok; cbn;
    try (split_and!; [lia|by split; intros [? ?]|by intros [? ?]|done]).
  - split_and!; [lia|by split; eexists|intros _; split_and!; [by eexists..|lia]|done].
  - by split_and!.
  - split_and!; [lia|by split|apply Hh|done].
  - destruct release; [split_and!; [lia|by split; intros [? ?]|by intros [? ?]|done]|].
    split_and!; [lia|done| |done]. intros Hh'. destruct (Hh Hh') as (?&?&?). split_and!; [done..|lia].
  - by split_and!.
Qed.

Lemma claim_change_fence c c' : claim_change c c' -> fence_token c <= fence_token c'.
Proof. intros Hch. by apply claim_change_le in Hch as [? _]. Qed.

Lemma wf_set_claim i c c' d :
  claims d !! i = Some c -> claim_ok c' -> fence_token c <= fence_token c' -> wf d -> wf (put_claim i c' d).
Proof.
  intros Hc Hok Hf [H1 H2 H3 H4 H5 H6]. split; cbn; try done.
  - intros j. rewrite H1. destruct (decide (i = j)) as [<-|Hne].
    + rewrite lookup_insert_eq, Hc. by split; eexists.
    + by rewrite lookup_insert_ne.
  - intros j cj. destruct (decide (i = j)) as [<-|Hne].
    + rewrite lookup_insert_eq. by intros [= <-].
    + rewrite lookup_insert_ne by done. apply H2.
  - intros j h Hj. destruct (H5 j h Hj) as (cj & Hcj & Hle). destruct (decide (i = j)) as [<-|Hne].
    + rewrite lookup_insert_eq. exists c'. split; [done|]. simplify_eq. lia.
    + rewrite lookup_insert_ne by done. by exists cj.
Qed.

Lemma wf_put_claim i c c' d :
  claims d !! i = Some c -> claim_change c c' -> wf d -> wf (put_claim i c' d).
Proof.
  intros Hc Hch Hd. apply (wf_set_claim i c); [done| |by apply claim_change_fence|done].
  eapply claim_change_ok; [done|]. by eapply wf_claims.
Qed.

Lemma wf_item i w w' d :
  items d !! i = Some w -> lane_ok (it_state w') -> wf d -> wf (set_items (<[i := w']> (items d)) d).
Proof.
  intros Hw Hl [H1 H2 H3 H4 H5 H6]. split; cbn; try done.
  - intros j. rewrite <- H1. destruct (decide (i = j)) as [<-|Hne].
    + rewrite lookup_insert_eq, Hw. by split; eexists.
    + by rewrite lookup_insert_ne.
  - intros j wj. destruct (decide (i = j)) as [<-|Hne].
    + rewrite lookup_insert_eq. by intros [= <-].
    + rewrite lookup_insert_ne by done. apply H3.
  - intros k m Hk. destruct (decide (i = created_item m)) as [<-|Hne].
    + rewrite lookup_insert_eq. by eexists.
    + rewrite lookup_insert_ne by done. eauto.
Qed.

Lemma wf_insert_item i w d :
  items d !! i = None -> claims d !! i = None -> it_state w = "todo" -> wf d -> wf (insert_item i w d).
Proof.
  intros Hi Hc Hs [H1 H2 H3 H4 H5 H6]. split; cbn; try done.
  - intros j. destruct (decide (i = j)) as [<-|Hne].
    + rewrite !lookup_insert_eq. by split; eexists.
    + by rewrite !lookup_insert_ne.
  - intros j cj. destruct (decide (i = j)) as [<-|Hne].
    + rewrite lookup_insert_eq. intros [= <-]. split_and!; cbn; [lia|by split; intros [? ?]|by intros [? ?]|done].
    + rewrite lookup_insert_ne by done. apply H2.
  - intros j wj. destruct (decide (i = j)) as [<-|Hne].
    + rewrite lookup_insert_eq. intros [= <-]. rewrite Hs. unfold lane_ok. set_solver.
    + rewrite lookup_insert_ne by done. apply H3.
  - intros j h Hj. destruct (H5 j h Hj) as (cj & Hcj & Hle). exists cj. split; [|done].
    rewrite lookup_insert_ne; [done|]. intros ->. simplify_eq.
  - intros k m Hk. destruct (decide (i = created_item m)) as [<-|Hne].
    + rewrite lookup_insert_eq. by eexists.
    + rewrite lookup_insert_ne by done. eauto.
Qed.

Lemma wf_stable : stable wf.
Proof.
  split.
  - apply wf_put_claim.
  - intros now i lane w d Hw _ Hl. apply (wf_item _ w); [done|]. unfold lane_ok, engine_lanes in *. set_solver.
  - intros now i reason w d Hw _ Hd. apply (wf_item _ w); [done| |done]. exact (wf_lanes _ Hd _ _ Hw).
  - by intros r d [].
  - by intros rs d [].
  - by intros r d [].
  - intros a d Hn []. split; cbn; try done. rewrite fmap_app. apply NoDup_app. split_and!; [done| |].
    + intros k Hk. cbn. rewrite list_elem_of_singleton. by intros ->.
    + apply NoDup_singleton.
  - intros l d Hl []. split; cbn; try done. by rewrite Hl.
  - by intros m d [].
  - intros k m d Hk Hm []. split; cbn; try done. intros k' m'.
    destruct (decide (k = k')) as [<-|Hne].
    + rewrite lookup_insert_eq. by intros [= <-].
    + rewrite lookup_insert_ne by done. eauto.
  - apply wf_insert_item.
Qed.

Lemma wf_marker_stable : marker_stable wf.
Proof. by intros k m d _ []. Qed.

Lemma wf_hold_stable : hold_stable wf.
Proof.
  intros i h c d Hc Hle []. split; cbn; try done. intros j hj.
  destruct (decide (i = j)) as [<-|Hne].
  - rewrite lookup_insert_eq. intros [= <-]. eauto.
  - rewrite lookup_insert_ne by done. eauto.
Qed.

(** The holds are the re-route's alone. *)
Lemma holds_stable H : stable (fun d => holds d = H).
Proof. by split. Qed.

(** * The properties *)

(** C35: The schema stays well-formed. Every sequence of claims, renewals,
    re-routes, kills, driver re-entries, pauses, gate moves, step advances, effects,
    hand-offs and dispatches, with any arguments, clocks and failing statements, takes a
    well-formed database to a well-formed one: each item has exactly one claim
    row; a row names a holder exactly when it has a lease, and a held row names its
    run and the instant of its acquire at a positive fence; its step and every lane
    are values the schema knows; artifacts stay unique per item, run and kind; a
    hold was released at a fence its claim has reached; and a dispatch marker
    points at an existing item. *)
Theorem schema_invariant interval sha256 marshal jsonb d d' :
  wf d -> rtc (writes interval sha256 marshal jsonb) d d' -> wf d'.
Proof.
  intros Hd H. revert Hd. apply (rtc_keeps _ wf) with (2 := H).
  apply writes_stable; [apply wf_stable|apply wf_marker_stable|apply wf_hold_stable].
Qed.

(** C34: A fence names one custody through all that the drive does to a claim. Between any
    two states of an execution of these writers (claims and renewals on the default
    lanes, re-routes, kills and their finish, the driver's retry, fail, park and cancel,
    its pauses and gate moves, the machine's step advance and effects, hand-offs and
    next dispatches), every claim row survives with a fence that has not gone down; while
    the fence is the same, so are the holder, the run, the acquire instant and the
    initiator; and a terminal step is final. No item is lost, and of one that was there
    only the lane, a first block and the update time may change: its lane only moves
    among todo, in_progress and cancelled, so an item a person parked, finished or took
    into another lane stays there, and the first block is never overwritten. Audit rows,
    events and comments are only appended, and dispatch markers never change. Not among
    these writers are the heartbeat's release and the intake's re-arm, which keep less
    of it (they are in [Sweeps]), credential signals, and the board's authoring. *)
Theorem custody_discipline interval sha256 marshal jsonb d d' :
  rtc (writes interval sha256 marshal jsonb) d d' ->
  (forall i c, claims d !! i = Some c -> exists c', claims d' !! i = Some c' /\
     fence_token c <= fence_token c' /\
     (fence_token c' = fence_token c ->
        holder_principal c' = holder_principal c /\ run_id c' = run_id c /\
        acquired_at c' = acquired_at c /\ initiated_by c' = initiated_by c) /\
     (reconcile_step c ∈ [StepSucceeded; StepFailed; StepCancelled] -> reconcile_step c' = reconcile_step c)) /\
  (forall i w, items d !! i = Some w -> exists w', items d' !! i = Some w' /\
     it_project w' = it_project w /\ it_team w' = it_team w /\ it_parent w' = it_parent w /\
     it_title w' = it_title w /\ it_body w' = it_body w /\ it_source w' = it_source w /\
     it_created_by w' = it_created_by w /\ it_created_at w' = it_created_at w /\ it_requested w' = it_requested w /\
     (it_state w' = it_state w \/ it_state w ∈ ["todo"; "in_progress"] /\
        it_state w' ∈ ["cancelled"; "todo"; "in_progress"]) /\
     (is_Some (it_blocked w) -> it_blocked w' = it_blocked w)) /\
  audits d `prefix_of` audits d' /\ outbox d `prefix_of` outbox d' /\ comments d `prefix_of` comments d' /\
  dispatches d ⊆ dispatches d' /\ a2a_dispatch d ⊆ a2a_dispatch d'.
Proof.
  intros H. assert (lawful d d') as [Hc Hw Ha Ho Hm Hd Ht].
  { apply (rtc_keeps _ (lawful d)) with (2 := H); [|done].
    apply writes_stable; [apply lawful_stable|apply lawful_marker_stable|apply lawful_hold_stable]. }
  split_and!; try done.
  - intros i c Hi. destruct (Hc i c Hi) as (c' & Hc' & Hf & Hs & Hst). exists c'. split_and!; try done.
    intros Hin. apply Hst. unfold Settle.terminal_step. apply bool_decide_eq_true_2.
    rewrite !elem_of_cons in Hin. destruct Hin as [->|[->|[->|Hin]]]; [set_solver..|by apply not_elem_of_nil in Hin].
Qed.

(** ** A concrete database *)

Definition quiet (now : Z) : TxEnv :=
  {| faulty := fun _ => false; clock := fun _ => now; tx_now := now; landed := false |}.

Definition sample_item (lane : string) : ItemRow :=
  {| it_project := "p"; it_team := None; it_parent := None; it_title := "t"; it_body := "b";
     it_state := lane; it_blocked := None; it_source := "board"; it_created_by := "alice";
     it_created_at := 1; it_updated_at := 1; it_requested := None |}.

Definition sample_db (lane : string) : Db :=
  {| items := {[ "i1" := sample_item lane ]}; claims := {[ "i1" := unheld ]}; audits := []; outbox := [];
     comments := []; artifacts := []; holds := ∅; dispatches := ∅; a2a_dispatch := ∅; sandbox_bind := ∅;
     change_refs := [] |}.

Definition sample_claimer : ProdClaim.ProdClaimer :=
  {| ProdClaim.pc_cfg := ProdClaim.DefaultProdConfig; ProdClaim.emitOutbox := true |}.

(** run-7 claims the item at 100, under a 30 s lease. *)
Definition claimed_sample : Db :=
  (runTx (quiet 100) (ProdClaim.claimTail (fun _ => 30) sample_claimer None "agent" "run-7" "" "" "i1")
     (sample_db "todo")).1.

Lemma sample_wf : wf (sample_db "todo").
Proof.
  split; cbn.
  - intros i. destruct (decide (i = "i1")) as [->|Hne].
    + rewrite !lookup_singleton_eq. by split; eexists.
    + by rewrite !lookup_singleton_ne.
  - intros i c [<- <-]%lookup_singleton_Some.
    split_and!; cbn; [lia|by split; intros [? ?]|by intros [? ?]|done].
  - intros i w [<- <-]%lookup_singleton_Some. unfold lane_ok. cbn. set_solver.
  - constructor.
  - intros i h Hh. by rewrite lookup_empty in Hh.
  - intros k m Hm. by rewrite lookup_empty in Hm.
Qed.

Lemma sample_claim interval :
  writes interval (fun s => s) (fun _ => "") (fun s => s) (sample_db "todo")
    (runTx (quiet 100) (ProdClaim.claimTail interval sample_claimer None "agent" "run-7" "" "" "i1")
       (sample_db "todo")).1.
Proof. apply w_other. by apply w_claim. Qed.

Lemma schema_invariant_witness :
  holder_principal <$> claims claimed_sample !! "i1" = Some (Some "agent") /\ wf claimed_sample.
Proof.
  split; [vm_compute; reflexivity|].
  apply (schema_invariant (fun _ => 30) (fun s => s) (fun _ => "") (fun s => s) (sample_db "todo")).
  - apply sample_wf.
  - apply rtc_once. by apply (sample_claim (fun _ => 30)).
Defined.

Lemma custody_discipline_witness :
  fence_token <$> claims claimed_sample !! "i1" = Some 1 /\
  exists c', claims claimed_sample !! "i1" = Some c' /\ 0 <= fence_token c'.
Proof.
  split; [vm_compute; reflexivity|].
  destruct (custody_discipline (fun _ => 30) (fun s => s) (fun _ => "") (fun s => s)
    (sample_db "todo") claimed_sample) as (Hc & _).
  - apply rtc_once. by apply (sample_claim (fun _ => 30)).
  - destruct (Hc "i1" unheld) as (c' & Hc' & Hf & _); [reflexivity|]. exists c'. by split.
Defined.
