(* ===== verification/Sweeps.v ===== *)
(** The operator's sweeps over the claims (Heartbeat.v, Intake.v) next to the
    writers of Custody.v: what of the schema and of the custody discipline
    survives them. *)
From S2P Require Import Prelude Machine CoordDb CoordTx Custody.
From S2P Require ProdClaim Settle DriverClaims Heartbeat Intake.
Open Scope Z_scope.
Open Scope k8s_scope.

Section system.
Context (interval : string -> Z) (sha256 : string -> string).
Context (marshal : Handoff.HandoffDoc -> string) (jsonb : string -> string).

(** A turn of the heartbeat on a row it may have read long ago, and the two writes
    of the intake. *)
Inductive sweep_writes : Db -> Db -> Prop :=
| s_writer d d' : writes interval sha256 marshal jsonb d d' -> sweep_writes d d'
| s_act lease env a hc d : sweep_writes d (Heartbeat.act lease env a hc d)
| s_rearm env item d : sweep_writes d (Intake.RearmSettled_sql env item d).1
| s_park env item reason d : sweep_writes d (Intake.ParkWorkItem_sql env item reason d).1.
End system.

(** * Invariants of the sweeps *)

Record sweep_stable (P : Db -> Prop) : Prop := {
  ss_stable : stable P;
  ss_marker : marker_stable P;
  ss_hold : hold_stable P;
  ss_cleared : forall i c s d, claims d !! i = Some c -> s = reconcile_step c \/ s = StepFailed ->
    P d -> P (put_claim i (Heartbeat.cleared s c) d);
  ss_rearmed : forall i c now d, claims d !! i = Some c -> holder_principal c = None ->
    P d -> P (put_claim i (Intake.rearmed now c) d);
}.

Section stable_sweeps.
Context (P : Db -> Prop) (HP : sweep_stable P).

Ltac sweep_step :=
  repeat case_match; simplify_eq/=; reflect_bools;
  first [ done | by apply (st_audit _ (ss_stable _ HP)) | by apply (st_outbox _ (ss_stable _ HP))
        | by apply (st_comment _ (ss_stable _ HP))
        | by eapply (st_blocked _ (ss_stable _ HP)); [eassumption|..]
        | eapply (ss_cleared _ HP); [eassumption|tauto|done]
        | eapply (ss_rearmed _ HP); [eassumption| |done]; repeat match goal with H : _ && _ = true |- _ =>
            apply andb_true_iff in H as [H _] end; by reflect_bools | idtac ].

Lemma keeps_renew lease env hc d : P d -> P (Heartbeat.renew lease env hc d).
Proof.
  intros Hd. unfold Heartbeat.renew. case_bool_decide; [done|]. apply keeps_Renew; [apply HP|done].
Qed.

Lemma keeps_releaseTerminal env hc d : P d -> P (Heartbeat.releaseTerminal env hc d).1.
Proof.
  intros Hd. unfold Heartbeat.releaseTerminal. case_bool_decide; [done|].
  apply (keeps_runTx P); [|done]. unfold Heartbeat.releaseTerminalTx. cbv zeta.
  do 3 (apply keeps_bind; [tx_walk; sweep_step|intros ?]).
  case_match; [|apply keeps_ret]. apply keeps_bind; [|intros ?; apply keeps_ret].
  apply keeps_leave_in_progress; [apply HP|]. unfold Settle.SettleLaneOf, engine_lanes in *.
  repeat case_bool_decide; cbn in *; try discriminate; set_solver.
Qed.

Lemma keeps_releaseDead env hc reason d : P d -> P (Heartbeat.releaseDead env hc reason d).1.
Proof.
  intros Hd. unfold Heartbeat.releaseDead. case_bool_decide; [done|].
  apply (keeps_runTx P); [|done]. unfold Heartbeat.releaseDeadTx.
  apply keeps_bind; [tx_walk; sweep_step|intros []; [|apply keeps_ret]].
  repeat (apply keeps_bind; [first [apply keeps_leave_in_progress; [apply HP|unfold engine_lanes; set_solver]
                                   | tx_walk; sweep_step]|intros ?]).
  apply keeps_ret.
Qed.

Lemma sweep_writes_stable interval sha256 marshal jsonb d d' :
  sweep_writes interval sha256 marshal jsonb d d' -> P d -> P d'.
Proof.
  intros [d1 d2 Hw|lease env [] hc d1|env item d1|env item reason d1] Hd; cbn [Heartbeat.act].
  - by eapply writes_stable; [apply HP..|exact Hw|].
  - by apply keeps_releaseTerminal.
  - by apply keeps_releaseDead.
  - by apply keeps_releaseDead.
  - done.
  - by apply keeps_renew.
  - apply (keeps_runTx P); [|done]. unfold Intake.rearmTx. tx_walk; sweep_step.
  - apply (keeps_runTx P); [|done]. unfold Intake.parkTx. tx_walk; sweep_step.
Qed.
End stable_sweeps.

(** * The schema *)

Lemma wf_sweep_stable : sweep_stable wf.
Proof.
  split; [apply wf_stable|apply wf_marker_stable|apply wf_hold_stable|..].
  - intros i c s d Hc Hs Hd. destruct (wf_claims _ Hd _ _ Hc) as (Hf & Hl & Hh & Hst).
    apply (wf_set_claim i c); [done| | |done]; [|cbn; lia].
    split_and!; cbn; [done|by split; intros [? ?]|by intros [? ?]|by destruct Hs as [->| ->]].
  - intros i c now d Hc Hn Hd. destruct (wf_claims _ Hd _ _ Hc) as (Hf & Hl & Hh & Hst).
    apply (wf_set_claim i c); [done| | |done]; [|cbn; lia].
    split_and!; cbn; [lia|done| |done]. rewrite Hn. by intros [? ?].
Qed.

(** * The discipline *)

(** A fence names one custody, which may only end; a terminal step stays, becomes
    failed, or is re-armed at a higher fence. *)
Definition claim_ge (c c' : ClaimRow) : Prop :=
  fence_token c <= fence_token c' /\
  (fence_token c' = fence_token c ->
     (holder_principal c' = holder_principal c \/ holder_principal c' = None) /\
     (run_id c' = run_id c \/ run_id c' = None) /\
     acquired_at c' = acquired_at c /\ initiated_by c' = initiated_by c) /\
  (Settle.terminal_step (reconcile_step c) = true ->
     reconcile_step c' = reconcile_step c \/ reconcile_step c' = StepFailed \/ fence_token c < fence_token c').

#[export] Instance claim_ge_preorder : PreOrder claim_ge.
Proof.
  split.
  - intros c. unfold claim_ge. split_and!; auto with lia.
  - intros c1 c2 c3 (? & H1 & T1) (? & H2 & T2). unfold claim_ge. split_and!; [lia| |].
    + intros He. destruct H1 as (Hh1 & Hr1 & ? & ?); [lia|]. destruct H2 as (Hh2 & Hr2 & ? & ?); [lia|].
      split_and!; try congruence; [destruct Hh1, Hh2|destruct Hr1, Hr2]; (left; congruence) || (right; congruence).
    + intros Ht. destruct (T1 Ht) as [E|[E|?]]; [..|right; right; lia];
        (destruct T2 as [E'|[E'|?]]; [by rewrite E| | |right; right; lia]); rewrite E' in *; auto.
Qed.

Lemma claim_le_ge c c' : claim_le c c' -> claim_ge c c'.
Proof. intros (? & H1 & H2). split; [done|]. split; [naive_solver|]. intros Ht. left. auto. Qed.

Record orderly (d d' : Db) : Prop := {
  or_claims : forall i c, claims d !! i = Some c -> exists c', claims d' !! i = Some c' /\ claim_ge c c';
  or_lawful : lawful (set_claims ∅ d) (set_claims ∅ d');
}.

#[export] Instance orderly_preorder : PreOrder orderly.
Proof.
  split.
  - intros d. split; [|reflexivity]. intros i c Hc. by exists c.
  - intros d1 d2 d3 [H1 L1] [H2 L2]. split; [|by etrans].
    intros i c Hc. destruct (H1 i c Hc) as (c2 & Hc2 & ?). destruct (H2 i c2 Hc2) as (c3 & ? & ?).
    exists c3. split; [done|]. by etrans.
Qed.

Lemma lawful_orderly d d' : lawful d d' -> orderly d d'.
Proof.
  intros [Hc Hi]. split; [|split; cbn; try done; intros i c Hn; by rewrite lookup_empty in Hn].
  intros i c Hic. destruct (Hc i c Hic) as (c' & ? & ?). exists c'. eauto using claim_le_ge.
Qed.

Lemma orderly_put_claim i c c' d : claims d !! i = Some c -> claim_ge c c' -> orderly d (put_claim i c' d).
Proof.
  intros Hc Hge. split; [|reflexivity]. intros j cj Hj. cbn. destruct (decide (i = j)) as [<-|Hne].
  - rewrite lookup_insert_eq. exists c'. split; [done|]. by simplify_eq.
  - rewrite lookup_insert_ne by done. by exists cj.
Qed.

Lemma orderly_sweep_stable d0 : sweep_stable (orderly d0).
Proof.
  pose proof (lawful_stable) as HL. split.
  - split; intros; (etrans; [eassumption|]); apply lawful_orderly; auto with k8s.
    + apply (lawful_put_claim _ c); [done|]. by apply claim_change_le.
    + by apply lawful_put_lane.
  - intros k m d Hk Hd. etrans; [eassumption|]. apply lawful_orderly. auto with k8s.
  - intros i h c d _ _ Hd. etrans; [eassumption|]. apply lawful_orderly. auto with k8s.
  - intros i c s d Hc Hs Hd. etrans; [eassumption|]. apply (orderly_put_claim _ c); [done|].
    split; [cbn; lia|]. split; [by auto|]. cbn. tauto.
  - intros i c now d Hc _ Hd. etrans; [eassumption|]. apply (orderly_put_claim _ c); [done|].
    split; [cbn; lia|]. split; cbn; [lia|]. intros _. right. right. lia.
Qed.

(** * The property *)

(** C9: What the sweeps leave of the custody discipline. Interleave the drive's writers
    (those of [Custody], the step advance among them) with turns of the heartbeat sweep
    on rows it read at any earlier time, and with the re-arms and parks of the intake,
    all with any clocks and failing
    statements. The schema stays well-formed; a fence never goes down, and while it
    is the same the holder and the run are the same or gone; a terminal step stays,
    or becomes failed by a release, or is left at a higher fence. Items keep their
    authorship, lanes only move among todo, in_progress and cancelled, a block is
    never overwritten, audit rows, events and comments are only appended and
    dispatch markers never change. *)
Theorem sweeps_discipline interval sha256 marshal jsonb d d' :
  rtc (sweep_writes interval sha256 marshal jsonb) d d' ->
  (wf d -> wf d') /\
  (forall i c, claims d !! i = Some c -> exists c', claims d' !! i = Some c' /\
     fence_token c <= fence_token c' /\
     (fence_token c' = fence_token c ->
        (holder_principal c' = holder_principal c \/ holder_principal c' = None) /\
        (run_id c' = run_id c \/ run_id c' = None) /\ acquired_at c' = acquired_at c) /\
     (reconcile_step c ∈ [StepSucceeded; StepFailed; StepCancelled] ->
        reconcile_step c' = reconcile_step c \/ reconcile_step c' = StepFailed \/ fence_token c < fence_token c')) /\
  (forall i w, items d !! i = Some w -> exists w', items d' !! i = Some w' /\ item_le w w') /\
  audits d `prefix_of` audits d' /\ outbox d `prefix_of` outbox d' /\ comments d `prefix_of` comments d' /\
  dispatches d ⊆ dispatches d' /\ a2a_dispatch d ⊆ a2a_dispatch d'.
Proof.
  intros H. assert (orderly d d') as [Hc [_ Hw Ha Ho Hm Hd Ht]].
  { apply (rtc_keeps _ (orderly d)) with (2 := H); [|done].
    intros; by eapply sweep_writes_stable; [apply orderly_sweep_stable|..]. }
  split_and!; try done.
  - apply (rtc_keeps _ wf) with (2 := H). intros; by eapply sweep_writes_stable; [apply wf_sweep_stable|..].
  - intros i c Hi. destruct (Hc i c Hi) as (c' & Hc' & Hf & Hs & Hst). exists c'.
    split_and!; [done..|naive_solver|]. intros Hin. apply Hst. revert Hin. clear. rewrite !elem_of_cons.
    by intros [->|[->|[->|Hn%elem_of_nil]]].
Qed.

(** run-7 claims the item; the sweep releases it as an orphan, long after it read
    the row. *)
Definition released_sample : Db :=
  Heartbeat.act 0 (quiet 500) Heartbeat.ActReleaseOrphan
    {| Heartbeat.workItemID := "i1"; Heartbeat.holderRun := "run-7"; Heartbeat.hc_principal := "agent";
       Heartbeat.fence := 1; Heartbeat.step := StepPending; Heartbeat.acquiredAt := Some 100 |} claimed_sample.

Lemma sweeps_discipline_witness :
  reconcile_step <$> claims released_sample !! "i1" = Some StepFailed /\ wf released_sample /\
  exists c', claims released_sample !! "i1" = Some c' /\ 0 <= fence_token c'.
Proof.
  split; [vm_compute; reflexivity|].
  destruct (sweeps_discipline (fun _ => 30) (fun s => s) (fun _ => "") (fun s => s) (sample_db "todo") released_sample)
    as (Hwf & Hc & _).
  - eapply rtc_l; [apply s_writer, (sample_claim (fun _ => 30))|]. apply rtc_once, s_act.
  - split; [apply Hwf, sample_wf|]. destruct (Hc "i1" unheld) as (c' & Hc' & Hf & _); [reflexivity|].
    exists c'. by split.
Defined.
