(* ===== verification/ProdClaimProps.v ===== *)
(** Properties of the production claim and of the re-route. *)
From Stdlib Require Import Ascii.
From S2P Require Import Prelude Machine CoordDb CoordTx ProdClaim Custody.
Open Scope Z_scope.
Open Scope k8s_scope.

(** * The claim, as one update *)

Definition final_claim (interval : string -> Z) (p : ProdClaimer) (c : ClaimRow)
    (principal run initiator agent : string) (now : Z) : ClaimRow :=
  let c' := acquired interval p c principal run initiator now in
  if bool_decide (agent = "") then c' else set_assignee agent c'.

Definition claim_audit (p : ProdClaimer) (item principal run initiator : string) (fence : Z) : AuditRow :=
  {| au_item := item; au_run := Some run; au_event := "claim_acquired"; au_principal := principal;
     au_initiator := nullif initiator; au_fence := Some fence; au_from := Some (ClaimableState (pc_cfg p));
     au_to := Some (ClaimedState (pc_cfg p)); au_payload := NoPayload |}.

(** The tables after a granted claim. *)
Definition claimed_db (interval : string -> Z) (p : ProdClaimer) (env : TxEnv)
    (item principal run initiator agent : string) (c : ClaimRow) (w : ItemRow) (d : Db) : Db :=
  let fence := fence_token c + 1 in
  let d := put_claim item (final_claim interval p c principal run initiator agent (clock env "acquire")) d in
  let d := put_lane (tx_now env) item (ClaimedState (pc_cfg p)) w d in
  let d := add_audit (claim_audit p item principal run initiator fence) d in
  if emitOutbox p
  then add_outbox [{| ob_entity := "work_item"; ob_event := "claimed"; ob_item := item; ob_run := nullif run;
                      ob_payload := claimEventPayload principal fence |}] d
  else d.

Section claim.
Context (interval : string -> Z) (p : ProdClaimer).

(** What lets a claim of [item] through. *)
Definition grantable (cred : option string) (item : string) (now : Z) (c : ClaimRow) (w : ItemRow) (d : Db) : Prop :=
  claims d !! item = Some c /\ items d !! item = Some w /\ claimable c now = true /\
  held_for cred item now d = false /\
  it_state w ∈ [ClaimableState (pc_cfg p); ClaimedState (pc_cfg p)].

Lemma outbox_row_claimed entity event item run payload now lane w r i c d :
  outbox_row entity event item run payload (add_audit r (put_lane now item lane w (put_claim i c d)))
  = [{| ob_entity := entity; ob_event := event; ob_item := item; ob_run := run; ob_payload := payload |}].
Proof. unfold outbox_row. cbn. by rewrite lookup_insert_eq. Qed.

Lemma stampAssignee_claimed {B} principal run initiator agent item c env d d1 now :
  stampAssignee (B := B) agent item run (fence_token c + 1) env
    (put_claim item (acquired interval p c principal run initiator now) d) = inl (d1, tt) ->
  d1 = put_claim item (final_claim interval p c principal run initiator agent now) d.
Proof.
  unfold stampAssignee, final_claim. case_bool_decide; [by intros [= <-]|].
  unfold exec, stmt. case_match; [done|]. cbn. rewrite lookup_insert_eq. cbn.
  unfold sql_eqb. rewrite bool_decide_eq_true_2, Z.eqb_refl by done. intros [= <-].
  unfold put_claim. cbn. by rewrite insert_insert_eq.
Qed.

(** The outcome of the common tail: a grant as one update, or ok = false on a
    guard, or a statement's failure. *)
Lemma claimTail_cases cred principal run initiator agent item env d :
  match claimTail interval p cred principal run initiator agent item env d with
  | inl (d', b) => exists c w, grantable cred item (clock env "acquire") c w d /\
      b = Some (item, fence_token c + 1) /\ d' = claimed_db interval p env item principal run initiator agent c w d
  | inr (Ok b) => b = None
  | inr (Err _) => exists label, faulty env label = true \/ item = ""
  end.
Proof.
  unfold claimTail, acquire, tbind, stmt. destruct (faulty env "acquire") eqn:Hfa; [by exists "acquire"; left|].
  destruct (claims d !! item) as [c|] eqn:Hc; [|done].
  destruct (claimable c (clock env "acquire") && negb (held_for cred item (clock env "acquire") d)) eqn:Hg; [|done].
  apply andb_true_iff in Hg as [Hcl Hh%negb_true_iff].
  destruct (stampAssignee agent item run (fence_token c + 1) env _) as [[d1 []]|r] eqn:Hs.
  2:{ revert Hs. unfold stampAssignee, exec, stmt. repeat case_match; intros; simplify_eq/=.
      exists "assignee". by left. }
  apply stampAssignee_claimed in Hs as ->.
  unfold mark, stmt. destruct (faulty env "mark") eqn:Hfm; [by exists "mark"; left|].
  cbn -[claimed_db]. destruct (items d !! item) as [w|] eqn:Hw; [|done].
  case_bool_decide as Hst; [|done].
  unfold auditClaim, exec, stmt. destruct (faulty env "audit") eqn:Hfu; [by exists "audit"; left|].
  unfold captureClaim, CaptureForWorkItem, claimed_db.
  destruct (emitOutbox p) eqn:Ho.
  - case_bool_decide as Hi; [by exists ""; right|]. cbn [bool_decide decide].
    rewrite bool_decide_eq_false_2 by done. unfold tbind, stmt.
    destruct (faulty env "outbox") eqn:Hfo; [by exists "outbox"; left|].
    rewrite outbox_row_claimed. cbn. exists c, w. split_and!; [|done|done]. by unfold grantable.
  - cbn. exists c, w. split_and!; [|done|done]. by unfold grantable.
Qed.

Lemma claimTail_granted cred principal run initiator agent item env d c w :
  (forall label, faulty env label = false) -> item <> "" ->
  grantable cred item (clock env "acquire") c w d ->
  claimTail interval p cred principal run initiator agent item env d =
  inl (claimed_db interval p env item principal run initiator agent c w d, Some (item, fence_token c + 1)).
Proof.
  intros Hf Hi (Hc & Hw & Hcl & Hh & Hst).
  pose proof (claimTail_cases cred principal run initiator agent item env d) as H.
  destruct (claimTail _ _ _ _ _ _ _ _ _ _) as [[d' b]|[[]|]] eqn:E.
  - destruct H as (c' & w' & (?&?&_) & -> & ->). by simplify_eq.
  - done.
  - exfalso. clear H. revert E. unfold claimTail, acquire, tbind, stmt. rewrite Hf, Hc, Hcl, Hh. cbn.
    destruct (stampAssignee agent item run (fence_token c + 1) env _) as [[d1 []]|r] eqn:Hs.
    2:{ revert Hs. unfold stampAssignee, exec, stmt. case_bool_decide; [done|]. by rewrite Hf. }
    apply stampAssignee_claimed in Hs as ->.
    unfold mark, stmt. rewrite Hf. cbn. rewrite Hw, bool_decide_eq_true_2 by done.
    unfold auditClaim, exec, stmt. rewrite Hf.
    unfold captureClaim, CaptureForWorkItem. destruct (emitOutbox p); [|done].
    rewrite bool_decide_eq_false_2 by done. rewrite bool_decide_eq_false_2 by done.
    unfold tbind, stmt. rewrite Hf, outbox_row_claimed. done.
  - destruct H as (label & [Hl|Hl]); [by rewrite Hf in Hl|done].
Qed.

(** ** The pop *)

#[local] Instance pick_le_trans : Transitive pick_le.
Proof.
  intros [t1 a] [t2 b] [t3 c]. unfold pick_le. cbn. intros [?|[-> ?]] [?|[-> ?]]; auto with lia.
  right. split; [done|]. by etrans.
Qed.

#[local] Instance pick_le_total : Total pick_le.
Proof.
  intros [t1 a] [t2 b]. unfold pick_le. cbn.
  destruct (Z.lt_trichotomy t1 t2) as [?|[->|?]]; auto. destruct (total String.le a b); auto.
Qed.

Lemma pick_spec cred locked now d :
  match pick p cred locked now d with
  | Some item => exists w, items d !! item = Some w /\ pickable p cred locked now d (item, w) = true /\
      forall item' w', items d !! item' = Some w' -> pickable p cred locked now d (item', w') = true ->
        pick_le (it_created_at w, item) (it_created_at w', item')
  | None => forall item w, items d !! item = Some w -> pickable p cred locked now d (item, w) = false
  end.
Proof.
  unfold pick. set (l := (fun kv : string * ItemRow => (it_created_at kv.2, kv.1)) <$> _).
  assert (forall x, x ∈ l <-> exists item w, x = (it_created_at w, item) /\ items d !! item = Some w /\
            pickable p cred locked now d (item, w) = true) as Hl.
  { intros x. unfold l. rewrite list_elem_of_fmap. split.
    - intros ([i w] & -> & [Hp Hi]%list_elem_of_filter). apply elem_of_map_to_list in Hi. eauto.
    - intros (i & w & -> & Hi & Hp). exists (i, w). split; [done|]. apply list_elem_of_filter.
      by rewrite elem_of_map_to_list. }
  pose proof (merge_sort_Permutation pick_le l) as Hperm.
  assert (StronglySorted pick_le (merge_sort pick_le l)) as Hs by apply (StronglySorted_merge_sort _ _).
  destruct (merge_sort pick_le l) as [|[t item] rest]; cbn.
  - intros item w Hi. destruct (pickable _ _ _ _ _ _) eqn:Hp; [|done].
    assert ((it_created_at w, item) ∈ l) as Hin by (apply Hl; eauto).
    rewrite <- Hperm in Hin. by apply not_elem_of_nil in Hin.
  - assert ((t, item) ∈ l) as (i & w & [= -> ->] & Hi & Hp)%Hl by (rewrite <- Hperm; left).
    exists w. split_and!; [done..|]. intros i' w' Hi' Hp'.
    assert ((it_created_at w', i') ∈ l) as Hin by (apply Hl; eauto).
    rewrite <- Hperm in Hin. apply elem_of_cons in Hin as [->|Hin].
    + unfold pick_le. cbn. by right.
    + apply StronglySorted_inv in Hs as [_ Hall]. rewrite Forall_forall in Hall. by apply Hall.
Qed.

Lemma pickable_grantable cred locked now now' item w d :
  items d !! item = Some w -> pickable p cred locked now d (item, w) = true -> now <= now' ->
  exists c, grantable cred item now' c w d.
Proof.
  intros Hi Hp Hle. unfold pickable in Hp. cbn in Hp.
  repeat match goal with H : _ && _ = true |- _ => apply andb_true_iff in H as [? ?] end. reflect_bools.
  destruct (claims d !! item) as [c|] eqn:Hc; [|done]. exists c. split_and!; try done.
  - unfold claimable in *. apply orb_true_iff in H2 as [?|Hl]; [by apply orb_true_iff; left|].
    apply orb_true_iff; right. unfold sql_ltb in *. destruct (lease_expires_at c); [|done].
    apply Z.ltb_lt in Hl. apply Z.ltb_lt. lia.
  - unfold held_for in *. destruct cred; [|done]. destruct (holds d !! item); [|done].
    apply andb_false_iff in H1 as [->|Hr]; [done|]. apply andb_false_iff. right.
    apply Z.ltb_ge in Hr. apply Z.ltb_ge. lia.
  - set_solver.
Qed.
End claim.

(** ** A pop, granted or not *)

Section pop.
Context (interval : string -> Z) (p : ProdClaimer).

Lemma popTail_cases cred locked principal run initiator env d :
  match popTail interval p cred locked principal run initiator env d with
  | inl (d', b) => exists item c w, pick p cred locked (clock env "pick") d = Some item /\
      grantable p cred item (clock env "acquire") c w d /\ b = Some (item, fence_token c + 1) /\
      d' = claimed_db interval p env item principal run initiator "" c w d
  | inr (Ok b) => b = None
  | inr (Err _) => exists label, faulty env label = true \/ pick p cred locked (clock env "pick") d = Some ""
  end.
Proof.
  unfold popTail, tbind, query, stmt. destruct (faulty env "pick") eqn:Hf; [by exists "pick"; left|].
  destruct (pick p cred locked (clock env "pick") d) as [item|] eqn:Hp; [|done].
  pose proof (claimTail_cases interval p cred principal run initiator "" item env d) as H.
  destruct (claimTail _ _ _ _ _ _ _ _ _ _) as [[d' b]|[]]; [|done|].
  - destruct H as (c & w & ?). by exists item, c, w.
  - destruct H as (label & [?| -> ]); exists label; auto.
Qed.

Lemma popTail_granted cred locked principal run initiator env d item w :
  (forall label, faulty env label = false) -> clock env "pick" <= clock env "acquire" ->
  items d !! "" = None -> items d !! item = Some w ->
  pickable p cred locked (clock env "pick") d (item, w) = true ->
  exists d' got, popTail interval p cred locked principal run initiator env d = inl (d', Some got).
Proof.
  intros Hf Hclk He Hi Hp. unfold popTail, tbind, query, stmt. rewrite Hf.
  pose proof (pick_spec p cred locked (clock env "pick") d) as Hs.
  destruct (pick p cred locked (clock env "pick") d) as [item'|].
  2:{ by rewrite (Hs item w Hi) in Hp. }
  destruct Hs as (w' & Hi' & Hp' & _).
  destruct (pickable_grantable interval p cred locked _ (clock env "acquire") item' w' d Hi' Hp' Hclk) as (c & Hg).
  rewrite (claimTail_granted interval p cred principal run initiator "" item' env d c w'); eauto.
  by intros ->; simplify_eq.
Qed.
End pop.

(** A production claim is exact. A granted ClaimNext hands out the oldest item
    (created_at, then id) of the claimable lane whose claim is free or lapsed and
    which no other transaction holds, at one more than its last fence, and changes
    exactly this: the claim row names the claimer, the run and the fresh lease, the
    item is in the claimed lane, one claim_acquired row and, with capture on, one
    claimed event are appended. An answer of nothing and a failure that did not
    commit leave every table as it was. And no work is lost: when no statement
    fails and the clock does not step back, an available item means a grant. *)
Theorem claim_next_exact interval p env locked principal run initiator d :
  principal <> "" -> run <> "" ->
  let r := ClaimNext interval p env locked principal run initiator d in
  match r.2 with
  | Ok (Some (item, fence)) => exists c w,
      grantable p None item (clock env "acquire") c w d /\ fence = fence_token c + 1 /\
      pickable p None locked (clock env "pick") d (item, w) = true /\
      (forall item' w', items d !! item' = Some w' ->
         pickable p None locked (clock env "pick") d (item', w') = true ->
         pick_le (it_created_at w, item) (it_created_at w', item')) /\
      r.1 = claimed_db interval p env item principal run initiator "" c w d
  | Ok None => r.1 = d
  | Err _ => landed env = false -> r.1 = d
  end /\
  ((forall label, faulty env label = false) -> clock env "pick" <= clock env "acquire" ->
   items d !! "" = None ->
   (exists item w, items d !! item = Some w /\
      pickable p None locked (clock env "pick") d (item, w) = true) ->
   exists got, r.2 = Ok (Some got)).
Proof.
  intros Hpr Hrun r. subst r. unfold ClaimNext. rewrite !bool_decide_eq_false_2 by done. cbn [orb].
  set (t := popTail interval p None locked principal run initiator). split.
  - destruct (runTx env t d) as [d' [[[item fence]|]|e]] eqn:E; cbn.
    + apply runTx_ok in E as [E|[E _]]; subst t;
        pose proof (popTail_cases interval p None locked principal run initiator env d) as H; rewrite E in H; [|done].
      destruct H as (item' & c & w & Hp & Hg & [= -> ->] & ->). exists c, w.
      pose proof (pick_spec p None locked (clock env "pick") d) as Hs. rewrite Hp in Hs.
      destruct Hs as (w' & Hw' & Hpk & Hmin). destruct Hg as (Hc & Hw & Hg). simplify_eq. split_and!; try done.
    + apply runTx_ok in E as [E|[_ ->]]; [|done]. subst t.
      pose proof (popTail_cases interval p None locked principal run initiator env d) as H. rewrite E in H.
      by destruct H as (?&?&?&_&_&[=]&_).
    + intros Hl. by eapply runTx_failed.
  - subst t. intros Hf Hclk He (item & w & Hi & Hp).
    destruct (popTail_granted interval p None locked principal run initiator env d item w Hf Hclk He Hi Hp)
      as (d' & got & E). exists got. by rewrite (runTx_run _ _ _ _ _ E).
Qed.

(** ** The re-route *)

Definition reroute_hold (run cred : string) (att resumeAt : Z) (coord : string) (fence now : Z) : HoldRow :=
  {| throttled_credential := cred; attempt := att; resume_at := Z.min resumeAt (now + MaxHoldWindow);
     released_fence := fence; released_run := run; coordinator := coord |}.

Definition reroute_audit (item run cred : string) (att resumeAt : Z) (coord : string) (fence : Z) : AuditRow :=
  {| au_item := item; au_run := Some run; au_event := "claim_released"; au_principal := coord;
     au_initiator := None; au_fence := Some fence; au_from := Some "in_progress"; au_to := Some "todo";
     au_payload := Fields [("reason", FStr "rate_limited_reroute"); ("throttled_credential", FStr cred);
       ("attempt", FInt att); ("resume_at", FTime resumeAt); ("released_fence", FInt fence)] |}.

(** The tables after a release. *)
Definition rerouted_db (env : TxEnv) (capture : bool) (item run cred : string) (att resumeAt : Z)
    (coord : string) (c : ClaimRow) (w : ItemRow) (d : Db) : Db :=
  let fence := fence_token c + 1 in
  let d := put_claim item (reroute_freed c) d in
  let d := put_lane (tx_now env) item "todo" w d in
  let d := set_holds (<[item := reroute_hold run cred att resumeAt coord fence (clock env "hold")]> (holds d)) d in
  let d := add_audit (reroute_audit item run cred att resumeAt coord fence) d in
  if capture
  then add_outbox [{| ob_entity := "work_item"; ob_event := "reroute_released"; ob_item := item;
                      ob_run := nullif run; ob_payload := rerouteEventPayload cred att fence |}] d
  else d.

Lemma releaseLocked_cases env capture item holder run cred att resumeAt coord d :
  match releaseLocked capture item holder run cred att resumeAt coord env d with
  | inl (d', b) => exists c w, claims d !! item = Some c /\ items d !! item = Some w /\
      holder_principal c = Some holder /\ run_id c = Some run /\ it_state w = "in_progress" /\
      b = {| Fence := fence_token c + 1; AlreadyReleased := false |} /\
      d' = rerouted_db env capture item run cred att resumeAt coord c w d
  | inr (Ok _) => False
  | inr (Err _) => True
  end.
Proof.
  unfold releaseLocked, tbind, query, stmt. destruct (faulty env "read claim"); [done|].
  destruct (claims d !! item) as [c|] eqn:Hc; [|done]. destruct (items d !! item) as [w|] eqn:Hw; [|done].
  destruct (holder_principal c) as [h|] eqn:Hh; [|done]. destruct (run_id c) as [r|] eqn:Hr; [|done].
  destruct (bool_decide (h = holder) && bool_decide (r = run)) eqn:Hg; [|done].
  apply andb_true_iff in Hg as [->%bool_decide_eq_true ->%bool_decide_eq_true]. cbn [negb].
  case_bool_decide as Hst; [|done]. cbn [negb]. destruct (faulty env "release"); [done|].
  rewrite Hc. unfold sql_eqb. rewrite Hh, Hr, !bool_decide_eq_true_2 by done. cbn [andb].
  destruct (faulty env "re-dispatch"); [done|].
  change (items (put_claim item (reroute_freed c) d)) with (items d).
  rewrite Hw, bool_decide_eq_true_2 by done. cbn [negb].
  unfold exec, stmt. destruct (faulty env "hold"); [done|]. destruct (faulty env "audit"); [done|].
  unfold rerouted_db. destruct capture; [|cbn; by exists c, w].
  unfold CaptureForWorkItem. destruct (bool_decide (item = "")); [done|].
  rewrite bool_decide_eq_false_2 by done. unfold tbind, stmt. destruct (faulty env "outbox"); [done|].
  unfold outbox_row. cbn -[reroute_freed]. rewrite lookup_insert_eq. cbn. by exists c, w.
Qed.

Section hold.
Context (interval : string -> Z) (p : ProdClaimer).

Lemma pick_not_held cred locked now d item :
  held_for cred item now d = true -> pick p cred locked now d <> Some item.
Proof.
  intros Hh Hp. pose proof (pick_spec p cred locked now d) as Hs. rewrite Hp in Hs.
  destruct Hs as (w & _ & Hp' & _). unfold pickable in Hp'. cbn in Hp'. rewrite Hh in Hp'.
  cbn in Hp'. by rewrite andb_false_r in Hp'.
Qed.

Lemma held_not_granted cred principal run initiator agent item env d :
  held_for cred item (clock env "acquire") d = true ->
  (runTx env (claimTail interval p cred principal run initiator agent item) d).1 = d /\
  forall got, (runTx env (claimTail interval p cred principal run initiator agent item) d).2 <> Ok (Some got).
Proof.
  intros Hh. pose proof (claimTail_cases interval p cred principal run initiator agent item env d) as H.
  unfold runTx. destruct (faulty env "begin"); [done|].
  destruct (claimTail _ _ _ _ _ _ _ _ _ _) as [[d' b]|[b|e]].
  - destruct H as (c & w & (_&_&_&Hn&_) & _). congruence.
  - by subst b.
  - done.
Qed.
End hold.

Lemma ReleaseForReroute_ok env capture item holder run cred att resumeAt coord d d1 f :
  ReleaseForReroute env capture item holder run cred att (Some resumeAt) coord d
    = (d1, Ok {| Fence := f; AlreadyReleased := false |}) ->
  ("" ∉ [item; holder; run; cred; coord]) /\ 1 <= att /\
  validateCredentialKey "throttledCredential" cred = Ok tt /\
  exists c w, claims d !! item = Some c /\ items d !! item = Some w /\
    holder_principal c = Some holder /\ run_id c = Some run /\ it_state w = "in_progress" /\
    f = fence_token c + 1 /\ d1 = rerouted_db env capture item run cred att resumeAt coord c w d.
Proof.
  unfold ReleaseForReroute. case_bool_decide as Hne; [done|]. case_match eqn:Ha; [done|].
  apply Z.ltb_ge in Ha. case_match eqn:Hv; [|done]. intros H. destruct a.
  split_and!; [done|done|done|]. apply runTx_ok in H as [H|[H _]];
    unfold tbind, query, stmt in H; (destruct (faulty env "prior hold"); [done|]);
    (destruct (priorRelease item run d); [done|]);
    pose proof (releaseLocked_cases env capture item holder run cred att resumeAt coord d) as Hr.
  - rewrite H in Hr. destruct Hr as (c & w & ?&?&?&?&?& [= ->] & ->). eauto 10.
  - by rewrite H in Hr.
Qed.

Lemma rerouted_holds env capture item run cred att resumeAt coord c w d :
  holds (rerouted_db env capture item run cred att resumeAt coord c w d)
  = <[item := reroute_hold run cred att resumeAt coord (fence_token c + 1) (clock env "hold")]> (holds d).
Proof. unfold rerouted_db. by destruct capture. Qed.

(** A re-route fences the throttled run out and keeps its credential away. A
    release that reports a fresh fence found the paused run holding an item in
    progress, and made exactly these changes: the claim is free at the next fence,
    the item is back in todo, one audit row naming the coordinator, and a hold on
    the credential, capped six hours ahead. From then on, whatever the other
    writers do, and until the hold lapses, no credentialed claim with that
    credential is granted the item: the directed claim changes nothing and the pop
    never answers it. A re-drive of the release writes nothing and answers the
    recorded fence, even when the same run holds the item again. *)
Theorem reroute_keeps_credential_away interval sha256 marshal jsonb p env capture item holder run cred att resumeAt
    coord d d1 f :
  ReleaseForReroute env capture item holder run cred att (Some resumeAt) coord d
    = (d1, Ok {| Fence := f; AlreadyReleased := false |}) ->
  (exists c w, claims d !! item = Some c /\ items d !! item = Some w /\
     holder_principal c = Some holder /\ run_id c = Some run /\ it_state w = "in_progress" /\
     f = fence_token c + 1 /\ d1 = rerouted_db env capture item run cred att resumeAt coord c w d) /\
  forall d2, rtc (other_writes interval sha256 marshal jsonb) d1 d2 ->
    (forall env2 principal2 run2 initiator2,
       clock env2 "acquire" < Z.min resumeAt (clock env "hold" + MaxHoldWindow) ->
       let r := AcquireSpecificCredentialed interval p env2 principal2 run2 item cred initiator2 d2 in
       r.1 = d2 /\ forall got, r.2 <> Ok (Some got)) /\
    (forall env2 locked2 principal2 run2 initiator2 fence2,
       clock env2 "pick" < Z.min resumeAt (clock env "hold" + MaxHoldWindow) ->
       (ClaimNextCredentialed interval p env2 locked2 principal2 run2 cred initiator2 d2).2
         <> Ok (Some (item, fence2))) /\
    (forall env2, (forall label, faulty env2 label = false) ->
       ReleaseForReroute env2 capture item holder run cred att (Some resumeAt) coord d2
         = (d2, Ok {| Fence := f; AlreadyReleased := true |})).
Proof.
  intros H. apply ReleaseForReroute_ok in H as (Hne & Hatt & Hv & c & w & Hc & Hw & Hh & Hr & Hst & -> & ->).
  split; [by exists c, w|]. intros d2 Hd2.
  assert (holds d2 !! item =
    Some (reroute_hold run cred att resumeAt coord (fence_token c + 1) (clock env "hold"))) as Hhold.
  { set (d1 := rerouted_db _ _ _ _ _ _ _ _ _ _ _) in *.
    assert (holds d2 = holds d1) as ->.
    { apply (rtc_keeps _ (fun d => holds d = holds d1)) with (2 := Hd2); [|done].
      apply other_writes_stable; [apply holds_stable|by intros k m d3 _]. }
    subst d1. by rewrite rerouted_holds, lookup_insert_eq. }
  assert (forall now, now < Z.min resumeAt (clock env "hold" + MaxHoldWindow) ->
    held_for (Some cred) item now d2 = true) as Hheld.
  { intros now Hnow. unfold held_for. rewrite Hhold. cbn. rewrite bool_decide_eq_true_2 by done.
    by apply Z.ltb_lt. }
  split_and!.
  - intros env2 pr2 r2 i2 Hclk. unfold AcquireSpecificCredentialed, acquireCredentialed.
    case_match; [done|]. case_match; [done|]. case_match; [|done]. apply held_not_granted. by apply Hheld.
  - intros env2 l2 pr2 r2 i2 f2 Hclk. unfold ClaimNextCredentialed.
    case_match; [done|]. case_match; [done|]. case_match; [|done]. intros E.
    destruct (runTx env2 _ d2) as [d3 o] eqn:E3. cbn in E. subst o.
    pose proof (popTail_cases interval p (Some cred) l2 pr2 r2 i2 env2 d2) as Hp.
    apply runTx_ok in E3 as [E3|[E3 _]]; rewrite E3 in Hp; [|done].
    destruct Hp as (it & c2 & w2 & Hpick & _ & [= <- _] & _).
    by apply (pick_not_held p) in Hpick; [|apply Hheld].
  - intros env2 Hf. unfold ReleaseForReroute. rewrite bool_decide_eq_false_2 by done.
    destruct (att <? 1) eqn:Ha; [apply Z.ltb_lt in Ha; lia|]. rewrite Hv.
    apply runTx_left; [|apply Hf]. unfold tbind, query, stmt, priorRelease. rewrite Hf, Hhold. cbn.
    by rewrite bool_decide_eq_true_2.
Qed.

(** A valid policy retains the checkout of a first pause without a long window. *)
Lemma reroute_policy_exact policy attempt retryAfter :
  Validate policy = Ok tt ->
  ShouldReroute attempt retryAfter policy = true <->
  AfterAttempts policy <= attempt \/ (exists r, retryAfter = Some r /\ MinWindow policy <= r).
Proof.
  unfold Validate, ShouldReroute. case_match eqn:Ha; [done|]. case_match eqn:Hm; [done|]. intros _.
  apply Z.ltb_ge in Ha. apply Z.leb_gt in Hm.
  destruct (AfterAttempts policy <=? if attempt <? 1 then 1 else attempt) eqn:Hc.
  - split; [intros _; left|done]. apply Z.leb_le in Hc. case_match; lia.
  - apply Z.leb_gt in Hc. destruct retryAfter as [r|].
    + rewrite Z.leb_le. split; [right; eauto|]. intros [?|(r' & [= ->] & ?)]; [case_match eqn:Hx; lia|done].
    + split; [done|]. intros [?|(r' & ? & ?)]; [case_match eqn:Hx; lia|done].
Qed.

(** The first candidate that is not the throttled credential. *)
Lemma pick_alternate_exact throttled candidates c :
  PickAlternateCredential throttled candidates = Some c <->
  exists l1 l2, candidates = l1 ++ c :: l2 /\ c <> "" /\ c <> throttled /\
    Forall (fun x => x = "" \/ x = throttled) l1.
Proof.
  induction candidates as [|x rest IH]; cbn.
  - split; [done|]. by intros ([] & ? & ? & ?).
  - destruct (bool_decide (x ≠ "") && bool_decide (x ≠ throttled)) eqn:Hb.
    + apply andb_true_iff in Hb as [?%bool_decide_eq_true ?%bool_decide_eq_true]. split.
      * intros [= ->]. by exists [], rest.
      * intros ([|y l1] & l2 & [= -> ->] & ? & ? & Hl); [done|].
        apply Forall_cons in Hl as [[?|?] _]; done.
    + rewrite IH. clear IH. split.
      * intros (l1 & l2 & -> & ? & ? & ?). exists (x :: l1), l2. split_and!; [done..|].
        constructor; [|done]. apply andb_false_iff in Hb as [Hb|Hb]; apply bool_decide_eq_false in Hb;
          [left|right]; by apply dec_stable.
      * intros ([|y l1] & l2 & [= -> ->] & ? & ? & Hl).
        -- rewrite !bool_decide_eq_true_2 in Hb; done.
        -- apply Forall_cons in Hl as [_ Hl]. by exists l1, l2.
Qed.

(** The heartbeater answers false exactly at the first renewal that finds the
    custody gone, every earlier one having been granted. *)
Lemma heartbeat_closes_exactly lease item principal run fence turns b :
  RunHeartbeater lease item principal run fence turns = Closed b ->
  exists pre post, (turns = pre ++ post) /\
    Forall (fun t => match t with
                     | Tick env d => (Renew lease env item principal run fence d).2 = Ok true
                     | Cancelled => False end) pre /\
    match post with
    | Cancelled :: _ => b = true
    | Tick env d :: _ => b = false /\ (Renew lease env item principal run fence d).2 = Ok false
    | [] => False
    end.
Proof.
  induction turns as [|[|env d] rest IH]; cbn; [done|intros [= <-]; by exists [], (Cancelled :: rest)|].
  destruct (Renew lease env item principal run fence d).2 as [[]|] eqn:E; [|intros [= <-]|done].
  - intros (pre & post & -> & Hp & Hpost)%IH. exists (Tick env d :: pre), post.
    split_and!; [done|by constructor|done].
  - exists [], (Tick env d :: rest). by split_and!.
Qed.

(** * Witnesses *)

Definition due_sample : TxEnv := quiet 100.

Lemma claim_next_exact_witness :
  exists got, (ClaimNext (fun _ => 30) sample_claimer due_sample [] "agent" "run-7" "" (sample_db "todo")).2 = Ok (Some got).
Proof.
  apply (proj2 (claim_next_exact (fun _ => 30) sample_claimer due_sample [] "agent" "run-7" "" (sample_db "todo")
    ltac:(discriminate) ltac:(discriminate))).
  - reflexivity.
  - cbn. lia.
  - reflexivity.
  - exists "i1", (sample_item "todo"). split; [reflexivity|]. vm_compute. reflexivity.
Defined.

Definition rerouted_sample : Db :=
  (ReleaseForReroute (quiet 200) false "i1" "agent" "run-7" "secret:a" 2 (Some 1000) "lead" claimed_sample).1.

Lemma reroute_keeps_credential_away_witness :
  (AcquireSpecificCredentialed (fun _ => 30) sample_claimer (quiet 999) "agent" "run-8" "i1" "secret:a" ""
     rerouted_sample).1 = rerouted_sample /\
  is_ok (AcquireSpecificCredentialed (fun _ => 30) sample_claimer (quiet 999) "other" "run-8" "i1" "secret:b" ""
     rerouted_sample).2 = true.
Proof.
  split; [|vm_compute; reflexivity].
  destruct (reroute_keeps_credential_away (fun _ => 30) (fun s => s) (fun _ => "") (fun s => s) sample_claimer
    (quiet 200) false "i1" "agent" "run-7" "secret:a" 2 1000 "lead" claimed_sample rerouted_sample 2) as (_ & H).
  - vm_compute. reflexivity.
  - destruct (H rerouted_sample (rtc_refl _ _)) as (Ha & _).
    apply (Ha (quiet 999) "agent" "run-8" ""). vm_compute. reflexivity.
Defined.
