(* ===== verification/SettleProps.v ===== *)
(** Properties of the terminal settle, the kill and the driver's re-entries. *)
From S2P Require Import Prelude Machine CoordDb CoordTx Settle DriverClaims Custody.
Open Scope Z_scope.
Open Scope k8s_scope.

(** * The settle, as one update *)

Definition settle_target (step : string) (w : option ItemRow) : string :=
  if bool_decide (step = "failed")
  then match w with
       | Some w => if bool_decide (it_source w = "discussion") then "cancelled" else "todo"
       | None => "todo"
       end
  else if bool_decide (step = "cancelled") then "cancelled" else "".

(** The item to move, when the step moves one still in progress. *)
Definition settle_moves (step : string) (w : option ItemRow) : option ItemRow :=
  match w with
  | Some w => if bool_decide (it_state w = "in_progress") && bool_decide (step ≠ "succeeded") then Some w else None
  | None => None
  end.

Definition settle_audit (item run principal step lane : string) : AuditRow :=
  {| au_item := item; au_run := nullif run; au_event := "state_transition"; au_principal := principal;
     au_initiator := None; au_fence := None; au_from := Some "in_progress"; au_to := Some lane;
     au_payload := Fields [("reason", FStr "run_settled"); ("step", FStr step)] |}.

Definition settle_row (env : TxEnv) (item run principal body kind : string) : CommentRow :=
  {| cm_item := item; cm_author := principal; cm_body := body; cm_kind := kind; cm_run := nullif run;
     cm_at := tx_now env |}.

Definition settled (env : TxEnv) (item run principal step : string) (d : Db) : Db * (string * bool) :=
  let agent := match claims d !! item with Some c => default "" (assignee_agent c) | None => "" end in
  let lane := settle_target step (items d !! item) in
  let moved := settle_moves step (items d !! item) in
  let d1 := match moved with
            | Some w => add_audit (settle_audit item run principal step lane) (put_lane (tx_now env) item lane w d)
            | None => d
            end in
  let moved := bool_decide (is_Some moved) in
  let d2 := if has_summary item run d
            then if bool_decide (step = "succeeded") then d1
                 else add_comment (settle_row env item run principal (settleSummary step lane moved agent) "progress") d1
            else add_comment (settle_row env item run principal (synthesizeSummary item run step agent d) "summary") d1 in
  (d2, (lane, moved)).

(** ** The steps of the code *)

Lemma terminal_cases step : settleIsTerminal step = true ->
  step = "succeeded" \/ step = "failed" \/ step = "cancelled".
Proof. unfold settleIsTerminal. intros H%bool_decide_eq_true. set_solver. Qed.

Section settle.
Context {B : Type}.

Lemma settleLane_run item step env d :
  settleIsTerminal step = true ->
  match settleLane (B := B) item step env d with
  | inl (d', lane) => d' = d /\ lane = settle_target step (items d !! item)
  | inr r => r = Err (Infra "read source") /\ faulty env "read source" = true
  end.
Proof.
  intros Ht. unfold settleLane, settle_target, tbind, query, stmt, tret, SettleLaneOf.
  destruct (terminal_cases _ Ht) as [->|[->| ->]]; eval_decides; try done.
  destruct (faulty env "read source"); [done|]. split; [done|]. by destruct (items d !! item).
Qed.

Lemma settleMove_run item run principal step env d :
  settleIsTerminal step = true ->
  let lane := settle_target step (items d !! item) in
  match settleMove (B := B) item run principal step lane env d with
  | inl (d', moved) => moved = bool_decide (is_Some (settle_moves step (items d !! item))) /\
      d' = match settle_moves step (items d !! item) with
           | Some w => add_audit (settle_audit item run principal step lane) (put_lane (tx_now env) item lane w d)
           | None => d
           end
  | inr r => exists label, r = Err (Infra label) /\ faulty env label = true
  end.
Proof.
  intros Ht lane. unfold settleMove, leave_in_progress, exec, tbind, stmt, tret. case_bool_decide as Hl.
  - assert (settle_moves step (items d !! item) = None) as ->; [|done].
    subst lane. unfold settle_target, settle_moves in *.
    destruct (terminal_cases _ Ht) as [->|[->| ->]]; revert Hl; eval_decides; intros Hl.
    + destruct (items d !! item); [|done]. by rewrite andb_false_r.
    + exfalso. by repeat case_match.
    + done.
  - destruct (faulty env "lane") eqn:Hf; [by exists "lane"|].
    assert (step <> "succeeded") as Hs by (intros ->; by subst lane).
    unfold settle_moves. destruct (items d !! item) as [w|]; [|done].
    rewrite (bool_decide_eq_true_2 (step ≠ "succeeded")) by done. rewrite andb_true_r.
    case_bool_decide; [|done]. destruct (faulty env "lane audit") eqn:Hf2; [by exists "lane audit"|done].
Qed.

Lemma settleComment_run item run principal step lane moved agent env d :
  match settleComment (B := B) item run principal step lane moved agent env d with
  | inl (d', _) => d' =
      (if has_summary item run d && bool_decide (run ≠ "")
       then if bool_decide (step = "succeeded") then d
            else add_comment (settle_row env item run principal (settleSummary step lane moved agent) "progress") d
       else add_comment (settle_row env item run principal (synthesizeSummary item run step agent d) "summary") d)
  | inr r => exists label, r = Err (Infra label) /\ faulty env label = true
  end.
Proof.
  unfold settleComment, query, exec, tbind, stmt, tret.
  destruct (decide (run = "")) as [->|Hr].
  - rewrite bool_decide_eq_true_2, (bool_decide_eq_false_2 ("" ≠ "")), andb_false_r by auto.
    destruct (faulty env "summary") eqn:Hf; [by exists "summary"|done].
  - rewrite bool_decide_eq_false_2, (bool_decide_eq_true_2 (run ≠ "")), andb_true_r by auto.
    destruct (faulty env "summary presence") eqn:Hf; [by exists "summary presence"|].
    destruct (has_summary item run d).
    + case_bool_decide; [done|]. destruct (faulty env "terminal progress") eqn:Hf2; [by exists "terminal progress"|done].
    + destruct (faulty env "summary") eqn:Hf2; [by exists "summary"|done].
Qed.

(** What a terminal settle does, on any faults. *)
Lemma settle_run item run principal step env d :
  settleIsTerminal step = true -> item <> "" -> run <> "" -> principal <> "" ->
  match SettleTerminalLane (B := B) item run principal step env d with
  | inl r => r = settled env item run principal step d
  | inr r => exists label, r = Err (Infra label) /\ faulty env label = true
  end.
Proof.
  intros Ht Hi Hr Hp. unfold SettleTerminalLane.
  rewrite bool_decide_eq_false_2.
  2:{ destruct (terminal_cases _ Ht) as [->|[->| ->]]; set_solver. }
  rewrite Ht. cbn [negb]. unfold tbind at 1, query at 1, stmt at 1.
  destruct (faulty env "read assignee") eqn:Hf; [by exists "read assignee"|].
  set (agent := match claims d !! item with Some c => _ | None => _ end).
  unfold tbind at 1. pose proof (settleLane_run item step env d Ht) as HL.
  destruct (settleLane item step env d) as [[d1 lane]|r]; [destruct HL as [-> ->]|destruct HL as [-> ?]; eauto].
  unfold tbind at 1. pose proof (settleMove_run item run principal step env d Ht) as HM. cbv zeta in HM.
  destruct (settleMove _ _ _ _ _ env d) as [[d1 moved]|r]; [destruct HM as [-> ->]|exact HM].
  unfold tbind at 1.
  set (d1 := match settle_moves step (items d !! item) with Some w => _ | None => _ end).
  pose proof (settleComment_run item run principal step (settle_target step (items d !! item))
    (bool_decide (is_Some (settle_moves step (items d !! item)))) agent env d1) as HC.
  destruct (settleComment _ _ _ _ _ _ _ env d1) as [[d2 []]|r]; [subst d2|exact HC].
  unfold tret, settled. fold agent. fold d1. cbv zeta.
  rewrite (bool_decide_eq_true_2 (run ≠ "")), andb_true_r by done.
  assert (has_summary item run d1 = has_summary item run d) as -> by (subst d1; by case_match).
  assert (synthesizeSummary item run step agent d1 = synthesizeSummary item run step agent d) as ->
    by (subst d1; by case_match).
  done.
Qed.

Lemma settle_no_fault item run principal step env d :
  settleIsTerminal step = true -> item <> "" -> run <> "" -> principal <> "" ->
  (forall label, faulty env label = false) ->
  SettleTerminalLane (B := B) item run principal step env d = inl (settled env item run principal step d).
Proof.
  intros Ht Hi Hr Hp Hf. pose proof (settle_run item run principal step env d Ht Hi Hr Hp) as H.
  destruct (SettleTerminalLane _ _ _ _ _ _) as [r|r]; [by subst r|].
  destruct H as (label & _ & Hl). by rewrite Hf in Hl.
Qed.
End settle.

(** ** Counting the summaries of a run *)

Definition is_summary (item run : string) (c : CommentRow) : bool :=
  bool_decide (cm_item c = item) && sql_eqb (cm_run c) run && bool_decide (cm_kind c = "summary").

Definition summaries (item run : string) (d : Db) : nat :=
  length (filter (fun c => is_summary item run c = true) (comments d)).

Lemma has_summary_count item run d : has_summary item run d = true <-> (1 <= summaries item run d)%nat.
Proof.
  unfold has_summary, summaries. induction (comments d) as [|c l IH]; [split; [done|cbn; lia]|].
  cbn [existsb]. rewrite filter_cons. fold (is_summary item run c).
  destruct (is_summary item run c) eqn:E; cbn [orb].
  - rewrite decide_True by done. cbn. split; [lia|done].
  - rewrite decide_False by done. exact IH.
Qed.

Lemma summaries_add item run d d1 c :
  comments d1 = comments d ++ [c] ->
  summaries item run d1 = (summaries item run d + if is_summary item run c then 1 else 0)%nat.
Proof.
  unfold summaries. intros ->. rewrite filter_app, length_app. f_equal. cbn.
  by destruct (is_summary item run c).
Qed.

Lemma nullif_some s : s <> "" -> nullif s = Some s.
Proof. intros H. unfold nullif. by rewrite bool_decide_eq_false_2. Qed.

Lemma settled_comments env item run principal step d :
  let agent := match claims d !! item with Some c => default "" (assignee_agent c) | None => "" end in
  let lane := settle_target step (items d !! item) in
  let moved := bool_decide (is_Some (settle_moves step (items d !! item))) in
  comments (settled env item run principal step d).1 =
    comments d ++
      (if has_summary item run d
       then if bool_decide (step = "succeeded") then []
            else [settle_row env item run principal (settleSummary step lane moved agent) "progress"]
       else [settle_row env item run principal (synthesizeSummary item run step agent d) "summary"]).
Proof.
  unfold settled. cbn. destruct (has_summary item run d); [case_bool_decide|];
    destruct (settle_moves step (items d !! item)); cbn; by rewrite ?app_nil_r.
Qed.

Lemma settled_summaries env item run principal step d :
  run <> "" ->
  summaries item run (settled env item run principal step d).1 = Nat.max 1 (summaries item run d).
Proof.
  intros Hr. pose proof (settled_comments env item run principal step d) as Hc. cbv zeta in Hc.
  pose proof (has_summary_count item run d) as Hs. destruct (has_summary item run d).
  - assert (1 <= summaries item run d)%nat by (by apply Hs). case_bool_decide.
    + rewrite app_nil_r in Hc. unfold summaries. rewrite Hc. fold (summaries item run d). lia.
    + rewrite (summaries_add item run d _ _ Hc). unfold is_summary, settle_row. cbn [cm_kind].
      rewrite (bool_decide_eq_false_2 ("progress" = "summary")), andb_false_r by done. lia.
  - assert (summaries item run d = 0)%nat by (destruct (summaries item run d); [done|]; exfalso;
      assert (false = true) by (apply Hs; lia); done).
    rewrite (summaries_add item run d _ _ Hc). unfold is_summary, settle_row, sql_eqb. cbn [cm_item cm_run cm_kind].
    rewrite nullif_some, !bool_decide_eq_true_2 by done. cbn. lia.
Qed.

(** A terminal run settles its ticket exactly once over. A terminal settle
    either fails on a failing statement or does exactly this. The lane moves only
    for a run that did not succeed, and only from in_progress: a failed run back
    to todo, or to cancelled for a discussion item, a cancelled one to cancelled,
    with one state_transition row; a success leaves the items and the audit log as
    they are. The thread is owed one summary of the run: whatever the outcome,
    whether or not the agent wrote one, and however often the settle runs, the run
    ends with one summary unless it had more, and at most one comment is added.
    No claim, artifact or marker changes. *)
Theorem settle_exact {B} item run principal step env d :
  settleIsTerminal step = true -> item <> "" -> run <> "" -> principal <> "" ->
  match SettleTerminalLane (B := B) item run principal step env d with
  | inr r => exists label, r = Err (Infra label) /\ faulty env label = true
  | inl (d', (lane, moved)) =>
      (moved = true <-> step <> "succeeded" /\ it_state <$> items d !! item = Some "in_progress") /\
      items d' = match settle_moves step (items d !! item) with
                 | Some w => items (put_lane (tx_now env) item lane w d)
                 | None => items d
                 end /\
      audits d' = audits d ++ (if moved then [settle_audit item run principal step lane] else []) /\
      (moved = true -> lane = if bool_decide (step = "failed") &&
                                 negb (sql_eqb (it_source <$> items d !! item) "discussion")
                              then "todo" else "cancelled") /\
      summaries item run d' = Nat.max 1 (summaries item run d) /\
      (length (comments d') <= length (comments d) + 1)%nat /\
      claims d' = claims d /\ artifacts d' = artifacts d /\ holds d' = holds d /\
      dispatches d' = dispatches d /\ a2a_dispatch d' = a2a_dispatch d
  end.
Proof.
  intros Ht Hi Hr Hp. pose proof (settle_run (B := B) item run principal step env d Ht Hi Hr Hp) as H.
  destruct (SettleTerminalLane _ _ _ _ _ _) as [[d' [lane moved]]|r]; [|exact H].
  assert (d' = (settled env item run principal step d).1) as -> by (by rewrite <- H).
  assert (lane = settle_target step (items d !! item)) as -> by (by injection H).
  assert (moved = bool_decide (is_Some (settle_moves step (items d !! item)))) as -> by (by injection H).
  clear H. split_and!.
  - rewrite bool_decide_eq_true. unfold settle_moves. destruct (items d !! item) as [w|]; cbn.
    + destruct (decide (it_state w = "in_progress")) as [E1|E1].
      2:{ rewrite (bool_decide_eq_false_2 _ E1). cbn. split; [by intros [? ?]|]. intros [_ [=]]. done. }
      rewrite (bool_decide_eq_true_2 _ E1), E1. destruct (decide (step = "succeeded")) as [E2|E2]; cbn.
      * rewrite (bool_decide_eq_false_2 (step ≠ _)) by auto. split; [by intros [? ?]|by intros [? _]].
      * rewrite (bool_decide_eq_true_2 (step ≠ _)) by auto. split; [done|by eexists].
    + split; [by intros [? ?]|by intros [? ?]].
  - unfold settled. cbn. repeat case_match; done.
  - unfold settled. cbn. destruct (settle_moves step (items d !! item)) as [w|].
    + rewrite !(bool_decide_eq_true_2 (is_Some (Some w))) by (by eexists). repeat case_match; done.
    + rewrite !(bool_decide_eq_false_2 (is_Some None)) by (by intros [? ?]). rewrite app_nil_r. repeat case_match; done.
  - rewrite bool_decide_eq_true. intros [w Hm]. unfold settle_moves in Hm.
    destruct (items d !! item) as [w'|]; [|done]. unfold settle_target, sql_eqb. cbn [fmap option_fmap option_map].
    destruct (bool_decide (it_state w' = "in_progress")); [|done].
    destruct (terminal_cases _ Ht) as [->|[->| ->]]; revert Hm; eval_decides; cbn [andb negb]; try done.
    intros _. destruct (decide (it_source w' = "discussion")) as [E|E].
    + by rewrite E.
    + rewrite !bool_decide_eq_false_2 by congruence. done.
  - by apply settled_summaries.
  - rewrite settled_comments, length_app. repeat case_match; cbn; lia.
  - unfold settled. cbn. repeat case_match; done.
  - unfold settled. cbn. repeat case_match; done.
  - unfold settled. cbn. repeat case_match; done.
  - unfold settled. cbn. repeat case_match; done.
  - unfold settled. cbn. repeat case_match; done.
Qed.

(** * The fenced transitions *)

(** A claim a transition at this fence may move. *)
Definition movable (item : string) (fence : Z) (c : ClaimRow) (d : Db) : Prop :=
  claims d !! item = Some c /\ fence_token c = fence /\ terminal_step (reconcile_step c) = false.

Lemma movable_dec item fence d : (exists c, movable item fence c d) \/ ~ (exists c, movable item fence c d).
Proof.
  unfold movable. destruct (claims d !! item) as [c|].
  - destruct (decide (fence_token c = fence)); destruct (terminal_step (reconcile_step c)) eqn:E;
      [right|left; eauto|right|right]; by intros (? & [= <-] & ? & ?); congruence.
  - right. by intros (? & ? & ?).
Qed.

Lemma fenceTo_run {B} label item fence release step env d :
  match fenceTo (B := B) label item fence release step env d with
  | inl (d', Some f) => exists c, movable item fence c d /\ f = fence + 1 /\
      d' = put_claim item (fenced c release step (clock env label)) d
  | inl (d', None) => d' = d /\ ~ exists c, movable item fence c d
  | inr r => r = Err (Infra label) /\ faulty env label = true
  end.
Proof.
  unfold fenceTo, stmt, movable. destruct (faulty env label); [done|].
  destruct (claims d !! item) as [c|] eqn:Hc; [|split; [done|by intros (? & ? & ?)]].
  destruct (fence_token c =? fence) eqn:Hf; destruct (terminal_step (reconcile_step c)) eqn:Ht; cbn;
    reflect_bools; try (split; [done|by intros (? & [= <-] & ? & ?); congruence]).
  exists c. split_and!; [done|done|done|lia|done].
Qed.

Definition step_event (item run event : string) (step : Step) (fence : Z) (d : Db) : Db :=
  add_outbox (outbox_row "run" event item (nullif run)
    [("to_step", FStr (step_string step)); ("fence_token", FInt fence)] d) d.

(** ** The kill *)

Definition cancel_audit (item run principal by_ event : string) (step : Step) (fence : Z) : AuditRow :=
  {| au_item := item; au_run := nullif run; au_event := event; au_principal := principal;
     au_initiator := nullif by_; au_fence := Some fence; au_from := None; au_to := Some (step_string step);
     au_payload := NoPayload |}.

Definition cancelled_db (env : TxEnv) (item run principal by_ event : string) (step : Step) (release : bool)
    (c : ClaimRow) (d : Db) : Db :=
  let run := if bool_decide (run = "") then runIDFor item d else run in
  let fence := fence_token c + 1 in
  step_event item run event step fence
    (add_audit (cancel_audit item run principal by_ event step fence)
      (put_claim item (fenced c release step (clock env "update")) d)).

Lemma cancelTx_run item run principal by_ event step fence release env d :
  match cancelTx item run principal by_ event step fence release env d with
  | inl (d', o) => o = CancelAccepted /\ exists c, movable item fence c d /\
      d' = cancelled_db env item run principal by_ event step release c d
  | inr (Ok o) => ~ (exists c, movable item fence c d) /\
      o = match claims d !! item with
          | Some c => if terminal_step (reconcile_step c) && negb (faulty env "cur")
                      then CancelTerminal else CancelConflict
          | None => CancelConflict
          end
  | inr (Err _) => exists label, faulty env label = true
  end.
Proof.
  unfold cancelTx. unfold tbind at 1.
  pose proof (fenceTo_run (B := CancelOutcome) "update" item fence release step env d) as H.
  destruct (fenceTo _ _ _ _ _ env d) as [[d1 [f|]]|r].
  - destruct H as (c & Hm & -> & ->). unfold run_event, tbind, peek, exec, stmt, tret.
    destruct (faulty env "audit") eqn:Hfa; [by exists "audit"|].
    destruct (faulty env "outbox") eqn:Hfo; [by exists "outbox"|].
    split; [done|]. exists c. split; [done|]. unfold cancelled_db, step_event.
    destruct Hm as (_ & <- & _). done.
  - destruct H as [-> Hn]. cbn. by split.
  - destruct H as [-> Hf]. eauto.
Qed.

(** A kill is exact. Without failing statements, an entering kill answers
    accepted exactly when the claim row is at the fence the caller read and not
    terminal, terminal when it has reached a terminal step, and conflict otherwise
    (a row that does not exist included). Accepted means exactly this: the fence is
    bumped, holder and lease are cleared, the step is cancelling, one row in the
    name of the user and one event; any other answer, and any failure that did not
    commit, changes nothing. The kill never touches an item, nor does the finish
    that moves a claim to cancelled from any step that is not terminal. *)
Theorem kill_exact env item run principal by_ fence d :
  let r := Settle.CancelEnter env item run principal by_ fence d in
  items r.1 = items d /\ items (Settle.CancelFinish env item run principal fence d).1 = items d /\
  (r.2.1 = CancelAccepted -> exists c, movable item fence c d /\
     r.1 = cancelled_db env item run principal by_ "cancel_requested" StepCancelling true c d) /\
  (r.2.1 <> CancelAccepted -> landed env = false -> r.1 = d) /\
  ((forall label, faulty env label = false) ->
     r.2.2 = None /\
     (r.2.1 = CancelAccepted <-> exists c, movable item fence c d) /\
     (r.2.1 = CancelTerminal <-> exists c, claims d !! item = Some c /\ terminal_step (reconcile_step c) = true)).
Proof.
  assert (forall run by_ event step release, keeps (fun d' => items d' = items d)
            (cancelTx item run principal by_ event step fence release)) as Hk.
  { intros. unfold cancelTx, fenceTo, run_event. tx_walk; repeat case_match; by simplify_eq/=. }
  intros r. subst r. unfold Settle.CancelEnter, Settle.CancelFinish, cancelResult. cbn [fst snd].
  split_and!; [by apply (keeps_runTx (fun d' => items d' = items d))..| | |].
  all: pose proof (cancelTx_run item run principal by_ "cancel_requested" StepCancelling fence true env d) as H.
  - unfold runTx. destruct (faulty env "begin"); [done|].
    destruct (cancelTx _ _ _ _ _ _ _ _ _ _) as [[d' o]|[o|e]]; cbn; [|intros ->|done].
    + destruct H as (_ & c & Hm & ->). destruct (faulty env "commit"); [done|]. eauto.
    + destruct H as (_ & H). by repeat case_match.
  - unfold runTx. destruct (faulty env "begin"); [done|].
    destruct (cancelTx _ _ _ _ _ _ _ _ _ _) as [[d' o]|[o|e]]; cbn; [|done|done].
    destruct H as (-> & _). destruct (faulty env "commit"); [by intros _ ->|done].
  - intros Hf. unfold runTx. rewrite !Hf. unfold movable in *.
    destruct (cancelTx _ _ _ _ _ _ _ _ _ _) as [[d' o]|[o|e]]; cbn.
    + destruct H as (-> & c & (Hc & Hfc & Ht) & _). split_and!; [done|split; eauto|].
      split; [done|]. intros (c' & Hc' & Ht'). congruence.
    + destruct H as (Hn & ->). split_and!; [done| |].
      * split; [|done]. by repeat case_match.
      * rewrite Hf. cbn. destruct (claims d !! item) as [c|]; [|split; [done|by intros (? & ? & ?)]].
        rewrite andb_true_r. destruct (terminal_step (reconcile_step c)) eqn:E; [by split; eauto|].
        split; [done|]. intros (? & [= <-] & ?). congruence.
    + destruct H as (l & Hl). by rewrite Hf in Hl.
Qed.

(** ** The re-entries *)

Definition settled_if (env : TxEnv) (item run principal : string) (step : Step) (d : Db) : Db :=
  if settleIsTerminal (step_string step) then (settled env item run principal (step_string step) d).1 else d.

Definition parked (env : TxEnv) (principal item run reason : string) (fence : Z) (d : Db) : Db :=
  if bool_decide (reason = "") then d
  else match items d !! item with
       | Some w => match it_blocked w with
                   | None =>
                       add_comment (settle_row env item "" principal (park_comment reason) "human")
                         (add_audit (run_audit item run "work_item_parked" principal (Some fence) None (Some "failed")
                            (Fields [("blocked_reason", FStr reason)]))
                           (put_blocked (tx_now env) item reason w d))
                   | Some _ => d
                   end
       | None => d
       end.

(** The tables after a re-entry. *)
Definition reentered (env : TxEnv) (principal item run event : string) (step : Step) (reason : string)
    (c : ClaimRow) (d : Db) : Db :=
  let fence := fence_token c + 1 in
  let row e := run_audit item run e principal (Some fence) None (Some (step_string step)) NoPayload in
  let d := put_claim item (fenced c true step (clock env "update")) d in
  let d := add_audit (row event) d in
  let d := if bool_decide (is_Some (holder_principal c)) then add_audit (row "claim_released") d else d in
  let d := step_event item run event step fence d in
  parked env principal item run reason fence (settled_if env item run principal step d).

Lemma park_run {B} principal item run reason fence env d :
  match park (B := B) principal item run reason fence env d with
  | inl (d', _) => d' = parked env principal item run reason fence d
  | inr r => exists label, r = Err (Infra label) /\ faulty env label = true
  end.
Proof.
  unfold park, parked, tbind, exec, stmt, tret. case_bool_decide; [done|].
  destruct (faulty env "park") eqn:?; [by exists "park"|].
  destruct (items d !! item) as [w|]; [|done]. destruct (it_blocked w); [done|].
  destruct (faulty env "park audit") eqn:?; [by exists "park audit"|].
  destruct (faulty env "park comment") eqn:?; [by exists "park comment"|done].
Qed.

Lemma auditReleased_run {B} principal wasHeld item run fence toState env d :
  match auditReleased (B := B) principal wasHeld item run fence toState env d with
  | inl (d', _) => d' = if bool_decide (is_Some wasHeld)
      then add_audit (run_audit item run "claim_released" principal (Some fence) None (Some toState) NoPayload) d
      else d
  | inr r => exists label, r = Err (Infra label) /\ faulty env label = true
  end.
Proof.
  unfold auditReleased, exec, stmt, tret. destruct wasHeld.
  - destruct (faulty env "claim_released audit") eqn:Hx; [by exists "claim_released audit"|].
    by rewrite bool_decide_eq_true_2 by (by eexists).
  - by rewrite bool_decide_eq_false_2 by (by intros [? ?]).
Qed.

Lemma settle_if_run {B} item run principal step env d :
  item <> "" -> run <> "" -> principal <> "" -> step_string step <> "" ->
  match SettleTerminalLane (B := B) item run principal (step_string step) env d with
  | inl (d', _) => d' = settled_if env item run principal step d
  | inr r => exists label, r = Err (Infra label) /\ faulty env label = true
  end.
Proof.
  intros Hi Hr Hp Hs. unfold settled_if. destruct (settleIsTerminal (step_string step)) eqn:Ht.
  - pose proof (settle_run (B := B) item run principal _ env d Ht Hi Hr Hp) as H.
    destruct (SettleTerminalLane _ _ _ _ _ _) as [[d' ?]|]; [by rewrite <- H|done].
  - unfold SettleTerminalLane. rewrite bool_decide_eq_false_2 by set_solver. by rewrite Ht.
Qed.

Lemma enterTx_run principal item run event fence step reason env d :
  item <> "" -> run <> "" -> principal <> "" -> step_string step <> "" ->
  match enterTx principal item run event fence step reason env d with
  | inl (d', o) => exists c, movable item fence c d /\ o = Some (fence + 1) /\
      d' = reentered env principal item run event step reason c d
  | inr (Ok o) => o = None /\ ~ exists c, movable item fence c d
  | inr (Err e) => exists label, faulty env label = true
  end.
Proof.
  intros Hi Hr Hp Hs. unfold enterTx, query. unfold tbind at 1, stmt at 1.
  destruct (faulty env "pre-read") eqn:Hpre; [by exists "pre-read"|].
  destruct (claims d !! item) as [c0|] eqn:Hc0.
  2:{ cbn. split; [done|]. intros (c & Hc & _). congruence. }
  destruct (fence_token c0 =? fence) eqn:Hf0; reflect_bools.
  2:{ cbn. split; [done|]. intros (c & Hc & ? & _). congruence. }
  unfold tbind at 1. pose proof (fenceTo_run (B := option Z) "update" item fence true step env d) as H.
  destruct (fenceTo _ _ _ _ _ env d) as [[d1 [f|]]|r]; [| by destruct H as [-> ?]|destruct H as [-> ?]; eauto].
  destruct H as (c & Hm & -> & ->).
  assert (c = c0) as -> by (destruct Hm as (? & _); congruence).
  unfold tbind at 1, exec at 1, stmt at 1. destruct (faulty env "audit") eqn:Hfa; [by exists "audit"|].
  unfold tbind at 1.
  set (d2 := add_audit (run_audit item run event principal (Some (fence + 1)) None (Some (step_string step)) NoPayload)
    (put_claim item (fenced c0 true step (clock env "update")) d)).
  pose proof (auditReleased_run (B := option Z) principal (holder_principal c0) item run (fence + 1)
    (step_string step) env d2) as Hrel.
  destruct (auditReleased _ _ _ _ _ _ env d2) as [[d3 ?]|r]; [|destruct Hrel as (l & -> & ?); eauto].
  unfold tbind at 1, run_event at 1, exec at 1, stmt at 1.
  destruct (faulty env "outbox") eqn:Hfo; [by exists "outbox"|].
  fold (step_event item run event step (fence + 1) d3).
  unfold tbind at 1. pose proof (settle_if_run (B := option Z) item run principal step env
    (step_event item run event step (fence + 1) d3) Hi Hr Hp Hs) as HS.
  destruct (SettleTerminalLane _ _ _ _ env _) as [[d4 ?]|r]; [subst d4|destruct HS as (l & -> & ?); eauto].
  unfold tbind at 1.
  match goal with |- context [park ?p ?i ?r ?re ?f env ?d] =>
    pose proof (park_run (B := option Z) p i r re f env d) as HP;
    destruct (park p i r re f env d) as [[d5 ?]|?]; [subst d5|destruct HP as (l & -> & ?); eauto] end.
  cbn. exists c0. split_and!; [done|done|]. subst d3. unfold reentered. by rewrite Hf0.
Qed.

Lemma parked_claims env principal item run reason fence d :
  claims (parked env principal item run reason fence d) = claims d.
Proof. unfold parked. repeat case_match; done. Qed.

Lemma settled_if_claims env item run principal step d :
  claims (settled_if env item run principal step d) = claims d.
Proof. unfold settled_if, settled. repeat case_match; done. Qed.

Lemma parked_summaries env principal item run reason fence item' run' d :
  summaries item' run' (parked env principal item run reason fence d) = summaries item' run' d.
Proof.
  unfold parked. case_bool_decide; [done|]. destruct (items d !! item) as [w|]; [|done].
  destruct (it_blocked w); [done|]. rewrite (summaries_add item' run' d _ (settle_row env item "" principal (park_comment reason) "human")).
  - unfold is_summary, settle_row. cbn [cm_kind]. rewrite (bool_decide_eq_false_2 ("human" = "summary")) by done.
    rewrite andb_false_r. lia.
  - done.
Qed.

(** The lane a settle leaves an item in keeps its block. *)
Lemma settled_if_blocked env item run principal step d w :
  items d !! item = Some w ->
  exists w', items (settled_if env item run principal step d) !! item = Some w' /\ it_blocked w' = it_blocked w.
Proof.
  intros Hw. unfold settled_if. destruct (settleIsTerminal (step_string step)); [|eauto].
  assert (items (settled env item run principal (step_string step) d).1 =
    match settle_moves (step_string step) (items d !! item) with
    | Some w => items (put_lane (tx_now env) item (settle_target (step_string step) (items d !! item)) w d)
    | None => items d
    end) as -> by (unfold settled; cbn; repeat case_match; done).
  rewrite Hw. unfold settle_moves. destruct (_ && _); [|eauto].
  cbn. rewrite lookup_insert_eq. eauto.
Qed.

(** A driver re-entry is exact. A retry lap, a failure after the retry budget,
    a fail-closed park or a cancel commits only against a claim row at the fence the
    driver read whose step is not terminal, and without failing statements it
    commits against every such row; otherwise, and on any failure that did not
    commit, no table changes. Committed, it bumps the fence, clears the holder and
    the lease but keeps naming the run, writes the new step, its audit row, a
    claim_released row exactly when the checkout was held, its event, and in the
    same transaction the settle a terminal step owes: the run then has its summary.
    A retry lap leaves the items alone. A fail-closed park leaves the item blocked. *)
Theorem reentry_exact principal env item run event fence step reason d :
  item <> "" -> run <> "" -> principal <> "" -> step ∈ [StepClaimingSandbox; StepFailed; StepCancelled] ->
  let r := enter principal env item run event fence step reason d in
  match r.2 with
  | Ok (Some f) => exists c, movable item fence c d /\ f = fence + 1 /\
      r.1 = reentered env principal item run event step reason c d /\
      claims r.1 !! item = Some (fenced c true step (clock env "update")) /\
      (step <> StepClaimingSandbox -> summaries item run r.1 = Nat.max 1 (summaries item run d)) /\
      (step = StepClaimingSandbox -> reason = "" -> items r.1 = items d /\ comments r.1 = comments d) /\
      (reason <> "" -> forall w, items d !! item = Some w ->
         exists w', items r.1 !! item = Some w' /\ is_Some (it_blocked w'))
  | Ok None => r.1 = d /\ ~ exists c, movable item fence c d
  | Err _ => landed env = false -> r.1 = d
  end /\
  ((forall label, faulty env label = false) -> (exists c, movable item fence c d) -> r.2 = Ok (Some (fence + 1))).
Proof.
  intros Hi Hr Hp Hst r. subst r. unfold enter.
  assert (step_string step <> "") as Hs
    by (apply elem_of_cons in Hst as [->|Hst]; [done|]; apply elem_of_cons in Hst as [->|Hst]; [done|];
        by apply list_elem_of_singleton in Hst as ->).
  pose proof (enterTx_run principal item run event fence step reason env d Hi Hr Hp Hs) as H. split.
  - destruct (runTx env _ d) as [d' [[f|]|e]] eqn:E; cbn; [| |intros Hl; by eapply runTx_failed].
    + apply runTx_ok in E as [E|[E _]]; rewrite E in H; [|by destruct H as [? _]].
      destruct H as (c & Hm & [= ->] & ->). exists c. split_and!; try done.
      * unfold reentered. rewrite parked_claims, settled_if_claims. case_bool_decide; cbn; by rewrite lookup_insert_eq.
      * intros Hne. unfold reentered. rewrite parked_summaries. unfold settled_if.
        assert (settleIsTerminal (step_string step) = true) as ->
          by (apply elem_of_cons in Hst as [->|Hst]; [done|]; apply elem_of_cons in Hst as [->|Hst]; [done|];
              by apply list_elem_of_singleton in Hst as ->).
        rewrite settled_summaries by done. by case_bool_decide.
      * intros -> ->. unfold reentered, parked. eval_decides.
        unfold settled_if. cbn [step_string]. unfold settleIsTerminal. eval_decides. by case_bool_decide.
      * intros Hre w Hw. unfold reentered, parked. rewrite bool_decide_eq_false_2 by done.
        match goal with |- context [settled_if env item run principal step ?d2] =>
          destruct (settled_if_blocked env item run principal step d2 w) as (w' & Hw' & Hb); [by case_bool_decide|];
          rewrite Hw' end.
        destruct (it_blocked w') as [b|] eqn:Hb'; [exists w'; rewrite Hb'; split; [done|by eexists]|].
        cbn. rewrite lookup_insert_eq. eexists. split; [done|]. by eexists.
    + apply runTx_ok in E as [E|[E ->]]; rewrite E in H; [by destruct H as (? & _ & [=] & _)|by destruct H as [_ ?]].
  - intros Hf Hm. unfold runTx. rewrite !Hf.
    destruct (enterTx _ _ _ _ _ _ _ _ _) as [[d' o]|[o|e]].
    + by destruct H as (? & _ & -> & _).
    + by destruct H as [_ ?].
    + destruct H as (l & Hl). by rewrite Hf in Hl.
Qed.

(** * Witnesses *)

Lemma settle_exact_witness :
  match SettleTerminalLane (B := unit) "i1" "run-7" "ksquad-operator" "failed" (quiet 300) claimed_sample with
  | inl (d', (lane, moved)) => summaries "i1" "run-7" d' = 1%nat
  | inr _ => False
  end.
Proof.
  pose proof (settle_exact (B := unit) "i1" "run-7" "ksquad-operator" "failed" (quiet 300) claimed_sample
    ltac:(reflexivity) ltac:(discriminate) ltac:(discriminate) ltac:(discriminate)) as H.
  destruct (SettleTerminalLane _ _ _ _ _ _) as [[d' [lane moved]]|r].
  - destruct H as (_ & _ & _ & _ & -> & _). vm_compute. reflexivity.
  - destruct H as (label & _ & H). discriminate H.
Defined.

Lemma kill_exact_witness :
  (Settle.CancelEnter (quiet 300) "i1" "run-7" "ksquad-operator" "" 1 claimed_sample).2.1 = CancelAccepted /\
  (Settle.CancelEnter (quiet 300) "i1" "run-7" "ksquad-operator" "" 0 claimed_sample).1 = claimed_sample.
Proof.
  destruct (kill_exact (quiet 300) "i1" "run-7" "ksquad-operator" "" 1 claimed_sample) as (_ & _ & _ & _ & H).
  destruct (kill_exact (quiet 300) "i1" "run-7" "ksquad-operator" "" 0 claimed_sample) as (_ & _ & _ & Hno & _).
  split.
  - apply (proj1 (proj2 (H (fun _ => eq_refl)))). eexists. split; [vm_compute; reflexivity|]. split; reflexivity.
  - apply Hno; [vm_compute; discriminate|reflexivity].
Defined.

Lemma reentry_exact_witness :
  (enter "ksquad-operator" (quiet 300) "i1" "run-7" "run_failed_entered" 1 StepFailed "overflow" claimed_sample).2
    = Ok (Some (1 + 1)).
Proof.
  destruct (reentry_exact "ksquad-operator" (quiet 300) "i1" "run-7" "run_failed_entered" 1 StepFailed "overflow"
    claimed_sample ltac:(discriminate) ltac:(discriminate) ltac:(discriminate) ltac:(right; left)) as [_ H].
  apply H; [reflexivity|]. eexists. split; [vm_compute; reflexivity|]. split; reflexivity.
Defined.
