(* ===== verification/EffectsProps.v ===== *)
(** Properties of the production effects. *)
From S2P Require Import Prelude Machine CoordDb CoordTx ProdEffects Custody.
Open Scope Z_scope.
Open Scope k8s_scope.

(** * Reconcile passes

    Each pass builds the effects afresh, with ports and faults of its own, over the
    database the last one left and whatever others commit meanwhile. *)
Record Pass : Type := { ps_before : Db -> Db; ps_ports : Ports; ps_env : TxEnv; ps_rival : Db -> Db }.

(** Others commit what they like between the passes, but markers stay. *)
Definition keeps_markers (p : Pass) : Prop := forall d, a2a_dispatch d ⊆ a2a_dispatch (ps_before p d).

Definition fresh_fx (d : Db) (calls : list PhysCall) : Fx := {| fx_db := d; fx_calls := calls; fx_err := None |}.

Fixpoint dispatch_passes (e : ProdEffects) (taskID : string) (ps : list Pass) (d : Db) (calls : list PhysCall)
    : Db * list PhysCall :=
  match ps with
  | [] => (d, calls)
  | p :: rest =>
      let x := Dispatch e (ps_ports p) (ps_env p) (ps_rival p) taskID true (fresh_fx (ps_before p d) calls) in
      dispatch_passes e taskID rest (fx_db x) (fx_calls x)
  end.

Section dispatch.
Context (e : ProdEffects).

Lemma dispatch_marked ports env rival taskID d calls m :
  a2a_dispatch d !! boundTaskID e taskID = Some m ->
  let x := Dispatch e ports env rival taskID true (fresh_fx d calls) in fx_db x = d /\ fx_calls x = calls.
Proof.
  intros Hm. unfold Dispatch, fx_exec, autocommit. cbn [fx_err fresh_fx negb fx_db].
  destruct (faulty env "lookup"); [by destruct (landed env)|]. cbn [fst]. by rewrite Hm.
Qed.

Lemma fx_exec_run {A} env label (f : TxEnv -> Db -> Db * A) x :
  match fx_exec env label f x with
  | (x', Some a) => fx_put (f env (fx_db x)).1 x = x' /\ a = (f env (fx_db x)).2
  | (x', None) => faulty env label = true /\ fx_calls x' = fx_calls x /\ is_Some (fx_err x') /\
      (fx_db x' = fx_db x \/ fx_db x' = (f env (fx_db x)).1 /\ landed env = true)
  end.
Proof.
  unfold fx_exec, autocommit. destruct (faulty env label).
  - destruct (landed env); cbn; (split_and!; [done|done|destruct (fx_err x); by eexists|auto]).
  - by destruct (f env (fx_db x)).
Qed.

Lemma audit_keeps env event to x :
  fx_calls (audit e env event to x) = fx_calls x /\
  a2a_dispatch (fx_db (audit e env event to x)) = a2a_dispatch (fx_db x) /\
  (fx_err x = None -> fx_err (audit e env event to x) = None ->
   audits (fx_db (audit e env event to x)) = audits (fx_db x) ++ [effect_row e event to]).
Proof.
  unfold audit. pose proof (fx_exec_run env "effect audit" (fun _ d => (add_audit (effect_row e event to) d, tt)) x) as H.
  destruct (fx_exec _ _ _ _) as [x' [[]|]]; cbn [fst].
  - destruct H as [<- _]. done.
  - destruct H as (_ & -> & [er Her] & [->|[-> _]]); split_and!; try done; intros _; by rewrite Her.
Qed.

Lemma dispatchMarker_run env rival task x :
  fx_err x = None ->
  let x' := dispatchMarker e env rival task x in
  fx_calls x' = fx_calls x /\
  (fx_err x' = None -> is_Some (a2a_dispatch (fx_db x') !! task) /\
     (rival = id -> a2a_dispatch (fx_db x) !! task = None ->
      audits (fx_db x') = audits (fx_db x) ++ [effect_row e "a2a_dispatched" StepDispatching])).
Proof.
  intros Hx. unfold dispatchMarker.
  match goal with |- context [fx_exec env "marker" ?f ?y] => pose proof (fx_exec_run env "marker" f y) as H;
    destruct (fx_exec env "marker" f y) as [x1 [n|]] end.
  - destruct H as [<- Hn]. cbn in *. destruct (a2a_dispatch (rival (fx_db x)) !! task) as [m|] eqn:Hm; subst n; cbn.
    + split; [done|]. intros _. split; [by rewrite Hm|]. intros -> Hn. unfold id in Hm. congruence.
    + match goal with |- context [audit e env ?ev ?to ?y] =>
        destruct (audit_keeps env ev to y) as (-> & Ha & Hau) end.
      split; [done|]. intros Herr. rewrite Ha. cbn. rewrite lookup_insert_eq. split; [by eexists|].
      intros -> _. rewrite Hau by done. done.
  - destruct H as (_ & Hc & [er Her] & _). split; [done|]. by rewrite Her.
Qed.

(** One pass over a task without a marker. *)
Lemma dispatch_unmarked ports env rival taskID d calls :
  let task := boundTaskID e taskID in
  a2a_dispatch d !! task = None ->
  let x := Dispatch e ports env rival taskID true (fresh_fx d calls) in
  (fx_calls x = calls \/ fx_calls x = calls ++ [PSubmit task (pe_run e)]) /\
  (forall f, dispatcher ports = Some f -> f task (pe_run e) = false -> fx_db x = d /\ is_Some (fx_err x)) /\
  (fx_err x = None -> is_Some (a2a_dispatch (fx_db x) !! task) /\
     (forall f, dispatcher ports = Some f ->
        f task (pe_run e) = true /\ fx_calls x = calls ++ [PSubmit task (pe_run e)]) /\
     (rival = id -> audits (fx_db x) = audits d ++ [effect_row e "a2a_dispatched" StepDispatching])).
Proof.
  intros task Hm x. subst x. unfold Dispatch. cbn [fx_err fresh_fx negb]. fold task.
  unfold fx_exec, autocommit. cbn [fx_db fresh_fx].
  destruct (faulty env "lookup").
  { destruct (landed env); cbn; (split_and!; [by left|by split; [|eexists]|done]). }
  cbn [fst]. rewrite Hm. destruct (dispatcher ports) as [f|].
  - unfold port_call. destruct (f task (pe_run e)) eqn:Hf.
    + match goal with |- context [dispatchMarker e env rival task ?y] =>
        destruct (dispatchMarker_run env rival task y eq_refl) as [Hc Hr] end.
      rewrite Hc. cbn [fx_calls fx_call fx_put fresh_fx fx_db] in *. split_and!; [by right| |].
      * intros f' [= <-]. congruence.
      * intros Herr. destruct (Hr Herr) as [? Hau]. split_and!; [done| |auto]. by intros f' [= <-].
    + cbn. split_and!; [by right|by split; [|eexists]|done].
  - match goal with |- context [dispatchMarker e env rival task ?y] =>
      destruct (dispatchMarker_run env rival task y eq_refl) as [Hc Hr] end.
    rewrite Hc. cbn [fx_calls fx_call fx_put fresh_fx fx_db] in *. split_and!; [by left|done|].
    intros Herr. destruct (Hr Herr) as [? Hau]. split_and!; [done|done|auto].
Qed.

Lemma dispatch_passes_marked taskID ps d calls :
  Forall keeps_markers ps -> is_Some (a2a_dispatch d !! boundTaskID e taskID) ->
  (dispatch_passes e taskID ps d calls).2 = calls.
Proof.
  intros Hps. revert d calls. induction Hps as [|p ps Hp Hps IH]; intros d calls [m Hm]; [done|]. cbn [dispatch_passes]. cbv zeta.
  assert (a2a_dispatch (ps_before p d) !! boundTaskID e taskID = Some m) as Hm'
    by (by eapply lookup_weaken; [|apply Hp]).
  destruct (dispatch_marked (ps_ports p) (ps_env p) (ps_rival p) taskID (ps_before p d) calls m Hm') as [Hd Hc].
  rewrite Hd, Hc. apply IH. by eexists.
Qed.
End dispatch.

(** Submit, then mark, and never twice. A dispatch pass over a marked task
    makes no physical call and writes nothing. Over an unmarked one it submits at
    most once; a refused submit leaves the database as it was, so the next pass
    submits again; and a pass that ends without an error leaves the marker behind
    a submit that was accepted when a dispatcher is wired, and, when no one raced it, exactly
    one a2a_dispatched row. From then on no pass submits the task again, whatever
    ports, faults and concurrent commits those passes meet. *)
Theorem dispatch_submit_then_mark e ports env rival taskID d calls :
  let task := boundTaskID e taskID in
  let x := Dispatch e ports env rival taskID true (fresh_fx d calls) in
  (is_Some (a2a_dispatch d !! task) -> fx_db x = d /\ fx_calls x = calls) /\
  (a2a_dispatch d !! task = None ->
     (fx_calls x = calls \/ fx_calls x = calls ++ [PSubmit task (pe_run e)]) /\
     (forall f, dispatcher ports = Some f -> f task (pe_run e) = false -> fx_db x = d /\ is_Some (fx_err x)) /\
     (fx_err x = None ->
        (forall f, dispatcher ports = Some f ->
           f task (pe_run e) = true /\ fx_calls x = calls ++ [PSubmit task (pe_run e)]) /\
        (rival = id -> audits (fx_db x) = audits d ++ [effect_row e "a2a_dispatched" StepDispatching]) /\
        forall ps later, Forall keeps_markers ps ->
          (dispatch_passes e taskID ps (fx_db x) later).2 = later)).
Proof.
  intros task x. split.
  - intros [m Hm]. exact (dispatch_marked e ports env rival taskID d calls m Hm).
  - intros Hm. destruct (dispatch_unmarked e ports env rival taskID d calls Hm) as (H1 & H2 & H3).
    split_and!; [exact H1|exact H2|]. intros Herr. destruct (H3 Herr) as (Hs & Hf & Ha).
    split_and!; [exact Hf|exact Ha|]. intros ps later Hps. by apply dispatch_passes_marked.
Qed.

Definition sample_effects : ProdEffects :=
  {| pe_item := "i1"; pe_run := "run-7"; pe_principal := "agent"; pe_initiatedBy := "" |}.

Definition sample_ports : Ports :=
  {| binder := Some (fun _ => Some "pod-1"); dispatcher := Some (fun _ _ => true); snapshotter := None;
     credWriter := None; refObserver := None |}.

Lemma dispatch_submit_then_mark_witness :
  let x := Dispatch sample_effects sample_ports (quiet 300) id "run-1#lap2" true (fresh_fx claimed_sample []) in
  fx_calls x = [PSubmit "run-7#lap2" "run-7"] /\ (dispatch_passes sample_effects "run-1#lap2"
    [{| ps_before := id; ps_ports := sample_ports; ps_env := quiet 400; ps_rival := id |}] (fx_db x) []).2 = [].
Proof.
  destruct (dispatch_submit_then_mark sample_effects sample_ports (quiet 300) id "run-1#lap2" claimed_sample [])
    as [_ H].
  destruct H as (_ & _ & H); [vm_compute; reflexivity|].
  destruct H as (_ & _ & H); [vm_compute; reflexivity|].
  split; [vm_compute; reflexivity|]. apply H. constructor; [|constructor]. intros d. reflexivity.
Defined.

(** Two leaders that both find no marker: the loser's insert is a no-op, and it
    records sandbox_bound all the same. *)
Lemma bind_race_audits_twice :
  let winner d := fx_db (bindMarker sample_effects (quiet 300) id "pod-1" (fresh_fx d [])) in
  let x := BindSandbox sample_effects sample_ports (quiet 300) winner RunID true (fresh_fx claimed_sample []) in
  filter (fun r => au_event r = "sandbox_bound") (audits (fx_db x)) =
    [effect_row sample_effects "sandbox_bound" StepClaimingSandbox;
     effect_row sample_effects "sandbox_bound" StepClaimingSandbox].
Proof. vm_compute. reflexivity. Qed.
