(* ===== verification/HandoffProps.v ===== *)
(** Properties of the hand-off and of the coordinator's dispatch. *)
From S2P Require Import Prelude Machine CoordDb CoordTx Handoff Custody.
Open Scope Z_scope.
Open Scope k8s_scope.

(** * Strings and artifacts *)

Lemma substring_full s : String.substring 0 (String.length s) s = s.
Proof. induction s as [|a s IH]; cbn; [done|]. by rewrite IH. Qed.

Lemma append_cons a s1 s2 : String a s1 +:+ s2 = String a (s1 +:+ s2).
Proof. reflexivity. Qed.

Lemma length_append s1 s2 : String.length (s1 +:+ s2) = (String.length s1 + String.length s2)%nat.
Proof. induction s1 as [|a s1 IH]; [done|]. rewrite append_cons. cbn. by rewrite IH. Qed.

Lemma substring_skip p k s : String.substring (String.length p) k (p +:+ s) = String.substring 0 k s.
Proof. induction p as [|a p IH]; [done|]. rewrite append_cons. cbn. exact IH. Qed.

Lemma prefix_append p s : String.prefix p (p +:+ s) = true.
Proof.
  induction p as [|a p IH]; [by destruct s|]. rewrite append_cons. cbn. by destruct (Ascii.ascii_dec a a).
Qed.

Lemma handoff_uri_prefix id : String.prefix AuditHandoffURI (handoff_uri id) = true.
Proof. apply prefix_append. Qed.

Lemma handoff_uri_id id :
  String.substring (String.length AuditHandoffURI)
    (String.length (handoff_uri id) - String.length AuditHandoffURI) (handoff_uri id) = pretty id.
Proof.
  unfold handoff_uri. rewrite length_append, substring_skip.
  replace (_ + _ - _)%nat with (String.length (pretty id : string)) by lia. apply substring_full.
Qed.

Lemma same_key_spec item run kind a :
  same_key item run kind a = true <-> ar_item a = item /\ ar_run a = run /\ ar_kind a = kind.
Proof. unfold same_key. rewrite !andb_true_iff, !bool_decide_eq_true. tauto. Qed.

(** After the upsert the key's rows, and they alone, carry the new uri and digest. *)
Lemma upsert_artifact_elem a l b :
  b ∈ upsert_artifact a l ->
  (same_key (ar_item a) (ar_run a) (ar_kind a) b = true /\ ar_uri b = ar_uri a /\ ar_sha256 b = ar_sha256 a) \/
  (same_key (ar_item a) (ar_run a) (ar_kind a) b = false /\ b ∈ l).
Proof.
  unfold upsert_artifact. destruct (existsb _ l) eqn:E.
  - intros (c & -> & Hc)%list_elem_of_fmap. destruct (same_key _ _ _ c) eqn:Hk; [left|right; auto].
    apply same_key_spec in Hk as (?&?&?). split_and!; [|done..]. by apply same_key_spec.
  - intros [Hb| ->%list_elem_of_singleton]%elem_of_app.
    + right. split; [|done]. destruct (same_key _ _ _ b) eqn:Hk; [|done].
      assert (existsb (same_key (ar_item a) (ar_run a) (ar_kind a)) l = true); [|congruence].
      apply existsb_exists. exists b. by rewrite <- list_elem_of_In.
    + left. split_and!; [by apply same_key_spec|done..].
Qed.

Lemma upsert_artifact_present a l :
  exists b, b ∈ upsert_artifact a l /\ same_key (ar_item a) (ar_run a) (ar_kind a) b = true /\
    ar_uri b = ar_uri a /\ ar_sha256 b = ar_sha256 a.
Proof.
  unfold upsert_artifact. destruct (existsb _ l) eqn:E.
  - apply existsb_exists in E as (c & Hc & Hk). rewrite <- list_elem_of_In in Hc.
    exists (repoint (ar_uri a) (ar_sha256 a) c). split_and!; [|by apply same_key_spec in Hk; apply same_key_spec|done..].
    apply list_elem_of_fmap. exists c. by rewrite Hk.
  - exists a. split_and!; [|by apply same_key_spec|done..]. apply elem_of_app. right. by apply list_elem_of_singleton.
Qed.

Section handoff.
Context (marshal : HandoffDoc -> string) (unmarshal : string -> option HandoffDoc).
Context (jsonb : string -> string) (sha256 : string -> string) (bigint : string -> option Z).

Definition handoff_artifact (env : TxEnv) (item run uri sha : string) : ArtifactRow :=
  {| ar_item := item; ar_run := run; ar_kind := HandoffKind; ar_uri := uri; ar_sha256 := sha;
     ar_meta := Doc "{}"; ar_at := tx_now env |}.

Definition handed_off (env : TxEnv) (item principal run by_ : string) (fence : Z) (doc : HandoffDoc) (d : Db) : Db :=
  let canonical := jsonb (marshal doc) in
  let uri := handoff_uri (Z.of_nat (length (audits d)) + 1) in
  set_artifacts (upsert_artifact (handoff_artifact env item run uri (sha256 canonical)) (artifacts d))
    (add_audit (handoff_row item principal run by_ canonical fence) d).

Lemma WriteHandoff_ok env item principal run by_ fence doc d d' res :
  WriteHandoff marshal jsonb sha256 env item principal run by_ fence doc d = (d', Ok res) ->
  custodian item principal run fence (clock env "audit") d = true /\
  custodian item principal run fence (clock env "artifact") d = true /\
  d' = handed_off env item principal run by_ fence doc d /\
  res = {| AuditLogID := Z.of_nat (length (audits d)) + 1;
           URI := handoff_uri (Z.of_nat (length (audits d)) + 1); SHA256 := sha256 (jsonb (marshal doc)) |}.
Proof.
  unfold WriteHandoff. case_bool_decide; [done|]. intros HW. apply runTx_ok in HW as [HW|[HW _]]; revert HW;
    unfold writeTx, tbind, stmt; (destruct (faulty env "audit"); [done|]);
    (destruct (custodian item principal run fence (clock env "audit") d) eqn:H1; [|done]);
    (destruct (faulty env "artifact"); [done|]);
    change (custodian item principal run fence (clock env "artifact") (add_audit _ d))
      with (custodian item principal run fence (clock env "artifact") d);
    (destruct (custodian item principal run fence (clock env "artifact") d) eqn:H2; [|done]); [|done].
  intros [= <- <-]. done.
Qed.

Lemma content_of_record env uri id d row canonical :
  uri = handoff_uri id -> bigint (pretty id) = Some id -> faulty env "content" = false ->
  audit_row id d = Some row -> au_payload row = Doc canonical ->
  (exists a, a ∈ artifacts d /\ ar_uri a = uri /\ ar_sha256 a = sha256 canonical) ->
  AuditHandoffContent sha256 bigint env uri d = Ok canonical.
Proof.
  intros -> Hb Hf Hrow Hp (a & Ha & Hu & Hs). unfold AuditHandoffContent.
  rewrite handoff_uri_prefix. cbn [negb]. cbv zeta. rewrite handoff_uri_id, Hf, Hb, Hrow, Hp. cbn [payload_text].
  assert (sha256 canonical ∈ ar_sha256 <$> filter (fun a => ar_uri a = handoff_uri id) (artifacts d)) as Hin.
  { apply list_elem_of_fmap. exists a. split; [done|]. by apply list_elem_of_filter. }
  rewrite bool_decide_eq_false_2 by (by intros E; rewrite E in Hin; apply not_elem_of_nil in Hin).
  by rewrite bool_decide_eq_true_2.
Qed.

Lemma audit_row_last d r : audit_row (Z.of_nat (length (audits d)) + 1) (add_audit r d) = Some r.
Proof.
  unfold audit_row. case_match eqn:E; [apply Z.ltb_lt in E; lia|]. cbn.
  rewrite lookup_app_r by lia. replace (Z.to_nat _ - length (audits d))%nat with 0%nat by lia. done.
Qed.

Lemma audit_row_prefix id d d' r :
  audits d `prefix_of` audits d' -> audit_row id d = Some r -> audit_row id d' = Some r.
Proof. unfold audit_row. intros Hp. case_match; [done|]. intros H1. by eapply prefix_lookup_Some. Qed.

Lemma find_handoff_skip content l1 a l2 :
  Forall (fun r => rf_kind r <> HandoffKind) l1 -> rf_kind a = HandoffKind ->
  find_handoff unmarshal content (l1 ++ a :: l2) = find_handoff unmarshal content (a :: l2).
Proof.
  intros Hl Ha. induction Hl as [|r l Hr Hl IH]; [done|]. cbn [app find_handoff]. by rewrite bool_decide_eq_false_2.
Qed.

(** The read finds the item's hand-off when it has just one uri and digest. *)
Lemma find_handoff_of content uri l :
  (forall r, r ∈ l -> rf_kind r = HandoffKind -> rf_uri r = uri) -> (exists r, r ∈ l /\ rf_kind r = HandoffKind) ->
  find_handoff unmarshal content l =
    match content uri with
    | Err e => Err (Resolve uri e)
    | Ok raw => match unmarshal raw with Some doc => Ok (Some doc) | None => Err (Parse uri) end
    end.
Proof.
  intros Hall Hex. induction l as [|r l IH].
  - destruct Hex as (? & H & _). by apply not_elem_of_nil in H.
  - cbn [find_handoff]. case_bool_decide as Hk.
    + rewrite (Hall r) by (done || left). done.
    + apply IH; [intros; apply Hall; [by right|done]|]. destruct Hex as (r' & [->|Hr']%elem_of_cons & Hk'); [done|eauto].
Qed.

Lemma item_artifacts_elem item d r :
  r ∈ item_artifacts item d <-> exists a, a ∈ artifacts d /\ ar_item a = item /\
    r = {| rf_kind := ar_kind a; rf_uri := ar_uri a; rf_sha256 := ar_sha256 a |}.
Proof.
  unfold item_artifacts, by_time. rewrite list_elem_of_fmap. setoid_rewrite merge_sort_Permutation.
  split.
  - intros (a & -> & [Hi Ha]%list_elem_of_filter). eauto.
  - intros (a & Ha & Hi & ->). exists a. split; [done|]. by apply list_elem_of_filter.
Qed.
End handoff.

(** A hand-off is read back as written. An accepted write was made by the live
    holder at its fence, and changes neither claims nor items. The uri it answers
    resolves to the stored document, now and in every later state that keeps the
    audit rows and still registers the pair; a coordinator that reads the item,
    when no other run has left a hand-off on it, gets that document parsed, or an
    error when it does not parse, never a silent absence. And the resolver fails
    closed: what it returns hashes to a digest registered at the uri. *)
Theorem handoff_roundtrip marshal unmarshal jsonb sha256 bigint env item principal run by_ fence doc d d' res :
  WriteHandoff marshal jsonb sha256 env item principal run by_ fence doc d = (d', Ok res) ->
  bigint (pretty (AuditLogID res)) = Some (AuditLogID res) ->
  let canonical := jsonb (marshal doc) in
  let content env' d2 uri := AuditHandoffContent sha256 bigint env' uri d2 in
  (custodian item principal run fence (clock env "audit") d = true /\ claims d' = claims d /\ items d' = items d) /\
  (forall d2 env', audits d' `prefix_of` audits d2 -> faulty env' "content" = false ->
     (exists a, a ∈ artifacts d2 /\ ar_uri a = URI res /\ ar_sha256 a = SHA256 res) ->
     content env' d2 (URI res) = Ok canonical) /\
  (forall env', (forall label, faulty env' label = false) ->
     is_Some (items d !! item) ->
     (forall a, a ∈ artifacts d -> ar_item a = item -> ar_kind a = HandoffKind -> ar_run a = run) ->
     match ReadHandoff unmarshal env' (Some (content env' d')) item d' with
     | Ok v => CompletingRunID v = run /\ is_Some (unmarshal canonical) /\ Handoff v = unmarshal canonical
     | Err e => unmarshal canonical = None /\ e = Parse (URI res)
     end) /\
  (forall d2 env' uri payload, content env' d2 uri = Ok payload ->
     exists a, a ∈ artifacts d2 /\ ar_uri a = uri /\ ar_sha256 a = sha256 payload).
Proof.
  intros H Hb canonical content. pose proof H as H'.
  apply WriteHandoff_ok in H' as (Hc1 & Hc2 & Hd' & ->). cbn [AuditLogID URI SHA256] in *.
  set (id := Z.of_nat (length (audits d)) + 1) in *.
  assert (forall d2 env', audits d' `prefix_of` audits d2 -> faulty env' "content" = false ->
     (exists a, a ∈ artifacts d2 /\ ar_uri a = handoff_uri id /\ ar_sha256 a = sha256 canonical) ->
     content env' d2 (handoff_uri id) = Ok canonical) as Hcontent.
  { intros d2 env' Hp Hf Ha.
    apply (content_of_record sha256 bigint env' _ id d2 (handoff_row item principal run by_ canonical fence));
      [done|exact Hb|done| |done|done].
    apply (audit_row_prefix _ d'); [done|]. subst d'. apply audit_row_last. }
  split_and!; [done|by subst d'..|exact Hcontent| |].
  - intros env' Hf [w Hw] Hothers. unfold ReadHandoff, read. rewrite !Hf. cbn [rbind].
    assert (exists c, claims d !! item = Some c /\ run_id c = Some run) as (c & Hcl & Hrun).
    { unfold custodian in Hc1. destruct (claims d !! item) as [c|]; [|done]. exists c. split; [done|].
      repeat match goal with H : _ && _ = true |- _ => apply andb_true_iff in H as [? ?] end.
      unfold sql_eqb in *. by reflect_bools. }
    assert (items d' !! item = Some w) as -> by (by subst d').
    assert (claims d' !! item = Some c) as -> by (by subst d'). rewrite Hrun.
    set (art := handoff_artifact env item run (handoff_uri id) (sha256 canonical)).
    assert (artifacts d' = upsert_artifact art (artifacts d)) as Hart by (by subst d').
    rewrite (find_handoff_of unmarshal _ (handoff_uri id)).
    + assert (content env' d' (handoff_uri id) = Ok canonical) as ->.
      { apply Hcontent; [done|apply Hf|]. rewrite Hart.
        destruct (upsert_artifact_present art (artifacts d)) as (b & ? & _ & ? & ?). by exists b. }
      destruct (unmarshal canonical) as [doc'|] eqn:Hu; cbn; [|done]. split_and!; [done|by eexists|done].
    + intros r (a & Ha & Hi & ->)%item_artifacts_elem Hk. cbn in *. rewrite Hart in Ha.
      apply upsert_artifact_elem in Ha as [(_ & -> & _)|[Hn Ha]]; [done|].
      exfalso. apply not_true_iff_false in Hn. apply Hn. apply same_key_spec.
      split_and!; [done|cbn; by apply Hothers|done].
    + destruct (upsert_artifact_present art (artifacts d)) as (b & Hin & Hk & _).
      apply same_key_spec in Hk as (Hi & _ & Hk).
      eexists. split; [apply item_artifacts_elem; exists b; rewrite Hart; split_and!; [done|done|reflexivity]|done].
  - intros d2 env' uri payload. unfold content, AuditHandoffContent. cbv zeta.
    repeat (case_match; try done); intros [= <-]; reflect_bools.
    match goal with H : sha256 _ ∈ _ |- _ => apply list_elem_of_fmap in H as (b & -> & [Hu Hb2]%list_elem_of_filter) end.
    by exists b.
Qed.

(** * The dispatch *)

Definition next_item (env : TxEnv) (w : ItemRow) (dec : DispatchDecision) : ItemRow :=
  {| it_project := it_project w; it_team := it_team w;
     it_parent := if ParentToSource dec then Some (SourceWorkItemID dec) else None;
     it_title := Title dec; it_body := Body dec; it_state := "todo"; it_blocked := None; it_source := "board";
     it_created_by := CoordinatorPrincipal dec; it_created_at := tx_now env; it_updated_at := tx_now env;
     it_requested := None |}.

(** The completion evidence the record holds. *)
Definition completed_by (source run : string) (w : ItemRow) (d : Db) : Prop :=
  items d !! source = Some w /\ it_state w = "done" /\ (claims d !! source ≫= run_id) = Some run.

Lemma dispatchTx_cases fresh dec env d :
  let key := dedupe_key (SourceWorkItemID dec) (SourceRunID dec) in
  match dispatchTx fresh dec env d with
  | inl (d', r) => r = {| CreatedWorkItemID := fresh; AlreadyDispatched := false |} /\
      dispatches d !! key = None /\ items d !! fresh = None /\ claims d !! fresh = None /\
      exists w row, completed_by (SourceWorkItemID dec) (SourceRunID dec) w d /\
        au_event row = "coordinator_dispatched" /\ au_fence row = None /\
        items d' = <[fresh := next_item env w dec]> (items d) /\ claims d' = <[fresh := unheld]> (claims d) /\
        audits d' = audits d ++ [row] /\
        dispatches d' = <[key := {| source_item := SourceWorkItemID dec; source_run := SourceRunID dec;
          created_item := fresh; coordinator_principal := CoordinatorPrincipal dec |}]> (dispatches d)
  | inr (Ok r) => exists m w, dispatches d !! key = Some m /\
      completed_by (SourceWorkItemID dec) (SourceRunID dec) w d /\
      r = {| CreatedWorkItemID := created_item m; AlreadyDispatched := true |}
  | inr (Err e) => match e with
      | ErrSourceNotComplete => exists w, items d !! SourceWorkItemID dec = Some w /\ it_state w <> "done"
      | ErrCompletingRunMismatch names asserts => names <> asserts /\ asserts = SourceRunID dec /\
          (claims d !! SourceWorkItemID dec ≫= run_id) = Some names
      | _ => True
      end
  end.
Proof.
  intros key. unfold dispatchTx, query, exec, tbind, stmt, tret.
  destruct (faulty env "read source"); [done|].
  destruct (items d !! SourceWorkItemID dec) as [w|] eqn:Hw; [|done].
  destruct (claims d !! SourceWorkItemID dec) as [c|] eqn:Hc; [|done].
  destruct (run_id c) as [run|] eqn:Hr; [|done].
  case_bool_decide as Hst; cbn [negb]; [|cbn; eauto].
  case_bool_decide as Hrun; cbn [negb]; [|cbn; by rewrite ?Hr].
  subst run. assert (completed_by (SourceWorkItemID dec) (SourceRunID dec) w d) as Hcomp
    by (split_and!; [done|done|by rewrite Hc]).
  destruct (faulty env "create next item"); [done|].
  destruct (items d !! fresh) as [?|] eqn:Hfi; [done|]. destruct (claims d !! fresh) as [?|] eqn:Hfc; [done|].
  cbn [negb]. destruct (faulty env "marker"); [done|]. cbn [dispatches insert_item put_claim set_claims set_items].
  fold key. destruct (dispatches d !! key) as [m|] eqn:Hm.
  - destruct (faulty env "read existing"); [done|]. cbn. eauto.
  - destruct (faulty env "audit"); [done|]. split_and!; try done. by exists w, (
      {| au_item := SourceWorkItemID dec; au_run := Some (SourceRunID dec); au_event := "coordinator_dispatched";
         au_principal := CoordinatorPrincipal dec; au_initiator := None; au_fence := None; au_from := Some "done";
         au_to := Some "todo";
         au_payload := Fields [("source_work_item_id", FStr (SourceWorkItemID dec));
           ("source_run_id", FStr (SourceRunID dec)); ("created_work_item_id", FStr fresh);
           ("dedupe_key", FStr key); ("advisory_followed", FBool (AdvisoryFollowed dec))] |}).
Qed.

(** One next item per completion, without custody. A dispatch that answers a
    fresh item found the source done by the asserted run, and adds exactly: the
    coordinator's own item in todo with an unheld claim at fence zero, the marker
    and one audit row that carries no fence; the source's claim is as it was. An
    answer of an earlier dispatch changes nothing and names the item the marker
    holds, and a refusal is the record's: not done, or completed by another run.
    After a dispatch, through any sequence of production writes, every dispatch of
    the same source and run that answers, answers the item of the first. *)
Theorem dispatch_next_once interval sha256 marshal jsonb env fresh dec d :
  let key := dedupe_key (SourceWorkItemID dec) (SourceRunID dec) in
  let r := DispatchNextOfRecord env fresh dec d in
  (match r.2 with
   | Ok o => if AlreadyDispatched o
             then r.1 = d /\ created_item <$> dispatches d !! key = Some (CreatedWorkItemID o)
             else CreatedWorkItemID o = fresh /\ claims d !! fresh = None /\
               exists w row, completed_by (SourceWorkItemID dec) (SourceRunID dec) w d /\ au_fence row = None /\
                 items r.1 = <[fresh := next_item env w dec]> (items d) /\
                 claims r.1 = <[fresh := unheld]> (claims d) /\ audits r.1 = audits d ++ [row] /\
                 created_item <$> dispatches r.1 !! key = Some fresh
   | Err ErrSourceNotComplete =>
       r.1 = d /\ exists w, items d !! SourceWorkItemID dec = Some w /\ it_state w <> "done"
   | Err (ErrCompletingRunMismatch names asserts) => r.1 = d /\ names <> asserts
   | Err _ => landed env = false -> r.1 = d
   end) /\
  (forall o, r.2 = Ok o -> forall d2 env2 fresh2 dec2 o2,
     rtc (writes interval sha256 marshal jsonb) r.1 d2 ->
     SourceWorkItemID dec2 = SourceWorkItemID dec -> SourceRunID dec2 = SourceRunID dec ->
     (DispatchNextOfRecord env2 fresh2 dec2 d2).2 = Ok o2 ->
     CreatedWorkItemID o2 = CreatedWorkItemID o /\ AlreadyDispatched o2 = true).
Proof.
  intros key r. assert (forall env fresh dec d,
    let key := dedupe_key (SourceWorkItemID dec) (SourceRunID dec) in
    let r := DispatchNextOfRecord env fresh dec d in
    match r.2 with
    | Ok o => if AlreadyDispatched o
              then r.1 = d /\ created_item <$> dispatches d !! key = Some (CreatedWorkItemID o)
              else CreatedWorkItemID o = fresh /\ claims d !! fresh = None /\ dispatches d !! key = None /\
                exists w row, completed_by (SourceWorkItemID dec) (SourceRunID dec) w d /\ au_fence row = None /\
                  items r.1 = <[fresh := next_item env w dec]> (items d) /\
                  claims r.1 = <[fresh := unheld]> (claims d) /\ audits r.1 = audits d ++ [row] /\
                  created_item <$> dispatches r.1 !! key = Some fresh
    | Err ErrSourceNotComplete =>
        r.1 = d /\ exists w, items d !! SourceWorkItemID dec = Some w /\ it_state w <> "done"
    | Err (ErrCompletingRunMismatch names asserts) => r.1 = d /\ names <> asserts
    | Err _ => landed env = false -> r.1 = d
    end) as Hone.
  { clear. intros env fresh dec d key r. subst r. unfold DispatchNextOfRecord. case_bool_decide; [done|].
    pose proof (dispatchTx_cases fresh dec env d) as Hc. cbv zeta in Hc. fold key in Hc. unfold runTx.
    destruct (faulty env "begin"); [done|]. destruct (dispatchTx fresh dec env d) as [[d' o]|[o|e]].
    - destruct Hc as (-> & Hk & Hfi & Hfc & w & row & Hcomp & _ & Hf & Hi & Hcl & Ha & Hd).
      destruct (faulty env "commit"); cbn; [by intros ->|]. split_and!; [done..|]. exists w, row.
      split_and!; [done..|]. by rewrite Hd, lookup_insert_eq.
    - destruct Hc as (m & w & Hm & _ & ->). cbn. by rewrite Hm.
    - cbn. destruct e; try done. by destruct Hc as (? & _). }
  split.
  - specialize (Hone env fresh dec d). cbv zeta in Hone. fold key r in Hone.
    destruct r.2 as [o|e]; [|done]. destruct (AlreadyDispatched o); [done|].
    by destruct Hone as (? & ? & _ & ?).
  - intros o Ho d2 env2 fresh2 dec2 o2 Hd2 Hs Hr2 Ho2.
    assert (created_item <$> dispatches r.1 !! key = Some (CreatedWorkItemID o)) as Hm.
    { specialize (Hone env fresh dec d). cbv zeta in Hone. fold key r in Hone. rewrite Ho in Hone.
      destruct (AlreadyDispatched o); [by destruct Hone as (-> & ?)|].
      by destruct Hone as (-> & _ & _ & _ & _ & _ & _ & _ & _ & _ & ?). }
    assert (dispatches r.1 ⊆ dispatches d2) as Hsub.
    { apply (rtc_keeps _ (fun d' => lawful r.1 d')) with (2 := Hd2); [|done].
      apply writes_stable; [apply lawful_stable|apply lawful_marker_stable|apply lawful_hold_stable]. }
    destruct (dispatches r.1 !! key) as [m|] eqn:Hk; [|done]. cbn in Hm.
    specialize (Hone env2 fresh2 dec2 d2). cbv zeta in Hone. rewrite Ho2, Hs, Hr2 in Hone. fold key in Hone.
    pose proof (lookup_weaken _ _ _ _ Hk Hsub) as Hk2. rewrite Hk2 in Hone.
    destruct (AlreadyDispatched o2); [|by destruct Hone as (_ & _ & ? & _)].
    destruct Hone as (_ & Hc). cbn in Hc. split; [congruence|done].
Qed.

(** * Two edges of the read

    The read takes the item's oldest hand-off, whichever run left it; and an item
    finished without a claim reads as an infrastructure failure. *)

Definition doc_of (s : string) : HandoffDoc :=
  {| Did := []; Decisions := []; Next := []; Blockers := []; Findings := s; RecommendedNext := [];
     ArtifactsForDownstream := [] |}.

Definition handoff_row_at (run uri : string) (t : Z) : ArtifactRow :=
  {| ar_item := "i1"; ar_run := run; ar_kind := HandoffKind; ar_uri := uri; ar_sha256 := ""; ar_meta := Doc "{}";
     ar_at := t |}.

Definition finished_by (run : option string) (arts : list ArtifactRow) : Db :=
  set_artifacts arts (put_claim "i1"
    {| holder_principal := None; run_id := run; fence_token := 4; lease_expires_at := None; acquired_at := None;
       renewed_at := None; initiated_by := None; assignee_agent := None; reconcile_step := StepSucceeded;
       reclaim_fenced_at := None |} (sample_db "done")).

Lemma read_takes_the_oldest_handoff :
  ReadHandoff (fun s => Some (doc_of s)) (quiet 500) (Some (fun uri => Ok uri)) "i1"
    (finished_by (Some "run-8") [handoff_row_at "run-7" "first" 1; handoff_row_at "run-8" "second" 2])
  = Ok {| SourceItemID := "i1"; State := "done"; CompletingRunID := "run-8"; Comments := [];
          Artifacts := [{| rf_kind := HandoffKind; rf_uri := "first"; rf_sha256 := "" |};
                        {| rf_kind := HandoffKind; rf_uri := "second"; rf_sha256 := "" |}];
          Handoff := Some (doc_of "first") |}.
Proof. vm_compute. reflexivity. Qed.

Lemma finished_unclaimed_is_a_failure env fresh dec :
  (forall label, faulty env label = false) -> CoordinatorPrincipal dec <> "" -> Title dec <> "" ->
  SourceWorkItemID dec = "i1" -> SourceRunID dec <> "" ->
  ReadHandoff (fun s => Some (doc_of s)) env None "i1" (finished_by None []) = Err NullRun /\
  (DispatchNextOfRecord env fresh dec (finished_by None [])).2 = Err (Infra "read source").
Proof.
  intros Hf Hc Ht Hs Hr. split.
  - unfold ReadHandoff, read. rewrite Hf. reflexivity.
  - unfold DispatchNextOfRecord. rewrite bool_decide_eq_false_2 by (rewrite Hs; set_solver).
    unfold runTx. rewrite Hf. unfold dispatchTx, query, tbind, stmt. rewrite Hf, Hs. reflexivity.
Qed.

(** * Witnesses *)

Definition two_only (s : string) : option Z := if bool_decide (s = "2") then Some 2 else None.

Lemma handoff_roundtrip_witness :
  let d' := (WriteHandoff (fun _ => "{}") id id (quiet 110) "i1" "agent" "run-7" "" 1 (doc_of "") claimed_sample).1 in
  AuditHandoffContent id two_only (quiet 120) "coord+audit://2" d' = Ok "{}".
Proof.
  destruct (handoff_roundtrip (fun _ => "{}") (fun s => Some (doc_of s)) id id two_only (quiet 110) "i1" "agent" "run-7"
    "" 1 (doc_of "") claimed_sample
    (WriteHandoff (fun _ => "{}") id id (quiet 110) "i1" "agent" "run-7" "" 1 (doc_of "") claimed_sample).1
    {| AuditLogID := 2; URI := "coord+audit://2"; SHA256 := "{}" |}) as (_ & H & _).
  - vm_compute. reflexivity.
  - vm_compute. reflexivity.
  - apply (H _ (quiet 120)); [reflexivity|reflexivity|].
    exists (handoff_artifact (quiet 110) "i1" "run-7" "coord+audit://2" "{}").
    split; [|split; reflexivity].
    apply list_elem_of_singleton. vm_compute. reflexivity.
Defined.

Definition sample_decision : DispatchDecision :=
  {| CoordinatorPrincipal := "lead"; SourceWorkItemID := "i1"; SourceRunID := "run-8"; Title := "next"; Body := "";
     AdvisoryFollowed := false; ParentToSource := true |}.

Lemma dispatch_next_once_witness :
  let d1 := (DispatchNextOfRecord (quiet 500) "i2" sample_decision (finished_by (Some "run-8") [])).1 in
  (DispatchNextOfRecord (quiet 600) "i3" sample_decision d1).2
    = Ok {| CreatedWorkItemID := "i2"; AlreadyDispatched := true |}.
Proof.
  intros d1.
  destruct (dispatch_next_once (fun _ => 30) id (fun _ => "") id (quiet 500) "i2" sample_decision
    (finished_by (Some "run-8") [])) as (_ & H).
  destruct (H {| CreatedWorkItemID := "i2"; AlreadyDispatched := false |} ltac:(vm_compute; reflexivity)
    d1 (quiet 600) "i3" sample_decision {| CreatedWorkItemID := "i2"; AlreadyDispatched := true |}
    (rtc_refl _ _) eq_refl eq_refl ltac:(vm_compute; reflexivity)) as (_ & _).
  vm_compute. reflexivity.
Defined.
