(* ===== verification/EndpointGateProps.v ===== *)
(** Properties of the endpoint gate: capacity, first-in-first-out admission and
    bounded waiting, over every sequence of acquires and releases. *)
From stdpp Require Import gmap.
From S2P Require Import Prelude EndpointGate.
Open Scope Z_scope.

(** * The inner maps, read through the setters *)

Lemma holders_set_holders ep s g ep' :
  holders_of (set_holders ep s g) ep' = if decide (ep = ep') then s else holders_of g ep'.
Proof.
  unfold holders_of, set_holders. cbn. case_bool_decide as Hs; destruct (decide (ep = ep')) as [<-|Hne].
  - by rewrite lookup_delete_eq, Hs.
  - by rewrite lookup_delete_ne.
  - by rewrite lookup_insert_eq.
  - by rewrite lookup_insert_ne.
Qed.

Lemma waiters_set_waiters ep ws g ep' :
  waiters_of (set_waiters ep ws g) ep' = if decide (ep = ep') then ws else waiters_of g ep'.
Proof.
  unfold waiters_of, set_waiters. cbn. case_bool_decide as Hs; destruct (decide (ep = ep')) as [<-|Hne].
  - by rewrite lookup_delete_eq, Hs.
  - by rewrite lookup_delete_ne.
  - by rewrite lookup_insert_eq.
  - by rewrite lookup_insert_ne.
Qed.

Lemma waiters_dropWaiter ep run g ep' :
  waiters_of (dropWaiter ep run g) ep' =
    if decide (ep = ep') then delete run (waiters_of g ep) else waiters_of g ep'.
Proof.
  unfold dropWaiter. destruct (waiters g !! ep) as [ws|] eqn:E.
  - rewrite waiters_set_waiters. unfold waiters_of. rewrite E. done.
  - unfold waiters_of. destruct (decide (ep = ep')) as [<-|]; [|done]. rewrite E. cbn. by rewrite delete_empty.
Qed.

Lemma holders_dropWaiter ep run g ep' : holders_of (dropWaiter ep run g) ep' = holders_of g ep'.
Proof. unfold dropWaiter. by case_match. Qed.

Lemma dropWaiter_rest ep run g :
  g_seq (dropWaiter ep run g) = g_seq g /\ waiterTTL (dropWaiter ep run g) = waiterTTL g /\
  defaultMax (dropWaiter ep run g) = defaultMax g.
Proof. unfold dropWaiter. by case_match. Qed.

Lemma holders_release run g ep : holders_of (ReleaseByRun run g) ep = holders_of g ep ∖ {[run]}.
Proof.
  unfold holders_of, ReleaseByRun. cbn. rewrite lookup_omap. destruct (holders g !! ep) as [hs|]; cbn; [|set_solver].
  repeat case_bool_decide; cbn; set_solver.
Qed.

Lemma waiters_release run g ep : waiters_of (ReleaseByRun run g) ep = delete run (waiters_of g ep).
Proof.
  unfold waiters_of, ReleaseByRun. cbn. rewrite lookup_omap.
  destruct (waiters g !! ep) as [ws|]; cbn; [|by rewrite delete_empty]. by case_bool_decide.
Qed.

(** * The front of the queue *)

Lemma front_from_spec front best l :
  front <> "" -> (forall id w, (id, w) ∈ l -> id <> "") ->
  (front_from front best l = front /\ forall id w, (id, w) ∈ l -> best <= seq w) \/
  (exists w, (front_from front best l, w) ∈ l /\ seq w < best /\ forall id' w', (id', w') ∈ l -> seq w <= seq w').
Proof.
  revert front best. induction l as [|[id w] l IH]; intros front best Hf Hl; cbn.
  - left. split; [done|]. intros id w H. by apply not_elem_of_nil in H.
  - rewrite bool_decide_eq_false_2 by done. cbn [orb].
    assert (id <> "") as Hid by (apply (Hl id w); by left).
    assert (forall id w, (id, w) ∈ l -> id <> "") as Hl' by (intros id' w' H; apply (Hl id' w'); by right).
    destruct (seq w <? best) eqn:E; reflect_bools.
    + right. destruct (IH id (seq w) Hid Hl') as [[-> Hall]|(w1 & Hin & Hlt & Hall)].
      * exists w. split_and!; [by left|done|]. intros id' w' [[= -> ->]|H]%elem_of_cons; [lia|by apply (Hall id')].
      * exists w1. split_and!; [by right|lia|]. intros id' w' [[= -> ->]|H]%elem_of_cons; [lia|by apply (Hall id')].
    + destruct (IH front best Hf Hl') as [[-> Hall]|(w1 & Hin & Hlt & Hall)].
      * left. split; [done|]. intros id' w' [[= -> ->]|H]%elem_of_cons; [done|by apply (Hall id')].
      * right. exists w1. split_and!; [by right|done|]. intros id' w' [[= -> ->]|H]%elem_of_cons; [lia|by apply (Hall id')].
Qed.

Lemma frontWaiter_spec g ep :
  (forall r w, waiters_of g ep !! r = Some w -> r <> "") ->
  (waiters_of g ep = ∅ /\ frontWaiter g ep = "") \/
  (exists w, waiters_of g ep !! frontWaiter g ep = Some w /\
     forall r' w', waiters_of g ep !! r' = Some w' -> seq w <= seq w').
Proof.
  intros Hn. unfold frontWaiter.
  assert (forall id w, (id, w) ∈ map_to_list (waiters_of g ep) <-> waiters_of g ep !! id = Some w) as Hl
    by (intros; apply elem_of_map_to_list).
  destruct (map_to_list (waiters_of g ep)) as [|[id w] l] eqn:E.
  - left. split; [|done]. by apply map_to_list_empty_iff.
  - right. cbn [front_from]. rewrite bool_decide_eq_true_2 by done. cbn [orb].
    assert (id <> "") as Hid by (apply (Hn id w), Hl; by left).
    destruct (front_from_spec id (seq w) l Hid) as [[-> Hall]|(w1 & Hin & Hlt & Hall)].
    { intros id' w' H. apply (Hn id' w'), Hl. by right. }
    + exists w. split; [apply Hl; by left|]. intros r' w' [[= -> ->]|H]%Hl%elem_of_cons; [lia|by apply (Hall r')].
    + exists w1. split; [apply Hl; by right|]. intros r' w' [[= -> ->]|H]%Hl%elem_of_cons; [lia|by apply (Hall r')].
Qed.

Lemma anyKey_spec (s : gset string) : (s = ∅ /\ anyKey s = "") \/ anyKey s ∈ s.
Proof.
  unfold anyKey. destruct (elements s) as [|x l] eqn:E.
  - left. split; [|done]. by apply elements_empty_inv, leibniz_equiv in E.
  - right. cbn. apply elem_of_elements. rewrite E. by left.
Qed.

(** * The invariant *)

Record gate_ok (g : EndpointGate) : Prop := {
  go_seq : 0 <= g_seq g < 2 ^ 64;
  go_waiters : forall ep r w, waiters_of g ep !! r = Some w -> r <> "" /\ seq w <= g_seq g;
  go_distinct : forall ep r1 w1 r2 w2, waiters_of g ep !! r1 = Some w1 -> waiters_of g ep !! r2 = Some w2 ->
    seq w1 = seq w2 -> r1 = r2;
  go_holders : forall ep r, r ∈ holders_of g ep -> r <> "" /\ waiters_of g ep !! r = None;
  go_default : 1 <= defaultMax g;
}.

(** A waiter that has polled within the TTL. *)
Definition live (g : EndpointGate) (now : Z) (w : endpointWaiter) : Prop := now - lastSeen w <= waiterTTL g.

#[local] Instance live_dec g now w : Decision (live g now w).
Proof. unfold live. apply _. Defined.

(** The queue of an endpoint once the stale waiters are gone and [run] has its
    place. *)
Definition place (g : EndpointGate) (ep run : string) (now : Z) : endpointWaiter :=
  match waiters_of g ep !! run with
  | Some w => if bool_decide (live g now w) then {| seq := seq w; lastSeen := now |}
              else {| seq := uint64_succ (g_seq g); lastSeen := now |}
  | None => {| seq := uint64_succ (g_seq g); lastSeen := now |}
  end.

Definition queued (g : EndpointGate) (ep run : string) (now : Z) : EndpointGate :=
  registerWaiter ep run now (evictStaleWaiters ep now g).

Lemma evicted_lookup g ep now r w :
  waiters_of (evictStaleWaiters ep now g) ep !! r = Some w <-> waiters_of g ep !! r = Some w /\ live g now w.
Proof.
  unfold evictStaleWaiters. rewrite waiters_set_waiters, decide_True by done.
  rewrite map_lookup_filter_Some. cbn. unfold live. split; intros [? ?]; (split; [done|lia]).
Qed.

Lemma queued_lookup g ep run now r :
  waiters_of (queued g ep run now) ep !! r =
    if decide (r = run) then Some (place g ep run now)
    else match waiters_of g ep !! r with
         | Some w => if decide (live g now w) then Some w else None
         | None => None
         end.
Proof.
  assert (forall r, waiters_of (evictStaleWaiters ep now g) ep !! r =
    match waiters_of g ep !! r with Some w => if decide (live g now w) then Some w else None | None => None end) as Hev.
  { intros r'. destruct (waiters_of g ep !! r') as [w|] eqn:E.
    - case_decide as Hl; [by apply evicted_lookup|].
      destruct (waiters_of (evictStaleWaiters ep now g) ep !! r') as [w'|] eqn:E'; [|done].
      apply evicted_lookup in E' as [? ?]. by simplify_eq.
    - destruct (waiters_of (evictStaleWaiters ep now g) ep !! r') as [w'|] eqn:E'; [|done].
      apply evicted_lookup in E' as [? ?]. simplify_eq. }
  unfold queued, registerWaiter, place. rewrite (Hev run).
  destruct (waiters_of g ep !! run) as [w|] eqn:E; [destruct (decide (live g now w))|];
    rewrite waiters_set_waiters, decide_True by done;
    try (rewrite bool_decide_eq_true_2 by done); try (rewrite bool_decide_eq_false_2 by done);
    (destruct (decide (r = run)) as [->|Hne]; [by rewrite lookup_insert_eq|]);
    rewrite lookup_insert_ne by done; apply Hev.
Qed.

Lemma queued_other g ep run now ep' : ep' <> ep -> waiters_of (queued g ep run now) ep' = waiters_of g ep'.
Proof.
  intros Hne. unfold queued, registerWaiter. assert (waiters_of (evictStaleWaiters ep now g) ep' = waiters_of g ep') as H.
  { unfold evictStaleWaiters. by rewrite waiters_set_waiters, decide_False. }
  case_match; rewrite waiters_set_waiters, decide_False by done; exact H.
Qed.

Lemma queued_holders g ep run now ep' : holders_of (queued g ep run now) ep' = holders_of g ep'.
Proof. unfold queued, registerWaiter. by case_match. Qed.

Lemma uint64_succ_lt n : 0 <= n -> n + 1 < 2 ^ 64 -> uint64_succ n = n + 1.
Proof. intros. unfold uint64_succ. apply Z.mod_small. lia. Qed.

Lemma queued_rest g ep run now :
  waiterTTL (queued g ep run now) = waiterTTL g /\ defaultMax (queued g ep run now) = defaultMax g /\
  (g_seq (queued g ep run now) = g_seq g /\
     (exists w, waiters_of g ep !! run = Some w /\ live g now w /\ seq (place g ep run now) = seq w) \/
   g_seq (queued g ep run now) = uint64_succ (g_seq g) /\ seq (place g ep run now) = uint64_succ (g_seq g) /\
     (forall w, waiters_of g ep !! run = Some w -> ~ live g now w)).
Proof.
  unfold queued, registerWaiter, place.
  destruct (waiters_of (evictStaleWaiters ep now g) ep !! run) as [w|] eqn:E.
  - apply evicted_lookup in E as [E Hl]. rewrite E. split_and!; [done..|]. left. split; [done|].
    rewrite bool_decide_eq_true_2 by done. eauto.
  - assert (forall w, waiters_of g ep !! run = Some w -> ~ live g now w) as Hn.
    { intros w Hw Hl. assert (waiters_of (evictStaleWaiters ep now g) ep !! run = Some w); [|congruence].
      by apply evicted_lookup. }
    split_and!; [done..|]. right. split; [done|]. split; [|done].
    destruct (waiters_of g ep !! run) as [w|]; [|done]. rewrite bool_decide_eq_false_2 by auto. done.
Qed.

Lemma queued_waiter g ep run now ep' r w :
  waiters_of (queued g ep run now) ep' !! r = Some w ->
  (ep' = ep /\ r = run /\ w = place g ep run now) \/
  (waiters_of g ep' !! r = Some w /\ (ep' = ep -> r <> run /\ live g now w)).
Proof.
  destruct (decide (ep' = ep)) as [->|Hne].
  - rewrite queued_lookup. destruct (decide (r = run)) as [->|]; [intros [= <-]; by left|].
    destruct (waiters_of g ep !! r) as [w'|]; [|done]. case_decide; [|done]. intros [= ->]. by right.
  - rewrite queued_other by done. right. split; [done|]. by intros ->.
Qed.

Lemma queued_ok g ep run now :
  gate_ok g -> run <> "" -> run ∉ holders_of g ep -> g_seq g + 1 < 2 ^ 64 ->
  gate_ok (queued g ep run now) /\ g_seq (queued g ep run now) <= g_seq g + 1.
Proof.
  intros [Hs Hw Hd Hh Hdef] Hr Hnh Hlt.
  destruct (queued_rest g ep run now) as (_ & Hdm & Hseq). rewrite (uint64_succ_lt _ (proj1 Hs) Hlt) in Hseq.
  assert (forall ep' r w, waiters_of g ep' !! r = Some w -> seq w <= g_seq (queued g ep run now)) as Hle.
  { intros ep' r w H. destruct (Hw _ _ _ H). destruct Hseq as [[-> _]|[-> _]]; lia. }
  assert (forall r w, waiters_of g ep !! r = Some w -> r <> run -> seq w <> seq (place g ep run now)) as Hfresh.
  { intros r w H Hne He. destruct Hseq as [[_ (w0 & Hw0 & _ & Hp)]|[_ [Hp _]]].
    - apply Hne. apply (Hd ep r w run w0); congruence.
    - destruct (Hw _ _ _ H). lia. }
  split; [|destruct Hseq as [[-> _]|[-> _]]; lia]. split.
  - destruct Hseq as [[-> _]|[-> _]]; lia.
  - intros ep' r w [(-> & -> & ->)|(H & _)]%queued_waiter; [|by split; [apply (Hw ep' r w)|apply (Hle ep' r)]].
    split; [done|]. destruct Hseq as [[-> (w0 & Hw0 & _ & ->)]|[-> [-> _]]]; [by apply (Hw _ _ _ Hw0)|lia].
  - intros ep' r1 w1 r2 w2 H1 H2 He.
    destruct (queued_waiter _ _ _ _ _ _ _ H1) as [(-> & -> & ->)|(H1' & Hn1)];
      destruct (queued_waiter _ _ _ _ _ _ _ H2) as [(E2 & -> & ->)|(H2' & Hn2)]; try done.
    + destruct (Hn2 eq_refl) as [? _]. exfalso. by apply (Hfresh r2 w2).
    + subst ep'. destruct (Hn1 eq_refl) as [? _]. exfalso. by apply (Hfresh r1 w1).
    + by apply (Hd ep' r1 w1 r2 w2).
  - intros ep' r Hin. rewrite queued_holders in Hin. destruct (Hh _ _ Hin) as [? Hn]. split; [done|].
    destruct (waiters_of (queued g ep run now) ep' !! r) as [w|] eqn:E; [|done].
    apply queued_waiter in E as [(-> & -> & _)|(? & _)]; [done|congruence].
  - by rewrite Hdm.
Qed.

Lemma dropWaiter_ok ep run g : gate_ok g -> gate_ok (dropWaiter ep run g).
Proof.
  intros [Hs Hw Hd Hh Hdef]. destruct (dropWaiter_rest ep run g) as (Hq & _ & Hm).
  assert (forall ep' r w, waiters_of (dropWaiter ep run g) ep' !! r = Some w -> waiters_of g ep' !! r = Some w) as Hsub.
  { intros ep' r w. rewrite waiters_dropWaiter. case_decide as He; [subst|done]. by intros [_ ?]%lookup_delete_Some. }
  split.
  - by rewrite Hq.
  - intros ep' r w H. rewrite Hq. by apply (Hw ep'), Hsub.
  - intros ep' r1 w1 r2 w2 H1 H2. by apply (Hd ep'); apply Hsub.
  - intros ep' r. rewrite holders_dropWaiter. intros [? Hn]%Hh. split; [done|].
    destruct (waiters_of (dropWaiter ep run g) ep' !! r) eqn:E; [|done]. apply Hsub in E. congruence.
  - by rewrite Hm.
Qed.

Lemma release_ok run g : gate_ok g -> gate_ok (ReleaseByRun run g).
Proof.
  intros [Hs Hw Hd Hh Hdef]. split.
  - exact Hs.
  - intros ep r w. rewrite waiters_release. intros [_ H]%lookup_delete_Some. exact (Hw ep r w H).
  - intros ep r1 w1 r2 w2. rewrite waiters_release.
    intros [_ H1]%lookup_delete_Some [_ H2]%lookup_delete_Some. by apply (Hd ep).
  - intros ep r. rewrite holders_release, waiters_release. intros [Hin _]%elem_of_difference.
    destruct (Hh _ _ Hin). split; [done|]. by rewrite lookup_delete_None; right.
  - exact Hdef.
Qed.

Lemma granted_ok ep run g :
  gate_ok g -> run <> "" -> gate_ok (set_holders ep ({[run]} ∪ holders_of g ep) (dropWaiter ep run g)).
Proof.
  intros Hg Hr. pose proof (dropWaiter_ok ep run g Hg) as [Hs Hw Hd Hh Hdef]. split; try done.
  intros ep' r. rewrite holders_set_holders. case_decide as He; [subst ep'|apply Hh].
  intros [->%elem_of_singleton|Hin]%elem_of_union.
  - split; [done|]. change (waiters_of (dropWaiter ep run g) ep !! run = None).
    by rewrite waiters_dropWaiter, decide_True, lookup_delete_eq.
  - apply Hh. by rewrite holders_dropWaiter.
Qed.

(** * One acquire *)

(** The answer of an acquire of a run that holds nothing there. *)
Inductive admission (g : EndpointGate) (now : Z) (ep run : string) (max : Z)
    : EndpointGate * (string * bool) -> Prop :=
| admitted : Z.of_nat (size (holders_of g ep)) < max ->
    (forall r w, waiters_of g ep !! r = Some w -> r <> run -> live g now w -> seq (place g ep run now) < seq w) ->
    admission g now ep run max
      (set_holders ep ({[run]} ∪ holders_of g ep) (dropWaiter ep run (queued g ep run now)), (run, true))
| full h : max <= Z.of_nat (size (holders_of g ep)) -> h ∈ holders_of g ep ->
    admission g now ep run max (queued g ep run now, (h, false))
| behind h : Z.of_nat (size (holders_of g ep)) < max ->
    (exists r w, r <> run /\ waiters_of g ep !! r = Some w /\ live g now w /\ seq w < seq (place g ep run now)) ->
    h ∈ holders_of g ep \/
      (holders_of g ep = ∅ /\ h <> run /\ exists w, waiters_of g ep !! h = Some w /\ live g now w /\
         seq w < seq (place g ep run now)) ->
    admission g now ep run max (queued g ep run now, (h, false)).

Lemma slots_pos g n : gate_ok g -> 1 <= slots g n.
Proof. intros [? ? ? ? ?]. unfold slots. case_match eqn:E; reflect_bools; lia. Qed.

Lemma acquire_cases g now ep run n :
  gate_ok g -> run <> "" -> run ∉ holders_of g ep -> g_seq g + 1 < 2 ^ 64 ->
  admission g now ep run (slots g n) (Acquire now ep run n g).
Proof.
  intros Hg Hr Hnh Hlt. destruct (queued_ok g ep run now Hg Hr Hnh Hlt) as [Hq _].
  unfold Acquire. rewrite bool_decide_eq_false_2 by done. fold (queued g ep run now).
  assert (waiters_of (queued g ep run now) ep !! run = Some (place g ep run now)) as Hme
    by (rewrite queued_lookup; by rewrite decide_True).
  assert (forall r w, waiters_of g ep !! r = Some w -> r <> run -> live g now w ->
            waiters_of (queued g ep run now) ep !! r = Some w) as Hin.
  { intros r w Hw Hne Hl. rewrite queued_lookup, decide_False, Hw by done. by rewrite decide_True. }
  destruct (frontWaiter_spec (queued g ep run now) ep) as [[He _]|(wf & Hwf & Hmin)].
  { intros r w Hw. by apply (go_waiters _ Hq ep r w). }
  { rewrite He in Hme. by rewrite lookup_empty in Hme. }
  set (f := frontWaiter (queued g ep run now) ep) in *.
  destruct (Z.of_nat (size (holders_of g ep)) <? slots g n) eqn:Hsz; reflect_bools; cbn [andb].
  - case_bool_decide as Hf.
    + apply admitted; [done|]. intros r w Hw Hne Hl. pose proof (Hmin _ _ (Hin _ _ Hw Hne Hl)) as Hle.
      rewrite Hf, Hme in Hwf. injection Hwf as <-.
      destruct (decide (seq (place g ep run now) = seq w)) as [E|]; [|lia].
      exfalso. apply Hne. symmetry. apply (go_distinct _ Hq ep run _ r w Hme); [by apply Hin|done].
    + assert (exists w, f <> run /\ waiters_of g ep !! f = Some w /\ live g now w /\
                seq w < seq (place g ep run now)) as Hahead.
      { destruct (queued_waiter _ _ _ _ _ _ _ Hwf) as [(_ & ? & _)|(Hw & Hn)]; [done|].
        destruct (Hn eq_refl) as [_ Hl]. exists wf. split_and!; [done..|].
        pose proof (Hmin _ _ Hme) as Hle. destruct (decide (seq wf = seq (place g ep run now))) as [E|]; [|lia].
        exfalso. apply Hf. apply (go_distinct _ Hq ep f wf run _ Hwf Hme E). }
      destruct Hahead as (w & ? & ? & ? & ?).
      destruct (anyKey_spec (holders_of g ep)) as [[He Ha]|Ha].
      * rewrite Ha, bool_decide_eq_true_2 by done. apply behind; [done|by exists f, w|].
        right. split_and!; [done|done|by exists w].
      * rewrite bool_decide_eq_false_2 by (by apply (go_holders _ Hg) in Ha as [? _]).
        apply behind; [done|by exists f, w|by left].
  - assert (anyKey (holders_of g ep) ∈ holders_of g ep) as Ha.
    { destruct (anyKey_spec (holders_of g ep)) as [[He _]|Ha]; [|done]. exfalso.
      rewrite He, size_empty in Hsz. pose proof (slots_pos g n Hg). lia. }
    rewrite bool_decide_eq_false_2 by (by apply (go_holders _ Hg) in Ha as [? _]). by apply full.
Qed.

(** * Executions *)

Inductive gate_op : Type :=
| OpAcquire (now : Z) (ep run : string) (maxConcurrent : Z)
| OpRelease (run : string).

Definition gate_step (op : gate_op) (g : EndpointGate) : EndpointGate :=
  match op with
  | OpAcquire now ep run n => (Acquire now ep run n g).1
  | OpRelease run => ReleaseByRun run g
  end.

Fixpoint gate_run (ops : list gate_op) (g : EndpointGate) : EndpointGate :=
  match ops with
  | [] => g
  | op :: rest => gate_run rest (gate_step op g)
  end.

(** Runs are named by a uid. *)
Definition named (op : gate_op) : Prop :=
  match op with OpAcquire _ _ run _ => run <> "" | OpRelease _ => True end.

Lemma gate_step_ok op g :
  gate_ok g -> named op -> g_seq g + 1 < 2 ^ 64 ->
  gate_ok (gate_step op g) /\ g_seq (gate_step op g) <= g_seq g + 1 /\ defaultMax (gate_step op g) = defaultMax g.
Proof.
  intros Hg Hn Hlt. destruct op as [now ep run n|run]; cbn [gate_step].
  - destruct (decide (run ∈ holders_of g ep)) as [Hin|Hin].
    + unfold Acquire. rewrite bool_decide_eq_true_2 by done. cbn.
      destruct (dropWaiter_rest ep run g) as (-> & _ & ->). split_and!; [by apply dropWaiter_ok|lia|done].
    + destruct (queued_ok g ep run now Hg Hn Hin Hlt) as [Hq Hqs].
      destruct (queued_rest g ep run now) as (_ & Hdm & _).
      destruct (acquire_cases g now ep run n Hg Hn Hin Hlt); cbn [fst]; split_and!; try done.
      * rewrite <- (queued_holders g ep run now ep). by apply granted_ok.
      * cbn. by destruct (dropWaiter_rest ep run (queued g ep run now)) as (-> & _ & _).
      * cbn. by destruct (dropWaiter_rest ep run (queued g ep run now)) as (_ & _ & ->).
  - split_and!; [by apply release_ok|cbn; lia|done].
Qed.

Lemma gate_run_ok ops g :
  gate_ok g -> Forall named ops -> g_seq g + Z.of_nat (length ops) < 2 ^ 64 ->
  gate_ok (gate_run ops g) /\ g_seq (gate_run ops g) <= g_seq g + Z.of_nat (length ops) /\
  defaultMax (gate_run ops g) = defaultMax g.
Proof.
  intros Hg Hn. revert g Hg. induction Hn as [|op ops Hop Hn IH]; intros g Hg Hlt; cbn in *; [split_and!; [done|lia|done]|].
  destruct (gate_step_ok op g Hg Hop) as (Hg1 & Hs1 & Hd1); [lia|].
  destruct (IH _ Hg1) as (Hg2 & Hs2 & Hd2); [lia|]. split_and!; [done|lia|congruence].
Qed.

Lemma new_gate_ok n : gate_ok (NewEndpointGate n).
Proof.
  assert (forall ep, waiters_of (NewEndpointGate n) ep = ∅) as Hw by done.
  assert (forall ep, holders_of (NewEndpointGate n) ep = ∅) as Hh by done.
  split.
  - done.
  - intros ep r w. by rewrite Hw, lookup_empty.
  - intros ep r1 w1 r2 w2. by rewrite Hw, lookup_empty.
  - intros ep r. rewrite Hh. set_solver.
  - cbn. case_match eqn:E; reflect_bools; lia.
Qed.

(** What an operation may ask of an endpoint's capacity. *)
Definition asks_at_most (default : Z) (ep : string) (M : Z) (op : gate_op) : Prop :=
  match op with
  | OpAcquire _ ep' _ n => ep' = ep -> (if n <? 1 then default else n) <= M
  | OpRelease _ => True
  end.

Lemma gate_step_capacity op g ep M :
  gate_ok g -> named op -> g_seq g + 1 < 2 ^ 64 -> asks_at_most (defaultMax g) ep M op ->
  Z.of_nat (size (holders_of g ep)) <= M -> Z.of_nat (size (holders_of (gate_step op g) ep)) <= M.
Proof.
  intros Hg Hn Hlt Ha Hsz. destruct op as [now ep' run n|run]; cbn [gate_step].
  - destruct (decide (run ∈ holders_of g ep')) as [Hin|Hin].
    + unfold Acquire. rewrite bool_decide_eq_true_2 by done. cbn. by rewrite holders_dropWaiter.
    + destruct (acquire_cases g now ep' run n Hg Hn Hin Hlt); cbn [fst].
      * rewrite holders_set_holders. case_decide as He; [subst ep'|by rewrite holders_dropWaiter, queued_holders].
        rewrite size_union by set_solver. rewrite size_singleton. specialize (Ha eq_refl). unfold slots in *. lia.
      * by rewrite queued_holders.
      * by rewrite queued_holders.
  - rewrite holders_release.
    assert (size (holders_of g ep ∖ {[run]}) <= size (holders_of g ep))%nat by (apply subseteq_size; set_solver). lia.
Qed.

(** C36: The gate keeps its capacity and its queue. Over any sequence of acquires
    and releases from an empty gate, whatever the clock reads, an endpoint never
    has more holders than the largest capacity asked of it. At every state so
    reached, a holder that asks again is granted with the holders unchanged, and
    any other run is admitted only into a free slot and only ahead of every live
    waiter; refused, it keeps the place it has while it polls, or takes the last
    one, and is told a holder or, with the slot free, a run queued before it. A
    release frees the run's slots and places, and no one else's. *)
Theorem gate_capacity_and_order n ops :
  Forall named ops -> Z.of_nat (length ops) + 1 < 2 ^ 64 ->
  let g := gate_run ops (NewEndpointGate n) in
  (forall ep M, 0 <= M -> Forall (asks_at_most (defaultMax (NewEndpointGate n)) ep M) ops ->
     Z.of_nat (size (holders_of g ep)) <= M) /\
  (forall now ep run max, run <> "" ->
     if bool_decide (run ∈ holders_of g ep)
     then (Acquire now ep run max g).2 = (run, true) /\
          forall ep', holders_of (Acquire now ep run max g).1 ep' = holders_of g ep'
     else admission g now ep run (slots g max) (Acquire now ep run max g)) /\
  (forall run ep, holders_of (ReleaseByRun run g) ep = holders_of g ep ∖ {[run]} /\
     waiters_of (ReleaseByRun run g) ep = delete run (waiters_of g ep)).
Proof.
  intros Hn Hlen g. pose proof (new_gate_ok n) as H0.
  destruct (gate_run_ok ops _ H0 Hn) as (Hg & Hseq & _); [cbn; lia|]. fold g in Hg, Hseq. split_and!.
  - intros ep M HM Ha. subst g. clear Hg Hseq.
    assert (forall g0, gate_ok g0 -> g_seq g0 + Z.of_nat (length ops) < 2 ^ 64 ->
      defaultMax g0 = defaultMax (NewEndpointGate n) ->
      Z.of_nat (size (holders_of g0 ep)) <= M -> Z.of_nat (size (holders_of (gate_run ops g0) ep)) <= M) as Hind.
    { clear H0 Hlen. induction Hn as [|op ops Hop Hn IH]; intros g0 Hg0 Hl0 Hd0 Hs0; [done|]. cbn [gate_run length] in *.
      apply Forall_cons in Ha as [Ha1 Ha2].
      destruct (gate_step_ok op g0 Hg0 Hop) as (Hg1 & Hs1 & Hd1); [lia|].
      apply IH; [done|done|lia|congruence|]. apply gate_step_capacity; [done|done|lia|by rewrite Hd0|done]. }
    apply Hind; [done|cbn; lia|done|]. unfold holders_of. cbn. rewrite lookup_empty. cbn. by rewrite size_empty.
  - intros now ep run max Hr. case_bool_decide as Hin.
    + unfold Acquire. rewrite bool_decide_eq_true_2 by done. split; [done|]. intros ep'. apply holders_dropWaiter.
    + apply acquire_cases; try done. cbn in Hseq. lia.
  - intros run ep. split; [apply holders_release|apply waiters_release].
Qed.

(** ** Bounded waiting *)

(** The waiters registered before token [s]. *)
Definition ahead_of (g : EndpointGate) (ep : string) (s : Z) : gset string :=
  dom (filter (fun kv => seq kv.2 < s) (waiters_of g ep)).

Lemma elem_of_ahead g ep s r :
  r ∈ ahead_of g ep s <-> exists w, waiters_of g ep !! r = Some w /\ seq w < s.
Proof.
  unfold ahead_of. rewrite elem_of_dom. split.
  - intros [w [? ?]%map_lookup_filter_Some]. eauto.
  - intros (w & ? & ?). exists w. by apply map_lookup_filter_Some.
Qed.

(** An operation admits a run that did not hold the endpoint. *)
Definition admits (ep : string) (op : gate_op) (g : EndpointGate) : bool :=
  match op with
  | OpAcquire now ep' r n => bool_decide (ep' = ep) && bool_decide (r ∉ holders_of g ep') && (Acquire now ep' r n g).2.2
  | OpRelease _ => false
  end.

Fixpoint admissions (ep : string) (ops : list gate_op) (g : EndpointGate) : nat :=
  match ops with
  | [] => 0
  | op :: rest => (if admits ep op g then 1 else 0) + admissions ep rest (gate_step op g)
  end.

(** The run polls often enough that it is live whenever the endpoint is asked, has
    not been admitted yet and is not released. *)
Definition patient (ep run : string) (op : gate_op) (g : EndpointGate) : Prop :=
  match op with
  | OpAcquire now ep' r n => ep' = ep ->
      (exists w, waiters_of g ep !! run = Some w /\ live g now w) /\ (r = run -> (Acquire now ep' r n g).2.2 = false)
  | OpRelease r => r <> run
  end.

Fixpoint waits (ep run : string) (ops : list gate_op) (g : EndpointGate) : Prop :=
  match ops with
  | [] => True
  | op :: rest => patient ep run op g /\ waits ep run rest (gate_step op g)
  end.

Lemma place_live g ep run now w :
  waiters_of g ep !! run = Some w -> live g now w -> place g ep run now = {| seq := seq w; lastSeen := now |}.
Proof. intros Hw Hl. unfold place. rewrite Hw. by rewrite bool_decide_eq_true_2. Qed.

(** While it waits a run keeps its token; no one gets ahead of it, and each
    admission is of a run that was. *)
Lemma wait_step op g ep run w :
  gate_ok g -> named op -> g_seq g + 1 < 2 ^ 64 -> waiters_of g ep !! run = Some w -> patient ep run op g ->
  exists w', waiters_of (gate_step op g) ep !! run = Some w' /\ seq w' = seq w /\
    ahead_of (gate_step op g) ep (seq w) ⊆ ahead_of g ep (seq w) /\
    (admits ep op g = true -> exists r, r ∈ ahead_of g ep (seq w) /\ r ∉ ahead_of (gate_step op g) ep (seq w)).
Proof.
  intros Hg Hn Hlt Hw Hp. destruct op as [now ep' r n|r]; cbn [gate_step patient admits] in *.
  2:{ exists w. rewrite waiters_release, lookup_delete_ne by done. split_and!; [done|done| |done].
      intros x (wx & Hx & ?)%elem_of_ahead. rewrite waiters_release in Hx. apply lookup_delete_Some in Hx as [_ Hx].
      apply elem_of_ahead. eauto. }
  destruct (decide (ep' = ep)) as [->|Hne].
  2:{ rewrite (bool_decide_eq_false_2 (ep' = ep)) by done. cbn [andb].
      assert (waiters_of (Acquire now ep' r n g).1 ep = waiters_of g ep) as Hsame.
      { destruct (decide (r ∈ holders_of g ep')) as [Hin|Hin].
        - unfold Acquire. rewrite bool_decide_eq_true_2 by done. cbn. by rewrite waiters_dropWaiter, decide_False.
        - destruct (acquire_cases g now ep' r n Hg Hn Hin Hlt); cbn [fst].
          + change (waiters_of (dropWaiter ep' r (queued g ep' r now)) ep = waiters_of g ep).
            rewrite waiters_dropWaiter, decide_False by done. by apply queued_other.
          + by apply queued_other.
          + by apply queued_other. }
      exists w. unfold ahead_of. rewrite Hsame. split_and!; [done|done|done|done]. }
  destruct (Hp eq_refl) as [(w0 & Hw0 & Hl) Hself]. assert (w0 = w) as -> by congruence.
  destruct (decide (r ∈ holders_of g ep)) as [Hin|Hin].
  { destruct (go_holders _ Hg _ _ Hin) as [_ Hnone]. assert (r <> run) as Hrr by (intros ->; congruence).
    unfold Acquire. rewrite bool_decide_eq_true_2 by done. cbn [fst snd].
    rewrite (bool_decide_eq_false_2 (r ∉ holders_of g ep)) by auto. rewrite andb_false_r.
    assert (waiters_of (dropWaiter ep r g) ep = waiters_of g ep) as Hsame
      by (rewrite waiters_dropWaiter, decide_True by done; by apply delete_id).
    exists w. unfold ahead_of. rewrite Hsame. split_and!; done. }
  rewrite (bool_decide_eq_true_2 (ep = ep)), (bool_decide_eq_true_2 (r ∉ holders_of g ep)) by done. cbn [andb].
  assert (forall x wx, waiters_of (queued g ep r now) ep !! x = Some wx -> seq wx < seq w ->
            x ∈ ahead_of g ep (seq w)) as Hsub.
  { intros x wx Hx Hlx. apply elem_of_ahead. apply queued_waiter in Hx as [(_ & -> & ->)|(Hx & _)]; [|eauto].
    destruct (queued_rest g ep r now) as (_ & _ & [[_ (w1 & Hw1 & _ & Hp1)]|[_ [Hp1 _]]]); [exists w1; split; [done|congruence]|].
    rewrite (uint64_succ_lt _ (proj1 (go_seq _ Hg)) Hlt) in Hp1. destruct (go_waiters _ Hg _ _ _ Hw). lia. }
  assert (r <> run -> waiters_of (queued g ep r now) ep !! run = Some w) as Hkeep
    by (intros Hrr; rewrite queued_lookup, decide_False, Hw by done; by rewrite decide_True).
  assert (r = run -> waiters_of (queued g ep r now) ep !! run = Some {| seq := seq w; lastSeen := now |}) as Hkeep'
    by (intros ->; rewrite queued_lookup, decide_True by done; by rewrite (place_live _ _ _ _ w)).
  assert (forall h, exists w', waiters_of (queued g ep r now) ep !! run = Some w' /\ seq w' = seq w /\
    ahead_of (queued g ep r now) ep (seq w) ⊆ ahead_of g ep (seq w) /\
    ((h : string, false).2 = true -> exists r', r' ∈ ahead_of g ep (seq w) /\ r' ∉ ahead_of (queued g ep r now) ep (seq w)))
    as Hrefused.
  { intros h. destruct (decide (r = run)) as [Hrr|Hrr]; [eexists; split; [by apply Hkeep'|]|exists w; split; [by apply Hkeep|]];
      (split_and!; [done| |done]); intros x (wx & Hx & ?)%elem_of_ahead; eauto. }
  destruct (acquire_cases g now ep r n Hg Hn Hin Hlt) as [Hsz Hfirst| |]; cbn [fst snd]; [|apply (Hrefused "")..].
  assert (r <> run) as Hrr.
  { intros Hrr. by specialize (Hself Hrr). }
  assert (forall x, waiters_of (set_holders ep ({[r]} ∪ holders_of g ep) (dropWaiter ep r (queued g ep r now))) ep !! x
    = if decide (x = r) then None else waiters_of (queued g ep r now) ep !! x) as Hafter.
  { intros x. change (waiters_of (dropWaiter ep r (queued g ep r now)) ep !! x =
      if decide (x = r) then None else waiters_of (queued g ep r now) ep !! x).
    rewrite waiters_dropWaiter, decide_True by done. case_decide as Hx; [subst x; by rewrite lookup_delete_eq|].
    by rewrite lookup_delete_ne. }
  exists w. rewrite Hafter, decide_False by done. split_and!; [by apply Hkeep|done| |].
  - intros x (wx & Hx & ?)%elem_of_ahead. rewrite Hafter in Hx. case_decide; [done|]. eauto.
  - intros _. exists r. split.
    + apply (Hsub r (place g ep r now)); [rewrite queued_lookup; by rewrite decide_True|]. apply (Hfirst run w); auto.
    + intros (wx & Hx & _)%elem_of_ahead. rewrite Hafter, decide_True in Hx by done. done.
Qed.

(** Bounded waiting. Take a run queued on an endpoint at any state the gate can
    reach, and any operations after it, of that run and of others, through which it
    polls within the TTL. No more runs are admitted to the endpoint in the
    meantime than were queued before it when the wait began; it keeps its place,
    and no later arrival ever gets in front. As soon as no one is queued before it,
    its poll of an endpoint with a free slot is granted. *)
Theorem gate_bounded_waiting n ops0 ops ep run w :
  Forall named ops0 -> Forall named ops -> Z.of_nat (length ops0) + Z.of_nat (length ops) + 1 < 2 ^ 64 ->
  run <> "" ->
  let g := gate_run ops0 (NewEndpointGate n) in
  let g' := gate_run ops g in
  waiters_of g ep !! run = Some w -> waits ep run ops g ->
  (admissions ep ops g + size (ahead_of g' ep (seq w)) <= size (ahead_of g ep (seq w)))%nat /\
  ahead_of g' ep (seq w) ⊆ ahead_of g ep (seq w) /\
  exists w', waiters_of g' ep !! run = Some w' /\ seq w' = seq w /\
    forall now max, live g' now w' -> ahead_of g' ep (seq w) = ∅ ->
      Z.of_nat (size (holders_of g' ep)) < slots g' max -> (Acquire now ep run max g').2 = (run, true).
Proof.
  intros Hn0 Hn Hlen Hr g g' Hw Hwait.
  destruct (gate_run_ok ops0 _ (new_gate_ok n) Hn0) as (Hg & Hs & _); [cbn; lia|]. fold g in Hg, Hs.
  assert (g_seq g + Z.of_nat (length ops) + 1 < 2 ^ 64) as Hl by (cbn in Hs; lia). clear Hs Hlen Hn0.
  subst g'. clearbody g. revert g w Hg Hw Hwait Hl.
  induction Hn as [|op ops Hop Hn IH]; intros g w Hg Hw Hwait Hl; cbn [gate_run admissions waits length] in *.
  - split_and!; [lia|done|]. exists w. split_and!; [done|done|]. intros now max Hlive Hnone Hfree.
    assert (run ∉ holders_of g ep) as Hnh by (intros Hin; apply (go_holders _ Hg) in Hin as [_ ?]; congruence).
    destruct (acquire_cases g now ep run max Hg Hr Hnh) as [| |h _ (x & wx & _ & Hx & _ & Hlt)]; [lia|done|lia|].
    exfalso. rewrite (place_live _ _ _ _ _ Hw Hlive) in Hlt. cbn in Hlt.
    assert (x ∈ ahead_of g ep (seq w)) as Hin by (apply elem_of_ahead; eauto). rewrite Hnone in Hin. set_solver.
  - destruct Hwait as [Hp Hwait].
    destruct (wait_step op g ep run w Hg Hop ltac:(lia) Hw Hp) as (w1 & Hw1 & Hs1 & Hsub & Hadm).
    destruct (gate_step_ok op g Hg Hop) as (Hg1 & Hq1 & _); [lia|].
    destruct (IH _ w1 Hg1 Hw1 Hwait) as (Hcount & Hsub2 & Hlast); [lia|]. rewrite Hs1 in *. split_and!.
    + destruct (admits ep op g).
      * destruct (Hadm eq_refl) as (r & Hin & Hout).
        assert (size (ahead_of (gate_step op g) ep (seq w)) < size (ahead_of g ep (seq w)))%nat
          by (apply subset_size; set_solver). lia.
      * assert (size (ahead_of (gate_step op g) ep (seq w)) <= size (ahead_of g ep (seq w)))%nat
          by (by apply subseteq_size). lia.
    + set_solver.
    + exact Hlast.
Qed.

(** * Witnesses *)

Definition poll (t : Z) (run : string) : gate_op := OpAcquire t "http://model" run 0.

(** a holds the endpoint; b, then c, wait. *)
Definition queue_sample : list gate_op := [poll 1 "a"; poll 2 "b"; poll 3 "c"].

Lemma gate_capacity_and_order_witness :
  Z.of_nat (size (holders_of (gate_run queue_sample (NewEndpointGate 1)) "http://model")) <= 1.
Proof.
  destruct (gate_capacity_and_order 1 queue_sample) as (H & _).
  - repeat constructor; discriminate.
  - cbn. lia.
  - apply H; [lia|]. repeat constructor; cbn; lia.
Defined.

Lemma gate_bounded_waiting_witness :
  (admissions "http://model" [OpRelease "a"; poll 4 "c"; poll 5 "b"]
     (gate_run queue_sample (NewEndpointGate 1)) <= 1)%nat.
Proof.
  destruct (gate_bounded_waiting 1 queue_sample [OpRelease "a"; poll 4 "c"; poll 5 "b"] "http://model" "c"
    {| seq := 3; lastSeen := 3 |}) as (H & _).
  - repeat constructor; discriminate.
  - repeat constructor; discriminate.
  - cbn. lia.
  - discriminate.
  - vm_compute. reflexivity.
  - cbn [waits]. split; [cbn; discriminate|]. split; [|split; [|exact I]]; intros _.
    + split; [eexists; split; [vm_compute; reflexivity|vm_compute; discriminate]|intros _; vm_compute; reflexivity].
    + split; [eexists; split; [vm_compute; reflexivity|vm_compute; discriminate]|intros; discriminate].
  - etrans; [|etrans; [exact H|]]; [lia|]. vm_compute. lia.
Defined.
