(* ===== verification/DriverProps.v ===== *)
(** The discipline of the drive loop: what must have been answered before each
    call that moves a Run. *)
From S2P Require Import Prelude Calls Machine ToolGate ToolGateProps Driver CoordDb CoordTx Custody.
From S2P Require DriverClaims ProdClaim Settle ProdEffects.
Open Scope Z_scope.
Open Scope k8s_scope.

(** * Facts of a history *)

Section facts.
Context {Conditions : Set}.
Notation Event := (Calls.Event (Call (Conditions := Conditions))).
Notation Run := (Run (Conditions := Conditions)).
Implicit Types (hist : list Event) (run : Run) (cs : DriverClaims.ClaimState).

(** The Run the pass loaded and the claim row it decides on. *)
Definition decided (r : Driver) hist run cs : Prop :=
  (exists ns name, answered hist (GetRun ns name) (Ok run)) /\
  answered hist (State (WorkItemRef run)) (Ok (Some cs)).

Definition turn_succeeded hist run : Prop :=
  exists dispatched, answered hist (RunFollowOutcome (UID run)) (Ok (dispatched, true, "succeeded")).

Definition lease_lapsed hist cs : Prop :=
  DriverClaims.cs_holder cs <> "" /\
  exists lease now, DriverClaims.cs_lease cs = Some lease /\ answered hist Now now /\ lease < now.

Definition lease_lives hist cs : Prop :=
  DriverClaims.cs_holder cs = "" \/ DriverClaims.cs_lease cs = None \/
  exists lease now, DriverClaims.cs_lease cs = Some lease /\ answered hist Now now /\ now <= lease.

(** The pod of the Run is gone and its marker cleared. *)
Definition sandbox_gone (r : Driver) hist run cs : Prop :=
  DriverClaims.cs_run cs = UID run /\
  (exists ns name, answered hist (GetPod ns name) (Err NotFound)) /\
  (BindClear r = true -> answered hist (ClearSandboxBind (UID run)) (Ok tt)).

Definition custody hist run cs : Prop :=
  (DriverClaims.cs_run cs = UID run /\
     answered hist (Renew (WorkItemRef run) (UID run) (DriverClaims.cs_fence cs)) (Ok true)) \/
  (DriverClaims.cs_lane cs ∈ ["todo"; "in_progress"] /\
     exists fence, answered hist (Acquire (WorkItemRef run) (UID run) (firstAgentName run)) (Ok (Some fence))).

(** Each skill that declares a gating credential type has one whose managed
    Secret was read. *)
Definition credentialed hist run : Prop :=
  forall s, s ∈ GatedSkillsFromManifest (CapabilityManifest run) ->
    (forall t, t ∈ SplitCredentialTypes (Annotation s) -> gating t = false) \/
    exists t name label, t ∈ SplitCredentialTypes (Annotation s) /\ gating t = true /\
      MaterializedSecretName (ProjectRef run) t = Some name /\
      answered hist (GetSecretLabel (Namespace run) name) (Ok label) /\ label <> "".

(** The run is dying in the eyes of this pass. *)
Definition dying (r : Driver) hist run cs : Prop :=
  inFlightStep (DriverClaims.cs_step cs) = true /\
  (Driver.Settle r = true -> exists d s o, answered hist (RunFollowOutcome (UID run)) (Ok (d, s, o)) /\
                      ~ (s = true /\ o = "succeeded")) /\
  (lease_lapsed hist cs \/ sandbox_gone r hist run cs).
End facts.

(** * The discipline *)

Section discipline.
Context {Conditions : Set} (SetStatusCondition : Conditions -> Condition -> Conditions * bool).
Context (HasStatusCondition : Conditions -> string -> bool).
Context (RemoveStatusCondition : Conditions -> string -> Conditions * bool).
Context (is_uuid : string -> bool) (r : Driver).
Notation Event := (Calls.Event (Call (Conditions := Conditions))).
Notation Call := (Call (Conditions := Conditions)).
Notation Run := (Run (Conditions := Conditions)).
Implicit Types (hist h : list Event) (run : Run) (cs : DriverClaims.ClaimState).

Definition gate_steps : list Step := [StepClaimingSandbox; StepPausedCredentialRequired].

Definition drivable (s : Step) : Prop := IsTerminal s = false /\ isPaused s = false /\ s <> StepCancelling.

(** What a drive rests on. *)
Record grounds hist run cs : Prop := {
  gr_decided : decided r hist run cs;
  gr_step : drivable (DriverClaims.cs_step cs);
  gr_alive : inFlightStep (DriverClaims.cs_step cs) = true -> turn_succeeded hist run \/ lease_lives hist cs;
}.

Definition may_drive hist (o : Options) : Prop :=
  exists run cs laps fence,
    grounds hist run cs /\ custody hist run cs /\
    (DriverClaims.cs_step cs ∈ gate_steps -> credentialed hist run) /\
    answered hist (LapsUsed (UID run)) (Ok laps) /\ answered hist StoreFence fence /\
    o = driveOptions r fence laps.

(** A re-entry of the Run the pass decides on, at the fence it read. *)
Definition re_enters hist (item u : string) (f : Z) run cs : Prop :=
  decided r hist run cs /\ item = WorkItemRef run /\ u = UID run /\ f = DriverClaims.cs_fence cs.

Definition may_retry (within : bool) hist (item u : string) (f : Z) : Prop :=
  exists run cs laps, re_enters hist item u f run cs /\ dying r hist run cs /\
    answered hist (LapsUsed u) (Ok laps) /\ (laps <? maxRetries run) = within.

Definition may_finish hist (item u : string) (f : Z) : Prop :=
  exists run cs, re_enters hist item u f run cs /\ DriverClaims.cs_step cs = StepCancelling /\
    (Sandbox r = true -> answered hist (SandboxRelease u) tt).

(** A dispatch that failed closed in this pass. *)
Definition may_park hist (item u : string) (f : Z) : Prop :=
  exists run cs e, decided r hist run cs /\ item = WorkItemRef run /\ u = UID run /\
    answered hist StoreFence f /\ Is FailClosedDispatch e = true /\
    ((exists o, answered hist (Drive o) (Some e)) \/
     exists serr eerr, answered hist StoreErr serr /\ answered hist EffectsErr eerr /\ Join serr eerr = Some e).

Definition may_release hist (u : string) : Prop :=
  exists item f, (exists b, answered hist (FailEnter item u f) (Ok b)) \/ answered hist (CancelFinish item u f) (Ok true).

Definition discipline hist X (c : Call X) : Prop :=
  match c with
  | Drive o => may_drive hist o
  | RetryEnter item u f => may_retry true hist item u f
  | FailEnter item u f => may_retry false hist item u f
  | CancelFinish item u f => may_finish hist item u f
  | FailClosedPark item u f _ => may_park hist item u f
  | ReleaseByRun u => may_release hist u
  | _ => True
  end.

Notation ok := (obeys discipline any_answer).

(** ** Facts persist *)

Lemma decided_prefix hist h run cs : hist `prefix_of` h -> decided r hist run cs -> decided r h run cs.
Proof.
  intros Hp [(ns & name & H1) H2]. split; [exists ns, name|]; by eapply answered_prefix.
Qed.

Lemma grounds_prefix hist h run cs : hist `prefix_of` h -> grounds hist run cs -> grounds h run cs.
Proof.
  intros Hp [H1 H2 H3]. split; [by eapply decided_prefix|done|]. intros Hf.
  destruct (H3 Hf) as [[d H]|[H|[H|(l & n & Hl & Hn & ?)]]].
  - left. exists d. by eapply answered_prefix.
  - right. by left.
  - right. right. by left.
  - right. right. right. exists l, n. eauto using answered_prefix.
Qed.

Lemma custody_prefix hist h run cs : hist `prefix_of` h -> custody hist run cs -> custody h run cs.
Proof. intros Hp [[? ?]|[? [f ?]]]; [left|right]; eauto using answered_prefix. Qed.

Lemma credentialed_prefix hist h run : hist `prefix_of` h -> credentialed hist run -> credentialed h run.
Proof.
  intros Hp H s Hs. destruct (H s Hs) as [?|(t & n & l & ? & ? & ? & ? & ?)]; [by left|].
  right. exists t, n, l. split_and!; eauto using answered_prefix.
Qed.

Lemma ok_status run busy hist : ok (fun _ _ => True) hist (waitEndpointSlot SetStatusCondition run busy).
Proof. unfold waitEndpointSlot. destruct (SetStatusCondition _ _) as [c []]; free_walk. Qed.

Lemma ok_abandon run hist : ok (fun _ _ => True) hist (abandonInvalidRef SetStatusCondition run).
Proof. unfold abandonInvalidRef. destruct (SetStatusCondition _ _) as [c []]; free_walk. Qed.

Lemma ok_clear run hist :
  ok (fun _ _ => True) hist (clearEndpointSlotWait HasStatusCondition RemoveStatusCondition run).
Proof.
  unfold clearEndpointSlotWait. case_match; [done|]. destruct (RemoveStatusCondition _ _) as [c []]; free_walk.
Qed.

Lemma ok_park run hist : ok (fun _ _ => True) hist (park r run).
Proof. unfold park, when. free_walk. Qed.

(** ** The parts of a pass *)

Lemma ok_custody run cs hist :
  ok (fun h stop => stop = None -> custody h run cs) hist (takeCustody run cs).
Proof.
  unfold takeCustody. apply obeys_bind.
  apply (obeys_weaken _ _ (fun h b => b = true -> DriverClaims.cs_run cs = UID run)).
  - case_bool_decide; [|done]. unfold leaseExpired. free_walk.
  - intros h [] _ Hrun.
    + cbn. split; [done|]. intros [[]|e] _; cbn; try done. intros _. left. split; [by apply Hrun|apply answered_last].
    + case_bool_decide as Hl; [|done]. cbn. split; [done|]. intros [[f|]|e] _; cbn; try done.
      intros _. right. split; [done|]. exists f. apply answered_last.
Qed.

Lemma ok_satisfied project ns candidates hist :
  ok (fun h sat => forall t, t ∈ sat -> exists name label,
        MaterializedSecretName project t = Some name /\ answered h (GetSecretLabel ns name) (Ok label) /\ label <> "")
     hist (satisfiedTypes project ns candidates).
Proof.
  revert hist. induction candidates as [|t rest IH]; intros hist; cbn; [set_solver|].
  destruct (MaterializedSecretName project t) as [name|] eqn:Hn; [|done].
  cbn. split; [done|]. intros label _. apply obeys_bind.
  eapply obeys_weaken; [apply IH|]. intros h sat Hp Hsat. cbn.
  destruct label as [l|e]; [|done]. case_bool_decide as Hl; [done|].
  intros t' [->%elem_of_singleton|Ht']%elem_of_union; [|by apply Hsat].
  exists name, l. split_and!; [done| |done]. eapply answered_prefix; [done|apply answered_last].
Qed.

Lemma ok_evaluate run hist :
  ok (fun h d => Admitted_ d = true -> credentialed h run) hist (evaluateGoLiveGate run).
Proof.
  unfold evaluateGoLiveGate. case_bool_decide as Hg; cbn.
  { intros _ s Hs. rewrite Hg in Hs. by apply not_elem_of_nil in Hs. }
  apply obeys_bind. eapply obeys_weaken; [apply ok_satisfied|]. intros h sat _ Hsat. cbn.
  intros Ha s Hs.
  destruct (proj1 (run_admitted_iff _ _) Ha s Hs) as [?|(t & Ht & Hgt & _ & Hin)]; [by left|]. right.
  destruct (Hsat t Hin) as (n & l & ? & ? & ?). by exists t, n, l.
Qed.

Lemma ok_gate run cs hist :
  ok (fun h stop => stop = None -> DriverClaims.cs_step cs ∈ gate_steps -> credentialed h run) hist
     (goLiveGate r run cs).
Proof.
  unfold goLiveGate. case_bool_decide as Hs; [|by cbn; intros _ ?]. cbn [negb].
  apply obeys_bind. eapply obeys_weaken; [apply ok_evaluate|]. intros h d Hp Hd.
  destruct (Admitted_ d) eqn:Ha; cbn [negb].
  - specialize (Hd Ha). case_bool_decide; [|by cbn].
    cbn. split; [done|]. intros [b|e] _; [|done]. unfold when. case_match; cbn.
    + split; [done|]. intros x _ _ _. eapply credentialed_prefix; [|exact Hd]. eexists. rewrite <- app_assoc. done.
    + intros _ _. eapply credentialed_prefix; [|exact Hd]. by eexists.
  - cbn. split; [done|]. intros [b|e] _; [|done]. unfold when. free_walk.
Qed.

Lemma ok_drive_error run prefix e cs hist :
  grounds hist run cs ->
  ((exists o, answered hist (Drive o) (Some e)) \/
   exists serr eerr, answered hist StoreErr serr /\ answered hist EffectsErr eerr /\ Join serr eerr = Some e) ->
  ok (fun _ _ => True) hist (driveError SetStatusCondition run prefix e).
Proof.
  intros Hg He. unfold driveError. case_match; [done|]. case_match; [apply ok_status|].
  case_match eqn:Hf; [|done]. cbn. split; [done|]. intros f _. split; [|done].
  exists run, cs, e. split_and!; try done; [|apply answered_last|].
  - eapply decided_prefix; [|apply Hg]. by eexists.
  - destruct He as [[o ?]|(s & x & ? & ? & ?)]; [left; exists o|right; exists s, x; split_and!]; auto with k8s.
Qed.

Lemma ok_settle run cs step failed o hist :
  grounds hist run cs -> answered hist (Drive o) failed ->
  ok (fun _ _ => True) hist
     (settleDrive SetStatusCondition HasStatusCondition RemoveStatusCondition r run step failed).
Proof.
  intros Hg Ho. unfold settleDrive. destruct failed as [e|].
  { eapply ok_drive_error; [done|]. left. by exists o. }
  cbn. split; [done|]. intros serr _. split; [done|]. intros eerr _.
  destruct (Join serr eerr) as [e|] eqn:HJ.
  - eapply ok_drive_error.
    + eapply grounds_prefix; [|exact Hg]. eexists. rewrite <- app_assoc. done.
    + right. exists serr, eerr. auto 8 with k8s.
  - apply obeys_bind. eapply obeys_weaken; [apply ok_clear|]. intros h [] _ _.
    cbn. split; [done|]. intros after _. unfold when. free_walk.
Qed.

Lemma ok_drive run cs hist :
  grounds hist run cs -> custody hist run cs ->
  (DriverClaims.cs_step cs ∈ gate_steps -> credentialed hist run) ->
  ok (fun _ _ => True) hist (drive SetStatusCondition HasStatusCondition RemoveStatusCondition r run cs).
Proof.
  intros Hg Hc Ha. unfold drive. cbn. split; [done|]. intros [s|e] _; [|done].
  cbn. split; [done|]. intros [x|e] _; [|done].
  cbn. split; [done|]. intros [laps|e] _; [|done].
  cbn. split; [done|]. intros fence _.
  assert (forall t, hist `prefix_of` ((((hist ++ [t.1.1.1]) ++ [t.1.1.2]) ++ [t.1.2]) ++ [t.2])) as Hpre
    by (intros t; rewrite <- !app_assoc; by eexists).
  set (h := _ ++ [Ev StoreFence fence]). assert (hist `prefix_of` h) as Hp by apply (Hpre (_, _, _, _)). clear Hpre.
  split.
  - exists run, cs, laps, fence. split_and!; [|..|done]; subst h; auto with k8s.
    + by eapply grounds_prefix.
    + by eapply custody_prefix.
    + intros Hs. eapply credentialed_prefix; [done|auto].
  - intros failed _. apply (ok_settle _ cs _ _ (driveOptions r fence laps)); [|apply answered_last].
    eapply grounds_prefix; [|exact Hg]. etrans; [exact Hp|]. by eexists.
Qed.

Lemma ok_advance run cs hist :
  grounds hist run cs ->
  ok (fun _ _ => True) hist (advance SetStatusCondition HasStatusCondition RemoveStatusCondition r run cs).
Proof.
  intros Hg. unfold advance. apply obeys_bind. eapply obeys_weaken; [apply ok_custody|].
  intros h [res|] Hp Hc; [done|]. specialize (Hc eq_refl).
  apply obeys_bind. eapply obeys_weaken; [apply ok_gate|].
  intros h' [res|] Hp' Ha; [done|]. apply ok_drive; [|by eapply custody_prefix|auto].
  eapply grounds_prefix; [exact Hp'|]. by eapply grounds_prefix.
Qed.

Lemma dying_prefix hist h run cs : hist `prefix_of` h -> dying r hist run cs -> dying r h run cs.
Proof.
  intros Hp (Hf & Hs & Hd). split; [done|]. split.
  - intros HS. destruct (Hs HS) as (d & s & o & ? & ?). exists d, s, o. eauto using answered_prefix.
  - destruct Hd as [[? (l & n & ? & ? & ?)]|[? [(ns & n & ?) Hc]]]; [left|right].
    + split; [done|]. exists l, n. eauto using answered_prefix.
    + split; [done|]. split; [exists ns, n|intros HB]; eauto using answered_prefix.
Qed.

Lemma ok_retry run cs hist :
  decided r hist run cs -> dying r hist run cs ->
  ok (fun _ _ => True) hist (retryOrFail r run cs).
Proof.
  intros Hdec Hdy. unfold retryOrFail. apply obeys_bind.
  apply (obeys_weaken _ _ (fun _ _ => True)); [unfold when; free_walk|]. intros h [] Hp _.
  cbn. split; [done|]. intros [laps|e] _; [|done].
  assert (re_enters (h ++ [Ev (LapsUsed (UID run)) (Ok laps)]) (WorkItemRef run) (UID run)
            (DriverClaims.cs_fence cs) run cs /\
          dying r (h ++ [Ev (LapsUsed (UID run)) (Ok laps)]) run cs) as [Hre Hdy'].
  { assert (hist `prefix_of` h ++ [Ev (LapsUsed (UID run)) (Ok laps)]) as Hp'
      by (etrans; [exact Hp|by eexists]).
    split; [|by eapply dying_prefix]. split_and!; try done. by eapply decided_prefix. }
  destruct (laps <? maxRetries run) eqn:Hl; cbn.
  - split; [exists run, cs, laps; auto using answered_last|].
    intros [[f|]|e] _; [|done..]. unfold BackoffFor, draw. free_walk.
  - split; [exists run, cs, laps; auto using answered_last|].
    intros [b|e] _; [|done]. unfold when. case_match; cbn; [|done]. split; [|done].
    exists (WorkItemRef run), (DriverClaims.cs_fence cs). left. exists b. apply answered_last.
Qed.

Lemma ok_cancel run cs hist :
  decided r hist run cs -> DriverClaims.cs_step cs = StepCancelling ->
  ok (fun _ _ => True) hist (cancelFinish r run cs).
Proof.
  intros Hdec Hs. unfold cancelFinish. apply obeys_bind.
  apply (obeys_weaken _ _ (fun h _ => Sandbox r = true -> answered h (SandboxRelease (UID run)) tt)).
  { unfold when. case_match; cbn; [|done]. split; [done|]. intros [] _ _. apply answered_last. }
  intros h [] Hp Hrel. cbn. split.
  - exists run, cs. split_and!; try done. split_and!; try done. by eapply decided_prefix.
  - intros [[]|e] _; [|done..]. unfold when. case_match; cbn; [|done]. split; [|done].
    exists (WorkItemRef run), (DriverClaims.cs_fence cs). right. apply answered_last.
Qed.

Lemma ok_dead cs hist :
  ok (fun h (b : bool) => if b then inFlightStep (DriverClaims.cs_step cs) = true /\ lease_lapsed h cs
               else inFlightStep (DriverClaims.cs_step cs) = true -> lease_lives h cs) hist
     (dead (Conditions := Conditions) cs).
Proof.
  unfold dead. destruct (DriverClaims.cs_lease cs) as [l|] eqn:Hl; [|cbn; by right; left].
  case_bool_decide as Hh; cbn [orb]; [by left|].
  destruct (inFlightStep _) eqn:Hf; cbn; [|done]. split; [done|]. intros now _. case_match; reflect_bools.
  - split; [done|]. split; [done|]. exists l, now. auto using answered_last.
  - intros _. right. right. exists l, now. auto using answered_last.
Qed.

Lemma ok_reap run cs hist :
  ok (fun h res => res = Ok true -> inFlightStep (DriverClaims.cs_step cs) = true /\ sandbox_gone r h run cs) hist
     (reapGoneSandbox r run cs).
Proof.
  unfold reapGoneSandbox. case_bool_decide as Hu; cbn [negb orb]; [|done].
  destruct (inFlightStep _) eqn:Hf; cbn [negb]; [|done].
  destruct (SandboxRef run) as [[ns name]|]; [|done]. case_bool_decide; [done|].
  cbn. split; [done|]. intros [[]|[|e]] _; [done| |done].
  set (h := hist ++ _).
  assert (exists ns name, answered h (GetPod ns name) (Err NotFound)) as (ns' & n' & Hpod)
    by (eexists _, _; apply answered_last).
  apply obeys_bind. apply (obeys_weaken _ _ (fun h' res => res = Ok tt -> h `prefix_of` h' /\
    (BindClear r = true -> answered h' (ClearSandboxBind (UID run)) (Ok tt)))).
  { case_match; cbn; [|done]. split; [done|]. intros res _ ->. split; [by eexists|]. intros _. apply answered_last. }
  intros h' [[]|e] _ Hc; [|done]. destruct (Hc eq_refl) as [Hp Hcl].
  cbn. split; [done|]. intros [[]|[|e]] _; cbn; try done. intros _. split; [done|].
  split_and!; [done| |intros HB; apply answered_app; auto].
  exists ns', n'. apply answered_app. by eapply answered_prefix.
Qed.

Lemma ok_death run cs (settledOK : bool) hist :
  decided r hist run cs -> drivable (DriverClaims.cs_step cs) ->
  (inFlightStep (DriverClaims.cs_step cs) = true ->
     if settledOK then turn_succeeded hist run
     else Driver.Settle r = true -> exists d s o, answered hist (RunFollowOutcome (UID run)) (Ok (d, s, o)) /\
                                             ~ (s = true /\ o = "succeeded")) ->
  (settledOK = true -> inFlightStep (DriverClaims.cs_step cs) = true) ->
  ok (fun _ _ => True) hist
     (deathOr SetStatusCondition HasStatusCondition RemoveStatusCondition r run cs settledOK).
Proof.
  intros Hdec Hdr Hset Hin. unfold deathOr. destruct settledOK.
  { apply ok_advance. split; [done..|]. intros Hf. left. by apply Hset. }
  assert (forall h, hist `prefix_of` h -> inFlightStep (DriverClaims.cs_step cs) = true ->
    lease_lapsed h cs \/ sandbox_gone r h run cs -> dying r h run cs) as Hdying.
  { intros h Hp Hf Hd. split; [done|]. split; [|done]. intros HS.
    destruct (Hset Hf HS) as (d & s & o & ? & ?). exists d, s, o. eauto using answered_prefix. }
  apply obeys_bind. eapply obeys_weaken; [apply ok_dead|]. intros h [] Hp Hd.
  { destruct Hd as [Hf Hd]. apply ok_retry; [by eapply decided_prefix|auto]. }
  apply obeys_bind. eapply obeys_weaken; [apply ok_reap|]. intros h' [[]|e] Hp' Hg; [| |done].
  - destruct (Hg eq_refl) as [Hf Hgone].
    apply ok_retry; [eapply decided_prefix; [exact Hp'|]; by eapply decided_prefix|].
    apply Hdying; [by etrans|done|by right].
  - apply ok_advance. eapply grounds_prefix; [exact Hp'|]. split; [by eapply decided_prefix|done|]. auto.
Qed.

Lemma ok_pass run hist :
  (exists ns name, answered hist (GetRun ns name) (Ok run)) ->
  ok (fun _ _ => True) hist (pass SetStatusCondition HasStatusCondition RemoveStatusCondition r run).
Proof.
  intros (ns & name & Hrun). unfold pass. cbn [obeys pbind call]. split; [done|]. intros [[cs|]|e] _; [|done..].
  set (h := hist ++ _). assert (decided r h run cs) as Hdec.
  { split; [exists ns, name; by apply answered_app|apply answered_last]. }
  destruct (IsTerminal _) eqn:Ht; [done|]. destruct (isPaused _) eqn:Hp; [apply ok_park|].
  case_bool_decide as Hc; [by apply ok_cancel|].
  assert (drivable (DriverClaims.cs_step cs)) as Hdr by done.
  destruct (inFlightStep _) eqn:Hf; [|apply ok_death; try done; by rewrite Hf].
  apply obeys_bind. unfold followSucceeded. destruct (Driver.Settle r) eqn:HS; cbn [obeys pbind call negb].
  - split; [done|]. intros [[[d s] o]|e] _; cbn [obeys pbind call]; [|done].
    apply ok_death; [eapply decided_prefix; [|done]; by eexists|done| |done].
    intros _. destruct s; cbn [andb].
    + case_bool_decide as Ho; [subst o; exists d; apply answered_last|].
      intros _. exists d, true, o. split; [apply answered_last|by intros []].
    + intros _. exists d, false, o. split; [apply answered_last|by intros []].
  - apply ok_death; try done. intros _ HS'. by rewrite HS in HS'.
Qed.

Lemma ok_reconcile ns name :
  ok (fun _ _ => True) []
     (Reconcile SetStatusCondition HasStatusCondition RemoveStatusCondition is_uuid r ns name).
Proof.
  unfold Reconcile. cbn [obeys pbind call]. split; [done|]. intros [run|[|e]] _; [|done..].
  case_match; [done|]. case_match; [apply ok_abandon|]. apply ok_pass.
  exists ns, name. by left.
Qed.

Lemma reconcile_disciplined {W} (h : forall X, Call X -> W -> X -> W -> Prop) ns name w t res w' :
  runs h (Reconcile SetStatusCondition HasStatusCondition RemoveStatusCondition is_uuid r ns name) w t res w' ->
  trace_ok discipline any_answer [] t.
Proof.
  intros Hr. eapply obeys_any; [exact Hr|apply ok_reconcile].
Qed.
End discipline.

(** * The properties *)

(** C5: A drive rests on custody. Whatever a pass is answered, it hands the Run to
    the machine only after it read the Run and its claim in this pass, at a step
    that is neither terminal, paused nor cancelling; while in flight, only with the
    agent's turn known to have succeeded or the lease not lapsed; with the lease
    just renewed at the fence it read, or the checkout just acquired; at the edge
    before dispatch only when every gated skill has a managed Secret of one of its
    types; and at the store's fence, with the lap the durable markers count. *)
Theorem drive_needs_custody {Conditions : Set} SetC HasC RemC is_uuid r {W}
    (h : forall X, Call (Conditions := Conditions) X -> W -> X -> W -> Prop) ns name w t res w' t1 o failed t2 :
  runs h (Reconcile SetC HasC RemC is_uuid r ns name) w t res w' ->
  t = t1 ++ Ev (Drive o) failed :: t2 ->
  exists run cs laps fence,
    decided r t1 run cs /\ drivable (DriverClaims.cs_step cs) /\
    (inFlightStep (DriverClaims.cs_step cs) = true -> turn_succeeded t1 run \/ lease_lives t1 cs) /\
    custody t1 run cs /\
    (DriverClaims.cs_step cs ∈ gate_steps -> credentialed t1 run) /\
    answered t1 (LapsUsed (UID run)) (Ok laps) /\ answered t1 StoreFence fence /\
    o = driveOptions r fence laps.
Proof.
  intros Hr ->. apply reconcile_disciplined, trace_ok_at in Hr as [Hd _].
  destruct Hd as (run & cs & laps & fence & [? ? ?] & ? & ? & ? & ? & ?). by exists run, cs, laps, fence.
Qed.

(** A run ends with cause, at the fence the pass read. A retry lap is entered,
    and a run failed, only for a run in flight whose turn is not known to have
    succeeded, with its lease lapsed under a holder, or its pod gone and its marker
    cleared, and by the budget: the lap within it, the failure outside. A kill is
    finished only for a claim at cancelling, after the teardown when one is wired.
    An item is parked only when a drive of this pass failed closed. And the
    endpoint's slot is released only after a failure was written or a kill
    accepted. *)
Theorem run_ends_with_cause {Conditions : Set} SetC HasC RemC is_uuid r {W}
    (h : forall X, Call (Conditions := Conditions) X -> W -> X -> W -> Prop) ns name w t res w' :
  runs h (Reconcile SetC HasC RemC is_uuid r ns name) w t res w' ->
  (forall item u f x t1 t2, t = t1 ++ Ev (RetryEnter item u f) x :: t2 ->
     exists run cs laps, re_enters r t1 item u f run cs /\ dying r t1 run cs /\
       answered t1 (LapsUsed u) (Ok laps) /\ laps < maxRetries run) /\
  (forall item u f x t1 t2, t = t1 ++ Ev (FailEnter item u f) x :: t2 ->
     exists run cs laps, re_enters r t1 item u f run cs /\ dying r t1 run cs /\
       answered t1 (LapsUsed u) (Ok laps) /\ maxRetries run <= laps) /\
  (forall item u f x t1 t2, t = t1 ++ Ev (CancelFinish item u f) x :: t2 ->
     exists run cs, re_enters r t1 item u f run cs /\ DriverClaims.cs_step cs = StepCancelling /\
       (Sandbox r = true -> answered t1 (SandboxRelease u) tt)) /\
  (forall item u f reason x t1 t2, t = t1 ++ Ev (FailClosedPark item u f reason) x :: t2 -> may_park r t1 item u f) /\
  (forall u x t1 t2, t = t1 ++ Ev (ReleaseByRun u) x :: t2 ->
     exists item f, (exists b, answered t1 (FailEnter item u f) (Ok b)) \/
                    answered t1 (CancelFinish item u f) (Ok true)).
Proof.
  intros Hr%reconcile_disciplined. split_and!; intros; subst; apply trace_ok_at in Hr as [Hd _]; try exact Hd;
    destruct Hd as (run & cs & laps & ? & ? & ? & Hl); exists run, cs, laps; reflect_bools; by split_and!.
Qed.

(** ** A pass that drives, a pass that retries *)

Definition sample_run : Run (Conditions := unit) :=
  {| UID := "u1"; Name := "r"; Namespace := "ns"; Generation := 1; Deleting := false; WorkItemRef := "i1";
     Agents := ["coder"]; ProjectRef := "p"; MaxRetries := Some 3; BackoffSeconds := None; SandboxRef := None;
     CapabilityManifest := None;
     Conditions_ := tt |}.

Definition sample_state (step : Step) (holder run lane : string) (lease : option Z) : DriverClaims.ClaimState :=
  {| DriverClaims.cs_step := step; DriverClaims.cs_fence := 4; DriverClaims.cs_holder := holder;
     DriverClaims.cs_lease := lease; DriverClaims.cs_run := run; DriverClaims.cs_lane := lane |}.

Definition plain_driver : Driver :=
  {| Sandbox := true; BindClear := false; EndpointGate := true; Driver.Settle := false; HasNotify := false;
     HasNotifyPhase := false; HasRand := false; MaxPasses_ := 64 |}.

Definition before_drive : list (Event (Call (Conditions := unit))) :=
  [ Ev (GetRun "ns" "r") (Ok sample_run);
    Ev (State "i1") (Ok (Some (sample_state StepClaimingSandbox "" "" "todo" None)));
    Ev (Acquire "i1" "u1" "coder") (Ok (Some 5));
    Ev (NewStore sample_run) (Ok tt); Ev (NewEffects sample_run) (Ok tt);
    Ev (LapsUsed "u1") (Ok 0); Ev StoreFence 5 ].

Definition after_drive : list (Event (Call (Conditions := unit))) :=
  [ Ev StoreErr None; Ev EffectsErr None; Ev StoreStep StepRunning; Ev StoreStep StepRunning ].

Lemma drive_needs_custody_witness :
  exists run cs laps fence, decided plain_driver before_drive run cs /\ custody before_drive run cs /\
    answered before_drive (LapsUsed (UID run)) (Ok laps) /\
    driveOptions plain_driver 5 0 = driveOptions plain_driver fence laps.
Proof.
  destruct (drive_needs_custody (fun c _ => (c, true)) (fun _ _ => false) (fun c _ => (c, false)) (fun _ => true)
    plain_driver (scripted (C := Call (Conditions := unit))) "ns" "r"
    (before_drive ++ Ev (Drive (driveOptions plain_driver 5 0)) None :: after_drive)
    (before_drive ++ Ev (Drive (driveOptions plain_driver 5 0)) None :: after_drive) (requeue continueDelay) []
    before_drive (driveOptions plain_driver 5 0) None after_drive)
    as (run & cs & laps & fence & ? & _ & _ & ? & _ & ? & _ & ?); [|reflexivity|by exists run, cs, laps, fence].
  unfold before_drive, after_drive; cbn [app]; play.
Defined.

Definition before_retry : list (Event (Call (Conditions := unit))) :=
  [ Ev (GetRun "ns" "r") (Ok sample_run);
    Ev (State "i1") (Ok (Some (sample_state StepRunning "operator" "u1" "in_progress" (Some 10))));
    Ev Now 11; Ev (SandboxRelease "u1") tt; Ev (LapsUsed "u1") (Ok 2) ].

Lemma run_ends_with_cause_witness :
  exists run cs laps, re_enters plain_driver before_retry "i1" "u1" 4 run cs /\
    dying plain_driver before_retry run cs /\ answered before_retry (LapsUsed "u1") (Ok laps) /\ laps < maxRetries run.
Proof.
  destruct (run_ends_with_cause (fun c _ => (c, true)) (fun _ _ => false) (fun c _ => (c, false)) (fun _ => true)
    plain_driver (scripted (C := Call (Conditions := unit))) "ns" "r"
    (before_retry ++ [Ev (RetryEnter "i1" "u1" 4) (Ok (Some 5))])
    (before_retry ++ [Ev (RetryEnter "i1" "u1" 4) (Ok (Some 5))])
    (requeue (Resume.EqualJitter second backoffCap 3 (2 ^ 52))) []) as (Hretry & _);
    [|apply (Hretry "i1"%string "u1"%string 4 (Ok (Some 5)) before_retry []); reflexivity].
  unfold before_retry; cbn [app]; play.
Defined.
