(* ===== verification/HeartbeatProps.v ===== *)
(** The heartbeat sweep releases only on proof, writes exactly what its action
    says, and keeps a healthy claim alive; and what a stale row does. *)
From S2P Require Import Prelude Calls Machine CoordDb CoordTx Custody Sweeps Heartbeat.
From S2P Require Settle ProdClaim ProdEffects DriverClaims Driver DriverProps.
Open Scope Z_scope.
Open Scope k8s_scope.

(** * The decision *)

(** The checkers of the production wiring, each with the cluster as it reads it. *)
Definition live_checks {Conditions : Set} (find : Conditions -> string -> option string)
    (exists_at pods_at wait_at mesh_at : LiveRuns (Conditions := Conditions)) : Checks :=
  {| Runs := Some (RunExists (Some exists_at)); Live := Some (HasLiveSandbox (Some pods_at));
     EndpointWait := Some (IsWaitingForEndpointSlot find (Some wait_at));
     MeshQueueWait := Some (IsQueuedAtSupervisor find (Some mesh_at)) |}.

Lemma existsb_uid {Conditions : Set} runID (runs : list (RunObject (Conditions := Conditions))) :
  existsb (fun r => bool_decide (ro_uid r = runID)) runs = true <-> exists r, r ∈ runs /\ ro_uid r = runID.
Proof. rewrite existsb_exists. setoid_rewrite list_elem_of_In. by setoid_rewrite bool_decide_eq_true. Qed.

(** A waiter's check that lets the row be released answered no. *)
Lemma waiter_no {Conditions : Set} find type (l : LiveRuns (Conditions := Conditions)) hc :
  negb (waiter (Some (carries find type (Some l))) hc) = true -> holderRun hc <> "" ->
  exists runs, list_runs l = Some runs /\ condition_true find type (holderRun hc) runs = false.
Proof.
  unfold waiter. intros Hw Hr. rewrite bool_decide_eq_false_2 in Hw by done. cbn in Hw.
  rewrite bool_decide_eq_false_2 in Hw by done. destruct (list_runs l) as [runs|]; cbn in Hw; [|done].
  exists runs. split; [done|]. by apply negb_true_iff.
Qed.

(** The zombie gate of a Run the sweep saw. *)
Lemma zombie_cases {Conditions : Set} grace find (exists_at pods_at wait_at mesh_at : LiveRuns (Conditions := Conditions)) now hc :
  holderRun hc <> "" -> IsTerminal (step hc) = false ->
  (exists runs r, list_runs exists_at = Some runs /\ r ∈ runs /\ ro_uid r = holderRun hc) ->
  match zombieGate grace (live_checks find exists_at pods_at wait_at mesh_at) now hc with
  | ActReleaseZombie => PhaseOf (step hc) <> PhasePaused /\
      (exists t, acquiredAt hc = Some t /\ (if grace <=? 0 then DefaultZombieStallGrace else grace) < now - t) /\
      (exists pods, list_pods pods_at (holderRun hc) = Some pods /\
         forall p, p ∈ pods -> po_deleting p = true \/ po_phase p = "Succeeded" \/ po_phase p = "Failed") /\
      (exists runs, list_runs wait_at = Some runs /\ condition_true find ConditionEndpointSlotWait (holderRun hc) runs = false) /\
      (exists runs, list_runs mesh_at = Some runs /\ condition_true find ConditionQueuedAtSupervisor (holderRun hc) runs = false)
  | ActRenew => True
  | _ => False
  end.
Proof.
  intros Hr Ht He. unfold zombieGate, endpointSlotWaiter, meshQueueWaiter. cbn [Live live_checks].
  destruct (negb _ && negb _ && _) eqn:Hg; [|done]. cbn [HasLiveSandbox]. rewrite bool_decide_eq_false_2 by done.
  destruct (list_pods pods_at _) as [pods|] eqn:Hp; cbn; [|done].
  destruct (negb (existsb _ _) && _ && _) eqn:Hz; [|done].
  apply andb_true_iff in Hg as [[_ Hpa]%andb_true_iff Hst]. apply andb_true_iff in Hz as [[Hl Hw]%andb_true_iff Hm].
  split_and!.
  - intros E. unfold isPausedStep in Hpa. by rewrite E in Hpa.
  - unfold stalled in Hst. destruct (acquiredAt hc) as [t|]; [|done]. exists t. split; [done|]. reflect_bools. lia.
  - exists pods. split; [done|]. intros p Hin. apply negb_true_iff in Hl.
    destruct (po_deleting p) eqn:Hd; [by left|right].
    destruct (decide (po_phase p ∈ ["Succeeded"; "Failed"])) as [Hin'|Hn]; [set_solver|]. exfalso.
    assert (existsb (fun p => negb (po_deleting p) && negb (bool_decide (po_phase p ∈ ["Succeeded"; "Failed"]))) pods = true) as E.
    { apply existsb_exists. exists p. split; [by apply list_elem_of_In|]. rewrite Hd. cbn. by rewrite bool_decide_eq_false_2. }
    congruence.
  - by apply waiter_no in Hw.
  - by apply waiter_no in Hm.
Qed.

(** C8: A release needs proof. With the production checkers, the sweep releases a
    row as an orphan only when the Run list it read holds no Run of that UID, and as
    a zombie only when the Run is there and in neither a paused nor a terminal step,
    the claim is older than the grace, the pod list it read shows no pod that is
    neither terminating nor ended, and the Run was found waiting neither for an
    endpoint slot nor at the Supervisor. A list that fails never releases a row; if
    it is the first, the renewal is skipped, and every other row is renewed. *)
Theorem release_needs_proof {Conditions : Set} find (exists_at pods_at wait_at mesh_at : LiveRuns (Conditions := Conditions))
    grace now hc :
  holderRun hc <> "" ->
  match decide_row grace (live_checks find exists_at pods_at wait_at mesh_at) now hc with
  | ActReleaseTerminal => IsTerminal (step hc) = true
  | ActReleaseOrphan => IsTerminal (step hc) = false /\
      exists runs, list_runs exists_at = Some runs /\ forall r, r ∈ runs -> ro_uid r <> holderRun hc
  | ActReleaseZombie => IsTerminal (step hc) = false /\ PhaseOf (step hc) <> PhasePaused /\
      (exists runs r, list_runs exists_at = Some runs /\ r ∈ runs /\ ro_uid r = holderRun hc) /\
      (exists t, acquiredAt hc = Some t /\ (if grace <=? 0 then DefaultZombieStallGrace else grace) < now - t) /\
      (exists pods, list_pods pods_at (holderRun hc) = Some pods /\
         forall p, p ∈ pods -> po_deleting p = true \/ po_phase p = "Succeeded" \/ po_phase p = "Failed") /\
      (exists runs, list_runs wait_at = Some runs /\ condition_true find ConditionEndpointSlotWait (holderRun hc) runs = false) /\
      (exists runs, list_runs mesh_at = Some runs /\ condition_true find ConditionQueuedAtSupervisor (holderRun hc) runs = false)
  | ActSkip => IsTerminal (step hc) = false /\ list_runs exists_at = None
  | ActRenew => IsTerminal (step hc) = false /\
      exists runs r, list_runs exists_at = Some runs /\ r ∈ runs /\ ro_uid r = holderRun hc
  end.
Proof.
  intros Hr. unfold decide_row. destruct (IsTerminal (step hc)) eqn:Ht; [done|]. cbn [Runs live_checks].
  rewrite bool_decide_eq_false_2 by done. cbn [RunExists]. rewrite bool_decide_eq_false_2 by done.
  destruct (list_runs exists_at) as [runs|] eqn:Hruns; cbn [fmap option_fmap option_map]; [|done].
  destruct (existsb _ runs) eqn:He.
  - apply existsb_uid in He as (r & Hin & Hu).
    assert (exists runs r, list_runs exists_at = Some runs /\ r ∈ runs /\ ro_uid r = holderRun hc) as Hex by eauto.
    pose proof (zombie_cases grace find exists_at pods_at wait_at mesh_at now hc Hr Ht Hex) as Hz.
    rewrite Hruns in Hex. revert Hz. destruct (zombieGate _ _ _ _); try done.
    intros (? & ? & ? & ? & ?). by split_and!.
  - split; [done|]. exists runs. split; [done|]. intros r Hin Hu.
    assert (existsb (fun r => bool_decide (ro_uid r = holderRun hc)) runs = true) by (apply existsb_uid; eauto).
    congruence.
Qed.

(** * The writes *)

(** The row the sweep read is still the claim. *)
Definition current (hc : heldClaim) (c : ClaimRow) : Prop :=
  holder_principal c = Some (hc_principal hc) /\ run_id c = Some (holderRun hc) /\ fence_token c = fence hc /\
  reconcile_step c = step hc.

Definition release_step (a : Action) (s : Step) : Step := match a with ActReleaseTerminal => s | _ => StepFailed end.
Definition release_word (a : Action) (s : Step) : string :=
  match a with
  | ActReleaseTerminal => step_string s
  | ActReleaseOrphan => "orphan_run_deleted"
  | _ => "zombie_no_sandbox"
  end.
(** The lane an item in progress goes to; a success leaves it. *)
Definition release_lane (a : Action) (s : Step) : string :=
  match a with
  | ActReleaseTerminal => match s with StepSucceeded => "in_progress" | StepCancelled => "cancelled" | _ => "todo" end
  | _ => "todo"
  end.
Definition releases (a : Action) : bool :=
  match a with ActReleaseTerminal | ActReleaseOrphan | ActReleaseZombie => true | _ => false end.

Lemma terminal_three s : IsTerminal s = true -> s = StepSucceeded \/ s = StepFailed \/ s = StepCancelled.
Proof.
  intros H%bool_decide_eq_true. unfold terminalSteps in H. rewrite !elem_of_cons in H.
  destruct H as [->|[->|[->|[]%elem_of_nil]]]; auto.
Qed.

Definition lane_put (env : TxEnv) (item lane : string) (d : Db) : Db :=
  match items d !! item with
  | Some w => if bool_decide (it_state w = "in_progress") then put_lane (tx_now env) item lane w d else d
  | None => d
  end.

(** The books of a release, on the database with the custody cleared. *)
Definition booked (env : TxEnv) (hc : heldClaim) (key word lane : string) (d : Db) : Db :=
  let d := add_audit (released_audit hc word) d in
  let d := add_outbox (released_event hc key word d) d in
  if bool_decide (lane = "") then d else lane_put env (workItemID hc) lane d.

Lemma run_lane {B C} env label item lane (k : bool -> Tx B C) d :
  no_fault env -> exists moved,
  tbind (Settle.leave_in_progress label item lane) k env d = k moved env (lane_put env item lane d).
Proof.
  intros Hf. unfold Settle.leave_in_progress. rewrite run_stmt by done. unfold lane_put.
  destruct (items d !! item); [case_bool_decide|]; eauto.
Qed.

Lemma releaseTerminal_run env hc d :
  no_fault env -> holderRun hc <> "" ->
  (releaseTerminal env hc d).1 =
    booked env hc "step" (step_string (step hc))
      (if bool_decide (step hc = StepSucceeded) then "" else Settle.SettleLaneOf (step_string (step hc)))
      (match claims d !! workItemID hc with
       | Some c => if sql_eqb (run_id c) (holderRun hc) && Settle.terminal_step (reconcile_step c)
                   then put_claim (workItemID hc) (cleared (reconcile_step c) c) d else d
       | None => d
       end).
Proof.
  intros Hf Hr. unfold releaseTerminal. rewrite bool_decide_eq_false_2 by done.
  rewrite run_tx by done. unfold releaseTerminalTx. cbv zeta. rewrite !run_exec by done. unfold booked.
  case_bool_decide; cbn [negb andb]; [done|]. case_bool_decide; cbn [negb]; [done|].
  match goal with |- context [tbind (Settle.leave_in_progress ?l ?i ?la) ?k env ?x] =>
    destruct (run_lane env l i la k x Hf) as [m ->] end. done.
Qed.

Lemma releaseDead_run env hc reason d :
  no_fault env -> holderRun hc <> "" ->
  (releaseDead env hc reason d).1 =
    match claims d !! workItemID hc with
    | Some c => if sql_eqb (run_id c) (holderRun hc) && bool_decide (is_Some (holder_principal c))
                then booked env hc "reason" reason "todo" (put_claim (workItemID hc) (cleared StepFailed c) d) else d
    | None => d
    end.
Proof.
  intros Hf Hr. unfold releaseDead. rewrite bool_decide_eq_false_2 by done.
  rewrite run_tx by done. unfold releaseDeadTx. rewrite run_stmt by done.
  destruct (claims d !! workItemID hc) as [c|]; [|done]. destruct (_ && _); [|done]. cbn [fst snd].
  rewrite !run_exec by done.
  match goal with |- context [tbind (Settle.leave_in_progress ?l ?i ?la) ?k env ?x] =>
    destruct (run_lane env l i la k x Hf) as [m ->] end. done.
Qed.

(** What the books of a release leave alone, and the lane. *)
Lemma booked_exact env hc key word lane d w :
  items d !! workItemID hc = Some w -> lane ∈ ["cancelled"; "todo"] \/ lane = "" ->
  let d' := booked env hc key word lane d in
  claims d' = claims d /\
  (exists w', items d' = <[workItemID hc := w']> (items d) /\ item_le w w' /\
     it_state w' = if bool_decide (it_state w = "in_progress") && negb (bool_decide (lane = "")) then lane else it_state w) /\
  audits d' = audits d ++ [released_audit hc word] /\ length (outbox d') = S (length (outbox d)) /\
  comments d' = comments d /\ a2a_dispatch d' = a2a_dispatch d /\ sandbox_bind d' = sandbox_bind d.
Proof.
  intros Hw Hl d'. subst d'. unfold booked.
  set (d1 := add_outbox _ _). assert (items d1 = items d) as Hi by done.
  assert (length (outbox d1) = S (length (outbox d))) as Ho.
  { cbn. unfold released_event, outbox_row. cbn. rewrite Hw, length_app. cbn. lia. }
  case_bool_decide as He; cbn [negb]; [|unfold lane_put; rewrite Hi, Hw; case_bool_decide as Hp]; cbn [andb];
    rewrite ?andb_false_r; split_and!; try done.
  - exists w. split_and!; [by rewrite insert_id|done|done].
  - eexists. split; [reflexivity|]. split; [|done]. unfold item_le; cbn. split_and!; try done. right. unfold engine_lanes.
    rewrite Hp. destruct Hl as [Hl|]; [|done]. set_solver.
  - exists w. split_and!; [by rewrite insert_id|done|done].
Qed.

(** A release is exact. When the row the sweep read is still the claim and no
    statement fails, a release clears the holder, the run and the lease and nothing
    else of the claim but the step, which a terminal release keeps and the others
    make failed: the fence and the instant of the acquire stay. It appends one
    claim_released row, with the fence and the step or the reason, and one event;
    an item in progress returns to todo, goes to cancelled for a cancelled Run, and
    stays for a success; an item in any other lane, every other claim and every
    other item are untouched. *)
Theorem release_exact env a hc d c w :
  no_fault env -> releases a = true -> holderRun hc <> "" ->
  (a = ActReleaseTerminal -> IsTerminal (step hc) = true) ->
  claims d !! workItemID hc = Some c -> current hc c -> items d !! workItemID hc = Some w ->
  let d' := act 0 env a hc d in
  claims d' = <[workItemID hc := cleared (release_step a (step hc)) c]> (claims d) /\
  (exists w', items d' = <[workItemID hc := w']> (items d) /\ item_le w w' /\
     it_state w' = if bool_decide (it_state w = "in_progress") then release_lane a (step hc) else it_state w) /\
  audits d' = audits d ++ [released_audit hc (release_word a (step hc))] /\
  length (outbox d') = S (length (outbox d)) /\
  comments d' = comments d /\ a2a_dispatch d' = a2a_dispatch d /\ sandbox_bind d' = sandbox_bind d.
Proof.
  intros Hf Ha Hr Ht Hc (Hp & Hrun & Hfe & Hs) Hw d'.
  assert (exists key lane, (lane ∈ ["cancelled"; "todo"] \/ lane = "") /\
    d' = booked env hc key (release_word a (step hc)) lane
           (put_claim (workItemID hc) (cleared (release_step a (step hc)) c) d) /\
    (if bool_decide (lane = "") then "in_progress"%string else lane) = release_lane a (step hc))
    as (key & lane & Hl & -> & Hlane).
  { destruct a; try discriminate Ha; subst d'; cbn [act].
    - rewrite releaseTerminal_run, Hc, Hrun, sql_eqb_refl, Hs by done.
      exists "step"%string. destruct (terminal_three _ (Ht eq_refl)) as [E|[E|E]]; rewrite E;
        eexists; (split; [|split; [reflexivity|]]); cbn; try done; try (right; reflexivity); left; set_solver.
    - unfold releaseOrphan. rewrite releaseDead_run, Hc, Hrun, sql_eqb_refl, Hp by done.
      rewrite (bool_decide_eq_true_2 (is_Some _)) by by eexists. exists "reason"%string, "todo"%string.
      split; [left; set_solver|done].
    - unfold releaseZombie. rewrite releaseDead_run, Hc, Hrun, sql_eqb_refl, Hp by done.
      rewrite (bool_decide_eq_true_2 (is_Some _)) by by eexists. exists "reason"%string, "todo"%string.
      split; [left; set_solver|done]. }
  destruct (booked_exact env hc key (release_word a (step hc)) lane
    (put_claim (workItemID hc) (cleared (release_step a (step hc)) c) d) w Hw Hl) as (? & (w' & ? & ? & Hst) & ?).
  split; [done|]. split; [|done]. exists w'. split_and!; [done..|]. rewrite Hst.
  case_bool_decide as Hin; cbn [andb]; [|done]. rewrite <- Hlane. case_bool_decide; [by cbn|done].
Qed.

(** * Healthy claims stay alive *)

(** An action writes to its own item only. *)
Definition same_item (i : string) (d d' : Db) : Prop := claims d' !! i = claims d !! i /\ items d' !! i = items d !! i.

#[export] Instance same_item_preorder i : PreOrder (same_item i).
Proof. split; [by split|]. intros d1 d2 d3 [] []. split; congruence. Qed.

Lemma act_other lease env a hc d i : workItemID hc <> i -> same_item i d (act lease env a hc d).
Proof.
  intros Hne. assert (forall c d1, same_item i d d1 -> same_item i d (put_claim (workItemID hc) c d1)) as Hc.
  { intros c d1 []. split; [|done]. cbn. by rewrite lookup_insert_ne. }
  assert (forall env lane w d1, same_item i d d1 -> same_item i d (put_lane env (workItemID hc) lane w d1)) as Hl.
  { intros env' lane w d1 []. split; [done|]. cbn. by rewrite lookup_insert_ne. }
  assert (forall B label lane, keeps (B := B) (same_item i d) (Settle.leave_in_progress label (workItemID hc) lane)) as Hk.
  { intros. unfold Settle.leave_in_progress. tx_walk. repeat case_match; simplify_eq/=; auto. }
  assert (same_item i d d) as Hd by done.
  destruct a; cbn [act]; [..|done|]; unfold releaseTerminal, releaseOrphan, releaseZombie, releaseDead, renew, ProdClaim.Renew;
    (case_bool_decide; [done|]).
  1-3: apply (keeps_runTx (same_item i d)); [|done]; unfold releaseTerminalTx, releaseDeadTx; cbv zeta; tx_walk; auto;
    repeat case_match; simplify_eq/=; auto.
  apply (keeps_autocommit (same_item i d)); [|done]. intros env' d1 Hd1. cbv zeta. repeat case_match; simplify_eq/=; auto.
Qed.

Section alive.
Context (grace lease : Z) (i u : string) (Hu : u <> "").
Implicit Types (d : Db) (c : ClaimRow) (t : Turn).

(** Held by the Run, in flight, its lease good until [e] at least. *)
Definition alive (e : Z) d : Prop :=
  wf d /\ exists c w le, claims d !! i = Some c /\ items d !! i = Some w /\ it_state w <> "done" /\
    is_Some (holder_principal c) /\ run_id c = Some u /\ IsTerminal (reconcile_step c) = false /\
    lease_expires_at c = Some le /\ e <= le.

(** The cluster as the sweep sees it leaves the Run alone, and the others do, too;
    the renewal meets no fault, at a clock in [from, to]. *)
Record healthy_turn (from to : Z) t : Prop := {
  ht_before : forall d, wf d -> wf (before t d) /\ same_item i d (before t d);
  ht_exists : match Runs (checks t) with Some f => f u = Some true | None => True end;
  ht_live : match Live (checks t) with Some f => f u <> Some false | None => True end;
  ht_fault : faulty (tn_env t) "renew" = false;
  ht_clock : from <= clock (tn_env t) "renew" <= to;
}.

Lemma healthy_decision from to t hc :
  healthy_turn from to t -> holderRun hc = u -> IsTerminal (step hc) = false ->
  decide_row grace (checks t) (tn_now t) hc = ActRenew.
Proof.
  intros [_ He Hl _ _] Hr Ht. unfold decide_row. rewrite Ht, Hr, bool_decide_eq_false_2 by done.
  assert (zombieGate grace (checks t) (tn_now t) hc = ActRenew) as Hz.
  { unfold zombieGate. rewrite Hr. destruct (Live (checks t)) as [f|]; [|done]. destruct (_ && _); [|done].
    destruct (f u) as [[]|]; done. }
  destruct (Runs (checks t)) as [f|]; [|done]. by rewrite He.
Qed.

Lemma sweep_row_wf t hc d : (forall d, wf d -> wf (before t d)) -> wf d -> wf (sweep_row grace lease t hc d).
Proof.
  intros Hb Hd. unfold sweep_row. apply (sweep_writes_stable wf wf_sweep_stable (fun _ => 0) (fun s => s) (fun _ => "") (fun s => s)
    (before t d)); [apply s_act|auto].
Qed.

Lemma row_other from to t hc d e :
  healthy_turn from to t -> alive e d -> workItemID hc <> i ->
  alive e (sweep_row grace lease t hc d) /\ same_item i d (sweep_row grace lease t hc d).
Proof.
  intros Ht (Hwf & c & w & le & Hc & Hw & ?) Hi.
  destruct (ht_before _ _ _ Ht d Hwf) as [_ [Hbc Hbi]].
  destruct (act_other lease (tn_env t) (decide_row grace (checks t) (tn_now t) hc) hc (before t d) i Hi) as [Hac Hai].
  split; [|split; unfold sweep_row; congruence].
  split; [apply sweep_row_wf; [intros; by apply (ht_before _ _ _ Ht)|done]|].
  unfold sweep_row. exists c, w, le. by rewrite Hac, Hai, Hbc, Hbi.
Qed.

(** The turn of the claim itself renews it. *)
Lemma row_self from to t hc d e c :
  healthy_turn from to t -> alive e d -> to < e -> workItemID hc = i -> claims d !! i = Some c -> current hc c ->
  alive (from + lease) (sweep_row grace lease t hc d).
Proof.
  intros Ht (Hwf & c' & w & le & Hc' & Hw & Hdone & Hh & Hr & Hs & Hle & He) Hto Hi Hc (Hp & Hrc & Hf & Hst).
  assert (c' = c) as -> by congruence. assert (holderRun hc = u) as Hru by congruence.
  destruct (ht_before _ _ _ Ht d Hwf) as [_ [Hbc Hbi]]. pose proof (ht_clock _ _ _ Ht) as Hck.
  split; [apply sweep_row_wf; [intros; by apply (ht_before _ _ _ Ht)|done]|].
  unfold sweep_row. rewrite (healthy_decision from to) by (try done; by rewrite <- Hst).
  cbn [act]. unfold renew. rewrite bool_decide_eq_false_2 by congruence.
  unfold ProdClaim.Renew, autocommit. rewrite (ht_fault _ _ _ Ht). cbv zeta. rewrite Hi, Hbc, Hc, Hbi, Hw.
  unfold ProdClaim.live_custody. rewrite Hp, Hrc, Hle, Hf, !sql_eqb_refl, Z.eqb_refl.
  rewrite (bool_decide_eq_false_2 (it_state w = "done")) by done.
  assert (sql_gtb (Some le) (clock (tn_env t) "renew") = true) as -> by (apply Z.ltb_lt; lia).
  cbn. exists (ProdClaim.renewed c lease (clock (tn_env t) "renew")), w, (clock (tn_env t) "renew" + lease).
  cbn. rewrite lookup_insert_eq. split_and!; try done; [congruence|lia].
Qed.

(** ** The pass *)

Lemma due_spec env d :
  wf d -> faulty env "list held claims" = false ->
  exists held, due env d = (d, Ok held) /\ NoDup (workItemID <$> held) /\
    (forall hc, hc ∈ held -> exists c, claims d !! workItemID hc = Some c /\ current hc c) /\
    (forall j c, claims d !! j = Some c -> is_Some (holder_principal c) -> exists hc, hc ∈ held /\ workItemID hc = j).
Proof.
  intros Hwf Hf. unfold due, autocommit. rewrite Hf.
  set (row := fun kv : string * ClaimRow => match held_row kv with Some (Some hc) => Some hc | _ => None end).
  assert (forall l, Forall (fun kv => claim_ok kv.2) l -> mapM id (omap held_row l) = Some (omap row l)) as Hm.
  { intros l. induction 1 as [|[j c] l (_ & _ & Hh & _) Hl IH]; [done|]. cbn in Hh.
    unfold row at 1. cbn. destruct (holder_principal c) as [p|] eqn:Hp; [|done].
    destruct (Hh ltac:(by eexists)) as ([r Hr] & _). rewrite Hr. cbn. unfold id in *. by rewrite IH. }
  rewrite Hm.
  2: { rewrite Forall_forall. intros [j c] Hin%elem_of_map_to_list. by eapply wf_claims. }
  assert (forall kv hc, row kv = Some hc -> workItemID hc = kv.1 /\ current hc kv.2) as Hrow.
  { intros [j c] hc. unfold row, held_row. destruct (holder_principal c) eqn:Hp; [|done].
    destruct (run_id c) eqn:Hr; cbn; [|done]. intros [= <-]. by split_and!. }
  exists (omap row (map_to_list (claims d))). split; [done|]. split_and!.
  - pose proof (NoDup_fst_map_to_list (claims d)) as Hnd. revert Hnd. generalize (map_to_list (claims d)).
    induction l as [|kv l IH]; cbn; [constructor|]. rewrite NoDup_cons. intros [Hn Hnd].
    destruct (row kv) as [hc|] eqn:E; [|auto]. cbn. apply NoDup_cons. split; [|auto].
    apply Hrow in E as [-> _]. intros (hc' & Heq & (kv' & Hin & E')%list_elem_of_omap)%list_elem_of_fmap.
    apply Hrow in E' as [E' _]. apply Hn. rewrite Heq, E'. apply list_elem_of_fmap. eauto.
  - intros hc ([j c] & Hin%elem_of_map_to_list & E)%list_elem_of_omap. apply Hrow in E as [-> ?]. cbn in *. eauto.
  - intros j c Hj [p Hp]. destruct (wf_claims _ Hwf _ _ Hj) as (_ & _ & Hh & _).
    destruct (Hh ltac:(by eexists)) as ([r Hr] & _).
    eexists. split; [apply list_elem_of_omap; exists (j, c); split; [by apply elem_of_map_to_list|]|].
    + unfold row; cbn [held_row]. by rewrite Hp, Hr.
    + done.
Qed.

Lemma sweep_rows_app turn h1 h2 d :
  sweep_rows grace lease turn (h1 ++ h2) d =
  sweep_rows grace lease (fun n => turn (length h1 + n)%nat) h2 (sweep_rows grace lease turn h1 d).
Proof. revert turn d. induction h1 as [|hc h1 IH]; intros turn d; [done|]. cbn. by rewrite IH. Qed.

Lemma rows_other from to turn held d e :
  (forall n, healthy_turn from to (turn n)) -> alive e d -> i ∉ (workItemID <$> held) ->
  alive e (sweep_rows grace lease turn held d) /\ same_item i d (sweep_rows grace lease turn held d).
Proof.
  revert turn d. induction held as [|hc held IH]; intros turn d Ht Hd Hi; cbn in *; [done|].
  apply not_elem_of_cons in Hi as [Hne Hi].
  destruct (row_other from to (turn O) hc d e (Ht O) Hd ltac:(congruence)) as [Hd1 Hs1].
  destruct (IH (fun n => turn (S n)) _ (fun n => Ht (S n)) Hd1 Hi) as [Hd2 Hs2]. split; [done|]. by etrans.
Qed.

Lemma sweep_alive from to env turn d e :
  faulty env "list held claims" = false -> (forall n, healthy_turn from to (turn n)) -> to < e -> alive e d ->
  alive (from + lease) (sweep grace lease env turn d).
Proof.
  intros Hf Ht Hto Hd. pose proof Hd as (Hwf & c & w & le & Hc & _ & _ & Hh & _).
  destruct (due_spec env d Hwf Hf) as (held & Hdue & Hnd & Hcur & Hall). unfold sweep. rewrite Hdue.
  destruct (Hall _ _ Hc Hh) as (hc & Hin & Hi). apply list_elem_of_split in Hin as (h1 & h2 & ->).
  rewrite fmap_app, fmap_cons, NoDup_app, NoDup_cons in Hnd. destruct Hnd as (_ & Hn1 & Hn2 & _).
  rewrite Hi in *. rewrite sweep_rows_app. cbn [sweep_rows].
  destruct (rows_other from to turn h1 d e) as [Hd1 [Hs1 _]]; try done.
  { intros Hin. apply (Hn1 _ Hin). by left. }
  destruct (Hcur hc) as (c' & Hc' & Hcc); [apply elem_of_app; right; by left|]. rewrite Hi in Hc'.
  apply (rows_other from to); [intros n; apply Ht| |done].
  eapply (row_self from to); [apply Ht|done|done|done| |done]. by rewrite Hs1.
Qed.

(** ** Beats in time *)

(** A pass: its transaction, its turns, and the instants its renewals happen between. *)
Record Beat : Type := { bt_from : Z; bt_to : Z; bt_env : TxEnv; bt_turn : nat -> Turn }.

Definition beat_ok (b : Beat) : Prop :=
  faulty (bt_env b) "list held claims" = false /\ forall n, healthy_turn (bt_from b) (bt_to b) (bt_turn b n).

(** Each pass ends before the lease the one before left can lapse. *)
Fixpoint in_time (e : Z) (bs : list Beat) : Prop :=
  match bs with
  | [] => True
  | b :: rest => bt_to b < e /\ in_time (bt_from b + lease) rest
  end.

Definition beaten (bs : list Beat) d : Db := foldl (fun d b => sweep grace lease (bt_env b) (bt_turn b) d) d bs.
Definition expiry (e : Z) (bs : list Beat) : Z := foldl (fun _ b => bt_from b + lease) e bs.

Lemma beaten_alive bs d e : Forall beat_ok bs -> in_time e bs -> alive e d -> alive (expiry e bs) (beaten bs d).
Proof.
  intros Hb. revert d e. induction Hb as [|b bs [Hf Ht] _ IH]; intros d e Hin Hd; [done|]. destruct Hin as [Hto Hin].
  cbn. apply IH; [done|]. by apply (sweep_alive _ (bt_to b) _ _ _ e).
Qed.
End alive.

Definition any_driver : Driver.Driver :=
  {| Driver.Sandbox := true; Driver.BindClear := true; Driver.EndpointGate := true; Driver.Settle := true;
     Driver.HasNotify := true; Driver.HasNotifyPhase := true; Driver.HasRand := true; Driver.MaxPasses_ := 64 |}.

(** C7: Heartbeats outlast the lease. Take a claim in flight, its lease good until
    [e], and any sequence of sweeps, each over every held claim in whatever order
    and with whatever others write between its rows, so long as they leave this
    claim and its lane alone, the Run and its sandbox are found, and each sweep is
    done before the lease the one before left lapses. Then the claim is still held
    by its Run, with the lease the last sweep gave; and the drive loop that reads it
    at any instant up to there does not take it for dead, however long the Run. *)
Theorem heartbeats_outlast_the_lease {Conditions : Set} grace lease i u bs d e :
  u <> "" -> Forall (beat_ok i u) bs -> in_time lease e bs -> alive i u e d ->
  alive i u (expiry lease e bs) (beaten grace lease bs d) /\
  (forall is_uuid env cs W h (w : W) t b w',
   (DriverClaims.State is_uuid env i (beaten grace lease bs d)).2 = Ok (Some cs) ->
   runs (C := Driver.Call (Conditions := Conditions)) h (Driver.dead cs) w t b w' ->
   (forall now, answered t Driver.Now now -> now <= expiry lease e bs) -> b = false).
Proof.
  intros Hu Hb Hin Hd. pose proof (beaten_alive grace lease i u Hu bs d e Hb Hin Hd) as Ha.
  split; [done|]. destruct Ha as (_ & c & wk & le & Hc & Hw & _ & _ & _ & _ & Hle & He).
  intros is_uuid env cs W h w t b w' Hcs Hr Hnow.
  eapply (obeys_runs (DriverProps.discipline any_driver) any_answer h (fun _ _ => True)) in Hr as (_ & _ & Hpost);
    [|by intros|apply (DriverProps.ok_dead any_driver cs [])|exact I].
  destruct b; [|done]. destruct Hpost as (_ & _ & le' & now & Hle' & Hans & Hlt).
  assert (DriverClaims.cs_lease cs = Some le) as E.
  { revert Hcs. unfold DriverClaims.State, autocommit. case_match; [done|]. case_match; [done|]. cbn.
    rewrite Hc, Hw. by intros [= <-]. }
  rewrite E in Hle'. simplify_eq. specialize (Hnow _ Hans). lia.
Qed.

(** ** Three beats of a long run *)

Definition beat_at (start : Z) : Beat :=
  {| bt_from := start; bt_to := start + second; bt_env := quiet start;
     bt_turn := fun _ => {| before := id; checks := {| Runs := Some (fun _ => Some true); Live := Some (fun _ => Some true);
                                                        EndpointWait := None; MeshQueueWait := None |};
                            tn_now := start; tn_env := quiet start |} |}.

(** run-7 of [claimed_sample], in flight under a lease of 30 s from the instant 100. *)
Definition long_run : Db :=
  (runTx (quiet 100) (ProdClaim.claimTail (fun _ => 30 * second) sample_claimer None "agent" "run-7" "" "" "i1")
     (sample_db "todo")).1.

Lemma long_run_wf : wf long_run.
Proof.
  refine (sweep_writes_stable wf wf_sweep_stable (fun _ => 30 * second) id (fun _ => "") id _ _ _ sample_wf).
  apply s_writer, sample_claim.
Qed.

Lemma beat_at_ok start : beat_ok "i1" "run-7" (beat_at start).
Proof.
  split; [done|]. intros n. split; cbn; [by split| |done|done|unfold second; lia].
  reflexivity.
Qed.

Lemma heartbeats_outlast_the_lease_witness :
  alive "i1" "run-7" (60 * second)
    (beaten 0 (30 * second) (beat_at <$> [10 * second; 20 * second; 30 * second]) long_run).
Proof.
  destruct (heartbeats_outlast_the_lease (Conditions := unit) 0 (30 * second) "i1" "run-7"
    (beat_at <$> [10 * second; 20 * second; 30 * second]) long_run (30 * second)) as [Ha _].
  - discriminate.
  - apply Forall_fmap, Forall_true. intros start. apply beat_at_ok.
  - vm_compute. tauto.
  - split; [apply long_run_wf|]. do 3 eexists.
    split_and!; [vm_compute; reflexivity|vm_compute; reflexivity|discriminate|by eexists|..|reflexivity|];
      [reflexivity|reflexivity|vm_compute; discriminate].
  - exact Ha.
Defined.

(** ** Releases at concrete inputs *)

Definition no_conditions : unit -> string -> option string := fun _ _ => None.

(** A cluster with the Run and no pod of its own. *)
Definition run_without_pods : LiveRuns (Conditions := unit) :=
  {| list_runs := Some [{| ro_uid := "run-7"; ro_phase := "Running"; ro_conditions := tt |}];
     list_pods := fun _ => Some [{| po_deleting := true; po_phase := "Running" |}] |}.

Definition long_claim : heldClaim :=
  {| workItemID := "i1"; holderRun := "run-7"; hc_principal := "agent"; fence := 1; step := StepPending;
     acquiredAt := Some 100 |}.

Lemma release_needs_proof_witness :
  decide_row 0 (live_checks no_conditions run_without_pods run_without_pods run_without_pods run_without_pods)
    (601 * second) long_claim = ActReleaseZombie /\
  exists pods, list_pods run_without_pods "run-7" = Some pods /\
    forall p, p ∈ pods -> po_deleting p = true \/ po_phase p = "Succeeded" \/ po_phase p = "Failed".
Proof.
  pose proof (release_needs_proof no_conditions run_without_pods run_without_pods run_without_pods run_without_pods
    0 (601 * second) long_claim ltac:(discriminate)) as H.
  assert (decide_row 0 (live_checks no_conditions run_without_pods run_without_pods run_without_pods run_without_pods)
    (601 * second) long_claim = ActReleaseZombie) as E by (vm_compute; reflexivity).
  rewrite E in H. destruct H as (_ & _ & _ & _ & Hp & _). split; [exact E|exact Hp].
Defined.

Lemma release_exact_witness :
  let d' := act 0 (quiet 500) ActReleaseOrphan long_claim long_run in
  holder_principal <$> claims d' !! "i1" = Some None /\ it_state <$> items d' !! "i1" = Some "todo" /\
  length (outbox d') = S (length (outbox long_run)).
Proof.
  split; [vm_compute; reflexivity|]. split; [vm_compute; reflexivity|].
  destruct (release_exact (quiet 500) ActReleaseOrphan long_claim long_run
    (default unheld (claims long_run !! "i1")) (default (sample_item "todo") (items long_run !! "i1")))
    as (_ & _ & _ & Ho & _).
  - intros label. reflexivity.
  - reflexivity.
  - discriminate.
  - discriminate.
  - vm_compute. reflexivity.
  - split_and!; vm_compute; reflexivity.
  - vm_compute. reflexivity.
  - exact Ho.
Defined.

(** ** What a row read too early does *)

(** run-7 fails; the sweep reads its row; the effects free the claim and another
    Run takes the item. *)
Definition failed_row : heldClaim :=
  {| workItemID := "i1"; holderRun := "run-7"; hc_principal := "agent"; fence := 1; step := StepFailed;
     acquiredAt := Some 100 |}.

Definition taken_again : Db :=
  put_claim "i1" {| holder_principal := Some "agent"; run_id := Some "run-8"; fence_token := 2;
                    lease_expires_at := Some 900; acquired_at := Some 400; renewed_at := Some 400;
                    initiated_by := None; assignee_agent := None; reconcile_step := StepRunning;
                    reclaim_fenced_at := None |} (sample_db "in_progress").

(** The UPDATE of a terminal release matches no row, and yet the release is
    recorded, and the item leaves in_progress under the claim of the other Run. *)
Lemma stale_terminal_release :
  let d' := act 0 (quiet 500) ActReleaseTerminal failed_row taken_again in
  claims d' = claims taken_again /\ au_event <$> audits d' = ["claim_released"] /\
  it_state <$> items taken_again !! "i1" = Some "in_progress" /\ it_state <$> items d' !! "i1" = Some "todo".
Proof. vm_compute. auto. Qed.

(** The release of a dead Run looks neither at the fence nor at the step: it fails
    a Run that has succeeded since. *)
Lemma stale_dead_release :
  let d := put_claim "i1" {| holder_principal := Some "agent"; run_id := Some "run-7"; fence_token := 1;
                    lease_expires_at := Some 900; acquired_at := Some 100; renewed_at := Some 400;
                    initiated_by := None; assignee_agent := None; reconcile_step := StepSucceeded;
                    reclaim_fenced_at := None |} (sample_db "in_progress") in
  let d' := act 0 (quiet 500) ActReleaseZombie long_claim d in
  reconcile_step <$> claims d' !! "i1" = Some StepFailed /\ it_state <$> items d' !! "i1" = Some "todo".
Proof. vm_compute. auto. Qed.

(** A held claim without a Run fails the whole pass. *)
Lemma run_less_claim_fails_the_pass :
  let d := put_claim "i2" {| holder_principal := Some "agent"; run_id := None; fence_token := 1;
                    lease_expires_at := Some 900; acquired_at := Some 100; renewed_at := Some 400;
                    initiated_by := None; assignee_agent := None; reconcile_step := StepRunning;
                    reclaim_fenced_at := None |} long_run in
  (due (quiet 500) d).2 = Err (Infra "scan held claim").
Proof. vm_compute. reflexivity. Qed.
