(* ===== verification/IntakeProps.v ===== *)
(** The ticket intake: what the board's due query lists, the re-arm of a settled
    claim, the generation names and their round trip, the discipline of a pass,
    and the bound the circuit breaker puts on the Runs of an item. *)
From Stdlib Require Import Ascii.
From S2P Require Import Prelude GoStr Calls Machine CoordDb CoordTx Custody Sweeps Intake.
From S2P Require Settle DriverClaims ProdClaim ProdClaimProps Heartbeat.
Open Scope Z_scope.
Open Scope k8s_scope.

(** * The due query *)

#[local] Instance due_before_total : Total due_before.
Proof.
  intros x y. unfold due_before. destruct (Z.lt_trichotomy x.1 y.1) as [?|[E|?]]; [by left; left| |by right; left].
  rewrite E. destruct (total String.le (ID x.2) (ID y.2)); [left|right]; by right.
Qed.

#[local] Instance due_before_trans : Transitive due_before.
Proof.
  intros x y z [?|[Exy ?]] [?|[Eyz ?]]; unfold due_before; [left; lia..|].
  right. split; [congruence|]. by etrans.
Qed.

Lemma due_item_spec d id w at_ item :
  due_item d (id, w) = Some (at_, item) <->
  it_state w = "todo" /\ it_blocked w = None /\ ~ (it_source w = "discussion" /\ terminal_claim id d = true) /\
  at_ = it_created_at w /\
  exists team, it_team w = Some team /\
    item = {| ID := id; TeamID := team; ProjectID := it_project w; RequestedAgent := default "" (it_requested w);
              Source := it_source w |}.
Proof.
  unfold due_item. destruct (it_team w) as [team|]; [|naive_solver].
  destruct (bool_decide (it_state w = "todo")) eqn:Hs; cbn [andb]; [|reflect_bools; naive_solver].
  destruct (bool_decide (it_blocked w = None)) eqn:Hb; cbn [andb]; [|reflect_bools; naive_solver].
  destruct (bool_decide (it_source w = "discussion")) eqn:Hd; cbn [andb negb]; reflect_bools.
  - destruct (terminal_claim id d); cbn [negb]; naive_solver.
  - naive_solver.
Qed.

Definition all_due (d : Db) : list (Z * IntakeItem) := omap (due_item d) (map_to_list (items d)).

Lemma all_due_spec d x : x ∈ all_due d <-> exists w, items d !! ID x.2 = Some w /\ due_item d (ID x.2, w) = Some x.
Proof.
  destruct x as [at_ item]. unfold all_due. rewrite list_elem_of_omap. split.
  - intros ([id w] & Hin%elem_of_map_to_list & Hdue). pose proof Hdue as E. apply due_item_spec in E
      as (_ & _ & _ & _ & team & _ & ->). cbn. eauto.
  - intros (w & Hin & Hdue). exists (ID item, w). split; [by apply elem_of_map_to_list|done].
Qed.

Lemma all_due_nodup d : NoDup (ID <$> (snd <$> merge_sort due_before (all_due d))).
Proof.
  rewrite <- list_fmap_compose, (merge_sort_Permutation due_before (all_due d)).
  unfold all_due. pose proof (NoDup_fst_map_to_list (items d)) as Hk. revert Hk. generalize (map_to_list (items d)).
  induction l as [|[id w] l IH]; [constructor|]. rewrite fmap_cons, NoDup_cons. intros [Hn Hk].
  cbn [omap list_omap]. destruct (due_item d (id, w)) as [[at_ item]|] eqn:E; [|auto]. rewrite fmap_cons. apply NoDup_cons. split; [|auto].
  pose proof E as E'. apply due_item_spec in E' as (_ & _ & _ & _ & team & _ & ->). cbn.
  intros ([at' item'] & E1 & ([id' w'] & Hin & E2)%list_elem_of_omap)%list_elem_of_fmap.
  apply due_item_spec in E2 as (_ & _ & _ & _ & team' & _ & ->). cbn in E1. subst id'.
  apply Hn. apply list_elem_of_fmap. by exists (id, w').
Qed.

(** The due query is exact. When it does not fail, it changes nothing and lists
    distinct items, oldest first with the id breaking ties: only items with a team
    that wait on todo with no block and are not a discussion whose claim has ended,
    each with its own project, source and requested agent. At most as many as the
    limit, which is 32 where none is given; and a due item it leaves out comes after
    every item it lists, of which there are then as many as the limit. *)
Theorem due_exact env limit d :
  faulty env "list due work items" = false ->
  exists listed, DueWorkItems_sql env limit d = (d, Ok listed) /\
    NoDup (ID <$> listed) /\
    let cap := Z.to_nat (if limit <=? 0 then 32 else limit) in
    (length listed <= cap)%nat /\
    (forall item, item ∈ listed -> exists w, items d !! ID item = Some w /\ due_item d (ID item, w) = Some (it_created_at w, item)) /\
    (exists keyed, listed = snd <$> keyed /\ StronglySorted due_before keyed /\
       forall id w at_ item, items d !! id = Some w -> due_item d (id, w) = Some (at_, item) -> item ∉ listed ->
         length listed = cap /\ forall x, x ∈ keyed -> due_before x (at_, item)).
Proof.
  intros Hf. unfold DueWorkItems_sql, autocommit. rewrite Hf. unfold DefaultIntakeMaxPerPass.
  set (cap := Z.to_nat _). fold (all_due d). set (sorted := merge_sort due_before (all_due d)).
  assert (forall x, x ∈ sorted <-> x ∈ all_due d) as Hin.
  { intros x. unfold sorted. by rewrite (merge_sort_Permutation due_before (all_due d)). }
  assert (StronglySorted due_before sorted) as Hsorted by apply (StronglySorted_merge_sort _).
  pose proof (all_due_nodup d) as Hnd. fold sorted in Hnd.
  rewrite <- fmap_take. exists (snd <$> take cap sorted). split; [done|].
  rewrite <- (take_drop cap sorted) in Hsorted. split_and!.
  - exact (sublist_NoDup _ _ Hnd (fmap_sublist ID _ _ (fmap_sublist snd _ _ (sublist_take sorted cap)))).
  - rewrite length_fmap, length_take. lia.
  - intros item (x & -> & Hx)%list_elem_of_fmap. eapply elem_of_sublist in Hx; [|apply sublist_take].
    apply Hin, all_due_spec in Hx as (w & Hw & Hdue). exists w. split; [done|]. rewrite Hdue. destruct x as [at_ item].
    cbn in *. apply due_item_spec in Hdue as (_ & _ & _ & -> & _). done.
  - exists (take cap sorted). split; [done|]. split; [by eapply StronglySorted_app_1_l|].
    intros id w at_ item Hw Hdue Hout.
    assert ((at_, item) ∈ sorted) as Hs.
    { apply Hin, all_due_spec. pose proof Hdue as E. apply due_item_spec in E as (_ & _ & _ & _ & team & _ & ->). cbn. eauto. }
    rewrite <- (take_drop cap sorted), elem_of_app in Hs. destruct Hs as [Hs|Hs].
    { destruct Hout. apply list_elem_of_fmap. by exists (at_, item). }
    split; [|intros x Hx; by eapply StronglySorted_app_1_elem_of].
    rewrite length_fmap, length_take. apply list_elem_of_lookup_1 in Hs as [j Hj]. apply lookup_lt_Some in Hj.
    rewrite length_drop in Hj. lia.
Qed.

(** * Names and generations *)

Lemma prefix_r_head c s : c <> "-"%char -> String.prefix "-r" (String c s) = false.
Proof. intros Hc. cbn. by case_match. Qed.

Lemma after_last_r_unsigned s : unsigned s -> after_last_r s = None.
Proof.
  induction s as [|c s IH]; [done|]. intros (Hc & _ & Hs). cbn [after_last_r]. rewrite IH by done.
  by rewrite prefix_r_head.
Qed.

Lemma after_last_r_app pre s tail : after_last_r s = Some tail -> after_last_r (pre +:+ s) = Some tail.
Proof. intros Hs. induction pre as [|c pre IH]; [done|].
  change (after_last_r (String c (pre +:+ s)) = Some tail). cbn [after_last_r]. by rewrite IH.
Qed.

Lemma after_last_r_suffix s : unsigned s -> after_last_r ("-r" +:+ s) = Some s.
Proof.
  intros Hs. change ("-r" +:+ s) with (String "-" (String "r" s)).
  assert (after_last_r (String "r" s) = None) as E by (apply after_last_r_unsigned; split_and!; [discriminate|discriminate|done]).
  cbn [after_last_r] in *. rewrite E.
  replace (String.prefix "-r" (String "-" (String "r" s))) with true by (by destruct s).
  f_equal. cbn. rewrite Nat.sub_0_r. apply substring_all.
Qed.

Lemma runGeneration_pos name : 1 <= runGeneration name.
Proof. unfold runGeneration. repeat case_match; reflect_bools; lia. Qed.

(** The name of a generation after the first reads back as that generation. *)
Lemma runGeneration_intakeName item g agent : 1 <= g < 2 ^ 63 - 1 -> runGeneration (intakeName item g agent) = g + 1.
Proof.
  intros Hg. unfold intakeName. rewrite (proj2 (Z.ltb_lt 0 g)) by lia.
  unfold runGeneration.
  erewrite after_last_r_app. 2: { apply after_last_r_app, after_last_r_app, after_last_r_suffix, uint_unsigned. }
  fold (itoa (g + 1)). rewrite atoi_itoa by lia. by rewrite (proj2 (Z.ltb_lt 0 (g + 1))) by lia.
Qed.

(** * What a pass may do *)

(** Every listed Run of the item is over, and [g] is the highest of their
    generations, 0 for none. *)
Definition highest (runs : list RunCR) (item : string) (g : Z) : Prop :=
  (forall r, r ∈ runs -> rn_item r = item -> runPhaseTerminal (rn_phase r) = true /\ runGeneration (rn_name r) <= g) /\
  (g = 0 \/ exists r, r ∈ runs /\ rn_item r = item /\ runGeneration (rn_name r) = g).

Lemma run_index_spec runs item :
  item ∉ (run_index runs).1 -> highest runs item (default 0 ((run_index runs).2 !! item)).
Proof.
  unfold run_index. induction runs as [|r runs IH] using rev_ind; cbn.
  { intros _. split; [by intros r ?%elem_of_nil|]. left. by rewrite lookup_empty. }
  rewrite foldl_app. destruct (foldl _ _ runs) as [live high]. cbn in *. intros Hl.
  assert (item ∉ live) as Hl' by (revert Hl; case_match; set_solver). specialize (IH Hl') as [IH1 IH2].
  assert (rn_item r = item -> runPhaseTerminal (rn_phase r) = true) as Hph.
  { intros E. revert Hl. destruct (runPhaseTerminal _); [done|]. rewrite E. set_solver. }
  pose proof (runGeneration_pos (rn_name r)) as Hpos. destruct (decide (rn_item r = item)) as [E|Hne].
  - specialize (Hph E). rewrite E. destruct (default 0 (high !! item) <? _) eqn:Hlt; reflect_bools;
      rewrite ?lookup_insert_eq; cbn [default id]; split.
    + intros r' [Hin| ->%list_elem_of_singleton]%elem_of_app Hr'; [destruct (IH1 _ Hin Hr')|]; (split; [done|lia]).
    + right. exists r. split; [set_solver|done].
    + intros r' [Hin| ->%list_elem_of_singleton]%elem_of_app Hr'; [auto|]; (split; [done|lia]).
    + destruct IH2 as [E0|(r' & ? & ? & ?)]; [lia|]. right. exists r'. split; [set_solver|done].
  - assert (forall b : bool, default 0 ((if b then <[rn_item r := runGeneration (rn_name r)]> high else high) !! item)
      = default 0 (high !! item)) as -> by (intros []; [by rewrite lookup_insert_ne|done]).
    split.
    + intros r' [Hin| ->%list_elem_of_singleton]%elem_of_app Hr'; [auto|done].
    + destruct IH2 as [|(r' & ? & ? & ?)]; [by left|]. right. exists r'. split; [set_solver|done].
Qed.

Lemma team_index_spec teams uid team : team_index teams !! uid = Some team -> team ∈ teams /\ tm_uid team = uid.
Proof.
  unfold team_index. induction teams as [|t teams IH] using rev_ind; [done|]. rewrite foldl_app. cbn.
  rewrite lookup_insert_Some. intros [[E ->]|[_ H]]; [split; [set_solver|done]|].
  destruct (IH H). split; [set_solver|done].
Qed.

Definition is_create (e : Event Call) : bool :=
  match e with Ev (CreateRun _) _ => true | _ => false end.
Definition creations (h : list (Event Call)) : nat := length (List.filter is_create h).

Lemma creations_app h1 h2 : creations (h1 ++ h2) = (creations h1 + creations h2)%nat.
Proof. unfold creations. by rewrite List.filter_app, length_app. Qed.

Section discipline.
Context (i : Intake).
Implicit Types (h hist : list (Event Call)) (item : IntakeItem).

(** The item is due in this pass, owned by no Run, at generation [g]. *)
Definition chosen h item (g : Z) : Prop :=
  (exists due, answered h (DueWorkItems (maxPerPass i)) (Some due) /\ item ∈ due) /\
  exists runs, answered h ListRuns (Some runs) /\ highest runs (ID item) g.

Definition project_found h (ns projectID : string) (ref : ObjectRef) : Prop :=
  exists ps p, answered h ListProjects (Some ps) /\ p ∈ ps /\ Name ref = pj_name p /\
    ((pj_uid p = projectID /\ Namespace ref = if bool_decide (pj_namespace p = ns) then "" else pj_namespace p) \/
     (pj_name p = projectID /\ pj_namespace p = ns /\ Namespace ref = "")).

(** The Run of one agent of the composition, found where it is said to be. *)
Definition built h item (team : Team) (g : Z) (target : string) (fanOut : bool) (run : RunCR) : Prop :=
  exists a ns, find_agent team target = Some a /\ answered h (GetAgent ns target) true /\
    ns ∈ [Namespace a; tm_namespace team; tm_status_namespace team] /\ ns <> "" /\
    tm_status_namespace team <> "" /\
    rn_name run = intakeName (ID item) g (if fanOut then target else "") /\
    rn_namespace run = tm_status_namespace team /\ rn_item run = ID item /\
    rn_agents run = [agentRefForRun target ns (tm_status_namespace team)] /\
    Name (rn_team run) = tm_name team /\ project_found h (tm_status_namespace team) (ProjectID item) (rn_project run) /\
    rn_owner run = IntakePrincipal /\ rn_phase run = "".

Definition team_of h item (team : Team) : Prop :=
  exists teams, answered h ListTeams (Some teams) /\ team ∈ teams /\ tm_uid team = TeamID item.

(** The agent an item asks for; every agent for an item that asks for none. *)
Definition asked_for item (team : Team) (target : string) (fanOut : bool) : Prop :=
  if fanOut then RequestedAgent item = "" /\ exists a, a ∈ tm_agents team /\ Name a = target
  else RequestedAgent item <> "" /\
       (if teamHasAgent team (RequestedAgent item) then target = RequestedAgent item
        else exists a, head (tm_agents team) = Some a /\ Name a = target).

Definition ready h item (g : Z) (run : RunCR) : Prop :=
  exists team target fanOut, team_of h item team /\ asked_for item team target fanOut /\ built h item team g target fanOut run.

Definition discipline h X (c : Call X) : Prop :=
  match c with
  | DueWorkItems limit => limit = maxPerPass i
  | RearmSettled id => exists item g, ID item = id /\ chosen h item g /\ g < maxGenerations i
  | ParkWorkItem id reason => exists item g, ID item = id /\ chosen h item g /\ maxGenerations i <= g /\
                                             reason = breaker_reason i
  | CreateRun run => exists item g, chosen h item g /\ g < maxGenerations i /\ answered h (RearmSettled (ID item)) true /\
                                    ready h item g run /\ Z.of_nat (creations h) < maxPerPass i
  | _ => True
  end.

Notation ok := (obeys discipline any_answer).

(** The history went on without a Run created. *)
Definition grows h h' : Prop := h `prefix_of` h' /\ creations h' = creations h.

#[local] Instance grows_preorder : PreOrder grows.
Proof. split; [by split|]. intros h1 h2 h3 [] []. split; [by etrans|lia]. Qed.

Lemma grows_refl h : grows h h.
Proof. done. Qed.
#[local] Hint Resolve grows_refl : core.

Lemma grows_call h {X} (c : Call X) x : is_create (Ev c x) = false -> grows h (h ++ [Ev c x]).
Proof. intros Hc. split; [by eexists|]. rewrite creations_app. unfold creations at 2. cbn [List.filter]. rewrite Hc. cbn [length]. lia. Qed.

Lemma chosen_prefix h h' item g : h `prefix_of` h' -> chosen h item g -> chosen h' item g.
Proof. intros Hp ((due & ? & ?) & runs & ? & ?). split; [exists due|exists runs]; eauto using answered_prefix. Qed.

Lemma found_prefix h h' ns id ref : h `prefix_of` h' -> project_found h ns id ref -> project_found h' ns id ref.
Proof. intros Hp (ps & p & ? & ?). exists ps, p. eauto using answered_prefix. Qed.

Lemma built_prefix h h' item team g target f run : h `prefix_of` h' -> built h item team g target f run -> built h' item team g target f run.
Proof. intros Hp (a & ns & ? & ? & Hb). exists a, ns. naive_solver eauto using answered_prefix, found_prefix. Qed.

Lemma ready_prefix h h' item g run : h `prefix_of` h' -> ready h item g run -> ready h' item g run.
Proof.
  intros Hp (team & target & f & (teams & ? & ?) & ? & ?). exists team, target, f.
  split; [exists teams; eauto using answered_prefix|]. split; [done|]. by eapply built_prefix.
Qed.

Lemma ok_project ns id hist :
  ok (fun h res => grows hist h /\ forall ref, res = Some ref -> project_found h ns id ref) hist (resolveProject ns id).
Proof.
  unfold resolveProject. case_bool_decide; cbn [obeys pbind call]; [by split|]. split; [done|].
  intros [ps|] _; (split; [by apply grows_call|]); [|done]. set (h := hist ++ _).
  assert (answered h ListProjects (Some ps)) as Hps by apply answered_last.
  intros ref. destruct (head (filter _ ps)) as [p|] eqn:Hp.
  - intros [= <-]. apply head_Some_elem_of, list_elem_of_filter in Hp as [Hu Hin]. exists ps, p. do 3 (split; [done|]). by left.
  - intros (p & Hp' & ->)%fmap_Some.
    apply head_Some_elem_of, list_elem_of_filter in Hp' as [[Hns Hn] Hin]. exists ps, p. do 3 (split; [done|]). by right.
Qed.

Lemma candidates_in nss ns : ns ∈ candidates nss -> ns ∈ nss /\ ns <> "".
Proof.
  unfold candidates. induction nss as [|n nss IH] using rev_ind; cbn; [by intros ?%elem_of_nil|].
  rewrite foldl_app. cbn. destruct (_ || _) eqn:E.
  - intros H%IH. set_solver.
  - apply orb_false_iff in E as [E _]. reflect_bools. rewrite !elem_of_app, !list_elem_of_singleton.
    intros [H%IH| ->]; [tauto|]. split; [by right|done].
Qed.

Lemma ok_agent name nss hist :
  ok (fun h res => grows hist h /\ forall ns, res = Some ns -> answered h (GetAgent ns name) true /\ ns ∈ nss) hist
     (first_namespace name nss).
Proof.
  revert hist. induction nss as [|ns nss IH]; intros hist; cbn [first_namespace]; [by split|].
  cbn [obeys pbind call]. split; [done|]. intros [] _.
  - split; [by apply grows_call|]. intros ns' [= <-]. split; [apply answered_last|by left].
  - eapply obeys_weaken; [apply IH|]. cbn. intros h res _ [Hg Hres].
    split; [etrans; [|exact Hg]; by apply grows_call|]. intros ns' E. destruct (Hres _ E). split; [done|by right].
Qed.

Lemma ok_build item team g target fanOut hist :
  ok (fun h res => grows hist h /\ forall run, res = Some run -> built h item team g target fanOut run) hist
     (buildRunForAgent item team g target fanOut).
Proof.
  unfold buildRunForAgent. case_bool_decide as Hns; [by split|].
  apply obeys_bind. eapply obeys_weaken; [apply ok_project|]. intros h [ref|] _ [Hg Hp]; [|by split].
  destruct (find_agent team target) as [a|] eqn:Ha; [|by split].
  apply obeys_bind. eapply obeys_weaken; [apply ok_agent|]. intros h' [ns|] _ [Hg' Hn]; cbn [obeys].
  2: { split; [by etrans|done]. }
  split; [by etrans|]. intros run [= <-]. destruct (Hn _ eq_refl) as [Hget Hc%candidates_in].
  assert (Name a = target) as Hat.
  { unfold find_agent in Ha. by apply head_Some_elem_of, list_elem_of_filter in Ha as [? _]. }
  rewrite Hat in *. exists a, ns. unfold runObjectMeta. cbn. split_and!; try done; try tauto.
  - by case_match.
  - eapply found_prefix; [apply Hg'|auto].
Qed.

Lemma ok_buildAll item team g agents hist :
  ok (fun h runs => grows hist h /\ (length runs <= length agents)%nat /\
        forall run, run ∈ runs -> exists a, a ∈ agents /\ built h item team g (Name a) true run) hist
     (buildAll item team g agents).
Proof.
  revert hist. induction agents as [|a agents IH]; intros hist; cbn [buildAll].
  { cbn. split_and!; [done|done|by intros ? ?%elem_of_nil]. }
  apply obeys_bind. eapply obeys_weaken; [apply ok_build|]. intros h run _ [Hg Hb].
  apply obeys_bind. eapply obeys_weaken; [apply IH|]. intros h' runs _ (Hg' & Hl & Hr). cbn [obeys].
  split; [by etrans|]. destruct run as [run|]; cbn [length]; (split; [lia|]).
  - intros run' [->|Hin]%elem_of_cons.
    + exists a. split; [by left|]. eapply built_prefix; [apply Hg'|auto].
    + destruct (Hr _ Hin) as (b & ? & ?). exists b. split; [by right|done].
  - intros run' Hin. destruct (Hr _ Hin) as (b & ? & ?). exists b. split; [by right|done].
Qed.

Lemma ok_runsFor item team g left hist :
  team_of hist item team -> 1 <= left ->
  ok (fun h runs => grows hist h /\ Z.of_nat (length runs) <= left /\ Forall (ready h item g) runs) hist
     (runsFor item team g left).
Proof.
  intros Ht Hl. assert (forall h, grows hist h -> team_of h item team) as Hteam.
  { intros h [Hp _]. destruct Ht as (teams & ? & ?). exists teams. eauto using answered_prefix. }
  unfold runsFor. case_bool_decide as Hreq; cbn [negb].
  - eapply obeys_weaken; [apply ok_buildAll|]. intros h runs _ (Hg & Hlen & Hr). rewrite length_take in Hlen.
    split; [done|]. split; [lia|]. apply Forall_forall. intros run (a & Ha & Hb)%Hr.
    exists team, (Name a), true. split; [auto|]. split; [|done]. split; [done|]. exists a. split; [|done].
    eapply elem_of_sublist; [exact Ha|apply sublist_take].
  - destruct (if teamHasAgent team (RequestedAgent item) then _ else _) as [target|] eqn:Htg.
    2: { split_and!; [done|cbn; lia|constructor]. }
    apply obeys_bind. eapply obeys_weaken; [apply ok_build|]. intros h run _ [Hg Hb]. cbn [obeys].
    split; [done|]. destruct run as [run|]; (split; [cbn; lia|]); [|constructor]. apply Forall_singleton.
    exists team, target, false. split; [auto|]. split; [|auto]. split; [done|].
    destruct (teamHasAgent _ _); [congruence|]. destruct (head (tm_agents team)) as [a|]; [|done].
    exists a. split; [done|]. by injection Htg.
Qed.

Lemma ok_createAll item g runs hist :
  chosen hist item g -> g < maxGenerations i -> answered hist (RearmSettled (ID item)) true ->
  Forall (ready hist item g) runs -> Z.of_nat (creations hist) + Z.of_nat (length runs) <= maxPerPass i ->
  ok (fun h _ => hist `prefix_of` h /\ creations h = (creations hist + length runs)%nat) hist (createAll runs).
Proof.
  intros Hc Hg Ha Hr. revert hist Hc Ha Hr. induction runs as [|run runs IH]; intros hist Hc Ha Hr Hn; cbn [createAll].
  { cbn. split; [done|lia]. }
  apply Forall_cons in Hr as [Hrun Hr]. cbn [length] in Hn. cbn [obeys pbind call].
  split; [exists item, g; split_and!; try done; lia|]. intros x _. set (h := hist ++ _).
  assert (hist `prefix_of` h) as Hp by by eexists.
  assert (creations h = S (creations hist)) as Hcr by (unfold h; rewrite creations_app; unfold creations at 2; cbn; lia).
  eapply obeys_weaken; [apply IH|].
  - by eapply chosen_prefix.
  - by eapply answered_prefix.
  - eapply Forall_impl; [exact Hr|]. intros r. by apply ready_prefix.
  - lia.
  - cbn [length]. intros h' [] _ [Hp' Hcr']. split; [by etrans|lia].
Qed.

Lemma ok_dispatch teams runs item left hist :
  answered hist ListTeams (Some teams) -> answered hist ListRuns (Some runs) ->
  (exists due, answered hist (DueWorkItems (maxPerPass i)) (Some due) /\ item ∈ due) ->
  1 <= left -> Z.of_nat (creations hist) + left <= maxPerPass i ->
  ok (fun h n => hist `prefix_of` h /\ Z.of_nat (creations h) = Z.of_nat (creations hist) + n /\ n <= left) hist
     (dispatch i (team_index teams) (run_index runs).1 (run_index runs).2 item left).
Proof.
  intros Hteams Hruns Hdue Hl Hn. unfold dispatch. set (g := default 0 _).
  case_bool_decide as Hlive; [cbn; split_and!; [done|lia|lia]|].
  assert (chosen hist item g) as Hc by (split; [done|]; exists runs; split; [done|by apply run_index_spec]).
  destruct (maxGenerations i <=? g) eqn:Hg; reflect_bools; cbn [obeys pbind call].
  { split; [by exists item, g|]. intros x _.
    destruct (grows_call hist (ParkWorkItem (ID item) (breaker_reason i)) x eq_refl). split_and!; [done|lia|lia]. }
  split; [by exists item, g|]. intros [] _; cbn [negb].
  2: { destruct (grows_call hist (RearmSettled (ID item)) false eq_refl). split_and!; [done|lia|lia]. }
  set (h := hist ++ _).
  destruct (grows_call hist (RearmSettled (ID item)) true eq_refl) as [Hp Hcr]. fold h in Hp, Hcr.
  destruct (team_index teams !! TeamID item) as [team|] eqn:Ht; [|cbn; split_and!; [done|lia|lia]].
  apply team_index_spec in Ht as [Hin Huid]. apply obeys_bind. eapply obeys_weaken; [apply ok_runsFor; [|done]|].
  { exists teams. split; [by eapply answered_prefix|done]. }
  intros h' rs _ (Hgr & Hlen & Hready). assert (hist `prefix_of` h') as Hp' by (etrans; [exact Hp|apply Hgr]).
  apply obeys_bind. eapply obeys_weaken; [apply (ok_createAll item g)|]; [by eapply chosen_prefix|lia| |done| |].
  - eapply answered_prefix; [apply Hgr|apply answered_last].
  - destruct Hgr as [_ ->]. lia.
  - intros h'' [] _ [Hp'' Hcr'']. destruct Hgr as [_ Hgr]. cbn. split_and!; [by etrans|lia|lia].
Qed.

Lemma ok_dispatchAll teams runs due dispatched hist :
  answered hist ListTeams (Some teams) -> answered hist ListRuns (Some runs) ->
  (exists all, answered hist (DueWorkItems (maxPerPass i)) (Some all) /\ forall item, item ∈ due -> item ∈ all) ->
  Z.of_nat (creations hist) = dispatched -> dispatched <= maxPerPass i ->
  ok (fun h _ => Z.of_nat (creations h) <= maxPerPass i) hist
     (dispatchAll i (team_index teams) (run_index runs).1 (run_index runs).2 (maxPerPass i) dispatched due).
Proof.
  intros Hteams Hruns (all & Hall & Hin) Hn. revert hist dispatched Hteams Hruns Hall Hn.
  induction due as [|item due IH]; intros hist dispatched Hteams Hruns Hall Hn Hmax;
    cbn [dispatchAll]; [cbn; lia|].
  destruct (_ <=? _) eqn:Hlim; [cbn; lia|]. reflect_bools. apply obeys_bind.
  eapply obeys_weaken; [apply ok_dispatch; try done|]; [|lia|lia|].
  { exists all. split; [done|]. apply Hin. by left. }
  intros h n _ (Hp & Hcr & Hle). apply IH; [|by eapply answered_prefix..|lia|lia].
  intros item' ?. apply Hin. by right.
Qed.

Lemma maxPerPass_pos : 1 <= maxPerPass i.
Proof. unfold maxPerPass, DefaultIntakeMaxPerPass. case_match; reflect_bools; lia. Qed.

Lemma ok_sweep : ok (fun h _ => Z.of_nat (creations h) <= maxPerPass i) [] (sweep i).
Proof.
  pose proof maxPerPass_pos. unfold sweep. cbn [obeys pbind call]. split; [done|].
  intros [[|item due]|] _; [cbn; lia| |cbn; lia].
  cbn [obeys pbind call]. split; [done|]. intros [teams|] _; [|cbn; lia].
  cbn [obeys pbind call]. split; [done|]. intros [runs|] _; [|cbn; lia].
  destruct (run_index runs) as [live high] eqn:E.
  replace live with (run_index runs).1 by (by rewrite E). replace high with (run_index runs).2 by (by rewrite E).
  apply ok_dispatchAll; [eauto with k8s..| |done|lia].
  exists (item :: due). split; [|done]. by left.
Qed.

Lemma sweep_disciplined {W} (h : forall X, Call X -> W -> X -> W -> Prop) (w : W) t b w' :
  runs h (sweep i) w t b w' -> trace_ok discipline any_answer [] t /\ Z.of_nat (creations t) <= maxPerPass i.
Proof.
  intros Hr. eapply (obeys_runs discipline any_answer h (fun _ _ => True)) in Hr as (_ & Ht & Hn);
    [split; [exact Ht|exact Hn]|by intros|apply ok_sweep|done].
Qed.
End discipline.

(** * The properties *)

(** C10: A Run needs a due item. Whatever a pass is answered, it creates a Run only
    for an item the board listed as due, with no listed Run of the item still
    going, with the highest listed generation below the cap, after the re-arm of
    its claim succeeded; for the agent the item asks for, or the team's first if
    that one left, or for any agent of the composition if it asks for none, found
    in the namespace it is named with, in the board's Team and Project, unstarted,
    under the name of the next generation. It re-arms a claim only under the same
    conditions, and parks an item only at the cap. It creates at most MaxPerPass. *)
Theorem runs_need_due_items i {W} (h : forall X, Call X -> W -> X -> W -> Prop) (w : W) t b w' :
  runs h (sweep i) w t b w' ->
  (forall run x t1 t2, t = t1 ++ Ev (CreateRun run) x :: t2 ->
     exists item g, chosen i t1 item g /\ g < maxGenerations i /\ answered t1 (RearmSettled (ID item)) true /\
       ready t1 item g run) /\
  (forall id x t1 t2, t = t1 ++ Ev (RearmSettled id) x :: t2 ->
     exists item g, ID item = id /\ chosen i t1 item g /\ g < maxGenerations i) /\
  (forall id reason x t1 t2, t = t1 ++ Ev (ParkWorkItem id reason) x :: t2 ->
     exists item g, ID item = id /\ chosen i t1 item g /\ maxGenerations i <= g /\ reason = breaker_reason i) /\
  Z.of_nat (creations t) <= maxPerPass i.
Proof.
  intros [Hr Hn]%sweep_disciplined. split_and!; [..|done]; intros; subst; apply trace_ok_at in Hr as [Hd _]; [|exact Hd..].
  destruct Hd as (item & g & ? & ? & ? & ? & _). exists item, g. by split_and!.
Qed.

(** Generations count up. The name of a generation after the first parses back
    as that generation, and the name a pass gives an item is never that of a Run it
    listed for the item, whatever those are called, so a creation is not absorbed
    by an older Run. *)
Theorem next_generation_is_new item g agent :
  0 <= g < 2 ^ 63 - 1 ->
  (1 <= g -> runGeneration (intakeName item g agent) = g + 1) /\
  (forall runs, highest runs item g -> forall r, r ∈ runs -> rn_item r = item -> rn_name r <> intakeName item g agent).
Proof.
  intros Hg. split; [intros; apply runGeneration_intakeName; lia|].
  intros runs [Hall _] r Hin Hi E. destruct (Hall _ Hin Hi) as [_ Hle]. pose proof (runGeneration_pos (rn_name r)).
  assert (1 <= g) by lia. rewrite E, runGeneration_intakeName in Hle by lia. lia.
Qed.

(** The Runs a pass created, as the cluster answered. *)
Definition made (t : list (Event Call)) : list RunCR :=
  omap (fun e => match e with
                 | @Ev _ X c x => match c in Call X return X -> option RunCR with
                                  | CreateRun run => fun x => match x with CreatedOk => Some run | _ => None end
                                  | _ => fun _ => None
                                  end x
                 end) t.

Lemma made_created run t : run ∈ made t -> exists t1 t2, t = t1 ++ Ev (CreateRun run) CreatedOk :: t2.
Proof.
  unfold made. intros ([X c x] & Hin & He)%list_elem_of_omap. destruct c; try discriminate. destruct x; try discriminate.
  injection He as <-. by apply list_elem_of_split in Hin.
Qed.

(** The names a pass can give the Runs of an item. *)
Definition run_names (i : Intake) (item : string) (agents : list string) : list string :=
  seg ← "" :: agents; (fun g => intakeName item g seg) <$> seqZ 0 (maxGenerations i).

Lemma length_run_names i item agents :
  length (run_names i item agents) = (S (length agents) * Z.to_nat (maxGenerations i))%nat.
Proof.
  unfold run_names. change (S (length agents)) with (length ("" :: agents)). generalize ("" :: agents) as segs.
  induction segs as [|seg segs IH]; [done|]. rewrite bind_cons, length_app, length_fmap, length_seqZ, IH. cbn. lia.
Qed.

Lemma made_named i {W} (h : forall X, Call X -> W -> X -> W -> Prop) (w : W) t b w' run agents :
  runs h (sweep i) w t b w' -> run ∈ made t -> Forall (fun a => Name a ∈ agents) (rn_agents run) ->
  rn_name run ∈ run_names i (rn_item run) agents.
Proof.
  intros Hr (t1 & t2 & ->)%made_created Hag. apply sweep_disciplined in Hr as [Ht _].
  apply trace_ok_at in Ht as [(item & g & Hc & Hg & _ & (team & target & f & _ & _ & Hb) & _) _].
  destruct Hb as (a & ns & _ & _ & _ & _ & _ & Hn & _ & Hi & Hagents & _). rewrite Hagents, Forall_singleton in Hag.
  rewrite Hn, Hi. unfold run_names. apply list_elem_of_bind.
  exists (if f then target else ""). split.
  - apply list_elem_of_fmap. exists g. split; [done|]. apply elem_of_seqZ.
    destruct Hc as (_ & rs & _ & _ & [->|(r & _ & _ & <-)]); [lia|]. pose proof (runGeneration_pos (rn_name r)). lia.
  - destruct f; [right|by left]. revert Hag. unfold agentRefForRun. case_match; intros Ha; exact Ha.
Qed.

(** Retries are bounded. Over any number of passes of the intake, with any
    answers in between, so long as the cluster creates no two Runs of one name in a
    namespace, an item gets at most the cap of generations of Runs in it, once for
    a Run that names no agent and once for every agent it was dispatched to. *)
Theorem retries_bounded i {W} (h : forall X, Call X -> W -> X -> W -> Prop) (passes : list (list (Event Call)))
    item ns agents :
  Forall (fun t => exists w w', runs h (sweep i) w t tt w') passes ->
  NoDup ((fun r => (rn_namespace r, rn_name r)) <$> (passes ≫= made)) ->
  let mine := filter (fun r => rn_item r = item /\ rn_namespace r = ns) (passes ≫= made) in
  Forall (fun r => Forall (fun a => Name a ∈ agents) (rn_agents r)) mine ->
  (length mine <= S (length agents) * Z.to_nat (maxGenerations i))%nat.
Proof.
  intros Hp Hnd mine Hag. rewrite <- (length_run_names i item agents), <- (length_fmap rn_name mine).
  apply submseteq_length, NoDup_submseteq.
  - assert (forall r, r ∈ mine -> rn_namespace r = ns) as Hns by (intros r [[_ ?] _]%list_elem_of_filter; done).
    assert (NoDup ((fun r => (rn_namespace r, rn_name r)) <$> mine)) as Hm.
    { eapply sublist_NoDup; [exact Hnd|]. apply fmap_sublist, sublist_filter. }
    replace ((fun r => (rn_namespace r, rn_name r)) <$> mine) with ((fun n => (ns, n)) <$> (rn_name <$> mine)) in Hm.
    + by apply NoDup_fmap_1 in Hm.
    + rewrite <- list_fmap_compose. apply list_fmap_ext. intros j r Hr%list_elem_of_lookup_2. cbn. by rewrite Hns.
  - intros n (r & -> & Hr)%list_elem_of_fmap. rewrite Forall_forall in Hag. pose proof (Hag r Hr) as Ha.
    apply list_elem_of_filter in Hr as [[<- _] (t & Hrt & Ht)%list_elem_of_bind].
    rewrite Forall_forall in Hp. destruct (Hp t Ht) as (w & w' & Hrun). by eapply made_named.
Qed.

(** * The re-arm *)

Definition rearm_audit (item : string) (fence : Z) : AuditRow :=
  {| au_item := item; au_run := None; au_event := "reconcile_rearmed"; au_principal := DriverClaims.OperatorPrincipal;
     au_initiator := None; au_fence := Some fence; au_from := None; au_to := Some "pending"; au_payload := NoPayload |}.

(** An ended claim nobody holds, of an item that waits on the board. *)
Definition rearms (c : ClaimRow) (w : ItemRow) : Prop :=
  holder_principal c = None /\ Settle.terminal_step (reconcile_step c) = true /\
  it_state w = "todo" /\ it_blocked w = None /\ it_source w <> "discussion".

Lemma rearm_guard item c w d :
  claims d !! item = Some c -> items d !! item = Some w ->
  bool_decide (holder_principal c = None) && Settle.terminal_step (reconcile_step c) && rearmable item d = true <->
  rearms c w.
Proof.
  intros Hc Hw. unfold rearmable, rearms. rewrite Hw, !andb_true_iff, negb_true_iff, !bool_decide_eq_true, bool_decide_eq_false.
  tauto.
Qed.

Lemma rearm_run env item d :
  no_fault env ->
  (RearmSettled_sql env item d).1 =
    match claims d !! item with
    | Some c =>
        if bool_decide (holder_principal c = None) && Settle.terminal_step (reconcile_step c) && rearmable item d
        then let d1 := add_audit (rearm_audit item (fence_token c + 1)) (put_claim item (rearmed (clock env "re-arm") c) d) in
             add_outbox (outbox_row "run" "reconcile_rearmed" item None
               [("to_step", FStr "pending"); ("fence_token", FInt (fence_token c + 1))] d1) d1
        else d
    | None => d
    end.
Proof.
  intros Hf. unfold RearmSettled_sql. rewrite run_tx by done. unfold rearmTx. rewrite run_stmt by done.
  destruct (claims d !! item) as [c|]; [|done]. destruct (_ && _); [|done]. cbn [fst snd].
  by rewrite run_exec, run_last by done.
Qed.

(** A re-arm is exact. Where no statement fails, it moves an ended claim nobody
    holds, of an unblocked item on todo that is no discussion, to pending at the next
    fence, and records it with one audit row and one event; any other claim and item
    is untouched, and in every other case nothing is written. After it the durable
    step no longer absorbs the new Run, which acquires the item at the fence after. *)
Theorem rearm_exact env item d c w :
  no_fault env -> claims d !! item = Some c -> items d !! item = Some w ->
  let d' := (RearmSettled_sql env item d).1 in
  (rearms c w ->
     claims d' = <[item := rearmed (clock env "re-arm") c]> (claims d) /\ items d' = items d /\
     audits d' = audits d ++ [rearm_audit item (fence_token c + 1)] /\ length (outbox d') = S (length (outbox d)) /\
     comments d' = comments d /\ a2a_dispatch d' = a2a_dispatch d /\ sandbox_bind d' = sandbox_bind d /\
     forall interval env' principal run agent, no_fault env' -> principal <> "" -> run <> "" -> item <> "" ->
       (DriverClaims.Acquire interval principal env' item run agent d').2 = Ok (Some (fence_token c + 2))) /\
  (~ rearms c w -> d' = d).
Proof.
  intros Hf Hc Hw d'. subst d'. rewrite rearm_run, Hc by done.
  destruct (_ && _) eqn:Hg; (split; [intros Ha|intros Hn]); [|by destruct Hn; apply (rearm_guard item c w d)| |done].
  - set (d1 := add_audit _ _). cbv zeta.
    assert (items d1 = items d) as Hi by done.
    split_and!; try done.
    { cbn. unfold outbox_row. rewrite Hi, Hw, length_app. cbn. lia. }
    intros interval env' principal run agent Hf' Hp Hr Hi'. unfold DriverClaims.Acquire, ProdClaim.AcquireSpecific.
    rewrite !bool_decide_eq_false_2 by done. cbn [orb]. rewrite run_tx by done.
    destruct Ha as (Hh & _ & Hs & _).
    rewrite (ProdClaimProps.claimTail_granted interval _ None principal run "" agent item env' _
      (rearmed (clock env "re-arm") c) w) by
      (first [done | split_and!; cbn; [by rewrite lookup_insert_eq|done|unfold ProdClaim.claimable; cbn; by rewrite Hh|done|
        rewrite Hs; cbn; set_solver]]).
    cbn. do 2 f_equal. cbn. lia.
  - by apply (rearm_guard item c w d) in Ha; [congruence|..].
Qed.

(** * Service *)

Section service.
Context (i : Intake) (due : list IntakeItem) (teams : list Team) (rs : list RunCR) (ps : list Project).
Implicit Types (h hist : list (Event Call)) (item : IntakeItem).

(** A cluster where every call goes well but perhaps the creation. *)
Definition well : forall X, Call X -> X -> Prop := fun X c =>
  match c in Call X return X -> Prop with
  | DueWorkItems _ => eq (Some due)
  | ListTeams => eq (Some teams)
  | ListRuns => eq (Some rs)
  | ListProjects => eq (Some ps)
  | GetAgent _ _ => eq true
  | RearmSettled _ => eq true
  | _ => fun _ => True
  end.

Notation free := (fun (_ : list (Event Call)) (X : Type) (_ : Call X) => True).
Notation goes := (obeys free well).

(** The item has its squad, and no Run that goes on or caps it. *)
Definition serviceable item (team : Team) : Prop :=
  team_index teams !! TeamID item = Some team /\ tm_status_namespace team <> "" /\ tm_agents team <> [] /\
  ProjectID item <> "" /\
  (exists p, p ∈ ps /\ (pj_uid p = ProjectID item \/
                        pj_namespace p = tm_status_namespace team /\ pj_name p = ProjectID item)) /\
  ID item ∉ (run_index rs).1 /\ default 0 ((run_index rs).2 !! ID item) < maxGenerations i.

Definition run_for item (target : string) (run : RunCR) : Prop := rn_item run = ID item /\ Name <$> rn_agents run = [target].

Definition served h item (team : Team) : Prop :=
  forall target fanOut, asked_for item team target fanOut ->
  exists run x, answered h (CreateRun run) x /\ run_for item target run.

Lemma candidates_nonempty nss ns : ns ∈ nss -> ns <> "" -> exists n rest, candidates nss = n :: rest.
Proof.
  intros Hin Hns. assert (ns ∈ candidates nss) as Hc.
  { unfold candidates. induction nss as [|n nss IH] using rev_ind; [by apply elem_of_nil in Hin|].
    rewrite foldl_app. cbn. apply elem_of_app in Hin as [Hin| ->%list_elem_of_singleton].
    - specialize (IH Hin). case_match; [done|]. apply elem_of_app. by left.
    - rewrite bool_decide_eq_false_2 by done. cbn [orb]. case_bool_decide; [done|]. apply elem_of_app. right. by left. }
  destruct (candidates nss); [by apply elem_of_nil in Hc|eauto].
Qed.

Lemma goes_project ns id hist :
  id <> "" -> (exists p, p ∈ ps /\ (pj_uid p = id \/ pj_namespace p = ns /\ pj_name p = id)) ->
  goes (fun _ res => is_Some res) hist (resolveProject ns id).
Proof.
  intros Hid (p & Hin & Hp). unfold resolveProject. rewrite bool_decide_eq_false_2 by done.
  cbn [obeys pbind call]. split; [done|]. intros x <-.
  destruct (filter (fun p => pj_uid p = id) ps) as [|p1 l1] eqn:E1; cbn; [|by eexists].
  destruct (filter (fun p => pj_namespace p = ns /\ pj_name p = id) ps) as [|p2 l2] eqn:E2; cbn; [|by eexists].
  exfalso. destruct Hp as [Hp|Hp].
  - apply (elem_of_nil p). rewrite <- E1. by apply list_elem_of_filter.
  - apply (elem_of_nil p). rewrite <- E2. by apply list_elem_of_filter.
Qed.

Lemma goes_build item team g a fanOut hist :
  serviceable item team -> a ∈ tm_agents team ->
  goes (fun _ res => exists run, res = Some run /\ run_for item (Name a) run) hist
     (buildRunForAgent item team g (Name a) fanOut).
Proof.
  intros (_ & Hns & _ & Hid & Hp & _) Ha. unfold buildRunForAgent. rewrite bool_decide_eq_false_2 by done.
  apply obeys_bind. eapply obeys_weaken; [by apply goes_project|]. intros h _ _ [ref ->].
  unfold find_agent. destruct (filter (fun b => Name b = Name a) (tm_agents team)) as [|b l] eqn:E.
  { exfalso. apply (elem_of_nil a). rewrite <- E. by apply list_elem_of_filter. }
  cbn [head]. apply obeys_bind. unfold resolveAgent.
  destruct (candidates_nonempty [Namespace b; tm_namespace team; tm_status_namespace team] (tm_status_namespace team))
    as (n & rest & ->); [set_solver|done|].
  cbn [first_namespace obeys pbind call]. split; [done|]. intros x <-. eexists. split; [reflexivity|].
  assert (b ∈ filter (fun b => Name b = Name a) (tm_agents team)) as Hb by (rewrite E; by left).
  apply list_elem_of_filter in Hb as [Hb _]. split; [done|]. cbn. unfold agentRefForRun. by case_match; cbn; rewrite Hb.
Qed.

Lemma goes_buildAll item team g agents hist :
  serviceable item team -> (forall a, a ∈ agents -> a ∈ tm_agents team) ->
  goes (fun _ runs => length runs = length agents /\ forall a, a ∈ agents -> exists run, run ∈ runs /\ run_for item (Name a) run)
     hist (buildAll item team g agents).
Proof.
  intros Hs. revert hist. induction agents as [|a agents IH]; intros hist Hin; cbn [buildAll].
  { split; [done|]. by intros a ?%elem_of_nil. }
  apply obeys_bind. eapply obeys_weaken; [apply goes_build; [done|apply Hin; by left]|].
  intros h _ _ (run & -> & Hrun). apply obeys_bind.
  eapply obeys_weaken; [apply IH; intros b ?; apply Hin; by right|]. intros h' runs _ [Hl Hr]. cbn.
  split; [by rewrite Hl|]. intros b [->|Hb]%elem_of_cons.
  - exists run. split; [by left|done].
  - destruct (Hr b Hb) as (run' & ? & ?). exists run'. split; [by right|done].
Qed.

Lemma goes_runsFor item team g left hist :
  serviceable item team -> 1 <= left ->
  goes (fun _ runs => Z.of_nat (length runs) = left \/
          forall target fanOut, asked_for item team target fanOut -> exists run, run ∈ runs /\ run_for item target run)
     hist (runsFor item team g left).
Proof.
  intros Hs Hl. unfold runsFor, asked_for. case_bool_decide as Hreq; cbn [negb].
  - eapply obeys_weaken; [apply goes_buildAll; [done|]|].
    { intros a Ha. eapply elem_of_sublist; [exact Ha|apply sublist_take]. }
    intros h runs _ [Hlen Hr]. rewrite length_take in Hlen.
    destruct (decide (length (tm_agents team) <= Z.to_nat left)%nat); [right|left; lia].
    rewrite take_ge in Hr by done. intros target [] [? Ha]; [|done]. destruct Ha as (a & Ha & <-). auto.
  - assert (exists a, a ∈ tm_agents team /\
      (if teamHasAgent team (RequestedAgent item) then Some (RequestedAgent item) else Name <$> head (tm_agents team))
      = Some (Name a) /\
      forall target fanOut, (if fanOut : bool then RequestedAgent item = "" /\ (exists a, a ∈ tm_agents team /\ Name a = target)
         else RequestedAgent item <> "" /\ (if teamHasAgent team (RequestedAgent item) then target = RequestedAgent item
           else exists a, head (tm_agents team) = Some a /\ Name a = target)) -> target = Name a)
      as (a & Ha & -> & Ht).
    { destruct (teamHasAgent team (RequestedAgent item)) eqn:E.
      - unfold teamHasAgent in E. apply existsb_exists in E as (a & Hin & Hn). apply bool_decide_eq_true in Hn.
        exists a. rewrite Hn. split; [by apply list_elem_of_In|]. split; [done|]. intros target [] [? Hx]; done.
      - destruct Hs as (_ & _ & Hne & _). destruct (tm_agents team) as [|a l]; [done|]. exists a. split; [by left|].
        split; [done|]. intros target [] [? Hx]; [done|]. destruct Hx as (b & [= ->] & <-). done. }
    apply obeys_bind. eapply obeys_weaken; [by apply goes_build|]. intros h _ _ (run & -> & Hrun). right.
    intros target f Hask. exists run. split; [by left|]. by rewrite (Ht _ _ Hask).
Qed.

Lemma goes_createAll runs hist :
  goes (fun h _ => forall run, run ∈ runs -> exists x, answered h (CreateRun run) x) hist (createAll runs).
Proof.
  revert hist. induction runs as [|run runs IH]; intros hist; cbn [createAll]; [by intros run ?%elem_of_nil|].
  cbn [obeys pbind call]. split; [done|]. intros x _. eapply obeys_weaken; [apply IH|].
  intros h [] Hp Hr run' [->|Hin]%elem_of_cons; [|auto]. exists x. eapply answered_prefix; [exact Hp|apply answered_last].
Qed.

Lemma goes_dispatch item team left hist :
  serviceable item team -> 1 <= left ->
  goes (fun h n => n = left \/ served h item team) hist
     (dispatch i (team_index teams) (run_index rs).1 (run_index rs).2 item left).
Proof.
  intros Hs Hl. pose proof Hs as (Ht & _ & _ & _ & _ & Hlive & Hcap). unfold dispatch.
  rewrite bool_decide_eq_false_2 by done. rewrite (proj2 (Z.leb_gt _ _)) by done.
  cbn [obeys pbind call]. split; [done|]. intros x <-. cbn [negb]. rewrite Ht.
  apply obeys_bind. eapply obeys_weaken; [by apply goes_runsFor|]. intros h runs _ Hr.
  apply obeys_bind. eapply obeys_weaken; [apply goes_createAll|]. intros h' [] _ Hc. cbn.
  destruct Hr as [Hr|Hr]; [by left|right]. intros target f (run & Hin & Hfor)%Hr. destruct (Hc _ Hin) as [x Hx]. eauto.
Qed.

Lemma served_prefix h h' item team : h `prefix_of` h' -> served h item team -> served h' item team.
Proof. intros Hp Hs target f Ha. destruct (Hs _ _ Ha) as (run & x & ? & ?). exists run, x. eauto using answered_prefix. Qed.

Lemma goes_any {A} (p : Prog A) hist : goes (fun _ _ => True) hist p.
Proof. revert hist. induction p as [a|X c k IH]; intros hist; cbn; [done|]. split; [done|]. auto. Qed.

Lemma creations_prefix h h' : h `prefix_of` h' -> (creations h <= creations h')%nat.
Proof. intros [t ->]. rewrite creations_app. lia. Qed.

Lemma goes_dispatchAll item0 team0 todo dispatched hist :
  serviceable item0 team0 -> item0 ∈ todo ->
  answered hist ListTeams (Some teams) -> answered hist ListRuns (Some rs) ->
  answered hist (DueWorkItems (maxPerPass i)) (Some due) -> (forall item, item ∈ todo -> item ∈ due) ->
  Z.of_nat (creations hist) = dispatched -> dispatched <= maxPerPass i ->
  goes (fun h _ => maxPerPass i <= Z.of_nat (creations h) \/ served h item0 team0) hist
     (dispatchAll i (team_index teams) (run_index rs).1 (run_index rs).2 (maxPerPass i) dispatched todo).
Proof.
  intros Hs. revert dispatched hist.
  induction todo as [|item todo IH]; intros dispatched hist H0 Hteams Hruns Hdue Hin Hn Hmax; [by apply elem_of_nil in H0|].
  cbn [dispatchAll]. destruct (_ <=? _) eqn:Hlim; reflect_bools; [left; lia|]. apply obeys_bind.
  assert (obeys (discipline i) any_answer (fun h n => hist `prefix_of` h /\
    Z.of_nat (creations h) = Z.of_nat (creations hist) + n /\ n <= maxPerPass i - dispatched) hist
    (dispatch i (team_index teams) (run_index rs).1 (run_index rs).2 item (maxPerPass i - dispatched))) as Hcount.
  { apply ok_dispatch; [done|done| |lia|lia]. exists due. split; [done|]. apply Hin. by left. }
  apply elem_of_cons in H0 as [->|H0].
  - eapply obeys_weaken.
    { eapply obeys_both; [|exact Hcount|apply (goes_dispatch item team0); [done|lia]]. by intros. }
    cbn. intros h n _ [(Hp & Hc & Hle) Hserve]. eapply obeys_weaken; [apply goes_any|].
    intros h' _ Hp' _. pose proof (creations_prefix _ _ Hp'). destruct Hserve as [->|Hserve]; [left; lia|right].
    by eapply served_prefix.
  - eapply obeys_weaken; [eapply obeys_both; [|exact Hcount|apply goes_any]; by intros|].
    cbn. intros h n _ [(Hp & Hc & Hle) _]. apply IH; [done|by eapply answered_prefix..| |lia|lia].
    intros item' ?. apply Hin. by right.
Qed.

Lemma goes_sweep item team :
  serviceable item team -> item ∈ due ->
  goes (fun h _ => maxPerPass i <= Z.of_nat (creations h) \/ served h item team) [] (sweep i).
Proof.
  intros Hs Hin. pose proof (maxPerPass_pos i). unfold sweep. cbn [obeys pbind call]. split; [done|]. intros x <-.
  destruct due as [|item1 due'] eqn:Edue; [by apply elem_of_nil in Hin|]. rewrite <- Edue in *.
  cbn [obeys pbind call]. split; [done|]. intros x <-. cbn [obeys pbind call]. split; [done|]. intros x <-.
  destruct (run_index rs) as [live high] eqn:E.
  replace live with (run_index rs).1 by (by rewrite E). replace high with (run_index rs).2 by (by rewrite E).
  apply goes_dispatchAll; eauto with k8s. lia.
Qed.
End service.

(** C11: Due items are served. In a cluster that answers every list, finds every
    agent and re-arms every claim, a pass that does not use up its MaxPerPass asks,
    for every item it was told is due, whose Team and Project are there with a
    namespace and an agent, with no Run going on and below the cap, for a Run of
    every agent the item asks for, wherever it stands in the list and whatever the
    creations before it answered. *)
Theorem due_items_served i due teams rs ps {W} (h : forall X, Call X -> W -> X -> W -> Prop) (w : W) t w' :
  (forall X c (u : W) x u', h X c u x u' -> well due teams rs ps X c x) ->
  runs h (sweep i) w t tt w' ->
  Z.of_nat (creations t) < maxPerPass i ->
  forall item team target fanOut, item ∈ due -> serviceable i teams rs ps item team -> asked_for item team target fanOut ->
  exists run x, answered t (CreateRun run) x /\ rn_item run = ID item /\ Name <$> rn_agents run = [target].
Proof.
  intros Hw Hr Hn item team target f Hin Hs Ha.
  eapply (obeys_runs (fun _ _ _ => True) (well due teams rs ps) h (fun _ _ => True)) in Hr as (_ & _ & Hpost);
    [|by eauto|by apply (goes_sweep i due teams rs ps item team)|done].
  destruct Hpost as [Hpost|Hpost]; [cbn [app] in Hpost; lia|]. by destruct (Hpost _ _ Ha) as (run & x & ? & ? & ?); eauto.
Qed.

(** ** A pass that creates a Run *)

Definition board_item : IntakeItem := {| ID := "i1"; TeamID := "t1"; ProjectID := "p1"; RequestedAgent := "coder"; Source := "" |}.
Definition squad : Team :=
  {| tm_uid := "t1"; tm_name := "squad"; tm_namespace := "home"; tm_status_namespace := "exec";
     tm_agents := [{| Name := "lead"; Namespace := "" |}; {| Name := "coder"; Namespace := "" |}] |}.
Definition project : Project := {| pj_uid := "p1"; pj_name := "proj"; pj_namespace := "exec" |}.

(** The first generation has failed. *)
Definition first_run : RunCR :=
  {| rn_name := "intake-i1"; rn_namespace := "exec"; rn_labels := []; rn_team := {| Name := "squad"; Namespace := "home" |};
     rn_project := {| Name := "proj"; Namespace := "" |}; rn_item := "i1"; rn_agents := [{| Name := "coder"; Namespace := "home" |}];
     rn_owner := IntakePrincipal; rn_phase := "Failed" |}.
Definition second_run : RunCR :=
  {| rn_name := "intake-i1-r2"; rn_namespace := "exec"; rn_labels := [("ksquad.io/created-by", "intake")];
     rn_team := {| Name := "squad"; Namespace := "home" |};
     rn_project := {| Name := "proj"; Namespace := "" |}; rn_item := "i1"; rn_agents := [{| Name := "coder"; Namespace := "home" |}];
     rn_owner := IntakePrincipal; rn_phase := "" |}.

Definition intake : Intake := {| MaxPerPass := 0; MaxGenerations := 3 |}.

Definition retry_pass : list (Event Call) :=
  [Ev (DueWorkItems 32) (Some [board_item]); Ev ListTeams (Some [squad]); Ev ListRuns (Some [first_run]);
   Ev (RearmSettled "i1") true; Ev ListProjects (Some [project]); Ev (GetAgent "home" "coder") true;
   Ev (CreateRun second_run) CreatedOk].

(** A world that answers well, and only what the pass asks. *)
Definition kind_world X (c : Call X) (w : list (Event Call)) (x : X) (w' : list (Event Call)) : Prop :=
  scripted X c w x w' /\ well [board_item] [squad] [first_run] [project] X c x.

Lemma retry_pass_runs : runs kind_world (sweep intake) retry_pass retry_pass tt [].
Proof.
  unfold retry_pass.
  repeat (match goal with |- runs _ _ _ (_ :: _) _ _ => step_call end;
          eapply runs_do; [split; [reflexivity|vm_compute; first [reflexivity|exact I]]|cbv beta]).
  halt.
Qed.

Lemma runs_need_due_items_witness :
  exists item g, chosen intake (take 6 retry_pass) item g /\ g < 3 /\
    answered (take 6 retry_pass) (RearmSettled (ID item)) true.
Proof.
  destruct (runs_need_due_items intake kind_world retry_pass retry_pass tt [] retry_pass_runs) as (Hc & _).
  destruct (Hc second_run CreatedOk (take 6 retry_pass) []) as (item & g & H1 & H2 & H3 & _); [reflexivity|].
  exists item, g. split; [exact H1|]. split; [exact H2|exact H3].
Defined.

Lemma next_generation_is_new_witness :
  intakeName "i1" 1 "" = "intake-i1-r2" /\ runGeneration "intake-i1-r2" = 2 /\
  rn_name first_run <> intakeName "i1" 1 "".
Proof.
  split; [reflexivity|].
  destruct (next_generation_is_new "i1" 1 "" ltac:(lia)) as [Hg Hn]. split; [apply Hg; lia|].
  apply (Hn [first_run]); [|by left|reflexivity].
  split; [|right; exists first_run; split; [by left|split; reflexivity]].
  intros r Hr%list_elem_of_singleton _. subst r. split; [reflexivity|]. vm_compute. discriminate.
Defined.

Lemma retries_bounded_witness :
  (length (filter (fun r => rn_item r = "i1"%string /\ rn_namespace r = "exec"%string) ([retry_pass] ≫= made)) <= 6)%nat /\
  ([retry_pass] ≫= made) = [second_run].
Proof.
  split; [|reflexivity].
  apply (retries_bounded intake kind_world [retry_pass] "i1" "exec" ["coder"]).
  - constructor; [|constructor]. exists retry_pass, []. exact retry_pass_runs.
  - vm_compute. apply NoDup_singleton.
  - apply Forall_forall. intros r [_ Hr]%list_elem_of_filter. change ([retry_pass] ≫= made) with [second_run] in Hr.
    apply list_elem_of_singleton in Hr. subst r. constructor; [by left|constructor].
Defined.

Lemma due_items_served_witness :
  exists run x, answered retry_pass (CreateRun run) x /\ rn_item run = "i1"%string /\ Name <$> rn_agents run = ["coder"%string].
Proof.
  apply (due_items_served intake [board_item] [squad] [first_run] [project] kind_world retry_pass retry_pass []
    ltac:(by intros X c u x u' [_ Hw]) retry_pass_runs ltac:(vm_compute; reflexivity) board_item squad "coder" false).
  - by left.
  - split; [reflexivity|]. split; [discriminate|]. split; [discriminate|]. split; [discriminate|].
    split; [exists project; split; [by left|by left]|]. split; [apply (bool_decide_unpack _); vm_compute; exact I|reflexivity].
  - split; [discriminate|]. reflexivity.
Defined.

Definition failed_sample : Db := put_claim "i1" (Heartbeat.cleared StepFailed (default unheld (claims claimed_sample !! "i1"))) (sample_db "todo").

Lemma rearm_exact_witness :
  let d' := (RearmSettled_sql (quiet 500) "i1" failed_sample).1 in
  reconcile_step <$> claims d' !! "i1" = Some StepPending /\
  (DriverClaims.Acquire (fun _ => 30) "agent" (quiet 600) "i1" "run-8" "coder" d').2 = Ok (Some 3).
Proof.
  split; [vm_compute; reflexivity|].
  destruct (rearm_exact (quiet 500) "i1" failed_sample (default unheld (claims failed_sample !! "i1")) (sample_item "todo"))
    as [Ha _]; [intros label; reflexivity|vm_compute; reflexivity|reflexivity|].
  destruct Ha as (_ & _ & _ & _ & _ & _ & _ & Hacq).
  - split_and!; [reflexivity|reflexivity|reflexivity|reflexivity|discriminate].
  - apply (Hacq (fun _ => 30) (quiet 600) "agent" "run-8" "coder"); [intros label; reflexivity|discriminate..].
Defined.

Lemma due_exact_witness :
  exists listed, DueWorkItems_sql (quiet 100) 0 (sample_db "todo") = (sample_db "todo", Ok listed) /\ (length listed <= 32)%nat.
Proof.
  destruct (due_exact (quiet 100) 0 (sample_db "todo") ltac:(reflexivity)) as (listed & Hl & _ & Hn & _).
  exists listed. split; [exact Hl|exact Hn].
Defined.

(** ** Names with a trap *)

(** The fan-out name of an agent whose own name ends in -r and digits reads as that
    generation: after one failed Run of agent x-r10 the item is parked. *)
Lemma agent_name_trips_the_cap :
  runGeneration (intakeName "i1" 0 "x-r10") = 10 /\
  let run := {| rn_name := intakeName "i1" 0 "x-r10"; rn_namespace := "exec"; rn_labels := [];
                rn_team := {| Name := "squad"; Namespace := "home" |}; rn_project := {| Name := "proj"; Namespace := "" |};
                rn_item := "i1"; rn_agents := [{| Name := "x-r10"; Namespace := "home" |}];
                rn_owner := IntakePrincipal; rn_phase := "Failed" |} in
  let pass := [Ev (DueWorkItems 32) (Some [board_item]); Ev ListTeams (Some [squad]); Ev ListRuns (Some [run]);
               Ev (ParkWorkItem "i1" "retry_circuit_breaker_max_generations_10") true] in
  runs scripted (sweep {| MaxPerPass := 0; MaxGenerations := 0 |}) pass pass tt [].
Proof. split; [reflexivity|]. cbv zeta. play. Qed.
