(* ===== verification/DriverLoop.v ===== *)
(** The drive loop on the production stores: [production] answers the calls of
    [Driver] with the claims of [DriverClaims] and drives the machine of [Machine]
    over the effects of [ProdEffects], all on one database that others also
    write. *)
From S2P Require Import Prelude Calls Machine CoordDb ProdEffects Driver.
From S2P Require DriverClaims.
Open Scope Z_scope.
Open Scope k8s_scope.

(** * The effects as the machine's world *)

Section world.
Context (sha256 : string -> string) (e : ProdEffects) (ports : Ports).
(** The clock and the faults, and what others commit, at each effect. *)
Context (envs : Fx -> TxEnv) (rivals : Fx -> Db -> Db).

Definition prod_effects : Effects Fx := {|
  ef_BindSandbox x run keyed := BindSandbox e ports (envs x) (rivals x) run keyed x;
  ef_Dispatch x task dedup := Dispatch e ports (envs x) (rivals x) task dedup x;
  ef_Collect x key content upsert := Collect sha256 e ports (envs x) key content upsert x;
  ef_Terminal x s := Terminal e (envs x) s x;
  ef_Err x := match fx_err x with Some _ => Some "effect"%string | None => None end;
|}.
End world.

(** * The production answers *)

Section production.
Context {Conditions : Set} (interval : string -> Z) (is_uuid : string -> bool) (sha256 : string -> string).
Context (principal u : string).

(** A store's answer as the driver sees it; its errors wrap none of the driver's
    sentinels. *)
Definition lifted {A B} (f : A -> B) (o : result CoordErr A) (x : result GoErr B) : Prop :=
  match o, x with
  | Ok a, Ok b => b = f a
  | Err _, Err g => wraps g = []
  | _, _ => False
  end.

(** What others may do to the dispatch markers meanwhile: add some, and none of a
    retry lap of this Run, which only its own drive writes. *)
Definition quiet (d d' : Db) : Prop :=
  a2a_dispatch d ⊆ a2a_dispatch d' /\
  forall task item, a2a_dispatch d' !! task = Some (item, u) -> a2a_dispatch d !! task = None ->
    DriverClaims.has_lap task = false.

(** One drive of the machine for this Run, over any store, ports, faults and
    interference. The store writes no markers. *)
Definition machine_drive (o : Options) (d : Db) (l : list PhysCall) (x : option GoErr) (d' : Db)
    (l' : list PhysCall) : Prop :=
  exists (S : Type) (store : Store S) (s s' : S) (e : ProdEffects) ports envs rivals fuel x' err,
    pe_run e = u /\ (forall y z, quiet z (rivals y z)) /\
    Machine.Reconcile (H := prod_effects sha256 e ports envs rivals) fuel
      {| fx_db := d; fx_calls := l; fx_err := None |} s o = Some (x', s', err) /\
    a2a_dispatch d' = a2a_dispatch (fx_db x') /\ l' = fx_calls x' /\ (x = None <-> err = None).

Definition production_call X (c : Call (Conditions := Conditions) X) (d : Db) (l : list PhysCall)
    : X -> Db -> list PhysCall -> Prop :=
  let claims {A B} (f : A -> B) (op : TxEnv -> Db * result CoordErr A) (x : result GoErr B) d' (l' : list PhysCall) :=
    l' = l /\ exists env, d' = (op env).1 /\ lifted f (op env).2 x in
  match c in Call X return X -> Db -> list PhysCall -> Prop with
  | GetRun _ _ => fun x d' l' => d' = d /\ l' = l /\ forall run, x = Ok run -> UID run = u
  | State item => claims id (fun env => DriverClaims.State is_uuid env item d)
  | LapsUsed run => claims Z.of_nat (fun env => DriverClaims.LapsUsed env run d)
  | Acquire item run agent => claims id (fun env => DriverClaims.Acquire interval principal env item run agent d)
  | Renew item run fence => claims id (fun env => DriverClaims.Renew interval principal env item run fence d)
  | RetryEnter item run fence => claims id (fun env => DriverClaims.RetryEnter principal env item run fence d)
  | FailEnter item run fence => claims id (fun env => DriverClaims.FailEnter principal env item run fence d)
  | FailClosedPark item run fence reason =>
      claims id (fun env => DriverClaims.FailClosedPark principal env item run fence reason d)
  | CancelFinish item run fence => claims id (fun env => DriverClaims.CancelFinish principal env item run fence d)
  | CancelDue => claims id (fun env => DriverClaims.CancelDue env d)
  | RequeuePaused item => claims id (fun env => DriverClaims.RequeuePaused principal env item d)
  | GateHold item missing => claims id (fun env => DriverClaims.GateHold principal env item missing d)
  | GateResume item => claims id (fun env => DriverClaims.GateResume principal env item d)
  | ClearSandboxBind run => claims id (fun env => DriverClaims.ClearSandboxBind principal env run d)
  | Drive o => machine_drive o d l
  | _ => fun _ d' l' => d' = d /\ l' = l
  end.

(** A call of the pass, after whatever others wrote since the last. *)
Definition production X (c : Call X) (w : Db * list PhysCall) (x : X) (w' : Db * list PhysCall) : Prop :=
  exists d, quiet w.1 d /\ production_call X c d w.2 x w'.1 w'.2.

(** Passes over the Run, one after the other. *)
Inductive passes SetC HasC RemC (r : Driver) : Db * list PhysCall -> list (list (Event (Call (Conditions := Conditions)))) ->
    Db * list PhysCall -> Prop :=
| no_passes w : passes SetC HasC RemC r w [] w
| one_pass w ns name t res w1 ts w2 :
    runs production (Reconcile SetC HasC RemC is_uuid r ns name) w t res w1 ->
    passes SetC HasC RemC r w1 ts w2 -> passes SetC HasC RemC r w (t :: ts) w2.
End production.
