(* ===== verification/DriverLoopProps.v ===== *)
(** The drive loop composed with the machine, the effects and the claims: what
    the passes over one Run do to its dispatch markers. *)
From S2P Require Import Prelude Calls Machine CoordDb CoordTx ProdEffects Driver DriverProps DriverLoop.
From S2P Require Custody DriverClaims EffectsProps.
Open Scope Z_scope.
Open Scope k8s_scope.

(** * An invariant of the effects is one of a drive *)

Section drives.
Context {W S : Type} `{Effects W} `{Store S} (J : W -> Prop) (o : Options).

Lemma reconcile_keeps :
  (forall step w, J w -> J (phaseEffect step w o)) -> (forall w step, J w -> J (ef_Terminal w step)) ->
  forall fuel w s w' s' err, J w -> Machine.Reconcile fuel w s o = Some (w', s', err) -> J w'.
Proof.
  intros He Ht fuel w s w' s' err. unfold Machine.Reconcile. generalize 0.
  revert w s. induction fuel as [|fuel IH]; intros w s n Hw; cbn; [done|].
  case_match; [by intros [= <- _ _]|]. case_match; [by intros [= <- _ _]|].
  case_match; [by intros [= <- _ _]|].
  destruct (runPhase _ _ _ _) as [[w1 s1] e1] eqn:Hp.
  assert (J w1) as Hw1.
  { unfold runPhase in Hp. specialize (He (st_Step s) w Hw).
    case_match; [by simplify_eq|]. case_match; [by simplify_eq|].
    injection Hp as Hp _. unfold phaseCommit in Hp. case_match; [|by simplify_eq].
    destruct (st_Advance _ _ _ _) as [s2 b]. simplify_eq. case_match; auto. }
  destruct e1; [by intros [= <- _ _]|]. by apply IH.
Qed.
End drives.

(** * The markers of a Run *)

Definition lapless (u : string) (d : Db) : Prop :=
  forall task item, a2a_dispatch d !! task = Some (item, u) -> DriverClaims.has_lap task = false.

Definition marked (u : string) (d : Db) : Prop := is_Some (a2a_dispatch d !! u).

Definition is_submit (c : PhysCall) : bool := match c with PSubmit _ _ => true | _ => false end.
Definition submits (l : list PhysCall) : list PhysCall := filter (fun c => is_submit c = true) l.

Section markers.
Context (u : string) (Hu : DriverClaims.has_lap u = false).
Implicit Types (d : Db) (x : Fx).

(** No lap marker; and from a state where the Run is marked, it stays so. *)
Definition steady (d0 d : Db) : Prop := lapless u d /\ (marked u d0 -> marked u d).

Lemma steady_stable d0 : Custody.stable (steady d0).
Proof. by split. Qed.

Lemma steady_same d0 d d' : a2a_dispatch d' = a2a_dispatch d -> steady d0 d -> steady d0 d'.
Proof. unfold steady, lapless, marked. by intros ->. Qed.

Lemma quiet_steady d0 d d' : quiet u d d' -> steady d0 d -> steady d0 d'.
Proof.
  intros [Hsub Hnew] [Hl Hm]. split.
  - intros task item Ht. destruct (a2a_dispatch d !! task) as [[i v]|] eqn:E; [|by eapply Hnew].
    pose proof (lookup_weaken _ _ _ _ E Hsub). simplify_eq. by eapply Hl.
  - intros H0. destruct (Hm H0) as [v Hv]. exists v. by eapply lookup_weaken.
Qed.

(** ** The effects of a drive without a lap *)

Context (d0 : Db) (l0 : list PhysCall).

Definition calm (x : Fx) : Prop :=
  steady d0 (fx_db x) /\ (marked u d0 -> submits (fx_calls x) = submits l0).

Lemma calm_fail e x : calm x -> calm (fx_fail e x).
Proof. done. Qed.

Lemma calm_put d x : steady d0 d -> calm x -> calm (fx_put d x).
Proof. by intros Hd [_ Hc]. Qed.

Lemma calm_call c x : is_submit c = false -> calm x -> calm (fx_call c x).
Proof.
  intros Hc [Hd Hs]. split; [done|]. intros Hm. cbn. unfold submits.
  rewrite filter_app, filter_cons_False by (by rewrite Hc). by rewrite filter_nil, app_nil_r; apply Hs.
Qed.

Lemma calm_exec {A} env label (f : TxEnv -> Db -> Db * A) x :
  (forall env d, steady d0 d -> steady d0 (f env d).1) -> calm x -> calm (fx_exec env label f x).1.
Proof.
  intros Hf [Hd Hs]. unfold fx_exec. pose proof (keeps_autocommit _ env label f _ Hf Hd).
  by destruct (autocommit _ _ _ _) as [d []].
Qed.

Lemma calm_audit e env event to x : calm x -> calm (audit e env event to x).
Proof. intros Hx. by apply calm_exec. Qed.

Section effects.
Context (sha256 : string -> string) (e : ProdEffects) (ports : Ports) (env : TxEnv) (rival : Db -> Db).
Context (Hrun : pe_run e = u) (Hrival : forall d, quiet u d (rival d)).

Lemma calm_rival x : calm x -> calm (fx_put (rival (fx_db x)) x).
Proof. intros Hx. apply calm_put; [|done]. eapply quiet_steady; [apply Hrival|apply Hx]. Qed.

Lemma calm_bindMarker ref x : calm x -> calm (bindMarker e env rival ref x).
Proof.
  intros Hx%calm_rival. unfold bindMarker. match goal with |- context [fx_exec env ?l ?f ?y] =>
    pose proof (calm_exec env l f y) as Hex; destruct (fx_exec env l f y) as [x' [[]|]] end;
    [apply calm_audit|]; apply Hex; try done; intros ? d Hd; cbn; by case_match.
Qed.

Lemma calm_port call ok what k x :
  is_submit call = false -> (forall y, calm y -> calm (k y)) -> calm x -> calm (port_call call ok what k x).
Proof.
  intros Hc Hk Hx. unfold port_call. case_match; [apply Hk|apply calm_fail]; by apply calm_call.
Qed.

Lemma calm_bind run keyed x : calm x -> calm (BindSandbox e ports env rival run keyed x).
Proof.
  assert (forall ref x, calm x -> calm (observeRef e ports env rival ref x)) as Hobs.
  { intros ref y Hy. unfold observeRef. case_match; [case_bool_decide|]; try by apply calm_bindMarker.
    apply calm_port; [done| |done]. intros. by apply calm_bindMarker. }
  assert (forall ref x, calm x -> calm (writeCredential e ports env rival ref x)) as Hcred.
  { intros ref y Hy. unfold writeCredential. case_match; [case_bool_decide|]; try by apply Hobs.
    apply calm_port; [done| |done]. intros. by apply Hobs. }
  intros Hx. unfold BindSandbox. case_match; [done|]. case_match.
  - case_match; [|done]. by apply calm_port.
  - match goal with |- context [fx_exec env ?l ?f ?y] =>
      pose proof (calm_exec env l f y) as Hex; destruct (fx_exec env l f y) as [x' [[[]|]|]] end;
      cbn in Hex; try (apply Hex; done).
    assert (calm x') as Hx' by (apply Hex; done).
    case_match; [|by apply Hcred]. case_match; [apply Hcred|apply calm_fail]; by apply calm_call.
Qed.


Lemma steady_mark item d :
  a2a_dispatch d !! u = None -> steady d0 d -> steady d0 (set_a2a (<[u := (item, u)]> (a2a_dispatch d)) d).
Proof.
  intros Hn [Hl Hm]. split.
  - intros task i. cbn. destruct (decide (u = task)) as [<-|Hne]; [by rewrite lookup_insert_eq; intros [= <-]|].
    rewrite lookup_insert_ne by done. apply Hl.
  - intros _. unfold marked. cbn. rewrite lookup_insert_eq. by eexists.
Qed.

Lemma calm_dispatchMarker x : calm x -> calm (dispatchMarker e env rival u x).
Proof.
  intros Hx%calm_rival. unfold dispatchMarker. match goal with |- context [fx_exec env ?l ?f ?y] =>
    pose proof (calm_exec env l f y) as Hex; destruct (fx_exec env l f y) as [x' [[]|]] end;
    [apply calm_audit|..]; apply Hex; try done; intros ? d Hd; cbn; case_match; try done; cbn;
    rewrite Hrun; by apply steady_mark.
Qed.

(** A submit only happens when the Run has no marker, so not when it had one. *)
Lemma calm_dispatch x : calm x -> calm (Dispatch e ports env rival RunID true x).
Proof.
  intros Hx. unfold Dispatch. case_match; [done|]. cbn [negb].
  assert (boundTaskID e RunID = u) as -> by (unfold boundTaskID; by rewrite bool_decide_eq_true_2).
  match goal with |- context [fx_exec env ?l ?f ?y] =>
    pose proof (calm_exec env l f y ltac:(done) Hx) as Hex;
    pose proof (EffectsProps.fx_exec_run env l f y) as Hr;
    destruct (fx_exec env l f y) as [x' [[m|]|]] end; cbn in *; try done.
  destruct Hr as [_ Hn]. assert (~ marked u d0) as Hun.
  { intros Hm. destruct Hx as [[_ Hx] _]. destruct (Hx Hm) as [v Hv]. by rewrite Hv in Hn. }
  case_match; [|by apply calm_dispatchMarker].
  assert (calm (fx_call (PSubmit u (pe_run e)) x')) as Hc by (split; [apply Hex|done]).
  unfold port_call. rewrite Hrun in *. case_match; [by apply calm_dispatchMarker|done].
Qed.

Lemma calm_collect key content upsert x : calm x -> calm (Collect sha256 e ports env key content upsert x).
Proof.
  assert (forall label a x, calm x -> calm (publish e env label a x).1) as Hpub.
  { intros label a y Hy. apply calm_exec; [|done]. intros ? d Hd. by case_match. }
  assert (forall x, calm x -> calm (collectBuildSnapshot e ports env x)) as Hsnap.
  { intros y Hy. unfold collectBuildSnapshot. case_match; [done|]. case_match; [|done].
    assert (calm (fx_call PSnapshot y)) as Hy' by by apply calm_call.
    case_match; [|by apply calm_audit]. case_match; [|by apply calm_fail].
    match goal with |- context [publish e env ?l ?a ?y] => pose proof (Hpub l a y Hy') as Hp;
      destruct (publish e env l a y) as [x' [[]|]] end; try done. by apply calm_audit. }
  intros Hx. unfold Collect. case_match; [done|]. case_match.
  - match goal with |- context [fx_exec env ?l ?f ?y] =>
      pose proof (calm_exec env l f y ltac:(done) Hx) as Hex; destruct (fx_exec env l f y) as [x' [n|]] end; [|done].
    match goal with |- context [publish e env ?l ?a ?y] => pose proof (Hpub l a y Hex) as Hp;
      destruct (publish e env l a y) as [x'' [[]|]] end; done.
  - match goal with |- context [publish e env ?l ?a ?y] => pose proof (Hpub l a y Hx) as Hp;
      destruct (publish e env l a y) as [x'' [[]|]] end; try done; apply Hsnap; [by apply calm_audit|done].
Qed.

Lemma calm_terminal s x : calm x -> calm (Terminal e env s x).
Proof.
  intros [Hd Hs]. unfold Terminal. case_match; [done|].
  assert (steady d0 (runTx env (terminalTx e s) (fx_db x)).1) as Hk.
  { apply (keeps_runTx (steady d0)); [|done]. apply (Custody.keeps_terminalTx _ (steady_stable d0)). }
  by destruct (runTx _ _ _) as [d []].
Qed.
End effects.
End markers.

(** * A drive of the machine *)

Section loop.
Context {Conditions : Set} (interval : string -> Z) (is_uuid : string -> bool) (sha256 : string -> string).
Context (principal u : string) (Hu : DriverClaims.has_lap u = false).
Notation Event := (Calls.Event (Call (Conditions := Conditions))).
Notation Call := (Call (Conditions := Conditions)).
Notation production := (production interval is_uuid sha256 principal u).

Lemma drive_calm d0 l0 o d l x d' l' :
  machine_drive sha256 u o d l x d' l' -> Lap o = None -> Durable o = true ->
  calm u d0 l0 {| fx_db := d; fx_calls := l; fx_err := None |} ->
  calm u d0 l0 {| fx_db := d'; fx_calls := l'; fx_err := None |}.
Proof.
  intros (S & store & s & s' & e & ports & envs & rivals & fuel & x' & err & He & Hr & Hrec & Hd & -> & _) Hl Hdur Hc.
  apply (reconcile_keeps (H := prod_effects sha256 e ports envs rivals) (calm u d0 l0)) in Hrec; [|..|exact Hc].
  - destruct Hrec as [Hst Hsub]. split; [|exact Hsub]. by eapply steady_same.
  - intros step w Hw. unfold phaseEffect, dispatchTaskID. rewrite Hl, Hdur.
    destruct step; try exact Hw; cbn [ef_BindSandbox ef_Dispatch ef_Collect prod_effects].
    + by apply calm_bind.
    + by apply calm_dispatch.
    + by apply calm_collect.
  - intros w step Hw. cbn [ef_Terminal prod_effects]. by apply calm_terminal.
Qed.

(** * The claims *)

(** The calls the claims answer write no dispatch marker. *)
Definition calls_claims {X} (c : Call X) : bool := match c with Drive _ => false | _ => true end.

Lemma claims_keep P X (c : Call X) d l x d' l' : Custody.stable P -> calls_claims c = true ->
  production_call interval is_uuid sha256 principal u X c d l x d' l' -> P d -> P d' /\ l' = l.
Proof.
  intros HP Hc Hx Hd.
  destruct c; try discriminate Hc; cbn in Hx; destruct_and?; subst; try done;
    repeat match goal with H : exists _, _ |- _ => destruct H end; destruct_and?; subst; (split; [|done]).
  - unfold DriverClaims.State. case_match; [done|]. by apply (keeps_autocommit P).
  - by apply (keeps_autocommit P).
  - unfold DriverClaims.Acquire, ProdClaim.AcquireSpecific. destruct (_ || _); [done|].
    match goal with |- context [runTx ?env ?t d] => pose proof (keeps_runTx P t env d) as K; destruct (runTx env t d) end.
    apply K; [|done]. by apply Custody.keeps_claimTail.
  - unfold DriverClaims.Renew. by apply Custody.keeps_Renew.
  - apply (keeps_runTx P); [|done]. by apply Custody.keeps_enterTx.
  - apply (keeps_runTx P); [|done]. by apply Custody.keeps_enterTx.
  - apply (keeps_runTx P); [|done]. by apply Custody.keeps_enterTx.
  - unfold DriverClaims.CancelFinish, Settle.CancelFinish, Settle.cancelResult.
    match goal with |- context [runTx ?env ?t d] => pose proof (keeps_runTx P t env d) as K; destruct (runTx env t d) end.
    apply K; [|done]. by apply Custody.keeps_cancelTx.
  - by apply (keeps_autocommit P).
  - apply (keeps_runTx P); [|done]. apply Custody.keeps_stepMove; [done|by repeat constructor|done].
  - apply (keeps_runTx P); [|done]. apply Custody.keeps_stepMove; [done|by repeat constructor|done].
  - apply (keeps_runTx P); [|done]. apply Custody.keeps_stepMove; [done|by repeat constructor|done].
  - by apply Custody.keeps_ClearSandboxBind.
Qed.

(** No marker of a lap, no lap counted. *)
Lemma no_laps_counted env d : lapless u d ->
  match (DriverClaims.LapsUsed env u d).2 with Ok n => n = 0%nat | Err _ => True end.
Proof.
  intros Hl. unfold DriverClaims.LapsUsed, autocommit. destruct (faulty _ _); [exact I|]. cbn [snd].
  rewrite (proj2 (length_zero_iff_nil _)); [done|].
  destruct (filter _ _) as [|[task [item v]] rest] eqn:E; [done|].
  assert ((task, (item, v)) ∈ filter (fun kv : string * (string * string) => kv.2.2 = u /\ DriverClaims.has_lap kv.1 = true)
            (map_to_list (a2a_dispatch d))) as Hin by (rewrite E; by left).
  apply list_elem_of_filter in Hin as [[Hv Hlap] Hin]. cbn in *. subst v.
  apply elem_of_map_to_list in Hin. apply Hl in Hin. congruence.
Qed.

(** * A pass *)

(** What a pass has been answered: its own Run, no laps; and what it then does. *)
Definition lapless_call X (c : Call X) (x : X) : Prop :=
  match c in Driver.Call X return X -> Prop with
  | GetRun _ _ => fun x => forall run, x = Ok run -> UID run = u
  | LapsUsed v => fun x => v = u -> forall n, x = Ok n -> n = 0
  | Drive o => fun _ => Lap o = None
  | _ => fun _ => True
  end x.

Definition lapless_trace (t : list Event) : Prop := Forall (fun ev => let 'Ev c x := ev in lapless_call _ c x) t.

Lemma lapless_answered {X} t (c : Call X) x : lapless_trace t -> answered t c x -> lapless_call X c x.
Proof. intros Ht Hin. unfold lapless_trace in Ht. rewrite Forall_forall in Ht. apply (Ht _ Hin). Qed.

(** A Run is failed for its spent retries only when it allows none. *)
Definition fails_unretried (t : list Event) : Prop :=
  forall item v f x, answered t (FailEnter item v f) x -> exists ns name run, answered t (GetRun ns name) (Ok run) /\ maxRetries run <= 0.

Lemma fails_none : fails_unretried [].
Proof. by intros item v f x ?%elem_of_nil. Qed.

Context (d0 : Db) (l0 : list PhysCall) (r : Driver).

Definition undisturbed (t : list Event) (w : Db * list PhysCall) : Prop :=
  lapless_trace t /\ fails_unretried t /\ steady u d0 w.1 /\ (marked u d0 -> submits w.2 = submits l0).

Definition is_fail (ev : Event) : bool := let 'Ev c _ := ev in match c with FailEnter _ _ _ => true | _ => false end.
Lemma fail_call {X} (c : Call X) x item v f y : Ev (FailEnter item v f) y = Ev c x -> match c with FailEnter _ _ _ => True | _ => False end.
Proof. intros H%(f_equal is_fail). by destruct c. Qed.

Lemma undisturbed_step hist X (c : Call X) w x w' :
  discipline r hist X c -> undisturbed hist w -> production X c w x w' ->
  undisturbed (hist ++ [Ev c x]) w' /\ any_answer X c x.
Proof.
  intros Hm (Ht & Hf & Hs & Hsub) (d & Hq & Hc). split; [|done].
  apply (quiet_steady u d0 w.1 d Hq) in Hs.
  assert (forall run cs, decided r hist run cs -> UID run = u) as Hrun.
  { intros run cs [(ns & name & Hg) _]. by apply (lapless_answered _ _ _ Ht Hg). }
  assert (forall run cs laps, decided r hist run cs -> answered hist (LapsUsed (UID run)) (Ok laps) -> laps = 0) as Hlaps.
  { intros run cs laps Hd Ha. pose proof (Hrun _ _ Hd). by apply (lapless_answered _ _ _ Ht Ha). }
  assert (fails_unretried (hist ++ [Ev c x])) as Hfail.
  { intros item v f y [Ha|Ha%list_elem_of_singleton]%elem_of_app.
    - destruct (Hf _ _ _ _ Ha) as (ns & name & run & Hg & Hmax). exists ns, name, run. split; [by apply answered_app|done].
    - apply fail_call in Ha. destruct c; try done. destruct Hm as (run' & cs & laps & (Hd & _ & -> & _) & _ & Ha' & Hb).
      pose proof (Hlaps _ _ _ Hd Ha'). destruct Hd as [(ns & name & Hg) _]. exists ns, name, run'. split; [by apply answered_app|]. reflect_bools. lia. }
  assert (lapless_call X c x -> steady u d0 w'.1 -> (marked u d0 -> submits w'.2 = submits l0) ->
    undisturbed (hist ++ [Ev c x]) w') as Hdone.
  { intros. split; [|done]. apply Forall_app. split; [done|]. by repeat constructor. }
  destruct (calls_claims c) eqn:Hcc.
  - pose proof (claims_keep _ _ _ _ _ _ _ _ (steady_stable u d0) Hcc Hc Hs) as [Hs' Hl].
    apply Hdone; [|done|by rewrite Hl]. destruct c; try done; cbn in Hc.
    + by destruct Hc as (_ & _ & ?).
    + intros -> n ->. destruct Hc as (_ & env & _ & Hlift). pose proof (no_laps_counted env d (proj1 Hs)).
      destruct (DriverClaims.LapsUsed env u d).2; cbn in Hlift; [|done]. subst. done.
  - destruct c; try discriminate Hcc.
    destruct Hm as (run' & cs & laps & fence & [Hd _ _] & _ & _ & Ha & _ & ->).
    rewrite (Hlaps _ _ _ Hd Ha) in *.
    destruct (drive_calm d0 l0 _ _ _ _ _ _ Hc eq_refl eq_refl (conj Hs Hsub)) as [Hs' Hsub']. by apply Hdone.
Qed.

Lemma pass_undisturbed SetC HasC RemC ns name w t res w' :
  runs production (Reconcile SetC HasC RemC is_uuid r ns name) w t res w' ->
  undisturbed [] w -> lapless_trace t /\ fails_unretried t /\ undisturbed [] w'.
Proof.
  intros Hr Hw. eapply (obeys_runs _ any_answer _ undisturbed) in Hr as ((Ht & Hf & Hs) & _);
    [|apply undisturbed_step|apply ok_reconcile|exact Hw].
  split; [done|]. split; [done|]. split; [constructor|]. split; [apply fails_none|exact Hs].
Qed.
End loop.

(** * The property *)

(** C6: A retry lap repeats the task. A Run that has no dispatch marker of a lap
    never gets one: over any passes of the driver on the production stores, with any
    faults and any interference that writes no lap marker of this Run, every count of
    its laps is zero, and every drive is one without a lap. So its retries are never
    spent: FailEnter, which fails a Run out of retries, is called only in a pass that
    read the Run as allowing none, by no retry policy or one of zero. (A Run may still
    be failed otherwise, by FailClosedPark or the heartbeat.) And once it has the marker
    of its first dispatch, no later drive submits a task, since each reattaches to that
    one. *)
Theorem retry_lap_repeats_the_task {Conditions : Set} interval is_uuid sha256 principal u SetC HasC RemC
    (r : Driver) w (ts : list (list (Event (Call (Conditions := Conditions))))) w' :
  DriverClaims.has_lap u = false -> lapless u w.1 ->
  passes interval is_uuid sha256 principal u SetC HasC RemC r w ts w' ->
  lapless u w'.1 /\
  (forall t, t ∈ ts ->
     (forall n, answered t (LapsUsed u) (Ok n) -> n = 0) /\
     (forall o failed, answered t (Drive o) failed -> Lap o = None) /\
     (forall item v f x, answered t (FailEnter item v f) x -> exists ns name run, answered t (GetRun ns name) (Ok run) /\ maxRetries run <= 0)) /\
  (marked u w.1 -> marked u w'.1 /\ submits w'.2 = submits w.2).
Proof.
  intros Hu Hl Hp.
  assert (undisturbed u w.1 w.2 (Conditions := Conditions) [] w) as Hw
    by (split; [by constructor|]; split; [apply fails_none|]; split; [by split|done]).
  clear Hl. revert Hw. remember w as w0 eqn:E in |- * at 1 2 4 5. clear E.
  induction Hp as [w|w ns name t res w1 ts w2 Hr _ IH]; intros Hw.
  - destruct Hw as (_ & _ & [? Hm] & Hs). split; [done|]. split; [by intros t ?%elem_of_nil|]. auto.
  - destruct (pass_undisturbed interval is_uuid sha256 principal u Hu w0.1 w0.2 r _ _ _ _ _ _ _ _ _ Hr Hw)
      as (Ht & Hf & Hw1).
    destruct (IH Hw1) as (? & Hts & ?). split; [done|]. split; [|done].
    intros t' [->|Hin]%elem_of_cons; [|by apply Hts].
    split; [|split; [|exact Hf]]; intros *; intros Ha; by apply (lapless_answered _ _ _ _ Ht Ha).
Qed.

(** ** A lap that reattaches *)

Definition lap_run : Run (Conditions := unit) :=
  {| UID := "run-7"; Name := "r"; Namespace := "ns"; Generation := 1; Deleting := false; WorkItemRef := "i1";
     Agents := ["coder"]; ProjectRef := "p"; MaxRetries := Some 1; BackoffSeconds := None; SandboxRef := None;
     CapabilityManifest := None; Conditions_ := tt |}.

Definition lap_driver : Driver :=
  {| Sandbox := true; BindClear := false; EndpointGate := true; Driver.Settle := false; HasNotify := false;
     HasNotifyPhase := false; HasRand := false; MaxPasses_ := 2 |}.

Definition lap_effects : ProdEffects :=
  {| pe_item := "i1"; pe_run := "run-7"; pe_principal := "agent"; pe_initiatedBy := "" |}.

Definition lap_ports : Ports :=
  {| binder := Some (fun _ => Some "pod-1"%string); dispatcher := Some (fun _ _ => true); snapshotter := None;
     credWriter := None; refObserver := None |}.

(** Dispatched, with its lease lapsed at 200. *)
Definition dispatched_sample : Db :=
  set_a2a {[ "run-7"%string := ("i1", "run-7")%string ]}
    (put_claim "i1" (DriverClaims.set_step StepDispatching
       (default unheld (claims Custody.claimed_sample !! "i1"%string))) Custody.claimed_sample).

(** The pass that enters the lap, and the pass that drives it. *)
Definition lapsed : Db := (DriverClaims.RetryEnter "agent" (Custody.quiet 200) "i1" "run-7" 1 dispatched_sample).1.
Definition reacquired : Db := (DriverClaims.Acquire (fun _ => 30) "agent" (Custody.quiet 300) "i1" "run-7" "coder" lapsed).1.
Definition redriven : option (Fx * MemStore * option DriveError) :=
  Machine.Reconcile
    (H := prod_effects (fun s => s) lap_effects lap_ports (fun _ => Custody.quiet 300) (fun _ => id)) 3
    {| fx_db := reacquired; fx_calls := []; fx_err := None |} (MemStore_SetStep NewMemStore StepClaimingSandbox)
    (driveOptions lap_driver 1 0).
Definition redriven_db : Db := match redriven with Some (x, _, _) => fx_db x | None => reacquired end.

Definition lap_state (step : Step) (fence : Z) (holder : string) (lease : option Z) : DriverClaims.ClaimState :=
  {| DriverClaims.cs_step := step; DriverClaims.cs_fence := fence; DriverClaims.cs_holder := holder;
     DriverClaims.cs_lease := lease; DriverClaims.cs_run := "run-7"; DriverClaims.cs_lane := "in_progress" |}.

Definition lap_pass : list (Event (Call (Conditions := unit))) :=
  [ Ev (GetRun "ns" "r") (Ok lap_run);
    Ev (State "i1") (Ok (Some (lap_state StepDispatching 1 "agent" (Some 130))));
    Ev Now 200; Ev (SandboxRelease "run-7") tt; Ev (LapsUsed "run-7") (Ok 0);
    Ev (RetryEnter "i1" "run-7" 1) (Ok (Some 2)) ].

Definition drive_pass : list (Event (Call (Conditions := unit))) :=
  [ Ev (GetRun "ns" "r") (Ok lap_run);
    Ev (State "i1") (Ok (Some (lap_state StepClaimingSandbox 2 "" None)));
    Ev (Acquire "i1" "run-7" "coder") (Ok (Some 3));
    Ev (NewStore lap_run) (Ok tt); Ev (NewEffects lap_run) (Ok tt); Ev (LapsUsed "run-7") (Ok 0);
    Ev StoreFence 1; Ev (Drive (driveOptions lap_driver 1 0)) None;
    Ev StoreErr None; Ev EffectsErr None; Ev StoreStep StepRunning; Ev StoreStep StepRunning ].

Definition sample_production : forall X, Call (Conditions := unit) X -> Db * list PhysCall -> X -> Db * list PhysCall -> Prop :=
  production (fun _ => 30) (fun _ => true) (fun s => s) "agent" "run-7".

Lemma production_undisturbed X (c : Call X) d l x w' :
  production_call (fun _ => 30) (fun _ => true) (fun s => s) "agent" "run-7" X c d l x w'.1 w'.2 ->
  sample_production X c (d, l) x w'.
Proof. intros Hc. exists d. split; [|exact Hc]. split; [reflexivity|]. cbn. congruence. Qed.

(** A claims call at the clock [now]; a call that leaves the state. *)
Ltac claims_at now :=
  split; [reflexivity|]; exists (Custody.quiet now); split; vm_compute; reflexivity.

Ltac next w := step_call; eapply (runs_do _ _ _ _ _ _ w); [apply production_undisturbed|cbv beta].

Lemma lap_entered res :
  res = requeue (Resume.EqualJitter second backoffCap 1 (2 ^ 52)) ->
  runs sample_production (Reconcile (fun c _ => (c, true)) (fun _ _ => false) (fun c _ => (c, false)) (fun _ => true)
    lap_driver "ns" "r") (dispatched_sample, []) lap_pass res (lapsed, []).
Proof.
  intros ->. unfold lap_pass.
  next (dispatched_sample, @nil PhysCall).
  { split; [reflexivity|split; [reflexivity|]]. by intros run [= <-]. }
  next (dispatched_sample, @nil PhysCall). { claims_at 200. }
  next (dispatched_sample, @nil PhysCall). { done. }
  next (dispatched_sample, @nil PhysCall). { done. }
  next (dispatched_sample, @nil PhysCall). { claims_at 200. }
  next (lapsed, @nil PhysCall). { claims_at 200. }
  halt.
Qed.

Lemma lap_driven :
  runs sample_production (Reconcile (fun c _ => (c, true)) (fun _ _ => false) (fun c _ => (c, false)) (fun _ => true)
    lap_driver "ns" "r") (lapsed, []) drive_pass (requeue continueDelay) (redriven_db, [PBind "run-7"]).
Proof.
  unfold drive_pass.
  next (lapsed, @nil PhysCall).
  { split; [reflexivity|split; [reflexivity|]]. by intros run [= <-]. }
  next (lapsed, @nil PhysCall). { claims_at 300. }
  next (reacquired, @nil PhysCall). { claims_at 300. }
  do 2 (next (reacquired, @nil PhysCall); [done|]).
  next (reacquired, @nil PhysCall). { claims_at 300. }
  next (reacquired, @nil PhysCall). { done. }
  next (redriven_db, [PBind "run-7"]).
  { destruct redriven as [[[x s'] err]|] eqn:E; [|by vm_compute in E].
    exists MemStore, _, (MemStore_SetStep NewMemStore StepClaimingSandbox), s', lap_effects, lap_ports,
      (fun _ => Custody.quiet 300), (fun _ => id), 3%nat, x, err.
    split; [reflexivity|]. split; [by intros y z; split; [reflexivity|cbn; congruence]|].
    split; [exact E|]. unfold redriven_db. rewrite E. vm_compute in E. by simplify_eq. }
  do 4 (next (redriven_db, [PBind "run-7"]); [done|]).
  halt.
Qed.

Lemma retry_lap_repeats_the_task_witness :
  submits [PBind "run-7"] = submits [] /\ marked "run-7" redriven_db.
Proof.
  destruct (retry_lap_repeats_the_task (fun _ => 30) (fun _ => true) (fun s => s) "agent" "run-7"
    (fun c _ => (c, true)) (fun _ _ => false) (fun c _ => (c, false)) lap_driver
    (dispatched_sample, []) [lap_pass; drive_pass] (redriven_db, [PBind "run-7"])) as (_ & _ & Hm); [..|destruct Hm as [Hm Hs]; [by eexists|by split]].
  - reflexivity.
  - intros task item. cbn. by intros [<- [= <-]]%lookup_singleton_Some.
  - eapply one_pass; [by apply lap_entered|]. eapply one_pass; [apply lap_driven|]. apply no_passes.
Defined.

(** ** A drive past the go-live gate *)

(** A Run at its first step whose skill needs a credential that the project does
    not have: the pass reads no Secret, and the drive submits its task. *)
Definition gated_run : Run (Conditions := unit) :=
  {| UID := "run-7"; Name := "r"; Namespace := "ns"; Generation := 1; Deleting := false; WorkItemRef := "i1";
     Agents := ["coder"]; ProjectRef := "p"; MaxRetries := Some 1; BackoffSeconds := None; SandboxRef := None;
     CapabilityManifest := Some [{| ToolGate.ms_Namespace := "ns"; ToolGate.ms_Name := "deploy";
                                    ToolGate.CredentialType := "github" |}];
     Conditions_ := tt |}.

Definition gate_driver : Driver :=
  {| Sandbox := true; BindClear := false; EndpointGate := true; Driver.Settle := false; HasNotify := false;
     HasNotifyPhase := false; HasRand := false; MaxPasses_ := 3 |}.

Definition fresh_acquired : Db :=
  (DriverClaims.Acquire (fun _ => 30) "agent" (Custody.quiet 100) "i1" "run-7" "coder" (Custody.sample_db "todo")).1.
Definition fresh_driven : option (Fx * MemStore * option DriveError) :=
  Machine.Reconcile
    (H := prod_effects (fun s => s) lap_effects lap_ports (fun _ => Custody.quiet 100) (fun _ => id)) 4
    {| fx_db := fresh_acquired; fx_calls := []; fx_err := None |} NewMemStore (driveOptions gate_driver 1 0).
Definition fresh_db : Db := match fresh_driven with Some (x, _, _) => fx_db x | None => fresh_acquired end.

Definition fresh_state : DriverClaims.ClaimState :=
  {| DriverClaims.cs_step := StepPending; DriverClaims.cs_fence := 0; DriverClaims.cs_holder := "";
     DriverClaims.cs_lease := None; DriverClaims.cs_run := ""; DriverClaims.cs_lane := "todo" |}.

Definition fresh_pass : list (Event (Call (Conditions := unit))) :=
  [ Ev (GetRun "ns" "r") (Ok gated_run); Ev (State "i1") (Ok (Some fresh_state));
    Ev (Acquire "i1" "run-7" "coder") (Ok (Some 1));
    Ev (NewStore gated_run) (Ok tt); Ev (NewEffects gated_run) (Ok tt); Ev (LapsUsed "run-7") (Ok 0);
    Ev StoreFence 1; Ev (Drive (driveOptions gate_driver 1 0)) None;
    Ev StoreErr None; Ev EffectsErr None; Ev StoreStep StepRunning; Ev StoreStep StepRunning ].

Lemma fresh_run_dispatched_ungated :
  ToolGate.Admitted_ (ToolGate.EvaluateRunGate (ToolGate.GatedSkillsFromManifest (CapabilityManifest gated_run)) ∅) = false /\
  runs sample_production (Reconcile (fun c _ => (c, true)) (fun _ _ => false) (fun c _ => (c, false)) (fun _ => true)
    gate_driver "ns" "r") (Custody.sample_db "todo", []) fresh_pass (requeue continueDelay)
    (fresh_db, [PBind "run-7"; PSubmit "run-7" "run-7"]).
Proof.
  split; [vm_compute; reflexivity|]. unfold fresh_pass.
  next (Custody.sample_db "todo", @nil PhysCall).
  { split; [reflexivity|split; [reflexivity|]]. by intros run [= <-]. }
  next (Custody.sample_db "todo", @nil PhysCall). { claims_at 100. }
  next (fresh_acquired, @nil PhysCall). { claims_at 100. }
  do 2 (next (fresh_acquired, @nil PhysCall); [done|]).
  next (fresh_acquired, @nil PhysCall). { claims_at 100. }
  next (fresh_acquired, @nil PhysCall). { done. }
  next (fresh_db, [PBind "run-7"; PSubmit "run-7" "run-7"]).
  { destruct fresh_driven as [[[x s'] err]|] eqn:E; [|by vm_compute in E].
    exists MemStore, _, NewMemStore, s', lap_effects, lap_ports,
      (fun _ => Custody.quiet 100), (fun _ => id), 4%nat, x, err.
    split; [reflexivity|]. split; [by intros y z; split; [reflexivity|cbn; congruence]|].
    split; [exact E|]. unfold fresh_db. rewrite E. vm_compute in E. by simplify_eq. }
  do 4 (next (fresh_db, [PBind "run-7"; PSubmit "run-7" "run-7"]); [done|]).
  halt.
Qed.
